(* ===== verification/_CoqProject ===== *)
-Q . S2P
Prelude.v
GoStrings.v
Errors.v
Effects.v
GoCalendar.v
Decimal.v
DecimalRef.v
Value.v
Catalog.v
ExprLexer.v
ExprParser.v
ExprParserFacts.v
ExprEval.v
Expr.v
Engine.v
ConfigScalars.v
ConfigPricing.v
ConfigCredits.v
ConfigPlans.v
ConfigCommerce.v
ConfigLoad.v
Canonical.v
Tiers.v
RateCards.v
Pricing.v
ConfigFacts.v
ConfigPricingFacts.v
ConfigIntegrity.v
CanonicalFacts.v
CommerceFacts.v
RechargeWindow.v
CreditTypes.v
AutoRecharge.v
AutoRechargeService.v
RechargeFacts.v
AttemptStates.v
Outbox.v
OutboxFacts.v
OutboxDispatch.v
OutboxDispatchFacts.v
OutboxPassFacts.v
OutboxLifecycle.v
OutboxLifecycleFacts.v
Protocols.v
CreditAlerts.v
CreditAlertsFacts.v
CreditCalls.v
CatalogService.v
CatalogServiceFacts.v
Credits.v
CreditsMethods.v
CreditsFacts.v
CreditChargesFacts.v
CreditEventsFacts.v
BilledFacts.v
GoEncoding.v
ProviderRegistry.v
ProviderRegistryFacts.v
CommerceTypes.v
Commerce.v
CommerceManagement.v
PlanChange.v
CommerceCheckout.v
CommerceSamples.v
PlanChangeFacts.v
CommerceCheckoutFacts.v
CommerceScopeFacts.v
Billing.v
BillingLifecycle.v
BillingFacts.v
BillingLifecycleFacts.v
StripeEvents.v
DodoEvents.v
Webhooks.v
WebhookFacts.v
CommerceRecharge.v
Json.v
PostgresClient.v
PostgresRows.v
PostgresStore.v
