(* ===== verification/Prelude.v ===== *)
(** * Bursar: a verified model of the Go SDK

    Bursar prices usage events from a configuration catalog and keeps prepaid
    credits.  A catalog (operations, rate cards, credits, plans, commerce) is
    read from JSON or a map, validated and parsed; the pricing engine then turns
    a usage event into an exact cost report; the canonical form of a catalog is
    what gets stored and loaded again.  Around that pure core are services over
    a durable store: the catalog service caches the active catalog, the credit
    service charges, reserves, settles and refunds, commerce sells plans and
    top-ups through payment providers, billing ingests what the providers
    report, automatic recharge charges a saved payment method, and the outbox
    worker delivers the events the store committed.  This library models that
    code as it is written under src/golang/ and proves what makes it correct.

    ** How Go is modelled

    A function returning [(T, error)] returns [result T]; errors are values of
    [error] with the code's messages, codes and categories (errors.go).  A Go
    map is a [gmap]; [range] over it goes in an unspecified order, so every
    function that ranges takes a [RangeOrder] (any permutation of the entries),
    and order independence is a theorem where it holds.  [any] is the type of
    dynamic values ([map[string]any], numbers of every Go type, [json.Number],
    decimals).  Machine integers keep their bounds ([configInt64], [int32],
    [time.Duration]).  A run-time panic is the error [GoPanic].  A loop or
    recursion that is not structural runs on fuel and answers [FuelExhausted]
    without it; a theorem shows that the fuel chosen always suffices.

    A service method that calls a store, a payment provider or a handler is a
    program ([Effects.prog]): a tree of calls whose continuation takes whatever
    answer comes back.  [runs p t r] says that [p] makes the calls of the trace
    [t], in that order and with those answers, and returns [r]; a theorem about
    every run holds of every store and every provider.  A service that calls
    another embeds the other's program ([Protocols.embed]), so that a theorem
    about the callee is used in the caller's proof.  Goroutines are transition
    systems (Effects.v) whose steps are internal moves, ticks of a timer and
    calls from outside, interleaved in any order; methods under a mutex are
    programs whose calls are the critical sections.

    Code outside the repository is a class of operations with its documented
    laws: shopspring/decimal ([DecimalOps], [DecimalLaws], with the concrete
    instance of DecimalRef.v that satisfies every law), the time-zone database
    ([TimeZones], [Zones]), regexp2 ([Regexps]), the JSON Schema validator
    ([Schema]), google/uuid's and pgx's scan of a UUID ([Uuids]), the decoding
    of a provider's JSON ([StripeObjects], [DodoPayloads]), what fmt.Sprint
    prints of a composite value ([Printed]).  [encoding/json] is its token stream
    where the catalog is decoded, and its decoder and encoder of texts (Json.v,
    GoEncoding.v) elsewhere; [yaml.v3] is its node tree.  What a provider's
    client or the PostgreSQL driver does (verify a signature, run a query,
    commit) is a call.

    ** The parts

    - Prelude.v: the error monad, loops, map iteration, shared lemmas.
      GoStrings.v, GoCalendar.v, GoEncoding.v, Json.v: what is used of packages
      strings, strconv, unicode/utf8 and regexp; of package time, with zones; of
      crypto/sha256, hex and json.Marshal; of json.Decoder.  Effects.v,
      Protocols.v: programs over calls, transition systems, and what a program
      may call and when.
    - Errors.v: errors.go.  Decimal.v, DecimalRef.v: decimals, their rounding,
      amount.go, and a concrete decimal.  Value.v: dynamic values and
      canonicalJSONValue.  Catalog.v: the structs of config.go.
    - ExprLexer.v, ExprParser.v, ExprEval.v: expr.go, the pricing formulas.
    - Engine.v: metrics.go, breakdown.go and engine.go.
    - ConfigScalars.v, ConfigPricing.v, ConfigCredits.v, ConfigPlans.v,
      ConfigCommerce.v, ConfigLoad.v: the parsers of config.go, section by
      section, up to parseBursarConfig, LoadConfigFromMap, LoadConfigJSON and
      the rollout functions.  Canonical.v: the canonical serializers.
    - CreditTypes.v, CreditAlerts.v, CreditCalls.v, CatalogService.v, Credits.v,
      CreditsMethods.v: the checks of credit_store.go, the alert tracker, the
      catalog service of catalog.go under its lock, and the credit service of
      credits.go with its events and its billed operations.
    - RechargeWindow.v, AutoRecharge.v, AutoRechargeService.v: auto_recharge.go,
      from the calendar and rolling windows to the policy methods and
      ProcessIfNeeded; AttemptStates.v: the attempt states and the transition
      path of postgres_commerce_state.go; CommerceRecharge.v: the account-scoped
      facade of commerce_auto_recharge.go.
    - Outbox.v, OutboxDispatch.v, OutboxLifecycle.v: outbox_worker.go, its
      options, retry delays and diagnostics; one pass over the claimed events
      with their heartbeats; the worker's Start, Stop and run loop.
    - ProviderRegistry.v: the registry of provider.go.  CommerceTypes.v,
      Commerce.v, CommerceCheckout.v, CommerceManagement.v, PlanChange.v:
      commerce.go and commerce_management.go.  CommerceSamples.v: a service, its
      stores and its provider to run them on.
    - Billing.v, BillingLifecycle.v: billing.go, billing_lifecycle.go,
      billing_management.go, and the event processing of
      postgres_billing_lifecycle.go over the store's methods.
    - StripeEvents.v, DodoEvents.v, Webhooks.v: the webhook mappers of the two
      providers and the way from a raw request to the ingested event.
    - PostgresClient.v, PostgresRows.v, PostgresStore.v: the transactions of
      postgres_client.go; the reading of rows and the writing of arguments of
      postgres_store.go; its methods on balances, charges, leases, grants,
      catalogs, plans, reports, the ledger and teams.  The SQL functions they
      call are what the queries answer.

    Each definition has the name of the Go function it translates; the body of
    a loop or of a switch case that is long enough has a definition of its own
    in snake case, next to the function it belongs to.  A record field is
    [Struct_Field].  A file named after a part with [Facts] holds its theorems;
    Tiers.v, RateCards.v and Pricing.v hold those of the engine, Expr.v those of
    the formulas, ConfigIntegrity.v those across the sections of a catalog.

    ** What is proved

    - Pricing an event (Pricing.v, Tiers.v, RateCards.v): Calculate returns a
      report exactly when a declarative specification [bills] holds of the event
      and the report is the one of the billed value; the total is that value
      rounded once to six places; the result does not depend on map order; every
      failure is a request error (ConfigPricingFacts.v); graduated and volume
      charges equal the sum over bands; the walks along rate-card inheritance
      terminate and agree.
    - Formulas (ExprParserFacts.v, Expr.v): parsing is total and yields only
      trees the evaluator knows; ValidateExpression accepts exactly the usable
      formulas; a validated formula evaluates on every usage up to three
      arithmetic errors, and never panics.
    - Loading a catalog (ConfigFacts.v, ConfigPricingFacts.v,
      ConfigIntegrity.v, CommerceFacts.v): a catalog that loads is consistent
      across its sections; a price that loads can be charged; offers, provider
      objects and recharge guardrails are valid; JSON is decoded without losing
      a key.  The canonical form (CanonicalFacts.v): windows, expiries and
      charges read back as they were.
    - Credits (CreditsFacts.v, CreditChargesFacts.v, CreditEventsFacts.v,
      CreditAlertsFacts.v, BilledFacts.v, CatalogServiceFacts.v): a charging
      method makes one charging call, for the rounded amount or the cost the
      catalog answered; every event and hook reports something the store had
      answered; low-balance alerts are edge triggered and their memory is
      bounded; billed work is settled under one replay key or its lease is
      released; under any interleaving of the catalog service a lease is priced
      at the revision of its snapshot.
    - Automatic recharge (RechargeFacts.v, RechargeWindow.v, AttemptStates.v,
      CommerceRecharge.v): a charge is made at most once, only below the
      threshold, with a method the policy allows, after the attempt was claimed;
      the facade charges for the account and balance its store answered; a
      calendar window contains its instant and lies between local midnights; the
      states of an attempt follow a shortest path the database admits.
    - The outbox (OutboxFacts.v, OutboxDispatchFacts.v, OutboxPassFacts.v,
      OutboxLifecycleFacts.v): a worker that is constructed has usable options;
      every event is settled once, as its handlers, its lease and the store say;
      a pass cannot deadlock, ends, and accounts for what it claimed; after a
      Stop that waited nothing runs or starts.
    - Commerce (ProviderRegistryFacts.v, PlanChangeFacts.v,
      CommerceCheckoutFacts.v, CommerceScopeFacts.v): a provider is built once
      per generation of the registry; a plan changes once, for the quote the
      caller accepted, under a durable change; a checkout opens one session for
      the request its intent carries; every method stays within its account.
    - Billing and webhooks (BillingFacts.v, BillingLifecycleFacts.v,
      WebhookFacts.v): an event is handled under a claim that is settled once;
      processing posts to the ledger at most once, for what is warranted, and
      never panics; a grace period ends only when it has run out; a webhook
      ingests at most the one event its provider verified; a Stripe webhook is a
      payment only when its object says so, and is retried only for a failed
      retrieval; two Dodo webhooks share an identity only as the same event.
    - PostgreSQL (Json.v, PostgresRows.v, PostgresClient.v, PostgresStore.v):
      what json.Marshal wrote is read back; amounts cross the boundary exactly;
      WithTx is one configured transaction, committed exactly when it succeeds,
      rolled back and released otherwise; a mutating method makes one call, fixed
      before the database answers, and only reads after it; paging through the
      ledger visits every entry once and ends.
    - What the model found (each a theorem where PROJECT.json names one).
      Catalogs: a first tier bound below zero overbills, an empty measure name is
      accepted, amounts below six places are repriced when a catalog is
      published, a cache without a lifetime never refreshes.  Recharge: an
      unknown status of a charge blocks the account, a window of too many days
      wraps around, a calendar window starts off midnight where the zone skips
      it.  Credits: a cycle of too many days expires at once.  Commerce: an
      unpaid subscription is never cancelled, an interrupted plan change is
      refused on retry, a long operation key fails late, a webhook ignored on
      purpose is refused.  Billing: a lost claim is acknowledged, a resumed
      subscription still ends.  PostgreSQL: a tenant without an active catalog is
      an error, and [Indeterminate] is unset for a lost commit and set for work
      that was rolled back.

    ** Fuel

    The lexer runs on the length of the source, since every token consumes a
    byte; the parser on the number of tokens at each level and on the nesting
    they allow; the inheritance walks on the number of rate cards plus two,
    since a card is visited once; the decoder of JSON tokens on their number
    plus one, that of JSON texts on twice the length plus one, since a value and
    what holds it each consume a byte; the rune decoder on the number of bytes;
    the doubling of the retry delay on the attempt number.
    parsePricingExpression_total, operationPricing_correct,
    validateRateCardInheritance_correct, decodeJSONValue_exact,
    decodeJSONUseNumber_total and boundedOutboxRetryDelay_exact show that none
    of them ever runs out.

    ** What is assumed

    The decimal laws; that a zone's lookup answers the offset in force and the
    range it holds in ([ZoneLaws]) and, for calendar windows, that the local
    midnights concerned exist once; that [list_ledger] keeps its keyset contract;
    and, where a theorem says so, that the processor of an event changes in its
    store only what that event is about.  A registry is cleared fewer than 2^64 times.  Sinks, hooks and
    factories may fail but their panics are not followed further than the code
    recovers them.  EqualFold and the case of letters are those of ASCII, apart
    from the runes the source names.  A [json.Number] of a decoded document is a
    JSON literal.

    ** What is not modelled

    Reading files, yaml.v3 decoding and the schema library; GetAccountOverview
    and Close, the retry policy, the emitter of credit events, the catalog
    projection, accounts and provider receipts, the mock provider, the wiring of
    New, WebhookRequestFromHTTP: pure I/O, copies or helpers next to the core.
    The outgoing calls of the Stripe and Dodo adapters build requests for
    third-party clients.  Of the PostgreSQL stores, opening a pool, quota states
    and events (they parse floats), and the commerce and billing state, whose
    logic is SQL apart from the attempt transitions.  Storage maintenance, the
    ClickHouse and S3 backends, telemetry, integrations, and the SDKs in other
    languages. *)

From Stdlib Require Export ZArith Lia Ascii String.
From stdpp Require Export base tactics option list gmap strings fin_maps sorting pretty.

#[export] Set Default Goal Selector "!".

(** ** Go errors

    [BursarError] is the struct of [errors.go]; [ExternalError] is an error
    value built by code outside the repository (a decimal, regexp or driver
    failure), known only by its text; [JoinedError] is [errors.Join],
    [WrappedError] [fmt.Errorf] with one [%w].
    [GoPanic] is a run-time panic (an index out of range), which ends the
    call like an error no caller can inspect.
    [FuelExhausted] is no Go value: it marks a loop of the model that ran out
    of fuel, and the termination theorems show that it never escapes. *)
Inductive error :=
  | BursarError (Message Code Category : string) (Retryable Indeterminate : bool)
      (Details : gmap string string) (cause : option error)
  | ExternalError (text : string)
  | JoinedError (errs : list error)
  | WrappedError (text : string) (err : error)
  | GoPanic (text : string)
  | FuelExhausted.

(** ** The error monad: a Go function returning [(A, error)] *)
Inductive result (A : Type) :=
  | Ok (a : A)
  | Err (e : error).
Arguments Ok {A} a.
Arguments Err {A} e.

Definition bind {A B} (c : result A) (k : A -> result B) : result B :=
  match c with
  | Ok a => k a
  | Err e => Err e
  end.

Declare Scope go_scope.
Delimit Scope go_scope with go.
Notation "x <- c ;; k" := (bind c (fun x => k))
  (at level 100, c at next level, right associativity) : go_scope.
Notation "' p <- c ;; k" := (bind c (fun x => match x with p => k end))
  (at level 100, p pattern, c at next level, right associativity) : go_scope.
Notation "c ;;; k" := (bind c (fun _ => k))
  (at level 100, right associativity) : go_scope.
Notation "a =? b" := (String.eqb a b) (at level 70) : go_scope.
Open Scope go_scope.

Definition is_Ok {A} (r : result A) : bool :=
  match r with Ok _ => true | Err _ => false end.

(** [x != nil] *)
Definition is_some {A} (x : option A) : bool := match x with Some _ => true | None => false end.

(** [for _, x := range xs { v, err := f(x); if err != nil { return err }; out = append(out, v) }] *)
Fixpoint map_result {A B} (f : A -> result B) (xs : list A) : result (list B) :=
  match xs with
  | [] => Ok []
  | x :: rest => y <- f x ;; ys <- map_result f rest ;; Ok (y :: ys)
  end.

(** [for _, x := range xs { if err := f(x); err != nil { return err } }] *)
Fixpoint for_each {A} (f : A -> result unit) (xs : list A) : result unit :=
  match xs with
  | [] => Ok tt
  | x :: rest => f x ;;; for_each f rest
  end.

(** A loop that threads an accumulator and may stop with an error. *)
Fixpoint fold_result {A B} (f : B -> A -> result B) (acc : B) (xs : list A) : result B :=
  match xs with
  | [] => Ok acc
  | x :: rest => acc' <- f acc x ;; fold_result f acc' rest
  end.

Lemma bind_Ok {A B} (c : result A) (k : A -> result B) (b : B) :
  bind c k = Ok b <-> exists a, c = Ok a /\ k a = Ok b.
Proof. destruct c; naive_solver. Qed.

Lemma bind_Err {A B} (c : result A) (k : A -> result B) (e : error) :
  bind c k = Err e <-> c = Err e \/ exists a, c = Ok a /\ k a = Err e.
Proof. destruct c; naive_solver. Qed.

(** A result that fails, if at all, with one of the errors of [P]. *)
Definition fails_only {A} (P : error -> Prop) (r : result A) : Prop :=
  match r with Ok _ => True | Err e => P e end.

Section fails_only.
Context (P : error -> Prop).

Lemma fails_only_Ok {A} (a : A) : fails_only P (Ok a).
Proof. done. Qed.
Lemma fails_only_Err {A} e : P e -> fails_only P (Err e : result A).
Proof. done. Qed.
Lemma fails_only_bind {A B} (c : result A) (k : A -> result B) :
  fails_only P c -> (forall a, c = Ok a -> fails_only P (k a)) -> fails_only P (bind c k).
Proof. destruct c; cbn; auto. Qed.
Lemma fails_only_for_each {A} (f : A -> result unit) xs :
  (forall x, fails_only P (f x)) -> fails_only P (for_each f xs).
Proof.
  intros Hf. induction xs as [|x xs IH]; cbn; [done|]. by apply fails_only_bind.
Qed.
Lemma fails_only_fold {A B} (f : B -> A -> result B) acc xs :
  (forall acc x, fails_only P (f acc x)) -> fails_only P (fold_result f acc xs).
Proof.
  intros Hf. revert acc. induction xs as [|x xs IH]; intros acc; cbn; [done|]. by apply fails_only_bind.
Qed.
End fails_only.

(** Splits every hypothesis that says a bind returned, until none is left. *)
Ltac inv_bind :=
  repeat match goal with
  | H : bind _ _ = Ok _ |- _ =>
      let a := fresh "a" in let Ha := fresh "H" a in
      apply bind_Ok in H as (a & Ha & H)
  | H : Ok _ = Ok _ |- _ => injection H as H; try subst
  | H : Err _ = Ok _ |- _ => discriminate H
  | H : Ok _ = Err _ |- _ => discriminate H
  | H : Err _ = Err _ |- _ => injection H as H; try subst
  end.

Lemma map_result_Ok {A B} (f : A -> result B) xs ys :
  map_result f xs = Ok ys <-> Forall2 (fun x y => f x = Ok y) xs ys.
Proof.
  revert ys; induction xs as [|x xs IH]; intros ys; cbn.
  - split; [intros [= <-]; constructor | intros HF; by inversion HF].
  - split.
    + intros H; inv_bind. constructor; [done | by apply IH].
    + intros HF. inversion HF as [|? y ? ys' Hy Hys]; subst. rewrite Hy; cbn.
      apply IH in Hys. by rewrite Hys.
Qed.

Lemma map_result_length {A B} (f : A -> result B) xs ys :
  map_result f xs = Ok ys -> length ys = length xs.
Proof. intros H%map_result_Ok. symmetry. by eapply Forall2_length. Qed.

Lemma map_result_Err {A B} (f : A -> result B) xs e :
  map_result f xs = Err e <->
  exists i x, xs !! i = Some x /\ f x = Err e /\ Forall (fun y => exists v, f y = Ok v) (take i xs).
Proof.
  induction xs as [|x xs IH]; cbn.
  - split; [done | naive_solver].
  - rewrite bind_Err. split.
    + intros [He | (v & Hv & [He | (ys & _ & [=])]%bind_Err)].
      * by exists 0, x.
      * apply IH in He as (i & x' & ? & ? & ?).
        exists (S i), x'. split_and!; [done.. |]. constructor; eauto.
    + intros (i & x' & Hi & He & HF). destruct i as [|i]; cbn in *.
      * left. congruence.
      * right. apply Forall_cons in HF as [[v Hv] HF]. exists v. split; [done |].
        apply bind_Err. left. apply IH. by exists i, x'.
Qed.

Lemma for_each_Ok {A} (f : A -> result unit) xs :
  for_each f xs = Ok tt <-> Forall (fun x => f x = Ok tt) xs.
Proof.
  induction xs as [|x xs IH]; cbn; [by split|].
  rewrite Forall_cons, <- IH. destruct (f x) as [[]|]; cbn; naive_solver.
Qed.

Lemma for_each_Err {A} (f : A -> result unit) xs e :
  for_each f xs = Err e -> exists x, x ∈ xs /\ f x = Err e.
Proof.
  induction xs as [|x xs IH]; cbn; [done|].
  intros [H | (a & _ & (x' & ? & ?)%IH)]%bind_Err.
  - exists x. split; [left|done].
  - exists x'. split; [by right|done].
Qed.

(** Whether a loop succeeds does not depend on the order of its list. *)
Lemma for_each_perm {A} (f : A -> result unit) xs ys :
  xs ≡ₚ ys -> for_each f xs = Ok tt <-> for_each f ys = Ok tt.
Proof. intros Hp. by rewrite !for_each_Ok, Hp. Qed.

Lemma fold_result_app {A B} (f : B -> A -> result B) acc xs ys :
  fold_result f acc (xs ++ ys) = (acc' <- fold_result f acc xs ;; fold_result f acc' ys).
Proof.
  revert acc. induction xs as [|x xs IH]; intros acc; cbn; [done|].
  destruct (f acc x); cbn; auto.
Qed.

(** An invariant of the accumulator that every step keeps holds at the end. *)
Lemma fold_result_inv {A B} (f : B -> A -> result B) (P : B -> Prop) xs :
  (forall acc x acc', x ∈ xs -> P acc -> f acc x = Ok acc' -> P acc') ->
  forall acc acc', P acc -> fold_result f acc xs = Ok acc' -> P acc'.
Proof.
  induction xs as [|x xs IH]; intros Hstep acc acc' HP Hf; cbn in Hf; inv_bind; [done|].
  eapply (IH ltac:(intros; eapply Hstep; [by right|done..])); [|done].
  eapply Hstep; [by left | done..].
Qed.

(** ** Ranging over a Go map

    The language leaves the order of [for k, v := range m] unspecified.  The
    model takes it as an argument: any function that lists the bindings of a
    map in some order.  Every theorem is proved for every such order. *)
Class RangeOrder := {
  range : forall {A}, gmap string A -> list (string * A);
  range_perm : forall A (m : gmap string A), range m ≡ₚ map_to_list m;
}.

(** The order of the map's own binding list: the instance the witnesses use. *)
Definition canonical_range : RangeOrder :=
  {| range := fun A m => map_to_list m; range_perm := fun A m => Permutation_refl _ |}.

(** The opposite order, to run the witnesses under two. *)
Definition reverse_range : RangeOrder :=
  {| range := fun A m => reverse (map_to_list m);
     range_perm := fun A m => reverse_Permutation (map_to_list m) |}.

Section range.
Context `{RangeOrder}.

Lemma elem_of_range {A} (m : gmap string A) k v : (k, v) ∈ range m <-> m !! k = Some v.
Proof. by rewrite range_perm, elem_of_map_to_list. Qed.

Lemma range_length {A} (m : gmap string A) : length (range m) = size m.
Proof. by rewrite range_perm, length_map_to_list. Qed.

Lemma NoDup_fst_range {A} (m : gmap string A) : NoDup (range m).*1.
Proof. rewrite range_perm. apply NoDup_fst_map_to_list. Qed.

Lemma for_each_range {A} (f : string * A -> result unit) (m : gmap string A) :
  for_each f (range m) = Ok tt <-> forall k v, m !! k = Some v -> f (k, v) = Ok tt.
Proof.
  rewrite for_each_Ok, Forall_forall.
  split.
  - intros Hall k v Hk. by apply Hall, elem_of_range.
  - intros Hall [k v] Hk. by apply Hall, elem_of_range.
Qed.

(** ** Loops that fill a map

    [f] puts under each key what [g] computes for it, if anything.  The map
    it builds is fixed by [g] alone: the order of the loop does not show. *)
Definition insert_optional {B} (k : string) (o : option B) (m : gmap string B) : gmap string B :=
  match o with
  | Some b => <[k := b]> m
  | None => m
  end.

Lemma fold_result_insert {A B} (f : gmap string B -> string * A -> result (gmap string B))
    (g : string -> A -> result (option B)) (l : list (string * A)) :
  (forall acc k a, f acc (k, a) = (o <- g k a ;; Ok (insert_optional k o acc))) ->
  NoDup l.*1 -> forall acc0 acc, (forall k, k ∈ l.*1 -> acc0 !! k = None) ->
  fold_result f acc0 l = Ok acc <->
  (forall k a, (k, a) ∈ l -> g k a = Ok (acc !! k)) /\ (forall k, k ∉ l.*1 -> acc !! k = acc0 !! k).
Proof.
  intros Hf. induction l as [|[k a] l IH]; intros Hnd acc0 acc Hfresh; cbn.
  - split; [intros [= <-]; set_solver|]. intros [_ Heq]. f_equal. symmetry.
    apply map_eq. intros k. apply Heq. set_solver.
  - cbn in Hnd. apply NoDup_cons in Hnd as [Hk Hnd]. rewrite Hf.
    assert (forall o k', k' ∈ l.*1 -> insert_optional k o acc0 !! k' = None) as Hfresh'.
    { intros o k' Hk'. destruct o; cbn; [rewrite lookup_insert_ne by (intros ->; done)|]; set_solver. }
    destruct (g k a) as [o|e] eqn:Hg; cbn [bind].
    2: { split; [done|]. intros [Hall _]. specialize (Hall k a ltac:(set_solver)). congruence. }
    rewrite (IH Hnd _ acc (Hfresh' o)).
    assert (insert_optional k o acc0 !! k = o) as Hko.
    { destruct o; cbn; [apply lookup_insert_eq|]. apply Hfresh. set_solver. }
    assert (forall k', k' <> k -> insert_optional k o acc0 !! k' = acc0 !! k') as Hne.
    { intros k' Hk'. destruct o; cbn; [by apply lookup_insert_ne | done]. }
    split; intros [Hin Hout]; split.
    + intros k' a' [[= -> ->] | Hin']%elem_of_cons; [|auto]. by rewrite Hg, (Hout k Hk), Hko.
    + intros k' [Hk' Hl]%not_elem_of_cons. by rewrite Hout, Hne.
    + intros k' a' Hin'. apply Hin. by right.
    + intros k' Hl. destruct (decide (k' = k)) as [->|Hk'].
      * rewrite Hko. specialize (Hin k a ltac:(set_solver)). congruence.
      * rewrite Hne by done. apply Hout. set_solver.
Qed.

Lemma fold_result_range {A B} (f : gmap string B -> string * A -> result (gmap string B))
    (g : string -> A -> result (option B)) (m : gmap string A) acc :
  (forall acc k a, f acc (k, a) = (o <- g k a ;; Ok (insert_optional k o acc))) ->
  fold_result f ∅ (range m) = Ok acc <->
  forall k, match m !! k with Some a => g k a = Ok (acc !! k) | None => acc !! k = None end.
Proof.
  intros Hf. rewrite (fold_result_insert f g) by (try done; try apply NoDup_fst_range; intros; apply lookup_empty).
  split.
  - intros [Hin Hout] k. destruct (m !! k) as [a|] eqn:Hk; [by apply Hin, elem_of_range|].
    rewrite Hout, lookup_empty; [done|]. intros ([k' a] & -> & Ha)%list_elem_of_fmap.
    apply elem_of_range in Ha. cbn in Hk. congruence.
  - intros Hall. split.
    + intros k a Ha%elem_of_range. specialize (Hall k). by rewrite Ha in Hall.
    + intros k Hk. rewrite lookup_empty. specialize (Hall k). destruct (m !! k) as [a|] eqn:Hm; [|done].
      exfalso. apply Hk. apply list_elem_of_fmap. exists (k, a). split; [done|]. by apply elem_of_range.
Qed.
End range.
