(* ===== verification/GoStrings.v ===== *)
(** * Go strings

    Go strings are byte sequences, modelled as [String.string].  This file
    holds the parts of the standard packages [strings], [unicode], [fmt] and
    [regexp] that the modelled code calls, each written for the patterns and
    arguments the code passes. *)

From S2P Require Export Prelude.

Definition byte_of (c : ascii) : Z := Z.of_nat (nat_of_ascii c).

Definition between (lo hi : ascii) (c : ascii) : bool :=
  (byte_of lo <=? byte_of c)%Z && (byte_of c <=? byte_of hi)%Z.

Definition is_digit : ascii -> bool := between "0" "9".
Definition is_lower : ascii -> bool := between "a" "z".
Definition is_upper : ascii -> bool := between "A" "Z".

(** [unicode.IsSpace] on a rune below 256. *)
Definition IsSpace (c : ascii) : bool :=
  let b := byte_of c in
  ((9 <=? b) && (b <=? 13) || (b =? 32) || (b =? 133) || (b =? 160))%Z.

Fixpoint all_chars (p : ascii -> bool) (s : string) : bool :=
  match s with
  | EmptyString => true
  | String c rest => p c && all_chars p rest
  end.

(** The longest prefix whose bytes satisfy [p], and what is left. *)
Fixpoint span (p : ascii -> bool) (s : string) : string * string :=
  match s with
  | String c rest =>
      if p c then let '(a, b) := span p rest in (String c a, b) else (EmptyString, s)
  | EmptyString => (EmptyString, EmptyString)
  end.

Fixpoint HasPrefix (s prefix : string) {struct prefix} : bool :=
  match prefix, s with
  | EmptyString, _ => true
  | String a prefix', String b s' => Ascii.eqb a b && HasPrefix s' prefix'
  | String _ _, EmptyString => false
  end.

(** [strings.Contains] *)
Fixpoint Contains (s sub : string) : bool :=
  HasPrefix s sub || match s with EmptyString => false | String _ s' => Contains s' sub end.

(** UTF-8 encodings of the Unicode white space above ASCII, as
    [strings.TrimSpace] decodes them. *)
Definition wide_spaces : list (list Z) :=
  ([[194; 133]; [194; 160]; [225; 154; 128]] ++
  ((fun z => [226; 128; z]) <$> [128; 129; 130; 131; 132; 133; 134; 135; 136; 137; 138; 168; 169; 175]) ++
  [[226; 129; 159]; [227; 128; 128]])%Z.

Definition ascii_space (c : ascii) : bool :=
  let b := byte_of c in ((9 <=? b) && (b <=? 13) || (b =? 32))%Z.

Definition bytes (s : string) : list Z := byte_of <$> list_ascii_of_string s.

(** Bytes of the white space rune that starts [l]: 0 when there is none. *)
Definition leading_space (wide : list (list Z)) (l : list ascii) : nat :=
  match l with
  | [] => 0
  | c :: _ =>
      if ascii_space c then 1
      else match list_find (fun w => firstn (length w) (byte_of <$> l) = w) wide with
           | Some (_, w) => length w
           | None => 0
           end
  end.

Fixpoint trim_left (wide : list (list Z)) (fuel : nat) (l : list ascii) : list ascii :=
  match fuel with
  | O => l
  | S fuel' =>
      match leading_space wide l with
      | O => l
      | n => trim_left wide fuel' (skipn n l)
      end
  end.

(** [strings.TrimSpace]: leading runes, then trailing ones read backwards. *)
Definition TrimSpace (s : string) : string :=
  let l := list_ascii_of_string s in
  let l := trim_left wide_spaces (length l) l in
  string_of_list_ascii (rev (trim_left (@rev Z <$> wide_spaces) (length l) (rev l))).

(** [fmt.Sprintf("%d", z)] *)
Definition itoa (z : Z) : string := pretty z.

(** One character of [strconv.Quote]: bytes above ASCII stay, as they do in the
    encoding of a printable rune. *)
Definition hex_digit (n : nat) : ascii :=
  ascii_of_nat (if (n <? 10)%nat then 48 + n else 87 + n).
Definition quote_char (c : ascii) : string :=
  let n := nat_of_ascii c in
  let escaped e := String "092" (String e EmptyString) in
  if (n =? 34)%nat || (n =? 92)%nat then escaped c
  else if (n =? 7)%nat then escaped "a"%char else if (n =? 8)%nat then escaped "b"%char
  else if (n =? 9)%nat then escaped "t"%char else if (n =? 10)%nat then escaped "n"%char
  else if (n =? 11)%nat then escaped "v"%char else if (n =? 12)%nat then escaped "f"%char
  else if (n =? 13)%nat then escaped "r"%char
  else if (n <? 32)%nat || (n =? 127)%nat
  then String "092" (String "x" (String (hex_digit (n / 16)) (String (hex_digit (n mod 16)) EmptyString)))
  else String c EmptyString.
Fixpoint quote_chars (s : string) : string :=
  match s with
  | EmptyString => EmptyString
  | String c rest => quote_char c +:+ quote_chars rest
  end.

(** [fmt.Sprintf("%q", s)] *)
Definition Quote (s : string) : string :=
  String "034" (quote_chars s +:+ String "034" EmptyString).

(** [sort.Strings]: byte order, kept as the sorted permutation it returns. *)
Definition string_le (a b : string) : Prop := String.leb a b = true.
#[export] Instance string_le_dec : RelDecision string_le.
Proof. intros a b. unfold string_le. apply _. Defined.
Definition sort_strings (l : list string) : list string := merge_sort string_le l.

Lemma sort_strings_perm l : sort_strings l ≡ₚ l.
Proof. apply merge_sort_Permutation. Qed.

Lemma elem_of_sort_strings x l : x ∈ sort_strings l <-> x ∈ l.
Proof. by rewrite sort_strings_perm. Qed.

(** ** Regular expressions, as recognisers *)

(** The pattern "^[a-z][a-z0-9_]*$". *)
Definition is_identifier (s : string) : bool :=
  match s with
  | EmptyString => false
  | String c rest => is_lower c && all_chars (fun c => is_lower c || is_digit c || Ascii.eqb c "_") rest
  end.

(** The pattern "^-?(?:0|[1-9][0-9]*)(?:\.[0-9]+)?$". *)
Definition matches_decimal (s : string) : bool :=
  let s := match s with String "-" rest => rest | _ => s end in
  let '(whole, rest) := span is_digit s in
  match whole with
  | EmptyString => false
  | String "0" (String _ _) => false
  | _ =>
      match rest with
      | EmptyString => true
      | String "." (String _ _ as frac) => all_chars is_digit frac
      | _ => false
      end
  end.

(** The number a string of digits denotes, read on from [acc]. *)
Fixpoint digits_value (acc : Z) (s : string) : Z :=
  match s with
  | EmptyString => acc
  | String c rest => digits_value (acc * 10 + (byte_of c - 48)) rest
  end.

(** The pattern "^[A-Z]{2}(?:-[A-Z0-9]{1,3})?$". *)
Definition matches_region (s : string) : bool :=
  match s with
  | String a (String b rest) =>
      is_upper a && is_upper b &&
      match rest with
      | EmptyString => true
      | String "-" tail =>
          (1 <=? length (list_ascii_of_string tail))%nat && (length (list_ascii_of_string tail) <=? 3)%nat &&
          all_chars (fun c => is_upper c || is_digit c) tail
      | _ => false
      end
  | _ => false
  end.

(** The pattern "^[A-Z]{3}$". *)
Definition matches_currency (s : string) : bool :=
  (String.length s =? 3)%nat && all_chars is_upper s.

(** ** Lemmas *)
Lemma append_cons c a b : String c a +:+ b = String c (a +:+ b).
Proof. done. Qed.

Lemma append_nil b : "" +:+ b = b.
Proof. done. Qed.

#[export] Hint Rewrite append_cons append_nil : gostring.

Lemma span_app p s : (span p s).1 +:+ (span p s).2 = s.
Proof.
  induction s as [|c s IH]; cbn; [done|].
  destruct (p c); [|done]. revert IH. destruct (span p s). cbn. rewrite append_cons. congruence.
Qed.

Lemma span_all p s : all_chars p (span p s).1 = true.
Proof.
  induction s as [|c s IH]; cbn; [done|].
  destruct (p c) eqn:Hc; [|done]. revert IH. destruct (span p s). cbn. by rewrite Hc.
Qed.

Lemma span_length p s :
  String.length s = (String.length (span p s).1 + String.length (span p s).2)%nat.
Proof.
  induction s as [|c s IH]; cbn; [done|].
  destruct (p c); [|done]. revert IH. destruct (span p s). cbn. lia.
Qed.

Lemma span_exact p s rest :
  all_chars p s = true -> match rest with String c _ => p c = false | EmptyString => True end ->
  span p (s +:+ rest) = (s, rest).
Proof.
  intros Hs Hrest. induction s as [|c s IH]; cbn in *.
  - rewrite append_nil. destruct rest as [|c rest]; cbn; [done|]. by rewrite Hrest.
  - rewrite append_cons. cbn. apply andb_true_iff in Hs as [-> Hs]. by rewrite IH.
Qed.

Lemma HasPrefix_spec s prefix : HasPrefix s prefix = true <-> exists rest, s = prefix +:+ rest.
Proof.
  revert s. induction prefix as [|a prefix IH]; intros s; cbn.
  - split; [intros _; by exists s | done].
  - destruct s as [|b s]; cbn; [split; [done | intros [? Heq]; by rewrite append_cons in Heq]|].
    rewrite andb_true_iff, Ascii.eqb_eq, IH. setoid_rewrite append_cons. naive_solver.
Qed.

Lemma Contains_spec s sub : Contains s sub = true <-> exists a b, s = a +:+ sub +:+ b.
Proof.
  induction s as [|c s IH]; cbn; rewrite orb_true_iff, HasPrefix_spec.
  - split; [|intros (a & b & Heq)].
    + intros [[rest Hr]|[=]]. by exists EmptyString, rest.
    + destruct a; [|by rewrite append_cons in Heq]. left. by exists b.
  - rewrite IH. split.
    + intros [[rest Hr] | (a & b & ->)].
      * by exists EmptyString, rest.
      * by exists (String c a), b.
    + intros ([|c' a] & b & Heq); [left; by exists b | right].
      rewrite append_cons in Heq. injection Heq as -> ->. by exists a, b.
Qed.

(** ** TrimSpace *)

(** Neither end is white space. *)
Lemma leading_space_bound wide l : (leading_space wide l <> 0)%nat -> l <> [].
Proof. by destruct l. Qed.

Lemma trim_left_done wide l : leading_space wide l = 0%nat -> forall fuel, trim_left wide fuel l = l.
Proof. intros Hl [|fuel]; cbn; [done|]. by rewrite Hl. Qed.

Lemma trim_left_clean wide fuel l :
  (length l <= fuel)%nat -> leading_space wide (trim_left wide fuel l) = 0%nat.
Proof.
  revert l. induction fuel as [|fuel IH]; intros l Hl; cbn.
  - destruct l; cbn in *; [done|lia].
  - destruct (leading_space wide l) as [|n] eqn:Hn; [done|]. apply IH. rewrite length_skipn.
    destruct l; cbn in *; [done|]. lia.
Qed.

Lemma trim_left_suffix wide fuel l : exists k, trim_left wide fuel l = skipn k l.
Proof.
  revert l. induction fuel as [|fuel IH]; intros l; cbn; [by exists 0%nat|].
  destruct (leading_space wide l) as [|n]; [by exists 0%nat|].
  destruct (IH (skipn (S n) l)) as [k ->]. exists (S n + k)%nat. by rewrite skipn_skipn, Nat.add_comm.
Qed.

(** A prefix that starts with a space starts with it in the whole. *)
Lemma leading_space_prefix wide l k :
  Forall (fun w => w <> []) wide ->
  leading_space wide l = 0%nat -> leading_space wide (firstn k l) = 0%nat.
Proof.
  intros Hwide. destruct l as [|c l]; [by destruct k|]. destruct k as [|k]; [done|]. cbn [firstn leading_space].
  destruct (ascii_space c); [done|].
  destruct (list_find _ wide) as [[i w]|] eqn:Hf; [intros Hw|intros _].
  { apply list_find_Some in Hf as (Hi & _ & _). destruct w; [|done].
    rewrite Forall_forall in Hwide. exfalso. eapply Hwide; [|done]. eapply list_elem_of_lookup_2. done. }
  match goal with |- context [list_find ?P wide] => destruct (list_find P wide) as [[i w]|] eqn:Hf' end; [|done].
  exfalso. apply list_find_Some in Hf' as (Hi & Hm & _). apply list_find_None in Hf.
  rewrite Forall_forall in Hf. apply (Hf w); [by eapply list_elem_of_lookup_2|].
  rewrite <- Hm at 2. change (byte_of <$> c :: firstn k l) with (byte_of <$> firstn (S k) (c :: l)) in *.
  rewrite fmap_take in Hm |- *. rewrite take_take. f_equal. apply (f_equal length) in Hm.
  rewrite !length_take in Hm. lia.
Qed.

Definition trim_right (l : list ascii) : list ascii :=
  rev (trim_left (@rev Z <$> wide_spaces) (length l) (rev l)).

Lemma TrimSpace_eq s :
  TrimSpace s =
  let l := list_ascii_of_string s in string_of_list_ascii (trim_right (trim_left wide_spaces (length l) l)).
Proof. done. Qed.

Lemma trim_right_prefix l : exists k, trim_right l = firstn k l.
Proof.
  unfold trim_right. destruct (trim_left_suffix (@rev Z <$> wide_spaces) (length l) (rev l)) as [k ->].
  exists (length l - k)%nat. by rewrite skipn_rev, rev_involutive.
Qed.

(** Trimming what is trimmed changes nothing. *)
Lemma TrimSpace_idem s : TrimSpace (TrimSpace s) = TrimSpace s.
Proof.
  rewrite (TrimSpace_eq (TrimSpace s)), (TrimSpace_eq s). cbn zeta. rewrite list_ascii_of_string_of_list_ascii. f_equal.
  set (l := trim_left wide_spaces (length (list_ascii_of_string s)) (list_ascii_of_string s)). assert (leading_space wide_spaces l = 0%nat) as Hl by (apply trim_left_clean; lia).
  rewrite (trim_left_done wide_spaces (trim_right l)).
  - unfold trim_right. rewrite length_rev, rev_involutive. f_equal. rewrite (trim_left_done _ _) at 1; [done|].
    apply trim_left_clean. by rewrite length_rev.
  - destruct (trim_right_prefix l) as [k ->]. apply leading_space_prefix; [|done].
    repeat constructor; done.
Qed.

(** ** Runes and splitting: what is used of packages unicode/utf8 and strings

    [range] over a string decodes it rune by rune; [strings.Split] cuts it at
    every occurrence of a separator. *)

Section runes.
Local Open Scope Z_scope.
Local Open Scope go_scope.


(** A continuation byte within the bounds its first byte sets. *)
Definition continues (lo hi : Z) (c : ascii) : bool := (lo <=? byte_of c) && (byte_of c <=? hi).

(** The bounds of the second byte and how many follow it, by the first byte
    of a rune of more than one byte. *)
Definition utf8_first (b : Z) : option (Z * Z * nat) :=
  if (194 <=? b) && (b <=? 223) then Some (128, 191, 0%nat)
  else if (b =? 224)%Z then Some (160, 191, 1%nat)
  else if (b =? 237)%Z then Some (128, 159, 1%nat)
  else if (225 <=? b) && (b <=? 239) then Some (128, 191, 1%nat)
  else if (b =? 240)%Z then Some (144, 191, 2%nat)
  else if (241 <=? b) && (b <=? 243) then Some (128, 191, 2%nat)
  else if (b =? 244)%Z then Some (128, 143, 2%nat)
  else None.

(** Bytes of the first rune; an invalid byte is a rune of its own. *)
Definition rune_width (l : list ascii) : nat :=
  match l with
  | [] => 0%nat
  | c :: rest =>
      match utf8_first (byte_of c), rest with
      | Some (lo, hi, more), second :: rest =>
          if continues lo hi second && forallb (continues 128 191) (firstn more rest)
             && (more <=? length rest)%nat
          then (2 + more)%nat else 1%nat
      | _, _ => 1%nat
      end
  end.

(** The runes of a string, each as the bytes that encode it. *)
Fixpoint runes_of (fuel : nat) (l : list ascii) : list (list ascii) :=
  match fuel, l with
  | S fuel', _ :: _ => firstn (rune_width l) l :: runes_of fuel' (skipn (rune_width l) l)
  | _, _ => []
  end.
Definition runes (s : string) : list (list ascii) :=
  let l := list_ascii_of_string s in runes_of (length l) l.

Example runes_mixed :
  length (runes (String "195" (String "169" (String "a" (String "255" (String "226" "x")))))) = 5%nat.
Proof. reflexivity. Qed.

(** [strings.Split] at a separator of one byte. *)
Fixpoint Split (s : string) (sep : ascii) : list string :=
  match s with
  | EmptyString => [""]
  | String c rest =>
      if Ascii.eqb c sep then "" :: Split rest sep
      else match Split rest sep with
           | first :: others => String c first :: others
           | [] => [String c ""]
           end
  end.

(** ** Laws of concatenation *)

Lemma string_app_nil s : s +:+ "" = s.
Proof. induction s as [|c s IH]; [done|]. by rewrite append_cons, IH. Qed.
Lemma string_app_assoc a b c : (a +:+ b) +:+ c = a +:+ (b +:+ c).
Proof. induction a as [|x a IH]; [done|]. by rewrite !append_cons, IH. Qed.
Lemma length_append a b : String.length (a +:+ b) = (String.length a + String.length b)%nat.
Proof. induction a as [|x a IH]; [done|]. rewrite append_cons. cbn. by rewrite IH. Qed.
Lemma length_list_ascii s : length (list_ascii_of_string s) = String.length s.
Proof. induction s as [|x s IH]; cbn; [done|]. by rewrite IH. Qed.

Lemma rune_width_pos c l : (1 <= rune_width (c :: l))%nat.
Proof.
  cbn. destruct (utf8_first _) as [[[lo hi] more]|]; [|lia].
  destruct l as [|second rest]; [lia|]. destruct (_ && _ && _); lia.
Qed.

(** The bytes of the runes are the bytes of the string. *)
Lemma runes_concat s : concat (runes s) = list_ascii_of_string s.
Proof.
  unfold runes. generalize (list_ascii_of_string s) as l. intros l.
  assert (forall fuel l, (length l <= fuel)%nat -> concat (runes_of fuel l) = l) as Hall; [|by apply Hall].
  clear. intros fuel. induction fuel as [|fuel IH]; intros [|c l] Hl; cbn in Hl; try lia; [done..|].
  pose proof (rune_width_pos c l). cbn [runes_of concat].
  rewrite IH; [by apply take_drop|]. rewrite length_skipn. cbn [length]. lia.
Qed.

Lemma Split_none s sep : all_chars (fun c => negb (Ascii.eqb c sep)) s = true -> Split s sep = [s].
Proof.
  induction s as [|c s IH]; cbn; [done|]. destruct (Ascii.eqb c sep) eqn:Hc; cbn; [done|].
  intros Hs. by rewrite IH.
Qed.

Lemma Split_app a b sep :
  all_chars (fun c => negb (Ascii.eqb c sep)) a = true -> Split (a +:+ String sep b) sep = a :: Split b sep.
Proof.
  induction a as [|c a IH]; intros Ha.
  - change (Split (String sep b) sep = "" :: Split b sep). cbn [Split]. by rewrite Ascii.eqb_refl.
  - change (Split (String c (a +:+ String sep b)) sep = String c a :: Split b sep). cbn [Split].
    cbn [all_chars] in Ha. destruct (Ascii.eqb c sep); [done|]. by rewrite IH.
Qed.

(** ** Digits *)

Lemma all_chars_app p s t : all_chars p (s +:+ t) = all_chars p s && all_chars p t.
Proof. induction s as [|c s IH]; [done|]. rewrite append_cons. cbn. by rewrite IH, andb_assoc. Qed.

Lemma digits_value_app a b acc : digits_value acc (a +:+ b) = digits_value (digits_value acc a) b.
Proof. revert acc. induction a as [|c a IH]; intros acc; [done|]. rewrite append_cons. cbn. apply IH. Qed.

Lemma pretty_N_char_digit x : (x < 10)%N -> is_digit (pretty_N_char x) = true /\ byte_of (pretty_N_char x) = 48 + Z.of_N x.
Proof.
  intros Hx. assert (Forall (fun x => is_digit (pretty_N_char x) = true /\ byte_of (pretty_N_char x) = 48 + Z.of_N x)
    (map N.of_nat (seq 0 10))) as Hall by (repeat constructor).
  apply (proj1 (Forall_forall _ _) Hall). apply list_elem_of_fmap. exists (N.to_nat x).
  split; [lia|]. apply elem_of_seq. lia.
Qed.

Lemma pretty_N_go_digits x s :
  (0 < x)%N ->
  exists c ds, pretty_N_go x s = String c (ds +:+ s) /\ is_digit c = true /\ all_chars is_digit ds = true /\
    c <> "0"%char /\ digits_value 0 (String c ds) = Z.of_N x.
Proof.
  revert s. induction (N.lt_wf_0 x) as [x _ IH]. intros s Hx. rewrite pretty_N_go_step by done.
  pose proof (pretty_N_char_digit (x mod 10) (N.mod_lt x 10 ltac:(lia))) as [Hd Hb].
  pose proof (N.div_mod x 10 ltac:(lia)) as Hdiv.
  destruct (decide (x / 10 = 0)%N) as [Hz|Hz].
  - rewrite Hz, pretty_N_go_0, N.mul_0_r, N.add_0_l in *. exists (pretty_N_char (x mod 10)), "". split_and!; try done.
    + intros Hc. rewrite Hc in Hb. change (byte_of "0") with 48 in Hb. lia.
    + unfold digits_value. rewrite Hb, <- Hdiv. lia.
  - destruct (IH (x / 10)%N ltac:(apply N.div_lt; lia) (String (pretty_N_char (x mod 10)) s) (proj1 (N.neq_0_lt_0 _) Hz)) as (c & ds & -> & Hc & Hds & Hne & Hv).
    exists c, (ds +:+ String (pretty_N_char (x mod 10)) ""). split_and!; try done.
    + by rewrite string_app_assoc.
    + rewrite all_chars_app, Hds. cbn. by rewrite Hd.
    + rewrite <- append_cons, digits_value_app, Hv. cbn [digits_value]. rewrite Hb. lia.
Qed.

(** The decimal text of a natural number: digits, without a leading zero. *)
Lemma itoa_digits n :
  0 <= n -> exists c ds, itoa n = String c ds /\ is_digit c = true /\ all_chars is_digit ds = true /\
    (c = "0"%char -> ds = "") /\ digits_value 0 (itoa n) = n.
Proof.
  intros Hn. destruct n as [|p|p]; [by exists "0"%char, ""| |lia].
  change (itoa (Z.pos p)) with (pretty_N_go (N.pos p) "").
  destruct (pretty_N_go_digits (N.pos p) "") as (c & ds & -> & Hc & Hds & Hne & Hv); [lia|].
  rewrite string_app_nil. by exists c, ds.
Qed.

Lemma itoa_negative n : n < 0 -> itoa n = "-" +:+ itoa (- n).
Proof. by destruct n. Qed.
End runes.
