(* ===== verification/Errors.v ===== *)
(** * errors.go: the SDK's structured failures

    The struct itself is [error] of the prelude.  Here: its constructors, the
    search through an error chain, and the two projections applications use
    (HTTP status, public message). *)

From S2P Require Export GoStrings.

Module ErrorCategory.
Definition InvalidRequest := "invalid_request".
Definition PaymentRequired := "payment_required".
Definition Forbidden := "forbidden".
Definition NotFound := "not_found".
Definition Conflict := "conflict".
Definition RateLimited := "rate_limited".
Definition Unavailable := "unavailable".
Definition Internal := "internal".
End ErrorCategory.

Module ErrorCode.
Definition Bursar := "BURSAR_ERROR".
Definition Config := "CONFIG_ERROR".
Definition Expression := "EXPRESSION_ERROR".
Definition Store := "STORE_ERROR".
Definition StoreClosed := "STORE_CLOSED".
Definition StoreUnavailable := "STORE_UNAVAILABLE".
Definition StoreTimeout := "STORE_TIMEOUT".
Definition AutoRechargeDisabled := "AUTO_RECHARGE_DISABLED".
Definition AutoRechargeNotConfigured := "AUTO_RECHARGE_NOT_CONFIGURED".
Definition CapabilityNotConfigured := "CAPABILITY_NOT_CONFIGURED".
Definition CatalogNotLoaded := "CATALOG_NOT_LOADED".
Definition PaymentMethodRequired := "PAYMENT_METHOD_REQUIRED".
Definition ProviderCapabilityNotSupported := "PROVIDER_CAPABILITY_NOT_SUPPORTED".
Definition ProviderResponseInvalid := "PROVIDER_RESPONSE_INVALID".
Definition FeatureNotEntitled := "FEATURE_NOT_ENTITLED".
Definition InsufficientCredits := "INSUFFICIENT_CREDITS".
Definition LeaseExpired := "LEASE_EXPIRED".
Definition LeaseNotFound := "LEASE_NOT_FOUND".
Definition OperationNotAllowed := "OPERATION_NOT_ALLOWED".
Definition ConcurrencyLimitReached := "CONCURRENCY_LIMIT_REACHED".
Definition CapReached := "CAP_REACHED".
Definition QuotaExceeded := "QUOTA_EXCEEDED".
Definition RefundRejected := "REFUND_REJECTED".
Definition Credit := "CREDIT_ERROR".
Definition CommerceResourceNotFound := "COMMERCE_RESOURCE_NOT_FOUND".
Definition Billing := "BILLING_ERROR".
Definition CommerceNotConfigured := "COMMERCE_NOT_CONFIGURED".
Definition UnknownOffer := "UNKNOWN_OFFER".
Definition InvalidOfferQuantity := "INVALID_OFFER_QUANTITY".
Definition ActiveSubscription := "ACTIVE_SUBSCRIPTION".
Definition CheckoutConflict := "CHECKOUT_CONFLICT".
Definition CheckoutCompleted := "CHECKOUT_COMPLETED".
Definition ProviderSelectionFailed := "PROVIDER_SELECTION_FAILED".
Definition QuoteChanged := "QUOTE_CHANGED".
Definition PlanChangePolicyMissing := "PLAN_CHANGE_POLICY_MISSING".
Definition CoreBillingDataUnavailable := "CORE_BILLING_DATA_UNAVAILABLE".
End ErrorCode.

Record ErrorOptions := {
  opt_Code : string;
  opt_Category : string;
  opt_Retryable : bool;
  opt_Indeterminate : bool;
  opt_Details : gmap string string;
  opt_Cause : option error;
}.

(** [ErrorOptions{Code: code, Category: category, Details: details}] *)
Definition error_details (code category : string) (details : gmap string string) : ErrorOptions :=
  {| opt_Code := code; opt_Category := category; opt_Retryable := false;
     opt_Indeterminate := false; opt_Details := details; opt_Cause := None |}.

(** [ErrorOptions{Code: code, Category: category, Cause: cause}] *)
Definition error_options (code category : string) (cause : option error) : ErrorOptions :=
  {| opt_Code := code; opt_Category := category; opt_Retryable := false;
     opt_Indeterminate := false; opt_Details := ∅; opt_Cause := cause |}.

Definition firstErrorCode (value fallback : string) : string :=
  if value =? "" then fallback else value.

Definition firstErrorCategory (value fallback : string) : string :=
  if value =? "" then fallback else value.

Definition NewError (message : string) (options : ErrorOptions) : error :=
  let code := if opt_Code options =? "" then ErrorCode.Bursar else opt_Code options in
  let category :=
    if opt_Category options =? "" then ErrorCategory.Internal else opt_Category options in
  BursarError message code category (opt_Retryable options) (opt_Indeterminate options)
    (opt_Details options) (opt_Cause options).

Definition newConfigError (message : string) (cause : option error) : error :=
  NewError message (error_options ErrorCode.Config ErrorCategory.InvalidRequest cause).

Definition newExpressionError (message : string) (cause : option error) : error :=
  NewError message (error_options ErrorCode.Expression ErrorCategory.InvalidRequest cause).

Definition NewStoreError (message : string) (options : ErrorOptions) : error :=
  NewError message
    {| opt_Code := firstErrorCode (opt_Code options) ErrorCode.Store;
       opt_Category := firstErrorCategory (opt_Category options) ErrorCategory.Unavailable;
       opt_Retryable := opt_Retryable options;
       opt_Indeterminate := opt_Indeterminate options;
       opt_Details := opt_Details options;
       opt_Cause := opt_Cause options |}.

Definition NewStoreUnavailableError (message : string) (cause : option error) : error :=
  NewError message
    {| opt_Code := ErrorCode.StoreUnavailable; opt_Category := ErrorCategory.Unavailable;
       opt_Retryable := true; opt_Indeterminate := false; opt_Details := ∅; opt_Cause := cause |}.

Definition NewStoreTimeoutError (message : string) (cause : option error) : error :=
  NewError message
    {| opt_Code := ErrorCode.StoreTimeout; opt_Category := ErrorCategory.Unavailable;
       opt_Retryable := true; opt_Indeterminate := false; opt_Details := ∅; opt_Cause := cause |}.

(** The format string has been applied to its arguments by the caller. *)
Definition errorf (code category message : string) : error :=
  NewError message (error_options code category None).

(** [errors.As]: the first Bursar error of the chain, depth first. *)
Fixpoint AsBursarError (err : error) : option error :=
  match err with
  | BursarError _ _ _ _ _ _ _ => Some err
  | JoinedError errs =>
      (fix first (es : list error) : option error :=
         match es with
         | [] => None
         | e :: rest => match AsBursarError e with Some b => Some b | None => first rest end
         end) errs
  | WrappedError _ err => AsBursarError err
  | ExternalError _ | GoPanic _ | FuelExhausted => None
  end.

Definition error_category (err : error) : string :=
  match err with BursarError _ _ c _ _ _ _ => c | _ => "" end.
Definition error_code (err : error) : string :=
  match err with BursarError _ c _ _ _ _ _ => c | _ => "" end.
(** The text of [Error()]. *)
Fixpoint error_message (err : error) : string :=
  match err with
  | BursarError m _ _ _ _ _ _ => m
  | ExternalError t | WrappedError t _ => t
  | JoinedError errs => String.concat (String "010" "") (map error_message errs)
  | GoPanic _ | FuelExhausted => ""
  end.

Definition IsRetryableError (err : error) : bool :=
  match AsBursarError err with
  | Some (BursarError _ _ _ retryable _ _ _) => retryable
  | _ => false
  end.

Definition ErrorHTTPStatus (err : error) : Z :=
  match AsBursarError err with
  | None => 500%Z
  | Some b =>
      let category := error_category b in
      if category =? ErrorCategory.InvalidRequest then 400%Z
      else if category =? ErrorCategory.PaymentRequired then 402%Z
      else if category =? ErrorCategory.Forbidden then 403%Z
      else if category =? ErrorCategory.NotFound then 404%Z
      else if category =? ErrorCategory.Conflict then 409%Z
      else if category =? ErrorCategory.RateLimited then 429%Z
      else if category =? ErrorCategory.Unavailable then 503%Z
      else 500%Z
  end.

Definition PublicErrorMessage (err : error) : string :=
  match AsBursarError err with
  | None => "Billing service is temporarily unavailable. Please try again."
  | Some b =>
      let category := error_category b in
      if category =? ErrorCategory.InvalidRequest then "The billing request is invalid."
      else if category =? ErrorCategory.PaymentRequired then "Payment is required to continue."
      else if category =? ErrorCategory.Forbidden then
        "Your current plan does not allow this operation."
      else if category =? ErrorCategory.NotFound then
        "The requested billing resource was not found."
      else if category =? ErrorCategory.Conflict then
        "The request conflicts with the current billing state."
      else if category =? ErrorCategory.RateLimited then
        "A billing or usage limit has been reached."
      else "Billing service is temporarily unavailable. Please try again."
  end.

(** ** Which error it is *)

Definition is_config_error (err : error) : Prop :=
  exists message cause, err = newConfigError message cause.
Definition is_expression_error (err : error) : Prop :=
  exists message cause, err = newExpressionError message cause.

Lemma newConfigError_is message cause : is_config_error (newConfigError message cause).
Proof. by exists message, cause. Qed.
Lemma newExpressionError_is message cause : is_expression_error (newExpressionError message cause).
Proof. by exists message, cause. Qed.

Create HintDb errors.
#[export] Hint Resolve newConfigError_is newExpressionError_is : errors.

(** The caller's mistake: an invalid configuration, event or formula. *)
Definition request_error (err : error) : Prop := is_config_error err \/ is_expression_error err.

Lemma request_error_config message cause : request_error (newConfigError message cause).
Proof. left. apply newConfigError_is. Qed.
Lemma request_error_expression message cause : request_error (newExpressionError message cause).
Proof. right. apply newExpressionError_is. Qed.
#[export] Hint Resolve request_error_config request_error_expression fails_only_Ok fails_only_Err : errors.

Lemma request_error_status err :
  request_error err ->
  ErrorHTTPStatus err = 400%Z /\ IsRetryableError err = false /\
  PublicErrorMessage err = "The billing request is invalid.".
Proof. by intros [(m & c & ->)|(m & c & ->)]. Qed.
