(* ===== verification/Effects.v ===== *)
(** * Programs that call out

    A service method runs Go code between calls to interfaces it was given: a
    store, a payment provider, a clock.  Such a method is a [prog]: a tree of
    calls, each continued by whatever the callee answers.  Nothing is assumed
    of the answers, so what is proved of a program's [runs] holds with every
    store and every provider, under every interleaving with other callers. *)

From S2P Require Export Errors.

Section effects.
Context {call : Type} {answer : call -> Type}.

(** [Done]: the method returns.  [Do c k]: it makes the call [c] and goes on
    with its answer. *)
Inductive prog (A : Type) :=
  | Done (r : result A)
  | Do (c : call) (k : answer c -> prog A).
#[global] Arguments Done {A} r.
#[global] Arguments Do {A} c k.

(** A call and what it was answered. *)
Definition event : Type := {c : call & answer c}.

Definition ret {A} (a : A) : prog A := Done (Ok a).
Definition raise {A} (e : error) : prog A := Done (Err e).

Fixpoint pbind {A B} (p : prog A) (f : A -> prog B) : prog B :=
  match p with
  | Done (Ok a) => f a
  | Done (Err e) => Done (Err e)
  | Do c k => Do c (fun x => pbind (k x) f)
  end.

(** [result, err := p] where the caller looks at both. *)
Fixpoint pcatch {A B} (p : prog A) (f : result A -> prog B) : prog B :=
  match p with
  | Done r => f r
  | Do c k => Do c (fun x => pcatch (k x) f)
  end.

(** [if err != nil { return err }] after a call that answers [(A, error)]. *)
Definition lift {A} (r : result A) : prog A := Done r.

(** [p] can make exactly the calls of [t], answered as [t] says, and then
    return [r]. *)
Fixpoint runs {A} (p : prog A) (t : list event) (r : result A) : Prop :=
  match p with
  | Done r' => t = [] /\ r = r'
  | Do c k => exists x t', t = existT c x :: t' /\ runs (k x) t' r
  end.

(** The run against a callee with a state of its own. *)
Fixpoint run {S A} (callee : forall c : call, S -> answer c * S) (s : S) (p : prog A)
    : list event * result A * S :=
  match p with
  | Done r => ([], r, s)
  | Do c k =>
      let '(x, s') := callee c s in
      let '(t, r, s'') := run callee s' (k x) in
      (existT c x :: t, r, s'')
  end.

(** [q] is what is left of [p] after the calls of [t]. *)
Fixpoint reaches {A} (p : prog A) (t : list event) (q : prog A) {struct t} : Prop :=
  match t with
  | [] => q = p
  | e :: t' =>
      match p with
      | Done _ => False
      | Do c k => exists x, e = existT c x /\ reaches (k x) t' q
      end
  end.

Lemma reaches_step {A} (p : prog A) t c k x : reaches p t (Do c k) -> reaches p (t ++ [existT c x]) (k x).
Proof.
  revert p. induction t as [|e t IH]; intros p; cbn.
  - intros <-. by exists x.
  - destruct p as [r|c' k']; [done|]. intros (y & -> & Hr). exists y. split; [done|]. by apply IH.
Qed.

Lemma reaches_runs {A} (p : prog A) t r : reaches p t (Done r) -> runs p t r.
Proof.
  revert p. induction t as [|e t IH]; intros p; cbn.
  - intros <-. done.
  - destruct p as [r'|c k]; [done|]. intros (x & -> & Hr). exists x, t. split; [done|]. by apply IH.
Qed.

(** Every callee drives a program to its end: methods terminate. *)
Lemma run_runs {S A} (callee : forall c : call, S -> answer c * S) (p : prog A) s :
  runs p (run callee s p).1.1 (run callee s p).1.2.
Proof.
  revert s. induction p as [r|c k IH]; intros s; cbn; [done|].
  destruct (callee c s) as [x s']. specialize (IH x s').
  destruct (run callee s' (k x)) as [[t r] s'']. cbn in *. by exists x, t.
Qed.

Lemma runs_done {A} (r : result A) t r' : runs (Done r) t r' <-> t = [] /\ r' = r.
Proof. done. Qed.

Lemma runs_ret {A} (a : A) t r : runs (ret a) t r <-> t = [] /\ r = Ok a.
Proof. done. Qed.

Lemma runs_raise {A} e t (r : result A) : runs (raise e) t r <-> t = [] /\ r = Err e.
Proof. done. Qed.

Lemma runs_do {A} c (k : answer c -> prog A) t r :
  runs (Do c k) t r <-> exists x t', t = existT c x :: t' /\ runs (k x) t' r.
Proof. done. Qed.

(** A composition either runs both parts or stops with the first one's error. *)
Lemma runs_bind {A B} (p : prog A) (f : A -> prog B) t r :
  runs (pbind p f) t r <->
  (exists t1 a t2, t = t1 ++ t2 /\ runs p t1 (Ok a) /\ runs (f a) t2 r) \/
  (exists e, runs p t (Err e) /\ r = Err e).
Proof.
  revert t. induction p as [[a|e]|c k IH]; intros t; cbn.
  - split; [intros Hr; left; by exists [], a, t|].
    intros [(t1 & a' & t2 & -> & [-> [= ->]] & Hr)|(e & [_ [=]] & _)]. done.
  - split; [intros [-> ->]; right; by exists e|].
    intros [(t1 & a & t2 & _ & [_ [=]] & _)|(e' & [-> [= ->]] & ->)]. done.
  - setoid_rewrite IH. split.
    + intros (x & t' & -> & [(t1 & a & t2 & -> & H1 & H2)|(e & H1 & ->)]).
      * left. exists (existT c x :: t1), a, t2. split_and!; [done|by exists x, t1|done].
      * right. exists e. split; [by exists x, t'|done].
    + intros [(t1 & a & t2 & -> & (x & t1' & -> & H1) & H2)|(e & (x & t' & -> & H1) & ->)].
      * exists x, (t1' ++ t2). split; [done|]. left. by exists t1', a, t2.
      * exists x, t'. split; [done|]. right. by exists e.
Qed.

(** A caught program runs to its end, and then what follows its result. *)
Lemma runs_catch {A B} (p : prog A) (f : result A -> prog B) t r :
  runs (pcatch p f) t r <-> exists t1 a t2, t = t1 ++ t2 /\ runs p t1 a /\ runs (f a) t2 r.
Proof.
  revert t. induction p as [a|c k IH]; intros t; cbn.
  - split; [intros Hr; by exists [], a, t|]. by intros (t1 & a' & t2 & -> & [-> ->] & Hr).
  - setoid_rewrite IH. split.
    + intros (x & t' & -> & t1 & a & t2 & -> & H1 & H2). exists (existT c x :: t1), a, t2.
      split_and!; [done|by exists x, t1|done].
    + intros (t1 & a & t2 & -> & (x & t1' & -> & H1) & H2). exists x, (t1' ++ t2). split; [done|]. by exists t1', a, t2.
Qed.

(** ** Which calls a run makes *)

(** Every event of every run satisfies [P]. *)
Definition only {A} (P : event -> Prop) (p : prog A) : Prop := forall t r, runs p t r -> Forall P t.

Lemma only_done {A} P (r : result A) : only P (Done r).
Proof. intros t r' [-> _]. constructor. Qed.
Lemma only_do {A} (P : event -> Prop) c (k : answer c -> prog A) :
  (forall x, P (existT c x)) -> (forall x, only P (k x)) -> only P (Do c k).
Proof. intros Hc Hk t r (x & t' & -> & Hr). constructor; [done|]. by eapply Hk. Qed.
Lemma only_bind {A B} P (p : prog A) (f : A -> prog B) :
  only P p -> (forall a, only P (f a)) -> only P (pbind p f).
Proof.
  intros Hp Hf t r [(t1 & a & t2 & -> & H1 & H2)|(e & H1 & _)]%runs_bind; [|by eapply Hp].
  apply Forall_app. split; [by eapply Hp|by eapply Hf].
Qed.
End effects.
Arguments prog {call} answer A.
Arguments event {call} answer.

Notation "x <~ p ;; k" := (pbind p (fun x => k))
  (at level 100, p at next level, right associativity) : go_scope.
Notation "p ;;~ k" := (pbind p (fun _ => k))
  (at level 100, right associativity) : go_scope.

(** Takes a run apart along the program's structure: what was called, what
    was answered, and the branch the answers lead to. *)
Ltac inv_runs :=
  repeat match goal with
  | H : runs (ret _) _ _ |- _ => destruct H as [? ?]; try subst
  | H : runs (raise _) _ _ |- _ => destruct H as [? ?]; try subst
  | H : runs (Done _) _ _ |- _ => destruct H as [? ?]; try subst
  | H : Ok _ = Ok _ |- _ => injection H as H; try subst
  | H : Err _ = Ok _ |- _ => discriminate H
  | H : Ok _ = Err _ |- _ => discriminate H
  | H : Err _ = Err _ |- _ => injection H as H; try subst
  end.

Create HintDb effects.
#[export] Hint Resolve only_done only_do only_bind : effects.

(** ** Concurrent systems as labelled transitions

    Where Go starts goroutines, the model is a relation: a state that holds
    what every goroutine is doing, and a step for each thing one of them can
    do next.  An execution interleaves the steps in any order; what is proved
    of every execution holds under every schedule. *)


(** What a step shows: nothing, the firing of a timer, or a call and its answer. *)
Inductive label {call : Type} {answer : call -> Type} :=
  | Internal
  | Tick
  | Called (e : event answer).
Arguments label {call} answer.

(** The calls of a trace, in order. *)
Definition called {call} {answer : call -> Type} (l : label answer) : option (event answer) :=
  match l with Called e => Some e | _ => None end.
Definition calls {call} {answer : call -> Type} (tr : list (label answer)) : list (event answer) := omap called tr.

Definition is_tick {call} {answer : call -> Type} (l : label answer) : bool :=
  match l with Tick => true | _ => false end.
Definition ticks {call} {answer : call -> Type} (tr : list (label answer)) : nat := length (List.filter is_tick tr).

Section exec.
Context {call : Type} {answer : call -> Type} {state : Type}.
Variable step : state -> label answer -> state -> Prop.

(** [exec s tr s']: the steps of [tr] lead from [s] to [s']. *)
Inductive exec (s : state) : list (label answer) -> state -> Prop :=
  | exec_start : exec s [] s
  | exec_step tr s1 l s2 : exec s tr s1 -> step s1 l s2 -> exec s (tr ++ [l]) s2.

Lemma exec_one s l s' : step s l s' -> exec s [l] s'.
Proof. intros Hs. apply (exec_step s [] s l s'); [constructor|done]. Qed.

Lemma exec_trans s tr s' tr' s'' : exec s tr s' -> exec s' tr' s'' -> exec s (tr ++ tr') s''.
Proof.
  intros H1 H2. induction H2 as [|tr' s1 l s2 _ IH Hl]; [by rewrite app_nil_r|].
  rewrite app_assoc. by eapply exec_step.
Qed.

Lemma exec_cons s l s1 tr s' : step s l s1 -> exec s1 tr s' -> exec s (l :: tr) s'.
Proof. intros Hs. apply (exec_trans s [l]). by apply exec_one. Qed.

(** An invariant of the state and of the trace so far. *)
Lemma exec_invariant (I : list (label answer) -> state -> Prop) s :
  I [] s -> (forall tr s1 l s2, exec s tr s1 -> I tr s1 -> step s1 l s2 -> I (tr ++ [l]) s2) ->
  forall tr s', exec s tr s' -> I tr s'.
Proof. intros H0 Hs tr s' He. induction He; [done|by eapply Hs]. Qed.

(** A measure that every step but a tick decreases, and that a tick raises by
    at most one, bounds the steps of an execution by its ticks. *)
Lemma exec_bounded (measure : state -> nat) s :
  (forall tr s1 l s2, exec s tr s1 -> step s1 l s2 ->
     if is_tick l then (measure s2 <= measure s1 + 1)%nat else (measure s2 < measure s1)%nat) ->
  forall tr s', exec s tr s' -> (length tr + measure s' <= measure s + 2 * ticks tr)%nat.
Proof.
  intros Hm. apply exec_invariant; [cbn; lia|].
  intros tr s1 l s2 He IH Hl. specialize (Hm tr s1 l s2 He Hl).
  unfold ticks in *. rewrite List.filter_app, !length_app. cbn. destruct (is_tick l); cbn; lia.
Qed.
End exec.

Lemma calls_app {call} {answer : call -> Type} (tr1 tr2 : list (label answer)) :
  calls (tr1 ++ tr2) = calls tr1 ++ calls tr2.
Proof. apply omap_app. Qed.
