(* ===== verification/GoCalendar.v ===== *)
(** * Package [time]: parsing, instants in a location and calendar arithmetic

    An instant counts nanoseconds since 1970-01-01T00:00:00Z.  [ParseRFC3339]
    is [time.Parse(time.RFC3339, _)]: the layout "2006-01-02T15:04:05Z07:00",
    with the one-digit hours and the fractional seconds [time.Parse] tolerates.
    Then what the services use: [time.Date], [AddDate], [In], [Add], [Sub] and
    the fields of a time in its location.  The zone database is data, not code:
    [LoadLocation] answers the error of an unknown zone, and [zone_lookup] is
    the [lookup] of a [time.Location], the offset in force at a Unix second
    with the seconds it is in force from and until.  Years are those
    [time.Time] represents, [absoluteZeroYear] and later. *)

From S2P Require Export Effects.
From Stdlib Require Export SpecFloat.
Local Open Scope Z_scope.

(** [p] when [e] succeeds, and failure otherwise. *)
Declare Scope parse_scope.
Notation "'let?' p := e 'in' k" := (match e with Some p => k | None => None end)
  (at level 200, p pattern, e at level 100, k at level 200) : parse_scope.
Local Open Scope parse_scope.

(** [time.LoadLocation]: the error text when the zone is unknown. *)
Class TimeZones := { LoadLocation : string -> option string }.

Definition is_leap (year : Z) : bool :=
  (year mod 4 =? 0)%Z && (negb (year mod 100 =? 0)%Z || (year mod 400 =? 0)%Z).

Definition days_in (month year : Z) : Z :=
  if (month =? 2)%Z then (if is_leap year then 29 else 28)
  else if ((month =? 4) || (month =? 6) || (month =? 9) || (month =? 11))%Z then 30
  else 31.

(** Days since 1970-01-01 of a date of the proleptic Gregorian calendar. *)
Definition days_from_civil (year month day : Z) : Z :=
  let y := if month <=? 2 then year - 1 else year in
  let era := y / 400 in
  let yoe := y - era * 400 in
  let mp := (month + 9) mod 12 in
  let doy := (153 * mp + 2) / 5 + day - 1 in
  let doe := yoe * 365 + yoe / 4 - yoe / 100 + doy in
  era * 146097 + doe - 719468.

(** Exactly [n] digits. *)
Fixpoint take_digits (n : nat) (acc : Z) (s : string) : option (Z * string) :=
  match n with
  | O => Some (acc, s)
  | S n' =>
      match s with
      | String c rest => if is_digit c then take_digits n' (acc * 10 + (byte_of c - 48)) rest else None
      | EmptyString => None
      end
  end.

(** One or two digits, as the hour is read. *)
Definition take_hour (s : string) : option (Z * string) :=
  match take_digits 2 0 s with
  | Some r => Some r
  | None => take_digits 1 0 s
  end.

Definition expect (c : ascii) (s : string) : option string :=
  match s with
  | String d rest => if Ascii.eqb c d then Some rest else None
  | EmptyString => None
  end.

(** A fraction of a second in nanoseconds; digits past the ninth are dropped. *)
Definition take_fraction (s : string) : Z * string :=
  match s with
  | String c rest =>
      if Ascii.eqb c "." || Ascii.eqb c "," then
        let '(digits, after) := span is_digit rest in
        match digits with
        | EmptyString => (0, s)
        | _ =>
            let kept := substring 0 9 digits in
            (digits_value 0 kept * 10 ^ (9 - Z.of_nat (String.length kept)), after)
        end
      else (0, s)
  | EmptyString => (0, s)
  end.

(** [Z] or a signed [hh:mm]; the offset in seconds. *)
Definition take_offset (s : string) : option Z :=
  match s with
  | String c rest =>
      if Ascii.eqb c "Z" then match rest with EmptyString => Some 0 | _ => None end
      else if Ascii.eqb c "+" || Ascii.eqb c "-" then
        let? (hours, s) := take_digits 2 0 rest in
        let? s := expect ":" s in
        let? (minutes, s) := take_digits 2 0 s in
        match s with
        | EmptyString =>
            if (24 <? hours) || (60 <? minutes) then None
            else Some ((if Ascii.eqb c "-" then -1 else 1) * (hours * 60 + minutes) * 60)
        | _ => None
        end
      else None
  | EmptyString => None
  end.

(** A clock, its fraction of a second included. *)
Record clock := { clock_hour : Z; clock_minute : Z; clock_second : Z; clock_nanos : Z }.

Definition take_clock (s : string) : option (clock * string) :=
  let? (hour, s) := take_hour s in
  let? s := expect ":" s in
  let? (minute, s) := take_digits 2 0 s in
  let? s := expect ":" s in
  let? (second, s) := take_digits 2 0 s in
  let '(nanos, s) := take_fraction s in
  Some ({| clock_hour := hour; clock_minute := minute; clock_second := second; clock_nanos := nanos |}, s).

(** The instant of a date, a clock and an offset, when they are in range. *)
Definition instant_of (year month day : Z) (c : clock) (offset : Z) : option Z :=
  if (month <? 1) || (12 <? month) || (day <? 1) || (days_in month year <? day)
     || (23 <? clock_hour c) || (59 <? clock_minute c) || (59 <? clock_second c)
  then None
  else Some ((((days_from_civil year month day * 24 + clock_hour c) * 60 + clock_minute c) * 60 + clock_second c - offset)
             * 1000000000 + clock_nanos c).

(** "2006-01-02T15:04:05" and a zone *)
Definition parse_instant (zone : string -> option Z) (s : string) : option Z :=
  let? (year, s) := take_digits 4 0 s in
  let? s := expect "-" s in
  let? (month, s) := take_digits 2 0 s in
  let? s := expect "-" s in
  let? (day, s) := take_digits 2 0 s in
  let? s := expect "T" s in
  let? (c, s) := take_clock s in
  let? offset := zone s in
  instant_of year month day c offset.

Definition ParseRFC3339 (s : string) : option Z := parse_instant take_offset s.

(** The Go value [time.Date(2024, 2, 29, 12, 30, 0, 5e8, UTC+2)]. *)
Example ParseRFC3339_sample :
  ParseRFC3339 "2024-02-29T12:30:00.5+02:00" = Some 1709202600500000000.
Proof. reflexivity. Qed.

Example ParseRFC3339_no_such_day : ParseRFC3339 "2023-02-29T12:30:00Z" = None.
Proof. reflexivity. Qed.

(** Two's complement of 64 bits: [int], [int64] and [time.Duration]. *)
Definition wrap64 (z : Z) : Z := (z + 2 ^ 63) mod 2 ^ 64 - 2 ^ 63.

Definition fits64 (z : Z) : Prop := - 2 ^ 63 <= z < 2 ^ 63.

Lemma wrap64_fits z : fits64 z -> wrap64 z = z.
Proof. unfold fits64, wrap64. intros Hz. rewrite Z.mod_small; lia. Qed.

(** The inverse of [days_from_civil]: years counted from March, so that the
    leap day is the last of its year. *)
Definition civil_from_days (day : Z) : Z * Z * Z :=
  let z := day + 719468 in
  let era := z / 146097 in
  let d := z mod 146097 in
  let century := Z.min 3 (d / 36524) in
  let d := d - century * 36524 in
  let quad := d / 1461 in
  let d := d - quad * 1461 in
  let year := Z.min 3 (d / 365) in
  let doy := d - year * 365 in
  let mp := (5 * doy + 2) / 153 in
  let month := if mp <? 10 then mp + 3 else mp - 9 in
  (era * 400 + century * 100 + quad * 4 + year + (if month <=? 2 then 1 else 0),
   month, doy - (153 * mp + 2) / 5 + 1).

Definition Second : Z := 1000000000.
Definition Minute : Z := 60 * Second.
Definition Hour : Z := 60 * Minute.

(** [time.Location]: UTC, or a zone of the database. *)
Inductive Location := UTC | Zone (name : string).

Class Zones := { zone_lookup : string -> Z -> Z * Z * Z }.

(** [time.LoadLocation] of a name it knows. *)
Definition location_named (name : string) : Location :=
  if ((name =? "") || (name =? "UTC"))%go then UTC else Zone name.

Record Time := { instant : Z; location : Location }.

(** The zero [time.Time]. *)
Definition zero_time : Time := {| instant := days_from_civil 1 1 1 * 86400 * Second; location := UTC |}.

Section calendar.
Context `{Zones}.

Definition lookup (loc : Location) (sec : Z) : Z * Z * Z :=
  match loc with
  | UTC => (0, - 2 ^ 63, 2 ^ 63 - 1)
  | Zone name => zone_lookup name sec
  end.

Definition offset_at (loc : Location) (sec : Z) : Z := (lookup loc sec).1.1.

(** [time.Date]'s step from a local second to the Unix second: the offset in
    force at the local second read as UTC, or, when that is not valid there,
    the offset in force where it leads. *)
Definition unix_of_local (loc : Location) (unix : Z) : Z :=
  let '(offset, start, end_) := lookup loc unix in
  if offset =? 0 then unix
  else
    let utc := unix - offset in
    if (utc <? start) || (end_ <=? utc)
    then unix - offset_at loc utc
    else utc.

(** [time.Date(year, month, day, hour, min, sec, nsec, loc)] with [nsec] in
    range; months and days beyond their bounds carry over. *)
Definition time_Date (year month day hour min sec nsec : Z) (loc : Location) : Time :=
  let m := month - 1 in
  let year := year + m / 12 in
  let month := m mod 12 + 1 in
  let days := days_from_civil year month 1 + (day - 1) in
  let unix := wrap64 (((days * 24 + hour) * 60 + min) * 60 + sec) in
  {| instant := unix_of_local loc unix * Second + nsec; location := loc |}.

Definition unix_sec (t : Time) : Z := instant t / Second.
Definition nsec (t : Time) : Z := instant t mod Second.
Definition local_second (t : Time) : Z := unix_sec t + offset_at (location t) (unix_sec t).
Definition local_day (t : Time) : Z := local_second t / 86400.

Definition Year (t : Time) : Z := (civil_from_days (local_day t)).1.1.
Definition Month (t : Time) : Z := (civil_from_days (local_day t)).1.2.
Definition Day (t : Time) : Z := (civil_from_days (local_day t)).2.
(** [t.Clock()], as seconds of the local day. *)
Definition local_clock (t : Time) : Z := local_second t mod 86400.

Definition AddDate (t : Time) (years months days : Z) : Time :=
  time_Date (wrap64 (Year t + years)) (wrap64 (Month t + months)) (wrap64 (Day t + days))
    (local_clock t / 3600) (local_clock t / 60 mod 60) (local_clock t mod 60) (nsec t) (location t).

Definition In_ (t : Time) (loc : Location) : Time := {| instant := instant t; location := loc |}.
Definition ToUTC (t : Time) : Time := In_ t UTC.

(** [t.Add(d)] *)
Definition time_Add (t : Time) (d : Z) : Time := {| instant := instant t + d; location := location t |}.

(** [t.Sub(u)]: saturates at the bounds of a [Duration]. *)
Definition Sub (t u : Time) : Z :=
  let d := instant t - instant u in
  if d <? - 2 ^ 63 then - 2 ^ 63 else if 2 ^ 63 - 1 <? d then 2 ^ 63 - 1 else d.

(** [t.IsZero()]: January 1, year 1, 00:00:00 UTC. *)
Definition IsZeroTime (t : Time) : bool := instant t =? days_from_civil 1 1 1 * 86400 * Second.

(** [float64(n)] *)
Definition float64_of (n : Z) : spec_float := binary_normalize 53 1024 n 0 false.

(** [d.Hours()] *)
Definition Hours (d : Z) : spec_float :=
  SFadd 53 1024 (float64_of (Z.quot d Hour)) (SFdiv 53 1024 (float64_of (Z.rem d Hour)) (float64_of Hour)).
End calendar.

(** ** The civil calendar *)

(** Days before the year [y] that starts in March, counted from March 1 of
    year 0. *)
Definition year_days (y : Z) : Z := 365 * y + y / 4 - y / 100 + y / 400.

(** Days before month [mp] of such a year, March being 0. *)
Definition month_days (mp : Z) : Z := (153 * mp + 2) / 5.

Lemma days_from_civil_eq year month day :
  days_from_civil year month day =
  year_days (if month <=? 2 then year - 1 else year) + month_days ((month + 9) mod 12) + day - 1 - 719468.
Proof.
  unfold days_from_civil, year_days, month_days. set (y := if month <=? 2 then _ else _).
  enough (y / 400 * 146097 + ((y - y / 400 * 400) * 365 + (y - y / 400 * 400) / 4 - (y - y / 400 * 400) / 100)
          = 365 * y + y / 4 - y / 100 + y / 400) as <- by ring.
  Z.to_euclidean_division_equations. lia.
Qed.

(** The day number of the first day of month [i], months counted from year 0. *)
Definition month_start (i : Z) : Z := days_from_civil (i / 12) (i mod 12 + 1) 1.

Definition month_index (day : Z) : Z :=
  let '(year, month, _) := civil_from_days day in year * 12 + month - 1.

Lemma year_days_nested y : year_days y = 365 * y + y / 4 - y / 4 / 25 + y / 4 / 25 / 4.
Proof. unfold year_days. by rewrite !Z.div_div by lia. Qed.

Lemma year_days_step y : year_days y + 365 <= year_days (y + 1) <= year_days y + 366.
Proof. rewrite !year_days_nested. Z.to_euclidean_division_equations. lia. Qed.

(** Months counted from March of year 0. *)
Lemma month_start_march j : month_start (j + 2) = year_days (j / 12) + month_days (j mod 12) - 719468.
Proof.
  unfold month_start. rewrite days_from_civil_eq. destruct (Z.leb_spec ((j + 2) mod 12 + 1) 2).
  - replace ((j + 2) / 12 - 1) with (j / 12) by (Z.to_euclidean_division_equations; lia).
    replace (((j + 2) mod 12 + 1 + 9) mod 12) with (j mod 12) by (Z.to_euclidean_division_equations; lia). lia.
  - replace ((j + 2) / 12) with (j / 12) by (Z.to_euclidean_division_equations; lia).
    replace (((j + 2) mod 12 + 1 + 9) mod 12) with (j mod 12) by (Z.to_euclidean_division_equations; lia). lia.
Qed.

Lemma month_start_step Y mp :
  0 <= mp < 12 ->
  month_start (Y * 12 + mp + 2) = year_days Y + month_days mp - 719468 /\
  month_start (Y * 12 + mp + 3) =
    (if mp =? 11 then year_days (Y + 1) else year_days Y + month_days (mp + 1)) - 719468.
Proof.
  intros Hmp. replace (Y * 12 + mp + 3) with (Y * 12 + mp + 1 + 2) by lia. rewrite !month_start_march.
  replace ((Y * 12 + mp) / 12) with Y by (Z.to_euclidean_division_equations; lia).
  replace ((Y * 12 + mp) mod 12) with mp by (Z.to_euclidean_division_equations; lia).
  split; [done|]. destruct (Z.eqb_spec mp 11) as [->|Hne].
  - replace ((Y * 12 + 11 + 1) / 12) with (Y + 1) by (Z.to_euclidean_division_equations; lia).
    replace ((Y * 12 + 11 + 1) mod 12) with 0 by (Z.to_euclidean_division_equations; lia). change (month_days 0) with 0. lia.
  - replace ((Y * 12 + mp + 1) / 12) with Y by (Z.to_euclidean_division_equations; lia).
    by replace ((Y * 12 + mp + 1) mod 12) with (mp + 1) by (Z.to_euclidean_division_equations; lia).
Qed.

Lemma month_start_increases i : month_start i < month_start (i + 1).
Proof.
  pose proof (Z.mod_pos_bound (i - 2) 12 ltac:(lia)) as Hb.
  destruct (month_start_step ((i - 2) / 12) ((i - 2) mod 12) Hb) as [H1 H2].
  pose proof (Z.div_mod (i - 2) 12 ltac:(lia)) as Hi.
  replace ((i - 2) / 12 * 12 + (i - 2) mod 12 + 2) with i in H1 by lia.
  replace ((i - 2) / 12 * 12 + (i - 2) mod 12 + 3) with (i + 1) in H2 by lia.
  rewrite H1, H2. pose proof (year_days_step ((i - 2) / 12)).
  destruct (Z.eqb_spec ((i - 2) mod 12) 11) as [->|Hne]; [change (month_days 11) with 337; lia|].
  unfold month_days. Z.to_euclidean_division_equations. lia.
Qed.

Lemma month_start_mono i j : i < j -> month_start i < month_start j.
Proof.
  intros Hij. replace j with (i + 1 + (j - i - 1)) by lia. assert (0 <= j - i - 1) as Hk by lia.
  revert Hk. generalize (j - i - 1). clear Hij. apply natlike_ind; [rewrite Z.add_0_r; apply month_start_increases|].
  intros k Hk IH. pose proof (month_start_increases (i + 1 + k)). replace (i + 1 + Z.succ k) with (i + 1 + k + 1) by lia. lia.
Qed.

(** The century, the four years, the year and the day of the year of a day
    of the 400-year cycle. *)
Lemma cycle_split d c q r doy :
  0 <= d < 146097 -> c = Z.min 3 (d / 36524) -> q = (d - c * 36524) / 1461 ->
  r = Z.min 3 ((d - c * 36524 - q * 1461) / 365) -> doy = d - c * 36524 - q * 1461 - r * 365 ->
  0 <= c <= 3 /\ 0 <= q < 25 /\ 0 <= r <= 3 /\ 0 <= doy <= 365 /\ (doy = 365 -> r = 3 /\ (q = 24 -> c = 3)).
Proof. intros Hd Hc Hq Hr Hdoy. Z.to_euclidean_division_equations. lia. Qed.

Lemma year_days_cycle era c q r :
  0 <= c <= 3 -> 0 <= q < 25 -> 0 <= r <= 3 ->
  year_days (era * 400 + c * 100 + q * 4 + r) = era * 146097 + c * 36524 + q * 1461 + r * 365.
Proof.
  intros Hc Hq Hr. rewrite year_days_nested.
  replace ((era * 400 + c * 100 + q * 4 + r) / 4) with (era * 100 + c * 25 + q)
    by (Z.to_euclidean_division_equations; lia).
  replace ((era * 100 + c * 25 + q) / 25) with (era * 4 + c) by (Z.to_euclidean_division_equations; lia).
  replace ((era * 4 + c) / 4) with era by (Z.to_euclidean_division_equations; lia). lia.
Qed.

(** The last day of a leap year is still in it. *)
Lemma year_days_leap era c q :
  0 <= c <= 3 -> 0 <= q < 25 -> (q = 24 -> c = 3) ->
  year_days (era * 400 + c * 100 + q * 4 + 3 + 1) = year_days (era * 400 + c * 100 + q * 4 + 3) + 366.
Proof.
  intros Hc Hq Hleap. rewrite (year_days_cycle era c q 3) by lia. rewrite year_days_nested.
  replace ((era * 400 + c * 100 + q * 4 + 3 + 1) / 4) with (era * 100 + c * 25 + q + 1)
    by (Z.to_euclidean_division_equations; lia).
  Z.to_euclidean_division_equations. lia.
Qed.

(** A day in terms of its March-based year and month. *)
Lemma civil_from_days_split day year month d :
  civil_from_days day = (year, month, d) ->
  exists Y mp doy, day + 719468 = year_days Y + doy /\ 0 <= doy /\ day + 719468 < year_days (Y + 1) /\
    0 <= mp < 12 /\ month_days mp <= doy < month_days (mp + 1) /\ d = doy - month_days mp + 1 /\
    month = (if mp <? 10 then mp + 3 else mp - 9) /\ year = Y + (if month <=? 2 then 1 else 0).
Proof.
  unfold civil_from_days. set (e := (day + 719468) / 146097). set (n := (day + 719468) mod 146097).
  set (c := Z.min 3 (n / 36524)). set (q := (n - c * 36524) / 1461).
  set (r := Z.min 3 ((n - c * 36524 - q * 1461) / 365)). set (doy := n - c * 36524 - q * 1461 - r * 365).
  intros [= <- <- <-].
  pose proof (Z.div_mod (day + 719468) 146097 ltac:(lia)) as He.
  pose proof (Z.mod_pos_bound (day + 719468) 146097 ltac:(lia)) as Hn. fold e n in He, Hn.
  destruct (cycle_split n c q r doy Hn eq_refl eq_refl eq_refl eq_refl) as (Hc & Hq & Hr & Hdoy & Hleap).
  assert (n = c * 36524 + q * 1461 + r * 365 + doy) as Hsplit by (unfold doy; lia).
  clearbody e n c q r doy. pose proof (year_days_cycle e c q r Hc Hq Hr) as Hy.
  exists (e * 400 + c * 100 + q * 4 + r), ((5 * doy + 2) / 153), doy.
  assert (0 <= (5 * doy + 2) / 153 < 12 /\ month_days ((5 * doy + 2) / 153) <= doy < month_days ((5 * doy + 2) / 153 + 1))
    as [Hmp Hmonth] by (unfold month_days; Z.to_euclidean_division_equations; lia).
  split_and!; try done; try lia; [].
  destruct (Z.eq_dec doy 365) as [Heq|Hne]; [|pose proof (year_days_step (e * 400 + c * 100 + q * 4 + r)); lia].
  destruct (Hleap Heq) as [-> Hq24]. rewrite (year_days_leap e c q) by done. lia.
Qed.

(** [civil_from_days] inverts [days_from_civil] on every day, and the date it
    gives is in its month. *)
Lemma civil_from_days_inverse day year month d :
  civil_from_days day = (year, month, d) ->
  days_from_civil year month d = day /\ 1 <= month <= 12 /\ 1 <= d /\
  month_start (year * 12 + month - 1) <= day < month_start (year * 12 + month).
Proof.
  intros (Y & mp & doy & Hday & Hdoy & Hnext & Hmp & Hm & -> & Hmonth & Hyear)%civil_from_days_split.
  assert (1 <= month <= 12) as Hm12 by (destruct (Z.ltb_spec mp 10); lia).
  assert (year * 12 + month = Y * 12 + mp + 3) as Hidx
    by (destruct (Z.ltb_spec mp 10), (Z.leb_spec month 2); lia).
  destruct (month_start_step Y mp Hmp) as [H1 H2]. split_and!; [|lia..| |].
  - rewrite days_from_civil_eq.
    replace (if month <=? 2 then year - 1 else year) with Y by (destruct (Z.leb_spec month 2); lia).
    replace ((month + 9) mod 12) with mp by (destruct (Z.ltb_spec mp 10); Z.to_euclidean_division_equations; lia).
    lia.
  - rewrite Hidx. replace (Y * 12 + mp + 3 - 1) with (Y * 12 + mp + 2) by lia. lia.
  - rewrite Hidx, H2. destruct (Z.eqb_spec mp 11); lia.
Qed.

(** [month_index] is the month a day is in. *)
Lemma month_index_spec i day : month_start i <= day <-> i <= month_index day.
Proof.
  unfold month_index. destruct (civil_from_days day) as [[year month] d] eqn:Hc.
  apply civil_from_days_inverse in Hc as (_ & _ & _ & Hl & Hr). split; intros Hi.
  - destruct (Z.le_gt_cases i (year * 12 + month - 1)) as [|Hgt]; [done|].
    destruct (Z.eq_dec i (year * 12 + month)) as [->|]; [lia|].
    pose proof (month_start_mono (year * 12 + month) i ltac:(lia)). lia.
  - destruct (Z.eq_dec i (year * 12 + month - 1)) as [->|]; [done|].
    pose proof (month_start_mono i (year * 12 + month - 1) ltac:(lia)). lia.
Qed.

Lemma civil_from_month_start i :
  civil_from_days (month_start i) = (i / 12, i mod 12 + 1, 1).
Proof.
  destruct (civil_from_days (month_start i)) as [[year month] d] eqn:Hc.
  pose proof (proj1 (month_index_spec i (month_start i)) ltac:(lia)) as Hge. unfold month_index in Hge. rewrite Hc in Hge.
  apply civil_from_days_inverse in Hc as (Hd & Hm & Hd1 & Hl & Hr).
  assert (i = year * 12 + month - 1) as Hi.
  { destruct (Z.eq_dec i (year * 12 + month - 1)); [done|].
    pose proof (month_start_mono i (year * 12 + month - 1) ltac:(lia)). lia. }
  assert (i / 12 = year /\ i mod 12 + 1 = month) as [-> ->] by (Z.to_euclidean_division_equations; lia).
  enough (d = 1) as -> by done. revert Hd. unfold month_start.
  assert (i / 12 = year /\ i mod 12 + 1 = month) as [-> ->] by (Z.to_euclidean_division_equations; lia).
  unfold days_from_civil. lia.
Qed.

Lemma month_start_bound i : - 31 * Z.abs i - 719900 <= month_start i <= 31 * Z.abs i.
Proof.
  replace i with (i - 2 + 2) at 2 3 by lia. rewrite month_start_march.
  pose proof (Z.div_mod (i - 2) 12 ltac:(lia)). pose proof (Z.mod_pos_bound (i - 2) 12 ltac:(lia)).
  unfold year_days, month_days. Z.to_euclidean_division_equations. lia.
Qed.

Lemma month_index_bound day : Z.abs (month_index day) <= Z.abs day + 720000.
Proof.
  pose proof (proj2 (month_index_spec (month_index day) day) ltac:(lia)) as Hl.
  assert (day < month_start (month_index day + 1)) as Hr.
  { destruct (Z.lt_ge_cases day (month_start (month_index day + 1))) as [|Hge%month_index_spec]; [done|lia]. }
  assert (forall i, (0 <= i -> i - 720000 <= month_start i) /\ (i < 0 -> month_start i <= i)) as Hb.
  { intros i. replace i with (i - 2 + 2) at 3 5 by lia. rewrite month_start_march.
    unfold year_days, month_days. split; Z.to_euclidean_division_equations; lia. }
  pose proof (Hb (month_index day)). pose proof (Hb (month_index day + 1)). lia.
Qed.

Lemma month_index_start i : month_index (month_start i) = i.
Proof. unfold month_index. rewrite civil_from_month_start. Z.to_euclidean_division_equations. lia. Qed.

(** ** Local midnights *)

Section midnight.
Context `{Zones}.
Implicit Types (loc : Location) (day : Z).

(** The Unix second [time.Date] gives for the start of a local day. *)
Definition midnight loc day : Z := unix_of_local loc (day * 86400).

Definition at_midnight loc day : Time := {| instant := midnight loc day * Second; location := loc |}.

(** The local day starts at the instant [time.Date] gives: no change of
    offset skips or repeats its midnight. *)
Record regular_midnight loc day : Prop := {
  midnight_local : midnight loc day + offset_at loc (midnight loc day) = day * 86400;
  midnight_first : forall sec, midnight loc day <= sec <-> day * 86400 <= sec + offset_at loc sec;
}.

Lemma regular_midnight_utc day : regular_midnight UTC day.
Proof. split; unfold midnight, unix_of_local; cbn; lia. Qed.

(** So does a zone whose offset never changes. *)
Lemma regular_midnight_fixed name offset day :
  (forall sec, exists lo hi, zone_lookup name sec = (offset, lo, hi)) -> regular_midnight (Zone name) day.
Proof.
  intros Hz. assert (forall sec, offset_at (Zone name) sec = offset) as Ho.
  { intros sec. unfold offset_at, lookup. by destruct (Hz sec) as (lo & hi & ->). }
  assert (midnight (Zone name) day = day * 86400 - offset) as Hm.
  { unfold midnight, unix_of_local, lookup. destruct (Hz (day * 86400)) as (lo & hi & ->). rewrite Ho.
    destruct (Z.eqb_spec offset 0); [lia|]. by destruct (_ || _). }
  split; rewrite ?Hm; [rewrite Ho; lia|]. intros sec. rewrite Ho. lia.
Qed.

(** An instant is at or after the midnight of a day when its local date is. *)
Lemma midnight_le loc day t :
  regular_midnight loc day -> location t = loc ->
  instant (at_midnight loc day) <= instant t <-> day <= local_day t.
Proof.
  intros [_ Hf] Hloc. cbn. unfold local_day, local_second, unix_sec. rewrite Hloc.
  specialize (Hf (instant t / Second)). unfold Second in *.
  assert (midnight loc day * 1000000000 <= instant t <-> midnight loc day <= instant t / 1000000000) as ->
    by (Z.to_euclidean_division_equations; lia).
  rewrite Hf. Z.to_euclidean_division_equations. lia.
Qed.

Lemma at_midnight_fields loc day :
  regular_midnight loc day ->
  local_day (at_midnight loc day) = day /\ local_clock (at_midnight loc day) = 0 /\ nsec (at_midnight loc day) = 0.
Proof.
  intros [Hl _]. unfold local_day, local_clock, local_second, nsec, unix_sec, at_midnight. cbn.
  rewrite Z.div_mul, Z.mod_mul, Hl, Z.div_mul, Z.mod_mul by done. done.
Qed.

(** [time.Date] of a day at 00:00:00, however its month and day carry. *)
Lemma time_Date_midnight year month day loc :
  fits64 ((month_start (year * 12 + month - 1) + day - 1) * 86400) ->
  time_Date year month day 0 0 0 0 loc = at_midnight loc (month_start (year * 12 + month - 1) + day - 1).
Proof.
  intros Hfits. unfold time_Date, at_midnight, midnight. f_equal. rewrite Z.add_0_r. do 2 f_equal.
  assert (days_from_civil (year + (month - 1) / 12) ((month - 1) mod 12 + 1) 1 = month_start (year * 12 + month - 1)) as ->.
  { unfold month_start. f_equal; Z.to_euclidean_division_equations; lia. }
  rewrite wrap64_fits; unfold fits64 in *; lia.
Qed.

(** Calendar steps from a midnight lead to a midnight. *)
Lemma AddDate_midnight loc day years months days :
  let target := month_start (month_index day + years * 12 + months) + (day - month_start (month_index day)) + days in
  regular_midnight loc day -> Z.abs day <= 2 ^ 56 -> Z.abs years <= 2 ^ 56 -> Z.abs months <= 2 ^ 56 ->
  Z.abs days <= 2 ^ 56 -> fits64 (target * 86400) ->
  AddDate (at_midnight loc day) years months days = at_midnight loc target.
Proof.
  intros target Hreg Hday Hy Hm Hd Hfits. unfold AddDate, Year, Month, Day.
  destruct (at_midnight_fields loc _ Hreg) as (-> & -> & ->).
  pose proof (month_index_bound day) as Hb. unfold target in *. clear target. unfold month_index in *.
  destruct (civil_from_days day) as [[year month] d] eqn:Hc.
  apply civil_from_days_inverse in Hc as (Hinv & Hm12 & Hd1 & Hl & Hr). cbn -[wrap64].
  assert (days_from_civil year month d = month_start (year * 12 + month - 1) + d - 1) as Hstart.
  { unfold month_start. replace ((year * 12 + month - 1) / 12) with year by (Z.to_euclidean_division_equations; lia).
    replace ((year * 12 + month - 1) mod 12 + 1) with month by (Z.to_euclidean_division_equations; lia).
    unfold days_from_civil. lia. }
  rewrite Hinv in Hstart. pose proof (month_start_bound (year * 12 + month - 1)) as Hms.
  rewrite !wrap64_fits by (unfold fits64; lia).
  rewrite time_Date_midnight; rewrite ?Z.add_sub_assoc in *; [f_equal|];
    replace ((year + years) * 12 + (month + months) - 1) with (year * 12 + month - 1 + years * 12 + months) by lia;
    [lia|]. unfold fits64 in *. lia.
Qed.
End midnight.
