(* ===== verification/Decimal.v ===== *)
(** * The decimal interface and amount.go

    [github.com/shopspring/decimal] is a third-party package, so the model
    takes its operations as a parameter: the class [DecimalOps] names the
    methods the SDK calls, and [DecimalLaws] states their documented
    behaviour through the rational number a decimal denotes.  The module
    [Ref] of DecimalRef.v is one concrete implementation, used by the witnesses.
    The last part is amount.go, exact money: parsing of canonical decimal
    strings, six-place quantisation, and the two guarded divisions of the
    pricing code. *)

From Stdlib Require Export QArith Qround Qabs Qpower Lqa.
From Stdlib Require Import Setoid.
From S2P Require Export GoStrings Errors.

(** ** Rounding on rationals *)

(** Nearest integer, midpoint ties away from zero. *)
Definition half_away (q : Q) : Z :=
  if Qle_bool 0 q then Qfloor (q + (1 # 2)) else Qceiling (q - (1 # 2)).

(** Integer part, fraction dropped. *)
Definition qtrunc (q : Q) : Z :=
  if Qle_bool 0 q then Qfloor q else Qceiling q.

(** [10^p] for a signed exponent. *)
Definition ten (p : Z) : Q := Qpower (10 # 1) p.

(** [q] rounded to [p] decimal places. *)
Definition round_places (q : Q) (p : Z) : Q := inject_Z (half_away (q * ten p)) / ten p.

(** The number a canonical decimal string denotes. *)
Definition decimal_value (s : string) : Q :=
  let '(sign, s) := match s with String "-" rest => ((-1)%Z, rest) | _ => (1%Z, s) end in
  let '(whole, rest) := span is_digit s in
  let frac := match rest with String _ frac => frac | EmptyString => EmptyString end in
  inject_Z (sign * digits_value 0 (whole +:+ frac)) / ten (Z.of_nat (String.length frac)).

(** ** The methods of decimal.Decimal the SDK uses *)
Class DecimalOps (D : Type) := {
  dec_zero : D;                              (* decimal.Zero *)
  NewFromInt : Z -> D;
  NewFromString : string -> option D;        (* None: the error case *)
  dec_add : D -> D -> D;
  dec_sub : D -> D -> D;
  dec_mul : D -> D -> D;
  dec_neg : D -> D;
  dec_cmp : D -> D -> comparison;
  DivRound : D -> D -> Z -> D;
  dec_mod : D -> D -> D;
  dec_round : D -> Z -> D;
  dec_truncate : D -> Z -> D;
  dec_ceil : D -> D;
  dec_floor : D -> D;
  IntPart : D -> Z;                          (* int64 *)
  dec_string : D -> string;
  StringFixed : D -> Z -> string;
}.

Section comparisons.
Context {D : Type} `{DecimalOps D}.

Definition LessThan (a b : D) : bool :=
  match dec_cmp a b with Lt => true | _ => false end.
Definition GreaterThan (a b : D) : bool :=
  match dec_cmp a b with Gt => true | _ => false end.
Definition LessThanOrEqual (a b : D) : bool := negb (GreaterThan a b).
Definition GreaterThanOrEqual (a b : D) : bool := negb (LessThan a b).
Definition dec_equal (a b : D) : bool :=
  match dec_cmp a b with Eq => true | _ => false end.
Definition IsZero (a : D) : bool := dec_equal a dec_zero.
Definition IsNegative (a : D) : bool := LessThan a dec_zero.
End comparisons.

(** ** Their documented behaviour

    [toQ] is the number a decimal denotes.  Precisions are stated for the
    range the SDK uses (0 to 32 places). *)
Class DecimalLaws (D : Type) `{DecimalOps D} := {
  toQ : D -> Q;
  toQ_zero : (toQ dec_zero == 0)%Q;
  toQ_of_int : forall z, (toQ (NewFromInt z) == inject_Z z)%Q;
  toQ_add : forall a b, (toQ (dec_add a b) == toQ a + toQ b)%Q;
  toQ_sub : forall a b, (toQ (dec_sub a b) == toQ a - toQ b)%Q;
  toQ_mul : forall a b, (toQ (dec_mul a b) == toQ a * toQ b)%Q;
  toQ_neg : forall a, (toQ (dec_neg a) == - toQ a)%Q;
  dec_cmp_spec : forall a b, dec_cmp a b = (toQ a ?= toQ b)%Q;
  toQ_div_round : forall a b p, (0 <= p <= 32)%Z -> ~ (toQ b == 0)%Q ->
    (toQ (DivRound a b p) == round_places (toQ a / toQ b) p)%Q;
  toQ_mod : forall a b, ~ (toQ b == 0)%Q ->
    (toQ (dec_mod a b) == toQ a - toQ b * inject_Z (qtrunc (toQ a / toQ b)))%Q;
  toQ_round : forall a p, (0 <= p <= 32)%Z -> (toQ (dec_round a p) == round_places (toQ a) p)%Q;
  toQ_truncate : forall a p, (0 <= p <= 32)%Z ->
    (toQ (dec_truncate a p) == inject_Z (qtrunc (toQ a * ten p)) / ten p)%Q;
  toQ_ceil : forall a, (toQ (dec_ceil a) == inject_Z (Qceiling (toQ a)))%Q;
  toQ_floor : forall a, (toQ (dec_floor a) == inject_Z (Qfloor (toQ a)))%Q;
  NewFromString_canonical : forall s, matches_decimal s = true ->
    exists d, NewFromString s = Some d /\ (toQ d == decimal_value s)%Q;
  StringFixed_canonical : forall a p, (0 <= p <= 32)%Z ->
    matches_decimal (StringFixed a p) = true /\ (decimal_value (StringFixed a p) == round_places (toQ a) p)%Q;
  IntPart_spec : forall a, (- 2 ^ 63 <= qtrunc (toQ a) < 2 ^ 63)%Z -> IntPart a = qtrunc (toQ a);
}.

(** ** Facts about rounding *)
Section rounding.
Local Open Scope Q_scope.

Lemma ten_pos p : 0 < ten p.
Proof. apply Qpower_0_lt. reflexivity. Qed.

Lemma ten_nonzero p : ~ ten p == 0.
Proof. pose proof (ten_pos p). lra. Qed.

Lemma ten_0 : ten 0 == 1.
Proof. reflexivity. Qed.

#[global] Instance half_away_Proper : Proper (Qeq ==> eq) half_away.
Proof.
  intros a b Hab. unfold half_away. rewrite Hab.
  destruct (Qle_bool 0 b); [apply Qfloor_comp | apply Qceiling_comp]; by rewrite Hab.
Qed.

#[global] Instance qtrunc_Proper : Proper (Qeq ==> eq) qtrunc.
Proof.
  intros a b Hab. unfold qtrunc. rewrite Hab.
  destruct (Qle_bool 0 b); [by apply Qfloor_comp | by apply Qceiling_comp].
Qed.

#[global] Instance round_places_Proper : Proper (Qeq ==> eq ==> Qeq) round_places.
Proof. intros a b Hab p ? <-. unfold round_places. by rewrite Hab. Qed.

Lemma half_away_nonneg q : 0 <= q -> (0 <= half_away q)%Z.
Proof.
  intros Hq. unfold half_away. rewrite (proj2 (Qle_bool_iff 0 q) Hq).
  apply Z.le_trans with (Qfloor 0); [reflexivity|].
  apply Qfloor_resp_le. lra.
Qed.

Lemma half_away_int z : half_away (inject_Z z) = z.
Proof.
  unfold half_away. destruct (Qle_bool 0 (inject_Z z)).
  - assert (z <= Qfloor (inject_Z z + (1 # 2)))%Z.
    { rewrite <- (Qfloor_Z z) at 1. apply Qfloor_resp_le. lra. }
    assert (inject_Z (Qfloor (inject_Z z + (1 # 2))) < inject_Z (z + 1)).
    { rewrite inject_Z_plus. change (inject_Z 1) with 1.
      pose proof (Qfloor_le (inject_Z z + (1 # 2))). lra. }
    rewrite <- Zlt_Qlt in *. lia.
  - assert (Qceiling (inject_Z z - (1 # 2)) <= z)%Z.
    { rewrite <- (Qceiling_Z z) at 2. apply Qceiling_resp_le. lra. }
    assert (inject_Z (z - 1) < inject_Z (Qceiling (inject_Z z - (1 # 2)))).
    { replace (z - 1)%Z with (z + -1)%Z by lia.
      rewrite inject_Z_plus. change (inject_Z (-1)) with (-1 # 1).
      pose proof (Qle_ceiling (inject_Z z - (1 # 2))). lra. }
    rewrite <- Zlt_Qlt in *. lia.
Qed.

Lemma half_away_mono a b : a <= b -> (half_away a <= half_away b)%Z.
Proof.
  intros Hab. unfold half_away.
  destruct (Qle_bool 0 a) eqn:Ha, (Qle_bool 0 b) eqn:Hb.
  - apply Qfloor_resp_le. lra.
  - apply Qle_bool_iff in Ha. assert (0 <= b) as Hb'%Qle_bool_iff by lra. congruence.
  - apply Z.le_trans with 0%Z.
    + apply Z.le_trans with (Qceiling 0); [|reflexivity]. apply Qceiling_resp_le.
      assert (~ 0 <= a) by (rewrite <- Qle_bool_iff; congruence). lra.
    + apply Qle_bool_iff in Hb. apply Z.le_trans with (Qfloor 0); [reflexivity|].
      apply Qfloor_resp_le. lra.
  - apply Qceiling_resp_le. lra.
Qed.

Lemma round_places_mono a b p : a <= b -> round_places a p <= round_places b p.
Proof.
  intros Hab. unfold round_places. pose proof (ten_pos p).
  apply Qmult_le_compat_r; [|apply Qlt_le_weak, Qinv_lt_0_compat; lra].
  rewrite <- Zle_Qle. apply half_away_mono. apply Qmult_le_compat_r; lra.
Qed.

Lemma half_away_close q : q - (1 # 2) <= inject_Z (half_away q) <= q + (1 # 2).
Proof.
  unfold half_away. destruct (Qle_bool 0 q).
  - pose proof (Qfloor_le (q + (1 # 2))). pose proof (Qlt_floor (q + (1 # 2))) as Hf.
    rewrite inject_Z_plus in Hf. change (inject_Z 1) with 1 in Hf. lra.
  - pose proof (Qle_ceiling (q - (1 # 2))). pose proof (Qceiling_lt (q - (1 # 2))) as Hc.
    replace (Qceiling (q - (1 # 2)) - 1)%Z with (Qceiling (q - (1 # 2)) + -1)%Z in Hc by lia.
    rewrite inject_Z_plus in Hc. change (inject_Z (-1)) with (-1 # 1) in Hc. lra.
Qed.

(** Rounding moves a number by at most half of the last place. *)
Lemma round_places_close q : q - (1 # 2000000) <= round_places q 6 <= q + (1 # 2000000).
Proof.
  unfold round_places. pose proof (half_away_close (q * ten 6)) as Hc.
  change (ten 6) with (1000000 # 1) in *. unfold Qdiv. change (/ (1000000 # 1)) with (1 # 1000000). lra.
Qed.

Lemma round_places_nonneg q p : 0 <= q -> 0 <= round_places q p.
Proof.
  intros Hq. unfold round_places. pose proof (ten_pos p).
  apply Qle_shift_div_l; [lra|].
  assert (0 <= half_away (q * ten p))%Z as Hz by (apply half_away_nonneg, Qmult_le_0_compat; lra).
  rewrite Zle_Qle in Hz. change (inject_Z 0) with 0 in Hz. lra.
Qed.

(** A multiple of [10^-p] is left as it is. *)
Lemma round_places_exact q p z : q * ten p == inject_Z z -> round_places q p == q.
Proof.
  intros Hq. unfold round_places. rewrite Hq, half_away_int, <- Hq.
  field. apply ten_nonzero.
Qed.

Lemma round_places_idem q p : round_places (round_places q p) p == round_places q p.
Proof.
  apply (round_places_exact _ _ (half_away (q * ten p))). unfold round_places.
  field. apply ten_nonzero.
Qed.

Lemma round_places_int z p : (0 <= p)%Z -> round_places (inject_Z z) p == inject_Z z.
Proof.
  intros Hp. apply (round_places_exact _ _ (z * 10 ^ p)). unfold ten.
  rewrite inject_Z_mult, Zpower_Qpower by done. reflexivity.
Qed.
End rounding.

(** ** Decimals up to the number they denote *)
Section laws.
Context {D : Type} `{DecimalLaws D}.
Local Open Scope Q_scope.

Definition dec_eqv (a b : D) : Prop := toQ a == toQ b.

#[global] Instance dec_eqv_Equivalence : Equivalence dec_eqv.
Proof.
  split.
  - intros a. unfold dec_eqv. reflexivity.
  - intros a b Hab. unfold dec_eqv in *. by symmetry.
  - intros a b c Hab Hbc. unfold dec_eqv in *. by rewrite Hab.
Qed.

#[global] Instance toQ_Proper : Proper (dec_eqv ==> Qeq) toQ.
Proof. by intros a b Hab. Qed.
#[global] Instance dec_add_Proper : Proper (dec_eqv ==> dec_eqv ==> dec_eqv) dec_add.
Proof. intros a b Hab c d Hcd. unfold dec_eqv in *. by rewrite !toQ_add, Hab, Hcd. Qed.
#[global] Instance dec_sub_Proper : Proper (dec_eqv ==> dec_eqv ==> dec_eqv) dec_sub.
Proof. intros a b Hab c d Hcd. unfold dec_eqv in *. by rewrite !toQ_sub, Hab, Hcd. Qed.
#[global] Instance dec_mul_Proper : Proper (dec_eqv ==> dec_eqv ==> dec_eqv) dec_mul.
Proof. intros a b Hab c d Hcd. unfold dec_eqv in *. by rewrite !toQ_mul, Hab, Hcd. Qed.
#[global] Instance dec_cmp_Proper : Proper (dec_eqv ==> dec_eqv ==> eq) dec_cmp.
Proof. intros a b Hab c d Hcd. unfold dec_eqv in *. by rewrite !dec_cmp_spec, Hab, Hcd. Qed.

Lemma LessThan_spec (a b : D) : LessThan a b = true <-> toQ a < toQ b.
Proof.
  unfold LessThan. rewrite dec_cmp_spec, Qlt_alt.
  destruct (toQ a ?= toQ b); naive_solver.
Qed.
Lemma LessThan_false (a b : D) : LessThan a b = false <-> toQ b <= toQ a.
Proof. rewrite <- not_true_iff_false, LessThan_spec. split; intros; lra. Qed.
Lemma GreaterThan_spec (a b : D) : GreaterThan a b = true <-> toQ b < toQ a.
Proof.
  unfold GreaterThan. rewrite dec_cmp_spec, Qgt_alt.
  destruct (toQ a ?= toQ b); naive_solver.
Qed.
Lemma GreaterThan_false (a b : D) : GreaterThan a b = false <-> toQ a <= toQ b.
Proof. rewrite <- not_true_iff_false, GreaterThan_spec. split; intros; lra. Qed.
Lemma LessThanOrEqual_spec (a b : D) : LessThanOrEqual a b = true <-> toQ a <= toQ b.
Proof. unfold LessThanOrEqual. by rewrite negb_true_iff, GreaterThan_false. Qed.
Lemma GreaterThanOrEqual_spec (a b : D) : GreaterThanOrEqual a b = true <-> toQ b <= toQ a.
Proof. unfold GreaterThanOrEqual. by rewrite negb_true_iff, LessThan_false. Qed.
Lemma dec_equal_spec (a b : D) : dec_equal a b = true <-> toQ a == toQ b.
Proof.
  unfold dec_equal. rewrite dec_cmp_spec, Qeq_alt.
  destruct (toQ a ?= toQ b); naive_solver.
Qed.
Lemma IsZero_spec (a : D) : IsZero a = true <-> toQ a == 0.
Proof. unfold IsZero. by rewrite dec_equal_spec, toQ_zero. Qed.
Lemma IsZero_false (a : D) : IsZero a = false <-> ~ toQ a == 0.
Proof. by rewrite <- not_true_iff_false, IsZero_spec. Qed.
Lemma IsNegative_spec (a : D) : IsNegative a = true <-> toQ a < 0.
Proof. unfold IsNegative. by rewrite LessThan_spec, toQ_zero. Qed.
Lemma IsNegative_false (a : D) : IsNegative a = false <-> 0 <= toQ a.
Proof. unfold IsNegative. by rewrite LessThan_false, toQ_zero. Qed.
End laws.

Create HintDb decimal.
#[export] Hint Rewrite @toQ_zero @toQ_of_int @toQ_add @toQ_sub @toQ_mul @toQ_neg
  @toQ_ceil @toQ_floor using typeclasses eauto : decimal.

(** Turns every boolean comparison of decimals into one of rationals. *)
Ltac dec_bool :=
  repeat match goal with
  | H : LessThan _ _ = true |- _ => apply LessThan_spec in H
  | H : LessThan _ _ = false |- _ => apply LessThan_false in H
  | H : GreaterThan _ _ = true |- _ => apply GreaterThan_spec in H
  | H : GreaterThan _ _ = false |- _ => apply GreaterThan_false in H
  | H : LessThanOrEqual _ _ = true |- _ => apply LessThanOrEqual_spec in H
  | H : GreaterThanOrEqual _ _ = true |- _ => apply GreaterThanOrEqual_spec in H
  | H : IsNegative _ = true |- _ => apply IsNegative_spec in H
  | H : IsNegative _ = false |- _ => apply IsNegative_false in H
  | H : IsZero _ = true |- _ => apply IsZero_spec in H
  | H : IsZero _ = false |- _ => apply IsZero_false in H
  end.

(** Linear goals about the numbers decimals denote. *)
Ltac dec_lra := dec_bool; autorewrite with decimal in *; lra.

(** ** The text of a decimal *)

Section text.
Local Open Scope go_scope.

(** Digits without a leading zero. *)
Definition whole_number (s : string) : Prop :=
  match s with
  | String c rest => is_digit c = true /\ all_chars is_digit rest = true /\ (c = "0"%char -> rest = "")
  | EmptyString => False
  end.

(** A point and digits, or nothing. *)
Definition decimals (frac : string) : string := if frac =? "" then "" else "." +:+ frac.

Definition signed (negative : bool) (s : string) : string := if negative then String "-" s else s.

Lemma span_decimals whole frac :
  whole_number whole -> span is_digit (whole +:+ decimals frac) = (whole, decimals frac).
Proof.
  destruct whole as [|c rest]; [done|]. intros (Hc & Hrest & _). apply span_exact; [cbn; by rewrite Hc|].
  unfold decimals. by destruct (frac =? "").
Qed.

Lemma unsigned_first whole rest s :
  whole_number whole -> s = whole +:+ rest ->
  match s with String "-" r => r | _ => s end = s /\
  match s with String "-" r => ((-1)%Z, r) | _ => (1%Z, s) end = (1%Z, s).
Proof.
  destruct whole as [|c w]; [done|]. intros (Hc & _) ->. rewrite append_cons.
  by destruct c as [[] [] [] [] [] [] [] []].
Qed.

(** The text of a decimal: canonical, and denoting what its digits do. *)
Lemma decimal_text negative whole frac :
  whole_number whole -> all_chars is_digit frac = true ->
  let s := signed negative (whole +:+ decimals frac) in
  matches_decimal s = true /\
  (decimal_value s == inject_Z ((if negative then -1 else 1) * digits_value 0 (whole +:+ frac)) /
                      ten (Z.of_nat (String.length frac)))%Q.
Proof.
  intros Hw Hf. destruct (unsigned_first whole (decimals frac) _ Hw eq_refl) as [Hm Hv].
  pose proof (span_decimals whole frac Hw) as Hspan. cbv zeta. split.
  - assert (matches_decimal (signed negative (whole +:+ decimals frac)) =
            let '(whole, rest) := span is_digit (whole +:+ decimals frac) in
            match whole with
            | EmptyString => false
            | String "0" (String _ _) => false
            | _ => match rest with
                   | EmptyString => true
                   | String "." (String _ _ as frac) => all_chars is_digit frac
                   | _ => false end end) as ->
      by (unfold matches_decimal; destruct negative; cbn [signed]; [done|by rewrite Hm]).
    rewrite Hspan. unfold decimals. destruct whole as [|c w]; [done|]. destruct Hw as (Hc & _ & Hzero).
    assert (match (if frac =? "" then "" else "." +:+ frac) with
            | EmptyString => true
            | String "." (String _ _ as frac) => all_chars is_digit frac
            | _ => false end = true) as Hrest by (by destruct frac).
    destruct w as [|d w]; [by destruct c as [[] [] [] [] [] [] [] []]|].
    destruct c as [[] [] [] [] [] [] [] []]; try done. by discriminate Hzero.
  - assert (match decimals frac with String _ frac => frac | EmptyString => EmptyString end = frac) as Hfrac
      by (unfold decimals; by destruct frac).
    unfold decimal_value. destruct negative; cbn [signed]; [|rewrite Hv]; by rewrite Hspan, Hfrac.
Qed.
End text.

(** ** amount.go: exact money *)

Definition MoneyDecimalPlaces : Z := 6.

Section amount.
Context {D : Type} `{DecimalOps D}.

Definition ParseDecimalString (value : string) : result D :=
  if negb (matches_decimal value)
  then Err (newConfigError "decimal values must be base-10 decimal strings" None)
  else match NewFromString value with
       | None =>
           Err (newConfigError "decimal value is invalid" (Some (ExternalError value)))
       | Some parsed => Ok parsed
       end.

Definition NewAmount (value : string) : result D := ParseDecimalString value.

Definition QuantizeMoney (value : D) : D := dec_round value MoneyDecimalPlaces.

Definition requirePositiveAmount (value : D) (operation : string) : result D :=
  if negb (GreaterThan value dec_zero)
  then Err (errorf ErrorCode.Config ErrorCategory.InvalidRequest
              (operation +:+ " amount must be positive"))
  else Ok value.

Definition requireNonNegativeAmount (value : D) (operation : string) : result D :=
  if IsNegative value
  then Err (errorf ErrorCode.Config ErrorCategory.InvalidRequest
              (operation +:+ " amount must be non-negative"))
  else Ok value.

Definition decimalDiv (left right : D) : result D :=
  if IsZero right then Err (newExpressionError "division by zero" None)
  else Ok (DivRound left right 32).

Definition decimalTruncDiv (left right : D) : result D :=
  quotient <- decimalDiv left right ;;
  Ok (dec_truncate quotient 0).
End amount.

Section amount_facts.
Context {D : Type} `{DecimalLaws D}.
Local Open Scope Q_scope.

(** A multiple of a millionth. *)
Definition is_money (d : D) : Prop := exists z, toQ d * ten 6 == inject_Z z.

Lemma toQ_quantize (d : D) : toQ (QuantizeMoney d) == round_places (toQ d) 6.
Proof. unfold QuantizeMoney, MoneyDecimalPlaces. apply toQ_round. lia. Qed.

Lemma QuantizeMoney_nonneg (d : D) : 0 <= toQ d -> 0 <= toQ (QuantizeMoney d).
Proof. intros Hd. rewrite toQ_quantize. by apply round_places_nonneg. Qed.

Lemma QuantizeMoney_is_money (d : D) : is_money (QuantizeMoney d).
Proof.
  exists (half_away (toQ d * ten 6)). rewrite toQ_quantize. unfold round_places.
  field. apply ten_nonzero.
Qed.

Lemma QuantizeMoney_money (d : D) : is_money d -> toQ (QuantizeMoney d) == toQ d.
Proof. intros [z Hz]. rewrite toQ_quantize. by apply (round_places_exact _ _ z). Qed.

Lemma is_money_add (a b : D) : is_money a -> is_money b -> is_money (dec_add a b).
Proof.
  intros [x Hx] [y Hy]. exists (x + y)%Z. rewrite toQ_add, inject_Z_plus, <- Hx, <- Hy. ring.
Qed.

Lemma is_money_zero : is_money dec_zero.
Proof. exists 0%Z. rewrite toQ_zero. reflexivity. Qed.

Lemma decimalDiv_Ok (a b c : D) :
  decimalDiv a b = Ok c <-> IsZero b = false /\ c = DivRound a b 32.
Proof. unfold decimalDiv. destruct (IsZero b); naive_solver. Qed.

Lemma toQ_decimalDiv (a b c : D) :
  decimalDiv a b = Ok c -> toQ c == round_places (toQ a / toQ b) 32.
Proof.
  intros [Hb ->]%decimalDiv_Ok. apply IsZero_false in Hb. apply toQ_div_round; [lia | done].
Qed.
End amount_facts.
