(* ===== verification/DecimalRef.v ===== *)
(** * A concrete decimal

    A coefficient and a number of fractional digits, with the operations of
    [DecimalOps] (module [Ref]) computed exactly and the laws of [DecimalLaws] proved.  It
    shows that the laws can hold together and is what the witnesses and the
    evaluation examples run on; no theorem depends on it. *)

From S2P Require Export Decimal.
Local Open Scope Z_scope.

Module Ref.
Record dec := mk_dec { coef : Z; scale : N }.

Definition pow10 (n : N) : Z := 10 ^ Z.of_N n.

Definition value (d : dec) : Q := (inject_Z (coef d) / inject_Z (pow10 (scale d)))%Q.

(** [z * 10^-p] *)
Definition of_scaled (z p : Z) : dec :=
if 0 <=? p then mk_dec z (Z.to_N p) else mk_dec (z * 10 ^ (- p)) 0.

Definition align (d : dec) (n : N) : Z := coef d * pow10 (n - scale d).

Definition add (a b : dec) : dec :=
let m := N.max (scale a) (scale b) in mk_dec (align a m + align b m) m.
Definition neg (a : dec) : dec := mk_dec (- coef a) (scale a).
Definition sub (a b : dec) : dec := add a (neg b).
Definition mul (a b : dec) : dec := mk_dec (coef a * coef b) (scale a + scale b).
Definition of_int (z : Z) : dec := mk_dec z 0.

Definition round (a : dec) (p : Z) : dec := of_scaled (half_away (value a * ten p)) p.
Definition truncate (a : dec) (p : Z) : dec := of_scaled (qtrunc (value a * ten p)) p.
Definition div_round (a b : dec) (p : Z) : dec := of_scaled (half_away (value a / value b * ten p)) p.
Definition modulo (a b : dec) : dec := sub a (mul b (of_int (qtrunc (value a / value b)))).

(** ** Text *)
Definition digit_of (c : ascii) : option Z := if is_digit c then Some (byte_of c - 48) else None.

(** Reads digits and at most one dot: (coefficient, digits after the dot,
  dot seen, digits read). *)
Fixpoint read_mantissa (s : string) (acc : Z) (frac : N) (dot : bool) (count : nat)
  : option (Z * N * nat * string) :=
match s with
| EmptyString => Some (acc, frac, count, EmptyString)
| String c rest =>
    match digit_of c with
    | Some d => read_mantissa rest (acc * 10 + d) (if dot then N.succ frac else frac) dot (S count)
    | None =>
        if Ascii.eqb c "."%char
        then (if dot then None else read_mantissa rest acc frac true count)
        else Some (acc, frac, count, s)
    end
end.

Definition read_sign (s : string) : bool * string :=
match s with
| String "-" rest => (true, rest)
| String "+" rest => (false, rest)
| _ => (false, s)
end.

Definition of_string (s : string) : option dec :=
let '(negative, s) := read_sign s in
match read_mantissa s 0 0 false 0 with
| Some (c, f, S _, rest) =>
    let c := if negative then - c else c in
    match rest with
    | EmptyString => Some (mk_dec c f)
    | String e exponent =>
        if Ascii.eqb e "e"%char || Ascii.eqb e "E"%char then
          let '(eneg, exponent) := read_sign exponent in
          match read_mantissa exponent 0 0 true 0 with
          | Some (x, _, S _, EmptyString) =>
              let x := if eneg then - x else x in
              Some (of_scaled c (Z.of_N f - x))
          | _ => None
          end
        else None
    end
| _ => None
end.

(** The last [n] decimal digits of [z], most significant first. *)
Fixpoint digits (n : nat) (z : Z) : string :=
match n with
| O => EmptyString
| S n' => digits n' (z / 10) +:+ String (ascii_of_nat (48 + Z.to_nat (z mod 10))) EmptyString
end.

(** Without leading zeros; the last digit stays. *)
Fixpoint strip_zeros (s : string) : string :=
match s with
| String c (String _ _ as rest) => if Ascii.eqb c "0" then strip_zeros rest else s
| _ => s
end.

Definition whole_digits (z : Z) : string := strip_zeros (digits (S (Z.to_nat (Z.log2 z))) z).

Definition string_fixed (a : dec) (p : Z) : string :=
let c := half_away (value a * ten p) in
let m := Z.abs c in
(if c <? 0 then "-" else "") +:+ whole_digits (m / 10 ^ p) +:+
(if 0 <? p then "." +:+ digits (Z.to_nat p) (m mod 10 ^ p) else "").

(** Fractional digits left once trailing zeros are dropped. *)
Fixpoint significant_places (n : nat) (c : Z) : Z :=
match n with
| O => 0
| S n' => if c mod 10 =? 0 then significant_places n' (c / 10) else Z.of_nat n
end.

Definition to_string (a : dec) : string :=
string_fixed a (significant_places (N.to_nat (scale a)) (coef a)).

#[export] Instance dec_ops : DecimalOps dec := {|
dec_zero := of_int 0;
NewFromInt := of_int;
NewFromString := of_string;
dec_add := add;
dec_sub := sub;
dec_mul := mul;
dec_neg := neg;
dec_cmp a b := (value a ?= value b)%Q;
DivRound := div_round;
dec_mod := modulo;
dec_round := round;
dec_truncate := truncate;
dec_ceil a := of_int (Qceiling (value a));
dec_floor a := of_int (Qfloor (value a));
IntPart a := qtrunc (value a);
dec_string := to_string;
StringFixed := string_fixed;
|}.

(** ** The laws *)
Lemma pow10_pos n : 0 < pow10 n.
Proof. apply Z.pow_pos_nonneg; lia. Qed.

Lemma pow10_nonzero n : ~ (inject_Z (pow10 n) == 0)%Q.
Proof. pose proof (pow10_pos n). change 0%Q with (inject_Z 0). rewrite inject_Z_injective. lia. Qed.

Lemma pow10_add m n : pow10 (m + n) = pow10 m * pow10 n.
Proof. unfold pow10. rewrite N2Z.inj_add, Z.pow_add_r by lia. done. Qed.

Lemma align_value d n : (scale d <= n)%N ->
(inject_Z (align d n) / inject_Z (pow10 n) == value d)%Q.
Proof.
intros Hle. unfold align, value.
replace (pow10 n) with (pow10 (scale d) * pow10 (n - scale d)) by (rewrite <- pow10_add; f_equal; lia).
rewrite !inject_Z_mult. field. split; apply pow10_nonzero.
Qed.

Lemma value_of_scaled z p : 0 <= p -> (value (of_scaled z p) == inject_Z z / ten p)%Q.
Proof.
intros Hp. unfold of_scaled. rewrite (proj2 (Z.leb_le 0 p) Hp).
unfold value; cbn. unfold pow10, ten. rewrite Z2N.id by done.
rewrite Zpower_Qpower by done. reflexivity.
Qed.

Lemma value_of_int z : (value (of_int z) == inject_Z z)%Q.
Proof. unfold value, of_int; cbn [coef scale]. change (pow10 0) with 1. field. Qed.

Lemma value_add a b : (value (add a b) == value a + value b)%Q.
Proof.
unfold add. set (m := N.max _ _). unfold value at 1; cbn [coef scale].
rewrite inject_Z_plus, <- (align_value a m), <- (align_value b m) by lia.
field. apply pow10_nonzero.
Qed.

Lemma value_neg a : (value (neg a) == - value a)%Q.
Proof. unfold value; cbn. rewrite inject_Z_opp. field. apply pow10_nonzero. Qed.

Lemma value_sub a b : (value (sub a b) == value a - value b)%Q.
Proof. unfold sub. rewrite value_add, value_neg. reflexivity. Qed.

Lemma value_mul a b : (value (mul a b) == value a * value b)%Q.
Proof.
unfold value; cbn. rewrite pow10_add, !inject_Z_mult. field. split; apply pow10_nonzero.
Qed.

Lemma read_mantissa_digits s acc frac dot count rest :
all_chars is_digit s = true ->
read_mantissa (s +:+ rest) acc frac dot count =
read_mantissa rest (digits_value acc s)
  (if dot then frac + N.of_nat (String.length s) else frac)%N dot (count + String.length s).
Proof.
revert acc frac count. induction s as [|c s IH]; intros acc frac count Hs; cbn in *.
- rewrite append_nil. f_equal; [destruct dot|]; lia.
- rewrite append_cons. cbn. unfold digit_of. apply andb_true_iff in Hs as [-> Hs].
  rewrite IH by done. f_equal; [destruct dot|]; lia.
Qed.

Lemma append_empty_r s : s +:+ "" = s.
Proof. induction s as [|c s IH]; [done|]. by rewrite append_cons, IH. Qed.

(** An unsigned canonical string: digits, then nothing or a dot and digits. *)
Definition unsigned_decimal (s : string) : bool :=
let '(whole, rest) := span is_digit s in
match whole with
| EmptyString => false
| _ => match rest with
       | EmptyString => true
       | String "." frac => all_chars is_digit frac
       | _ => false
       end
end.

Lemma read_unsigned s : unsigned_decimal s = true ->
let '(whole, rest) := span is_digit s in
let frac := match rest with String _ frac => frac | EmptyString => EmptyString end in
exists n, read_mantissa s 0 0 false 0 =
  Some (digits_value 0 (whole +:+ frac), N.of_nat (String.length frac), S n, EmptyString).
Proof.
unfold unsigned_decimal. pose proof (span_app is_digit s) as Happ.
pose proof (span_all is_digit s) as Hall.
destruct (span is_digit s) as [whole rest]; cbn in *. subst s.
pose proof (read_mantissa_digits whole 0 0%N false 0%nat rest Hall) as Hread.
destruct whole as [|c whole]; [done|]. intros Hf.
setoid_rewrite Hread. rewrite digits_value_app. destruct rest as [|d frac]; cbn; [eauto|].
assert (d = "."%char /\ all_chars is_digit frac = true) as [-> Hfrac].
{ repeat (case_match; try done). }
assert (forall acc n, read_mantissa frac acc 0 true n =
  Some (digits_value acc frac, N.of_nat (String.length frac), (n + String.length frac)%nat, "")) as Hfr.
{ intros acc n. pose proof (read_mantissa_digits frac acc 0%N true n "" Hfrac) as Hr.
  by rewrite append_empty_r in Hr. }
cbn. rewrite Hfr. eauto.
Qed.

Lemma matches_decimal_shape s : matches_decimal s = true ->
(exists s', s = String "-" s' /\ unsigned_decimal s' = true) \/
(unsigned_decimal s = true /\ match s with String c _ => is_digit c = true | _ => False end).
Proof.
unfold matches_decimal. intros Hs.
assert (forall s', (let '(whole, rest) := span is_digit s' in
   match whole with
   | EmptyString => false
   | String "0" (String _ _) => false
   | _ => match rest with
          | EmptyString => true
          | String "." (String _ _ as frac) => all_chars is_digit frac
          | _ => false end end) = true -> unsigned_decimal s' = true) as Hshape.
{ intros s'. unfold unsigned_decimal. destruct (span is_digit s') as [whole rest].
  destruct whole as [|c w]; [done|]. intros Hm.
  destruct rest as [|d [|f fs]]; [done| |]; repeat (case_match; try done). }
destruct s as [|c s]; [done|]. destruct (decide (c = "-"%char)) as [->|Hc].
- left. exists s. eauto.
- right. assert (match String c s with String "-" rest => rest | _ => String c s end = String c s) as He
    by (repeat (case_match; try done)).
  rewrite He in Hs. split; [eauto|]. destruct (is_digit c) eqn:Hd; [done|]. cbn in Hs. by rewrite Hd in Hs.
Qed.

Lemma of_string_canonical s : matches_decimal s = true ->
exists d, of_string s = Some d /\ (value d == decimal_value s)%Q.
Proof.
assert (forall x f, (value (mk_dec x (N.of_nat f)) == inject_Z x / ten (Z.of_nat f))%Q) as Hval.
{ intros x f. unfold value, pow10, ten; cbn [coef scale].
  rewrite Zpower_Qpower by lia. by rewrite nat_N_Z. }
intros [(s' & -> & Hu) | [Hu Hd]]%matches_decimal_shape; apply read_unsigned in Hu.
- unfold of_string, decimal_value; cbn [read_sign].
  destruct (span is_digit s') as [whole rest]. destruct Hu as [n ->].
  eexists; split; [done|]. rewrite Hval.
  by replace (-1 * _) with (- digits_value 0 (whole +:+ match rest with
    | "" => "" | String _ frac => frac end)) by lia.
- destruct s as [|c s]; [done|].
  assert (read_sign (String c s) = (false, String c s) /\
          (match String c s with String "-" rest => (-1, rest) | _ => (1, String c s) end) = (1, String c s))
    as [Hr Hm] by (clear Hu; by destruct c as [[] [] [] [] [] [] [] []]).
  unfold of_string, decimal_value. rewrite Hr, Hm.
  destruct (span is_digit (String c s)) as [whole rest]. destruct Hu as [n ->].
  eexists; split; [done|]. by rewrite Hval, Z.mul_1_l.
Qed.

Lemma digit_char d : 0 <= d < 10 ->
is_digit (ascii_of_nat (48 + Z.to_nat d)) = true /\ byte_of (ascii_of_nat (48 + Z.to_nat d)) - 48 = d.
Proof.
intros Hd. unfold is_digit, between. change (byte_of "0") with 48. change (byte_of "9") with 57.
unfold byte_of. rewrite nat_ascii_embedding by lia.
split; [apply andb_true_iff; split; apply Z.leb_le; lia | lia].
Qed.

Lemma digits_all n z : all_chars is_digit (digits n z) = true.
Proof.
revert z. induction n as [|n IH]; intros z; [done|]. cbn [digits].
rewrite all_chars_app, IH. cbn [all_chars]. rewrite (proj1 (digit_char (z mod 10) (Z.mod_pos_bound z 10 eq_refl))). done.
Qed.

Lemma digits_digits_value n z acc : 0 <= z ->
digits_value acc (digits n z) = acc * 10 ^ Z.of_nat n + z mod 10 ^ Z.of_nat n.
Proof.
revert z acc. induction n as [|n IH]; intros z acc Hz; cbn [digits].
- cbn [digits_value]. change (10 ^ Z.of_nat 0) with 1. rewrite Z.mod_1_r. lia.
- rewrite digits_value_app, IH by (apply Z.div_pos; lia). cbn [digits_value].
  rewrite (proj2 (digit_char (z mod 10) (Z.mod_pos_bound z 10 eq_refl))).
  rewrite Nat2Z.inj_succ, Z.pow_succ_r by lia.
  assert (0 < 10 ^ Z.of_nat n) by (apply Z.pow_pos_nonneg; lia).
  rewrite (Z.rem_mul_r z 10 (10 ^ Z.of_nat n)) by lia. ring.
Qed.

Lemma digits_length n z : String.length (digits n z) = n.
Proof.
revert z. induction n as [|n IH]; intros z; [done|]. cbn [digits].
assert (forall a b, String.length (a +:+ b) = (String.length a + String.length b)%nat) as Hl.
{ intros a b. induction a; [done|]. rewrite append_cons. cbn. lia. }
rewrite Hl, IH. cbn. lia.
Qed.

Lemma strip_zeros_spec s :
all_chars is_digit s = true -> s <> "" ->
all_chars is_digit (strip_zeros s) = true /\ digits_value 0 (strip_zeros s) = digits_value 0 s /\
match strip_zeros s with
| String c (String _ _) => c <> "0"%char
| String _ EmptyString => True
| EmptyString => False
end.
Proof.
induction s as [|c s IH]; intros Hs Hne; [done|]. cbn in Hs. apply andb_true_iff in Hs as [Hc Hs].
destruct s as [|d s]; [cbn; by rewrite Hc|].
destruct (Ascii.eqb_spec c "0"%char) as [->|Hne0].
- change (strip_zeros (String "0" (String d s))) with (strip_zeros (String d s)).
  by destruct (IH Hs ltac:(done)) as (? & Hv & ?).
- assert (strip_zeros (String c (String d s)) = String c (String d s)) as ->.
  { cbn. by destruct (Ascii.eqb_spec c "0"). }
  split_and!; [|done|done]. cbn in *. by rewrite Hc.
Qed.

Lemma whole_digits_spec z : 0 <= z ->
all_chars is_digit (whole_digits z) = true /\ digits_value 0 (whole_digits z) = z /\
match whole_digits z with
| String c (String _ _) => c <> "0"%char
| String _ EmptyString => True
| EmptyString => False
end.
Proof.
intros Hz. unfold whole_digits. set (n := S (Z.to_nat (Z.log2 z))).
destruct (strip_zeros_spec (digits n z)) as (Ha & Hv & Hh).
- apply digits_all.
- intros He. pose proof (digits_length n z) as Hl. rewrite He in Hl. done.
- split_and!; [done| |done]. rewrite Hv, digits_digits_value by done. rewrite Z.mul_0_l, Z.add_0_l.
  apply Z.mod_small. split; [done|]. destruct (Z.eq_dec z 0) as [->|Hnz]; [by vm_compute|].
  apply Z.lt_le_trans with (2 ^ Z.succ (Z.log2 z)); [apply Z.log2_spec; lia|].
  unfold n. rewrite Nat2Z.inj_succ, Z2Nat.id by apply Z.log2_nonneg.
  apply Z.pow_le_mono_l. lia.
Qed.

Lemma whole_digits_number z : 0 <= z -> whole_number (whole_digits z).
Proof.
intros Hz. destruct (whole_digits_spec z Hz) as (Ha & _ & Hh). destruct (whole_digits z) as [|c w]; [done|].
cbn in Ha. apply andb_true_iff in Ha as [Hc Hw]. split_and!; [done..|]. intros ->. by destruct w.
Qed.

Lemma string_fixed_canonical a p : 0 <= p <= 32 ->
matches_decimal (string_fixed a p) = true /\ (decimal_value (string_fixed a p) == round_places (value a) p)%Q.
Proof.
intros Hp. unfold string_fixed, round_places. set (c := half_away _). set (m := Z.abs c).
assert (0 < 10 ^ p) as Hpow by (apply Z.pow_pos_nonneg; lia).
set (whole := whole_digits (m / 10 ^ p)). set (frac := digits (Z.to_nat p) (m mod 10 ^ p)).
assert (0 <= m / 10 ^ p) as Hq by (apply Z.div_pos; lia).
assert (String.length frac = Z.to_nat p) as Hl by apply digits_length.
assert ((if 0 <? p then "." +:+ frac else "") = decimals frac) as ->.
{ unfold decimals. destruct (Z.ltb_spec 0 p); destruct frac; cbn in *; [lia|done|done|lia]. }
assert ((if c <? 0 then "-" else "") +:+ whole +:+ decimals frac = signed (c <? 0) (whole +:+ decimals frac)) as ->
  by (unfold signed; destruct (c <? 0); by rewrite ?append_cons, append_nil).
destruct (decimal_text (c <? 0) whole frac) as [Hm Hv]; [by apply whole_digits_number|apply digits_all|].
split; [done|]. rewrite Hv, Hl, Z2Nat.id by lia.
destruct (whole_digits_spec (m / 10 ^ p) Hq) as (_ & Hwv & _). unfold whole, frac.
rewrite digits_value_app, Hwv, digits_digits_value, Z2Nat.id, Z.mod_mod by (try apply Z.mod_pos_bound; lia).
replace (_ * (m / 10 ^ p * 10 ^ p + m mod 10 ^ p)) with c; [reflexivity|].
pose proof (Z.div_mod m (10 ^ p) ltac:(lia)). unfold m in *. destruct (Z.ltb_spec c 0); lia.
Qed.

#[export, refine] Instance dec_laws : DecimalLaws dec := {| toQ := value |}.
Proof.
- apply value_of_int.
- apply value_of_int.
- apply value_add.
- apply value_sub.
- apply value_mul.
- apply value_neg.
- reflexivity.
- intros a b p Hp _. apply value_of_scaled. lia.
- intros a b _. cbn. unfold modulo. rewrite value_sub, value_mul, value_of_int. reflexivity.
- intros a p Hp. apply value_of_scaled. lia.
- intros a p Hp. apply value_of_scaled. lia.
- intros a. apply value_of_int.
- intros a. apply value_of_int.
- apply of_string_canonical.
- apply string_fixed_canonical.
- reflexivity.
Defined.
End Ref.

#[export] Existing Instances Ref.dec_ops Ref.dec_laws.
Notation dec := Ref.dec.

(** The decimal of a canonical literal. *)
Definition lit (s : string) : dec := default (Ref.of_int 0) (Ref.of_string s).
