(* ===== verification/Value.v ===== *)
(** * Dynamic values: Go's [any], as configuration data uses it

    One constructor per dynamic type the code distinguishes.  A float64
    carries the number it denotes and its [%g] text; [[]any] and
    [map[string]any] are told apart from slices and string-keyed maps of other
    element types, as the type assertions do.  [AOther] is any other value. *)

From S2P Require Export Decimal.

(** The integer types of the [case int, int8, ...] lists. *)
Inductive int_kind := KInt | KInt8 | KInt16 | KInt32 | KInt64
  | KUint | KUint8 | KUint16 | KUint32 | KUint64.

Inductive float64 :=
  | FNaN
  | FInf (negative : bool)
  | FFinite (q : Q) (text_g : string).

Inductive any {D : Type} :=
  | ANil
  | AString (s : string)
  | ABool (b : bool)
  | AInt (kind : int_kind) (z : Z)
  | AFloat (f : float64)
  | ANumber (text : string)                  (* json.Number *)
  | ADecimal (d : D)                         (* decimal.Decimal *)
  | ASlice (items : list any)                (* []any *)
  | AMap (entries : gmap string any)         (* map[string]any *)
  | ATypedSlice (items : list any)           (* []string and other slices *)
  | ATypedMap (entries : gmap string any)    (* other string-keyed maps *)
  | AOther (type_name : string).
Arguments any : clear implicits.

Section value.
Context {D : Type}.
Implicit Types v : any D.

(** Induction through slices and maps. *)
Section any_ind.
Variable P : any D -> Prop.
Hypothesis Hnil : P ANil.
Hypothesis Hstring : forall s, P (AString s).
Hypothesis Hbool : forall b, P (ABool b).
Hypothesis Hint : forall k z, P (AInt k z).
Hypothesis Hfloat : forall f, P (AFloat f).
Hypothesis Hnumber : forall t, P (ANumber t).
Hypothesis Hdecimal : forall d, P (ADecimal d).
Hypothesis Hslice : forall l, Forall P l -> P (ASlice l).
Hypothesis Hmap : forall m, map_Forall (fun _ => P) m -> P (AMap m).
Hypothesis Htslice : forall l, Forall P l -> P (ATypedSlice l).
Hypothesis Htmap : forall m, map_Forall (fun _ => P) m -> P (ATypedMap m).
Hypothesis Hother : forall t, P (AOther t).

(** Nesting depth, for induction. *)
Fixpoint depth v : nat :=
  match v with
  | ASlice l | ATypedSlice l => S (foldr (fun x n => Nat.max (depth x) n) 0 l)
  | AMap m | ATypedMap m => S (map_fold (fun _ x n => Nat.max (depth x) n) 0 m)
  | _ => O
  end.

Lemma depth_slice (l : list (any D)) x :
  x ∈ l -> (depth x <= foldr (fun x n => Nat.max (depth x) n) 0 l)%nat.
Proof. induction 1; cbn; lia. Qed.

Lemma depth_map (m : gmap string (any D)) k x :
  m !! k = Some x -> (depth x <= map_fold (fun _ x n => Nat.max (depth x) n) 0 m)%nat.
Proof.
  revert k x. apply (map_fold_weak_ind (fun r m => forall k x, m !! k = Some x -> (depth x <= r)%nat)).
  - intros k x Hk. by rewrite lookup_empty in Hk.
  - intros i y m' r _ IH k x [[-> ->] | [_ Hk]]%lookup_insert_Some; [lia|].
    apply IH in Hk. lia.
Qed.

Lemma any_nested_ind v : P v.
Proof.
  remember (depth v) as n eqn:Hn. assert (depth v <= n)%nat as Hle by lia. clear Hn.
  revert v Hle. induction n as [|n IH]; intros [] Hle; cbn in Hle; auto; try lia.
  - apply Hslice, Forall_forall. intros x Hx. apply IH. pose proof (depth_slice _ _ Hx). lia.
  - apply Hmap. intros k x Hx. apply IH. pose proof (depth_map _ _ _ Hx). lia.
  - apply Htslice, Forall_forall. intros x Hx. apply IH. pose proof (depth_slice _ _ Hx). lia.
  - apply Htmap. intros k x Hx. apply IH. pose proof (depth_map _ _ _ Hx). lia.
Qed.
End any_ind.

(** [m[key]] of a [map[string]any]: the zero value when absent. *)
Definition field (m : gmap string (any D)) (key : string) : any D := default ANil (m !! key).

(** [v, ok := m[key]; ok && v != nil] *)
Definition present (m : gmap string (any D)) (key : string) : option (any D) :=
  match m !! key with
  | None | Some ANil => None
  | Some v => Some v
  end.

(** The containers become [[]any] and [map[string]any] all the way down. *)
Fixpoint canonicalJSONValue v : any D :=
  match v with
  | AMap m | ATypedMap m => AMap (canonicalJSONValue <$> m)
  | ASlice l | ATypedSlice l => ASlice (canonicalJSONValue <$> l)
  | _ => v
  end.

Definition canonicalJSONMap (m : gmap string (any D)) : gmap string (any D) :=
  match canonicalJSONValue (AMap m) with
  | AMap converted => converted
  | _ => ∅
  end.

(** No container but the two JSON ones. *)
Inductive json_value : any D -> Prop :=
  | json_slice l : Forall json_value l -> json_value (ASlice l)
  | json_map m : map_Forall (fun _ => json_value) m -> json_value (AMap m)
  | json_scalar v :
      match v with ASlice _ | AMap _ | ATypedSlice _ | ATypedMap _ => False | _ => True end ->
      json_value v.

Lemma canonicalJSONMap_fmap m : canonicalJSONMap m = canonicalJSONValue <$> m.
Proof. done. Qed.

Lemma canonicalJSONValue_json v : json_value (canonicalJSONValue v).
Proof.
  induction v using any_nested_ind; cbn; try (by constructor).
  - apply json_slice. by apply Forall_fmap.
  - apply json_map. intros k x. rewrite lookup_fmap. intros (y & Hy & ->)%fmap_Some. eauto.
  - apply json_slice. by apply Forall_fmap.
  - apply json_map. intros k x. rewrite lookup_fmap. intros (y & Hy & ->)%fmap_Some. eauto.
Qed.

Lemma canonicalJSONValue_fixed v : json_value v -> canonicalJSONValue v = v.
Proof.
  induction v using any_nested_ind; intros Hv; inversion Hv; subst; cbn; try done; f_equal.
  - rewrite <- (list_fmap_id l) at 2. apply list_fmap_ext. intros i x Hx.
    apply list_elem_of_lookup_2 in Hx. rewrite Forall_forall in *. auto.
  - rewrite <- (map_fmap_id m) at 2. apply map_fmap_ext. intros k x Hx.
    match goal with IH : map_Forall _ m, Hj : map_Forall _ m |- _ => eauto end.
Qed.
End value.
