(* ===== verification/Catalog.v ===== *)
(** * config.go, lines 26-369: the parsed catalog

    One record per struct, its fields named [<Struct>_<Field>].  Pointers are
    options, slices lists, maps with string keys [gmap string].  A Go [int]
    or [int64] is a [Z]; the parsers bound it. *)

From S2P Require Export Value.

Record CatalogConfig := { CatalogConfig_DefaultPlan : option string }.

Record Duration := { Duration_Unit : string; Duration_Count : Z }.

Record BillingInterval := { BillingInterval_Unit : string; BillingInterval_Count : Z }.

Record Window := {
  Window_Type : string;
  Window_Unit : string;
  Window_Count : Z;
  Window_Timezone : string;
  Window_Duration : option Duration;
  Window_Interval : option BillingInterval;
}.

Record Availability := {
  Availability_StartsAt : option string;
  Availability_EndsAt : option string;
  Availability_Regions : list string;
}.

Record ExpiryPolicy := {
  ExpiryPolicy_Type : string;
  ExpiryPolicy_Interval : option BillingInterval;
  ExpiryPolicy_Timezone : string;
  ExpiryPolicy_Window : option Window;
  ExpiryPolicy_At : option string;
}.

Record MeasureDefinition := { MeasureDefinition_Unit : string }.

Record DimensionDefinition := {
  DimensionDefinition_Type : string;
  DimensionDefinition_Required : bool;
}.

Record OperationAdmission := { OperationAdmission_MaxInFlight : Z }.

Record AdmissionPolicy := {
  AdmissionPolicy_MaxInFlight : option Z;
  AdmissionPolicy_Operations : gmap string OperationAdmission;
}.

Record AdmissionConfig := { AdmissionConfig_Policies : gmap string AdmissionPolicy }.

Record BucketDefinition := {
  BucketDefinition_Priority : Z;
  BucketDefinition_Expiry : ExpiryPolicy;
}.

Record PlanEvolution := { PlanEvolution_DefaultRollout : string }.

Record ProviderDefinition := {
  ProviderDefinition_Type : string;
  ProviderDefinition_Adapter : option string;
}.

Record ProviderReference := {
  ProviderReference_Type : string;
  ProviderReference_PriceID : option string;
  ProviderReference_ProductID : option string;
  ProviderReference_ObjectKind : option string;
  ProviderReference_ExternalID : option string;
}.

Record OfferPrice := {
  OfferPrice_AmountMinor : Z;
  OfferPrice_Currency : string;
  OfferPrice_TaxBehavior : string;
}.

Record OfferQuantity := {
  OfferQuantity_Minimum : Z;
  OfferQuantity_Maximum : Z;
  OfferQuantity_Default : Z;
}.

Record SubscriptionChangePolicy := {
  SubscriptionChangePolicy_Effective : string;
  SubscriptionChangePolicy_Proration : string;
  SubscriptionChangePolicy_PaymentFailure : string;
}.

Record AutoRechargeLimits := {
  AutoRechargeLimits_MaxPurchases : Z;
  AutoRechargeLimits_Window : Window;
  AutoRechargeLimits_MaxChargeMinor : Z;
  AutoRechargeLimits_Cooldown : Duration;
  AutoRechargeLimits_MaxConsecutiveFailure : Z;
  AutoRechargeLimits_FailureAction : string;
}.

Record PlanRollout := { PlanRollout_Effective : string; PlanRollout_IncludePinned : bool }.

Record CatalogRollout := { CatalogRollout_Plans : gmap string PlanRollout }.

(** The structs that hold amounts, over the type [D] of decimals. *)
Section amounts.
Context {D : Type}.

(** [MatcherScalar = any] *)
Definition MatcherScalar : Type := any D.

Record DimensionMatcher := {
  DimensionMatcher_Op : string;
  DimensionMatcher_Value : MatcherScalar;
  DimensionMatcher_Values : list MatcherScalar;
  DimensionMatcher_GT : option D;
  DimensionMatcher_GTE : option D;
  DimensionMatcher_LT : option D;
  DimensionMatcher_LTE : option D;
}.

Record GraduatedTier := { GraduatedTier_UpTo : option D; GraduatedTier_Rate : D }.

Inductive Charge := mkCharge {
  Charge_Type : string;
  Charge_Amount : D;
  Charge_Measure : string;
  Charge_Rate : D;
  Charge_UnitSize : D;
  Charge_Units : D;
  Charge_Rounding : string;
  Charge_Tiers : list GraduatedTier;
  Charge_Formula : string;
  Charge_Components : list Charge;
}.

(** Induction that gives the hypothesis for every component. *)
Fixpoint Charge_nested_ind (P : Charge -> Prop)
    (step : forall c, Forall P (Charge_Components c) -> P c) (c : Charge) : P c :=
  step c ((fix all (l : list Charge) : Forall P l :=
    match l with
    | [] => Forall_nil_2 P
    | x :: rest => Forall_cons_2 P x rest (Charge_nested_ind P step x) (all rest)
    end) (Charge_Components c)).

Record PriceRule := {
  PriceRule_When : gmap string DimensionMatcher;
  PriceRule_Charge : Charge;
}.

Record UnmatchedPolicy := {
  UnmatchedPolicy_Action : string;
  UnmatchedPolicy_Charge : option Charge;
}.

Record OperationPricing := {
  OperationPricing_Rules : list PriceRule;
  OperationPricing_Unmatched : UnmatchedPolicy;
}.

Record OperationDefinition := {
  OperationDefinition_Measures : gmap string MeasureDefinition;
  OperationDefinition_Dimensions : gmap string DimensionDefinition;
}.

Record RateCard := {
  RateCard_Extends : option string;
  RateCard_Operations : gmap string OperationPricing;
}.

Record PricingConfig := {
  PricingConfig_Operations : gmap string OperationDefinition;
  PricingConfig_RateCards : gmap string RateCard;
}.

Record CreditPolicy := { CreditPolicy_Type : string; CreditPolicy_Limit : option D }.

Record GrantAward := {
  GrantAward_Recipient : string;
  GrantAward_Amount : D;
  GrantAward_Bucket : string;
  GrantAward_Expiry : option ExpiryPolicy;
}.

Record GrantProgram := {
  GrantProgram_Trigger : string;
  GrantProgram_Awards : list GrantAward;
  GrantProgram_Availability : option Availability;
  GrantProgram_EligibilityPlans : list string;
  GrantProgram_EligibilityRegions : list string;
  GrantProgram_MaxAwardsPerSubject : Z;
  GrantProgram_IdempotencyScope : string;
}.

Record CreditDisplay := {
  CreditDisplay_Currency : string;
  CreditDisplay_UnitsPerMajor : D;
}.

Record CreditsConfig := {
  CreditsConfig_Buckets : gmap string BucketDefinition;
  CreditsConfig_DefaultBucket : option string;
  CreditsConfig_Policies : gmap string CreditPolicy;
  CreditsConfig_GrantPrograms : gmap string GrantProgram;
  CreditsConfig_Display : option CreditDisplay;
}.

Record FeatureDefinition := {
  FeatureDefinition_Type : string;
  FeatureDefinition_Default : any D;
  FeatureDefinition_Values : list string;
  FeatureDefinition_Minimum : option Z;
  FeatureDefinition_Maximum : option Z;
  FeatureDefinition_Pattern : option string;
}.

Record EntitlementsConfig := { EntitlementsConfig_Features : gmap string FeatureDefinition }.

Record CreditAllowance := {
  CreditAllowance_Amount : D;
  CreditAllowance_Priority : Z;
  CreditAllowance_Window : Window;
}.

Record QuotaDefinition := {
  QuotaDefinition_Operation : string;
  QuotaDefinition_Measure : string;
  QuotaDefinition_Limit : D;
  QuotaDefinition_Window : Window;
  QuotaDefinition_Enforcement : string;
  QuotaDefinition_EmitAtPercent : list Z;
}.

Record PlanDefinition := {
  PlanDefinition_DisplayName : string;
  PlanDefinition_Rank : Z;
  PlanDefinition_Description : option string;
  PlanDefinition_RateCard : option string;
  PlanDefinition_AllowedOperations : list string;
  PlanDefinition_Features : gmap string (any D);
  PlanDefinition_CreditAllowance : option CreditAllowance;
  PlanDefinition_Quotas : gmap string QuotaDefinition;
  PlanDefinition_CreditPolicy : option string;
  PlanDefinition_AdmissionPolicy : option string;
  PlanDefinition_Evolution : PlanEvolution;
}.

Record CycleGrant := {
  CycleGrant_Amount : D;
  CycleGrant_Bucket : string;
  CycleGrant_Renewal : string;
  CycleGrant_Expiry : ExpiryPolicy;
}.

Record CommerceOffer := {
  CommerceOffer_Type : string;
  CommerceOffer_DisplayName : string;
  CommerceOffer_Description : option string;
  CommerceOffer_SortOrder : Z;
  CommerceOffer_Availability : option Availability;
  CommerceOffer_Price : OfferPrice;
  CommerceOffer_Providers : gmap string ProviderReference;
  CommerceOffer_Plan : option string;
  CommerceOffer_BillingInterval : option BillingInterval;
  CommerceOffer_Trial : option BillingInterval;
  CommerceOffer_CycleGrant : option CycleGrant;
  CommerceOffer_CreditsPerUnit : option D;
  CommerceOffer_Quantity : option OfferQuantity;
  CommerceOffer_Bucket : option string;
  CommerceOffer_Expiry : option ExpiryPolicy;
  CommerceOffer_LotBehavior : string;
}.

Record DecimalRange := {
  DecimalRange_Minimum : D;
  DecimalRange_Maximum : D;
  DecimalRange_Default : D;
}.

Record AutoRechargeGuardrails := {
  AutoRechargeGuardrails_EligibleTopups : list string;
  AutoRechargeGuardrails_BalanceBelow : DecimalRange;
  AutoRechargeGuardrails_RearmAbove : D;
  AutoRechargeGuardrails_Quantity : OfferQuantity;
  AutoRechargeGuardrails_Limits : AutoRechargeLimits;
}.

Record CommerceConfig := {
  CommerceConfig_Providers : gmap string ProviderDefinition;
  CommerceConfig_Offers : gmap string CommerceOffer;
  CommerceConfig_SubscriptionChanges : gmap string SubscriptionChangePolicy;
  CommerceConfig_AutoRecharge : option AutoRechargeGuardrails;
}.

Record BursarConfig := {
  BursarConfig_Version : Z;
  BursarConfig_Catalog : CatalogConfig;
  BursarConfig_Pricing : option PricingConfig;
  BursarConfig_Credits : CreditsConfig;
  BursarConfig_Entitlements : EntitlementsConfig;
  BursarConfig_Admission : AdmissionConfig;
  BursarConfig_Plans : gmap string PlanDefinition;
  BursarConfig_Commerce : CommerceConfig;
}.
End amounts.
Arguments MatcherScalar : clear implicits.
Arguments DimensionMatcher : clear implicits.
Arguments GraduatedTier : clear implicits.
Arguments Charge : clear implicits.
Arguments PriceRule : clear implicits.
Arguments UnmatchedPolicy : clear implicits.
Arguments OperationPricing : clear implicits.
Arguments OperationDefinition : clear implicits.
Arguments RateCard : clear implicits.
Arguments PricingConfig : clear implicits.
Arguments CreditPolicy : clear implicits.
Arguments GrantAward : clear implicits.
Arguments GrantProgram : clear implicits.
Arguments CreditDisplay : clear implicits.
Arguments CreditsConfig : clear implicits.
Arguments FeatureDefinition : clear implicits.
Arguments EntitlementsConfig : clear implicits.
Arguments CreditAllowance : clear implicits.
Arguments QuotaDefinition : clear implicits.
Arguments PlanDefinition : clear implicits.
Arguments CycleGrant : clear implicits.
Arguments CommerceOffer : clear implicits.
Arguments DecimalRange : clear implicits.
Arguments AutoRechargeGuardrails : clear implicits.
Arguments CommerceConfig : clear implicits.
Arguments BursarConfig : clear implicits.
