(* ===== verification/ExprLexer.v ===== *)
(** * expr.go, lines 56-210: the tokenizer of pricing expressions

    The source scans a string by index; here the unread suffix plays the
    index, so [source[start:index]] is the consumed prefix.  Every iteration
    of the main loop consumes a byte, so the length of the input is enough
    fuel ([tokenize_total]). *)

From S2P Require Export Decimal.

Inductive expressionTokenType :=
  | tokenNumber | tokenIdentifier | tokenPlus | tokenMinus | tokenMultiply | tokenDivide
  | tokenIntDivide | tokenModulo | tokenPower | tokenLeftParen | tokenRightParen | tokenComma
  | tokenEqual | tokenNotEqual | tokenLess | tokenLessEqual | tokenGreater | tokenGreaterEq
  | tokenIn | tokenNot | tokenAnd | tokenOr | tokenIf | tokenElse.

#[export] Instance expressionTokenType_eq_dec : EqDecision expressionTokenType.
Proof. solve_decision. Defined.

(** The text of each constant: [type expressionTokenType string]. *)
Definition token_text (t : expressionTokenType) : string :=
  match t with
  | tokenNumber => "number" | tokenIdentifier => "identifier"
  | tokenPlus => "+" | tokenMinus => "-" | tokenMultiply => "*" | tokenDivide => "/"
  | tokenIntDivide => "//" | tokenModulo => "%" | tokenPower => "**"
  | tokenLeftParen => "(" | tokenRightParen => ")" | tokenComma => ","
  | tokenEqual => "==" | tokenNotEqual => "!=" | tokenLess => "<" | tokenLessEqual => "<="
  | tokenGreater => ">" | tokenGreaterEq => ">=" | tokenIn => "in" | tokenNot => "not"
  | tokenAnd => "and" | tokenOr => "or" | tokenIf => "if" | tokenElse => "else"
  end.

Record expressionToken := { type_ : expressionTokenType; value : string }.

(** A token whose value is the text of its type. *)
Definition fixed_token (t : expressionTokenType) : expressionToken :=
  {| type_ := t; value := token_text t |}.

(** The two-byte operators of the [switch pair]. *)
Definition pair_token (a b : ascii) : option expressionTokenType :=
  let pair := String a (String b "") in
  if pair =? "**" then Some tokenPower
  else if pair =? "//" then Some tokenIntDivide
  else if pair =? "==" then Some tokenEqual
  else if pair =? "!=" then Some tokenNotEqual
  else if pair =? "<=" then Some tokenLessEqual
  else if pair =? ">=" then Some tokenGreaterEq
  else None.

(** The one-byte operators of the [switch source[index]]. *)
Definition single_token (c : ascii) : option expressionTokenType :=
  let text := String c "" in
  if text =? "(" then Some tokenLeftParen
  else if text =? ")" then Some tokenRightParen
  else if text =? "," then Some tokenComma
  else if text =? "+" then Some tokenPlus
  else if text =? "-" then Some tokenMinus
  else if text =? "*" then Some tokenMultiply
  else if text =? "/" then Some tokenDivide
  else if text =? "%" then Some tokenModulo
  else if text =? "<" then Some tokenLess
  else if text =? ">" then Some tokenGreater
  else None.

Definition isExpressionNumberStart (c : ascii) : bool := is_digit c || Ascii.eqb c ".".

Definition isExpressionWordStart (c : ascii) : bool := is_lower c || is_upper c || Ascii.eqb c "_".

Definition is_word_char (c : ascii) : bool :=
  is_lower c || is_upper c || is_digit c || Ascii.eqb c "_".

Definition containsExpressionDigit (value : string) : bool := negb (all_chars (fun c => negb (is_digit c)) value).

(** Digits and at most one dot; a second dot is an error that quotes what was
    read so far ([seen]). *)
Fixpoint read_digits_and_dot (s : string) (seen : string) (dotSeen : bool) : result (string * string) :=
  match s with
  | EmptyString => Ok (seen, EmptyString)
  | String c rest =>
      if negb (is_digit c) && negb (Ascii.eqb c ".") then Ok (seen, s)
      else if Ascii.eqb c "." then
        if dotSeen
        then Err (newExpressionError ("invalid number literal: '" +:+ seen +:+ ".'") None)
        else read_digits_and_dot rest (seen +:+ String c "") true
      else read_digits_and_dot rest (seen +:+ String c "") dotSeen
  end.

Definition readExpressionWord (s : string) : string * string := span is_word_char s.

Section lexer.
Context {D : Type} `{DecimalOps D}.

Definition invalid_number (text : string) (cause : option error) : error :=
  newExpressionError ("invalid number literal: '" +:+ text +:+ "'") cause.

(** The optional exponent after the mantissa [value]. *)
Definition read_exponent (value rest : string) : result (string * string) :=
  match rest with
  | String e after =>
      if Ascii.eqb e "e" || Ascii.eqb e "E" then
        let '(sign, after) :=
          match after with
          | String c tail => if Ascii.eqb c "+" || Ascii.eqb c "-" then (String c "", tail) else ("", after)
          | EmptyString => ("", after)
          end in
        let '(digits, after) := span is_digit after in
        let text := value +:+ String e "" +:+ sign +:+ digits in
        if digits =? "" then Err (invalid_number text None) else Ok (text, after)
      else Ok (value, rest)
  | EmptyString => Ok (value, rest)
  end.

Definition readExpressionNumber (s : string) : result (string * string) :=
  '(value, rest) <- read_digits_and_dot s "" false ;;
  if (value =? ".") || negb (containsExpressionDigit value)
  then Err (invalid_number value None)
  else
    '(value, rest) <- read_exponent value rest ;;
    match NewFromString (D := D) value with
    | None => Err (invalid_number value (Some (ExternalError value)))
    | Some _ => Ok (value, rest)
    end.

(** Keywords become their own token type, [true] and [false] numbers. *)
Definition word_token (word : string) : expressionToken :=
  if word =? "true" then {| type_ := tokenNumber; value := "1" |}
  else if word =? "false" then {| type_ := tokenNumber; value := "0" |}
  else if word =? "and" then fixed_token tokenAnd
  else if word =? "or" then fixed_token tokenOr
  else if word =? "if" then fixed_token tokenIf
  else if word =? "else" then fixed_token tokenElse
  else if word =? "in" then fixed_token tokenIn
  else if word =? "not" then fixed_token tokenNot
  else {| type_ := tokenIdentifier; value := word |}.

(** One step of the loop at a byte that is no white space: a token and the
    rest of the input. *)
Definition next_token (c : ascii) (rest : string) : result (expressionToken * string) :=
  match (match rest with String c2 rest2 => option_map (fun t => (t, rest2)) (pair_token c c2)
                       | EmptyString => None end) with
  | Some (t, rest2) => Ok (fixed_token t, rest2)
  | None =>
      match single_token c with
      | Some t => Ok (fixed_token t, rest)
      | None =>
          if isExpressionNumberStart c then
            '(value, next) <- readExpressionNumber (String c rest) ;;
            Ok ({| type_ := tokenNumber; value := value |}, next)
          else if isExpressionWordStart c then
            let '(value, next) := readExpressionWord (String c rest) in
            Ok (word_token value, next)
          else Err (newExpressionError ("unexpected character: '" +:+ String c "'") None)
      end
  end.

Fixpoint tokenize (fuel : nat) (s : string) : result (list expressionToken) :=
  match s with
  | EmptyString => Ok []
  | String c rest =>
      match fuel with
      | O => Err FuelExhausted
      | S fuel' =>
          if IsSpace c then tokenize fuel' rest
          else
            '(token, next) <- next_token c rest ;;
            tokens <- tokenize fuel' next ;;
            Ok (token :: tokens)
      end
  end.

Definition tokenizePricingExpression (source : string) : result (list expressionToken) :=
  tokenize (String.length source) source.

(** ** Every token consumes input *)

Lemma string_length_app a b : String.length (a +:+ b) = (String.length a + String.length b)%nat.
Proof. induction a; [done|]. rewrite append_cons. cbn. by rewrite IHa. Qed.

Lemma read_digits_and_dot_length s seen dot v rest :
  read_digits_and_dot s seen dot = Ok (v, rest) ->
  (String.length v + String.length rest = String.length seen + String.length s)%nat.
Proof.
  revert seen dot. induction s as [|c s IH]; intros seen dot; cbn.
  - intros [= <- <-]. cbn. lia.
  - repeat case_match; intros Hr; simplify_eq; cbn; [lia|..];
      apply IH in Hr; rewrite string_length_app in Hr; cbn in Hr; lia.
Qed.

Lemma read_exponent_length v rest v' rest' :
  read_exponent v rest = Ok (v', rest') -> (String.length rest' <= String.length rest)%nat.
Proof.
  unfold read_exponent. destruct rest as [|e after]; [by intros [= _ <-]|].
  destruct (_ || _); [|by intros [= _ <-]].
  set (p := match after with EmptyString => _ | String _ _ => _ end).
  assert (String.length p.2 <= String.length after)%nat as Hp.
  { subst p. destruct after; [done|]. destruct (_ || _); cbn; lia. }
  destruct p as [sign after']. pose proof (span_length is_digit after').
  destruct (span is_digit after') as [digits after'']. cbn in *.
  destruct (_ =? _); intros [= _ <-]. lia.
Qed.

Lemma readExpressionNumber_length c rest v next :
  readExpressionNumber (String c rest) = Ok (v, next) ->
  (String.length next <= String.length rest)%nat.
Proof.
  unfold readExpressionNumber. intros H0.
  apply bind_Ok in H0 as ([v0 rest0] & Hr%read_digits_and_dot_length & H0). cbn in Hr.
  destruct (_ || _) eqn:Hdot in H0; [done|].
  apply bind_Ok in H0 as ([v1 rest1] & He%read_exponent_length & H0).
  destruct (NewFromString v1); simplify_eq.
  destruct v0; cbn in *; [done|lia].
Qed.

Lemma next_token_length c rest t next :
  next_token c rest = Ok (t, next) -> (String.length next <= String.length rest)%nat.
Proof.
  unfold next_token. destruct (match rest with EmptyString => None | _ => _ end) as [[t' r']|] eqn:Hpair.
  { intros [= _ <-]. destruct rest; [done|]. destruct (pair_token _ _); simplify_eq/=. lia. }
  destruct (single_token c); [by intros [= _ <-]|].
  destruct (isExpressionNumberStart c).
  { intros ([v n] & Hr%readExpressionNumber_length & [= _ <-])%bind_Ok. done. }
  destruct (isExpressionWordStart c) eqn:Hw; [|done].
  unfold readExpressionWord. pose proof (span_length is_word_char (String c rest)) as Hl.
  assert (is_word_char c = true) as Hc.
  { unfold isExpressionWordStart, is_word_char in *. by destruct (is_lower c), (is_upper c), (is_digit c). }
  cbn in *. rewrite Hc in *. destruct (span is_word_char rest); cbn in *. intros [= _ <-]. lia.
Qed.

Lemma next_token_error c rest e : next_token c rest = Err e -> is_expression_error e.
Proof.
  unfold next_token, readExpressionNumber, read_exponent.
  destruct (match rest with EmptyString => None | _ => _ end) as [[]|]; [done|].
  destruct (single_token c); [done|]. destruct (isExpressionNumberStart c).
  2: { destruct (isExpressionWordStart c); [by destruct (readExpressionWord _)|].
       intros [= <-]. eauto with errors. }
  assert (forall s seen dot e', read_digits_and_dot s seen dot = Err e' -> is_expression_error e') as Hdigits.
  { induction s; intros seen dot e'; cbn; [done|]. repeat case_match; intros; simplify_eq; eauto with errors. }
  intros [He | ([v r] & _ & [=])]%bind_Err.
  apply bind_Err in He as [He | ([v r] & _ & He)]; [by eapply Hdigits|].
  destruct (_ || _) in He; [simplify_eq; eauto with errors|].
  apply bind_Err in He as [He | ([v' r'] & _ & He)].
  - repeat case_match; simplify_eq; unfold invalid_number; eauto with errors.
  - case_match; simplify_eq. unfold invalid_number. eauto with errors.
Qed.

(** The fuel never runs out, and a failure is always an expression error. *)
Lemma tokenize_error fuel s e :
  (String.length s <= fuel)%nat -> tokenize fuel s = Err e -> is_expression_error e.
Proof.
  revert s. induction fuel as [|fuel IH]; intros [|c rest] Hfuel; cbn in *; [done|lia|done|].
  destruct (IsSpace c); [apply IH; lia|].
  intros [He | ([t next] & Ht & He)]%bind_Err; [by eapply next_token_error|].
  apply next_token_length in Ht.
  apply bind_Err in He as [He | (ts & _ & [=])].
  eapply IH, He. lia.
Qed.
End lexer.
