(* ===== verification/ExprParser.v ===== *)
(** * expr.go, lines 212-585: the recursive-descent parser

    The parser object is the pair of its token list (fixed, a section
    variable) and its position, threaded through the functions.  Recursion
    goes through parentheses and call arguments only, so the functions are
    written over the [primary] they bottom out in and the knot is tied by
    [primary] on fuel.  The loops of a level have their own fuel: the number
    of tokens, since every iteration consumes one. *)

From S2P Require Export ExprLexer.

Inductive expressionNode :=
  | numberExpressionNode (value : string)
  | identifierExpressionNode (name : string)
  | binaryExpressionNode (op : string) (lhs rhs : expressionNode)
  | unaryExpressionNode (op : string) (operand : expressionNode)
  | callExpressionNode (name : string) (args : list expressionNode)
  | ternaryExpressionNode (condition then_ otherwise : expressionNode)
  | comparisonExpressionNode (op : string) (lhs rhs : expressionNode)
  | booleanExpressionNode (op : string) (lhs rhs : expressionNode).

(** Induction that gives the hypothesis for every argument of a call. *)
Section node_ind.
Variable P : expressionNode -> Prop.
Hypothesis Hnumber : forall v, P (numberExpressionNode v).
Hypothesis Hident : forall n, P (identifierExpressionNode n).
Hypothesis Hbinary : forall op l r, P l -> P r -> P (binaryExpressionNode op l r).
Hypothesis Hunary : forall op x, P x -> P (unaryExpressionNode op x).
Hypothesis Hcall : forall n args, Forall P args -> P (callExpressionNode n args).
Hypothesis Hternary : forall c t o, P c -> P t -> P o -> P (ternaryExpressionNode c t o).
Hypothesis Hcompare : forall op l r, P l -> P r -> P (comparisonExpressionNode op l r).
Hypothesis Hboolean : forall op l r, P l -> P r -> P (booleanExpressionNode op l r).

Fixpoint expressionNode_rect' (n : expressionNode) : P n :=
  match n with
  | numberExpressionNode v => Hnumber v
  | identifierExpressionNode x => Hident x
  | binaryExpressionNode op l r => Hbinary op l r (expressionNode_rect' l) (expressionNode_rect' r)
  | unaryExpressionNode op x => Hunary op x (expressionNode_rect' x)
  | callExpressionNode f args =>
      Hcall f args ((fix all (l : list expressionNode) : Forall P l :=
        match l with
        | [] => Forall_nil_2 P
        | x :: rest => Forall_cons_2 P x rest (expressionNode_rect' x) (all rest)
        end) args)
  | ternaryExpressionNode c t o =>
      Hternary c t o (expressionNode_rect' c) (expressionNode_rect' t) (expressionNode_rect' o)
  | comparisonExpressionNode op l r =>
      Hcompare op l r (expressionNode_rect' l) (expressionNode_rect' r)
  | booleanExpressionNode op l r =>
      Hboolean op l r (expressionNode_rect' l) (expressionNode_rect' r)
  end.
End node_ind.

Definition allowedExpressionFunctions : list string :=
  ["ceil"; "floor"; "min"; "max"; "round"; "if"; "tier"; "clamp"; "percentile"].

Definition allowed_function (name : string) : bool :=
  existsb (String.eqb name) allowedExpressionFunctions.

(** A parsing function: from a position to a value and the position after it. *)
Definition parser (A : Type) : Type := nat -> result (A * nat).

Section parser.
Variable tokens : list expressionToken.

Definition atEnd (position : nat) : bool := (length tokens <=? position)%nat.

(** The zero token when the input is over. *)
Definition peek_value_or (default : string) (position : nat) : string :=
  match tokens !! position with
  | Some t => value t
  | None => default
  end.

Definition peekValue (position : nat) : string := peek_value_or "EOF" position.

(** [p.previous().value] *)
Definition previous_value (position : nat) : string := peek_value_or "" (position - 1).

Definition check (position : nat) (types : list expressionTokenType) : bool :=
  match tokens !! position with
  | Some t => existsb (fun tokenType => bool_decide (type_ t = tokenType)) types
  | None => false
  end.

(** [p.match]: the position after the token, when it is one of [types]. *)
Definition match_ (position : nat) (types : list expressionTokenType) : option nat :=
  if check position types then Some (S position) else None.

Definition consume (position : nat) (tokenType : expressionTokenType) (message : string) : result nat :=
  if negb (check position [tokenType]) then Err (newExpressionError message None)
  else Ok (S position).

Definition power_error : error :=
  newExpressionError "exponentiation operator '**' is not allowed in pricing expressions" None.

(** Enough iterations for any loop of the parser. *)
Definition loop_fuel : nat := S (length tokens).

(** [for p.match(types...) { rhs, err := operand(); lhs = build(op, lhs, rhs) }] *)
Fixpoint left_assoc (n : nat) (types : list expressionTokenType) (operand : parser expressionNode)
    (build : string -> expressionNode -> expressionNode -> expressionNode)
    (lhs : expressionNode) (position : nat) : result (expressionNode * nat) :=
  match match_ position types with
  | None => Ok (lhs, position)
  | Some position1 =>
      match n with
      | O => Err FuelExhausted
      | S n' =>
          '(rhs, position2) <- operand position1 ;;
          left_assoc n' types operand build (build (previous_value position1) lhs rhs) position2
      end
  end.

Section levels.
(** The innermost level, tied below. *)
Variable primary : parser expressionNode.

Fixpoint unary_loop (n : nat) (position : nat) : result (expressionNode * nat) :=
  match match_ position [tokenPlus; tokenMinus] with
  | None => primary position
  | Some position1 =>
      match n with
      | O => Err FuelExhausted
      | S n' =>
          '(operand, position2) <- unary_loop n' position1 ;;
          Ok (unaryExpressionNode (previous_value position1) operand, position2)
      end
  end.

Definition unary : parser expressionNode := unary_loop loop_fuel.

Definition multiplication : parser expressionNode := fun position =>
  '(lhs, position1) <- unary position ;;
  '(lhs, position2) <-
    left_assoc loop_fuel [tokenMultiply; tokenDivide; tokenIntDivide; tokenModulo]
      unary binaryExpressionNode lhs position1 ;;
  if check position2 [tokenPower] then Err power_error else Ok (lhs, position2).

Definition addition : parser expressionNode := fun position =>
  '(lhs, position1) <- multiplication position ;;
  left_assoc loop_fuel [tokenPlus; tokenMinus] multiplication binaryExpressionNode lhs position1.

(** The comparison operator at a position: none, or its text and the
    position after it; a lone [not] is an error. *)
Definition comparison_operator (position : nat) : result (option (string * nat)) :=
  if check position [tokenNot] then
    match match_ (S position) [tokenIn] with
    | None => Err (newExpressionError "expected 'in' after 'not'" None)
    | Some position1 => Ok (Some ("not in", position1))
    end
  else
    match match_ position [tokenEqual; tokenNotEqual; tokenLess; tokenLessEqual;
                           tokenGreater; tokenGreaterEq; tokenIn] with
    | Some position1 => Ok (Some (previous_value position1, position1))
    | None => Ok None
    end.

Definition comparison : parser expressionNode := fun position =>
  '(lhs, position1) <- addition position ;;
  operator <- comparison_operator position1 ;;
  match operator with
  | None => Ok (lhs, position1)
  | Some (operation, position2) =>
      '(rhs, position3) <- addition position2 ;;
      if check position3 [tokenEqual; tokenNotEqual; tokenLess; tokenLessEqual;
                          tokenGreater; tokenGreaterEq; tokenIn; tokenNot]
      then Err (newExpressionError "chained comparisons are not supported" None)
      else Ok (comparisonExpressionNode operation lhs rhs, position3)
  end.

Fixpoint not_loop (n : nat) (position : nat) : result (expressionNode * nat) :=
  match match_ position [tokenNot] with
  | None => comparison position
  | Some position1 =>
      match n with
      | O => Err FuelExhausted
      | S n' =>
          '(operand, position2) <- not_loop n' position1 ;;
          Ok (unaryExpressionNode "not" operand, position2)
      end
  end.

Definition notExpression : parser expressionNode := not_loop loop_fuel.

Definition andExpression : parser expressionNode := fun position =>
  '(lhs, position1) <- notExpression position ;;
  left_assoc loop_fuel [tokenAnd] notExpression
    (fun _ => booleanExpressionNode "and") lhs position1.

Definition booleanExpression : parser expressionNode := fun position =>
  '(lhs, position1) <- andExpression position ;;
  left_assoc loop_fuel [tokenOr] andExpression
    (fun _ => booleanExpressionNode "or") lhs position1.

Definition parse : parser expressionNode := fun position =>
  '(expression, position1) <- booleanExpression position ;;
  match match_ position1 [tokenIf] with
  | None => Ok (expression, position1)
  | Some position2 =>
      '(condition, position3) <- booleanExpression position2 ;;
      position4 <- consume position3 tokenElse "expected 'else' in ternary expression" ;;
      '(otherwise, position5) <- booleanExpression position4 ;;
      Ok (ternaryExpressionNode condition expression otherwise, position5)
  end.

(** The [for] loop of [callArguments]; [arguments] is in reading order. *)
Fixpoint arguments_loop (n : nat) (arguments : list expressionNode) (position : nat)
    : result (list expressionNode * nat) :=
  '(argument, position1) <- booleanExpression position ;;
  let arguments := arguments ++ [argument] in
  match match_ position1 [tokenComma] with
  | None => Ok (arguments, position1)
  | Some position2 =>
      match n with
      | O => Err FuelExhausted
      | S n' => arguments_loop n' arguments position2
      end
  end.

Definition callArguments : parser (list expressionNode) := fun position =>
  '(arguments, position1) <-
    (if negb (check position [tokenRightParen]) then arguments_loop loop_fuel [] position
     else Ok ([], position)) ;;
  position2 <- consume position1 tokenRightParen "expected ')'" ;;
  Ok (arguments, position2).

(** [if p.match(tokenLeftParen) {...}] and the error after it. *)
Definition parenthesized : parser expressionNode := fun position =>
  match match_ position [tokenLeftParen] with
  | Some position1 =>
      '(expression, position2) <- parse position1 ;;
      position3 <- consume position2 tokenRightParen "expected ')'" ;;
      Ok (expression, position3)
  | None =>
      Err (newExpressionError ("unexpected token: '" +:+ peekValue position +:+ "'") None)
  end.

Definition call (name : string) : parser expressionNode := fun position =>
  '(arguments, position1) <- callArguments position ;;
  Ok (callExpressionNode name arguments, position1).

(** The body of [primary], over the [primary] of the calls inside
    parentheses.  An [if] that no parenthesis follows is skipped before
    the parenthesis test, as [p.match(tokenIf) && ...] does. *)
Definition primary_body : parser expressionNode := fun position =>
  if check position [tokenPower] then Err power_error
  else match match_ position [tokenNumber] with
  | Some position1 => Ok (numberExpressionNode (previous_value position1), position1)
  | None =>
  match match_ position [tokenIdentifier] with
  | Some position1 =>
      let name := previous_value position1 in
      match match_ position1 [tokenLeftParen] with
      | None => Ok (identifierExpressionNode name, position1)
      | Some position2 =>
          if negb (allowed_function name)
          then Err (newExpressionError ("disallowed function: " +:+ name) None)
          else call name position2
      end
  | None =>
  match match_ position [tokenIf] with
  | Some position1 =>
      match match_ position1 [tokenLeftParen] with
      | Some position2 => call "if" position2
      | None => parenthesized position1
      end
  | None => parenthesized position
  end end end.
End levels.

Fixpoint primary (fuel : nat) : parser expressionNode := fun position =>
  match fuel with
  | O => Err FuelExhausted
  | S fuel' => primary_body (primary fuel') position
  end.

Definition parse_tokens : result (expressionNode * nat) := parse (primary loop_fuel) 0.
End parser.

Definition arity_error (message : string) : error := newExpressionError message None.

(** The [switch value.name] of [validateExpressionCalls]. *)
Definition call_arity (name : string) (argumentCount : nat) : result unit :=
  let fail message := Err (arity_error message) in
  if (name =? "if") || (name =? "clamp") then
    if negb (argumentCount =? 3)%nat then fail (name +:+ "() requires exactly 3 arguments") else Ok tt
  else if name =? "tier" then
    if (argumentCount <? 4)%nat || negb (argumentCount mod 2 =? 0)%nat
    then fail "tier() requires an even number of arguments >= 4 (value, threshold, rate, ..., default)"
    else Ok tt
  else if name =? "percentile" then
    if (argumentCount <? 2)%nat
    then fail "percentile() requires at least 2 arguments (p, v1, [v2, ...])" else Ok tt
  else if (name =? "min") || (name =? "max") then
    if (argumentCount <? 1)%nat then fail (name +:+ "() requires at least 1 argument") else Ok tt
  else if (name =? "ceil") || (name =? "floor") then
    if negb (argumentCount =? 1)%nat then fail (name +:+ "() requires exactly 1 argument") else Ok tt
  else if name =? "round" then
    if negb (argumentCount =? 1)%nat && negb (argumentCount =? 2)%nat
    then fail "round() requires 1 or 2 arguments: round(x[, ndigits])" else Ok tt
  else Ok tt.

Fixpoint validateExpressionCalls (node : expressionNode) : result unit :=
  match node with
  | callExpressionNode name args =>
      call_arity name (length args) ;;;
      for_each validateExpressionCalls args
  | unaryExpressionNode _ operand => validateExpressionCalls operand
  | binaryExpressionNode _ lhs rhs =>
      validateExpressionCalls lhs ;;; validateExpressionCalls rhs
  | comparisonExpressionNode _ lhs rhs =>
      validateExpressionCalls lhs ;;; validateExpressionCalls rhs
  | booleanExpressionNode _ lhs rhs =>
      validateExpressionCalls lhs ;;; validateExpressionCalls rhs
  | ternaryExpressionNode condition then_ otherwise =>
      validateExpressionCalls condition ;;; validateExpressionCalls then_ ;;;
      validateExpressionCalls otherwise
  | numberExpressionNode _ | identifierExpressionNode _ => Ok tt
  end.

Definition parsePricingExpression {D} `{DecimalOps D} (source : string) : result expressionNode :=
  tokens <- tokenizePricingExpression (D := D) source ;;
  '(node, position) <- parse_tokens tokens ;;
  if negb (atEnd tokens position)
  then Err (newExpressionError
              ("unexpected token after expression: '" +:+ peek_value_or tokens "" position +:+ "'") None)
  else validateExpressionCalls node ;;; Ok node.
