(* ===== verification/ExprParserFacts.v ===== *)
(** * The parser is total, consumes what it reads and builds well-shaped trees

    [sound p pos] is the contract of a parsing function at a position; every
    level keeps it, and [primary] on enough fuel has it everywhere. *)

From S2P Require Export ExprParser.

Section facts.
Context {D : Type} `{DecimalOps D}.

(** The decimal library reads the literal. *)
Definition readable (v : string) : Prop := is_Some (NewFromString (D := D) v).

(** Tokens as the tokenizer makes them: operators and keywords carry their
  own text, number literals are readable. *)
Definition wf_token (t : expressionToken) : Prop :=
match type_ t with
| tokenNumber => readable (value t)
| tokenIdentifier => True
| ty => value t = token_text ty
end.

Definition binary_ops := ["+"; "-"; "*"; "/"; "//"; "%"].
Definition unary_ops := ["+"; "-"; "not"].
Definition comparison_ops := ["=="; "!="; "<"; "<="; ">"; ">="; "in"; "not in"].
Definition boolean_ops := ["and"; "or"].

(** The operators and functions the evaluator has a case for, and calls with
  at most [limit] arguments. *)
Fixpoint wf_shape (limit : nat) (n : expressionNode) : Prop :=
match n with
| numberExpressionNode v => readable v
| identifierExpressionNode _ => True
| binaryExpressionNode op l r => op ∈ binary_ops /\ wf_shape limit l /\ wf_shape limit r
| unaryExpressionNode op x => op ∈ unary_ops /\ wf_shape limit x
| callExpressionNode name args =>
    name ∈ allowedExpressionFunctions /\ (length args <= limit)%nat /\
    (fix all (l : list expressionNode) : Prop :=
       match l with [] => True | x :: rest => wf_shape limit x /\ all rest end) args
| ternaryExpressionNode c t o => wf_shape limit c /\ wf_shape limit t /\ wf_shape limit o
| comparisonExpressionNode op l r => op ∈ comparison_ops /\ wf_shape limit l /\ wf_shape limit r
| booleanExpressionNode op l r => op ∈ boolean_ops /\ wf_shape limit l /\ wf_shape limit r
end.

Lemma wf_shape_call limit name args :
wf_shape limit (callExpressionNode name args) <->
name ∈ allowedExpressionFunctions /\ (length args <= limit)%nat /\ Forall (wf_shape limit) args.
Proof.
cbn. apply and_iff_compat_l, and_iff_compat_l. induction args as [|x args IH]; cbn; [done|].
by rewrite Forall_cons, IH.
Qed.

Lemma wf_shape_le k k' n : (k <= k')%nat -> wf_shape k n -> wf_shape k' n.
Proof.
intros Hk. induction n using expressionNode_rect'; try (cbn; naive_solver).
rewrite !wf_shape_call. intros (? & ? & Hargs). split_and!; [done|lia|].
rewrite Forall_forall in *. auto.
Qed.

Lemma allowed_function_spec name : allowed_function name = true <-> name ∈ allowedExpressionFunctions.
Proof.
unfold allowed_function. rewrite existsb_exists, <- list_elem_of_In || rewrite existsb_exists.
split.
- intros (x & Hx & ->%String.eqb_eq). by apply list_elem_of_In.
- intros Hx. exists name. split; [by apply list_elem_of_In | apply String.eqb_refl].
Qed.


Section sound.
Variable tokens : list expressionToken.
Hypothesis tokens_wf : Forall wf_token tokens.
Variable limit : nat.
Hypothesis tokens_limit : (length tokens <= limit)%nat.

Definition sound (p : parser expressionNode) (pos : nat) : Prop :=
match p pos with
| Ok (n, pos') => (pos < pos' <= length tokens)%nat /\ wf_shape limit n
| Err e => is_expression_error e
end.

(** Sound at every position from [k] on. *)
Definition sound_from (p : parser expressionNode) (k : nat) : Prop :=
forall pos, (k <= pos <= length tokens)%nat -> sound p pos.

Lemma sound_from_le p k k' : (k <= k')%nat -> sound_from p k -> sound_from p k'.
Proof. intros Hk Hp pos Hpos. apply Hp. lia. Qed.

Lemma check_true pos types :
check tokens pos types = true <-> exists t, tokens !! pos = Some t /\ type_ t ∈ types.
Proof.
unfold check. destruct (tokens !! pos) as [t|]; [|naive_solver].
rewrite existsb_exists. setoid_rewrite <- list_elem_of_In. split.
- intros (ty & Hty & <-%bool_decide_eq_true). eauto.
- intros (t' & [= <-] & Ht). eexists. split; [done|]. by apply bool_decide_eq_true.
Qed.

Lemma match_Some pos types pos1 :
match_ tokens pos types = Some pos1 ->
pos1 = S pos /\ (pos1 <= length tokens)%nat /\
exists t, type_ t ∈ types /\ wf_token t /\ previous_value tokens pos1 = value t.
Proof.
unfold match_. destruct (check tokens pos types) eqn:Hc; [|done]. intros [= <-].
apply check_true in Hc as (t & Ht & Hty).
split; [done|]. split; [by apply lookup_lt_Some in Ht|].
exists t. split; [done|]. split; [by eapply Forall_lookup_1|].
unfold previous_value, peek_value_or. replace (S pos - 1)%nat with pos by lia. by rewrite Ht.
Qed.

Lemma consume_result pos ty m :
match consume tokens pos ty m with
| Ok pos' => pos' = S pos /\ (pos' <= length tokens)%nat
| Err e => is_expression_error e
end.
Proof.
unfold consume. destruct (check tokens pos [ty]) eqn:Hc; cbn; [|eauto with errors].
apply check_true in Hc as (t & Ht%lookup_lt_Some & _). lia.
Qed.

(** A level whose operators keep trees well shaped. *)
Lemma left_assoc_sound types operand build n k lhs pos :
sound_from operand k ->
(forall t l r, type_ t ∈ types -> wf_token t -> wf_shape limit l -> wf_shape limit r ->
   wf_shape limit (build (value t) l r)) ->
(k <= pos <= length tokens)%nat -> (length tokens < n + pos)%nat -> wf_shape limit lhs ->
match left_assoc tokens n types operand build lhs pos with
| Ok (x, pos') => (pos <= pos' <= length tokens)%nat /\ wf_shape limit x
| Err e => is_expression_error e
end.
Proof.
intros Hop Hbuild. revert lhs pos.
induction n as [|n IH]; intros lhs pos Hpos Hn Hl; cbn;
  destruct (match_ tokens pos types) as [pos1|] eqn:Hm; try (split; [lia|done]);
  apply match_Some in Hm as (-> & Hle & t & Hty & Ht & Hv); [lia|].
specialize (Hop (S pos) ltac:(lia)). unfold sound in Hop.
destruct (operand (S pos)) as [[r pos2]|]; cbn; [|done]. destruct Hop as [Hpos2 Hr].
specialize (IH (build (previous_value tokens (S pos)) lhs r) pos2 ltac:(lia) ltac:(lia)).
rewrite Hv in *. specialize (IH (Hbuild t lhs r Hty Ht Hl Hr)).
destruct (left_assoc _ _ _ _ _ _ _) as [[y pos']|]; [|done].
destruct IH. split; [lia | done].
Qed.

(** Proves that an operator token's text is one of a list. *)
Ltac op_solve :=
intros t ? ? Hty Ht ? ?; unfold wf_token in Ht; cbn; split_and!; try done;
repeat (apply elem_of_cons in Hty as [Hty|Hty]); try (by apply elem_of_nil in Hty);
rewrite Hty in Ht; rewrite Ht; unfold binary_ops; cbn; set_solver.

(** Follows the first parser of a level through its contract. *)
Tactic Notation "sound_step" constr(H) constr(pos) "as" ident(x) ident(q) :=
let Hs := fresh "Hs" in
pose proof (H pos ltac:(lia)) as Hs; unfold sound in Hs;
match type of Hs with
| match ?c with Ok _ => _ | Err _ => _ end => destruct c as [[x q]|?]; cbn [bind]; [|exact Hs]
end;
destruct Hs as [? ?].

Section levels.
Variable primary : parser expressionNode.
Variable k : nat.
Hypothesis primary_sound : sound_from primary k.

Lemma unary_loop_sound n pos :
(k <= pos <= length tokens)%nat -> (length tokens < n + pos)%nat ->
sound (unary_loop tokens primary n) pos.
Proof.
revert pos. induction n as [|n IH]; intros pos Hk Hn; unfold sound; cbn;
  destruct (match_ tokens pos _) as [pos1|] eqn:Hm; try (by apply primary_sound);
  apply match_Some in Hm as (-> & Hle & t & Hty & Ht & Hv); [lia|].
specialize (IH (S pos) ltac:(lia) ltac:(lia)). unfold sound in IH.
destruct (unary_loop _ _ _ _) as [[x pos2]|]; cbn [bind]; [|done]. destruct IH as [? ?].
split; [lia|]. rewrite Hv. revert t Hty Ht Hv. intros t Hty Ht _.
unfold wf_token in Ht. split; [|done].
repeat (apply elem_of_cons in Hty as [Hty|Hty]); try (by apply elem_of_nil in Hty);
  rewrite Hty in Ht; rewrite Ht; unfold unary_ops; set_solver.
Qed.

Lemma unary_sound : sound_from (unary tokens primary) k.
Proof. intros pos Hk. apply unary_loop_sound; [done|]. unfold loop_fuel. lia. Qed.

Lemma multiplication_sound : sound_from (multiplication tokens primary) k.
Proof.
intros pos Hk. unfold sound, multiplication. sound_step unary_sound pos as x q.
epose proof (left_assoc_sound [tokenMultiply; tokenDivide; tokenIntDivide; tokenModulo]
  _ binaryExpressionNode (loop_fuel tokens) k _ q unary_sound ltac:(op_solve)
  ltac:(lia) ltac:(unfold loop_fuel; lia) ltac:(eassumption)) as Hl.
destruct (left_assoc _ _ _ _ _ _ _) as [[y pos']|]; cbn [bind]; [|done].
destruct (check _ _ _); [unfold power_error; eauto with errors|].
destruct Hl. split; [lia|done].
Qed.

Lemma addition_sound : sound_from (addition tokens primary) k.
Proof.
intros pos Hk. unfold sound, addition. sound_step multiplication_sound pos as x q.
epose proof (left_assoc_sound [tokenPlus; tokenMinus]
  _ binaryExpressionNode (loop_fuel tokens) k _ q multiplication_sound ltac:(op_solve)
  ltac:(lia) ltac:(unfold loop_fuel; lia) ltac:(eassumption)) as Hl.
destruct (left_assoc _ _ _ _ _ _ _) as [[y pos']|]; cbn [bind]; [|done].
destruct Hl. split; [lia|done].
Qed.

Lemma comparison_operator_result pos :
match comparison_operator tokens pos with
| Ok (Some (op, pos')) => (pos < pos' <= length tokens)%nat /\ op ∈ comparison_ops
| Ok None => True
| Err e => is_expression_error e
end.
Proof.
unfold comparison_operator. destruct (check tokens pos [tokenNot]).
- destruct (match_ tokens (S pos) _) as [pos1|] eqn:Hm; [|eauto with errors].
  apply match_Some in Hm as (-> & Hle & _). split; [lia|]. unfold comparison_ops. set_solver.
- destruct (match_ tokens pos _) as [pos1|] eqn:Hm; [|done].
  apply match_Some in Hm as (-> & Hle & t & Hty & Ht & ->). split; [lia|].
  unfold wf_token in Ht.
  repeat (apply elem_of_cons in Hty as [Hty|Hty]); try (by apply elem_of_nil in Hty);
    rewrite Hty in Ht; rewrite Ht; unfold comparison_ops; cbn; set_solver.
Qed.

Lemma comparison_sound : sound_from (comparison tokens primary) k.
Proof.
intros pos Hk. unfold sound, comparison. sound_step addition_sound pos as x q.
pose proof (comparison_operator_result q) as Hc.
destruct (comparison_operator tokens q) as [[[op pos2]|]|]; cbn [bind]; [|split; [lia|done]|done].
sound_step addition_sound pos2 as x2 q2. destruct (check _ _ _); [eauto with errors|].
split; [lia|]. by destruct Hc.
Qed.

Lemma not_loop_sound n pos :
(k <= pos <= length tokens)%nat -> (length tokens < n + pos)%nat ->
sound (not_loop tokens primary n) pos.
Proof.
revert pos. induction n as [|n IH]; intros pos Hk Hn; unfold sound; cbn;
  destruct (match_ tokens pos _) as [pos1|] eqn:Hm; try (by apply comparison_sound);
  apply match_Some in Hm as (-> & Hle & t & Hty & Ht & Hv); [lia|].
specialize (IH (S pos) ltac:(lia) ltac:(lia)). unfold sound in IH.
destruct (not_loop _ _ _ _) as [[x pos2]|]; cbn [bind]; [|done]. destruct IH as [? ?].
split; [lia|]. split; [|done]. unfold unary_ops. set_solver.
Qed.

Lemma notExpression_sound : sound_from (notExpression tokens primary) k.
Proof. intros pos Hk. apply not_loop_sound; [done|]. unfold loop_fuel. lia. Qed.

Lemma andExpression_sound : sound_from (andExpression tokens primary) k.
Proof.
intros pos Hk. unfold sound, andExpression. sound_step notExpression_sound pos as x q.
epose proof (left_assoc_sound [tokenAnd] _ (fun _ => booleanExpressionNode "and")
  (loop_fuel tokens) k _ q notExpression_sound ltac:(cbn; unfold boolean_ops; set_solver)
  ltac:(lia) ltac:(unfold loop_fuel; lia) ltac:(eassumption)) as Hl.
destruct (left_assoc _ _ _ _ _ _ _) as [[y pos']|]; cbn [bind]; [|done].
destruct Hl. split; [lia|done].
Qed.

Lemma booleanExpression_sound : sound_from (booleanExpression tokens primary) k.
Proof.
intros pos Hk. unfold sound, booleanExpression. sound_step andExpression_sound pos as x q.
epose proof (left_assoc_sound [tokenOr] _ (fun _ => booleanExpressionNode "or")
  (loop_fuel tokens) k _ q andExpression_sound ltac:(cbn; unfold boolean_ops; set_solver)
  ltac:(lia) ltac:(unfold loop_fuel; lia) ltac:(eassumption)) as Hl.
destruct (left_assoc _ _ _ _ _ _ _) as [[y pos']|]; cbn [bind]; [|done].
destruct Hl. split; [lia|done].
Qed.

Lemma parse_sound : sound_from (parse tokens primary) k.
Proof.
intros pos Hk. unfold sound, parse. sound_step booleanExpression_sound pos as x q.
destruct (match_ tokens q _) as [pos2|] eqn:Hm; [|split; [lia|done]].
apply match_Some in Hm as (-> & Hle & _).
sound_step booleanExpression_sound (S q) as c q1.
pose proof (consume_result q1 tokenElse "expected 'else' in ternary expression") as Hc.
destruct (consume _ _ _ _) as [pos4|]; cbn [bind]; [|done]. destruct Hc as [-> Hle'].
sound_step booleanExpression_sound (S q1) as o q2. split; [lia|done].
Qed.

Lemma arguments_loop_sound n args pos :
(k <= pos <= length tokens)%nat -> (length tokens < n + pos)%nat -> Forall (wf_shape limit) args ->
match arguments_loop tokens primary n args pos with
| Ok (l, pos') => (pos < pos' <= length tokens)%nat /\ Forall (wf_shape limit) l /\
                  (length l + pos <= length args + pos')%nat
| Err e => is_expression_error e
end.
Proof.
revert args pos. induction n as [|n IH]; intros args pos Hk Hn Hargs; cbn;
  sound_step booleanExpression_sound pos as x q;
  destruct (match_ tokens q _) as [pos2|] eqn:Hm;
  try (split_and!; [lia | lia | apply Forall_app; by split; [|constructor] | rewrite length_app; cbn; lia]);
  apply match_Some in Hm as (-> & Hle & _); [lia|].
specialize (IH (args ++ [x]) (S q) ltac:(lia) ltac:(lia)
  ltac:(apply Forall_app; by split; [|constructor])).
destruct (arguments_loop _ _ _ _ _) as [[l pos']|]; [|done]. destruct IH as (? & ? & Hlen).
rewrite length_app in Hlen. cbn in Hlen. split_and!; [lia|lia|done|lia].
Qed.

Lemma call_sound name : name ∈ allowedExpressionFunctions -> sound_from (call tokens primary name) k.
Proof.
intros Hname pos Hk. unfold sound, call, callArguments.
pose proof (arguments_loop_sound (loop_fuel tokens) [] pos Hk
  ltac:(unfold loop_fuel; lia) ltac:(done)) as Hl.
assert (match (if negb (check tokens pos [tokenRightParen])
               then arguments_loop tokens primary (loop_fuel tokens) [] pos
               else Ok ([], pos)) with
        | Ok (l, pos') => (pos <= pos')%nat /\ Forall (wf_shape limit) l /\ (length l + pos <= pos')%nat
        | Err e => is_expression_error e
        end) as Hargs.
{ destruct (check _ _ _); cbn [negb]; [by split_and!; cbn|].
  destruct (arguments_loop _ _ _ _ _) as [[l pos']|]; [|done]. destruct Hl as (? & ? & ?). cbn in *. split_and!; [lia|done|lia]. }
destruct (if negb _ then _ else _) as [[l pos1]|]; cbn [bind]; [|done].
pose proof (consume_result pos1 tokenRightParen "expected ')'") as Hc.
destruct (consume _ _ _ _) as [pos2|]; cbn [bind]; [|done].
destruct Hargs as (? & Hl' & ?), Hc as [-> ?]. split; [lia|]. apply wf_shape_call. split_and!; [done|lia|done].
Qed.

Lemma parenthesized_sound pos : (k <= S pos)%nat -> sound (parenthesized tokens primary) pos.
Proof.
intros Hk. unfold sound, parenthesized.
destruct (match_ tokens pos _) as [pos1|] eqn:Hm; [|eauto with errors].
apply match_Some in Hm as (-> & Hle & _). sound_step parse_sound (S pos) as x q.
pose proof (consume_result q tokenRightParen "expected ')'") as Hc.
destruct (consume _ _ _ _) as [pos2|]; cbn [bind]; [|done]. destruct Hc as [-> ?]. split; [lia|done].
Qed.

(** [primary_body] recurses only past the token it has read. *)
Lemma primary_body_sound pos : (k <= S pos)%nat -> sound (primary_body tokens primary) pos.
Proof.
intros Hk. unfold sound, primary_body.
destruct (check _ _ _); [unfold power_error; eauto with errors|].
destruct (match_ tokens pos [tokenNumber]) as [pos1|] eqn:Hm.
{ apply match_Some in Hm as (-> & Hle & t & Hty & Ht & ->). split; [lia|].
  apply list_elem_of_singleton in Hty. unfold wf_token in Ht. by rewrite Hty in Ht. }
clear Hm. destruct (match_ tokens pos [tokenIdentifier]) as [pos1|] eqn:Hm.
{ apply match_Some in Hm as (-> & Hle & _).
  destruct (match_ tokens (S pos) [tokenLeftParen]) as [pos2|] eqn:Hp; [|split; [lia|done]].
  apply match_Some in Hp as (-> & Hle2 & _).
  destruct (allowed_function _) eqn:Ha; cbn [negb]; [|by eauto with errors].
  apply allowed_function_spec in Ha. sound_step (call_sound _ Ha) (S (S pos)) as x q.
  split; [lia|done]. }
clear Hm. destruct (match_ tokens pos [tokenIf]) as [pos1|] eqn:Hm; [|by apply parenthesized_sound].
apply match_Some in Hm as (-> & Hle & _).
destruct (match_ tokens (S pos) [tokenLeftParen]) as [pos2|] eqn:Hp.
- apply match_Some in Hp as (-> & Hle2 & _).
  assert ("if" ∈ allowedExpressionFunctions) as Ha by (unfold allowedExpressionFunctions; set_solver).
  sound_step (call_sound _ Ha) (S (S pos)) as x q. split; [lia|done].
- pose proof (parenthesized_sound (S pos) ltac:(lia)) as Hs. unfold sound in Hs.
  destruct (parenthesized _ _ _) as [[x p]|]; [|done]. destruct Hs. split; [lia|done].
Qed.
End levels.

(** More fuel than tokens left is enough. *)
Lemma primary_sound fuel pos :
(length tokens < fuel + pos)%nat -> sound_from (primary tokens fuel) pos.
Proof.
revert pos. induction fuel as [|fuel IH]; intros pos Hf q Hq; [lia|].
unfold sound; cbn. apply (primary_body_sound _ (S q)); [|lia]. apply IH. lia.
Qed.

Lemma parse_tokens_sound :
match parse_tokens tokens with
| Ok (n, pos') => (0 < pos' <= length tokens)%nat /\ wf_shape limit n
| Err e => is_expression_error e
end.
Proof.
apply (parse_sound _ 0); [|lia]. apply primary_sound. unfold loop_fuel. lia.
Qed.
End sound.

(** ** What the tokenizer produces *)
Section tokens_wf.
Context `{!DecimalLaws D}.

Lemma fixed_token_wf ty :
ty <> tokenNumber -> wf_token (fixed_token ty).
Proof. by destruct ty. Qed.

Lemma word_token_wf w : wf_token (word_token w).
Proof.
assert (forall s, matches_decimal s = true -> readable s) as Hr.
{ intros s (d & Hd & _)%(NewFromString_canonical (D := D)). by exists d. }
unfold word_token. repeat case_match; try done; apply Hr; reflexivity.
Qed.

Lemma readExpressionNumber_readable s v next :
readExpressionNumber (D := D) s = Ok (v, next) -> readable v.
Proof.
unfold readExpressionNumber. intros ([v0 r0] & _ & H1)%bind_Ok.
destruct (_ || _) in H1; [done|]. apply bind_Ok in H1 as ([v1 r1] & _ & H1).
destruct (NewFromString v1) eqn:Hn; simplify_eq. unfold readable. by rewrite Hn.
Qed.

Lemma next_token_wf c rest t next : next_token (D := D) c rest = Ok (t, next) -> wf_token t.
Proof.
unfold next_token.
destruct (match rest with EmptyString => None | _ => _ end) as [[ty r]|] eqn:Hp.
{ intros [= <- _]. apply fixed_token_wf. destruct rest; [done|]. unfold pair_token in Hp.
  repeat (case_match; simplify_eq/=; try done). }
destruct (single_token c) as [ty|] eqn:Hs.
{ intros [= <- _]. apply fixed_token_wf. unfold single_token in Hs. by repeat (case_match; simplify_eq/=). }
destruct (isExpressionNumberStart c).
{ intros ([v n] & Hv%readExpressionNumber_readable & [= <- _])%bind_Ok. done. }
destruct (isExpressionWordStart c); [|done]. destruct (readExpressionWord _).
intros [= <- _]. apply word_token_wf.
Qed.

Lemma tokenize_wf fuel s ts : tokenize (D := D) fuel s = Ok ts -> Forall wf_token ts.
Proof.
revert s ts. induction fuel as [|fuel IH]; intros [|c rest] ts; cbn; try (by intros [= <-]).
destruct (IsSpace c); [apply IH|].
intros ([t next] & Ht%next_token_wf & Hts)%bind_Ok.
apply bind_Ok in Hts as (ts' & Hts'%IH & [= <-]). by constructor.
Qed.
(** A token is at least one byte. *)
Lemma tokenize_length fuel s ts :
tokenize (D := D) fuel s = Ok ts -> (length ts <= String.length s)%nat.
Proof.
revert s ts. induction fuel as [|fuel IH]; intros [|c rest] ts; cbn; try (by intros [= <-]).
destruct (IsSpace c); [intros Hts%IH; lia|].
intros ([t next] & Ht%next_token_length & Hts)%bind_Ok.
apply bind_Ok in Hts as (ts' & Hts'%IH & [= <-]). cbn. lia.
Qed.

(** Parsing returns: a well-shaped tree with legal argument counts, or an
  expression error, and never an exhausted loop. *)
Lemma parsePricingExpression_result source :
match parsePricingExpression (D := D) source with
| Ok n => wf_shape (String.length source) n /\ validateExpressionCalls n = Ok tt
| Err e => is_expression_error e
end.
Proof.
unfold parsePricingExpression, tokenizePricingExpression.
destruct (tokenize _ _) as [ts|e] eqn:Hts; cbn [bind]; [|by eapply tokenize_error].
pose proof (parse_tokens_sound ts (tokenize_wf _ _ _ Hts) (String.length source)
  (tokenize_length _ _ _ Hts)) as Hp.
destruct (parse_tokens ts) as [[n pos]|]; cbn [bind]; [|done]. destruct Hp as [_ Hn].
destruct (negb _); [eauto with errors|].
assert (match validateExpressionCalls n with Ok _ => True | Err e => is_expression_error e end) as Hv.
{ clear. assert (forall f k, match call_arity f k with Ok _ => True | Err e => is_expression_error e end) as Ha.
  { intros f k. unfold call_arity, arity_error. repeat case_match; simplify_eq; eauto with errors. }
  induction n using expressionNode_rect'; cbn; try done;
    repeat match goal with
    | IH : match ?c with Ok _ => _ | Err _ => _ end |- context [?c] => destruct c; cbn [bind]; try done
    end.
  pose proof (Ha n (length args)). destruct (call_arity _ _); cbn [bind]; [|done].
  destruct (for_each _ _) eqn:He; [done|]. apply for_each_Err in He as (x & Hx & He).
  match goal with IH : Forall _ args |- _ => rewrite Forall_forall in IH; specialize (IH x Hx); by rewrite He in IH end. }
destruct (validateExpressionCalls n) as [[]|] eqn:Hc; cbn [bind]; [by split|done].
Qed.
End tokens_wf.
End facts.
