(* ===== verification/ExprEval.v ===== *)
(** * expr.go, lines 14-54 and 587-849: checking and evaluating expressions

    A Go [map[string]Amount] is a [gmap string D]; the sets of names are maps
    to the unit, ranged over in any order.  A slice index out of range is a
    [GoPanic]. *)

From S2P Require Export ExprParserFacts.

(** [int32(z)] of an int64. *)
Definition int32 (z : Z) : Z := ((z + 2 ^ 31) mod 2 ^ 32 - 2 ^ 31)%Z.

(** [values[i]] *)
Definition slice_index {A} (values : list A) (i : Z) : result A :=
  match (if (i <? 0)%Z then None else values !! Z.to_nat i) with
  | Some v => Ok v
  | None => Err (GoPanic "runtime error: index out of range")
  end.

Section eval.
Context {D : Type} `{DecimalOps D} `{RangeOrder}.

Fixpoint collectExpressionVariables (node : expressionNode) (variables : gmap string unit)
    : gmap string unit :=
  match node with
  | identifierExpressionNode name => <[name := tt]> variables
  | unaryExpressionNode _ operand => collectExpressionVariables operand variables
  | binaryExpressionNode _ lhs rhs
  | comparisonExpressionNode _ lhs rhs
  | booleanExpressionNode _ lhs rhs =>
      collectExpressionVariables rhs (collectExpressionVariables lhs variables)
  | callExpressionNode _ args =>
      fold_left (fun acc argument => collectExpressionVariables argument acc) args variables
  | ternaryExpressionNode condition then_ otherwise =>
      collectExpressionVariables otherwise
        (collectExpressionVariables then_ (collectExpressionVariables condition variables))
  | numberExpressionNode _ => variables
  end.

Definition validateExpressionVariables (node : expressionNode) (variables : gmap string D)
    : result unit :=
  for_each (fun '(variable, _) =>
    match variables !! variable with
    | None => Err (newExpressionError ("undefined variable: '" +:+ variable +:+ "'") None)
    | Some _ => Ok tt
    end) (range (collectExpressionVariables node ∅)).

(** [sort.Slice(values, LessThan)]: a permutation in ascending order.  Equal
    decimals keep their order here; which of two equal decimals comes first
    is unspecified in Go and no modelled result depends on it. *)
Definition ascending (a b : D) : Prop := LessThanOrEqual a b = true.
#[global] Instance ascending_dec : RelDecision ascending.
Proof. intros a b. unfold ascending. apply _. Defined.
Definition sort_decimals (values : list D) : list D := merge_sort ascending values.

(** The [for index := 1; index < len(args)-1; index += 2] of [tier], over
    the arguments from [index] on; [last] is [args[len(args)-1]]. *)
Fixpoint tier_loop (value last : D) (args : list D) : D :=
  match args with
  | threshold :: rate :: rest =>
      if LessThan value threshold then rate else tier_loop value last rest
  | _ => last
  end.

(** The [min]/[max] loop. *)
Definition extremum (name : string) (value : D) (candidates : list D) : D :=
  fold_left (fun value candidate =>
    if ((name =? "min") && LessThan candidate value)%go
       || ((name =? "max") && GreaterThan candidate value)%go
    then candidate else value) candidates value.

(** The [percentile] case once its arguments are read. *)
Definition percentile (percentage : D) (rest : list D) : result D :=
  if LessThan percentage dec_zero || GreaterThan percentage (NewFromInt 100)
  then Err (newExpressionError "percentile() p must be between 0 and 100" None)
  else
    let values := sort_decimals rest in
    if (length values =? 1)%nat then slice_index values 0
    else
      rank <- decimalDiv percentage (NewFromInt 100) ;;
      let rank := dec_mul rank (NewFromInt (Z.of_nat (length values) - 1)) in
      let lower := dec_floor rank in
      let lowerIndex := IntPart lower in
      let upperIndex := (lowerIndex + 1)%Z in
      let upperIndex :=
        if (Z.of_nat (length values) <=? upperIndex)%Z
        then (Z.of_nat (length values) - 1)%Z else upperIndex in
      let fraction := dec_sub rank lower in
      lowerValue <- slice_index values lowerIndex ;;
      upperValue <- slice_index values upperIndex ;;
      Ok (dec_add (dec_mul lowerValue (dec_sub (NewFromInt 1) fraction))
                  (dec_mul upperValue fraction)).

Definition evaluateExpressionCall (name : string) (args : list D) : result D :=
  let requireArg (index : nat) : result D :=
    match args !! index with
    | None => Err (newExpressionError (name +:+ "() received an invalid number of arguments") None)
    | Some v => Ok v
    end in
  if name =? "ceil" then value <- requireArg 0 ;; Ok (dec_ceil value)
  else if name =? "floor" then value <- requireArg 0 ;; Ok (dec_floor value)
  else if (name =? "min") || (name =? "max") then
    match args with
    | [] => Err (newExpressionError (name +:+ "() requires at least 1 argument") None)
    | value :: candidates => Ok (extremum name value candidates)
    end
  else if name =? "round" then
    value <- requireArg 0 ;;
    let places := match args with [_; p] => int32 (IntPart p) | _ => 0%Z end in
    Ok (dec_round value places)
  else if name =? "if" then
    condition <- requireArg 0 ;;
    if IsZero condition then requireArg 2 else requireArg 1
  else if name =? "tier" then
    value <- requireArg 0 ;;
    Ok (tier_loop value (List.last args value) (tail args))
  else if name =? "clamp" then
    value <- requireArg 0 ;;
    minimum <- requireArg 1 ;;
    maximum <- requireArg 2 ;;
    if LessThan value minimum then Ok minimum
    else if GreaterThan value maximum then Ok maximum
    else Ok value
  else if name =? "percentile" then
    percentage <- requireArg 0 ;;
    percentile percentage (tail args)
  else Err (newExpressionError ("disallowed function: " +:+ name) None).

(** [decimal.NewFromInt(1)] or [decimal.Zero] *)
Definition truth (b : bool) : D := if b then NewFromInt 1 else dec_zero.

Definition invalid_node : error := newExpressionError "invalid expression node" None.

(** The [switch value.op] of a binary node; no case falls to the error after
    the outer switch. *)
Definition binary_operator (op : string) (lhs rhs : D) : result D :=
  if op =? "+" then Ok (dec_add lhs rhs)
  else if op =? "-" then Ok (dec_sub lhs rhs)
  else if op =? "*" then Ok (dec_mul lhs rhs)
  else if op =? "/" then decimalDiv lhs rhs
  else if op =? "//" then decimalTruncDiv lhs rhs
  else if op =? "%" then
    if IsZero rhs then Err (newExpressionError "modulo by zero" None) else Ok (dec_mod lhs rhs)
  else Err invalid_node.

Definition comparison_matches (op : string) (lhs rhs : D) : bool :=
  if op =? "==" then dec_equal lhs rhs
  else if op =? "!=" then negb (dec_equal lhs rhs)
  else if op =? "<" then LessThan lhs rhs
  else if op =? "<=" then LessThanOrEqual lhs rhs
  else if op =? ">" then GreaterThan lhs rhs
  else if op =? ">=" then GreaterThanOrEqual lhs rhs
  else if op =? "in" then Contains (dec_string lhs) (dec_string rhs)
  else if op =? "not in" then negb (Contains (dec_string lhs) (dec_string rhs))
  else false.

Fixpoint evaluateExpressionNode (variables : gmap string D) (node : expressionNode) : result D :=
  let evaluate := evaluateExpressionNode variables in
  match node with
  | numberExpressionNode value =>
      match NewFromString value with
      | None => Err (newExpressionError "invalid number literal" (Some (ExternalError value)))
      | Some parsed => Ok parsed
      end
  | identifierExpressionNode name => Ok (default dec_zero (variables !! name))
  | unaryExpressionNode op operand =>
      operand <- evaluate operand ;;
      if op =? "-" then Ok (dec_neg operand)
      else if op =? "not" then Ok (truth (IsZero operand))
      else Ok operand
  | binaryExpressionNode op lhs rhs =>
      lhs <- evaluate lhs ;;
      rhs <- evaluate rhs ;;
      binary_operator op lhs rhs
  | comparisonExpressionNode op lhs rhs =>
      lhs <- evaluate lhs ;;
      rhs <- evaluate rhs ;;
      Ok (truth (comparison_matches op lhs rhs))
  | booleanExpressionNode op lhs rhs =>
      lhs <- evaluate lhs ;;
      if op =? "and" then if IsZero lhs then Ok lhs else evaluate rhs
      else if negb (IsZero lhs) then Ok lhs else evaluate rhs
  | ternaryExpressionNode condition then_ otherwise =>
      condition <- evaluate condition ;;
      if IsZero condition then evaluate otherwise else evaluate then_
  | callExpressionNode name args =>
      arguments <- map_result evaluate args ;;
      evaluateExpressionCall name arguments
  end.

Definition ValidateExpression (expression : string) (knownVariables : list string) : result unit :=
  node <- parsePricingExpression (D := D) expression ;;
  let known := fold_left (fun (m : gmap string unit) variable => <[variable := tt]> m) knownVariables ∅ in
  let variables := collectExpressionVariables node ∅ in
  if (size variables =? 0)%nat
  then Err (newExpressionError "expression references no variables -- must use at least one metric" None)
  else for_each (fun '(variable, _) =>
         match known !! variable with
         | None => Err (newExpressionError ("unknown variable: '" +:+ variable +:+ "'") None)
         | Some _ => Ok tt
         end) (range variables).

Definition EvaluateExpression (expression : string) (variables : gmap string D) : result D :=
  if (size variables =? 0)%nat
  then Err (newExpressionError "cannot evaluate: variables dict is empty" None)
  else
    node <- parsePricingExpression (D := D) expression ;;
    validateExpressionVariables node variables ;;;
    evaluateExpressionNode variables node.
End eval.
