(* ===== verification/Expr.v ===== *)
(** * Pricing expressions: what the language guarantees

    The theorems about [ValidateExpression] and [EvaluateExpression] of
    expr.go.  [arithmetic_errors] lists the three failures a checked
    expression can still have. *)

From Stdlib Require Import Qminmax.
From S2P Require Export ExprEval.
From S2P Require Import DecimalRef.

(** The name occurs as a variable of the expression. *)
Fixpoint occurs (x : string) (node : expressionNode) : Prop :=
  match node with
  | numberExpressionNode _ => False
  | identifierExpressionNode name => x = name
  | unaryExpressionNode _ operand => occurs x operand
  | binaryExpressionNode _ l r | comparisonExpressionNode _ l r | booleanExpressionNode _ l r =>
      occurs x l \/ occurs x r
  | callExpressionNode _ args =>
      (fix some (l : list expressionNode) : Prop :=
         match l with [] => False | a :: rest => occurs x a \/ some rest end) args
  | ternaryExpressionNode c t o => occurs x c \/ occurs x t \/ occurs x o
  end.

Lemma occurs_call x name args : occurs x (callExpressionNode name args) <-> Exists (occurs x) args.
Proof.
  cbn. induction args as [|a args IH]; [by rewrite Exists_nil|]. by rewrite Exists_cons, IH.
Qed.

Lemma collect_spec x n acc :
  is_Some (collectExpressionVariables n acc !! x) <-> occurs x n \/ is_Some (acc !! x).
Proof.
  revert acc. induction n using expressionNode_rect'; intros acc; cbn;
    rewrite ?IHn3, ?IHn2, ?IHn1, ?IHn; try tauto.
  - destruct (decide (x = n)) as [->|Hx]; [rewrite lookup_insert_eq; naive_solver|].
    rewrite lookup_insert_ne by done. naive_solver.
  - change (_ \/ is_Some (acc !! x)) with (occurs x (callExpressionNode n args) \/ is_Some (acc !! x)).
    rewrite occurs_call. revert acc. induction args as [|a args IH]; intros acc; cbn.
    + rewrite Exists_nil. tauto.
    + match goal with HF : Forall _ (_ :: _) |- _ => apply Forall_cons in HF as [Ha Hargs] end.
      rewrite (IH Hargs), Ha, Exists_cons. tauto.
Qed.

Lemma collect_empty x n : is_Some (collectExpressionVariables n ∅ !! x) <-> occurs x n.
Proof. rewrite collect_spec, lookup_empty. split; [intros [?|[? [=]]]; done | auto]. Qed.

Section facts.
Context {D : Type} `{DecimalLaws D} `{RangeOrder}.

Lemma validateExpressionVariables_Ok n (variables : gmap string D) :
  validateExpressionVariables n variables = Ok tt <-> forall x, occurs x n -> is_Some (variables !! x).
Proof.
  unfold validateExpressionVariables. rewrite for_each_range. split.
  - intros Hall x Hx. apply collect_empty in Hx as [[] Hx]. specialize (Hall _ _ Hx).
    by destruct (variables !! x).
  - intros Hall x [] Hx. destruct (Hall x) as [v ->]; [|done]. apply collect_empty. eauto.
Qed.

Lemma validateExpressionVariables_Err n (variables : gmap string D) e :
  validateExpressionVariables n variables = Err e ->
  exists x, occurs x n /\ variables !! x = None /\
            e = newExpressionError ("undefined variable: '" +:+ x +:+ "'") None.
Proof.
  intros ([x []] & Hx%elem_of_range & He)%for_each_Err. exists x.
  assert (occurs x n) by (apply collect_empty; eauto).
  destruct (variables !! x); naive_solver.
Qed.

(** Two environments that agree on the variables of an expression give it
    the same value or the same error. *)
Lemma evaluate_agree n (v1 v2 : gmap string D) :
  (forall x, occurs x n -> v1 !! x = v2 !! x) ->
  evaluateExpressionNode v1 n = evaluateExpressionNode v2 n.
Proof.
  induction n using expressionNode_rect'; intros Hagree;
    try (cbn in *; rewrite ?IHn, ?IHn1, ?IHn2, ?IHn3 by auto; done).
  - cbn. by rewrite (Hagree n).
  - cbn. assert (map_result (evaluateExpressionNode v1) args = map_result (evaluateExpressionNode v2) args)
      as ->; [|done].
    setoid_rewrite occurs_call in Hagree.
    induction args as [|a args IH]; cbn; [done|].
    match goal with HF : Forall _ (_ :: _) |- _ => apply Forall_cons in HF as [Ha Hargs] end.
    rewrite Ha, IH; [done..| |]; intros; apply Hagree, Exists_cons; auto.
Qed.

(** The only failures of a checked expression. *)
Definition arithmetic_errors : list error :=
  [newExpressionError "division by zero" None;
   newExpressionError "modulo by zero" None;
   newExpressionError "percentile() p must be between 0 and 100" None].

Definition safe (r : result D) : Prop :=
  match r with Ok _ => True | Err e => e ∈ arithmetic_errors end.

Local Ltac arith_error := unfold arithmetic_errors; set_solver.

Lemma binary_operator_safe op (l r : D) : op ∈ binary_ops -> safe (binary_operator op l r).
Proof.
  intros Hop. unfold binary_operator, decimalTruncDiv, decimalDiv, safe.
  repeat case_match; simplify_eq/=; try done; arith_error.
Qed.

Section percentile.
Local Open Scope Q_scope.

Lemma slice_index_in (values : list D) i :
  (0 <= i < Z.of_nat (length values))%Z -> exists v, v ∈ values /\ slice_index values i = Ok v.
Proof.
  intros Hi. unfold slice_index. destruct (i <? 0)%Z eqn:Hneg; [lia|].
  destruct (lookup_lt_is_Some_2 values (Z.to_nat i)) as [v Hv]; [lia|].
  exists v. rewrite Hv. split; [by eapply list_elem_of_lookup_2|done].
Qed.

Lemma qtrunc_inject z : qtrunc (inject_Z z) = z.
Proof. unfold qtrunc. destruct (Qle_bool _ _); [apply Qfloor_Z | apply Qceiling_Z]. Qed.

Lemma sort_decimals_perm (values : list D) : sort_decimals values ≡ₚ values.
Proof. apply merge_sort_Permutation. Qed.

(** Interpolation between two values of an interval stays inside. *)
Lemma between_convex a b f lo hi :
  lo <= a <= hi -> lo <= b <= hi -> 0 <= f <= 1 -> lo <= a * (1 - f) + b * f <= hi.
Proof. intros Ha Hb Hf. split; nra. Qed.

Lemma percentile_between (p : D) (rest : list D) lo hi :
  rest <> [] -> (Z.of_nat (length rest) < 2 ^ 63)%Z ->
  Forall (fun v => lo <= toQ v <= hi) rest ->
  match percentile p rest with
  | Ok v => 0 <= toQ p <= 100 /\ lo <= toQ v <= hi
  | Err e => e = newExpressionError "percentile() p must be between 0 and 100" None /\
             ~ 0 <= toQ p <= 100
  end.
Proof.
  intros Hne Hlen Hall. unfold percentile.
  destruct (LessThan p dec_zero) eqn:Hlt; cbn [orb].
  { split; [done|]. dec_lra. }
  destruct (GreaterThan p (NewFromInt 100)) eqn:Hgt.
  { split; [done|]. dec_bool. rewrite toQ_of_int in Hgt. change (inject_Z 100) with 100 in Hgt. lra. }
  dec_bool. rewrite toQ_zero in Hlt. rewrite toQ_of_int in Hgt. change (inject_Z 100) with 100 in Hgt.
  set (values := sort_decimals rest).
  assert (length values = length rest) as Hvl by apply Permutation_length, sort_decimals_perm.
  assert (Forall (fun v => lo <= toQ v <= hi) values) as Hv by (unfold values; by rewrite sort_decimals_perm).
  rewrite Forall_forall in Hv.
  assert (0 < length rest)%nat by (destruct rest; cbn; [done|lia]).
  destruct (length values =? 1)%nat eqn:Hone.
  { apply Nat.eqb_eq in Hone. destruct (slice_index_in values 0) as (v & Hin & ->); [lia|]. auto. }
  apply Nat.eqb_neq in Hone.
  unfold decimalDiv. destruct (IsZero (NewFromInt 100)) eqn:Hz.
  { apply IsZero_spec in Hz. by rewrite toQ_of_int in Hz. }
  cbn [bind]. apply IsZero_false in Hz. set (r := dec_mul _ _).
  assert (0 <= toQ r <= inject_Z (Z.of_nat (length values) - 1)) as Hr.
  { unfold r. rewrite toQ_mul, toQ_of_int, toQ_div_round by (lia || done).
    rewrite toQ_of_int. change (inject_Z 100) with 100.
    assert (0 <= toQ p / 100) as Hp0 by (apply Qle_shift_div_l; lra).
    assert (toQ p / 100 <= inject_Z 1) as Hp1 by (apply Qle_shift_div_r; change (inject_Z 1) with 1; lra).
    apply (round_places_mono _ _ 32) in Hp1. rewrite round_places_int in Hp1 by lia.
    apply (round_places_nonneg _ 32) in Hp0. change (inject_Z 1) with 1 in Hp1.
    assert (0 <= inject_Z (Z.of_nat (length values) - 1)).
    { change 0 with (inject_Z 0). rewrite <- Zle_Qle. lia. }
    split; nra. }
  set (k := Qfloor (toQ r)).
  assert (0 <= k <= Z.of_nat (length values) - 1)%Z as Hk.
  { split; [|rewrite <- (Qfloor_Z (Z.of_nat _ - 1)); by apply Qfloor_resp_le, Hr].
    change 0%Z with (Qfloor (inject_Z 0)). by apply Qfloor_resp_le, Hr. }
  assert (IntPart (dec_floor r) = k) as ->.
  { rewrite IntPart_spec; rewrite toQ_floor, qtrunc_inject; [done|]. fold k. lia. }
  destruct (slice_index_in values k) as (a & Ha & ->); [lia|]. cbn [bind].
  match goal with |- context [slice_index values ?u] => set (up := u) end.
  assert (0 <= up < Z.of_nat (length values))%Z as Hup.
  { unfold up. destruct (Z.of_nat _ <=? _)%Z eqn:Hc; lia. }
  destruct (slice_index_in values up) as (b & Hb & ->); [done|]. cbn [bind].
  split; [done|].
  rewrite toQ_add, !toQ_mul, !toQ_sub, toQ_of_int, toQ_floor. change (inject_Z 1) with 1.
  apply between_convex; [by apply Hv..|]. fold k.
  pose proof (Qfloor_le (toQ r)) as Hg. fold k in Hg. pose proof (Qlt_floor (toQ r)) as Hf. fold k in Hf.
  rewrite inject_Z_plus in Hf. change (inject_Z 1) with 1 in Hf. lra.
Qed.
End percentile.

Lemma tier_loop_in (value last : D) args : tier_loop value last args ∈ last :: args.
Proof.
  assert (forall n args, (length args <= n)%nat -> tier_loop value last args ∈ last :: args) as Hn.
  { clear. induction n as [|n IH]; intros [|t [|r rest]] Hlen; cbn in *; try (by left); [lia|].
    destruct (LessThan value t); [set_solver|].
    assert (tier_loop value last rest ∈ last :: rest) by (apply IH; lia). set_solver. }
  by eapply Hn.
Qed.

(** A call with a legal number of arguments fails only for a percentile out
    of range. *)
Lemma call_safe name (args : list D) :
  name ∈ allowedExpressionFunctions -> call_arity name (length args) = Ok tt ->
  (Z.of_nat (length args) < 2 ^ 63)%Z -> safe (evaluateExpressionCall name args).
Proof.
  intros Hname Harity Hlen. unfold call_arity, arity_error, safe in *.
  unfold allowedExpressionFunctions in Hname. rewrite !elem_of_cons in Hname.
  destruct Hname as [-> | [-> | [-> | [-> | [-> | [-> | [-> | [-> | [-> | []%elem_of_nil]]]]]]]]];
    cbn in Harity;
    try (destruct args as [|a [|b [|c [|]]]]; try discriminate Harity; cbn;
         try destruct (IsZero a); try destruct (LessThan a b); try destruct (GreaterThan a c); done).
  destruct args as [|p [|v rest]]; [discriminate Harity..|].
    unfold evaluateExpressionCall. cbn [tail lookup list_lookup bind].
    set (l := v :: rest). set (lo := fold_right Qmin (toQ v) (toQ <$> l)).
    set (hi := fold_right Qmax (toQ v) (toQ <$> l)).
    pose proof (percentile_between p l lo hi ltac:(done) ltac:(cbn in *; lia)) as Hp.
    change (match percentile p l with Ok _ => True | Err e => e ∈ arithmetic_errors end).
    destruct (percentile p l); [done|]. destruct Hp as [-> _]; [|arith_error].
    unfold lo, hi. clear. generalize (toQ v). induction l as [|x l IH]; intros q; constructor; cbn.
    + split; [apply Q.le_min_l | apply Q.le_max_l].
    + eapply Forall_impl; [apply (IH q)|]. intros y [Hlo Hhi]. split.
      * eapply Qle_trans; [apply Q.le_min_r | exact Hlo].
      * eapply Qle_trans; [exact Hhi | apply Q.le_max_r].
Qed.

(** What the parser accepts evaluates, arithmetic failures apart. *)
Lemma evaluate_safe limit n (variables : gmap string D) :
  (Z.of_nat limit < 2 ^ 63)%Z -> wf_shape (D := D) limit n -> validateExpressionCalls n = Ok tt ->
  safe (evaluateExpressionNode variables n).
Proof.
  intros Hlimit. induction n using expressionNode_rect'; intros Hwf Hcalls.
  - cbn in *. destruct Hwf as [d ->]. done.
  - done.
  - cbn in *. destruct Hwf as (Hop & Hl & Hr), (validateExpressionCalls n1) as [[]|]; [|done].
    specialize (IHn1 Hl eq_refl). specialize (IHn2 Hr Hcalls). unfold safe in IHn1, IHn2 |- *.
    destruct (evaluateExpressionNode variables n1); cbn [bind]; [|done].
    destruct (evaluateExpressionNode variables n2); cbn [bind]; [|done].
    by apply binary_operator_safe.
  - cbn in *. destruct Hwf as [Hop Hx]. specialize (IHn Hx Hcalls). unfold safe in *.
    destruct (evaluateExpressionNode variables n); cbn [bind]; [|done]. by repeat case_match.
  - apply wf_shape_call in Hwf as (Hname & Hlen & Hargs). cbn in *.
    destruct (call_arity n (length args)) as [[]|] eqn:Ha; [|done]. cbn in Hcalls.
    apply for_each_Ok in Hcalls. destruct (map_result _ _) as [vs|e] eqn:Hm; cbn [bind].
    + pose proof (map_result_length _ _ _ Hm) as Hl. apply call_safe; rewrite ?Hl; [done..|lia].
    + apply map_result_Err in Hm as (i & x & Hi & He & _). apply list_elem_of_lookup_2 in Hi.
      rewrite Forall_forall in *.
      match goal with IH : forall y, y ∈ args -> _ -> _ -> safe _ |- _ =>
        specialize (IH x Hi (Hargs x Hi) (Hcalls x Hi)); by rewrite He in IH end.
  - cbn in *. destruct Hwf as (Hc & Ht & Ho), (validateExpressionCalls n1) as [[]|]; [|done].
    cbn in Hcalls. destruct (validateExpressionCalls n2) as [[]|]; [|done].
    specialize (IHn1 Hc eq_refl). specialize (IHn2 Ht eq_refl). specialize (IHn3 Ho Hcalls).
    unfold safe in *. destruct (evaluateExpressionNode variables n1); cbn [bind]; [|done].
    by destruct (IsZero _).
  - cbn in *. destruct Hwf as (Hop & Hl & Hr), (validateExpressionCalls n1) as [[]|]; [|done].
    specialize (IHn1 Hl eq_refl). specialize (IHn2 Hr Hcalls). unfold safe in IHn1, IHn2 |- *.
    destruct (evaluateExpressionNode variables n1); cbn [bind]; [|done].
    by destruct (evaluateExpressionNode variables n2).
  - cbn in *. destruct Hwf as (Hop & Hl & Hr), (validateExpressionCalls n1) as [[]|]; [|done].
    specialize (IHn1 Hl eq_refl). specialize (IHn2 Hr Hcalls). unfold safe in IHn1, IHn2 |- *.
    destruct (evaluateExpressionNode variables n1); cbn [bind]; [|done].
    by destruct (op =? "and"), (IsZero _).
Qed.

(** [ValidateExpression] on a tree. *)
Lemma known_variables (l : list string) x (m : gmap string unit) :
  is_Some (fold_left (fun (m : gmap string unit) v => <[v := tt]> m) l m !! x) <-> x ∈ l \/ is_Some (m !! x).
Proof.
  revert m. induction l as [|y l IH]; intros m; cbn; [set_solver|]. rewrite IH, elem_of_cons.
  destruct (decide (x = y)) as [->|Hx]; [rewrite lookup_insert_eq; naive_solver|].
  rewrite lookup_insert_ne by done. naive_solver.
Qed.

Lemma ValidateExpression_Ok source known :
  ValidateExpression (D := D) source known = Ok tt <->
  exists n, parsePricingExpression (D := D) source = Ok n /\ (exists x, occurs x n) /\ forall x, occurs x n -> x ∈ known.
Proof.
  unfold ValidateExpression. rewrite bind_Ok. apply exist_proper. intros n. apply and_iff_compat_l.
  set (vars := collectExpressionVariables n ∅).
  assert (forall x, occurs x n <-> is_Some (vars !! x)) as Hocc by (intros; symmetry; apply collect_empty).
  destruct (size vars =? 0)%nat eqn:Hs.
  - apply Nat.eqb_eq, map_size_empty_inv in Hs. split; [done|].
    intros [[x [v Hx]%Hocc] _]. by rewrite Hs, lookup_empty in Hx.
  - apply Nat.eqb_neq in Hs. rewrite for_each_range. split.
    + intros Hall. split.
      * destruct (map_choose vars) as (x & v & Hx); [by intros He; apply Hs; rewrite He, map_size_empty|].
        exists x. apply Hocc. eauto.
      * intros x [[] Hx]%Hocc. specialize (Hall _ _ Hx). case_match eqn:Hk; [|done].
        destruct (proj1 (known_variables known x ∅)) as [Hin|[? Hn]]; [by rewrite Hk|done|].
        by rewrite lookup_empty in Hn.
    + intros [_ Hall] x [] Hx. case_match eqn:Hk; [done|].
      assert (is_Some (fold_left (fun (m : gmap string unit) v => <[v := tt]> m) known ∅ !! x)) as [? Hn].
      { apply known_variables. left. apply Hall, Hocc. eauto. }
      by rewrite Hn in Hk.
Qed.

(** A validated formula on an environment that binds the known names. *)
Lemma EvaluateExpression_validated source known (variables : gmap string D) :
  (Z.of_nat (String.length source) < 2 ^ 63)%Z ->
  ValidateExpression (D := D) source known = Ok tt ->
  (forall x, x ∈ known -> is_Some (variables !! x)) ->
  safe (EvaluateExpression source variables).
Proof.
  intros Hlen (n & Hn & (x & Hx) & Hocc)%ValidateExpression_Ok Hbound.
  unfold EvaluateExpression. destruct (Hbound x (Hocc x Hx)) as [v Hv].
  destruct (size variables =? 0)%nat eqn:Hs.
  { apply Nat.eqb_eq, map_size_empty_inv in Hs. by rewrite Hs, lookup_empty in Hv. }
  pose proof (parsePricingExpression_result source) as Hp. rewrite Hn in Hp |- *. cbn [bind].
  assert (validateExpressionVariables n variables = Ok tt) as ->.
  { apply validateExpressionVariables_Ok. auto. }
  cbn [bind]. destruct Hp as [Hwf Hcalls]. by apply (evaluate_safe (String.length source)).
Qed.
End facts.

Section theorems.
Context {D : Type} `{DecimalLaws D} `{RangeOrder}.

(** C5: a formula that passed ValidateExpression against a list of measures
    evaluates on every environment that binds those measures, and can fail
    only by dividing by zero, by a modulo by zero or by a percentile rank
    outside 0 to 100: it neither panics, nor meets an unknown function, a
    wrong number of arguments, an unreadable literal or an unbound name. *)
Theorem EvaluateExpression_safe source known (variables : gmap string D) :
  (Z.of_nat (String.length source) < 2 ^ 63)%Z ->
  ValidateExpression (D := D) source known = Ok tt ->
  (forall x, x ∈ known -> is_Some (variables !! x)) ->
  match EvaluateExpression source variables with
  | Ok _ => True
  | Err e => e ∈ arithmetic_errors
  end.
Proof.
  intros. by apply (EvaluateExpression_validated source known).
Qed.

(** ValidateExpression accepts exactly the sources that parse to a
    formula with at least one variable and no variable outside the known
    ones, in whatever order the maps are ranged over; what it reports is
    always an expression error. *)
Theorem ValidateExpression_correct source known :
  (ValidateExpression (D := D) source known = Ok tt <->
     exists n, parsePricingExpression (D := D) source = Ok n /\
               (exists x, occurs x n) /\ (forall x, occurs x n -> x ∈ known)) /\
  (forall e, ValidateExpression (D := D) source known = Err e -> is_expression_error e).
Proof.
  split; [apply ValidateExpression_Ok|]. intros e [He | (n & _ & He)]%bind_Err.
  - pose proof (parsePricingExpression_result source) as Hp. by rewrite He in Hp.
  - cbn zeta in He. destruct (size _ =? 0)%nat in He; [simplify_eq; eauto with errors|].
    apply for_each_Err in He as ([x []] & _ & He). case_match; simplify_eq; eauto with errors.
Qed.

(** C12: parsing is total: every source yields a tree whose operators and
    functions the evaluator knows and whose calls have a legal number of
    arguments, or an expression error; the loops never run out of fuel. *)
Theorem parsePricingExpression_total source :
  match parsePricingExpression (D := D) source with
  | Ok n => wf_shape (D := D) (String.length source) n /\ validateExpressionCalls n = Ok tt
  | Err e => is_expression_error e
  end.
Proof. apply parsePricingExpression_result. Qed.

(** A value computed by EvaluateExpression depends only on the variables
    its formula names: an environment that binds them alike, whatever else
    it binds, gives the same value. *)
Theorem EvaluateExpression_frame source (v1 v2 : gmap string D) value :
  EvaluateExpression source v1 = Ok value ->
  (forall n x, parsePricingExpression (D := D) source = Ok n -> occurs x n -> v1 !! x = v2 !! x) ->
  v2 <> ∅ ->
  EvaluateExpression source v2 = Ok value.
Proof.
  unfold EvaluateExpression. intros Hv Hagree Hne. destruct (size v1 =? 0)%nat; [done|].
  assert ((size v2 =? 0)%nat = false) as ->.
  { apply Nat.eqb_neq. intros Hz. by apply Hne, map_size_empty_inv. }
  apply bind_Ok in Hv as (n & Hn & Hv). apply bind_Ok in Hv as ([] & Hvars & Hv).
  specialize (Hagree n). rewrite Hn. cbn [bind].
  assert (validateExpressionVariables n v2 = Ok tt) as ->.
  { apply validateExpressionVariables_Ok. intros x Hx. rewrite <- Hagree by done.
    by apply (validateExpressionVariables_Ok n v1). }
  cbn [bind]. rewrite <- Hv. apply evaluate_agree. intros x Hx. by rewrite Hagree.
Qed.

(** percentile() of values that lie in an interval returns a value of
    the interval for every rank from 0 to 100, and fails exactly outside
    that range; in particular the rank never indexes past the values. *)
Theorem percentile_bounds (p : D) (values : list D) lo hi :
  values <> [] -> (Z.of_nat (length values) < 2 ^ 63)%Z ->
  Forall (fun v => lo <= toQ v <= hi)%Q values ->
  match evaluateExpressionCall "percentile" (p :: values) with
  | Ok v => (0 <= toQ p <= 100 /\ lo <= toQ v <= hi)%Q
  | Err e => e ∈ arithmetic_errors /\ ~ (0 <= toQ p <= 100)%Q
  end.
Proof.
  intros Hne Hlen Hall. pose proof (percentile_between p values lo hi Hne Hlen Hall) as Hp.
  change (evaluateExpressionCall "percentile" (p :: values)) with (percentile p values).
  destruct (percentile p values); [done|]. destruct Hp as [-> ?]. split; [|done].
  unfold arithmetic_errors. set_solver.
Qed.

(** clamp() returns its value moved into the interval of its bounds, the
    value itself when it is inside. *)
Theorem clamp_bounds (v lo hi : D) :
  (toQ lo <= toQ hi)%Q ->
  exists r, evaluateExpressionCall "clamp" [v; lo; hi] = Ok r /\
            (toQ lo <= toQ r <= toQ hi)%Q /\
            ((toQ lo <= toQ v <= toQ hi)%Q -> r = v).
Proof.
  intros Hle. cbn. destruct (LessThan v lo) eqn:Hl; [|destruct (GreaterThan v hi) eqn:Hg];
    eexists; (split; [done|]); dec_bool; (split; [lra|]); intros; try done; lra.
Qed.
End theorems.

(** ** Witnesses: the theorems at concrete formulas and environments *)
#[local] Existing Instance canonical_range.

Definition sample_env : gmap string dec := {[ "tokens" := lit "1500"; "calls" := lit "3" ]}.

Lemma EvaluateExpression_safe_witness :
  ValidateExpression (D := dec) "max(0, tokens - 1000) / calls" ["tokens"; "calls"] = Ok tt /\
  match EvaluateExpression "max(0, tokens - 1000) / calls" sample_env with
  | Ok _ => True
  | Err e => e ∈ arithmetic_errors
  end.
Proof.
  split; [vm_compute; reflexivity|].
  apply (EvaluateExpression_safe _ ["tokens"; "calls"]).
  - vm_compute. reflexivity.
  - vm_compute. reflexivity.
  - intros x Hx. rewrite !elem_of_cons in Hx.
    destruct Hx as [-> | [-> | Hx%elem_of_nil]]; [vm_compute; eauto..|destruct Hx].
Defined.

Lemma EvaluateExpression_frame_witness :
  EvaluateExpression "2 * calls" sample_env = Ok (lit "6") /\
  EvaluateExpression "2 * calls" ({[ "calls" := lit "3" ]} : gmap string dec) = Ok (lit "6").
Proof.
  assert (EvaluateExpression "2 * calls" sample_env = Ok (lit "6")) as Hv by (vm_compute; reflexivity).
  split; [exact Hv|]. apply (EvaluateExpression_frame _ sample_env _ _ Hv).
  - intros n x Hn Hx.
    assert (n = binaryExpressionNode "*" (numberExpressionNode "2") (identifierExpressionNode "calls")) as ->.
    { vm_compute in Hn. by injection Hn as <-. }
    cbn in Hx. destruct Hx as [[]| ->]. vm_compute. reflexivity.
  - intros He. apply (f_equal size) in He. vm_compute in He. discriminate He.
Defined.

Lemma percentile_bounds_witness :
  match evaluateExpressionCall "percentile" [lit "90"; lit "3"; lit "1"; lit "2"] with
  | Ok v => (0 <= toQ (lit "90") <= 100 /\ 1 <= toQ v <= 3)%Q
  | Err e => e ∈ arithmetic_errors /\ ~ (0 <= toQ (lit "90") <= 100)%Q
  end.
Proof.
  apply (percentile_bounds (lit "90") [lit "3"; lit "1"; lit "2"] 1 3).
  - discriminate.
  - vm_compute. reflexivity.
  - repeat (apply Forall_cons; split; [split; vm_compute; discriminate|]). constructor.
Defined.

Lemma clamp_bounds_witness :
  exists r, evaluateExpressionCall "clamp" [lit "7"; lit "1"; lit "5"] = Ok r /\
            (toQ (lit "1") <= toQ r <= toQ (lit "5"))%Q /\
            ((toQ (lit "1") <= toQ (lit "7") <= toQ (lit "5"))%Q -> r = lit "7").
Proof. apply (clamp_bounds (lit "7") (lit "1") (lit "5")). vm_compute. discriminate. Defined.
