(* ===== verification/Engine.v ===== *)
(** * metrics.go, breakdown.go and engine.go: pricing a usage event

    The receiver is an optional pointer, the variadic options a list.  The
    inheritance loop of [operationPricing] runs on fuel: it marks every card
    it visits, so one step more than there are cards is enough
    ([operationPricing_total]). *)

From S2P Require Export Catalog Expr.

(** ** metrics.go and breakdown.go: a usage event and its cost report *)

Section metrics.
Context {D : Type} `{DecimalOps D} `{RangeOrder}.

Record UsageMetrics := {
  UsageMetrics_Operation : string;
  UsageMetrics_Measures : gmap string D;
  UsageMetrics_Dimensions : gmap string (any D);
  UsageMetrics_Metadata : gmap string (any D);
}.

Definition metrics_error (message : string) : error :=
  errorf ErrorCode.Config ErrorCategory.InvalidRequest message.

(** The body of the loop over [m.Measures]. *)
Definition validate_measure (entry : string * D) : result unit :=
  let '(name, value) := entry in
  if TrimSpace name =? "" then Err (metrics_error "usage measure names must not be empty")
  else if IsNegative value
  then Err (metrics_error ("usage measure '" +:+ name +:+ "' must be non-negative"))
  else Ok tt.

(** The body of the loop over [m.Dimensions]. *)
Definition validate_dimension (entry : string * any D) : result unit :=
  let '(name, value) := entry in
  if TrimSpace name =? "" then Err (metrics_error "usage dimension names must not be empty")
  else match value with
       | AString _ | ABool _ | ADecimal _ => Ok tt
       | _ => Err (metrics_error
                ("usage dimension '" +:+ name +:+ "' must be a string, bool, or decimal.Decimal"))
       end.

Definition Validate (m : UsageMetrics) : result unit :=
  if TrimSpace (UsageMetrics_Operation m) =? ""
  then Err (metrics_error "usage operation must be a non-empty string")
  else
    for_each validate_measure (range (UsageMetrics_Measures m)) ;;;
    for_each validate_dimension (range (UsageMetrics_Dimensions m)).

Record CostBreakdown := {
  CostBreakdown_ModelCredits : D;
  CostBreakdown_ToolCredits : D;
  CostBreakdown_SearchCredits : D;
  CostBreakdown_CacheSavings : D;
  CostBreakdown_FixedCredits : D;
  CostBreakdown_OperationCredits : D;
  CostBreakdown_Total : D;
  CostBreakdown_Breakdown : gmap string (any D);
}.

Record CostBreakdownInput := {
  Input_ModelCredits : D;
  Input_ToolCredits : D;
  Input_SearchCredits : D;
  Input_CacheSavings : D;
  Input_FixedCredits : D;
  Input_OperationCredits : D;
  Input_Breakdown : gmap string (any D);
}.

Definition MakeCostBreakdown (input : CostBreakdownInput) : CostBreakdown :=
  let modelCredits := QuantizeMoney (Input_ModelCredits input) in
  let toolCredits := QuantizeMoney (Input_ToolCredits input) in
  let searchCredits := QuantizeMoney (Input_SearchCredits input) in
  let cacheSavings := QuantizeMoney (Input_CacheSavings input) in
  let fixedCredits := QuantizeMoney (Input_FixedCredits input) in
  let operationCredits := QuantizeMoney (Input_OperationCredits input) in
  let total :=
    dec_add (dec_add (dec_add (dec_add (dec_add modelCredits toolCredits) searchCredits)
      fixedCredits) operationCredits) cacheSavings in
  let total := if IsNegative total then dec_zero else total in
  {| CostBreakdown_ModelCredits := modelCredits;
     CostBreakdown_ToolCredits := toolCredits;
     CostBreakdown_SearchCredits := searchCredits;
     CostBreakdown_CacheSavings := cacheSavings;
     CostBreakdown_FixedCredits := fixedCredits;
     CostBreakdown_OperationCredits := operationCredits;
     CostBreakdown_Total := QuantizeMoney total;
     CostBreakdown_Breakdown := Input_Breakdown input |}.
End metrics.
Arguments UsageMetrics : clear implicits.
Arguments CostBreakdown : clear implicits.
Arguments CostBreakdownInput : clear implicits.

Section facts.
Context {D : Type} `{DecimalLaws D} `{RangeOrder}.
Local Open Scope Q_scope.

Lemma Validate_Ok (m : UsageMetrics D) :
  Validate m = Ok tt <->
  TrimSpace (UsageMetrics_Operation m) <> "" /\
  (forall name v, UsageMetrics_Measures m !! name = Some v -> TrimSpace name <> "" /\ 0 <= toQ v) /\
  (forall name v, UsageMetrics_Dimensions m !! name = Some v ->
     TrimSpace name <> "" /\ match v with AString _ | ABool _ | ADecimal _ => True | _ => False end).
Proof.
  unfold Validate. destruct (String.eqb_spec (TrimSpace (UsageMetrics_Operation m)) "") as [Ho|Ho].
  { split; [done | intros [? _]; done]. }
  rewrite bind_Ok. split.
  - intros ([] & Hm & Hd). cbn beta in Hd. rewrite for_each_range in Hm. rewrite for_each_range in Hd. split; [done|]. split.
    + intros name v Hv. specialize (Hm _ _ Hv). cbn in Hm.
      destruct (String.eqb_spec (TrimSpace name) ""); [done|].
      destruct (IsNegative v) eqn:Hn; [done|]. by apply IsNegative_false in Hn.
    + intros name v Hv. specialize (Hd _ _ Hv). cbn in Hd.
      destruct (String.eqb_spec (TrimSpace name) ""); [done|]. by destruct v.
  - intros (_ & Hm & Hd). exists tt. cbn beta. rewrite !for_each_range. split.
    + intros name v [Hne Hn]%Hm. cbn. destruct (String.eqb_spec (TrimSpace name) ""); [done|].
      apply IsNegative_false in Hn. by rewrite Hn.
    + intros name v [Hne Hn]%Hd. cbn. destruct (String.eqb_spec (TrimSpace name) ""); [done|]. by destruct v.
Qed.

(** A cost report is money: each component is the input rounded half
    away from zero to six places, and the total is their sum, cache savings
    included, clamped at zero; quantising the total again changes nothing. *)
Theorem MakeCostBreakdown_total (input : CostBreakdownInput D) :
  let r := MakeCostBreakdown input in
  let sum := toQ (CostBreakdown_ModelCredits r) + toQ (CostBreakdown_ToolCredits r) +
             toQ (CostBreakdown_SearchCredits r) + toQ (CostBreakdown_FixedCredits r) +
             toQ (CostBreakdown_OperationCredits r) + toQ (CostBreakdown_CacheSavings r) in
  toQ (CostBreakdown_OperationCredits r) == round_places (toQ (Input_OperationCredits input)) 6 /\
  is_money (CostBreakdown_Total r) /\
  (0 <= sum -> toQ (CostBreakdown_Total r) == sum) /\
  (sum < 0 -> toQ (CostBreakdown_Total r) == 0).
Proof.
  cbn. set (total := dec_add _ (QuantizeMoney (Input_CacheSavings input))).
  assert (is_money total) as Hmoney by (repeat apply is_money_add; apply QuantizeMoney_is_money).
  assert (toQ total == toQ (QuantizeMoney (Input_ModelCredits input)) +
    toQ (QuantizeMoney (Input_ToolCredits input)) + toQ (QuantizeMoney (Input_SearchCredits input)) +
    toQ (QuantizeMoney (Input_FixedCredits input)) + toQ (QuantizeMoney (Input_OperationCredits input)) +
    toQ (QuantizeMoney (Input_CacheSavings input))) as Hsum by (unfold total; by rewrite !toQ_add).
  rewrite <- Hsum. split_and!; [apply toQ_quantize | apply QuantizeMoney_is_money | |];
    intros Hs; destruct (IsNegative total) eqn:Hn; dec_bool; try (exfalso; lra).
  - by apply QuantizeMoney_money.
  - rewrite QuantizeMoney_money by apply is_money_zero. apply toQ_zero.
Qed.
End facts.

(** ** engine.go *)

Section engine.
Context {D : Type} `{DecimalOps D} `{RangeOrder}.

Record PricingOptions := { PricingOptions_RateCard : string }.

Record PricingEngine := { PricingEngine_config : option (BursarConfig D) }.

Definition NewPricingEngine (config : option (BursarConfig D)) : result PricingEngine :=
  match config with
  | None => Err (newConfigError "pricing configuration is required" None)
  | Some _ => Ok {| PricingEngine_config := config |}
  end.

Definition Config (e : option PricingEngine) : option (BursarConfig D) :=
  match e with
  | None => None
  | Some e => PricingEngine_config e
  end.

Definition validateRuntimeDimension (value : any D) (definition : DimensionDefinition) (name : string)
    : result (MatcherScalar D) :=
  if DimensionDefinition_Type definition =? "string" then
    match value with
    | AString _ => Ok value
    | _ => Err (newConfigError ("dimension '" +:+ name +:+ "' must be string") None)
    end
  else if DimensionDefinition_Type definition =? "boolean" then
    match value with
    | ABool _ => Ok value
    | _ => Err (newConfigError ("dimension '" +:+ name +:+ "' must be boolean") None)
    end
  else if DimensionDefinition_Type definition =? "number" then
    match value with
    | ADecimal _ => Ok value
    | _ => Err (newConfigError ("dimension '" +:+ name +:+ "' must be decimal.Decimal") None)
    end
  else Err (newConfigError ("dimension '" +:+ name +:+ "' has an invalid type") None).

Definition resolveRateCard (pricing : PricingConfig D) (requested : string) : result string :=
  if negb (requested =? "") then
    match PricingConfig_RateCards pricing !! requested with
    | None => Err (newConfigError ("unknown rate card '" +:+ requested +:+ "'") None)
    | Some _ => Ok requested
    end
  else
    match (range (PricingConfig_RateCards pricing)).*1 with
    | [key] => Ok key
    | _ => Err (newConfigError "rateCard is required when more than one rate card is configured" None)
    end.

(** The [for key := cardKey; ; { ... }] loop from a set of seen cards. *)
Fixpoint operationPricing_loop (fuel : nat) (pricing : PricingConfig D) (cardKey operation : string)
    (seen : gmap string unit) (key : string) : result (OperationPricing D) :=
  match fuel with
  | O => Err FuelExhausted
  | S fuel' =>
      match seen !! key with
      | Some _ => Err (newConfigError "pricing rate-card inheritance cycle detected" None)
      | None =>
          match PricingConfig_RateCards pricing !! key with
          | None => Err (newConfigError ("unknown rate card '" +:+ key +:+ "'") None)
          | Some card =>
              match RateCard_Operations card !! operation with
              | Some operationPricing => Ok operationPricing
              | None =>
                  match RateCard_Extends card with
                  | None =>
                      Err (newConfigError ("rate card '" +:+ cardKey +:+
                        "' has no price for operation '" +:+ operation +:+ "'") None)
                  | Some parent =>
                      operationPricing_loop fuel' pricing cardKey operation (<[key := tt]> seen) parent
                  end
              end
          end
      end
  end.

Definition operationPricing (pricing : PricingConfig D) (cardKey operation : string)
    : result (OperationPricing D) :=
  operationPricing_loop (S (S (size (PricingConfig_RateCards pricing)))) pricing cardKey operation
    ∅ cardKey.

Definition equalMatcherScalars (lhs rhs : MatcherScalar D) : bool :=
  match lhs, rhs with
  | ADecimal l, ADecimal r => dec_equal l r
  | ADecimal _, _ | _, ADecimal _ => false
  | AString l, AString r => l =? r
  | ABool l, ABool r => Bool.eqb l r
  | _, _ => false
  end.

(** One optional bound of a range matcher. *)
Definition bound_holds (test : D -> D -> bool) (amount : D) (bound : option D) : bool :=
  match bound with
  | Some b => test amount b
  | None => true
  end.

Definition matchesDimension (matcher : DimensionMatcher D) (value : MatcherScalar D) : bool :=
  let op := DimensionMatcher_Op matcher in
  if op =? "eq" then equalMatcherScalars value (DimensionMatcher_Value matcher)
  else if op =? "in" then
    existsb (fun candidate => equalMatcherScalars value candidate) (DimensionMatcher_Values matcher)
  else if op =? "not_in" then
    forallb (fun candidate => negb (equalMatcherScalars value candidate)) (DimensionMatcher_Values matcher)
  else if op =? "prefix" then
    match value, DimensionMatcher_Value matcher with
    | AString stringValue, AString prefix =>
        (String.length prefix <=? String.length stringValue)%nat
        && (substring 0 (String.length prefix) stringValue =? prefix)
    | _, _ => false
    end
  else if op =? "range" then
    match value with
    | ADecimal amount =>
        bound_holds GreaterThan amount (DimensionMatcher_GT matcher)
        && bound_holds GreaterThanOrEqual amount (DimensionMatcher_GTE matcher)
        && bound_holds LessThan amount (DimensionMatcher_LT matcher)
        && bound_holds LessThanOrEqual amount (DimensionMatcher_LTE matcher)
    | _ => false
    end
  else false.

Definition matches (rule : PriceRule D) (dimensions : gmap string (MatcherScalar D)) : bool :=
  forallb (fun '(name, matcher) =>
    match dimensions !! name with
    | None => false
    | Some value => matchesDimension matcher value
    end) (range (PriceRule_When rule)).

(** The loop over the tiers of a graduated charge. *)
Fixpoint graduated_loop (remaining previous total : D) (tiers : list (GraduatedTier D)) : D :=
  match tiers with
  | [] => total
  | tier :: rest =>
      let units :=
        match GraduatedTier_UpTo tier with
        | Some upTo =>
            let width := dec_sub upTo previous in
            if LessThan remaining width then remaining else width
        | None => remaining
        end in
      let '(total, remaining) :=
        if GreaterThan units dec_zero
        then (dec_add total (dec_mul units (GraduatedTier_Rate tier)), dec_sub remaining units)
        else (total, remaining) in
      if negb (GreaterThan remaining dec_zero) then total
      else graduated_loop remaining (default previous (GraduatedTier_UpTo tier)) total rest
  end.

(** The tier a volume charge selects. *)
Fixpoint volume_tier (measure : D) (last : GraduatedTier D) (tiers : list (GraduatedTier D))
    : GraduatedTier D :=
  match tiers with
  | [] => last
  | tier :: rest =>
      if match GraduatedTier_UpTo tier with
         | None => true
         | Some upTo => LessThanOrEqual measure upTo
         end
      then tier else volume_tier measure last rest
  end.

Definition requiredMeasure (measures : gmap string D) (name : string) : result D :=
  match measures !! name with
  | None => Err (newConfigError ("price charge references missing usage measure '" +:+ name +:+ "'") None)
  | Some value => Ok value
  end.

(** The [switch charge.Rounding] of a package charge. *)
Definition round_packages (rounding : string) (packages : D) : result D :=
  if rounding =? "ceil" then Ok (dec_ceil packages)
  else if rounding =? "floor" then Ok (dec_floor packages)
  else if rounding =? "nearest" then Ok (dec_round packages 0)
  else Err (newConfigError ("unsupported package rounding '" +:+ rounding +:+ "'") None).

Fixpoint evaluateCharge (charge : Charge D) (measures : gmap string D) : result D :=
  let type_ := Charge_Type charge in
  if type_ =? "flat" then Ok (Charge_Amount charge)
  else if type_ =? "per_unit" then
    measure <- requiredMeasure measures (Charge_Measure charge) ;;
    units <- decimalDiv measure (Charge_UnitSize charge) ;;
    Ok (dec_mul units (Charge_Rate charge))
  else if type_ =? "package" then
    measure <- requiredMeasure measures (Charge_Measure charge) ;;
    packages <- decimalDiv measure (Charge_Units charge) ;;
    packages <- round_packages (Charge_Rounding charge) packages ;;
    Ok (dec_mul packages (Charge_Amount charge))
  else if type_ =? "graduated" then
    remaining <- requiredMeasure measures (Charge_Measure charge) ;;
    Ok (graduated_loop remaining dec_zero dec_zero (Charge_Tiers charge))
  else if type_ =? "volume" then
    measure <- requiredMeasure measures (Charge_Measure charge) ;;
    match last (Charge_Tiers charge) with
    | None => Err (newConfigError "volume charge requires at least one tier" None)
    | Some lastTier =>
        let selected := volume_tier measure lastTier (Charge_Tiers charge) in
        Ok (dec_mul measure (GraduatedTier_Rate selected))
    end
  else if type_ =? "expression" then EvaluateExpression (Charge_Formula charge) measures
  else if type_ =? "sum" then
    fold_result (fun total component =>
      value <- evaluateCharge component measures ;;
      Ok (dec_add total value)) dec_zero (Charge_Components charge)
  else Err (newConfigError ("unsupported charge type '" +:+ type_ +:+ "'") None).

(** The loop of [Calculate] over the declared dimensions. *)
Definition runtime_dimension (metrics : UsageMetrics D) (dimensions : gmap string (MatcherScalar D))
    (entry : string * DimensionDefinition) : result (gmap string (MatcherScalar D)) :=
  let '(name, definition) := entry in
  match present (UsageMetrics_Dimensions metrics) name with
  | None =>
      if DimensionDefinition_Required definition
      then Err (newConfigError ("operation '" +:+ UsageMetrics_Operation metrics +:+
             "' requires dimension '" +:+ name +:+ "'") None)
      else Ok dimensions
  | Some input =>
      parsed <- validateRuntimeDimension input definition name ;;
      Ok (<[name := parsed]> dimensions)
  end.

(** The loop of [Calculate] over the declared measures. *)
Definition runtime_measure (metrics : UsageMetrics D) (measures : gmap string D)
    (entry : string * MeasureDefinition) : result (gmap string D) :=
  let '(name, _) := entry in
  let value := default dec_zero (UsageMetrics_Measures metrics !! name) in
  if IsNegative value
  then Err (newConfigError ("usage measure '" +:+ name +:+ "' must be finite and non-negative") None)
  else Ok (<[name := value]> measures).

(** A name the operation does not declare is refused. *)
Definition declared {A B} (kind operation : string) (definitions : gmap string A) (entry : string * B)
    : result unit :=
  let '(name, _) := entry in
  match definitions !! name with
  | None => Err (newConfigError ("operation '" +:+ operation +:+ "' received undeclared " +:+ kind +:+
              " '" +:+ name +:+ "'") None)
  | Some _ => Ok tt
  end.

(** The charge of the first matching rule, or of the unmatched policy. *)
Definition select_charge (pricing : OperationPricing D) (dimensions : gmap string (MatcherScalar D))
    : option (Charge D) :=
  match list_find (fun rule => matches rule dimensions = true) (OperationPricing_Rules pricing) with
  | Some (_, rule) => Some (PriceRule_Charge rule)
  | None =>
      let unmatched := OperationPricing_Unmatched pricing in
      if UnmatchedPolicy_Action unmatched =? "charge" then UnmatchedPolicy_Charge unmatched else None
  end.

Definition too_many_options : error :=
  newConfigError "at most one PricingOptions value may be supplied" None.

Definition Calculate (e : option PricingEngine) (metrics : UsageMetrics D) (options : list PricingOptions)
    : result (CostBreakdown D) :=
  match Config e with
  | None => Err (newConfigError "pricing engine is not configured" None)
  | Some config =>
      if (1 <? length options)%nat then Err too_many_options
      else
        Validate metrics ;;;
        match BursarConfig_Pricing config with
        | None => Err (newConfigError "usage pricing not configured" None)
        | Some pricing =>
            let name := UsageMetrics_Operation metrics in
            match PricingConfig_Operations pricing !! name with
            | None => Err (newConfigError ("unknown usage operation '" +:+ name +:+ "'") None)
            | Some operation =>
                let declared_measures := OperationDefinition_Measures operation in
                let declared_dimensions := OperationDefinition_Dimensions operation in
                for_each (declared "measure" name declared_measures)
                  (range (UsageMetrics_Measures metrics)) ;;;
                for_each (declared "dimension" name declared_dimensions)
                  (range (UsageMetrics_Dimensions metrics)) ;;;
                dimensions <- fold_result (runtime_dimension metrics) ∅ (range declared_dimensions) ;;
                measures <- fold_result (runtime_measure metrics) ∅ (range declared_measures) ;;
                let requestedCard :=
                  match options with [o] => PricingOptions_RateCard o | _ => "" end in
                cardKey <- resolveRateCard pricing requestedCard ;;
                operation_pricing <- operationPricing pricing cardKey name ;;
                match select_charge operation_pricing dimensions with
                | None => Err (newConfigError ("no price rule matched operation '" +:+ name +:+
                            "' in rate card '" +:+ cardKey +:+ "'") None)
                | Some selected =>
                    value <- evaluateCharge selected measures ;;
                    if IsNegative value
                    then Err (newConfigError ("price charge for '" +:+ name +:+
                           "' produced a negative credit cost") None)
                    else
                      let measureBreakdown := (fun amount => AString (dec_string amount)) <$> measures in
                      Ok (MakeCostBreakdown
                        {| Input_ModelCredits := dec_zero; Input_ToolCredits := dec_zero;
                           Input_SearchCredits := dec_zero; Input_CacheSavings := dec_zero;
                           Input_FixedCredits := dec_zero;
                           Input_OperationCredits := QuantizeMoney value;
                           Input_Breakdown :=
                             {[ "operation" := AString name; "rateCard" := AString cardKey;
                                "chargeType" := AString (Charge_Type selected);
                                "measures" := ATypedMap measureBreakdown;
                                "dimensions" := AMap (UsageMetrics_Dimensions metrics) ]} |})
                end
            end
        end
  end.

Definition CalculateBatch (e : option PricingEngine) (metrics : list (UsageMetrics D))
    (options : list PricingOptions) : result (list (CostBreakdown D)) :=
  if (1 <? length options)%nat then Err too_many_options
  else map_result (fun item => Calculate e item options) metrics.

Definition GetRateCardForPlan (e : option PricingEngine) (planID : string) : option string :=
  match Config e with
  | None => None
  | Some config =>
      if planID =? "" then None
      else plan ← BursarConfig_Plans config !! planID; PlanDefinition_RateCard plan
  end.
End engine.
Arguments PricingEngine : clear implicits.
