(* ===== verification/ConfigScalars.v ===== *)
(** * config.go, lines 634-1005: reading scalars, windows and expiries

    Each parser takes a dynamic value and the path it was found at, for the
    messages.  A platform [int] is 64 bits wide. *)

From S2P Require Export Catalog GoCalendar.
Local Open Scope Z_scope.
Local Open Scope go_scope.

Definition safeIntegerMax : Z := 9007199254740991.

Definition max_int64 : Z := 2 ^ 63 - 1.

(** [int(z)] of an int64, on a 64-bit platform. *)
Definition int_of_int64 (z : Z) : Z := (z + 2 ^ 63) mod 2 ^ 64 - 2 ^ 63.

(** [strconv.ParseInt(s, 10, 64)], which [json.Number.Int64] calls. *)
Definition ParseInt (s : string) : option Z :=
  let '(sign, digits) :=
    match s with
    | String c rest =>
        if Ascii.eqb c "-" then (-1, rest) else if Ascii.eqb c "+" then (1, rest) else (1, s)
    | EmptyString => (1, s)
    end in
  match digits with
  | EmptyString => None
  | _ =>
      if all_chars is_digit digits then
        let z := sign * digits_value 0 digits in
        if (- 2 ^ 63 <=? z) && (z <=? max_int64) then Some z else None
      else None
  end.

(** Leaves the first occurrences only: [seen] bookkeeping of the duplicate checks. *)
Fixpoint has_duplicates (l : list string) : bool :=
  match l with
  | [] => false
  | x :: rest => existsb (String.eqb x) rest || has_duplicates rest
  end.

Section scalars.
Context {D : Type} `{DecimalOps D} `{RangeOrder} `{TimeZones}.
Implicit Types (value : any D) (raw : gmap string (any D)) (path key : string).

Definition config_error {A} (message : string) : result A := Err (newConfigError message None).

(** An error with the text of its cause. *)
Definition config_error_from {A} (message cause : string) : result A :=
  Err (newConfigError message (Some (ExternalError cause))).

Definition configObject value path : result (gmap string (any D)) :=
  match value with
  | AMap object => Ok object
  | _ => config_error (path +:+ " must be an object")
  end.

Definition configArray value path : result (list (any D)) :=
  match value with
  | ASlice array => Ok array
  | _ => config_error (path +:+ " must be an array")
  end.

Definition configString value path : result string :=
  match value with
  | AString s => Ok s
  | _ => config_error (path +:+ " must be a string")
  end.

Definition configBool value path : result bool :=
  match value with
  | ABool b => Ok b
  | _ => config_error (path +:+ " must be boolean")
  end.

(** The value an integer-typed argument denotes, before the safe-range test. *)
Definition int64_of value path : result Z :=
  match value with
  | ANumber text =>
      match ParseInt text with
      | None => config_error_from (path +:+ " must be an integer") text
      | Some parsed => Ok parsed
      end
  | AInt KUint number | AInt KUint64 number =>
      if max_int64 <? number
      then config_error (path +:+ " is outside the platform integer range")
      else Ok number
  | AInt _ number => Ok number
  | AFloat (FFinite q _) =>
      if negb (Qeq_bool (inject_Z (qtrunc q)) q) then config_error (path +:+ " must be an integer")
      else if negb (Qle_bool q (inject_Z safeIntegerMax))
           || negb (Qle_bool (inject_Z (- safeIntegerMax)) q)
      then config_error (path +:+ " is outside the safe integer range")
      else Ok (qtrunc q)
  | _ => config_error (path +:+ " must be an integer")
  end.

Definition configInt64 value path : result Z :=
  parsed <- int64_of value path ;;
  if (safeIntegerMax <? parsed) || (parsed <? - safeIntegerMax)
  then config_error (path +:+ " is outside the safe integer range")
  else Ok parsed.

Definition configInteger value path : result Z :=
  parsed <- configInt64 value path ;;
  if negb (int_of_int64 parsed =? parsed)%Z
  then config_error (path +:+ " is outside the platform integer range")
  else Ok (int_of_int64 parsed).

Definition configDecimal value path : result D :=
  match value with
  | AString s =>
      match NewAmount s with
      | Err e => Err (newConfigError (path +:+ " must be a valid decimal string") (Some e))
      | Ok parsed => Ok parsed
      end
  | _ => config_error (path +:+ " must be a decimal string")
  end.

Definition validateConfigIdentifier (text path : string) : result unit :=
  if negb (is_identifier text)
  then config_error (path +:+ " must be a non-empty snake_case identifier")
  else Ok tt.

Definition validateConfigIdentifiers (values : gmap string (any D)) path : result unit :=
  for_each (fun '(key, _) => validateConfigIdentifier key (path +:+ "." +:+ key)) (range values).

Definition sortedConfigKeys (values : gmap string (any D)) : list string :=
  sort_strings (range values).*1.

Definition configOptionalString raw key path : result (option string) :=
  match present raw key with
  | None => Ok None
  | Some value => parsed <- configString value path ;; Ok (Some parsed)
  end.

Definition configOptionalInt raw key path : result (option Z) :=
  match present raw key with
  | None => Ok None
  | Some value => parsed <- configInteger value path ;; Ok (Some parsed)
  end.

Definition configMap raw key path : result (gmap string (any D)) :=
  match present raw key with
  | None => Ok ∅
  | Some value => configObject value path
  end.

(** [path[index]] *)
Definition item_path path (index : nat) : string := path +:+ "[" +:+ itoa (Z.of_nat index) +:+ "]".

(** [for index, item := range items { parsed, err := f(item, path[index]); ... }] *)
Fixpoint parse_items {A B} (f : A -> string -> result B) (items : list A) path (index : nat)
    : result (list B) :=
  match items with
  | [] => Ok []
  | item :: rest =>
      parsed <- f item (item_path path index) ;;
      others <- parse_items f rest path (S index) ;;
      Ok (parsed :: others)
  end.

Definition configSliceStrings value path : result (list string) :=
  items <- configArray value path ;;
  parse_items configString items path 0.

(** [for _, key := range sortedConfigKeys(values) { result[key] = f(key, values[key]) }] *)
Definition parse_entries {A} (f : string -> any D -> result A) (values : gmap string (any D))
    : result (gmap string A) :=
  fold_result (fun parsed key =>
    item <- f key (field values key) ;;
    Ok (<[key := item]> parsed)) ∅ (sortedConfigKeys values).

(** The same over [for key, value := range values]. *)
Definition parse_range {A} (f : string -> any D -> result A) (values : gmap string (any D))
    : result (gmap string A) :=
  fold_result (fun parsed '(key, value) =>
    item <- f key value ;;
    Ok (<[key := item]> parsed)) ∅ (range values).

(** [if input, ok := raw[key]; ok && input != nil { v, err = f(input) }] over a default. *)
Definition optional {A} (default_ : A) (f : any D -> result A) raw key : result A :=
  match present raw key with
  | None => Ok default_
  | Some input => f input
  end.

Definition optional_pointer {A} (f : any D -> result A) raw key : result (option A) :=
  optional None (fun input => parsed <- f input ;; Ok (Some parsed)) raw key.

Definition parseDuration value path : result Duration :=
  raw <- configObject value path ;;
  unit_ <- configString (field raw "unit") (path +:+ ".unit") ;;
  count <- configInteger (field raw "count") (path +:+ ".count") ;;
  Ok {| Duration_Unit := unit_; Duration_Count := count |}.

Definition parseBillingInterval value path : result BillingInterval :=
  raw <- configObject value path ;;
  unit_ <- configString (field raw "unit") (path +:+ ".unit") ;;
  count <- optional 1 (fun input => configInteger input (path +:+ ".count")) raw "count" ;;
  Ok {| BillingInterval_Unit := unit_; BillingInterval_Count := count |}.

Definition parseTimezone value path : result string :=
  zone <- configString value path ;;
  if (zone =? "") || (zone =? "Local")
  then config_error (path +:+ " must be a valid IANA timezone")
  else match LoadLocation zone with
       | Some text => config_error_from (path +:+ " must be a valid IANA timezone") text
       | None => Ok zone
       end.

(** A [Window] with the fields of no variant set. *)
Definition window_of_type (type_ : string) : Window :=
  {| Window_Type := type_; Window_Unit := ""; Window_Count := 0; Window_Timezone := "";
     Window_Duration := None; Window_Interval := None |}.

(** The time zone of a plan_assignment window: every failure is wrapped. *)
Definition plan_assignment_timezone raw path : result string :=
  match (match present raw "timezone" with
         | Some input => parseTimezone input (path +:+ ".timezone")
         | None => match LoadLocation "UTC" with
                   | Some text => Err (ExternalError text)
                   | None => Ok "UTC"
                   end
         end) with
  | Err e => Err (newConfigError (path +:+ ".timezone must be a valid IANA timezone") (Some e))
  | Ok timezone => Ok timezone
  end.

Definition parseWindow value path : result Window :=
  raw <- configObject value path ;;
  typeValue <- configString (field raw "type") (path +:+ ".type") ;;
  if typeValue =? "rolling" then
    duration <- parseDuration (field raw "duration") (path +:+ ".duration") ;;
    Ok {| Window_Type := "rolling"; Window_Unit := ""; Window_Count := 0; Window_Timezone := "";
          Window_Duration := Some duration; Window_Interval := None |}
  else if typeValue =? "plan_assignment" then
    interval <- parseBillingInterval (field raw "interval") (path +:+ ".interval") ;;
    timezone <- plan_assignment_timezone raw path ;;
    Ok {| Window_Type := "plan_assignment"; Window_Unit := ""; Window_Count := 0;
          Window_Timezone := timezone; Window_Duration := None; Window_Interval := Some interval |}
  else if typeValue =? "calendar" then
    unit_ <- configString (field raw "unit") (path +:+ ".unit") ;;
    count <- optional 1 (fun input => configInteger input (path +:+ ".count")) raw "count" ;;
    timezone <- optional "UTC" (fun input => parseTimezone input (path +:+ ".timezone")) raw "timezone" ;;
    Ok {| Window_Type := "calendar"; Window_Unit := unit_; Window_Count := count;
          Window_Timezone := timezone; Window_Duration := None; Window_Interval := None |}
  else config_error (path +:+ ".type must be calendar, rolling, or plan_assignment").

(** The loop over regions: pattern, then duplicates among those before. *)
Definition validate_regions (regions : list string) path : result unit :=
  (fix loop (seen regions : list string) : result unit :=
     match regions with
     | [] => Ok tt
     | region :: rest =>
         if negb (matches_region region)
         then config_error (path +:+ " must contain uppercase ISO-style region codes")
         else if existsb (String.eqb region) seen
         then config_error (path +:+ " must not contain duplicates")
         else loop (region :: seen) rest
     end) [] regions.

Definition parseAvailability value path : result Availability :=
  raw <- configObject value path ;;
  startsAt <- configOptionalString raw "starts_at" (path +:+ ".starts_at") ;;
  endsAt <- configOptionalString raw "ends_at" (path +:+ ".ends_at") ;;
  regions <- optional [] (fun input => configSliceStrings input (path +:+ ".regions")) raw "regions" ;;
  validate_regions regions (path +:+ ".regions") ;;;
  match startsAt, endsAt with
  | Some starts, Some ends =>
      match ParseRFC3339 starts, ParseRFC3339 ends with
      | Some start, Some end_ =>
          if negb (start <? end_)
          then config_error (path +:+ ".ends_at must be later than starts_at")
          else Ok tt
      | _, _ => Ok tt
      end
  | _, _ => Ok tt
  end ;;;
  Ok {| Availability_StartsAt := startsAt; Availability_EndsAt := endsAt;
        Availability_Regions := regions |}.

(** An [ExpiryPolicy] with its type only. *)
Definition expiry_of_type (type_ : string) : ExpiryPolicy :=
  {| ExpiryPolicy_Type := type_; ExpiryPolicy_Interval := None; ExpiryPolicy_Timezone := "";
     ExpiryPolicy_Window := None; ExpiryPolicy_At := None |}.

Definition parseExpiry value path : result ExpiryPolicy :=
  raw <- configObject value path ;;
  typeValue <- configString (field raw "type") (path +:+ ".type") ;;
  if (typeValue =? "never") || (typeValue =? "subscription_end") then Ok (expiry_of_type typeValue)
  else if typeValue =? "after_grant" then
    interval <- parseBillingInterval (field raw "interval") (path +:+ ".interval") ;;
    timezone <- optional "UTC" (fun input => parseTimezone input (path +:+ ".timezone")) raw "timezone" ;;
    Ok {| ExpiryPolicy_Type := typeValue; ExpiryPolicy_Interval := Some interval;
          ExpiryPolicy_Timezone := timezone; ExpiryPolicy_Window := None; ExpiryPolicy_At := None |}
  else if typeValue =? "end_of_window" then
    window <- parseWindow (field raw "window") (path +:+ ".window") ;;
    if Window_Type window =? "rolling"
    then config_error (path +:+ " cannot use a rolling window")
    else Ok {| ExpiryPolicy_Type := typeValue; ExpiryPolicy_Interval := None;
               ExpiryPolicy_Timezone := ""; ExpiryPolicy_Window := Some window;
               ExpiryPolicy_At := None |}
  else if typeValue =? "fixed_at" then
    at_ <- configString (field raw "at") (path +:+ ".at") ;;
    Ok {| ExpiryPolicy_Type := typeValue; ExpiryPolicy_Interval := None;
          ExpiryPolicy_Timezone := ""; ExpiryPolicy_Window := None; ExpiryPolicy_At := Some at_ |}
  else config_error (path +:+ ".type is invalid").
End scalars.
