(* ===== verification/ConfigPricing.v ===== *)
(** * config.go, lines 1477-2017: matchers, charges and rate cards

    [parseCharge] refuses to nest deeper than 64, so it recurses on the levels
    left; the two walks along [extends] run on fuel, one more than there are
    cards. *)

From S2P Require Export ConfigScalars ExprEval.
Local Open Scope Z_scope.
Local Open Scope go_scope.

Section pricing.
Context {D : Type} `{DecimalOps D} `{RangeOrder} `{TimeZones}.
Implicit Types (value : any D) (raw : gmap string (any D)) (path key : string).

(** [decimal.NewFromString(text)], its error wrapped or returned as it is. *)
Definition decimal_or (e : error) (text : string) : result D :=
  match NewFromString text with
  | None => Err e
  | Some parsed => Ok parsed
  end.

Definition configMatcherDecimal value path : result D :=
  match value with
  | AString typed | ANumber typed =>
      decimal_or (newConfigError (path +:+ " must be a decimal") (Some (ExternalError typed))) typed
  | AInt KUint typed | AInt KUint64 typed => decimal_or (ExternalError (itoa typed)) (itoa typed)
  | AInt _ typed => Ok (NewFromInt typed)
  | AFloat (FFinite _ text) => decimal_or (ExternalError text) text
  | AFloat _ => config_error (path +:+ " must be finite")
  | _ => config_error (path +:+ " must be a decimal string or number")
  end.

Definition parseMatcherScalar value (definition : DimensionDefinition) path : result (MatcherScalar D) :=
  let type_ := DimensionDefinition_Type definition in
  if type_ =? "boolean" then b <- configBool value (path +:+ " matcher values") ;; Ok (ABool b)
  else if type_ =? "number" then
    d <- configMatcherDecimal value (path +:+ " matcher values") ;; Ok (ADecimal d)
  else if type_ =? "string" then
    s <- configString value (path +:+ " matcher values") ;; Ok (AString s)
  else config_error (path +:+ " references an invalid dimension type").

Definition matcher (op : string) (value : MatcherScalar D) (values : list (MatcherScalar D))
    (gt gte lt lte : option D) : DimensionMatcher D :=
  {| DimensionMatcher_Op := op; DimensionMatcher_Value := value; DimensionMatcher_Values := values;
     DimensionMatcher_GT := gt; DimensionMatcher_GTE := gte;
     DimensionMatcher_LT := lt; DimensionMatcher_LTE := lte |}.

(** The loop over the four bound keys: the literal map is ranged over in
    any order, and the bounds found are kept under their keys. *)
Definition parse_bounds raw path : result (gmap string D) :=
  fold_result (fun bounds '(key, _) =>
    match present raw key with
    | None => Ok bounds
    | Some input =>
        parsed <- configDecimal input (path +:+ "." +:+ key) ;;
        Ok (<[key := parsed]> bounds)
    end) ∅ (range ({[ "gt" := tt; "gte" := tt; "lt" := tt; "lte" := tt ]} : gmap string unit)).

(** The [case "range"] of [parseDimensionMatcher]. *)
Definition parse_range_matcher raw path : result (DimensionMatcher D) :=
  bounds <- parse_bounds raw path ;;
  let gt := bounds !! "gt" in let gte := bounds !! "gte" in
  let lt := bounds !! "lt" in let lte := bounds !! "lte" in
  match gt, gte, lt, lte with
  | None, None, None, None => config_error (path +:+ " range matcher requires at least one bound")
  | Some _, Some _, _, _ => config_error (path +:+ " range matcher cannot combine gt and gte")
  | _, _, Some _, Some _ => config_error (path +:+ " range matcher cannot combine lt and lte")
  | _, _, _, _ =>
      let lower := match gt with Some _ => gt | None => gte end in
      let upper := match lt with Some _ => lt | None => lte end in
      match lower, upper with
      | Some lower, Some upper =>
          if negb (LessThan lower upper)
          then config_error (path +:+ " range matcher lower bound must be less than upper bound")
          else Ok (matcher "range" ANil [] gt gte lt lte)
      | _, _ => Ok (matcher "range" ANil [] gt gte lt lte)
      end
  end.

Definition parseDimensionMatcher value (definition : DimensionDefinition) path
    : result (DimensionMatcher D) :=
  raw <- configObject value path ;;
  op <- configString (field raw "op") (path +:+ ".op") ;;
  if op =? "eq" then
    parsed <- parseMatcherScalar (field raw "value") definition path ;;
    Ok (matcher op parsed [] None None None None)
  else if (op =? "in") || (op =? "not_in") then
    items <- configArray (field raw "values") (path +:+ ".values") ;;
    values <- parse_items (fun item => parseMatcherScalar item definition) items (path +:+ ".values") 0 ;;
    Ok (matcher op ANil values None None None None)
  else if op =? "prefix" then
    if negb (DimensionDefinition_Type definition =? "string")
    then config_error (path +:+ " prefix matcher requires a string dimension")
    else
      parsed <- configString (field raw "value") (path +:+ ".value") ;;
      Ok (matcher op (AString parsed) [] None None None None)
  else if op =? "range" then
    if negb (DimensionDefinition_Type definition =? "number")
    then config_error (path +:+ " range matcher requires a number dimension")
    else parse_range_matcher raw path
  else config_error (path +:+ ".op is invalid").

Definition parse_tier value path : result (GraduatedTier D) :=
  raw <- configObject value path ;;
  rate <- configDecimal (field raw "rate") (path +:+ ".rate") ;;
  upTo <- optional_pointer (fun candidate => configDecimal candidate (path +:+ ".up_to")) raw "up_to" ;;
  Ok {| GraduatedTier_UpTo := upTo; GraduatedTier_Rate := rate |}.

Definition open_tier_error {A} : result A :=
  config_error "graduated and volume tiers must end with exactly one open-ended tier".

(** The loop over [tiers[:len(tiers)-1]]. *)
Fixpoint validate_bounds (previous : option D) (tiers : list (GraduatedTier D)) : result unit :=
  match tiers with
  | [] => Ok tt
  | tier :: rest =>
      match GraduatedTier_UpTo tier with
      | None => open_tier_error
      | Some upTo =>
          if match previous with Some p => negb (LessThan p upTo) | None => false end
          then config_error "graduated and volume tier bounds must be strictly increasing"
          else validate_bounds (Some upTo) rest
      end
  end.

Definition parseTiers value path : result (list (GraduatedTier D)) :=
  inputs <- configArray value path ;;
  tiers <- parse_items parse_tier inputs path 0 ;;
  match last tiers with
  | Some {| GraduatedTier_UpTo := None |} =>
      validate_bounds None (removelast tiers) ;;; Ok tiers
  | _ => open_tier_error
  end.

(** [Charge{Type: typeValue}] *)
Definition charge_of_type (type_ : string) : Charge D :=
  mkCharge type_ dec_zero "" dec_zero dec_zero dec_zero "" [] "" [].

Definition parse_flat raw path : result (Charge D) :=
  amount <- configDecimal (field raw "amount") (path +:+ ".amount") ;;
  Ok (mkCharge "flat" amount "" dec_zero dec_zero dec_zero "" [] "" []).

Definition parse_per_unit raw path : result (Charge D) :=
  measure <- configString (field raw "measure") (path +:+ ".measure") ;;
  rate <- configDecimal (field raw "rate") (path +:+ ".rate") ;;
  unitSize <- optional (NewFromInt 1) (fun input => configDecimal input (path +:+ ".unit_size"))
                raw "unit_size" ;;
  if negb (GreaterThan unitSize dec_zero)
  then config_error (path +:+ ".unit_size must be greater than zero")
  else Ok (mkCharge "per_unit" dec_zero measure rate unitSize dec_zero "" [] "" []).

Definition parse_package raw path : result (Charge D) :=
  measure <- configString (field raw "measure") (path +:+ ".measure") ;;
  units <- configDecimal (field raw "units") (path +:+ ".units") ;;
  amount <- configDecimal (field raw "amount") (path +:+ ".amount") ;;
  rounding <- optional "ceil" (fun input => configString input (path +:+ ".rounding")) raw "rounding" ;;
  if negb (GreaterThan units dec_zero)
  then config_error (path +:+ ".units must be greater than zero")
  else Ok (mkCharge "package" amount measure dec_zero dec_zero units rounding [] "" []).

Definition parse_tiered (type_ : string) raw path : result (Charge D) :=
  measure <- configString (field raw "measure") (path +:+ ".measure") ;;
  tiers <- parseTiers (field raw "tiers") (path +:+ ".tiers") ;;
  Ok (mkCharge type_ dec_zero measure dec_zero dec_zero dec_zero "" tiers "" []).

Definition parse_expression raw path : result (Charge D) :=
  formula <- configString (field raw "formula") (path +:+ ".formula") ;;
  Ok (mkCharge "expression" dec_zero "" dec_zero dec_zero dec_zero "" [] formula []).

(** [parseCharge] at [depth], with [levels = 65 - depth]. *)
Fixpoint parse_charge_levels (levels : nat) value path : result (Charge D) :=
  match levels with
  | O => config_error (path +:+ " exceeds the maximum nested charge depth")
  | S levels' =>
      raw <- configObject value path ;;
      typeValue <- configString (field raw "type") (path +:+ ".type") ;;
      if typeValue =? "flat" then parse_flat raw path
      else if typeValue =? "per_unit" then parse_per_unit raw path
      else if typeValue =? "package" then parse_package raw path
      else if (typeValue =? "graduated") || (typeValue =? "volume") then parse_tiered typeValue raw path
      else if typeValue =? "expression" then parse_expression raw path
      else if typeValue =? "sum" then
        inputs <- configArray (field raw "components") (path +:+ ".components") ;;
        components <- parse_items (parse_charge_levels levels') inputs (path +:+ ".components") 0 ;;
        Ok (mkCharge "sum" dec_zero "" dec_zero dec_zero dec_zero "" [] "" components)
      else config_error ("unsupported charge type '" +:+ typeValue +:+ "'")
  end.

Definition parseCharge value path (depth : nat) : result (Charge D) :=
  parse_charge_levels (65 - depth) value path.

Fixpoint chargeMeasures (charge : Charge D) (measures : gmap string unit) : gmap string unit :=
  fold_left (fun acc component => chargeMeasures component acc) (Charge_Components charge)
    (if negb (Charge_Measure charge =? "") then <[Charge_Measure charge := tt]> measures else measures).

Fixpoint validateExpressionCharge (known : list string) (current : Charge D) : result unit :=
  (if Charge_Type current =? "expression"
   then ValidateExpression (D := D) (Charge_Formula current) known else Ok tt) ;;;
  for_each (validateExpressionCharge known) (Charge_Components current).

Definition validatePricingCharge (charge : Charge D) (definition : OperationDefinition)
    (operationKey : string) : result unit :=
  for_each (fun '(measure, _) =>
    match OperationDefinition_Measures definition !! measure with
    | None => config_error ("pricing for operation '" +:+ operationKey +:+
                "' references undeclared measures " +:+ measure)
    | Some _ => Ok tt
    end) (range (chargeMeasures charge ∅)) ;;;
  validateExpressionCharge (sort_strings (range (OperationDefinition_Measures definition)).*1) charge.

Definition parse_measure path (name : string) value : result MeasureDefinition :=
  definition <- configObject value (path +:+ ".measures." +:+ name) ;;
  unit_ <- configString (field definition "unit") (path +:+ ".measures." +:+ name +:+ ".unit") ;;
  validateConfigIdentifier unit_ (path +:+ ".measures." +:+ name +:+ ".unit") ;;;
  Ok {| MeasureDefinition_Unit := unit_ |}.

Definition parse_dimension path (operationKey : string) (measures : gmap string MeasureDefinition)
    (name : string) value : result DimensionDefinition :=
  match measures !! name with
  | Some _ => config_error ("operation '" +:+ operationKey +:+ "' reuses names as measures and dimensions")
  | None =>
      definition <- configObject value (path +:+ ".dimensions." +:+ name) ;;
      typeValue <- configString (field definition "type") (path +:+ ".dimensions." +:+ name +:+ ".type") ;;
      required <- optional true
        (fun input => configBool input (path +:+ ".dimensions." +:+ name +:+ ".required"))
        definition "required" ;;
      Ok {| DimensionDefinition_Type := typeValue; DimensionDefinition_Required := required |}
  end.

(** The body of the loop over operations. *)
Definition parse_operation (operationKey : string) value : result OperationDefinition :=
  let path := "pricing.operations." +:+ operationKey in
  operationRaw <- configObject value path ;;
  measuresRaw <- configMap operationRaw "measures" (path +:+ ".measures") ;;
  dimensionsRaw <- configMap operationRaw "dimensions" (path +:+ ".dimensions") ;;
  validateConfigIdentifiers measuresRaw (path +:+ ".measures") ;;;
  validateConfigIdentifiers dimensionsRaw (path +:+ ".dimensions") ;;;
  if (size measuresRaw =? 0)%nat then config_error (path +:+ ".measures must not be empty")
  else
    measures <- parse_range (parse_measure path) measuresRaw ;;
    dimensions <- parse_range (parse_dimension path operationKey measures) dimensionsRaw ;;
    Ok {| OperationDefinition_Measures := measures; OperationDefinition_Dimensions := dimensions |}.

(** The body of the loop over [when]. *)
Definition parse_when (definition : OperationDefinition) rulePath (name : string) value
    : result (DimensionMatcher D) :=
  match OperationDefinition_Dimensions definition !! name with
  | None => config_error (rulePath +:+ " matches undeclared dimension '" +:+ name +:+ "'")
  | Some dimension => parseDimensionMatcher value dimension (rulePath +:+ ".when." +:+ name)
  end.

(** A charge, checked against the operation it prices. *)
Definition parse_checked_charge (definition : OperationDefinition) (operationKey : string) value path
    : result (Charge D) :=
  charge <- parseCharge value path 0 ;;
  validatePricingCharge charge definition operationKey ;;;
  Ok charge.

(** The body of the loop over rules. *)
Definition parse_rule (definition : OperationDefinition) (operationKey : string) value rulePath
    : result (PriceRule D) :=
  ruleRaw <- configObject value rulePath ;;
  whenRaw <- configObject (field ruleRaw "when") (rulePath +:+ ".when") ;;
  when <- parse_range (parse_when definition rulePath) whenRaw ;;
  charge <- parse_checked_charge definition operationKey (field ruleRaw "charge") (rulePath +:+ ".charge") ;;
  Ok {| PriceRule_When := when; PriceRule_Charge := charge |}.

(** The body of the loop over the operations of a card. *)
Definition parse_operation_pricing (operations : gmap string OperationDefinition) (cardKey path : string)
    (operationKey : string) value : result (OperationPricing D) :=
  match operations !! operationKey with
  | None => config_error ("rate card '" +:+ cardKey +:+ "' references unknown operation '" +:+
              operationKey +:+ "'")
  | Some definition =>
      let operationPath := path +:+ ".operations." +:+ operationKey in
      operationRaw <- configObject value operationPath ;;
      rulesRaw <- optional [] (fun input => configArray input (operationPath +:+ ".rules"))
                    operationRaw "rules" ;;
      rules <- parse_items (parse_rule definition operationKey) rulesRaw (operationPath +:+ ".rules") 0 ;;
      unmatchedRaw <- configObject (field operationRaw "unmatched") (operationPath +:+ ".unmatched") ;;
      action <- configString (field unmatchedRaw "action") (operationPath +:+ ".unmatched.action") ;;
      charge <- (if action =? "charge" then
                   charge <- parse_checked_charge definition operationKey (field unmatchedRaw "charge")
                               (operationPath +:+ ".unmatched.charge") ;;
                   Ok (Some charge)
                 else Ok None) ;;
      Ok {| OperationPricing_Rules := rules;
            OperationPricing_Unmatched :=
              {| UnmatchedPolicy_Action := action; UnmatchedPolicy_Charge := charge |} |}
  end.

(** The body of the loop over rate cards. *)
Definition parse_rate_card (operations : gmap string OperationDefinition) (cardKey : string) value
    : result (RateCard D) :=
  let path := "pricing.rate_cards." +:+ cardKey in
  cardRaw <- configObject value path ;;
  extends <- configOptionalString cardRaw "extends" (path +:+ ".extends") ;;
  operationPricesRaw <- configMap cardRaw "operations" (path +:+ ".operations") ;;
  operationPrices <- parse_range (parse_operation_pricing operations cardKey path) operationPricesRaw ;;
  Ok {| RateCard_Extends := extends; RateCard_Operations := operationPrices |}.

(** The sets [visiting] and [visited] of [validateRateCardInheritance]. *)
Record visit_state := { visiting : gmap string unit; visited : gmap string unit }.

Fixpoint visit (fuel : nat) (pricing : PricingConfig D) (key : string) (st : visit_state)
    : result visit_state :=
  match fuel with
  | O => Err FuelExhausted
  | S fuel' =>
      match visiting st !! key with
      | Some _ => config_error ("pricing rate-card inheritance cycle includes '" +:+ key +:+ "'")
      | None =>
          match visited st !! key with
          | Some _ => Ok st
          | None =>
              match PricingConfig_RateCards pricing !! key with
              | None => config_error ("unknown rate card '" +:+ key +:+ "'")
              | Some card =>
                  let st := {| visiting := <[key := tt]> (visiting st); visited := visited st |} in
                  st <- match RateCard_Extends card with
                        | Some parent => visit fuel' pricing parent st
                        | None => Ok st
                        end ;;
                  Ok {| visiting := delete key (visiting st); visited := <[key := tt]> (visited st) |}
              end
          end
      end
  end.

Definition visit_fuel (pricing : PricingConfig D) : nat := S (S (size (PricingConfig_RateCards pricing))).

Definition validateRateCardInheritance (pricing : PricingConfig D) : result unit :=
  fold_result (fun st '(key, _) => visit (visit_fuel pricing) pricing key st)
    {| visiting := ∅; visited := ∅ |} (range (PricingConfig_RateCards pricing)) ;;;
  Ok tt.

Fixpoint resolves_loop (fuel : nat) (pricing : PricingConfig D) (operation : string)
    (seen : gmap string unit) (key : string) : bool :=
  match fuel with
  | O => false
  | S fuel' =>
      if key =? "" then false
      else match seen !! key with
      | Some _ => false
      | None =>
          match PricingConfig_RateCards pricing !! key with
          | None => false
          | Some card =>
              match RateCard_Operations card !! operation with
              | Some _ => true
              | None =>
                  match RateCard_Extends card with
                  | None => false
                  | Some parent => resolves_loop fuel' pricing operation (<[key := tt]> seen) parent
                  end
              end
          end
      end
  end.

Definition ResolvesOperation (pricing : option (PricingConfig D)) (cardKey operation : string) : bool :=
  match pricing with
  | None => false
  | Some pricing => resolves_loop (visit_fuel pricing) pricing operation ∅ cardKey
  end.

Definition parsePricing value : result (PricingConfig D) :=
  raw <- configObject value "pricing" ;;
  operationsRaw <- configMap raw "operations" "pricing.operations" ;;
  cardsRaw <- configMap raw "rate_cards" "pricing.rate_cards" ;;
  validateConfigIdentifiers operationsRaw "pricing.operations" ;;;
  validateConfigIdentifiers cardsRaw "pricing.rate_cards" ;;;
  if (size operationsRaw =? 0)%nat || (size cardsRaw =? 0)%nat
  then config_error "pricing.operations and pricing.rate_cards must not be empty"
  else
    operations <- parse_entries parse_operation operationsRaw ;;
    rateCards <- parse_entries (parse_rate_card operations) cardsRaw ;;
    let pricing := {| PricingConfig_Operations := operations; PricingConfig_RateCards := rateCards |} in
    validateRateCardInheritance pricing ;;;
    Ok pricing.
End pricing.
