(* ===== verification/ConfigCredits.v ===== *)
(** * config.go, lines 1093-1475: credits, grant programs, entitlements, admission

    The engine [regexp2] is third-party code: the parameter [CompileRegexp]
    gives the error text of a pattern, if any, and [MatchRegexp] runs one. *)

From S2P Require Export ConfigScalars.
Local Open Scope Z_scope.
Local Open Scope go_scope.

(** [strings.ToUpper] on ASCII letters, the only ones the schema admits in a currency. *)
Definition upper_char (c : ascii) : ascii :=
  if is_lower c then ascii_of_nat (nat_of_ascii c - 32) else c.
Fixpoint ToUpper (s : string) : string :=
  match s with
  | EmptyString => EmptyString
  | String c rest => String (upper_char c) (ToUpper rest)
  end.

Class Regexps := {
  CompileRegexp : string -> option string;
  MatchRegexp : string -> string -> result bool;
}.

Section credits.
Context {D : Type} `{DecimalOps D} `{RangeOrder} `{TimeZones} `{Regexps}.
Implicit Types (value : any D) (raw : gmap string (any D)) (path key : string).

(** The body of the loop over buckets. *)
Definition parse_bucket key value : result BucketDefinition :=
  let path := "credits.buckets." +:+ key in
  bucket <- configObject value path ;;
  priority <- configInteger (field bucket "priority") (path +:+ ".priority") ;;
  let expiryInput := default (AMap {[ "type" := AString "never" ]}) (present bucket "expiry") in
  expiry <- parseExpiry expiryInput (path +:+ ".expiry") ;;
  if ExpiryPolicy_Type expiry =? "subscription_end"
  then config_error (path +:+ ".expiry cannot be subscription_end")
  else Ok {| BucketDefinition_Priority := priority; BucketDefinition_Expiry := expiry |}.

(** The loop that looks for two buckets of the same priority. *)
Definition check_priorities (buckets : gmap string BucketDefinition) : result unit :=
  fold_result (fun (priorities : gmap Z string) '(key, bucket) =>
    match priorities !! BucketDefinition_Priority bucket with
    | Some previous => config_error ("credits bucket priorities must be unique (" +:+ previous +:+
                         " and " +:+ key +:+ ")")
    | None => Ok (<[BucketDefinition_Priority bucket := key]> priorities)
    end) ∅ (range buckets) ;;;
  Ok tt.

Definition parse_credit_policy key value : result (CreditPolicy D) :=
  let path := "credits.policies." +:+ key in
  policy <- configObject value path ;;
  typeValue <- configString (field policy "type") (path +:+ ".type") ;;
  limit <- (if typeValue =? "credit_line" then
              limit <- configDecimal (field policy "limit") (path +:+ ".limit") ;; Ok (Some limit)
            else Ok None) ;;
  Ok {| CreditPolicy_Type := typeValue; CreditPolicy_Limit := limit |}.

(** The body of the loop over awards. *)
Definition parse_award (buckets : gmap string BucketDefinition) key value awardPath
    : result (GrantAward D) :=
  awardRaw <- configObject value awardPath ;;
  recipient <- optional "subject" (fun input => configString input (awardPath +:+ ".recipient"))
                 awardRaw "recipient" ;;
  amount <- configDecimal (field awardRaw "amount") (awardPath +:+ ".amount") ;;
  bucket <- configString (field awardRaw "bucket") (awardPath +:+ ".bucket") ;;
  match buckets !! bucket with
  | None => config_error ("grant program '" +:+ key +:+ "' references unknown bucket '" +:+ bucket +:+ "'")
  | Some _ =>
      expiry <- optional_pointer (fun input =>
        parsed <- parseExpiry input (awardPath +:+ ".expiry") ;;
        if ExpiryPolicy_Type parsed =? "subscription_end"
        then config_error ("grant program '" +:+ key +:+ "' cannot use subscription_end expiry")
        else Ok parsed) awardRaw "expiry" ;;
      Ok {| GrantAward_Recipient := recipient; GrantAward_Amount := amount;
            GrantAward_Bucket := bucket; GrantAward_Expiry := expiry |}
  end.

Definition parseGrantProgram (buckets : gmap string BucketDefinition) key value
    : result (GrantProgram D) :=
  let path := "credits.grant_programs." +:+ key in
  raw <- configObject value path ;;
  trigger <- configString (field raw "trigger") (path +:+ ".trigger") ;;
  awardsRaw <- configArray (field raw "awards") (path +:+ ".awards") ;;
  awards <- parse_items (parse_award buckets key) awardsRaw (path +:+ ".awards") 0 ;;
  eligibilityRaw <- configMap raw "eligibility" (path +:+ ".eligibility") ;;
  plans <- optional [] (fun input => configSliceStrings input (path +:+ ".eligibility.plans"))
             eligibilityRaw "plans" ;;
  regions <- optional [] (fun input => configSliceStrings input (path +:+ ".eligibility.regions"))
               eligibilityRaw "regions" ;;
  validate_regions regions (path +:+ ".eligibility.regions") ;;;
  (if negb (trigger =? "referral_completed")
      && existsb (fun award => GrantAward_Recipient award =? "referrer") awards
   then config_error ("grant program '" +:+ key +:+ "' referrer awards require referral_completed")
   else Ok tt) ;;;
  maxAwards <- optional 1 (fun input => configInteger input (path +:+ ".max_awards_per_subject"))
                 raw "max_awards_per_subject" ;;
  idempotencyScope <- optional "subject"
    (fun input => configString input (path +:+ ".idempotency_scope")) raw "idempotency_scope" ;;
  availability <- optional_pointer (fun input => parseAvailability input (path +:+ ".availability"))
                    raw "availability" ;;
  Ok {| GrantProgram_Trigger := trigger; GrantProgram_Awards := awards;
        GrantProgram_Availability := availability; GrantProgram_EligibilityPlans := plans;
        GrantProgram_EligibilityRegions := regions;
        GrantProgram_MaxAwardsPerSubject := maxAwards;
        GrantProgram_IdempotencyScope := idempotencyScope |}.

Definition parse_display value : result (CreditDisplay D) :=
  displayRaw <- configObject value "credits.display" ;;
  currency <- configString (field displayRaw "currency") "credits.display.currency" ;;
  units <- configDecimal (field displayRaw "units_per_major") "credits.display.units_per_major" ;;
  Ok {| CreditDisplay_Currency := ToUpper currency; CreditDisplay_UnitsPerMajor := units |}.

Definition parseCredits value : result (CreditsConfig D) :=
  raw <- configObject value "credits" ;;
  bucketsRaw <- configMap raw "buckets" "credits.buckets" ;;
  policiesRaw <- configMap raw "policies" "credits.policies" ;;
  programsRaw <- configMap raw "grant_programs" "credits.grant_programs" ;;
  for_each (fun '(path, items) => validateConfigIdentifiers items path)
    (range ({[ "credits.buckets" := bucketsRaw; "credits.policies" := policiesRaw;
               "credits.grant_programs" := programsRaw ]} : gmap string (gmap string (any D)))) ;;;
  buckets <- parse_entries parse_bucket bucketsRaw ;;
  check_priorities buckets ;;;
  defaultBucket <- configOptionalString raw "default_bucket" "credits.default_bucket" ;;
  match defaultBucket with
  | Some bucket =>
      match buckets !! bucket with
      | None => config_error "credits.default_bucket references an unknown bucket"
      | Some _ => Ok tt
      end
  | None => Ok tt
  end ;;;
  policies <- parse_entries parse_credit_policy policiesRaw ;;
  grantPrograms <- parse_entries (parseGrantProgram buckets) programsRaw ;;
  display <- optional_pointer parse_display raw "display" ;;
  Ok {| CreditsConfig_Buckets := buckets; CreditsConfig_DefaultBucket := defaultBucket;
        CreditsConfig_Policies := policies; CreditsConfig_GrantPrograms := grantPrograms;
        CreditsConfig_Display := display |}.

(** A [FeatureDefinition] and its variants. *)
Definition feature (type_ : string) (default_ : any D) (values : list string)
    (minimum maximum : option Z) (pattern : option string) : FeatureDefinition D :=
  {| FeatureDefinition_Type := type_; FeatureDefinition_Default := default_;
     FeatureDefinition_Values := values; FeatureDefinition_Minimum := minimum;
     FeatureDefinition_Maximum := maximum; FeatureDefinition_Pattern := pattern |}.

Definition parse_enum_feature (rawFeature : gmap string (any D)) (default_ : any D) path
    : result (FeatureDefinition D) :=
  values <- configSliceStrings (field rawFeature "values") (path +:+ ".values") ;;
  defaultValue <- configString default_ (path +:+ ".default") ;;
  if has_duplicates values then config_error (path +:+ ".values must be unique")
  else if negb (existsb (fun item => item =? defaultValue) values)
  then config_error (path +:+ ".default must be one of values")
  else Ok (feature "enum" default_ values None None None).

Definition below (bound : option Z) (test : Z -> bool) : bool :=
  match bound with Some b => test b | None => false end.

Definition parse_integer_feature (rawFeature : gmap string (any D)) (default_ : any D) path
    : result (FeatureDefinition D) :=
  defaultValue <- configInteger default_ (path +:+ ".default") ;;
  minimum <- configOptionalInt rawFeature "minimum" (path +:+ ".minimum") ;;
  maximum <- configOptionalInt rawFeature "maximum" (path +:+ ".maximum") ;;
  if below minimum (fun lo => below maximum (fun hi => hi <? lo))
  then config_error (path +:+ ".minimum cannot exceed maximum")
  else if below minimum (fun lo => defaultValue <? lo)
  then config_error (path +:+ ".default is below minimum")
  else if below maximum (fun hi => hi <? defaultValue)
  then config_error (path +:+ ".default exceeds maximum")
  else Ok (feature "integer" (AInt KInt defaultValue) [] minimum maximum None).

Definition parse_string_feature (rawFeature : gmap string (any D)) (default_ : any D) path
    : result (FeatureDefinition D) :=
  configString default_ (path +:+ ".default") ;;;
  pattern <- configOptionalString rawFeature "pattern" (path +:+ ".pattern") ;;
  match pattern with
  | Some source =>
      match CompileRegexp source with
      | Some text => config_error_from (path +:+ ".pattern must be a valid regular expression") text
      | None => Ok (feature "string" default_ [] None None pattern)
      end
  | None => Ok (feature "string" default_ [] None None None)
  end.

(** The body of the loop over features. *)
Definition parse_feature key value : result (FeatureDefinition D) :=
  let path := "entitlements.features." +:+ key in
  rawFeature <- configObject value path ;;
  typeValue <- configString (field rawFeature "type") (path +:+ ".type") ;;
  let default_ := field rawFeature "default" in
  if typeValue =? "boolean" then
    configBool default_ (path +:+ ".default") ;;;
    Ok (feature "boolean" default_ [] None None None)
  else if typeValue =? "enum" then parse_enum_feature rawFeature default_ path
  else if typeValue =? "integer" then parse_integer_feature rawFeature default_ path
  else if typeValue =? "string" then parse_string_feature rawFeature default_ path
  else config_error (path +:+ ".type is invalid").

Definition parseEntitlements value : result (EntitlementsConfig D) :=
  match value with
  | ANil => Ok {| EntitlementsConfig_Features := ∅ |}
  | _ =>
      raw <- configObject value "entitlements" ;;
      featuresRaw <- configMap raw "features" "entitlements.features" ;;
      validateConfigIdentifiers featuresRaw "entitlements.features" ;;;
      features <- parse_entries parse_feature featuresRaw ;;
      Ok {| EntitlementsConfig_Features := features |}
  end.

Definition parse_operation_admission path (operation : string) value : result OperationAdmission :=
  definition <- configObject value (path +:+ ".operations." +:+ operation) ;;
  max <- configInteger (field definition "max_in_flight")
           (path +:+ ".operations." +:+ operation +:+ ".max_in_flight") ;;
  Ok {| OperationAdmission_MaxInFlight := max |}.

Definition parse_admission_policy key value : result AdmissionPolicy :=
  let path := "admission.policies." +:+ key in
  policyRaw <- configObject value path ;;
  maxInFlight <- configOptionalInt policyRaw "max_in_flight" (path +:+ ".max_in_flight") ;;
  operationsRaw <- configMap policyRaw "operations" (path +:+ ".operations") ;;
  validateConfigIdentifiers operationsRaw (path +:+ ".operations") ;;;
  operations <- parse_range (parse_operation_admission path) operationsRaw ;;
  Ok {| AdmissionPolicy_MaxInFlight := maxInFlight; AdmissionPolicy_Operations := operations |}.

Definition parseAdmission value : result AdmissionConfig :=
  match value with
  | ANil => Ok {| AdmissionConfig_Policies := ∅ |}
  | _ =>
      raw <- configObject value "admission" ;;
      policiesRaw <- configMap raw "policies" "admission.policies" ;;
      validateConfigIdentifiers policiesRaw "admission.policies" ;;;
      policies <- parse_entries parse_admission_policy policiesRaw ;;
      Ok {| AdmissionConfig_Policies := policies |}
  end.
End credits.
