(* ===== verification/ConfigPlans.v ===== *)
(** * config.go, lines 2019-2339: plans, their features, quotas and allowances *)

From S2P Require Export ConfigPricing ConfigCredits.
Local Open Scope Z_scope.
Local Open Scope go_scope.

Section plans.
Context {D : Type} `{DecimalOps D} `{RangeOrder} `{TimeZones} `{Regexps}.
Implicit Types (value : any D) (raw : gmap string (any D)) (path key : string).

Definition mapBucketPriorities (buckets : gmap string BucketDefinition) : gmap Z unit :=
  fold_left (fun (priorities : gmap Z unit) '(_, bucket) =>
    <[BucketDefinition_Priority bucket := tt]> priorities) (range buckets) ∅.

Definition validatePlanFeatureValue value (definition : FeatureDefinition D) path : result (any D) :=
  let type_ := FeatureDefinition_Type definition in
  if type_ =? "boolean" then b <- configBool value path ;; Ok (ABool b)
  else if type_ =? "integer" then
    integer <- configInteger value path ;;
    if below (FeatureDefinition_Minimum definition) (fun lo => integer <? lo)
    then config_error (path +:+ " is below the feature minimum")
    else if below (FeatureDefinition_Maximum definition) (fun hi => hi <? integer)
    then config_error (path +:+ " exceeds the feature maximum")
    else Ok (AInt KInt integer)
  else if type_ =? "enum" then
    stringValue <- configString value path ;;
    if existsb (fun allowed => stringValue =? allowed) (FeatureDefinition_Values definition)
    then Ok (AString stringValue)
    else config_error (path +:+ " has an invalid enum value")
  else if type_ =? "string" then
    stringValue <- configString value path ;;
    match FeatureDefinition_Pattern definition with
    | None => Ok (AString stringValue)
    | Some pattern =>
        let matched :=
          match CompileRegexp pattern with
          | Some text => Err (ExternalError text)
          | None => MatchRegexp pattern stringValue
          end in
        let message := path +:+ " does not match the feature pattern" in
        match matched with
        | Err compileErr => Err (newConfigError message (Some compileErr))
        | Ok false => config_error message
        | Ok true => Ok (AString stringValue)
        end
    end
  else config_error (path +:+ " has an invalid feature definition").

(** Whether the operation declares the measure, with a unit. *)
Definition operation_measure (pricing : option (PricingConfig D)) (operation measure : string) : bool :=
  match pricing with
  | None => false
  | Some pricing =>
      match PricingConfig_Operations pricing !! operation with
      | None => false
      | Some definition =>
          match OperationDefinition_Measures definition !! measure with
          | None => false
          | Some m => negb (MeasureDefinition_Unit m =? "")
          end
      end
  end.

(** The loop over the thresholds; [previous] is the one before. *)
Fixpoint validate_thresholds path (previous : option Z) (thresholds : list Z) : result unit :=
  match thresholds with
  | [] => Ok tt
  | threshold :: rest =>
      if (threshold <? 1) || (100 <? threshold)
         || match previous with Some p => threshold <=? p | None => false end
      then config_error (path +:+ ".emit_at_percent must be unique, increasing, and between 1 and 100")
      else validate_thresholds path (Some threshold) rest
  end.

Definition parseQuota (pricing : option (PricingConfig D)) path value : result (QuotaDefinition D) :=
  raw <- configObject value path ;;
  operation <- configString (field raw "operation") (path +:+ ".operation") ;;
  measure <- configString (field raw "measure") (path +:+ ".measure") ;;
  if negb (operation_measure pricing operation measure)
  then config_error (path +:+ " references an unknown operation measure")
  else
    limit <- configDecimal (field raw "limit") (path +:+ ".limit") ;;
    window <- parseWindow (field raw "window") (path +:+ ".window") ;;
    enforcement <- configString (field raw "enforcement") (path +:+ ".enforcement") ;;
    emitAtPercent <- optional [100] (fun input =>
      values <- configArray input (path +:+ ".emit_at_percent") ;;
      parse_items configInteger values (path +:+ ".emit_at_percent") 0) raw "emit_at_percent" ;;
    validate_thresholds path None emitAtPercent ;;;
    Ok {| QuotaDefinition_Operation := operation; QuotaDefinition_Measure := measure;
          QuotaDefinition_Limit := limit; QuotaDefinition_Window := window;
          QuotaDefinition_Enforcement := enforcement;
          QuotaDefinition_EmitAtPercent := emitAtPercent |}.

Definition parseCreditAllowance path value : result (CreditAllowance D) :=
  raw <- configObject value path ;;
  amount <- configDecimal (field raw "amount") (path +:+ ".amount") ;;
  priority <- configInteger (field raw "priority") (path +:+ ".priority") ;;
  if priority <? 0 then config_error (path +:+ ".priority must be non-negative")
  else
    window <- parseWindow (field raw "window") (path +:+ ".window") ;;
    Ok {| CreditAllowance_Amount := amount; CreditAllowance_Priority := priority;
          CreditAllowance_Window := window |}.

(** The plans some subscription offer sells. *)
Definition subscription_plans (offers : gmap string (CommerceOffer D)) : gmap string unit :=
  fold_left (fun (plans : gmap string unit) '(_, offer) =>
    match CommerceOffer_Plan offer with
    | Some plan => if CommerceOffer_Type offer =? "subscription" then <[plan := tt]> plans else plans
    | None => plans
    end) (range offers) ∅.

(** The rate card a plan names. *)
Definition check_rate_card (pricing : option (PricingConfig D)) key (rateCard : option string) : result unit :=
  match rateCard with
  | None => Ok tt
  | Some card =>
      let unknown := config_error ("plans." +:+ key +:+ ".rate_card references unknown rate card '" +:+
                       card +:+ "'") in
      match pricing with
      | None => unknown
      | Some pricing =>
          match PricingConfig_RateCards pricing !! card with
          | None => unknown
          | Some _ => Ok tt
          end
      end
  end.

(** The loop over the operations a plan allows. *)
Fixpoint check_operations (pricing : option (PricingConfig D)) key path (rateCard : option string)
    (seen operations : list string) : result unit :=
  match operations with
  | [] => Ok tt
  | operation :: rest =>
      if existsb (String.eqb operation) seen
      then config_error (path +:+ ".allowed_operations must not contain duplicates")
      else
        validateConfigIdentifier operation (path +:+ ".allowed_operations") ;;;
        let unknown := config_error ("plans." +:+ key +:+ " references unknown operation '" +:+
                         operation +:+ "'") in
        match pricing with
        | None => unknown
        | Some p =>
            match PricingConfig_Operations p !! operation with
            | None => unknown
            | Some _ =>
                if match rateCard with
                   | None => true
                   | Some card => negb (ResolvesOperation pricing card operation)
                   end
                then config_error ("plans." +:+ key +:+ " enables '" +:+ operation +:+ "' without pricing")
                else check_operations pricing key path rateCard (operation :: seen) rest
            end
        end
  end.

(** The body of the loop over a plan's features. *)
Definition parse_plan_feature (entitlements : EntitlementsConfig D) key path (featureKey : string) value
    : result (any D) :=
  match EntitlementsConfig_Features entitlements !! featureKey with
  | None => config_error ("plans." +:+ key +:+ " references unknown feature '" +:+ featureKey +:+ "'")
  | Some definition => validatePlanFeatureValue value definition (path +:+ ".features." +:+ featureKey)
  end.

(** A reference to a policy, which must exist. *)
Definition policy_reference {A} (policies : gmap string A) raw key path : result (option string) :=
  policy <- configOptionalString raw key (path +:+ "." +:+ key) ;;
  match policy with
  | None => Ok None
  | Some name =>
      match policies !! name with
      | None => config_error (path +:+ "." +:+ key +:+ " references unknown policy")
      | Some _ => Ok (Some name)
      end
  end.

(** A plan's allowance, whose priority no bucket may have. *)
Definition parse_plan_allowance (credits : CreditsConfig D) key path value : result (CreditAllowance D) :=
  parsed <- parseCreditAllowance (path +:+ ".credit_allowance") value ;;
  match mapBucketPriorities (CreditsConfig_Buckets credits) !! CreditAllowance_Priority parsed with
  | Some _ => config_error ("plans." +:+ key +:+
                ".credit_allowance.priority conflicts with credit bucket priority " +:+
                itoa (CreditAllowance_Priority parsed))
  | None =>
      match CreditsConfig_DefaultBucket credits with
      | None => config_error ("plans." +:+ key +:+ ".credit_allowance requires credits.default_bucket")
      | Some _ => Ok parsed
      end
  end.

(** How a plan's new versions reach its subscribers. *)
Definition parse_rollout (subscriptionPlans : gmap string unit) key path (planRaw : gmap string (any D))
    : result string :=
  let subscriptionBacked := bool_decide (is_Some (subscriptionPlans !! key)) in
  defaultRollout <- optional (if subscriptionBacked then "next_renewal" else "immediate")
    (fun input =>
       evolution <- configObject input (path +:+ ".evolution") ;;
       configString (field evolution "default_rollout") (path +:+ ".evolution.default_rollout"))
    planRaw "evolution" ;;
  if negb ((defaultRollout =? "immediate") || (defaultRollout =? "next_renewal")
           || (defaultRollout =? "new_assignments_only"))
  then config_error (path +:+ ".evolution.default_rollout is invalid")
  else if (defaultRollout =? "next_renewal") && negb subscriptionBacked
  then config_error (path +:+ ".evolution.default_rollout=next_renewal requires a subscription offer")
  else Ok defaultRollout.

(** The body of the loop over plans. *)
Definition parse_plan (pricing : option (PricingConfig D)) (credits : CreditsConfig D)
    (entitlements : EntitlementsConfig D) (admission : AdmissionConfig)
    (subscriptionPlans : gmap string unit) key value : result (PlanDefinition D) :=
  let path := "plans." +:+ key in
  planRaw <- configObject value path ;;
  displayName <- configString (field planRaw "display_name") (path +:+ ".display_name") ;;
  rank <- optional 0 (fun input => configInteger input (path +:+ ".rank")) planRaw "rank" ;;
  description <- configOptionalString planRaw "description" (path +:+ ".description") ;;
  rateCard <- configOptionalString planRaw "rate_card" (path +:+ ".rate_card") ;;
  check_rate_card pricing key rateCard ;;;
  allowedOperations <- optional []
    (fun input => configSliceStrings input (path +:+ ".allowed_operations")) planRaw "allowed_operations" ;;
  check_operations pricing key path rateCard [] allowedOperations ;;;
  featuresRaw <- configMap planRaw "features" (path +:+ ".features") ;;
  validateConfigIdentifiers featuresRaw (path +:+ ".features") ;;;
  features <- parse_range (parse_plan_feature entitlements key path) featuresRaw ;;
  quotasRaw <- configMap planRaw "quotas" (path +:+ ".quotas") ;;
  validateConfigIdentifiers quotasRaw (path +:+ ".quotas") ;;;
  quotas <- parse_range (fun quotaKey => parseQuota pricing (path +:+ ".quotas." +:+ quotaKey)) quotasRaw ;;
  creditPolicy <- policy_reference (CreditsConfig_Policies credits) planRaw "credit_policy" path ;;
  admissionPolicy <- policy_reference (AdmissionConfig_Policies admission) planRaw "admission_policy" path ;;
  allowance <- optional_pointer (parse_plan_allowance credits key path) planRaw "credit_allowance" ;;
  defaultRollout <- parse_rollout subscriptionPlans key path planRaw ;;
  Ok {| PlanDefinition_DisplayName := displayName; PlanDefinition_Rank := rank;
        PlanDefinition_Description := description; PlanDefinition_RateCard := rateCard;
        PlanDefinition_AllowedOperations := allowedOperations; PlanDefinition_Features := features;
        PlanDefinition_CreditAllowance := allowance; PlanDefinition_Quotas := quotas;
        PlanDefinition_CreditPolicy := creditPolicy; PlanDefinition_AdmissionPolicy := admissionPolicy;
        PlanDefinition_Evolution := {| PlanEvolution_DefaultRollout := defaultRollout |} |}.

Definition parsePlans value (pricing : option (PricingConfig D)) (credits : CreditsConfig D)
    (entitlements : EntitlementsConfig D) (admission : AdmissionConfig) (commerce : CommerceConfig D)
    : result (gmap string (PlanDefinition D)) :=
  match value with
  | ANil => Ok ∅
  | _ =>
      raw <- configObject value "plans" ;;
      validateConfigIdentifiers raw "plans" ;;;
      parse_entries (parse_plan pricing credits entitlements admission
        (subscription_plans (CommerceConfig_Offers commerce))) raw
  end.
End plans.
