(* ===== verification/ConfigCommerce.v ===== *)
(** * config.go, lines 2341-2823: offers and recharge guardrails

    The set [seenProviderObjects] that the offers of a catalog share is
    threaded through their parsers. *)

From S2P Require Export ConfigPlans.
Local Open Scope Z_scope.
Local Open Scope go_scope.

Section commerce.
Context {D : Type} `{DecimalOps D} `{RangeOrder} `{TimeZones} `{Regexps}.
Implicit Types (value : any D) (raw : gmap string (any D)) (path key : string).

Definition parse_provider key value : result ProviderDefinition :=
  let path := "commerce.providers." +:+ key in
  providerRaw <- configObject value path ;;
  typeValue <- configString (field providerRaw "type") (path +:+ ".type") ;;
  if typeValue =? "custom" then
    adapter <- configString (field providerRaw "adapter") (path +:+ ".adapter") ;;
    Ok {| ProviderDefinition_Type := typeValue; ProviderDefinition_Adapter := Some adapter |}
  else Ok {| ProviderDefinition_Type := typeValue; ProviderDefinition_Adapter := None |}.

Definition provider_reference (type_ : string) (priceID productID objectKind externalID : option string)
    : ProviderReference :=
  {| ProviderReference_Type := type_; ProviderReference_PriceID := priceID;
     ProviderReference_ProductID := productID; ProviderReference_ObjectKind := objectKind;
     ProviderReference_ExternalID := externalID |}.

Definition parseProviderReference value path : result ProviderReference :=
  raw <- configObject value path ;;
  typeValue <- configString (field raw "type") (path +:+ ".type") ;;
  if typeValue =? "stripe_price" then
    priceID <- configString (field raw "price_id") (path +:+ ".price_id") ;;
    Ok (provider_reference typeValue (Some priceID) None None None)
  else if typeValue =? "dodo_product" then
    productID <- configString (field raw "product_id") (path +:+ ".product_id") ;;
    Ok (provider_reference typeValue None (Some productID) None None)
  else if typeValue =? "custom_object" then
    objectKind <- configString (field raw "object_kind") (path +:+ ".object_kind") ;;
    externalID <- configString (field raw "external_id") (path +:+ ".external_id") ;;
    Ok (provider_reference typeValue None None (Some objectKind) (Some externalID))
  else config_error (path +:+ ".type is invalid").

Definition providerReferenceExternalID (reference : ProviderReference) : string :=
  match ProviderReference_PriceID reference, ProviderReference_ProductID reference,
        ProviderReference_ExternalID reference with
  | Some id, _, _ => id
  | None, Some id, _ => id
  | None, None, Some id => id
  | None, None, None => ""
  end.

Definition providerReferenceCompatible (provider : ProviderDefinition) (reference : ProviderReference) : bool :=
  (ProviderDefinition_Type provider =? "stripe") && (ProviderReference_Type reference =? "stripe_price")
  || (ProviderDefinition_Type provider =? "dodo") && (ProviderReference_Type reference =? "dodo_product")
  || (ProviderDefinition_Type provider =? "custom") && (ProviderReference_Type reference =? "custom_object").

(** The references parsed so far and the provider objects seen. *)
Definition references_state : Type := gmap string ProviderReference * gmap string unit.

(** The body of the loop over an offer's provider references. *)
Definition parse_reference (providers : gmap string ProviderDefinition) path (st : references_state)
    (entry : string * any D) : result references_state :=
  let '(providerKey, input) := entry in
  let '(references, seen) := st in
  match providers !! providerKey with
  | None => config_error (path +:+ " references unknown provider")
  | Some provider =>
      reference <- parseProviderReference input (path +:+ ".providers." +:+ providerKey) ;;
      if negb (providerReferenceCompatible provider reference)
      then config_error (path +:+ " has incompatible provider reference")
      else
        let uniqueKey := providerKey +:+ "/" +:+ providerReferenceExternalID reference in
        match seen !! uniqueKey with
        | Some _ => config_error ("duplicate provider object reference " +:+ uniqueKey)
        | None => Ok (<[providerKey := reference]> references, <[uniqueKey := tt]> seen)
        end
  end.

Definition parse_price value path : result OfferPrice :=
  priceRaw <- configObject value (path +:+ ".price") ;;
  amountMinor <- configInt64 (field priceRaw "amount_minor") (path +:+ ".price.amount_minor") ;;
  currency <- configString (field priceRaw "currency") (path +:+ ".price.currency") ;;
  if negb (matches_currency currency)
  then config_error (path +:+ ".price.currency must be an uppercase ISO-4217 currency code")
  else
    taxBehavior <- optional "unspecified"
      (fun input => configString input (path +:+ ".price.tax_behavior")) priceRaw "tax_behavior" ;;
    Ok {| OfferPrice_AmountMinor := amountMinor; OfferPrice_Currency := currency;
          OfferPrice_TaxBehavior := taxBehavior |}.

Definition parseOfferQuantity value path : result OfferQuantity :=
  match value with
  | ANil => Ok {| OfferQuantity_Minimum := 1; OfferQuantity_Maximum := 1; OfferQuantity_Default := 1 |}
  | _ =>
      raw <- configObject value path ;;
      minimum <- optional 1 (fun input => configInteger input (path +:+ ".minimum")) raw "minimum" ;;
      maximum <- optional 1 (fun input => configInteger input (path +:+ ".maximum")) raw "maximum" ;;
      defaultValue <- optional 1 (fun input => configInteger input (path +:+ ".default")) raw "default" ;;
      if (maximum <? minimum) || (defaultValue <? minimum) || (maximum <? defaultValue)
      then config_error (path +:+ " requires minimum <= default <= maximum")
      else Ok {| OfferQuantity_Minimum := minimum; OfferQuantity_Maximum := maximum;
                 OfferQuantity_Default := defaultValue |}
  end.

Definition parseCycleGrant value path (credits : CreditsConfig D) : result (CycleGrant D) :=
  raw <- configObject value path ;;
  amount <- configDecimal (field raw "amount") (path +:+ ".amount") ;;
  bucket <- configString (field raw "bucket") (path +:+ ".bucket") ;;
  match CreditsConfig_Buckets credits !! bucket with
  | None => config_error (path +:+ " references unknown bucket")
  | Some _ =>
      renewal <- configString (field raw "renewal") (path +:+ ".renewal") ;;
      let expiryInput := default (AMap {[ "type" := AString "subscription_end" ]}) (present raw "expiry") in
      expiry <- parseExpiry expiryInput (path +:+ ".expiry") ;;
      Ok {| CycleGrant_Amount := amount; CycleGrant_Bucket := bucket;
            CycleGrant_Renewal := renewal; CycleGrant_Expiry := expiry |}
  end.

(** The fields every offer has. *)
Definition base_offer (type_ displayName : string) (description : option string) (sortOrder : Z)
    (availability : option Availability) (price : OfferPrice)
    (references : gmap string ProviderReference) : CommerceOffer D :=
  {| CommerceOffer_Type := type_; CommerceOffer_DisplayName := displayName;
     CommerceOffer_Description := description; CommerceOffer_SortOrder := sortOrder;
     CommerceOffer_Availability := availability; CommerceOffer_Price := price;
     CommerceOffer_Providers := references; CommerceOffer_Plan := None;
     CommerceOffer_BillingInterval := None; CommerceOffer_Trial := None;
     CommerceOffer_CycleGrant := None; CommerceOffer_CreditsPerUnit := None;
     CommerceOffer_Quantity := None; CommerceOffer_Bucket := None; CommerceOffer_Expiry := None;
     CommerceOffer_LotBehavior := "" |}.

(** The [case "subscription"]. *)
Definition parse_subscription raw path (credits : CreditsConfig D) (offer : CommerceOffer D)
    : result (CommerceOffer D) :=
  plan <- configString (field raw "plan") (path +:+ ".plan") ;;
  billingInterval <- parseBillingInterval (field raw "billing_interval") (path +:+ ".billing_interval") ;;
  trial <- optional_pointer (fun input => parseBillingInterval input (path +:+ ".trial")) raw "trial" ;;
  cycleGrant <- optional_pointer (fun input => parseCycleGrant input (path +:+ ".cycle_grant") credits)
                  raw "cycle_grant" ;;
  Ok {| CommerceOffer_Type := CommerceOffer_Type offer;
        CommerceOffer_DisplayName := CommerceOffer_DisplayName offer;
        CommerceOffer_Description := CommerceOffer_Description offer;
        CommerceOffer_SortOrder := CommerceOffer_SortOrder offer;
        CommerceOffer_Availability := CommerceOffer_Availability offer;
        CommerceOffer_Price := CommerceOffer_Price offer;
        CommerceOffer_Providers := CommerceOffer_Providers offer;
        CommerceOffer_Plan := Some plan; CommerceOffer_BillingInterval := Some billingInterval;
        CommerceOffer_Trial := trial; CommerceOffer_CycleGrant := cycleGrant;
        CommerceOffer_CreditsPerUnit := None; CommerceOffer_Quantity := None;
        CommerceOffer_Bucket := None; CommerceOffer_Expiry := None;
        CommerceOffer_LotBehavior := "" |}.

(** The [case "topup"]. *)
Definition parse_topup raw path (credits : CreditsConfig D) (offer : CommerceOffer D)
    : result (CommerceOffer D) :=
  creditsPerUnit <- configDecimal (field raw "credits_per_unit") (path +:+ ".credits_per_unit") ;;
  bucket <- configString (field raw "bucket") (path +:+ ".bucket") ;;
  match CreditsConfig_Buckets credits !! bucket with
  | None => config_error (path +:+ ".bucket references unknown bucket")
  | Some _ =>
      quantity <- parseOfferQuantity (field raw "quantity") (path +:+ ".quantity") ;;
      lotBehavior <- optional "separate_lots" (fun input => configString input (path +:+ ".lot_behavior"))
                       raw "lot_behavior" ;;
      expiry <- optional_pointer (fun input =>
        expiry <- parseExpiry input (path +:+ ".expiry") ;;
        if ExpiryPolicy_Type expiry =? "subscription_end"
        then config_error (path +:+ " top-up cannot use subscription_end expiry")
        else Ok expiry) raw "expiry" ;;
      Ok {| CommerceOffer_Type := CommerceOffer_Type offer;
            CommerceOffer_DisplayName := CommerceOffer_DisplayName offer;
            CommerceOffer_Description := CommerceOffer_Description offer;
            CommerceOffer_SortOrder := CommerceOffer_SortOrder offer;
            CommerceOffer_Availability := CommerceOffer_Availability offer;
            CommerceOffer_Price := CommerceOffer_Price offer;
            CommerceOffer_Providers := CommerceOffer_Providers offer;
            CommerceOffer_Plan := None; CommerceOffer_BillingInterval := None;
            CommerceOffer_Trial := None; CommerceOffer_CycleGrant := None;
            CommerceOffer_CreditsPerUnit := Some creditsPerUnit; CommerceOffer_Quantity := Some quantity;
            CommerceOffer_Bucket := Some bucket; CommerceOffer_Expiry := expiry;
            CommerceOffer_LotBehavior := lotBehavior |}
  end.

Definition parseCommerceOffer key value (providers : gmap string ProviderDefinition)
    (credits : CreditsConfig D) (seenProviderObjects : gmap string unit)
    : result (CommerceOffer D * gmap string unit) :=
  let path := "commerce.offers." +:+ key in
  raw <- configObject value path ;;
  typeValue <- configString (field raw "type") (path +:+ ".type") ;;
  displayName <- configString (field raw "display_name") (path +:+ ".display_name") ;;
  description <- configOptionalString raw "description" (path +:+ ".description") ;;
  sortOrder <- optional 0 (fun input => configInteger input (path +:+ ".sort_order")) raw "sort_order" ;;
  availability <- optional_pointer (fun input => parseAvailability input (path +:+ ".availability"))
                    raw "availability" ;;
  price <- parse_price (field raw "price") path ;;
  referencesRaw <- configObject (field raw "providers") (path +:+ ".providers") ;;
  '(references, seen) <- fold_result (parse_reference providers path) (∅, seenProviderObjects)
                           (range referencesRaw) ;;
  let offer := base_offer typeValue displayName description sortOrder availability price references in
  offer <- (if typeValue =? "subscription" then parse_subscription raw path credits offer
            else if typeValue =? "topup" then parse_topup raw path credits offer
            else config_error (path +:+ ".type is invalid")) ;;
  Ok (offer, seen).

(** The loop over the four classifications, in the order of the literal. *)
Definition parse_change raw (policies : gmap string SubscriptionChangePolicy) (classification : string)
    : result (gmap string SubscriptionChangePolicy) :=
  match present raw classification with
  | None => Ok policies
  | Some input =>
      let path := "commerce.subscription_changes." +:+ classification in
      policyRaw <- configObject input path ;;
      effective <- configString (field policyRaw "effective") (path +:+ ".effective") ;;
      proration <- configString (field policyRaw "proration") (path +:+ ".proration") ;;
      paymentFailure <- optional "prevent_change"
        (fun candidate => configString candidate (path +:+ ".payment_failure")) policyRaw "payment_failure" ;;
      Ok (<[classification :=
             {| SubscriptionChangePolicy_Effective := effective;
                SubscriptionChangePolicy_Proration := proration;
                SubscriptionChangePolicy_PaymentFailure := paymentFailure |}]> policies)
  end.

Definition parseSubscriptionChanges value : result (gmap string SubscriptionChangePolicy) :=
  match value with
  | ANil => Ok ∅
  | _ =>
      raw <- configObject value "commerce.subscription_changes" ;;
      fold_result (parse_change raw) ∅ ["upgrade"; "downgrade"; "lateral"; "cadence_change"]
  end.

(** The loop over the eligible top-ups: they exist and share a currency. *)
Definition eligible_currency (offers : gmap string (CommerceOffer D)) (currency key : string)
    : result string :=
  let refused := config_error ("commerce.auto_recharge references non-top-up offer '" +:+ key +:+ "'") in
  match offers !! key with
  | None => refused
  | Some offer =>
      if negb (CommerceOffer_Type offer =? "topup") then refused
      else
        let offered := OfferPrice_Currency (CommerceOffer_Price offer) in
        if currency =? "" then Ok offered
        else if negb (currency =? offered)
        then config_error "commerce.auto_recharge eligible top-ups must use one currency"
        else Ok currency
  end.

(** The recharge quantity fits the quantity of an eligible offer. *)
Definition quantity_fits (offers : gmap string (CommerceOffer D)) (quantity : OfferQuantity) (key : string)
    : result unit :=
  let refused := config_error ("commerce.auto_recharge.quantity must fit commerce.offers." +:+ key +:+
                   ".quantity") in
  match offers !! key ≫= CommerceOffer_Quantity with
  | None => refused
  | Some offered =>
      if (OfferQuantity_Minimum quantity <? OfferQuantity_Minimum offered)
         || (OfferQuantity_Maximum offered <? OfferQuantity_Maximum quantity)
      then refused else Ok tt
  end.

Definition parse_balance_below value : result (DecimalRange D) :=
  let path := "commerce.auto_recharge.balance_below" in
  thresholdRaw <- configObject value path ;;
  minimum <- configDecimal (field thresholdRaw "minimum") (path +:+ ".minimum") ;;
  maximum <- configDecimal (field thresholdRaw "maximum") (path +:+ ".maximum") ;;
  defaultValue <- configDecimal (field thresholdRaw "default") (path +:+ ".default") ;;
  if GreaterThan minimum maximum || LessThan defaultValue minimum || GreaterThan defaultValue maximum
  then config_error (path +:+ " requires minimum <= default <= maximum")
  else Ok {| DecimalRange_Minimum := minimum; DecimalRange_Maximum := maximum;
             DecimalRange_Default := defaultValue |}.

Definition parse_limits value : result AutoRechargeLimits :=
  let path := "commerce.auto_recharge.limits" in
  limitsRaw <- configObject value path ;;
  maxPurchases <- configInteger (field limitsRaw "max_purchases") (path +:+ ".max_purchases") ;;
  window <- parseWindow (field limitsRaw "window") (path +:+ ".window") ;;
  if Window_Type window =? "plan_assignment"
  then config_error (path +:+ ".window must be calendar or rolling")
  else
    maxChargeMinor <- configInt64 (field limitsRaw "max_charge_minor") (path +:+ ".max_charge_minor") ;;
    cooldown <- parseDuration (field limitsRaw "cooldown") (path +:+ ".cooldown") ;;
    maxConsecutiveFailures <- optional 3
      (fun input => configInteger input (path +:+ ".max_consecutive_failures"))
      limitsRaw "max_consecutive_failures" ;;
    Ok {| AutoRechargeLimits_MaxPurchases := maxPurchases; AutoRechargeLimits_Window := window;
          AutoRechargeLimits_MaxChargeMinor := maxChargeMinor; AutoRechargeLimits_Cooldown := cooldown;
          AutoRechargeLimits_MaxConsecutiveFailure := maxConsecutiveFailures;
          AutoRechargeLimits_FailureAction := "pause" |}.

Definition parseAutoRecharge value (offers : gmap string (CommerceOffer D))
    : result (AutoRechargeGuardrails D) :=
  raw <- configObject value "commerce.auto_recharge" ;;
  eligibleTopups <- configSliceStrings (field raw "eligible_topups") "commerce.auto_recharge.eligible_topups" ;;
  fold_result (eligible_currency offers) "" eligibleTopups ;;;
  balanceBelow <- parse_balance_below (field raw "balance_below") ;;
  rearmAbove <- configDecimal (field raw "rearm_above") "commerce.auto_recharge.rearm_above" ;;
  if negb (GreaterThan rearmAbove (DecimalRange_Maximum balanceBelow))
  then config_error "commerce.auto_recharge.rearm_above must exceed balance_below.maximum"
  else
    quantity <- parseOfferQuantity (field raw "quantity") "commerce.auto_recharge.quantity" ;;
    for_each (quantity_fits offers quantity) eligibleTopups ;;;
    limits <- parse_limits (field raw "limits") ;;
    Ok {| AutoRechargeGuardrails_EligibleTopups := eligibleTopups;
          AutoRechargeGuardrails_BalanceBelow := balanceBelow;
          AutoRechargeGuardrails_RearmAbove := rearmAbove;
          AutoRechargeGuardrails_Quantity := quantity; AutoRechargeGuardrails_Limits := limits |}.

(** The loop over the offers, with the provider objects they share. *)
Definition parse_offers (providers : gmap string ProviderDefinition) (credits : CreditsConfig D)
    (offersRaw : gmap string (any D)) : result (gmap string (CommerceOffer D) * gmap string unit) :=
  fold_result (fun '(offers, seen) key =>
    '(offer, seen) <- parseCommerceOffer key (field offersRaw key) providers credits seen ;;
    Ok (<[key := offer]> offers, seen)) (∅, ∅) (sortedConfigKeys offersRaw).

Definition parseCommerce value (credits : CreditsConfig D) : result (CommerceConfig D) :=
  match value with
  | ANil => Ok {| CommerceConfig_Providers := ∅; CommerceConfig_Offers := ∅;
                  CommerceConfig_SubscriptionChanges := ∅; CommerceConfig_AutoRecharge := None |}
  | _ =>
      raw <- configObject value "commerce" ;;
      providersRaw <- configMap raw "providers" "commerce.providers" ;;
      offersRaw <- configMap raw "offers" "commerce.offers" ;;
      validateConfigIdentifiers providersRaw "commerce.providers" ;;;
      validateConfigIdentifiers offersRaw "commerce.offers" ;;;
      providers <- parse_entries parse_provider providersRaw ;;
      '(offers, _) <- parse_offers providers credits offersRaw ;;
      subscriptionChanges <- parseSubscriptionChanges (field raw "subscription_changes") ;;
      autoRecharge <- optional_pointer (fun input => parseAutoRecharge input offers) raw "auto_recharge" ;;
      Ok {| CommerceConfig_Providers := providers; CommerceConfig_Offers := offers;
            CommerceConfig_SubscriptionChanges := subscriptionChanges;
            CommerceConfig_AutoRecharge := autoRecharge |}
  end.
End commerce.
