(* ===== verification/ConfigLoad.v ===== *)
(** * config.go, lines 385-632, 1007-1091, 2828-2910: loading a catalog

    [encoding/json] hands [decodeJSONValue] a stream of tokens, modelled as a
    list; [yaml.v3] a tree of nodes.  The JSON Schema validator with the
    embedded schema is the parameter [SchemaValidate]. *)

From S2P Require Export ConfigCommerce.
Local Open Scope Z_scope.
Local Open Scope go_scope.

(** The tokens of [json.Decoder.Token], scalars as the dynamic values they are. *)
Inductive json_token {D : Type} :=
  | Delim (d : ascii)
  | Scalar (v : any D).
Arguments json_token : clear implicits.

(** [yaml.Node]: the kinds [validateYAMLNode] tells apart. *)
Inductive yaml_node :=
  | DocumentNode (content : list yaml_node)
  | AliasNode
  | MappingNode (content : list (yaml_node * yaml_node))   (* keys and values, in pairs *)
  | SequenceNode (content : list yaml_node)
  | ScalarNode (tag text : string).

(** The result of validating a document against the embedded schema: the text
    of the failure, if any. *)
Class Schema (D : Type) := { SchemaValidate : gmap string (any D) -> option string }.

Section load.
Context {D : Type} `{DecimalOps D} `{RangeOrder} `{TimeZones} `{Regexps} `{Schema D}.
Implicit Types (value : any D) (raw : gmap string (any D)) (path key : string).

(** [decoder.Token()]: the next token, or [io.EOF]. *)
Definition Token (tokens : list (json_token D)) : result (json_token D * list (json_token D)) :=
  match tokens with
  | [] => Err (ExternalError "EOF")
  | token :: rest => Ok (token, rest)
  end.

(** [decoder.More()]: the container is not over. *)
Definition More (tokens : list (json_token D)) : bool :=
  match tokens with
  | [] => false
  | Delim d :: _ => negb (Ascii.eqb d "]") && negb (Ascii.eqb d "}")
  | Scalar _ :: _ => true
  end.

(** The token that must close a container. *)
Definition close (d : ascii) (message : string) (tokens : list (json_token D))
    : result (list (json_token D)) :=
  '(end_, rest) <- Token tokens ;;
  match end_ with
  | Delim c => if Ascii.eqb c d then Ok rest else Err (ExternalError message)
  | Scalar _ => Err (ExternalError message)
  end.

Section containers.
(** [decodeJSONValue] on less fuel. *)
Variable decode : list (json_token D) -> result (any D * list (json_token D)).

(** [for decoder.More() { ... }] of an object. *)
Fixpoint decode_members (fuel : nat) (members : gmap string (any D)) (tokens : list (json_token D))
    : result (gmap string (any D) * list (json_token D)) :=
  if negb (More tokens) then Ok (members, tokens)
  else match fuel with
  | O => Err FuelExhausted
  | S fuel' =>
      '(keyToken, tokens) <- Token tokens ;;
      match keyToken with
      | Scalar (AString key) =>
          match members !! key with
          | Some _ => Err (ExternalError ("duplicate JSON key " +:+ key))
          | None =>
              '(v, tokens) <- decode tokens ;;
              decode_members fuel' (<[key := v]> members) tokens
          end
      | _ => Err (ExternalError "JSON object key is not a string")
      end
  end.

(** [for decoder.More() { ... }] of an array. *)
Fixpoint decode_elements (fuel : nat) (items : list (any D)) (tokens : list (json_token D))
    : result (list (any D) * list (json_token D)) :=
  if negb (More tokens) then Ok (items, tokens)
  else match fuel with
  | O => Err FuelExhausted
  | S fuel' =>
      '(v, tokens) <- decode tokens ;;
      decode_elements fuel' (items ++ [v]) tokens
  end.
End containers.

(** Every call reads a token, so the number of tokens bounds the nesting and
    the loops alike. *)
Fixpoint decodeJSONValue (fuel : nat) (tokens : list (json_token D))
    : result (any D * list (json_token D)) :=
  match fuel with
  | O => Err FuelExhausted
  | S fuel' =>
      '(token, tokens) <- Token tokens ;;
      match token with
      | Scalar v => Ok (v, tokens)
      | Delim delimiter =>
          if Ascii.eqb delimiter "{" then
            '(members, tokens) <- decode_members (decodeJSONValue fuel') (length tokens) ∅ tokens ;;
            tokens <- close "}" "expected JSON object terminator" tokens ;;
            Ok (AMap members, tokens)
          else if Ascii.eqb delimiter "[" then
            '(items, tokens) <- decode_elements (decodeJSONValue fuel') (length tokens) [] tokens ;;
            tokens <- close "]" "expected JSON array terminator" tokens ;;
            Ok (ASlice items, tokens)
          else Err (ExternalError ("unexpected JSON delimiter " +:+ String delimiter ""))
      end
  end.

Definition validateConfigStructure (data : gmap string (any D)) : result unit :=
  match SchemaValidate data with
  | Some text => config_error_from "configuration does not match the Bursar schema" text
  | None => Ok tt
  end.

(** The check of one mapping: keys are strings, met once. *)
Fixpoint validateYAMLNode (node : yaml_node) : result unit :=
  match node with
  | DocumentNode content | SequenceNode content => for_each validateYAMLNode content
  | AliasNode => config_error "YAML aliases are not supported in configuration"
  | MappingNode content =>
      (fix loop (keys : list string) (content : list (yaml_node * yaml_node)) : result unit :=
         match content with
         | [] => Ok tt
         | (key, child) :: rest =>
             match key with
             | ScalarNode tag text =>
                 if negb (tag =? "!!str") then config_error "YAML configuration keys must be strings"
                 else if existsb (String.eqb text) keys
                 then config_error ("YAML configuration contains duplicate key " +:+ text)
                 else validateYAMLNode child ;;; loop (text :: keys) rest
             | _ => config_error "YAML configuration keys must be strings"
             end
         end) [] content
  | ScalarNode _ _ => Ok tt
  end.

(** The cross-checks of [parseBursarConfig] once every part is read. *)
Definition check_admission (pricing : option (PricingConfig D)) (admission : AdmissionConfig) : result unit :=
  match pricing with
  | None => Ok tt
  | Some pricing =>
      for_each (fun '(policyKey, policy) =>
        for_each (fun '(operation, _) =>
          match PricingConfig_Operations pricing !! operation with
          | None => config_error ("admission policy '" +:+ policyKey +:+
                      "' references unknown operation " +:+ operation)
          | Some _ => Ok tt
          end) (range (AdmissionPolicy_Operations policy)))
        (range (AdmissionConfig_Policies admission))
  end.

(** A subscription offer names a plan; the zero [PlanDefinition] of a missing
    plan is recognised by its empty display name. *)
Definition check_offers (offers : gmap string (CommerceOffer D)) (plans : gmap string (PlanDefinition D))
    : result unit :=
  for_each (fun '(offerKey, offer) =>
    let known :=
      match CommerceOffer_Plan offer with
      | None => false
      | Some plan => negb (from_option PlanDefinition_DisplayName "" (plans !! plan) =? "")
      end in
    if (CommerceOffer_Type offer =? "subscription") && negb known
    then config_error ("commerce.offers." +:+ offerKey +:+ ".plan references unknown plan")
    else Ok tt) (range offers).

Definition check_programs (programs : gmap string (GrantProgram D)) (plans : gmap string (PlanDefinition D))
    : result unit :=
  for_each (fun '(programKey, program) =>
    for_each (fun plan =>
      match plans !! plan with
      | None => config_error ("grant program '" +:+ programKey +:+ "' references unknown plans " +:+ plan)
      | Some _ => Ok tt
      end) (GrantProgram_EligibilityPlans program)) (range programs).

Definition check_default_plan (defaultPlan : option string) (plans : gmap string (PlanDefinition D))
    : result unit :=
  match defaultPlan with
  | Some plan =>
      match plans !! plan with
      | None => config_error ("catalog.default_plan references unknown plan '" +:+ plan +:+ "'")
      | Some _ => Ok tt
      end
  | None =>
      if (0 <? size plans)%nat
      then config_error "catalog.default_plan is required when plans are configured"
      else Ok tt
  end.

Definition parseBursarConfig raw : result (BursarConfig D) :=
  version <- configInteger (field raw "version") "version" ;;
  if negb (version =? 1)%Z then config_error "version must equal 1"
  else
    catalogRaw <- configMap raw "catalog" "catalog" ;;
    defaultPlan <- configOptionalString catalogRaw "default_plan" "catalog.default_plan" ;;
    credits <- parseCredits (field raw "credits") ;;
    entitlements <- parseEntitlements (field raw "entitlements") ;;
    admission <- parseAdmission (field raw "admission") ;;
    pricing <- optional_pointer parsePricing raw "pricing" ;;
    check_admission pricing admission ;;;
    commerce <- parseCommerce (field raw "commerce") credits ;;
    plans <- parsePlans (field raw "plans") pricing credits entitlements admission commerce ;;
    check_offers (CommerceConfig_Offers commerce) plans ;;;
    check_programs (CreditsConfig_GrantPrograms credits) plans ;;;
    check_default_plan defaultPlan plans ;;;
    Ok {| BursarConfig_Version := 1;
          BursarConfig_Catalog := {| CatalogConfig_DefaultPlan := defaultPlan |};
          BursarConfig_Pricing := pricing; BursarConfig_Credits := credits;
          BursarConfig_Entitlements := entitlements; BursarConfig_Admission := admission;
          BursarConfig_Plans := plans; BursarConfig_Commerce := commerce |}.

(** [None] is the nil map. *)
Definition LoadConfigFromMap (data : option (gmap string (any D))) : result (BursarConfig D) :=
  match data with
  | None => config_error "configuration must be an object"
  | Some data =>
      let normalized := canonicalJSONMap data in
      validateConfigStructure normalized ;;;
      parseBursarConfig normalized
  end.

(** [LoadConfigJSON] from the decoder's tokens on. *)
Definition LoadConfigJSON (tokens : list (json_token D)) : result (BursarConfig D) :=
  match decodeJSONValue (S (length tokens)) tokens with
  | Err cause => Err (newConfigError "invalid JSON configuration" (Some cause))
  | Ok (raw, rest) =>
      match rest with
      | _ :: _ => config_error "invalid JSON configuration: trailing content"
      | [] =>
          match raw with
          | AMap object => LoadConfigFromMap (Some object)
          | _ => config_error "configuration must be an object"
          end
      end
  end.

(** One field of a rollout policy. *)
Definition known_rollout_field path (entry : string * any D) : result unit :=
  let '(name, _) := entry in
  if negb ((name =? "effective") || (name =? "include_pinned") || (name =? "includePinned"))
  then config_error (path +:+ " contains unknown field '" +:+ name +:+ "'")
  else Ok tt.

Definition parse_plan_rollout key value : result PlanRollout :=
  let path := "rollout.plans." +:+ key in
  validateConfigIdentifier key path ;;;
  raw <- configObject value path ;;
  for_each (known_rollout_field path) (range raw) ;;;
  effective <- configString (field raw "effective") (path +:+ ".effective") ;;
  if negb ((effective =? "immediate") || (effective =? "next_renewal")
           || (effective =? "new_assignments_only"))
  then config_error (path +:+ ".effective must be immediate, next_renewal, or new_assignments_only")
  else
    match raw !! "include_pinned", raw !! "includePinned" with
    | Some _, Some _ => config_error (path +:+ " must not set both include_pinned and includePinned")
    | _, _ =>
        includePinned <-
          (match present raw "include_pinned" with
           | Some input => configBool input (path +:+ ".include_pinned")
           | None =>
               match present raw "includePinned" with
               | Some input => configBool input (path +:+ ".includePinned")
               | None => Ok false
               end
           end) ;;
        Ok {| PlanRollout_Effective := effective; PlanRollout_IncludePinned := includePinned |}
    end.

Definition LoadCatalogRollout (value : option (gmap string (any D))) : result CatalogRollout :=
  match value with
  | None => Ok {| CatalogRollout_Plans := ∅ |}
  | Some value =>
      for_each (fun '(key, _) =>
        if negb (key =? "plans") then config_error ("rollout contains unknown field '" +:+ key +:+ "'")
        else Ok tt) (range value) ;;;
      plansRaw <- configMap value "plans" "rollout.plans" ;;
      plans <- parse_range parse_plan_rollout plansRaw ;;
      Ok {| CatalogRollout_Plans := plans |}
  end.

Definition check_rollout (config : BursarConfig D) (subscriptionPlans : gmap string unit)
    (entry : string * PlanRollout) : result unit :=
  let '(key, policy) := entry in
  match BursarConfig_Plans config !! key with
  | None => config_error ("rollout.plans references unknown plan '" +:+ key +:+ "'")
  | Some _ =>
      match subscriptionPlans !! key with
      | None =>
          if PlanRollout_Effective policy =? "next_renewal"
          then config_error ("rollout.plans." +:+ key +:+
                 ".effective=next_renewal requires a subscription offer")
          else Ok tt
      | Some _ => Ok tt
      end
  end.

Definition ValidateCatalogRollout (config : option (BursarConfig D)) (rollout : CatalogRollout)
    : result CatalogRollout :=
  match config with
  | None => config_error "catalog configuration is required"
  | Some config =>
      for_each (check_rollout config
          (subscription_plans (CommerceConfig_Offers (BursarConfig_Commerce config))))
        (range (CatalogRollout_Plans rollout)) ;;;
      Ok rollout
  end.
End load.
