(* ===== verification/Canonical.v ===== *)
(** * config.go, lines 2912-3413: the canonical form of a catalog

    Amounts are written at six places.  A [[]string] or [[]int] is an
    [ATypedSlice]; [CanonicalParsedBursarConfigDict] turns them into [[]any]
    at the end, as [canonicalJSONMap] does. *)

From S2P Require Export ConfigLoad.
Local Open Scope Z_scope.
Local Open Scope go_scope.

Section canonical.
Context {D : Type} `{DecimalOps D} `{RangeOrder} `{TimeZones} `{Regexps} `{Schema D}.
Local Notation object := (gmap string (any D)).

Definition amountConfigString (value : D) : string := StringFixed (QuantizeMoney value) MoneyDecimalPlaces.

Definition amount (value : D) : any D := AString (amountConfigString value).
Definition int (value : Z) : any D := AInt KInt value.
Definition strings (values : list string) : any D := ATypedSlice (AString <$> values).

(** [if value != nil { result[key] = f( *value) }] *)
Definition set_optional {A} (key : string) (f : A -> any D) (value : option A) (result : object) : object :=
  match value with
  | Some v => <[key := f v]> result
  | None => result
  end.

Definition canonicalDuration (value : Duration) : object :=
  {[ "unit" := AString (Duration_Unit value); "count" := int (Duration_Count value) ]}.

Definition canonicalInterval (value : BillingInterval) : object :=
  {[ "unit" := AString (BillingInterval_Unit value); "count" := int (BillingInterval_Count value) ]}.

Definition canonicalWindow (value : Window) : object :=
  if Window_Type value =? "rolling" then
    set_optional "duration" (fun d => AMap (canonicalDuration d)) (Window_Duration value)
      {[ "type" := AString "rolling" ]}
  else if Window_Type value =? "plan_assignment" then
    set_optional "interval" (fun i => AMap (canonicalInterval i)) (Window_Interval value)
      {[ "type" := AString "plan_assignment"; "timezone" := AString (Window_Timezone value) ]}
  else {[ "type" := AString "calendar"; "unit" := AString (Window_Unit value);
          "count" := int (Window_Count value); "timezone" := AString (Window_Timezone value) ]}.

Definition canonicalExpiry (value : ExpiryPolicy) : object :=
  let result : object := {[ "type" := AString (ExpiryPolicy_Type value) ]} in
  if ExpiryPolicy_Type value =? "after_grant" then
    <["timezone" := AString (ExpiryPolicy_Timezone value)]>
      (set_optional "interval" (fun i => AMap (canonicalInterval i)) (ExpiryPolicy_Interval value) result)
  else if ExpiryPolicy_Type value =? "end_of_window" then
    set_optional "window" (fun w => AMap (canonicalWindow w)) (ExpiryPolicy_Window value) result
  else if ExpiryPolicy_Type value =? "fixed_at" then
    set_optional "at" AString (ExpiryPolicy_At value) result
  else result.

Definition canonicalAvailability (value : Availability) : object :=
  set_optional "ends_at" AString (Availability_EndsAt value)
    (set_optional "starts_at" AString (Availability_StartsAt value)
      {[ "regions" := strings (Availability_Regions value) ]}).

Definition canonical_bucket (bucket : BucketDefinition) : any D :=
  AMap {[ "priority" := int (BucketDefinition_Priority bucket);
          "expiry" := AMap (canonicalExpiry (BucketDefinition_Expiry bucket)) ]}.

Definition canonical_credit_policy (policy : CreditPolicy D) : any D :=
  AMap (set_optional "limit" amount (CreditPolicy_Limit policy)
    {[ "type" := AString (CreditPolicy_Type policy) ]}).

Definition canonical_award (award : GrantAward D) : any D :=
  AMap (set_optional "expiry" (fun e => AMap (canonicalExpiry e)) (GrantAward_Expiry award)
    {[ "recipient" := AString (GrantAward_Recipient award); "amount" := amount (GrantAward_Amount award);
       "bucket" := AString (GrantAward_Bucket award) ]}).

Definition canonical_program (program : GrantProgram D) : any D :=
  AMap (set_optional "availability" (fun a => AMap (canonicalAvailability a))
    (GrantProgram_Availability program)
    {[ "trigger" := AString (GrantProgram_Trigger program);
       "awards" := ASlice (canonical_award <$> GrantProgram_Awards program);
       "eligibility" := AMap {[ "plans" := strings (GrantProgram_EligibilityPlans program);
                                "regions" := strings (GrantProgram_EligibilityRegions program) ]};
       "max_awards_per_subject" := int (GrantProgram_MaxAwardsPerSubject program);
       "idempotency_scope" := AString (GrantProgram_IdempotencyScope program) ]}).

Definition canonical_display (display : CreditDisplay D) : any D :=
  AMap {[ "currency" := AString (CreditDisplay_Currency display);
          "units_per_major" := amount (CreditDisplay_UnitsPerMajor display) ]}.

Definition canonicalCredits (value : CreditsConfig D) : object :=
  set_optional "display" canonical_display (CreditsConfig_Display value)
    (set_optional "default_bucket" AString (CreditsConfig_DefaultBucket value)
      {[ "buckets" := AMap (canonical_bucket <$> CreditsConfig_Buckets value);
         "policies" := AMap (canonical_credit_policy <$> CreditsConfig_Policies value);
         "grant_programs" := AMap (canonical_program <$> CreditsConfig_GrantPrograms value) ]}).

Definition canonical_feature (definition : FeatureDefinition D) : any D :=
  let entry : object :=
    {[ "type" := AString (FeatureDefinition_Type definition);
       "default" := FeatureDefinition_Default definition ]} in
  let entry :=
    match FeatureDefinition_Values definition with
    | [] => entry
    | values => <["values" := strings values]> entry
    end in
  AMap (set_optional "pattern" AString (FeatureDefinition_Pattern definition)
    (set_optional "maximum" int (FeatureDefinition_Maximum definition)
      (set_optional "minimum" int (FeatureDefinition_Minimum definition) entry))).

Definition canonicalEntitlements (value : EntitlementsConfig D) : object :=
  {[ "features" := AMap (canonical_feature <$> EntitlementsConfig_Features value) ]}.

Definition canonical_admission_policy (policy : AdmissionPolicy) : any D :=
  AMap (set_optional "max_in_flight" int (AdmissionPolicy_MaxInFlight policy)
    {[ "operations" := AMap ((fun definition =>
         AMap {[ "max_in_flight" := int (OperationAdmission_MaxInFlight definition) ]})
           <$> AdmissionPolicy_Operations policy) ]}).

Definition canonicalAdmission (value : AdmissionConfig) : object :=
  {[ "policies" := AMap (canonical_admission_policy <$> AdmissionConfig_Policies value) ]}.

Definition canonicalMatcherScalar (value : MatcherScalar D) : any D :=
  match value with
  | ADecimal d => amount d
  | _ => value
  end.

Definition canonicalMatcher (value : DimensionMatcher D) : object :=
  let op := DimensionMatcher_Op value in
  let result : object := {[ "op" := AString op ]} in
  if (op =? "eq") || (op =? "prefix") then
    <["value" := canonicalMatcherScalar (DimensionMatcher_Value value)]> result
  else if (op =? "in") || (op =? "not_in") then
    <["values" := ASlice (canonicalMatcherScalar <$> DimensionMatcher_Values value)]> result
  else if op =? "range" then
    set_optional "lte" amount (DimensionMatcher_LTE value)
      (set_optional "lt" amount (DimensionMatcher_LT value)
        (set_optional "gte" amount (DimensionMatcher_GTE value)
          (set_optional "gt" amount (DimensionMatcher_GT value) result)))
  else result.

Definition canonical_tier (tier : GraduatedTier D) : any D :=
  AMap (set_optional "up_to" amount (GraduatedTier_UpTo tier)
    {[ "rate" := amount (GraduatedTier_Rate tier) ]}).

Fixpoint canonicalCharge (value : Charge D) : object :=
  let type_ := Charge_Type value in
  let result : object := {[ "type" := AString type_ ]} in
  if type_ =? "flat" then <["amount" := amount (Charge_Amount value)]> result
  else if type_ =? "per_unit" then
    <["unit_size" := amount (Charge_UnitSize value)]>
      (<["rate" := amount (Charge_Rate value)]>
        (<["measure" := AString (Charge_Measure value)]> result))
  else if type_ =? "package" then
    <["rounding" := AString (Charge_Rounding value)]>
      (<["amount" := amount (Charge_Amount value)]>
        (<["units" := amount (Charge_Units value)]>
          (<["measure" := AString (Charge_Measure value)]> result)))
  else if (type_ =? "graduated") || (type_ =? "volume") then
    <["tiers" := ASlice (canonical_tier <$> Charge_Tiers value)]>
      (<["measure" := AString (Charge_Measure value)]> result)
  else if type_ =? "expression" then <["formula" := AString (Charge_Formula value)]> result
  else if type_ =? "sum" then
    <["components" := ASlice ((fun component => AMap (canonicalCharge component))
                                <$> Charge_Components value)]> result
  else result.

Definition canonical_operation (operation : OperationDefinition) : any D :=
  AMap {[ "measures" := AMap ((fun definition =>
            AMap {[ "unit" := AString (MeasureDefinition_Unit definition) ]})
              <$> OperationDefinition_Measures operation);
          "dimensions" := AMap ((fun definition =>
            AMap {[ "type" := AString (DimensionDefinition_Type definition);
                    "required" := ABool (DimensionDefinition_Required definition) ]})
              <$> OperationDefinition_Dimensions operation) ]}.

Definition canonical_rule (rule : PriceRule D) : any D :=
  AMap {[ "when" := AMap ((fun m => AMap (canonicalMatcher m)) <$> PriceRule_When rule);
          "charge" := AMap (canonicalCharge (PriceRule_Charge rule)) ]}.

Definition canonical_operation_pricing (price : OperationPricing D) : any D :=
  let unmatched := OperationPricing_Unmatched price in
  AMap {[ "rules" := ASlice (canonical_rule <$> OperationPricing_Rules price);
          "unmatched" := AMap (set_optional "charge" (fun c => AMap (canonicalCharge c))
            (UnmatchedPolicy_Charge unmatched)
            {[ "action" := AString (UnmatchedPolicy_Action unmatched) ]}) ]}.

Definition canonical_rate_card (card : RateCard D) : any D :=
  AMap (set_optional "extends" AString (RateCard_Extends card)
    {[ "operations" := AMap (canonical_operation_pricing <$> RateCard_Operations card) ]}).

Definition canonicalPricing (value : PricingConfig D) : object :=
  {[ "operations" := AMap (canonical_operation <$> PricingConfig_Operations value);
     "rate_cards" := AMap (canonical_rate_card <$> PricingConfig_RateCards value) ]}.

Definition canonical_quota (quota : QuotaDefinition D) : any D :=
  AMap {[ "operation" := AString (QuotaDefinition_Operation quota);
          "measure" := AString (QuotaDefinition_Measure quota);
          "limit" := amount (QuotaDefinition_Limit quota);
          "window" := AMap (canonicalWindow (QuotaDefinition_Window quota));
          "enforcement" := AString (QuotaDefinition_Enforcement quota);
          "emit_at_percent" := ATypedSlice (int <$> QuotaDefinition_EmitAtPercent quota) ]}.

Definition canonical_allowance (allowance : CreditAllowance D) : any D :=
  AMap {[ "amount" := amount (CreditAllowance_Amount allowance);
          "priority" := int (CreditAllowance_Priority allowance);
          "window" := AMap (canonicalWindow (CreditAllowance_Window allowance)) ]}.

Definition canonical_plan (plan : PlanDefinition D) : any D :=
  AMap (set_optional "admission_policy" AString (PlanDefinition_AdmissionPolicy plan)
    (set_optional "credit_policy" AString (PlanDefinition_CreditPolicy plan)
      (set_optional "credit_allowance" canonical_allowance (PlanDefinition_CreditAllowance plan)
        (set_optional "rate_card" AString (PlanDefinition_RateCard plan)
          (set_optional "description" AString (PlanDefinition_Description plan)
            {[ "display_name" := AString (PlanDefinition_DisplayName plan);
               "rank" := int (PlanDefinition_Rank plan);
               "allowed_operations" := strings (PlanDefinition_AllowedOperations plan);
               "features" := AMap (PlanDefinition_Features plan);
               "quotas" := AMap (canonical_quota <$> PlanDefinition_Quotas plan);
               "evolution" := AMap {[ "default_rollout" :=
                 AString (PlanEvolution_DefaultRollout (PlanDefinition_Evolution plan)) ]} ]}))))).

Definition canonicalPlans (value : gmap string (PlanDefinition D)) : object := canonical_plan <$> value.

Definition canonicalProviderReference (value : ProviderReference) : object :=
  set_optional "external_id" AString (ProviderReference_ExternalID value)
    (set_optional "object_kind" AString (ProviderReference_ObjectKind value)
      (set_optional "product_id" AString (ProviderReference_ProductID value)
        (set_optional "price_id" AString (ProviderReference_PriceID value)
          {[ "type" := AString (ProviderReference_Type value) ]}))).

Definition canonical_provider (provider : ProviderDefinition) : any D :=
  AMap (set_optional "adapter" AString (ProviderDefinition_Adapter provider)
    {[ "type" := AString (ProviderDefinition_Type provider) ]}).

Definition canonical_quantity (quantity : OfferQuantity) : any D :=
  AMap {[ "minimum" := int (OfferQuantity_Minimum quantity);
          "maximum" := int (OfferQuantity_Maximum quantity);
          "default" := int (OfferQuantity_Default quantity) ]}.

Definition canonical_cycle_grant (grant : CycleGrant D) : any D :=
  AMap {[ "amount" := amount (CycleGrant_Amount grant); "bucket" := AString (CycleGrant_Bucket grant);
          "renewal" := AString (CycleGrant_Renewal grant);
          "expiry" := AMap (canonicalExpiry (CycleGrant_Expiry grant)) ]}.

Definition canonical_offer (offer : CommerceOffer D) : any D :=
  let price := CommerceOffer_Price offer in
  let entry : object :=
    {[ "type" := AString (CommerceOffer_Type offer);
       "display_name" := AString (CommerceOffer_DisplayName offer);
       "sort_order" := int (CommerceOffer_SortOrder offer);
       "price" := AMap {[ "amount_minor" := AInt KInt64 (OfferPrice_AmountMinor price);
                          "currency" := AString (OfferPrice_Currency price);
                          "tax_behavior" := AString (OfferPrice_TaxBehavior price) ]};
       "providers" := AMap ((fun r => AMap (canonicalProviderReference r)) <$> CommerceOffer_Providers offer) ]} in
  let entry := set_optional "availability" (fun a => AMap (canonicalAvailability a))
    (CommerceOffer_Availability offer)
    (set_optional "description" AString (CommerceOffer_Description offer) entry) in
  if CommerceOffer_Type offer =? "subscription" then
    AMap (set_optional "cycle_grant" canonical_cycle_grant (CommerceOffer_CycleGrant offer)
      (set_optional "trial" (fun i => AMap (canonicalInterval i)) (CommerceOffer_Trial offer)
        (set_optional "billing_interval" (fun i => AMap (canonicalInterval i))
          (CommerceOffer_BillingInterval offer)
          (set_optional "plan" AString (CommerceOffer_Plan offer) entry))))
  else
    AMap (<["lot_behavior" := AString (CommerceOffer_LotBehavior offer)]>
      (set_optional "expiry" (fun e => AMap (canonicalExpiry e)) (CommerceOffer_Expiry offer)
        (set_optional "bucket" AString (CommerceOffer_Bucket offer)
          (set_optional "quantity" canonical_quantity (CommerceOffer_Quantity offer)
            (set_optional "credits_per_unit" amount (CommerceOffer_CreditsPerUnit offer) entry))))).

Definition canonical_change (policy : SubscriptionChangePolicy) : any D :=
  AMap {[ "effective" := AString (SubscriptionChangePolicy_Effective policy);
          "proration" := AString (SubscriptionChangePolicy_Proration policy);
          "payment_failure" := AString (SubscriptionChangePolicy_PaymentFailure policy) ]}.

Definition canonical_guardrails (auto : AutoRechargeGuardrails D) : any D :=
  let range_ := AutoRechargeGuardrails_BalanceBelow auto in
  let limits := AutoRechargeGuardrails_Limits auto in
  AMap {[ "eligible_topups" := strings (AutoRechargeGuardrails_EligibleTopups auto);
          "balance_below" := AMap {[ "minimum" := amount (DecimalRange_Minimum range_);
                                     "maximum" := amount (DecimalRange_Maximum range_);
                                     "default" := amount (DecimalRange_Default range_) ]};
          "rearm_above" := amount (AutoRechargeGuardrails_RearmAbove auto);
          "quantity" := canonical_quantity (AutoRechargeGuardrails_Quantity auto);
          "limits" := AMap {[
            "max_purchases" := int (AutoRechargeLimits_MaxPurchases limits);
            "window" := AMap (canonicalWindow (AutoRechargeLimits_Window limits));
            "max_charge_minor" := AInt KInt64 (AutoRechargeLimits_MaxChargeMinor limits);
            "cooldown" := AMap (canonicalDuration (AutoRechargeLimits_Cooldown limits));
            "max_consecutive_failures" := int (AutoRechargeLimits_MaxConsecutiveFailure limits);
            "failure_action" := AString (AutoRechargeLimits_FailureAction limits) ]} ]}.

Definition canonicalCommerce (value : CommerceConfig D) : object :=
  let result : object :=
    {[ "providers" := AMap (canonical_provider <$> CommerceConfig_Providers value);
       "offers" := AMap (canonical_offer <$> CommerceConfig_Offers value) ]} in
  let result :=
    if (0 <? size (CommerceConfig_SubscriptionChanges value))%nat
    then <["subscription_changes" := AMap (canonical_change <$> CommerceConfig_SubscriptionChanges value)]>
           result
    else result in
  set_optional "auto_recharge" canonical_guardrails (CommerceConfig_AutoRecharge value) result.

Definition CanonicalParsedBursarConfigDict (config : BursarConfig D) : object :=
  let result : object :=
    {[ "version" := int (BursarConfig_Version config);
       "credits" := AMap (canonicalCredits (BursarConfig_Credits config)) ]} in
  let result := <["catalog" := AMap (set_optional "default_plan" AString
    (CatalogConfig_DefaultPlan (BursarConfig_Catalog config)) ∅)]> result in
  let result := set_optional "pricing" (fun p => AMap (canonicalPricing p))
    (BursarConfig_Pricing config) result in
  canonicalJSONMap
    (<["commerce" := AMap (canonicalCommerce (BursarConfig_Commerce config))]>
      (<["plans" := AMap (canonicalPlans (BursarConfig_Plans config))]>
        (<["admission" := AMap (canonicalAdmission (BursarConfig_Admission config))]>
          (<["entitlements" := AMap (canonicalEntitlements (BursarConfig_Entitlements config))]> result)))).

Definition CanonicalBursarConfigDict (data : option object) : result object :=
  config <- LoadConfigFromMap data ;;
  Ok (CanonicalParsedBursarConfigDict config).

Definition CanonicalCatalogRolloutDict (value : option object) : result object :=
  rollout <- LoadCatalogRollout value ;;
  Ok {[ "plans" := AMap ((fun policy =>
          AMap {[ "effective" := AString (PlanRollout_Effective policy);
                  "include_pinned" := ABool (PlanRollout_IncludePinned policy) ]})
            <$> CatalogRollout_Plans rollout) ]}.
End canonical.
