(* ===== verification/Tiers.v ===== *)
(** * Tiered charges: the loops against their specification

    A graduated charge bills every unit at the rate of the band it falls in;
    [marginal] sums the bands directly.  A volume charge bills every unit at
    the rate of the band the whole measure falls in. *)

From Stdlib Require Import Qminmax.
From S2P Require Export Engine.
From S2P Require Import DecimalRef.
Local Open Scope Q_scope.

Section tiers.
Context {D : Type} `{DecimalLaws D} `{RangeOrder}.
Local Notation tier := (GraduatedTier D).

(** Bounds increase from [previous] and only the last tier is open. *)
Fixpoint increasing (previous : Q) (tiers : list tier) : Prop :=
  match tiers with
  | [] => True
  | t :: rest =>
      match GraduatedTier_UpTo t with
      | Some upTo => previous < toQ upTo /\ increasing (toQ upTo) rest
      | None => rest = []
      end
  end.

(** The units of [measure] inside the band of a tier. *)
Definition band_units (measure previous : Q) (t : tier) : Q :=
  match GraduatedTier_UpTo t with
  | Some upTo => Qmax 0 (Qmin measure (toQ upTo) - previous)
  | None => Qmax 0 (measure - previous)
  end.

(** Each band's units at its own rate. *)
Fixpoint marginal (measure previous : Q) (tiers : list tier) : Q :=
  match tiers with
  | [] => 0
  | t :: rest =>
      band_units measure previous t * toQ (GraduatedTier_Rate t) +
      match GraduatedTier_UpTo t with
      | Some upTo => marginal measure (toQ upTo) rest
      | None => 0
      end
  end.

Lemma Qmax_0_r q : 0 <= q -> Qmax 0 q == q.
Proof. intros Hq. by apply Q.max_r. Qed.

Lemma Qmax_0_l q : q <= 0 -> Qmax 0 q == 0.
Proof. intros Hq. by apply Q.max_l. Qed.

Lemma marginal_previous measure p q tiers : p == q -> marginal measure p tiers == marginal measure q tiers.
Proof.
  intros Hpq. destruct tiers as [|t rest]; cbn [marginal]; [reflexivity|].
  unfold band_units. destruct (GraduatedTier_UpTo t); by rewrite Hpq.
Qed.

Lemma increasing_previous p q tiers : p == q -> increasing p tiers -> increasing q tiers.
Proof.
  intros Hpq. destruct tiers as [|t rest]; cbn [increasing]; [done|].
  destruct (GraduatedTier_UpTo t); [|done]. by rewrite Hpq.
Qed.

(** Nothing is left to bill above the measure. *)
Lemma marginal_exhausted measure previous tiers :
  increasing previous tiers -> measure <= previous -> marginal measure previous tiers == 0.
Proof.
  revert previous. induction tiers as [|t rest IH]; intros previous Hinc Hle; cbn; [reflexivity|].
  unfold band_units. cbn in Hinc. destruct (GraduatedTier_UpTo t) as [upTo|].
  - destruct Hinc as [Hlt Hinc]. rewrite IH by (done || lra).
    rewrite Qmax_0_l; [ring|]. rewrite Q.min_l by lra. lra.
  - rewrite Qmax_0_l by lra. ring.
Qed.

Lemma graduated_loop_marginal measure (remaining previous total : D) tiers :
  increasing (toQ previous) tiers -> toQ previous <= measure ->
  toQ remaining == measure - toQ previous ->
  toQ (graduated_loop remaining previous total tiers) ==
  toQ total + marginal measure (toQ previous) tiers.
Proof.
  revert remaining previous total. induction tiers as [|t rest IH]; intros remaining previous total Hinc Hle Hrem;
    cbn; [ring|].
  cbn in Hinc. unfold band_units. destruct (GraduatedTier_UpTo t) as [upTo|]; cbn [default from_option id].
  - destruct Hinc as [Hlt Hinc].
    destruct (LessThan remaining (dec_sub upTo previous)) eqn:Hw; dec_bool; rewrite toQ_sub in Hw.
    + (* the measure ends inside this band *)
      rewrite (marginal_exhausted measure (toQ upTo)), Q.min_l, Qmax_0_r by (done || lra).
      destruct (GreaterThan remaining dec_zero) eqn:Hpos.
      * assert (GreaterThan (dec_sub remaining remaining) dec_zero = false) as ->.
        { apply GreaterThan_false. rewrite toQ_sub, toQ_zero. lra. }
        cbn [negb]. rewrite toQ_add, toQ_mul, Hrem. ring.
      * cbn [negb]. rewrite Hpos. cbn [negb]. apply GreaterThan_false in Hpos.
        rewrite toQ_zero, Hrem in Hpos. assert (measure - toQ previous == 0) as Hnil by lra. rewrite Hnil. ring.
    + assert (GreaterThan (dec_sub upTo previous) dec_zero = true) as ->.
      { apply GreaterThan_spec. rewrite toQ_sub, toQ_zero. lra. }
      rewrite Q.min_r, Qmax_0_r by lra.
      destruct (GreaterThan (dec_sub remaining (dec_sub upTo previous)) dec_zero) eqn:Hmore; cbn [negb id].
      * apply GreaterThan_spec in Hmore. rewrite !toQ_sub, toQ_zero in Hmore.
        rewrite (IH _ upTo); [|done|lra|rewrite !toQ_sub; lra].
        rewrite toQ_add, toQ_mul, toQ_sub. ring.
      * apply GreaterThan_false in Hmore. rewrite !toQ_sub, toQ_zero in Hmore.
        rewrite (marginal_exhausted measure (toQ upTo)) by (done || lra).
        rewrite toQ_add, toQ_mul, toQ_sub. ring.
  - subst rest. cbn. rewrite Qmax_0_r by lra.
    destruct (GreaterThan remaining dec_zero) eqn:Hpos.
    + assert (GreaterThan (dec_sub remaining remaining) dec_zero = false) as ->.
      { apply GreaterThan_false. rewrite toQ_sub, toQ_zero. lra. }
      cbn [negb]. rewrite toQ_add, toQ_mul, Hrem. ring.
    + rewrite Hpos. cbn [negb]. apply GreaterThan_false in Hpos. rewrite toQ_zero, Hrem in Hpos.
      assert (measure - toQ previous == 0) as Hnil by lra. rewrite Hnil. ring.
Qed.

(** The tier whose band holds the measure. *)
Fixpoint in_band (measure previous : Q) (tiers : list tier) (t : tier) : Prop :=
  match tiers with
  | [] => False
  | t' :: rest =>
      match GraduatedTier_UpTo t' with
      | Some upTo => (t = t' /\ measure <= toQ upTo) \/ (toQ upTo < measure /\ in_band measure (toQ upTo) rest t)
      | None => t = t'
      end
  end.

Lemma volume_tier_in_band (measure : D) previous last_ tiers :
  last tiers = Some last_ -> GraduatedTier_UpTo last_ = None ->
  in_band (toQ measure) previous tiers (volume_tier measure last_ tiers).
Proof.
  intros Hlast Hopen. revert previous Hlast.
  induction tiers as [|t rest IH]; intros previous Hlast; [done|]. cbn.
  destruct (GraduatedTier_UpTo t) as [upTo|] eqn:Ht; [|done].
  destruct (LessThanOrEqual measure upTo) eqn:Hle.
  - left. split; [done|]. by apply LessThanOrEqual_spec.
  - right. split.
    + unfold LessThanOrEqual in Hle. apply negb_false_iff, GreaterThan_spec in Hle. lra.
    + destruct rest as [|t2 rest]; [|by apply IH]. cbn in Hlast. congruence.
Qed.

(** C4: on increasing bounds that start above zero, evaluating a graduated
    charge bills exactly the marginal sum: every unit of the measure at the
    rate of the one band it falls in, nothing twice and nothing skipped,
    wherever the loop stops. *)
Theorem graduated_charge_marginal (charge : Charge D) (measures : gmap string D) measure :
  Charge_Type charge = "graduated" ->
  measures !! Charge_Measure charge = Some measure ->
  0 <= toQ measure -> increasing 0 (Charge_Tiers charge) ->
  exists value, evaluateCharge charge measures = Ok value /\
                toQ value == marginal (toQ measure) 0 (Charge_Tiers charge).
Proof.
  intros Htype Hm Hpos Hinc.
  exists (graduated_loop measure dec_zero dec_zero (Charge_Tiers charge)). split.
  - destruct charge. cbn in *. rewrite Htype. cbn. unfold requiredMeasure. by rewrite Hm.
  - rewrite (graduated_loop_marginal (toQ measure)).
    + rewrite (marginal_previous _ (toQ dec_zero) 0) by apply toQ_zero.
      rewrite toQ_zero. apply Qplus_0_l.
    + eapply increasing_previous; [|done]. by rewrite toQ_zero.
    + by rewrite toQ_zero.
    + rewrite toQ_zero. ring.
Qed.

(** A volume charge whose last tier is open bills the whole measure at
    the rate of the band that holds it. *)
Theorem volume_charge_band (charge : Charge D) (measures : gmap string D) measure open_ :
  Charge_Type charge = "volume" ->
  measures !! Charge_Measure charge = Some measure ->
  last (Charge_Tiers charge) = Some open_ -> GraduatedTier_UpTo open_ = None ->
  exists value t, evaluateCharge charge measures = Ok value /\
                  in_band (toQ measure) 0 (Charge_Tiers charge) t /\
                  toQ value == toQ measure * toQ (GraduatedTier_Rate t).
Proof.
  intros Htype Hm Hlast Hopen.
  exists (dec_mul measure (GraduatedTier_Rate (volume_tier measure open_ (Charge_Tiers charge)))).
  exists (volume_tier measure open_ (Charge_Tiers charge)). split; [|split].
  - destruct charge. cbn in *. rewrite Htype. cbn. unfold requiredMeasure. rewrite Hm. cbn. by rewrite Hlast.
  - by apply volume_tier_in_band.
  - apply toQ_mul.
Qed.
End tiers.

(** ** Witnesses *)
#[local] Existing Instance canonical_range.

(** The first 100 units at 2, up to 300 at 1, the rest at one half. *)
Definition sample_tiers : list (GraduatedTier dec) :=
  [{| GraduatedTier_UpTo := Some (lit "100"); GraduatedTier_Rate := lit "2" |};
   {| GraduatedTier_UpTo := Some (lit "300"); GraduatedTier_Rate := lit "1" |};
   {| GraduatedTier_UpTo := None; GraduatedTier_Rate := lit "0.5" |}].

Definition sample_tiered (type_ : string) : Charge dec :=
  mkCharge type_ (lit "0") "tokens" (lit "0") (lit "0") (lit "0") "" sample_tiers "" [].

Lemma graduated_charge_marginal_witness :
  exists value, evaluateCharge (sample_tiered "graduated") {[ "tokens" := lit "350" ]} = Ok value /\
                toQ value == marginal (toQ (lit "350")) 0 sample_tiers.
Proof.
  apply (graduated_charge_marginal (sample_tiered "graduated") {[ "tokens" := lit "350" ]} (lit "350")).
  - reflexivity.
  - vm_compute. reflexivity.
  - vm_compute. discriminate.
  - cbn. split; [vm_compute; reflexivity|]. split; [vm_compute; reflexivity | reflexivity].
Defined.

Lemma volume_charge_band_witness :
  exists value t, evaluateCharge (sample_tiered "volume") {[ "tokens" := lit "350" ]} = Ok value /\
                  in_band (toQ (lit "350")) 0 sample_tiers t /\
                  toQ value == toQ (lit "350") * toQ (GraduatedTier_Rate t).
Proof.
  apply (volume_charge_band (sample_tiered "volume") {[ "tokens" := lit "350" ]} (lit "350")
           {| GraduatedTier_UpTo := None; GraduatedTier_Rate := lit "0.5" |}).
  - reflexivity.
  - vm_compute. reflexivity.
  - reflexivity.
  - reflexivity.
Defined.
