(* ===== verification/RateCards.v ===== *)
(** * Rate-card inheritance: the walks along [extends]

    Three functions follow the parents of a card: [operationPricing] (prices
    an event), [ResolvesOperation] (authorises a plan) and
    [validateRateCardInheritance] (checks a catalog).  Each is proved to
    terminate and to compute the relation it stands for. *)

From S2P Require Export Engine ConfigPricing.
From S2P Require Import DecimalRef.

Section cards.
Context {D : Type} `{DecimalOps D} `{RangeOrder}.
Variable pricing : PricingConfig D.
Local Notation cards := (PricingConfig_RateCards pricing).

(** The nearest card, [n] parents up, that prices the operation itself. *)
Inductive priced (operation : string) : nat -> string -> OperationPricing D -> Prop :=
  | priced_here key card p :
      cards !! key = Some card -> RateCard_Operations card !! operation = Some p ->
      priced operation 0 key p
  | priced_parent n key card parent p :
      cards !! key = Some card -> RateCard_Operations card !! operation = None ->
      RateCard_Extends card = Some parent -> priced operation n parent p ->
      priced operation (S n) key p.

Lemma priced_functional op n m key p q : priced op n key p -> priced op m key q -> n = m /\ p = q.
Proof.
  intros Hp. revert m q. induction Hp; intros m q Hq; inversion Hq; simplify_eq; [done|].
  edestruct IHHp as [-> ->]; [eassumption|]. done.
Qed.

(** The chain of parents ends, after [n] steps, at a card without parent. *)
Inductive grounded : nat -> string -> Prop :=
  | grounded_root key card :
      cards !! key = Some card -> RateCard_Extends card = None -> grounded 0 key
  | grounded_parent n key card parent :
      cards !! key = Some card -> RateCard_Extends card = Some parent -> grounded n parent ->
      grounded (S n) key.

Lemma grounded_functional n m key : grounded n key -> grounded m key -> n = m.
Proof.
  intros Hn. revert m. induction Hn; intros m Hm; inversion Hm; simplify_eq; [done|]. f_equal. auto.
Qed.

(** A set of marked cards grows at each step and is bounded by the cards. *)
Lemma marked_size (seen : gmap string unit) : dom seen ⊆ dom cards -> (size seen <= size cards)%nat.
Proof. intros Hs%subseteq_size. by rewrite !size_dom in Hs. Qed.

Lemma mark_subseteq (seen : gmap string unit) key card :
  dom seen ⊆ dom cards -> cards !! key = Some card -> dom (<[key := tt]> seen) ⊆ dom cards.
Proof. intros Hs Hc%elem_of_dom_2. set_solver. Qed.

(** ** operationPricing *)
Lemma operationPricing_loop_sound fuel cardKey op seen key p :
  operationPricing_loop fuel pricing cardKey op seen key = Ok p -> exists n, priced op n key p.
Proof.
  revert seen key. induction fuel as [|fuel IH]; intros seen key; cbn; [done|].
  destruct (seen !! key); [done|]. destruct (cards !! key) as [card|] eqn:Hc; [|done].
  destruct (RateCard_Operations card !! op) as [q|] eqn:Hq.
  - intros [= <-]. exists 0. by econstructor.
  - destruct (RateCard_Extends card) as [parent|] eqn:He; [|done].
    intros [n Hn]%IH. exists (S n). by econstructor.
Qed.

Lemma operationPricing_loop_complete fuel cardKey op seen n key p :
  priced op n key p ->
  (forall s, is_Some (seen !! s) -> exists m, (n < m)%nat /\ priced op m s p) ->
  operationPricing_loop fuel pricing cardKey op seen key = Ok p \/
  operationPricing_loop fuel pricing cardKey op seen key = Err FuelExhausted.
Proof.
  intros Hp. revert fuel seen. induction Hp as [key card p Hc Ho | n key card parent p Hc Ho He Hp IH];
    intros [|fuel] seen Hseen; cbn; try (by right).
  - destruct (seen !! key) eqn:Hs; [|rewrite Hc, Ho; by left].
    destruct (Hseen key) as (m & Hm & Hp'); [eauto|].
    destruct (priced_functional op 0 m key p p) as [<- _]; [by econstructor | done | lia].
  - destruct (seen !! key) eqn:Hs.
    { destruct (Hseen key) as (m & Hm & Hp'); [eauto|].
      destruct (priced_functional op (S n) m key p p) as [<- _]; [by econstructor | done | lia]. }
    rewrite Hc, Ho, He. apply IH. intros s [v Hv].
    destruct (decide (s = key)) as [->|Hne].
    + exists (S n). split; [lia|]. by econstructor.
    + rewrite lookup_insert_ne in Hv by done. destruct (Hseen s) as (m & ? & ?); [eauto|].
      exists m. split; [lia|done].
Qed.

Lemma operationPricing_loop_fuel fuel cardKey op seen key :
  dom seen ⊆ dom cards -> (size cards < fuel + size seen)%nat ->
  operationPricing_loop fuel pricing cardKey op seen key <> Err FuelExhausted.
Proof.
  revert seen key. induction fuel as [|fuel IH]; intros seen key Hs Hf; cbn.
  { apply marked_size in Hs. lia. }
  destruct (seen !! key) eqn:Hk; [done|]. destruct (cards !! key) as [card|] eqn:Hc; [|done].
  destruct (RateCard_Operations card !! op); [done|].
  destruct (RateCard_Extends card) as [parent|]; [|done].
  apply IH; [by eapply mark_subseteq|]. rewrite map_size_insert_None by done. lia.
Qed.

Lemma operationPricing_Ok cardKey op p :
  operationPricing pricing cardKey op = Ok p <-> exists n, priced op n cardKey p.
Proof.
  split; [apply operationPricing_loop_sound|]. intros [n Hn]. unfold operationPricing.
  destruct (operationPricing_loop_complete (S (S (size cards))) cardKey op ∅ n cardKey p Hn) as [Ho|He];
    [intros s [? Hs]; by rewrite lookup_empty in Hs | done|].
  exfalso. revert He. apply operationPricing_loop_fuel; [set_solver | rewrite map_size_empty; lia].
Qed.

(** On cards without a cycle the only failures are a missing card and an
    operation no ancestor prices. *)
Lemma operationPricing_loop_grounded fuel cardKey op seen n key e :
  grounded n key -> (forall s, is_Some (seen !! s) -> exists m, (n < m)%nat /\ grounded m s) ->
  operationPricing_loop fuel pricing cardKey op seen key = Err e ->
  e = FuelExhausted \/
  e = newConfigError ("rate card '" +:+ cardKey +:+ "' has no price for operation '" +:+ op +:+ "'") None.
Proof.
  intros Hg. revert fuel seen. induction Hg as [key card Hc He | n key card parent Hc He Hg IH];
    intros [|fuel] seen Hseen; cbn; try (intros [= <-]; by left).
  - destruct (seen !! key) eqn:Hs; [|rewrite Hc, He; case_match; [done|intros [= <-]; by right]].
    destruct (Hseen key) as (m & Hm & Hp'); [eauto|].
    rewrite (grounded_functional 0 m key) in Hm; [lia | by econstructor | done].
  - destruct (seen !! key) eqn:Hs.
    { destruct (Hseen key) as (m & Hm & Hp'); [eauto|].
      rewrite (grounded_functional (S n) m key) in Hm; [lia | by econstructor | done]. }
    rewrite Hc, He. case_match; [done|]. apply IH. intros s [v Hv].
    destruct (decide (s = key)) as [->|Hne].
    + exists (S n). split; [lia|]. by econstructor.
    + rewrite lookup_insert_ne in Hv by done. destruct (Hseen s) as (m & ? & ?); [eauto|].
      exists m. split; [lia|done].
Qed.

(** OperationPricing prices an operation with the nearest card along
    extends that lists it: it returns exactly what the inheritance relation
    gives, always terminates, and on a catalog without cycles fails only
    when no ancestor of the card prices the operation. *)
Theorem operationPricing_correct cardKey op :
  (forall p, operationPricing pricing cardKey op = Ok p <-> exists n, priced op n cardKey p) /\
  operationPricing pricing cardKey op <> Err FuelExhausted /\
  ((exists n, grounded n cardKey) -> forall e, operationPricing pricing cardKey op = Err e ->
     e = newConfigError ("rate card '" +:+ cardKey +:+ "' has no price for operation '" +:+ op +:+ "'") None).
Proof.
  assert (operationPricing pricing cardKey op <> Err FuelExhausted) as Hfuel.
  { apply operationPricing_loop_fuel; [set_solver | rewrite map_size_empty; lia]. }
  split; [intros p; apply operationPricing_Ok|]. split; [done|].
  intros [n Hn] e He. destruct (operationPricing_loop_grounded _ _ _ _ _ _ _ Hn
    ltac:(intros s [? Hs]; by rewrite lookup_empty in Hs) He) as [->|]; done.
Qed.

(** ** ResolvesOperation *)
Lemma resolves_loop_pricing fuel cardKey op seen key :
  cards !! "" = None ->
  resolves_loop fuel pricing op seen key = is_Ok (operationPricing_loop fuel pricing cardKey op seen key).
Proof.
  intros Hempty. revert seen key. induction fuel as [|fuel IH]; intros seen key; cbn; [done|].
  destruct (String.eqb_spec key "") as [->|Hk].
  { destruct (seen !! ""); [done|]. by rewrite Hempty. }
  destruct (seen !! key); [done|]. destruct (cards !! key) as [card|]; [|done].
  destruct (RateCard_Operations card !! op); [done|]. destruct (RateCard_Extends card); [|done]. apply IH.
Qed.

Lemma ResolvesOperation_pricing cardKey op :
  cards !! "" = None ->
  ResolvesOperation (Some pricing) cardKey op = is_Ok (operationPricing pricing cardKey op).
Proof. intros Hempty. apply resolves_loop_pricing, Hempty. Qed.

(** An operation is authorised for a rate card exactly when the engine
    will find its price: ResolvesOperation says yes iff operationPricing
    returns one. *)
Theorem ResolvesOperation_iff_priced cardKey op :
  cards !! "" = None ->
  ResolvesOperation (Some pricing) cardKey op = true <->
  exists p, operationPricing pricing cardKey op = Ok p.
Proof.
  intros Hempty. rewrite ResolvesOperation_pricing by done.
  destruct (operationPricing pricing cardKey op); cbn; naive_solver.
Qed.

(** ** validateRateCardInheritance *)
Definition visited_grounded (st : visit_state) : Prop :=
  forall k, is_Some (visited st !! k) -> exists n, grounded n k.

Lemma visit_sound fuel key st st' :
  visit fuel pricing key st = Ok st' -> visited_grounded st ->
  visited_grounded st' /\ (exists n, grounded n key) /\ visiting st' = visiting st.
Proof.
  revert key st st'. induction fuel as [|fuel IH]; intros key st st'; cbn; [done|].
  destruct (visiting st !! key) eqn:Hv; [done|].
  destruct (visited st !! key) eqn:Hd; [intros [= <-] Hst; split_and!; [done| |done]; apply Hst; eauto|].
  destruct (cards !! key) as [card|] eqn:Hc; [|done].
  intros Hst Hinv. apply bind_Ok in Hst as (st1 & Hst1 & [= <-]).
  assert (visited_grounded st1 /\ (exists n, grounded n key) /\ visiting st1 = <[key := tt]> (visiting st))
    as (Hg1 & [n Hn] & Hv1).
  { destruct (RateCard_Extends card) as [parent|] eqn:He.
    - apply IH in Hst1 as (? & [n Hn] & ?); [|done]. split_and!; [done| |done].
      exists (S n). by econstructor.
    - injection Hst1 as <-. split_and!; [done| |done]. exists 0. by econstructor. }
  split_and!.
  - intros k [v Hk]. cbn in Hk. destruct (decide (k = key)) as [->|Hne]; [eauto|].
    rewrite lookup_insert_ne in Hk by done. apply Hg1. eauto.
  - eauto.
  - cbn. rewrite Hv1. by apply delete_insert_id.
Qed.

Lemma visit_complete fuel n key st :
  grounded n key ->
  (forall s, is_Some (visiting st !! s) -> exists m, (n < m)%nat /\ grounded m s) ->
  match visit fuel pricing key st with
  | Ok st' => True
  | Err e => e = FuelExhausted
  end.
Proof.
  intros Hg. revert fuel st. induction Hg as [key card Hc He | n key card parent Hc He Hg IH];
    intros [|fuel] st Hst; cbn; try done.
  - destruct (visiting st !! key) eqn:Hv.
    { destruct (Hst key) as (m & Hm & Hp'); [eauto|].
      rewrite (grounded_functional 0 m key) in Hm; [lia | by econstructor | done]. }
    destruct (visited st !! key); [done|]. by rewrite Hc, He.
  - destruct (visiting st !! key) eqn:Hv.
    { destruct (Hst key) as (m & Hm & Hp'); [eauto|].
      rewrite (grounded_functional (S n) m key) in Hm; [lia | by econstructor | done]. }
    destruct (visited st !! key); [done|]. rewrite Hc, He.
    specialize (IH fuel {| visiting := <[key := tt]> (visiting st); visited := visited st |}).
    destruct (visit fuel pricing parent _); cbn [bind]; [done|]. apply IH. intros s [v Hs]. cbn in Hs.
    destruct (decide (s = key)) as [->|Hne].
    + exists (S n). split; [lia|]. by econstructor.
    + rewrite lookup_insert_ne in Hs by done. destruct (Hst s) as (m & ? & ?); [eauto|].
      exists m. split; [lia|done].
Qed.

Lemma visit_error fuel key st e :
  dom (visiting st) ⊆ dom cards -> (size cards < fuel + size (visiting st))%nat ->
  visit fuel pricing key st = Err e -> is_config_error e.
Proof.
  revert key st. induction fuel as [|fuel IH]; intros key st Hs Hf; cbn.
  { apply marked_size in Hs. lia. }
  destruct (visiting st !! key) eqn:Hv; [unfold config_error; intros [= <-]; eauto with errors|].
  destruct (visited st !! key); [done|].
  destruct (cards !! key) as [card|] eqn:Hc; [|unfold config_error; intros [= <-]; eauto with errors].
  intros [He | (? & _ & [=])]%bind_Err. destruct (RateCard_Extends card) as [parent|]; [|done].
  eapply (IH parent); [| |exact He]; cbn; [by eapply mark_subseteq|].
  rewrite map_size_insert_None by done. lia.
Qed.

Definition acyclic : Prop := forall key, is_Some (cards !! key) -> exists n, grounded n key.

(** a catalog passes validateRateCardInheritance exactly when following
    extends from every card reaches a card without parent: no cycle and no
    unknown card; the search terminates and every refusal is a
    configuration error, whatever the order of the map. *)
Theorem validateRateCardInheritance_correct :
  (validateRateCardInheritance pricing = Ok tt <-> acyclic) /\
  (forall e, validateRateCardInheritance pricing = Err e -> is_config_error e).
Proof.
  assert (forall l st, visiting st = ∅ -> visited_grounded st ->
    match fold_result (fun st '(key, _) => visit (visit_fuel pricing) pricing key st) st l with
    | Ok _ => forall key card, (key, card) ∈ l -> exists n, grounded n key
    | Err e => is_config_error e /\ exists key (card : RateCard D), (key, card) ∈ l /\ ~ exists n, grounded n key
    end) as Hloop.
  { induction l as [|[key card] l IH]; intros st Hv Hg; cbn [fold_result]; [set_solver|].
    destruct (visit (visit_fuel pricing) pricing key st) as [st1|e] eqn:Hst; cbn [bind].
    - destruct (visit_sound _ _ _ _ Hst Hg) as (Hg1 & Hkey & Hv1).
      specialize (IH st1 ltac:(congruence) Hg1). destruct (fold_result _ st1 l).
      + intros k c [[= -> ->]|Hin]%elem_of_cons; [done|eauto].
      + destruct IH as (? & k & c & ? & ?). split; [done|]. exists k, c. split; [by right|done].
    - assert (is_config_error e) as He.
      { eapply visit_error; [| |exact Hst]; rewrite Hv; [set_solver|].
        rewrite map_size_empty. unfold visit_fuel. lia. }
      split; [done|]. exists key, card. split; [by left|]. intros [n Hn].
      pose proof (visit_complete (visit_fuel pricing) n key st Hn) as Hc. rewrite Hst, Hv in Hc.
      destruct He as (m & c & ->). discriminate Hc. intros s [? Hs]. by rewrite lookup_empty in Hs. }
  specialize (Hloop (range cards) {| visiting := ∅; visited := ∅ |} eq_refl
    ltac:(intros k [? Hk]; cbn in Hk; by rewrite lookup_empty in Hk)).
  unfold validateRateCardInheritance. destruct (fold_result _ _ _) as [st|e]; cbn [bind]; split; try done.
  - split; [|done]. intros _ key [card Hc]. by eapply Hloop, elem_of_range.
  - split; [done|]. intros Hac. destruct Hloop as (_ & key & card & Hin%elem_of_range & Hng).
    exfalso. apply Hng, Hac. eauto.
  - intros e' [= <-]. apply Hloop.
Qed.
End cards.

(** ** Witness: a card that inherits its only price *)
#[local] Existing Instance canonical_range.

Definition sample_operation_pricing : OperationPricing dec :=
  {| OperationPricing_Rules := [];
     OperationPricing_Unmatched :=
       {| UnmatchedPolicy_Action := "charge"; UnmatchedPolicy_Charge := Some (charge_of_type "flat") |} |}.

Definition sample_cards : PricingConfig dec :=
  {| PricingConfig_Operations := ∅;
     PricingConfig_RateCards :=
       {[ "base" := {| RateCard_Extends := None;
                       RateCard_Operations := {[ "chat" := sample_operation_pricing ]} |};
          "pro" := {| RateCard_Extends := Some "base"; RateCard_Operations := ∅ |} ]} |}.

Lemma ResolvesOperation_iff_priced_witness :
  ResolvesOperation (Some sample_cards) "pro" "chat" = true /\
  exists p, operationPricing sample_cards "pro" "chat" = Ok p.
Proof.
  assert (ResolvesOperation (Some sample_cards) "pro" "chat" = true) as Hr by (vm_compute; reflexivity).
  split; [exact Hr|]. apply (ResolvesOperation_iff_priced sample_cards "pro" "chat"); [reflexivity | exact Hr].
Defined.

(** ** Rule matchers: what a price rule asks of an event *)

Section matchers.
Context {D : Type} `{DecimalLaws D}.
Local Open Scope Q_scope.

(** Scalars of one kind that denote the same value. *)
Inductive scalar_equal : MatcherScalar D -> MatcherScalar D -> Prop :=
  | equal_strings s : scalar_equal (AString s) (AString s)
  | equal_bools b : scalar_equal (ABool b) (ABool b)
  | equal_decimals a b : toQ a == toQ b -> scalar_equal (ADecimal a) (ADecimal b).

(** The bounds of a range, those that are present. *)
Definition in_range (m : DimensionMatcher D) (d : D) : Prop :=
  (forall b, DimensionMatcher_GT m = Some b -> toQ b < toQ d) /\
  (forall b, DimensionMatcher_GTE m = Some b -> toQ b <= toQ d) /\
  (forall b, DimensionMatcher_LT m = Some b -> toQ d < toQ b) /\
  (forall b, DimensionMatcher_LTE m = Some b -> toQ d <= toQ b).

(** What a matcher asks of the value of its dimension. *)
Inductive holds (m : DimensionMatcher D) : MatcherScalar D -> Prop :=
  | holds_eq v : DimensionMatcher_Op m = "eq" -> scalar_equal v (DimensionMatcher_Value m) -> holds m v
  | holds_in v c : DimensionMatcher_Op m = "in" -> c ∈ DimensionMatcher_Values m -> scalar_equal v c -> holds m v
  | holds_not_in v : DimensionMatcher_Op m = "not_in" ->
      (forall c, c ∈ DimensionMatcher_Values m -> ~ scalar_equal v c) -> holds m v
  | holds_prefix prefix rest : DimensionMatcher_Op m = "prefix" ->
      DimensionMatcher_Value m = AString prefix -> holds m (AString (prefix +:+ rest))
  | holds_range d : DimensionMatcher_Op m = "range" -> in_range m d -> holds m (ADecimal d).

Lemma equalMatcherScalars_spec (a b : MatcherScalar D) : equalMatcherScalars a b = true <-> scalar_equal a b.
Proof.
  split.
  - destruct a, b; cbn; try done.
    + intros ->%String.eqb_eq. constructor.
    + intros ->%Bool.eqb_prop. constructor.
    + intros Hd%dec_equal_spec. by constructor.
  - intros [s|x|x y Hxy]; cbn; [apply String.eqb_refl|by destruct x|by apply dec_equal_spec].
Qed.

Lemma substring_prefix prefix s :
  substring 0 (String.length prefix) s = prefix <-> exists rest, s = prefix +:+ rest.
Proof.
  split.
  - revert s. induction prefix as [|c prefix IH]; intros s Hs; [by exists s|].
    destruct s as [|c' s]; [done|]. cbn in Hs. injection Hs as -> Hs.
    destruct (IH s Hs) as [rest ->]. by exists rest.
  - intros [rest ->]. induction prefix as [|c prefix IH]; [by destruct rest|]. change (String c prefix +:+ rest) with (String c (prefix +:+ rest)). cbn. by f_equal.
Qed.

Lemma prefix_holds prefix s :
  ((String.length prefix <=? String.length s)%nat && (substring 0 (String.length prefix) s =? prefix)%go) = true <->
  exists rest, s = prefix +:+ rest.
Proof.
  rewrite andb_true_iff, String.eqb_eq, substring_prefix. split; [by intros [_ ?]|].
  intros [rest ->]. split; [|by exists rest]. apply Nat.leb_le. rewrite string_length_app. lia.
Qed.

Lemma bound_holds_spec test (R : D -> D -> Prop) (amount : D) bound :
  (forall b, test amount b = true <-> R amount b) ->
  bound_holds test amount bound = true <-> forall b, bound = Some b -> R amount b.
Proof.
  intros Ht. unfold bound_holds. destruct bound as [b|]; [rewrite Ht|naive_solver]. naive_solver.
Qed.

Lemma in_range_spec (m : DimensionMatcher D) d :
  bound_holds GreaterThan d (DimensionMatcher_GT m) && bound_holds GreaterThanOrEqual d (DimensionMatcher_GTE m)
  && bound_holds LessThan d (DimensionMatcher_LT m) && bound_holds LessThanOrEqual d (DimensionMatcher_LTE m) = true
  <-> in_range m d.
Proof.
  rewrite !andb_true_iff. unfold in_range.
  rewrite (bound_holds_spec GreaterThan (fun a b => toQ b < toQ a)) by (intros; apply GreaterThan_spec).
  rewrite (bound_holds_spec GreaterThanOrEqual (fun a b => toQ b <= toQ a)) by (intros; apply GreaterThanOrEqual_spec).
  rewrite (bound_holds_spec LessThan (fun a b => toQ a < toQ b)) by (intros; apply LessThan_spec).
  rewrite (bound_holds_spec LessThanOrEqual (fun a b => toQ a <= toQ b)) by (intros; apply LessThanOrEqual_spec).
  tauto.
Qed.

Lemma matchesDimension_holds (m : DimensionMatcher D) v : matchesDimension m v = true <-> holds m v.
Proof.
  unfold matchesDimension. destruct (String.eqb_spec (DimensionMatcher_Op m) "eq") as [Hop|Heq].
  { rewrite equalMatcherScalars_spec. split; [by constructor|]. inversion 1; subst; congruence. }
  destruct (String.eqb_spec (DimensionMatcher_Op m) "in") as [Hop|Hin].
  { rewrite existsb_exists. setoid_rewrite equalMatcherScalars_spec. split.
    - intros (c & Hc%list_elem_of_In & He). by eapply holds_in.
    - inversion 1; subst; try congruence. eexists. split; [by apply list_elem_of_In|done]. }
  destruct (String.eqb_spec (DimensionMatcher_Op m) "not_in") as [Hop|Hnot].
  { rewrite forallb_forall. setoid_rewrite negb_true_iff. setoid_rewrite <- not_true_iff_false.
    setoid_rewrite equalMatcherScalars_spec. setoid_rewrite <- list_elem_of_In. split; [by constructor|].
    inversion 1; subst; congruence || done. }
  destruct (String.eqb_spec (DimensionMatcher_Op m) "prefix") as [Hop|Hpre].
  { split.
    - destruct v as [|s| | | | | | | | | |], (DimensionMatcher_Value m) as [|p| | | | | | | | | |] eqn:Hm; try done.
      intros [rest ->]%prefix_holds. by constructor.
    - inversion 1 as [| | |prefix rest _ Hm|]; subst; try congruence. rewrite Hm. apply prefix_holds. eauto. }
  destruct (String.eqb_spec (DimensionMatcher_Op m) "range") as [Hop|Hrange].
  { split.
    - destruct v; try done. intros Hr%in_range_spec. by constructor.
    - inversion 1 as [| | | |d _ Hr]; subst; try congruence. by apply in_range_spec. }
  split; [done|]. inversion 1; congruence.
Qed.

(** a price rule applies to an event exactly when every dimension it names
    was supplied and holds: equal to the value (decimals by the number they
    denote, never across kinds), one of a list, none of a list, a string that
    starts with the prefix, or a number inside all the bounds given. *)
Theorem matches_correct `{RangeOrder} (rule : PriceRule D) dims :
  matches rule dims = true <->
  forall name m, PriceRule_When rule !! name = Some m -> exists v, dims !! name = Some v /\ holds m v.
Proof.
  unfold matches. rewrite forallb_forall. split.
  - intros Hall name m Hm%elem_of_range%list_elem_of_In%Hall. destruct (dims !! name) as [v|]; [|done].
    exists v. by rewrite <- matchesDimension_holds.
  - intros Hall [name m] Hm%list_elem_of_In%elem_of_range. destruct (Hall _ _ Hm) as (v & -> & Hv).
    by apply matchesDimension_holds.
Qed.
End matchers.
