(* ===== verification/Pricing.v ===== *)
(** * Pricing an event: what Calculate guarantees *)

From S2P Require Export Engine.
From S2P Require Import DecimalRef.

(** ** The order of a Go map does not show *)
Section order.
Context {D : Type} `{DecimalOps D}.
Variables order1 order2 : RangeOrder.

Lemma for_each_order {A} (f : string * A -> result unit) (m : gmap string A) :
  for_each f (@range order1 A m) = Ok tt <-> for_each f (@range order2 A m) = Ok tt.
Proof. apply for_each_perm. by rewrite !range_perm. Qed.

Lemma for_each_transfer {A} (f : string * A -> result unit) (m : gmap string A) :
  for_each f (@range order1 A m) = Ok tt -> for_each f (@range order2 A m) = Ok tt.
Proof. apply for_each_perm. by rewrite !range_perm. Qed.

Lemma Validate_transfer (m : UsageMetrics D) :
  @Validate D _ order1 m = Ok tt -> @Validate D _ order2 m = Ok tt.
Proof.
  unfold Validate. destruct (_ =? _); [done|]. rewrite !bind_Ok.
  intros ([] & Hm%for_each_transfer & Hd%for_each_transfer). eauto.
Qed.

Lemma matches_order (rule : PriceRule D) dimensions :
  @matches D _ order1 rule dimensions = @matches D _ order2 rule dimensions.
Proof.
  unfold matches. apply eq_true_iff_eq. rewrite !forallb_forall. setoid_rewrite <- list_elem_of_In.
  split; intros Hall [k v] Hin; apply (Hall (k, v));
    apply elem_of_range; by apply elem_of_range in Hin.
Qed.

Lemma select_charge_order (p : OperationPricing D) dimensions :
  @select_charge D _ order1 p dimensions = @select_charge D _ order2 p dimensions.
Proof.
  unfold select_charge. assert (list_find (fun r => @matches D _ order1 r dimensions = true)
    (OperationPricing_Rules p) = list_find (fun r => @matches D _ order2 r dimensions = true)
    (OperationPricing_Rules p)) as ->; [|done].
  apply list_find_ext. intros r. by rewrite matches_order.
Qed.

Lemma EvaluateExpression_transfer source (v : gmap string D) value :
  @EvaluateExpression D _ order1 source v = Ok value -> @EvaluateExpression D _ order2 source v = Ok value.
Proof.
  unfold EvaluateExpression. destruct (_ =? _)%nat; [done|]. rewrite !bind_Ok.
  intros (n & Hn & ([] & Hv & He)%bind_Ok). exists n. split; [done|]. apply bind_Ok. exists tt.
  split; [by apply for_each_transfer|done].
Qed.

Lemma evaluateCharge_transfer charge (measures : gmap string D) value :
  @evaluateCharge D _ order1 charge measures = Ok value ->
  @evaluateCharge D _ order2 charge measures = Ok value.
Proof.
  revert value. induction charge as [charge IH] using Charge_nested_ind. intros value.
  destruct charge; cbn in *. repeat (case_match; [try done; by apply EvaluateExpression_transfer|]).
  case_match; [|done]. generalize dec_zero. clear -IH.
  induction IH as [|c l Hc _ IHl]; intros total; cbn; [done|].
  intros (t & (v & Hv%Hc & [= <-])%bind_Ok & Ht)%bind_Ok. rewrite Hv. cbn. by apply IHl.
Qed.

Lemma resolveRateCard_order (pricing : PricingConfig D) requested :
  @resolveRateCard D order1 pricing requested = @resolveRateCard D order2 pricing requested.
Proof.
  unfold resolveRateCard. destruct (negb _); [done|].
  assert ((@range order1 _ (PricingConfig_RateCards pricing)).*1 ≡ₚ
          (@range order2 _ (PricingConfig_RateCards pricing)).*1) as Hp by (by rewrite !range_perm).
  destruct (@range order1 _ _).*1 as [|k [|k2 l]].
  - apply Permutation_nil in Hp. by rewrite Hp.
  - apply Permutation_length_1_inv in Hp. by rewrite Hp.
  - pose proof (Permutation_length Hp) as Hl. cbn in Hl. by destruct (@range order2 _ _).*1 as [|? [|]].
Qed.

Lemma fold_range_transfer {A B} (f : gmap string B -> string * A -> result (gmap string B))
    (g : string -> A -> result (option B)) (m : gmap string A) acc :
  (forall acc k a, f acc (k, a) = (o <- g k a ;; Ok (insert_optional k o acc))) ->
  fold_result f ∅ (@range order1 A m) = Ok acc -> fold_result f ∅ (@range order2 A m) = Ok acc.
Proof. intros Hf. by rewrite !(fold_result_range f g). Qed.
End order.

(** ** What the two loops of Calculate compute under a name *)
Section loops.
Context {D : Type} `{DecimalOps D}.

Definition dimension_of (metrics : UsageMetrics D) (name : string) (definition : DimensionDefinition)
    : result (option (MatcherScalar D)) :=
  match present (UsageMetrics_Dimensions metrics) name with
  | None =>
      if DimensionDefinition_Required definition
      then Err (newConfigError ("operation '" +:+ UsageMetrics_Operation metrics +:+
             "' requires dimension '" +:+ name +:+ "'") None)
      else Ok None
  | Some input => parsed <- validateRuntimeDimension input definition name ;; Ok (Some parsed)
  end.

Lemma runtime_dimension_insert metrics acc name definition :
  runtime_dimension metrics acc (name, definition) =
  (o <- dimension_of metrics name definition ;; Ok (insert_optional name o acc)).
Proof.
  cbn. unfold dimension_of. destruct (present _ _); [by destruct (validateRuntimeDimension _ _ _)|].
  by destruct (DimensionDefinition_Required _).
Qed.

Definition measure_of (metrics : UsageMetrics D) (name : string) (_ : MeasureDefinition) : result (option D) :=
  let value := default dec_zero (UsageMetrics_Measures metrics !! name) in
  if IsNegative value
  then Err (newConfigError ("usage measure '" +:+ name +:+ "' must be finite and non-negative") None)
  else Ok (Some value).

Lemma runtime_measure_insert metrics acc name definition :
  runtime_measure metrics acc (name, definition) =
  (o <- measure_of metrics name definition ;; Ok (insert_optional name o acc)).
Proof. cbn. unfold measure_of. by destruct (IsNegative _). Qed.
End loops.

Section theorems.
Context {D : Type} `{DecimalLaws D}.
Local Open Scope Q_scope.

(** C10: what Calculate charges does not depend on the order in which Go
    ranges over its maps (measures, dimensions, matchers, rate cards): a
    cost report computed under one order is computed under every other. *)
Theorem Calculate_deterministic (order1 order2 : RangeOrder) (e : option (PricingEngine D)) metrics options r :
  @Calculate D _ order1 e metrics options = Ok r -> @Calculate D _ order2 e metrics options = Ok r.
Proof.
  unfold Calculate. destruct (Config e) as [config|]; [|done]. destruct (1 <? length options)%nat; [done|].
  intros ([] & ->%(Validate_transfer order1 order2) & Hr)%bind_Ok. cbn [bind].
  destruct (BursarConfig_Pricing config) as [pricing|]; [|done].
  destruct (PricingConfig_Operations pricing !! _) as [operation|]; [|done].
  apply bind_Ok in Hr as ([] & ->%(for_each_transfer order1 order2) & Hr). cbn [bind].
  apply bind_Ok in Hr as ([] & ->%(for_each_transfer order1 order2) & Hr). cbn [bind].
  apply bind_Ok in Hr as (dims & ->%(fold_range_transfer order1 order2 _ (dimension_of metrics)) & Hr);
    [|apply runtime_dimension_insert].
  cbn [bind]. apply bind_Ok in Hr as (ms & ->%(fold_range_transfer order1 order2 _ (measure_of metrics)) & Hr);
    [|apply runtime_measure_insert].
  cbn [bind]. rewrite <- (resolveRateCard_order order1 order2).
  destruct (resolveRateCard _ _) as [cardKey|]; [|done]. cbn [bind] in *.
  destruct (operationPricing _ _ _) as [p|]; [|done]. cbn [bind] in *.
  rewrite <- (select_charge_order order1 order2). destruct (select_charge _ _) as [selected|]; [|done].
  apply bind_Ok in Hr as (value & ->%(evaluateCharge_transfer order1 order2) & Hr). exact Hr.
Qed.

(** ** The specification of a priced event *)

(** The first rule that matches decides; the unmatched policy when none does. *)
Definition decides `{RangeOrder} (p : OperationPricing D) (dims : gmap string (MatcherScalar D))
    (charge : Charge D) : Prop :=
  (exists i rule, OperationPricing_Rules p !! i = Some rule /\ matches rule dims = true /\
     (forall j rule', (j < i)%nat -> OperationPricing_Rules p !! j = Some rule' -> matches rule' dims = false) /\
     charge = PriceRule_Charge rule) \/
  ((forall rule, rule ∈ OperationPricing_Rules p -> matches rule dims = false) /\
     UnmatchedPolicy_Action (OperationPricing_Unmatched p) = "charge" /\
     UnmatchedPolicy_Charge (OperationPricing_Unmatched p) = Some charge).

(** A value of a dimension's type. *)
Definition of_type (definition : DimensionDefinition) (v : any D) : Prop :=
  match v with
  | AString _ => DimensionDefinition_Type definition = "string"
  | ABool _ => DimensionDefinition_Type definition = "boolean"
  | ADecimal _ => DimensionDefinition_Type definition = "number"
  | _ => False
  end.

(** The dimensions a rule sees: those declared and supplied, of their type;
    a required one is supplied. *)
Definition checked_dimensions (metrics : UsageMetrics D) (operation : OperationDefinition)
    (dims : gmap string (MatcherScalar D)) : Prop :=
  forall name,
    match OperationDefinition_Dimensions operation !! name, present (UsageMetrics_Dimensions metrics) name with
    | Some definition, Some v => of_type definition v /\ dims !! name = Some v
    | Some definition, None => DimensionDefinition_Required definition = false /\ dims !! name = None
    | None, _ => dims !! name = None
    end.

(** The measures a charge sees: those declared, zero when not supplied. *)
Definition defaulted_measures (metrics : UsageMetrics D) (operation : OperationDefinition)
    (measures : gmap string D) : Prop :=
  forall name,
    match OperationDefinition_Measures operation !! name with
    | Some _ => measures !! name = Some (default dec_zero (UsageMetrics_Measures metrics !! name))
    | None => measures !! name = None
    end.

(** The rate card asked for, or the only one there is. *)
Definition chosen_card (pricing : PricingConfig D) (options : list PricingOptions) (cardKey : string) : Prop :=
  is_Some (PricingConfig_RateCards pricing !! cardKey) /\
  match options with
  | [o] => if PricingOptions_RateCard o =? ""
           then forall k, is_Some (PricingConfig_RateCards pricing !! k) -> k = cardKey
           else cardKey = PricingOptions_RateCard o
  | _ => forall k, is_Some (PricingConfig_RateCards pricing !! k) -> k = cardKey
  end.

(** An event the engine can bill: what it names is declared and typed, a card
    is chosen, a charge of its price decides, and it costs [value]. *)
Definition bills `{RangeOrder} (e : option (PricingEngine D)) (metrics : UsageMetrics D)
    (options : list PricingOptions) (cardKey : string) (charge : Charge D) (measures : gmap string D)
    (value : D) : Prop :=
  (length options <= 1)%nat /\ Validate metrics = Ok tt /\
  exists config pricing operation price dims,
    Config e = Some config /\ BursarConfig_Pricing config = Some pricing /\
    PricingConfig_Operations pricing !! UsageMetrics_Operation metrics = Some operation /\
    dom (UsageMetrics_Measures metrics) ⊆ dom (OperationDefinition_Measures operation) /\
    dom (UsageMetrics_Dimensions metrics) ⊆ dom (OperationDefinition_Dimensions operation) /\
    checked_dimensions metrics operation dims /\ defaulted_measures metrics operation measures /\
    chosen_card pricing options cardKey /\
    operationPricing pricing cardKey (UsageMetrics_Operation metrics) = Ok price /\
    decides price dims charge /\ evaluateCharge charge measures = Ok value /\ 0 <= toQ value.

(** Its report. *)
Definition cost_report (metrics : UsageMetrics D) (cardKey : string) (charge : Charge D)
    (measures : gmap string D) (value : D) : CostBreakdown D :=
  MakeCostBreakdown
    {| Input_ModelCredits := dec_zero; Input_ToolCredits := dec_zero; Input_SearchCredits := dec_zero;
       Input_CacheSavings := dec_zero; Input_FixedCredits := dec_zero;
       Input_OperationCredits := QuantizeMoney value;
       Input_Breakdown :=
         {[ "operation" := AString (UsageMetrics_Operation metrics); "rateCard" := AString cardKey;
            "chargeType" := AString (Charge_Type charge);
            "measures" := ATypedMap ((fun amount => AString (dec_string amount)) <$> measures);
            "dimensions" := AMap (UsageMetrics_Dimensions metrics) ]} |}.

(** ** The steps of Calculate against it *)
Lemma select_charge_decides `{RangeOrder} (p : OperationPricing D) dims charge :
  select_charge p dims = Some charge <-> decides p dims charge.
Proof.
  unfold select_charge, decides. destruct (list_find _ _) as [[i rule]|] eqn:Hf.
  - apply list_find_Some in Hf as (Hi & Hm & Hbefore). split.
    + intros [= <-]. left. exists i, rule. split_and!; [done..| |done].
      intros j rule' Hj Hlt. apply not_true_is_false. by eapply Hbefore.
    + intros [(j & rule' & Hj & Hm' & Hbefore' & ->) | (Hnone & _)].
      * assert (i = j) as <-; [|congruence]. destruct (Nat.lt_trichotomy i j) as [Hlt|[?|Hlt]]; [|done|].
        -- by rewrite (Hbefore' _ _ Hlt Hi) in Hm.
        -- by destruct (Hbefore _ _ Hj Hlt).
      * rewrite Hnone in Hm; [done|]. by eapply list_elem_of_lookup_2.
  - apply list_find_None in Hf. rewrite Forall_forall in Hf.
    destruct (String.eqb_spec (UnmatchedPolicy_Action (OperationPricing_Unmatched p)) "charge"); split.
    + intros Hc. right. split_and!; [|done..]. intros rule Hin. by apply not_true_is_false, Hf.
    + intros [(j & rule & Hj & Hm & _)|(_ & _ & Hc)]; [|done].
      exfalso. apply list_elem_of_lookup_2 in Hj. by apply (Hf rule).
    + done.
    + intros [(j & rule & Hj & Hm & _)|(_ & ? & _)]; [|done].
      exfalso. apply list_elem_of_lookup_2 in Hj. by apply (Hf rule).
Qed.

Lemma validateRuntimeDimension_of_type (v : any D) definition name x :
  v <> ANil -> validateRuntimeDimension v definition name = Ok x <-> of_type definition v /\ x = v.
Proof.
  intros Hv. unfold validateRuntimeDimension, of_type.
  destruct (String.eqb_spec (DimensionDefinition_Type definition) "string") as [->|Hs];
    [destruct v; naive_solver|].
  destruct (String.eqb_spec (DimensionDefinition_Type definition) "boolean") as [->|Hb];
    [destruct v; naive_solver|].
  destruct (String.eqb_spec (DimensionDefinition_Type definition) "number") as [->|Hn];
    [destruct v; naive_solver|].
  destruct v; naive_solver.
Qed.

Lemma present_not_nil (m : gmap string (any D)) k v : present m k = Some v -> v <> ANil.
Proof. unfold present. destruct (m !! k) as [[]|]; naive_solver. Qed.

Lemma runtime_dimensions_checked `{RangeOrder} (metrics : UsageMetrics D) operation dims :
  fold_result (runtime_dimension metrics) ∅ (range (OperationDefinition_Dimensions operation)) = Ok dims <->
  checked_dimensions metrics operation dims.
Proof.
  rewrite (fold_result_range _ (dimension_of metrics)) by apply runtime_dimension_insert.
  apply forall_proper. intros name. destruct (OperationDefinition_Dimensions operation !! name) as [definition|]; [|done].
  unfold dimension_of. destruct (present _ name) as [v|] eqn:Hp.
  - apply present_not_nil in Hp. rewrite bind_Ok. split.
    + intros (x & [Ht ->]%validateRuntimeDimension_of_type & Hd); [|done]. split; [done|]. by injection Hd.
    + intros [Ht Hd]. exists v. split; [by apply validateRuntimeDimension_of_type|].
      exact (f_equal Ok (eq_sym Hd)).
  - destruct (DimensionDefinition_Required definition); split; [done|by intros []| |].
    + intros Hd. split; [done|]. by injection Hd.
    + intros [_ Hd]. exact (f_equal Ok (eq_sym Hd)).
Qed.

Lemma runtime_measures_defaulted `{RangeOrder} (metrics : UsageMetrics D) operation measures :
  Validate metrics = Ok tt ->
  fold_result (runtime_measure metrics) ∅ (range (OperationDefinition_Measures operation)) = Ok measures <->
  defaulted_measures metrics operation measures.
Proof.
  intros (_ & Hpos & _)%Validate_Ok.
  rewrite (fold_result_range _ (measure_of metrics)) by apply runtime_measure_insert.
  apply forall_proper. intros name. destruct (OperationDefinition_Measures operation !! name); [|done].
  unfold measure_of. assert (IsNegative (default dec_zero (UsageMetrics_Measures metrics !! name)) = false) as ->.
  { apply IsNegative_false. destruct (UsageMetrics_Measures metrics !! name) as [v|] eqn:Hv; cbn.
    - by apply Hpos in Hv as [_ ?].
    - rewrite toQ_zero. lra. }
  split; congruence.
Qed.

Lemma declared_dom `{RangeOrder} {A B} kind name (definitions : gmap string A) (m : gmap string B) :
  for_each (declared kind name definitions) (range m) = Ok tt <-> dom m ⊆ dom definitions.
Proof.
  rewrite for_each_range. split.
  - intros Hall k [v Hv]%elem_of_dom. specialize (Hall _ _ Hv). cbn in Hall. apply elem_of_dom.
    by destruct (definitions !! k).
  - intros Hsub k v Hv. cbn. assert (is_Some (definitions !! k)) as [? ->]; [|done].
    apply elem_of_dom, Hsub, elem_of_dom. eauto.
Qed.

Lemma resolveRateCard_only `{RangeOrder} (pricing : PricingConfig D) cardKey :
  resolveRateCard pricing "" = Ok cardKey <->
  is_Some (PricingConfig_RateCards pricing !! cardKey) /\
  forall k, is_Some (PricingConfig_RateCards pricing !! k) -> k = cardKey.
Proof.
  unfold resolveRateCard; cbn [String.eqb negb].
  assert (forall k, k ∈ (range (PricingConfig_RateCards pricing)).*1 <->
                    is_Some (PricingConfig_RateCards pricing !! k)) as Hin.
  { intros k. rewrite list_elem_of_fmap. split.
    - intros ([k' v] & -> & Hk%elem_of_range). eauto.
    - intros [v Hv]. exists (k, v). by rewrite elem_of_range. }
  pose proof (NoDup_fst_range (PricingConfig_RateCards pricing)) as Hnd.
  setoid_rewrite <- Hin. destruct (range _).*1 as [|k [|k2 l]]; split; try done.
  - intros [Hc _]. by apply elem_of_nil in Hc.
  - intros [= <-]. set_solver.
  - intros [_ Hall]. f_equal. apply Hall. set_solver.
  - intros [_ Hall]. exfalso. apply NoDup_cons in Hnd as [Hnot _]. apply Hnot.
    rewrite (Hall k) by set_solver. rewrite <- (Hall k2) by set_solver. set_solver.
Qed.

Lemma resolveRateCard_chosen `{RangeOrder} (pricing : PricingConfig D) options cardKey :
  resolveRateCard pricing (match options with [o] => PricingOptions_RateCard o | _ => "" end) = Ok cardKey <->
  chosen_card pricing options cardKey.
Proof.
  unfold chosen_card. destruct options as [|o [|]]; [apply resolveRateCard_only| |apply resolveRateCard_only].
  destruct (String.eqb_spec (PricingOptions_RateCard o) "") as [->|Hne]; [apply resolveRateCard_only|].
  unfold resolveRateCard. apply String.eqb_neq in Hne. rewrite Hne. cbn [negb].
  destruct (PricingConfig_RateCards pricing !! PricingOptions_RateCard o) eqn:Hc; split.
  - intros [= <-]. by rewrite Hc.
  - by intros [_ ->].
  - done.
  - intros [[? Hs] ->]. congruence.
Qed.

Lemma Calculate_bills `{RangeOrder} (e : option (PricingEngine D)) metrics options r :
  Calculate e metrics options = Ok r <->
  exists cardKey charge measures value,
    bills e metrics options cardKey charge measures value /\ r = cost_report metrics cardKey charge measures value.
Proof.
  unfold Calculate, bills. destruct (Config e) as [config|]; [|naive_solver].
  destruct (Nat.ltb_spec 1 (length options)); [naive_solver lia|].
  destruct (Validate metrics) as [[]|] eqn:Hvalid; cbn [bind]; [|naive_solver].
  destruct (BursarConfig_Pricing config) as [pricing|] eqn:Hp; [|naive_solver].
  destruct (PricingConfig_Operations pricing !! UsageMetrics_Operation metrics) as [operation|] eqn:Ho; [|naive_solver].
  split.
  - intros ([] & Hms%declared_dom & Hr)%bind_Ok. apply bind_Ok in Hr as ([] & Hds%declared_dom & Hr).
    apply bind_Ok in Hr as (dims & Hdims%runtime_dimensions_checked & Hr).
    apply bind_Ok in Hr as (measures & Hm%runtime_measures_defaulted & Hr); [|done].
    apply bind_Ok in Hr as (cardKey & Hcard%resolveRateCard_chosen & Hr).
    apply bind_Ok in Hr as (price & Hprice & Hr).
    destruct (select_charge price dims) as [charge|] eqn:Hsel; [|done]. apply select_charge_decides in Hsel.
    apply bind_Ok in Hr as (value & Hvalue & Hr). destruct (IsNegative value) eqn:Hneg; [done|].
    injection Hr as <-. apply IsNegative_false in Hneg.
    exists cardKey, charge, measures, value. split; [|done]. split_and!; [lia|done|].
    by exists config, pricing, operation, price, dims.
  - intros (cardKey & charge & measures & value & (_ & _ & c & p & o & price & dims & [= <-] & Hp' & Ho' &
      Hms & Hds & Hdims & Hm & Hcard & Hprice & Hsel & Hvalue & Hneg) & ->).
    rewrite Hp in Hp'. injection Hp' as <-. rewrite Ho in Ho'. injection Ho' as <-.
    apply (declared_dom "measure" (UsageMetrics_Operation metrics)) in Hms.
    apply (declared_dom "dimension" (UsageMetrics_Operation metrics)) in Hds.
    apply runtime_dimensions_checked in Hdims. apply runtime_measures_defaulted in Hm; [|done].
    apply resolveRateCard_chosen in Hcard. apply select_charge_decides in Hsel. apply IsNegative_false in Hneg.
    rewrite Hms. cbn [bind]. rewrite Hds. cbn [bind]. rewrite Hdims. cbn [bind]. rewrite Hm. cbn [bind].
    rewrite Hcard. cbn [bind]. rewrite Hprice. cbn [bind]. rewrite Hsel, Hvalue. cbn [bind]. by rewrite Hneg.
Qed.

(** C1: Calculate implements its specification: it returns a report exactly
    when the event can be billed.  Everything the event names is declared by
    its operation and of the declared type, required dimensions are supplied,
    measures not supplied count as zero, the rate card is the one asked for or
    the only one, the charge is that of the first rule of the card's price
    (or a parent card's) that matches, or the unmatched charge when none
    does, and its value on those measures is not negative; the report is the
    one of that value. *)
Theorem Calculate_refines `{RangeOrder} (e : option (PricingEngine D)) metrics options r :
  Calculate e metrics options = Ok r <->
  exists cardKey charge measures value,
    bills e metrics options cardKey charge measures value /\ r = cost_report metrics cardKey charge measures value.
Proof. apply Calculate_bills. Qed.

(** The report of a value: one component, rounded once. *)
Lemma cost_report_total metrics cardKey charge measures (value : D) :
  0 <= toQ value ->
  let r := cost_report metrics cardKey charge measures value in
  toQ (CostBreakdown_Total r) == round_places (toQ value) 6 /\
  toQ (CostBreakdown_OperationCredits r) == round_places (toQ value) 6 /\
  is_money (CostBreakdown_Total r).
Proof.
  intros Hpos. unfold cost_report, MakeCostBreakdown; cbn -[QuantizeMoney].
  assert (toQ (QuantizeMoney (QuantizeMoney value)) == round_places (toQ value) 6) as Hround.
  { rewrite QuantizeMoney_money by apply QuantizeMoney_is_money. apply toQ_quantize. }
  assert (toQ (QuantizeMoney (dec_zero : D)) == 0) as Hz.
  { rewrite QuantizeMoney_money by apply is_money_zero. apply toQ_zero. }
  assert (is_money (QuantizeMoney (QuantizeMoney value))) as Hmoney by apply QuantizeMoney_is_money.
  assert (0 <= round_places (toQ value) 6) as Hr by by apply round_places_nonneg.
  destruct (IsNegative _) eqn:Hn; apply IsNegative_spec in Hn || apply IsNegative_false in Hn;
    rewrite !toQ_add, !Hz, Hround in Hn; [lra|].
  split_and!; [|done|apply QuantizeMoney_is_money].
  rewrite QuantizeMoney_money by (repeat apply is_money_add; apply QuantizeMoney_is_money).
  rewrite !toQ_add, !Hz, Hround. ring.
Qed.

(** What a successful Calculate bills is the value of one charge, rounded
    half away from zero to six places and rounded only once: the total and
    the operation credits are both that number, a multiple of a millionth,
    never negative and never more than half a millionth from the value. *)
Theorem Calculate_total `{RangeOrder} (e : option (PricingEngine D)) metrics options r :
  Calculate e metrics options = Ok r ->
  exists cardKey charge measures value,
    bills e metrics options cardKey charge measures value /\
    toQ (CostBreakdown_Total r) == round_places (toQ value) 6 /\
    toQ (CostBreakdown_OperationCredits r) == toQ (CostBreakdown_Total r) /\
    is_money (CostBreakdown_Total r) /\ 0 <= toQ (CostBreakdown_Total r) /\
    toQ value - (1 # 2000000) <= toQ (CostBreakdown_Total r) <= toQ value + (1 # 2000000).
Proof.
  intros (cardKey & charge & measures & value & Hbills & ->)%Calculate_bills.
  exists cardKey, charge, measures, value. split; [done|].
  assert (0 <= toQ value) as Hpos by by destruct Hbills as (_ & _ & ? & ? & ? & ? & ? & Hb); apply Hb.
  destruct (cost_report_total metrics cardKey charge measures value Hpos) as (Ht & Ho & Hm).
  split; [done|]. split; [by rewrite Ho, Ht|]. split; [done|]. rewrite Ht.
  split; [by apply round_places_nonneg|]. apply round_places_close.
Qed.


(** CalculateBatch is all or nothing: it returns one report per event,
    in input order and each the report of that event alone, or the error of
    the first event that fails, every event before it being valid. *)
Theorem CalculateBatch_all_or_nothing `{RangeOrder} (e : option (PricingEngine D)) events options :
  (length options <= 1)%nat ->
  match CalculateBatch e events options with
  | Ok reports => Forall2 (fun event report => Calculate e event options = Ok report) events reports
  | Err err => exists i event, events !! i = Some event /\ Calculate e event options = Err err /\
                 Forall (fun earlier => exists report, Calculate e earlier options = Ok report) (take i events)
  end.
Proof.
  intros Hlen. unfold CalculateBatch. destruct (1 <? length options)%nat eqn:Ho; [apply Nat.ltb_lt in Ho; lia|].
  destruct (map_result _ _) as [reports|err] eqn:Hm; [by apply map_result_Ok in Hm|].
  by apply map_result_Err in Hm.
Qed.
End theorems.

(** ** Witnesses: a catalog that charges chat calls per thousand tokens *)
Definition sample_charge : Charge dec :=
  mkCharge "per_unit" (lit "0") "tokens" (lit "2.5") (lit "1000") (lit "0") "" [] "" [].

Definition sample_price : OperationPricing dec :=
  {| OperationPricing_Rules :=
       [{| PriceRule_When :=
             {[ "model" := {| DimensionMatcher_Op := "prefix"; DimensionMatcher_Value := AString "large";
                              DimensionMatcher_Values := []; DimensionMatcher_GT := None;
                              DimensionMatcher_GTE := None; DimensionMatcher_LT := None;
                              DimensionMatcher_LTE := None |} ]};
           PriceRule_Charge := sample_charge |}];
     OperationPricing_Unmatched :=
       {| UnmatchedPolicy_Action := "reject"; UnmatchedPolicy_Charge := None |} |}.

Definition sample_config : BursarConfig dec :=
  {| BursarConfig_Version := 1; BursarConfig_Catalog := {| CatalogConfig_DefaultPlan := None |};
     BursarConfig_Pricing := Some
       {| PricingConfig_Operations :=
            {[ "chat" := {| OperationDefinition_Measures := {[ "tokens" := {| MeasureDefinition_Unit := "token" |} ]};
                            OperationDefinition_Dimensions :=
                              {[ "model" := {| DimensionDefinition_Type := "string";
                                               DimensionDefinition_Required := true |} ]} |} ]};
          PricingConfig_RateCards :=
            {[ "base" := {| RateCard_Extends := None; RateCard_Operations := {[ "chat" := sample_price ]} |} ]} |};
     BursarConfig_Credits :=
       {| CreditsConfig_Buckets := ∅; CreditsConfig_DefaultBucket := None; CreditsConfig_Policies := ∅;
          CreditsConfig_GrantPrograms := ∅; CreditsConfig_Display := None |};
     BursarConfig_Entitlements := {| EntitlementsConfig_Features := ∅ |};
     BursarConfig_Admission := {| AdmissionConfig_Policies := ∅ |};
     BursarConfig_Plans := ∅;
     BursarConfig_Commerce :=
       {| CommerceConfig_Providers := ∅; CommerceConfig_Offers := ∅;
          CommerceConfig_SubscriptionChanges := ∅; CommerceConfig_AutoRecharge := None |} |}.

Definition sample_engine : option (PricingEngine dec) := Some {| PricingEngine_config := Some sample_config |}.

Definition sample_event : UsageMetrics dec :=
  {| UsageMetrics_Operation := "chat"; UsageMetrics_Measures := {[ "tokens" := lit "1234.5678" ]};
     UsageMetrics_Dimensions := {[ "model" := AString "large-2" ]}; UsageMetrics_Metadata := ∅ |}.

(** 1234.5678 / 1000 * 2.5, at six places. *)
Definition sample_report : CostBreakdown dec :=
  MakeCostBreakdown
    {| Input_ModelCredits := dec_zero; Input_ToolCredits := dec_zero; Input_SearchCredits := dec_zero;
       Input_CacheSavings := dec_zero; Input_FixedCredits := dec_zero;
       Input_OperationCredits := lit "3.086420";
       Input_Breakdown :=
         {[ "operation" := AString "chat"; "rateCard" := AString "base"; "chargeType" := AString "per_unit";
            "measures" := ATypedMap {[ "tokens" := AString "1234.5678" ]};
            "dimensions" := AMap {[ "model" := AString "large-2" ]} ]} |}.

Lemma sample_report_calculated (order : RangeOrder) :
  order = canonical_range -> Calculate sample_engine sample_event [] = Ok sample_report.
Proof. intros ->. vm_compute. reflexivity. Qed.

Lemma Calculate_deterministic_witness :
  @Calculate dec _ reverse_range sample_engine sample_event [] = Ok sample_report.
Proof.
  apply (Calculate_deterministic canonical_range reverse_range). by apply sample_report_calculated.
Defined.

Lemma Calculate_total_witness :
  exists cardKey charge measures value,
    @bills dec _ _ canonical_range sample_engine sample_event [] cardKey charge measures value /\
    (toQ (CostBreakdown_Total sample_report) == round_places (toQ value) 6)%Q /\
    (toQ (CostBreakdown_OperationCredits sample_report) == toQ (CostBreakdown_Total sample_report))%Q /\
    is_money (CostBreakdown_Total sample_report) /\ (0 <= toQ (CostBreakdown_Total sample_report))%Q /\
    (toQ value - (1 # 2000000) <= toQ (CostBreakdown_Total sample_report) <= toQ value + (1 # 2000000))%Q.
Proof.
  apply (@Calculate_total dec _ _ canonical_range sample_engine sample_event [] sample_report).
  by apply sample_report_calculated.
Defined.

Lemma CalculateBatch_all_or_nothing_witness :
  match @CalculateBatch dec _ canonical_range sample_engine [sample_event; sample_event] [] with
  | Ok reports =>
      Forall2 (fun event report => @Calculate dec _ canonical_range sample_engine event [] = Ok report)
        [sample_event; sample_event] reports
  | Err err => exists i event, [sample_event; sample_event] !! i = Some event /\
      @Calculate dec _ canonical_range sample_engine event [] = Err err /\
      Forall (fun earlier => exists report, @Calculate dec _ canonical_range sample_engine earlier [] = Ok report)
        (take i [sample_event; sample_event])
  end.
Proof. apply (@CalculateBatch_all_or_nothing dec _ canonical_range). cbn. lia. Defined.
