(* ===== verification/ConfigFacts.v ===== *)
(** * What the catalog parsers return: scalars, maps, tiers, references *)

From S2P Require Export ConfigLoad RateCards Expr.
From S2P Require Import DecimalRef.
Local Open Scope Z_scope.
Local Open Scope go_scope.

Lemma fold_result_fmap {A B C} (f : B -> A -> result B) (h : C -> A) acc (l : list C) :
  fold_result f acc (h <$> l) = fold_result (fun acc c => f acc (h c)) acc l.
Proof. revert acc. induction l as [|c l IH]; intros acc; cbn; [done|]. destruct (f acc (h c)); cbn; auto. Qed.

(** ** Loops over the entries of an object *)
Section entries.
Context {D : Type} `{RangeOrder}.
Implicit Types (values : gmap string (any D)).

Definition parsed_map {A} (f : string -> any D -> result A) values (m : gmap string A) : Prop :=
  forall k, match values !! k with
            | Some v => exists a, f k v = Ok a /\ m !! k = Some a
            | None => m !! k = None
            end.

Lemma parse_range_Ok {A} (f : string -> any D -> result A) values m :
  parse_range f values = Ok m <-> parsed_map f values m.
Proof.
  unfold parse_range. rewrite (fold_result_range _ (fun k v => a <- f k v ;; Ok (Some a)));
    [|intros acc k v; by destruct (f k v)].
  apply forall_proper. intros k. destruct (values !! k) as [v|]; [|done].
  rewrite bind_Ok. split.
  - intros (a & Ha & [= <-]). eauto.
  - intros (a & Ha & ->). eauto.
Qed.

Lemma elem_of_sortedConfigKeys values k : k ∈ sortedConfigKeys values <-> is_Some (values !! k).
Proof.
  unfold sortedConfigKeys. rewrite elem_of_sort_strings, list_elem_of_fmap. split.
  - intros ([k' v] & -> & Hin%elem_of_range). eauto.
  - intros [v Hv]. exists (k, v). split; [done|]. by apply elem_of_range.
Qed.

Lemma parse_entries_Ok {A} (f : string -> any D -> result A) values m :
  parse_entries f values = Ok m <-> parsed_map f values m.
Proof.
  unfold parse_entries.
  rewrite <- (fold_result_fmap (fun (parsed : gmap string A) '(key, value) =>
    item <- f key value ;; Ok (<[key := item]> parsed)) (fun key => (key, field values key))).
  assert (((fun key => (key, field values key)) <$> sortedConfigKeys values).*1 = sortedConfigKeys values) as Hfst.
  { rewrite <- list_fmap_compose. apply list_fmap_id. }
  rewrite (fold_result_insert _ (fun k v => a <- f k v ;; Ok (Some a)));
    [|intros acc k v; by destruct (f k v)| |intros; apply lookup_empty].
  2: { rewrite Hfst. unfold sortedConfigKeys. rewrite sort_strings_perm. apply NoDup_fst_range. }
  rewrite Hfst. setoid_rewrite elem_of_sortedConfigKeys. split.
  - intros [Hin Hout] k. destruct (values !! k) as [v|] eqn:Hk.
    + specialize (Hin k v). assert (field values k = v) as Hv by (unfold field; by rewrite Hk).
      rewrite bind_Ok in Hin. destruct Hin as (a & Ha & [= <-]); [|eauto].
      apply list_elem_of_fmap. exists k. rewrite Hv, elem_of_sortedConfigKeys. eauto.
    + rewrite Hout; [apply lookup_empty|]. rewrite Hk. by intros [? ?].
  - intros Hall. split.
    + intros k v (k' & [= -> ->] & Hk'%elem_of_sortedConfigKeys)%list_elem_of_fmap.
      specialize (Hall k'). unfold field. destruct Hk' as [v Hv]. rewrite Hv in Hall |- *.
      destruct Hall as (a & Ha & ->). cbn. by rewrite Ha.
    + intros k Hk. rewrite lookup_empty. specialize (Hall k).
      destruct (values !! k); [by destruct Hk|done].
Qed.

Lemma parsed_map_lookup {A} (f : string -> any D -> result A) values m k a :
  parsed_map f values m -> m !! k = Some a -> exists v, values !! k = Some v /\ f k v = Ok a.
Proof.
  intros Hm Hk. specialize (Hm k). destruct (values !! k) as [v|]; [|congruence].
  exists v. destruct Hm as (a' & ? & ?). split; [done|]. congruence.
Qed.

Lemma parse_items_Ok {A B} (f : A -> string -> result B) items path index ys :
  parse_items f items path index = Ok ys ->
  Forall2 (fun x y => exists p, f x p = Ok y) items ys.
Proof.
  revert index ys. induction items as [|x items IH]; intros index ys; cbn; [by intros [= <-]|].
  intros (y & Hy & (ys' & Hys & [= <-])%bind_Ok)%bind_Ok. constructor; eauto.
Qed.

Lemma parse_items_Forall {A B} (f : A -> string -> result B) (P : B -> Prop) items path index ys :
  (forall x p y, f x p = Ok y -> P y) -> parse_items f items path index = Ok ys -> Forall P ys.
Proof.
  intros Hf Hys%parse_items_Ok. induction Hys as [|x y xs ys [p Hp] _ IH]; constructor; eauto.
Qed.

Lemma optional_Ok {A} (default_ : A) (f : any D -> result A) raw key a :
  optional default_ f raw key = Ok a ->
  (present raw key = None /\ a = default_) \/ exists v, present raw key = Some v /\ f v = Ok a.
Proof. unfold optional. destruct (present raw key); [eauto|]. intros [= <-]. auto. Qed.

Lemma optional_pointer_Ok {A} (f : any D -> result A) raw key a :
  optional_pointer f raw key = Ok (Some a) -> exists v, present raw key = Some v /\ f v = Ok a.
Proof.
  unfold optional_pointer. intros Ho. apply optional_Ok in Ho as [[_ Hn] | (v & Hv & Ha)]; [done|]. apply bind_Ok in Ha as (a' & Ha & [= ->]). eauto.
Qed.
End entries.

(** ** Integers *)
Section integers.
Context {D : Type} `{DecimalOps D}.

Lemma int_of_int64_safe z : Z.abs z <= safeIntegerMax -> int_of_int64 z = z.
Proof.
  unfold safeIntegerMax, int_of_int64. intros Hz. rewrite Z.mod_small; lia.
Qed.

Lemma configInt64_safe (value : any D) path z : configInt64 value path = Ok z -> Z.abs z <= safeIntegerMax.
Proof.
  unfold configInt64. intros (z' & _ & Hz)%bind_Ok.
  destruct (_ || _) eqn:Hr in Hz; [done|]. injection Hz as <-.
  apply orb_false_iff in Hr as [H1%Z.ltb_ge H2%Z.ltb_ge]. unfold safeIntegerMax in *. lia.
Qed.

Lemma configInteger_Int64 (value : any D) path : configInteger value path = configInt64 value path.
Proof.
  unfold configInteger. destruct (configInt64 value path) as [z|] eqn:Hz; cbn; [|done].
  apply configInt64_safe, int_of_int64_safe in Hz. rewrite Hz. by rewrite Z.eqb_refl.
Qed.

(** An integer field is read exactly or refused: what configInteger
    returns is the number the value denotes (a JSON integer, any Go integer
    type, a float64 with no fraction), between -(2^53-1) and 2^53-1, so the
    conversion to a platform int never changes it; a non-integral float,
    NaN or infinity is refused. *)
Theorem configInteger_exact (value : any D) path z :
  configInteger value path = Ok z ->
  Z.abs z <= safeIntegerMax /\
  match value with
  | ANumber text => ParseInt text = Some z
  | AInt _ n => z = n
  | AFloat (FFinite q _) => (q == inject_Z z)%Q
  | _ => False
  end.
Proof.
  rewrite configInteger_Int64. intros Hz. split; [by eapply configInt64_safe|].
  unfold configInt64 in Hz. apply bind_Ok in Hz as (z' & Hz' & Hz).
  destruct (_ || _) in Hz; [done|]. injection Hz as ->. unfold int64_of in Hz'.
  destruct value as [| | |k n|f|text| | | | | |]; try done.
  - destruct k; try (destruct (max_int64 <? n); [done|]); congruence.
  - destruct f as [| |q g]; try done. destruct (Qeq_bool _ q) eqn:Hq; [|done].
    cbn [negb] in Hz'. destruct (_ || _) in Hz'; [done|]. injection Hz' as <-.
    apply Qeq_bool_eq in Hq. by rewrite Hq.
  - destruct (ParseInt text); [|done]. congruence.
Qed.
End integers.

(** 3.0 from an untyped map is the integer 3. *)
Lemma configInteger_exact_witness :
  Z.abs 3 <= safeIntegerMax /\ (3 # 1 == inject_Z 3)%Q.
Proof.
  exact (configInteger_exact (D := dec) (AFloat (FFinite (3 # 1) "3")) "count" 3 eq_refl).
Defined.

(** ** Reading JSON without losing a key

    [encodes v tokens]: [tokens] is a token stream of the value [v], its
    objects' members in any order and each key once.  [decodeJSONValue] reads
    exactly the prefixes that encode a value. *)

Section json.
Context {D : Type}.
Local Notation token := (json_token D).
Implicit Types (v : any D) (ts : list token).

(** The token of an object key. *)
Definition key_token (k : string) : token := Scalar (AString k).

Inductive encodes : any D -> list token -> Prop :=
  | encodes_scalar v : encodes v [Scalar v]
  | encodes_array items ts : encodes_items items ts -> encodes (ASlice items) (Delim "[" :: ts ++ [Delim "]"])
  | encodes_object members ts : encodes_members ∅ members ts ->
      encodes (AMap members) (Delim "{" :: ts ++ [Delim "}"])
with encodes_items : list (any D) -> list token -> Prop :=
  | items_nil : encodes_items [] []
  | items_cons v ts items ts' : encodes v ts -> encodes_items items ts' ->
      encodes_items (v :: items) (ts ++ ts')
(** From the members read so far to all of them: a key is met once. *)
with encodes_members : gmap string (any D) -> gmap string (any D) -> list token -> Prop :=
  | members_nil m : encodes_members m m []
  | members_cons m k v ts m' ts' : m !! k = None -> encodes v ts -> encodes_members (<[k := v]> m) m' ts' ->
      encodes_members m m' (key_token k :: ts ++ ts').

Scheme encodes_mut := Induction for encodes Sort Prop
  with items_mut := Induction for encodes_items Sort Prop
  with members_mut := Induction for encodes_members Sort Prop.
Combined Scheme encodes_ind3 from encodes_mut, items_mut, members_mut.

Lemma encodes_more v ts rest : encodes v ts -> More (ts ++ rest) = true /\ (0 < length ts)%nat.
Proof. destruct 1; cbn; split; done || lia. Qed.

(** ** What is read is an encoding *)
Lemma close_Ok c message ts rest : close c message ts = Ok rest -> ts = Delim c :: rest.
Proof.
  unfold close. destruct ts as [|[d|v] ts]; cbn; try done.
  destruct (Ascii.eqb_spec d c) as [->|]; [|done]. by intros [= ->].
Qed.

Section sound.
Variable decode : list token -> result (any D * list token).
Hypothesis decode_sound : forall ts v rest, decode ts = Ok (v, rest) ->
  exists ts', ts = ts' ++ rest /\ encodes v ts'.

Lemma decode_elements_sound fuel items ts all rest :
  decode_elements decode fuel items ts = Ok (all, rest) ->
  exists more ts', all = items ++ more /\ ts = ts' ++ rest /\ encodes_items more ts' /\ More rest = false.
Proof.
  revert items ts. induction fuel as [|fuel IH]; intros items ts; cbn; destruct (More ts) eqn:Hm; cbn; try done.
  1,3: intros [= <- <-]; exists [], []; rewrite app_nil_r; by repeat constructor.
  intros ([v ts1] & Hd & He)%bind_Ok. apply decode_sound in Hd as (ts' & -> & Hv).
  apply IH in He as (more & ts'' & -> & -> & Hitems & Hrest).
  exists (v :: more), (ts' ++ ts''). rewrite <- !app_assoc. split_and!; [done..| |done]. by constructor.
Qed.

Lemma decode_members_sound fuel m ts all rest :
  decode_members decode fuel m ts = Ok (all, rest) ->
  exists ts', ts = ts' ++ rest /\ encodes_members m all ts' /\ More rest = false.
Proof.
  revert m ts. induction fuel as [|fuel IH]; intros m ts; cbn; destruct (More ts) eqn:Hm; cbn; try done.
  1,3: intros [= <- <-]; exists []; by repeat constructor.
  destruct ts as [|[d|k] ts]; cbn; try done. destruct k as [|k| | | | | | | | | |]; try done.
  destruct (m !! k) eqn:Hk; [done|].
  intros ([v ts1] & Hd & He)%bind_Ok. apply decode_sound in Hd as (ts' & -> & Hv).
  apply IH in He as (ts'' & -> & Hms & Hrest).
  exists (key_token k :: ts' ++ ts''). cbn. rewrite <- app_assoc. split_and!; [done| |done]. by eapply members_cons.
Qed.
End sound.

Lemma decodeJSONValue_sound fuel ts v rest :
  decodeJSONValue fuel ts = Ok (v, rest) -> exists ts', ts = ts' ++ rest /\ encodes v ts'.
Proof.
  revert ts v rest. induction fuel as [|fuel IH]; intros ts v rest; cbn; [done|].
  destruct ts as [|[d|x] ts]; cbn; [done| |intros [= -> ->]; exists [Scalar v]; by repeat constructor].
  destruct (Ascii.eqb_spec d "{") as [->|_].
  { intros ([m ts1] & Hd & Hr)%bind_Ok. apply (decode_members_sound _ IH) in Hd as (ts' & -> & Hm & _).
    apply bind_Ok in Hr as (ts2 & ->%close_Ok & [= <- <-]).
    exists (Delim "{" :: ts' ++ [Delim "}"]). cbn. rewrite <- app_assoc. split; [done|]. by constructor. }
  destruct (Ascii.eqb_spec d "[") as [->|_]; [|done].
  intros ([items ts1] & Hd & Hr)%bind_Ok.
  apply (decode_elements_sound _ IH) in Hd as (more & ts' & -> & -> & Hi & _).
  apply bind_Ok in Hr as (ts2 & ->%close_Ok & [= <- <-]).
  exists (Delim "[" :: ts' ++ [Delim "]"]). cbn. rewrite <- app_assoc. split; [done|]. by constructor.
Qed.

(** ** Every encoding is read *)
Lemma decode_complete :
  (forall v ts, encodes v ts -> forall fuel rest, (length ts <= fuel)%nat ->
     decodeJSONValue fuel (ts ++ rest) = Ok (v, rest)) /\
  (forall items ts, encodes_items items ts -> forall fuel n acc rest, (length ts <= fuel)%nat -> (length ts <= n)%nat ->
     More rest = false -> decode_elements (decodeJSONValue fuel) n acc (ts ++ rest) = Ok (acc ++ items, rest)) /\
  (forall m m' ts, encodes_members m m' ts -> forall fuel n rest, (length ts <= fuel)%nat -> (length ts <= n)%nat ->
     More rest = false -> decode_members (decodeJSONValue fuel) n m (ts ++ rest) = Ok (m', rest)).
Proof.
  apply encodes_ind3.
  - intros v [|fuel] rest Hf; cbn in Hf; [lia|]. done.
  - intros items ts _ IH [|fuel] rest Hf; cbn in Hf; [lia|]. rewrite length_app in Hf. cbn in Hf.
    cbn. rewrite <- app_assoc, IH by (done || rewrite ?length_app; cbn; lia). done.
  - intros m ts _ IH [|fuel] rest Hf; cbn in Hf; [lia|]. rewrite length_app in Hf. cbn in Hf.
    cbn. rewrite <- app_assoc, IH by (done || rewrite ?length_app; cbn; lia). done.
  - intros fuel n acc rest _ _ Hr. rewrite app_nil_r. cbn. destruct n; cbn; by rewrite Hr.
  - intros v ts items ts' Hv IHv _ IHi fuel n acc rest Hf Hn Hr. rewrite length_app in Hf, Hn.
    destruct (encodes_more v ts (ts' ++ rest) Hv) as [Hm Hl]. destruct n as [|n]; [lia|].
    rewrite <- app_assoc. cbn. rewrite Hm. cbn. rewrite IHv by lia. cbn.
    rewrite IHi by (done || lia). by rewrite <- app_assoc.
  - intros m fuel n rest _ _ Hr. cbn. destruct n; cbn; by rewrite Hr.
  - intros m k v ts m' ts' Hk Hv IHv _ IHm fuel n rest Hf Hn Hr. cbn in Hf, Hn. rewrite length_app in Hf, Hn.
    destruct n as [|n]; [lia|]. cbn. rewrite Hk, <- app_assoc, IHv by lia. cbn. apply IHm; done || lia.
Qed.

(** ** No step is lost to fuel *)
Section fuel.
Variable decode : list token -> result (any D * list token).
Variable limit : nat.
Hypothesis decode_fuel : forall ts, (length ts <= limit)%nat -> decode ts <> Err FuelExhausted.
Hypothesis decode_shorter : forall ts v rest, decode ts = Ok (v, rest) -> (length rest < length ts)%nat.

Lemma decode_elements_fuel n items ts :
  (length ts <= n)%nat -> (length ts <= limit)%nat -> decode_elements decode n items ts <> Err FuelExhausted.
Proof.
  revert items ts. induction n as [|n IH]; intros items ts Hn Hl; cbn; destruct (More ts) eqn:Hm; cbn; try done.
  { destruct ts; cbn in *; [done|lia]. }
  pose proof (decode_fuel ts Hl). destruct (decode ts) as [[v rest]|e] eqn:Hd; cbn; [|by intros [= ->]].
  apply decode_shorter in Hd. apply IH; lia.
Qed.

Lemma decode_members_fuel n m ts :
  (length ts <= n)%nat -> (length ts <= limit)%nat -> decode_members decode n m ts <> Err FuelExhausted.
Proof.
  revert m ts. induction n as [|n IH]; intros m ts Hn Hl; cbn; destruct (More ts) eqn:Hm; cbn; try done.
  { destruct ts; cbn in *; [done|lia]. }
  destruct ts as [|[d|k] ts]; cbn; try done. destruct k as [|k| | | | | | | | | |]; try done.
  destruct (m !! k); [done|]. cbn in *. pose proof (decode_fuel ts ltac:(lia)).
  destruct (decode ts) as [[v rest]|e] eqn:Hd; cbn; [|by intros [= ->]]. apply decode_shorter in Hd. apply IH; lia.
Qed.
End fuel.

Lemma decodeJSONValue_shorter fuel ts v rest :
  decodeJSONValue fuel ts = Ok (v, rest) -> (length rest < length ts)%nat.
Proof.
  intros (ts' & -> & Hv)%decodeJSONValue_sound. destruct (encodes_more v ts' [] Hv). rewrite length_app. lia.
Qed.

Lemma decodeJSONValue_fuel fuel ts : (length ts < fuel)%nat -> decodeJSONValue fuel ts <> Err FuelExhausted.
Proof.
  revert ts. induction fuel as [|fuel IH]; intros ts Hf; [lia|]. cbn.
  destruct ts as [|[d|x] ts]; cbn in *; [done| |done]. destruct (Ascii.eqb d "{").
  - pose proof (decode_members_fuel (decodeJSONValue fuel) (length ts) ltac:(intros; apply IH; lia)
      (decodeJSONValue_shorter fuel) (length ts) ∅ ts ltac:(lia) ltac:(lia)).
    destruct (decode_members _ _ _ _) as [[m rest]|]; cbn; [|by intros [= ->]].
    unfold close. destruct rest as [|[c|] rest]; cbn; try done. by destruct (Ascii.eqb c "}").
  - destruct (Ascii.eqb d "["); [|done].
    pose proof (decode_elements_fuel (decodeJSONValue fuel) (length ts) ltac:(intros; apply IH; lia)
      (decodeJSONValue_shorter fuel) (length ts) [] ts ltac:(lia) ltac:(lia)).
    destruct (decode_elements _ _ _ _) as [[m rest]|]; cbn; [|by intros [= ->]].
    unfold close. destruct rest as [|[c|] rest]; cbn; try done. by destruct (Ascii.eqb c "]").
Qed.

(** C6: decodeJSONValue reads a value exactly when the tokens begin with an
    encoding of it in which no object repeats a key, and leaves the rest:
    whatever order the members come in every one of them is kept, and a
    document with a duplicate key, a key that is not a string or a container
    closed by the wrong delimiter is refused.  On fuel above the number of
    tokens, which is what LoadConfigJSON gives it, it always answers. *)
Theorem decodeJSONValue_exact ts v rest :
  (decodeJSONValue (S (length ts)) ts = Ok (v, rest) <-> exists prefix, ts = prefix ++ rest /\ encodes v prefix) /\
  decodeJSONValue (S (length ts)) ts <> Err FuelExhausted.
Proof.
  split; [split|].
  - apply decodeJSONValue_sound.
  - intros (prefix & -> & Hv). apply decode_complete; [done|]. rewrite length_app. lia.
  - apply decodeJSONValue_fuel. lia.
Qed.
End json.
