(* ===== verification/ConfigPricingFacts.v ===== *)
(** * A parsed price can be evaluated, and pricing fails only by the caller's fault

    What [parsePricing] accepts, the engine can run: the charges a catalog
    resolves to fail only for the reasons listed by [charge_error]. *)

From S2P Require Export ConfigFacts Pricing.
From S2P Require Import DecimalRef.
Local Open Scope go_scope.

Section charges.
Context {D : Type} `{DecimalLaws D} `{RangeOrder} `{TimeZones}.

(** What the parser checks of the fields its type selects. *)
Definition fields_checked (c : Charge D) : Prop :=
  let t := Charge_Type c in
  t = "flat" \/ t = "expression" \/ t = "sum" \/ t = "graduated" \/
  (t = "per_unit" /\ (0 < toQ (Charge_UnitSize c))%Q) \/
  (t = "package" /\ (0 < toQ (Charge_Units c))%Q) \/
  (t = "volume" /\ exists tier, last (Charge_Tiers c) = Some tier).

(** At every level of the charge. *)
Inductive everywhere (P : Charge D -> Prop) : Charge D -> Prop :=
  | everywhere_intro c : P c -> Forall (everywhere P) (Charge_Components c) -> everywhere P c.

Lemma everywhere_inv P c : everywhere P c -> P c /\ Forall (everywhere P) (Charge_Components c).
Proof. by inversion 1. Qed.

Lemma parseTiers_last value path (tiers : list (GraduatedTier D)) :
  parseTiers value path = Ok tiers ->
  exists tier, last tiers = Some tier /\ GraduatedTier_UpTo tier = None /\
               validate_bounds None (removelast tiers) = Ok tt.
Proof.
  unfold parseTiers. intros (inputs & _ & (ts & _ & Ht)%bind_Ok)%bind_Ok.
  destruct (last ts) as [tier|] eqn:Hl; [|done]. destruct tier as [[upTo|] rate]; [done|].
  apply bind_Ok in Ht as ([] & Hv & [= ->]). eauto.
Qed.

Lemma parse_charge_levels_checked levels value path (c : Charge D) :
  parse_charge_levels levels value path = Ok c -> everywhere fields_checked c.
Proof.
  revert value path c. induction levels as [|levels IH]; intros value path c; cbn; [done|].
  intros (raw & _ & Hc)%bind_Ok. apply bind_Ok in Hc as (kind & _ & Hc).
  destruct (String.eqb_spec kind "flat") as [Hk|_].
  { subst kind. unfold parse_flat in Hc. inv_bind. constructor; [by left|constructor]. }
  destruct (String.eqb_spec kind "per_unit") as [Hk|_].
  { subst kind. unfold parse_per_unit in Hc. inv_bind. destruct (GreaterThan a1 dec_zero) eqn:Hg; [|done].
    injection Hc as <-. constructor; [|constructor]. do 4 right. left. split; [done|]. cbn.
    apply GreaterThan_spec in Hg. by rewrite toQ_zero in Hg. }
  destruct (String.eqb_spec kind "package") as [Hk|_].
  { subst kind. unfold parse_package in Hc. inv_bind. destruct (GreaterThan a0 dec_zero) eqn:Hg; [|done].
    injection Hc as <-. constructor; [|constructor]. do 5 right. left. split; [done|]. cbn.
    apply GreaterThan_spec in Hg. by rewrite toQ_zero in Hg. }
  destruct (_ || _) eqn:Ht in Hc.
  { unfold parse_tiered in Hc. inv_bind. constructor; [|constructor].
    match goal with Hp : parseTiers _ _ = Ok _ |- _ => apply parseTiers_last in Hp as (tier & Hl & _) end.
    apply orb_true_iff in Ht as [->%String.eqb_eq | ->%String.eqb_eq].
    - by do 3 right; left.
    - do 6 right. split; [done|]. by exists tier. }
  destruct (String.eqb_spec kind "expression") as [Hk|_].
  { subst kind. unfold parse_expression in Hc. inv_bind. constructor; [by right; left|constructor]. }
  destruct (String.eqb_spec kind "sum") as [Hk|_]; [|done].
  apply bind_Ok in Hc as (inputs & _ & (components & Hcs & [= <-])%bind_Ok).
  constructor; [by do 2 right; left|]. cbn. eapply parse_items_Forall; [|done]. eauto.
Qed.

(** ** Measures and formulas *)
Lemma chargeMeasures_mono (c : Charge D) acc x : is_Some (acc !! x) -> is_Some (chargeMeasures c acc !! x).
Proof.
  revert acc. induction c as [c IH] using Charge_nested_ind. intros acc Hx. destruct c; cbn in *.
  assert (is_Some ((if negb (Charge_Measure =? "") then <[Charge_Measure := tt]> acc else acc) !! x)) as Hx'.
  { destruct (negb _); [|done]. destruct (decide (x = Charge_Measure)) as [->|Hne].
    - rewrite lookup_insert_eq. eauto.
    - by rewrite lookup_insert_ne. }
  revert Hx'. generalize (if negb (Charge_Measure =? "") then <[Charge_Measure := tt]> acc else acc).
  induction IH as [|c l Hc _ IHl]; intros m Hm; cbn; auto.
Qed.

Lemma chargeMeasures_here (c : Charge D) acc :
  Charge_Measure c <> "" -> is_Some (chargeMeasures c acc !! Charge_Measure c).
Proof.
  destruct c as [? ? Charge_Measure ? ? ? ? ? ? cs]; cbn. intros Hne%String.eqb_neq. rewrite Hne. cbn.
  assert (forall (l : list (Charge D)) m, is_Some (m !! Charge_Measure) ->
    is_Some (fold_left (fun acc component => chargeMeasures component acc) l m !! Charge_Measure)) as Hl.
  { clear. induction l as [|c l IH]; intros m Hm; cbn; [done|]. by apply IH, chargeMeasures_mono. }
  apply Hl. rewrite lookup_insert_eq. eauto.
Qed.

Lemma chargeMeasures_component (c component : Charge D) x :
  component ∈ Charge_Components c -> (forall acc, is_Some (chargeMeasures component acc !! x)) ->
  forall acc, is_Some (chargeMeasures c acc !! x).
Proof.
  destruct c as [? ? m ? ? ? ? ? ? cs]; cbn. intros Hin Hx acc.
  generalize (if negb (m =? "") then <[m := tt]> acc else acc).
  assert (forall (l : list (Charge D)) acc, is_Some (acc !! x) ->
    is_Some (fold_left (fun acc component => chargeMeasures component acc) l acc !! x)) as Hl.
  { clear. induction l as [|c l IH]; intros m Hm; cbn; [done|]. by apply IH, chargeMeasures_mono. }
  induction Hin as [c l | c d l Hin IH]; intros g; cbn; [by apply Hl | by apply IH].
Qed.

(** The measure a level of the charge names is declared, unless empty. *)
Definition measure_declared (definition : OperationDefinition) (c : Charge D) : Prop :=
  Charge_Measure c = "" \/ is_Some (OperationDefinition_Measures definition !! Charge_Measure c).

(** The formula of an expression charge is valid for the declared measures. *)
Definition formula_valid (definition : OperationDefinition) (c : Charge D) : Prop :=
  Charge_Type c = "expression" ->
  exists known, (forall x, x ∈ known -> is_Some (OperationDefinition_Measures definition !! x)) /\
                ValidateExpression (D := D) (Charge_Formula c) known = Ok tt.

Lemma everywhere_measures P (c : Charge D) :
  (forall x, (forall acc, is_Some (chargeMeasures c acc !! x)) -> P x) ->
  everywhere (fun c => Charge_Measure c = "" \/ P (Charge_Measure c)) c.
Proof.
  induction c as [c IH] using Charge_nested_ind. intros HP. constructor.
  - destruct (decide (Charge_Measure c = "")); [by left|right]. apply HP. intros acc.
    by apply chargeMeasures_here.
  - rewrite Forall_forall in *. intros component Hin. apply IH; [done|]. intros x Hx. apply HP.
    by eapply chargeMeasures_component.
Qed.

Lemma validateExpressionCharge_everywhere known (c : Charge D) :
  validateExpressionCharge known c = Ok tt ->
  everywhere (fun c => Charge_Type c = "expression" ->
                       ValidateExpression (D := D) (Charge_Formula c) known = Ok tt) c.
Proof.
  induction c as [c IH] using Charge_nested_ind. destruct c; cbn. intros ([] & Ht & Hl)%bind_Ok.
  constructor; cbn.
  - intros ->. done.
  - apply for_each_Ok in Hl. cbn in IH. rewrite Forall_forall in *. auto.
Qed.

Lemma validatePricingCharge_Ok (c : Charge D) definition key :
  validatePricingCharge c definition key = Ok tt ->
  everywhere (measure_declared definition) c /\ everywhere (formula_valid definition) c.
Proof.
  unfold validatePricingCharge. intros ([] & Hm & Hv)%bind_Ok. split.
  - apply (everywhere_measures (fun x => is_Some (OperationDefinition_Measures definition !! x))). intros x Hx. destruct (Hx ∅) as [[] Hin].
    rewrite for_each_range in Hm. specialize (Hm _ _ Hin). cbn in Hm.
    by destruct (OperationDefinition_Measures definition !! x).
  - apply validateExpressionCharge_everywhere in Hv. revert Hv. clear Hm.
    induction c as [c IH] using Charge_nested_ind. intros [Hc Hl]%everywhere_inv. constructor.
    + intros Ht. eexists. split; [|by apply Hc]. intros x Hx.
      rewrite elem_of_sort_strings, list_elem_of_fmap in Hx. destruct Hx as ([k v] & -> & Hin).
      apply elem_of_range in Hin. eauto.
    + rewrite Forall_forall in *. auto.
Qed.

(** ** Evaluation *)

(** Every formula is a Go string, whose length is an int. *)
Definition addressable (c : Charge D) : Prop := (Z.of_nat (String.length (Charge_Formula c)) < 2 ^ 63)%Z.

(** Why a checked charge can still fail: arithmetic, a package rounding the
    schema would have refused, or an empty measure name, which the checks
    let through. *)
Definition charge_error (e : error) : Prop :=
  e ∈ arithmetic_errors \/
  (exists rounding, rounding ∉ ["ceil"; "floor"; "nearest"] /\
     e = newConfigError ("unsupported package rounding '" +:+ rounding +:+ "'") None) \/
  e = newConfigError "price charge references missing usage measure ''" None.

Lemma requiredMeasure_declared definition (c : Charge D) (measures : gmap string D) :
  measure_declared definition c ->
  (forall x, is_Some (OperationDefinition_Measures definition !! x) -> is_Some (measures !! x)) ->
  match requiredMeasure measures (Charge_Measure c) with Ok _ => True | Err e => charge_error e end.
Proof.
  intros Hm Hcover. unfold requiredMeasure. destruct (measures !! Charge_Measure c) eqn:Hl; [done|].
  destruct Hm as [Hm | Hm%Hcover]; [|rewrite Hl in Hm; by destruct Hm].
  rewrite Hm. right. right. done.
Qed.

Lemma decimalDiv_positive (a b : D) : (0 < toQ b)%Q -> exists c, decimalDiv a b = Ok c.
Proof.
  intros Hb. eexists. apply decimalDiv_Ok. split; [|done]. apply IsZero_false. lra.
Qed.

Lemma round_packages_error rounding (p : D) e : round_packages rounding p = Err e -> charge_error e.
Proof.
  unfold round_packages. intros He. right. left. exists rounding.
  repeat (case_match; [done|]). injection He as <-. rewrite !String.eqb_neq in *. split; [set_solver|done].
Qed.

Lemma evaluateCharge_error definition (c : Charge D) (measures : gmap string D) :
  everywhere fields_checked c -> everywhere (measure_declared definition) c ->
  everywhere (formula_valid definition) c -> everywhere addressable c ->
  (forall x, is_Some (OperationDefinition_Measures definition !! x) -> is_Some (measures !! x)) ->
  match evaluateCharge c measures with Ok _ => True | Err e => charge_error e end.
Proof.
  intros Hf Hm Hv Ha Hcover. revert Hf Hm Hv Ha. induction c as [c IH] using Charge_nested_ind.
  intros [Hf Hfs]%everywhere_inv [Hm Hms]%everywhere_inv [Hv Hvs]%everywhere_inv [Ha Has]%everywhere_inv.
  pose proof (requiredMeasure_declared definition c measures Hm Hcover) as Hreq.
  destruct c as [type_ amount measure rate unitSize units rounding tiers formula components].
  unfold fields_checked, formula_valid, addressable in Hf, Hv, Ha. cbn in *.
  destruct Hf as [-> | [-> | [-> | [-> | [[-> Hf] | [[-> Hf] | [-> [tier Hf]]]]]]]]; cbn in *.
  - done.
  - destruct (Hv eq_refl) as (known & Hknown & Hvalid).
    pose proof (EvaluateExpression_validated formula known measures Ha Hvalid ltac:(auto)) as He.
    destruct (EvaluateExpression formula measures); [done|]. by left.
  - assert (Forall (fun c => match evaluateCharge c measures with Ok _ => True | Err e => charge_error e end)
      components) as Hall.
    { apply Forall_forall. intros x Hx. apply (proj1 (Forall_forall _ _) IH x Hx);
        [by apply (proj1 (Forall_forall _ _) Hfs) | by apply (proj1 (Forall_forall _ _) Hms)
        | by apply (proj1 (Forall_forall _ _) Hvs) | by apply (proj1 (Forall_forall _ _) Has)]. }
    generalize dec_zero. clear -Hall. induction Hall as [|c l Hc _ IHl]; intros total; cbn; [done|].
    destruct (evaluateCharge c measures); cbn [bind]; [apply IHl|done].
  - destruct (requiredMeasure measures measure); [done|done].
  - destruct (requiredMeasure measures measure) as [m|]; cbn [bind]; [|done].
    by destruct (decimalDiv_positive m unitSize Hf) as [q ->].
  - destruct (requiredMeasure measures measure) as [m|]; cbn [bind]; [|done].
    destruct (decimalDiv_positive m units Hf) as [q ->]. cbn [bind].
    destruct (round_packages rounding q) eqn:Hr; [done|]. by eapply round_packages_error.
  - destruct (requiredMeasure measures measure) as [m|]; cbn [bind]; [|done]. by rewrite Hf.
Qed.

(** ** From the parser to the engine *)

Lemma parsePricing_Ok value (pricing : PricingConfig D) :
  parsePricing value = Ok pricing ->
  validateRateCardInheritance pricing = Ok tt /\
  exists raw : gmap string (any D),
    parsed_map (parse_rate_card (PricingConfig_Operations pricing)) raw (PricingConfig_RateCards pricing).
Proof.
  unfold parsePricing. intros Hp. inv_bind. destruct (_ || _) in Hp; [done|]. inv_bind. cbn.
  match goal with Hc : parse_entries (parse_rate_card _) _ = Ok _ |- _ => apply parse_entries_Ok in Hc end.
  split; [by destruct a6|eauto].
Qed.

(** The charges a price can select. *)
Definition charge_of (price : OperationPricing D) (charge : Charge D) : Prop :=
  (exists rule, rule ∈ OperationPricing_Rules price /\ PriceRule_Charge rule = charge) \/
  UnmatchedPolicy_Charge (OperationPricing_Unmatched price) = Some charge.

Definition checked_charge (definition : OperationDefinition) (c : Charge D) : Prop :=
  everywhere fields_checked c /\ everywhere (measure_declared definition) c /\
  everywhere (formula_valid definition) c.

Lemma parse_checked_charge_Ok definition key value path (c : Charge D) :
  parse_checked_charge definition key value path = Ok c -> checked_charge definition c.
Proof.
  unfold parse_checked_charge, parseCharge. intros Hc. inv_bind. destruct a0.
  split; [by eapply parse_charge_levels_checked | by eapply validatePricingCharge_Ok].
Qed.

Lemma parse_operation_pricing_Ok operations cardKey path key value (price : OperationPricing D) :
  parse_operation_pricing operations cardKey path key value = Ok price ->
  exists definition, operations !! key = Some definition /\
    forall charge, charge_of price charge -> checked_charge definition charge.
Proof.
  unfold parse_operation_pricing. destruct (operations !! key) as [definition|]; [|done].
  intros Hp. exists definition. split; [done|]. inv_bind. cbn.
  intros charge [(rule & Hrule & <-) | Hun]; cbn in *.
  - match goal with Hr : parse_items (parse_rule _ _) _ _ _ = Ok _ |- _ =>
      eapply (parse_items_Forall _ (fun r => checked_charge definition (PriceRule_Charge r))) in Hr end.
    + match goal with Hr : Forall _ _ |- _ => rewrite Forall_forall in Hr; by apply Hr end.
    + intros x p r Hx. unfold parse_rule in Hx. inv_bind. cbn. by eapply parse_checked_charge_Ok.
  - subst. match goal with Hc : (if _ =? "charge" then _ else _) = Ok (Some _) |- _ =>
      destruct (_ =? _) in Hc; [|done]; apply bind_Ok in Hc as (c & Hc & [= <-]) end.
    by eapply parse_checked_charge_Ok.
Qed.

Lemma parsed_price_checked value (pricing : PricingConfig D) cardKey op price :
  parsePricing value = Ok pricing -> operationPricing pricing cardKey op = Ok price ->
  exists definition, PricingConfig_Operations pricing !! op = Some definition /\
    forall charge, charge_of price charge -> checked_charge definition charge.
Proof.
  intros (_ & raw & Hcards)%parsePricing_Ok [n Hn]%operationPricing_Ok.
  induction Hn as [key card p Hc Ho|]; [|done].
  destruct (parsed_map_lookup _ _ _ _ _ Hcards Hc) as (v & _ & Hv).
  unfold parse_rate_card in Hv. inv_bind. cbn in Ho.
  match goal with Hr : parse_range _ _ = Ok _ |- _ => apply parse_range_Ok in Hr;
    destruct (parsed_map_lookup _ _ _ _ _ Hr Ho) as (v' & _ & Hv') end.
  by eapply parse_operation_pricing_Ok.
Qed.

End charges.

(** ** Witnesses and findings on concrete catalogs *)
#[local] Existing Instance canonical_range.

Definition obj (l : list (string * any dec)) : any dec := AMap (list_to_map l).

(** A [pricing] section with one operation, one card and the given charge. *)
Definition pricing_value (charge : any dec) : any dec :=
  obj [("operations", obj [("chat", obj [("measures", obj [("tokens", obj [("unit", AString "token")])])])]);
       ("rate_cards", obj [("base", obj [("operations", obj [("chat",
          obj [("unmatched", obj [("action", AString "charge"); ("charge", charge)])])])])])].

Definition sample_formula_charge : any dec :=
  obj [("type", AString "expression"); ("formula", AString "max(1, tokens / 1000)")].


(** A tier below zero: 5 units free, up to 3 more at 1, the rest free. *)
Definition negative_tier_charge : any dec :=
  obj [("type", AString "graduated"); ("measure", AString "tokens");
       ("tiers", ASlice [obj [("up_to", AString "-5"); ("rate", AString "0")];
                         obj [("up_to", AString "3"); ("rate", AString "1")];
                         obj [("rate", AString "0")]])].

(** The parser accepts a first tier bound below zero, and the engine then
      misbills: on bounds -5 and 3 a measure of 6 is billed as 6 units of the
      second band, which holds at most 3 of them, because the width of a band
      is measured from the bound before it. *)
Theorem negative_bound_overbills :
  match parsePricing (pricing_value negative_tier_charge) with
  | Ok pricing =>
      match operationPricing pricing "base" "chat" with
      | Ok price =>
          match UnmatchedPolicy_Charge (OperationPricing_Unmatched price) with
          | Some charge => evaluateCharge charge {[ "tokens" := lit "6" ]} = Ok (lit "6")
          | None => False
          end
      | Err _ => False
      end
  | Err _ => False
  end.
Proof. vm_compute. reflexivity. Qed.

(** An empty measure name passes every check of the parser (chargeMeasures
      skips it) and the price it belongs to can never be charged. *)
Theorem empty_measure_unusable :
  match parsePricing (pricing_value (obj [("type", AString "per_unit"); ("measure", AString "");
                                          ("rate", AString "1")])) with
  | Ok pricing =>
      match operationPricing pricing "base" "chat" with
      | Ok price =>
          match UnmatchedPolicy_Charge (OperationPricing_Unmatched price) with
          | Some charge =>
              evaluateCharge charge {[ "tokens" := lit "6" ]} =
              Err (newConfigError "price charge references missing usage measure ''" None)
          | None => False
          end
      | Err _ => False
      end
  | Err _ => False
  end.
Proof. vm_compute. reflexivity. Qed.

(** ** How pricing fails: every error is the caller's *)

Section errors.
Context {D : Type} `{DecimalLaws D} `{RangeOrder}.

Lemma EvaluateExpression_fails source (variables : gmap string D) :
  (Z.of_nat (String.length source) < 2 ^ 63)%Z -> fails_only request_error (EvaluateExpression source variables).
Proof.
  intros Hlen. unfold EvaluateExpression. destruct (_ =? _)%nat; [by eauto with errors|].
  pose proof (parsePricingExpression_result source) as Hp.
  destruct (parsePricingExpression source) as [n|e]; [|by right].
  destruct Hp as [Hwf Hcalls]. cbn [bind]. apply fails_only_bind.
  - destruct (validateExpressionVariables n variables) eqn:Hv; [done|].
    apply validateExpressionVariables_Err in Hv as (x & _ & _ & ->). cbn. by eauto with errors.
  - intros _ _. pose proof (evaluate_safe _ _ variables Hlen Hwf Hcalls) as Hs.
    destruct (evaluateExpressionNode variables n) as [|e]; [done|]. cbn in Hs |- *.
    unfold arithmetic_errors in Hs. rewrite !elem_of_cons in Hs.
    destruct Hs as [-> | [-> | [-> | Hs%not_elem_of_nil]]]; by eauto with errors.
Qed.

Lemma requiredMeasure_fails (measures : gmap string D) name : fails_only request_error (requiredMeasure measures name).
Proof. unfold requiredMeasure. case_match; cbn; by eauto with errors. Qed.

Lemma decimalDiv_fails (a b : D) : fails_only request_error (decimalDiv a b).
Proof. unfold decimalDiv. case_match; cbn; by eauto with errors. Qed.

Lemma evaluateCharge_fails (c : Charge D) (measures : gmap string D) :
  everywhere addressable c -> fails_only request_error (evaluateCharge c measures).
Proof.
  induction c as [c IH] using Charge_nested_ind. intros [Ha Has]%everywhere_inv.
  destruct c as [type_ amount measure rate unitSize units rounding tiers formula components].
  cbn [Charge_Components] in *. cbn [evaluateCharge Charge_Type Charge_Measure Charge_Rounding Charge_Tiers].
  case (type_ =? "flat"); [done|]. case (type_ =? "per_unit").
  { apply fails_only_bind; [apply requiredMeasure_fails|]. intros m _.
    apply fails_only_bind; [apply decimalDiv_fails|done]. }
  case (type_ =? "package").
  { apply fails_only_bind; [apply requiredMeasure_fails|]. intros m _.
    apply fails_only_bind; [apply decimalDiv_fails|]. intros p _. apply fails_only_bind; [|done].
    unfold round_packages. repeat case_match; by eauto with errors. }
  case (type_ =? "graduated"); [by apply fails_only_bind; [apply requiredMeasure_fails|done]|].
  case (type_ =? "volume").
  { apply fails_only_bind; [apply requiredMeasure_fails|]. intros m _. case_match; by eauto with errors. }
  case (type_ =? "expression"); [by apply EvaluateExpression_fails|].
  case (type_ =? "sum"); [|by eauto with errors].
  clear -IH Has. generalize dec_zero. induction IH as [|c l Hc _ IHl]; intros total; cbn; [done|].
  apply Forall_cons in Has as [Hc' Hl]. apply fails_only_bind.
  - apply fails_only_bind; [by apply Hc|done].
  - intros t _. by apply IHl.
Qed.

Lemma operationPricing_fails (pricing : PricingConfig D) cardKey op :
  fails_only request_error (operationPricing pricing cardKey op).
Proof.
  assert (operationPricing pricing cardKey op <> Err FuelExhausted) as Hfuel.
  { apply operationPricing_loop_fuel; [set_solver | rewrite map_size_empty; lia]. }
  unfold operationPricing in *. revert Hfuel. generalize (S (S (size (PricingConfig_RateCards pricing)))).
  intros fuel. generalize (∅ : gmap string unit). generalize cardKey at 2 4.
  induction fuel as [|fuel IH]; intros key seen; cbn; [done|].
  case_match; [by eauto with errors|]. case_match; [|by eauto with errors].
  case_match; [done|]. case_match; [|by eauto with errors]. apply IH.
Qed.

Lemma resolveRateCard_fails (pricing : PricingConfig D) requested :
  fails_only request_error (resolveRateCard pricing requested).
Proof. unfold resolveRateCard. repeat case_match; by eauto with errors. Qed.

Lemma Validate_fails (metrics : UsageMetrics D) : fails_only request_error (Validate metrics).
Proof.
  assert (forall message, request_error (metrics_error message)) as Hm by (intros m; exact (request_error_config m None)).
  unfold Validate. case_match; [by eauto with errors|].
  apply fails_only_bind; [|intros _ _]; apply fails_only_for_each; intros [name v]; cbn;
    repeat case_match; by eauto with errors.
Qed.

Lemma validateRuntimeDimension_fails (v : any D) definition name :
  fails_only request_error (validateRuntimeDimension v definition name).
Proof. unfold validateRuntimeDimension. repeat case_match; by eauto with errors. Qed.

(** Every formula the catalog prices with is a Go string, whose length is an
    int. *)
Definition formulas_addressable (pricing : PricingConfig D) : Prop :=
  forall cardKey op price dims charge,
    operationPricing pricing cardKey op = Ok price -> select_charge price dims = Some charge ->
    everywhere addressable charge.

(** C11: every failure of Calculate is the caller's: whatever the engine, the
    event and the options, an error of Calculate is a configuration or an
    expression error, so it is reported with status 400, is never retryable
    and never reads as an outage; evaluation never panics and never runs out
    of steps. *)
Theorem Calculate_errors (e : option (PricingEngine D)) metrics options err :
  (forall config pricing, Config e = Some config -> BursarConfig_Pricing config = Some pricing ->
     formulas_addressable pricing) ->
  Calculate e metrics options = Err err ->
  request_error err /\ ErrorHTTPStatus err = 400%Z /\ IsRetryableError err = false /\
  PublicErrorMessage err = "The billing request is invalid.".
Proof.
  intros Haddr He. assert (fails_only request_error (Calculate e metrics options)) as Hf.
  2: { rewrite He in Hf. split; [done|]. by apply request_error_status. }
  clear He. unfold Calculate, too_many_options. destruct (Config e) as [config|] eqn:Hc; [|by eauto with errors].
  case_match; [by eauto with errors|]. apply fails_only_bind; [apply Validate_fails|]. intros _ _.
  destruct (BursarConfig_Pricing config) as [pricing|] eqn:Hp; [|by eauto with errors].
  case_match; [|by eauto with errors].
  apply fails_only_bind; [apply fails_only_for_each; intros []; cbn; case_match; by eauto with errors|]. intros _ _.
  apply fails_only_bind; [apply fails_only_for_each; intros []; cbn; case_match; by eauto with errors|]. intros _ _.
  apply fails_only_bind.
  { apply fails_only_fold. intros acc [name d]. cbn. case_match; [|case_match; by eauto with errors].
    apply fails_only_bind; [apply validateRuntimeDimension_fails|done]. }
  intros dims _. apply fails_only_bind.
  { apply fails_only_fold. intros acc [name d]. cbn. case_match; by eauto with errors. }
  intros ms _. apply fails_only_bind; [apply resolveRateCard_fails|]. intros cardKey _.
  apply fails_only_bind; [apply operationPricing_fails|]. intros price Hprice.
  destruct (select_charge price dims) as [charge|] eqn:Hs; [|by eauto with errors].
  apply fails_only_bind; [apply evaluateCharge_fails; by eapply (Haddr config pricing)|]. intros value _.
  case_match; by eauto with errors.
Qed.
End errors.

(** ** Witness: an event no rule matches *)
#[local] Existing Instance canonical_range.

Definition unmatched_event : UsageMetrics dec :=
  {| UsageMetrics_Operation := "chat"; UsageMetrics_Measures := {[ "tokens" := lit "5" ]};
     UsageMetrics_Dimensions := {[ "model" := AString "small" ]}; UsageMetrics_Metadata := ∅ |}.

Definition unmatched_error : error :=
  newConfigError "no price rule matched operation 'chat' in rate card 'base'" None.

Lemma sample_formulas_addressable config pricing :
  Config sample_engine = Some config -> BursarConfig_Pricing config = Some pricing -> formulas_addressable pricing.
Proof.
  intros [= <-] [= <-] cardKey op price dims charge Hprice Hs.
  assert (price = sample_price) as ->.
  { apply operationPricing_Ok in Hprice as [n Hn].
    destruct Hn as [key card p Hc Ho | n key card parent p Hc _ He _];
      cbn [PricingConfig_RateCards] in Hc; apply lookup_singleton_Some in Hc as [_ <-]; [|done].
    cbn [RateCard_Operations] in Ho. by apply lookup_singleton_Some in Ho as [_ <-]. }
  unfold select_charge in Hs. destruct (list_find _ _) as [[i rule]|] eqn:Hf; [|done].
  injection Hs as <-. apply list_find_Some in Hf as (Hi & _ & _).
  destruct i as [|i]; [|done]. injection Hi as <-. constructor; [by vm_compute|constructor].
Qed.

Lemma Calculate_errors_witness :
  request_error unmatched_error /\ ErrorHTTPStatus unmatched_error = 400%Z /\
  IsRetryableError unmatched_error = false /\
  PublicErrorMessage unmatched_error = "The billing request is invalid.".
Proof.
  apply (Calculate_errors sample_engine unmatched_event []); [apply sample_formulas_addressable|].
  vm_compute. reflexivity.
Defined.
