(* ===== verification/ConfigIntegrity.v ===== *)
(** * A catalog that loads is consistent

    Every reference between the parts of a catalog that [parseBursarConfig]
    accepts points at something that exists and fits. *)

From S2P Require Export ConfigPricingFacts.
From S2P Require Import DecimalRef.
Local Open Scope Z_scope.
Local Open Scope go_scope.

Section integrity.
Context {D : Type} `{DecimalOps D} `{RangeOrder} `{TimeZones} `{Regexps}.

(** ** Credits *)
Record credits_consistent (credits : CreditsConfig D) : Prop := {
  priorities_unique : forall k1 k2 b1 b2,
    CreditsConfig_Buckets credits !! k1 = Some b1 -> CreditsConfig_Buckets credits !! k2 = Some b2 ->
    BucketDefinition_Priority b1 = BucketDefinition_Priority b2 -> k1 = k2;
  default_bucket_exists : forall k,
    CreditsConfig_DefaultBucket credits = Some k -> is_Some (CreditsConfig_Buckets credits !! k);
  bucket_expiry : forall k b, CreditsConfig_Buckets credits !! k = Some b ->
    ExpiryPolicy_Type (BucketDefinition_Expiry b) <> "subscription_end";
  award_buckets : forall k program award,
    CreditsConfig_GrantPrograms credits !! k = Some program -> award ∈ GrantProgram_Awards program ->
    is_Some (CreditsConfig_Buckets credits !! GrantAward_Bucket award) /\
    (GrantAward_Recipient award = "referrer" -> GrantProgram_Trigger program = "referral_completed");
}.

Lemma check_priorities_Ok (buckets : gmap string BucketDefinition) :
  check_priorities buckets = Ok tt ->
  forall k1 k2 b1 b2, buckets !! k1 = Some b1 -> buckets !! k2 = Some b2 ->
    BucketDefinition_Priority b1 = BucketDefinition_Priority b2 -> k1 = k2.
Proof.
  unfold check_priorities. intros (seen & Hf & _)%bind_Ok.
  assert (forall l (acc acc' : gmap Z string),
    fold_result (fun (priorities : gmap Z string) '(key, bucket) =>
      match priorities !! BucketDefinition_Priority bucket with
      | Some previous => config_error ("credits bucket priorities must be unique (" +:+ previous +:+
                           " and " +:+ key +:+ ")")
      | None => Ok (<[BucketDefinition_Priority bucket := key]> priorities)
      end) acc l = Ok acc' ->
    (forall p k, acc !! p = Some k -> acc' !! p = Some k) /\
    (forall k (b : BucketDefinition), (k, b) ∈ l -> acc' !! BucketDefinition_Priority b = Some k)) as Hloop.
  { induction l as [|[k b] l IH]; intros acc acc'; cbn; [intros [= ->]; set_solver|].
    destruct (acc !! BucketDefinition_Priority b) eqn:Hb; [done|]. cbn. intros [Hkeep Hin]%IH. split.
    - intros p k' Hp. apply Hkeep. rewrite lookup_insert_ne; [done|]. intros <-. congruence.
    - intros k' b' [[= -> ->] | Hin']%elem_of_cons; [|auto]. apply Hkeep, lookup_insert_eq. }
  apply Hloop in Hf as [_ Hin]. intros k1 k2 b1 b2 Hk1 Hk2 Heq.
  apply elem_of_range, Hin in Hk1. apply elem_of_range, Hin in Hk2. congruence.
Qed.

Lemma parse_award_Ok buckets key value path (award : GrantAward D) :
  parse_award buckets key value path = Ok award -> is_Some (buckets !! GrantAward_Bucket award).
Proof.
  unfold parse_award. intros Ha. inv_bind. destruct (buckets !! _) eqn:Hb; [|done]. inv_bind. eauto.
Qed.

Lemma parseCredits_Ok value (credits : CreditsConfig D) :
  parseCredits value = Ok credits -> credits_consistent credits.
Proof.
  unfold parseCredits. intros Hp. inv_bind.
  repeat match goal with Hm : parse_entries _ _ = Ok _ |- _ => apply parse_entries_Ok in Hm end.
  match goal with
  | Hpr : check_priorities _ = Ok ?u, Hb : parsed_map parse_bucket _ _,
    Hg : parsed_map (parseGrantProgram _) _ _ |- _ =>
      destruct u; rename Hpr into Hprio, Hb into Hbuckets, Hg into Hprograms
  end.
  split; cbn.
  - by apply check_priorities_Ok.
  - intros k ->. match goal with Hd : context [?m !! k] |- is_Some (?m !! k) =>
      cbn in Hd; destruct (m !! k); [eauto|discriminate Hd] end.
  - intros k b Hk. destruct (parsed_map_lookup _ _ _ _ _ Hbuckets Hk) as (v & _ & Hv).
    unfold parse_bucket in Hv. inv_bind. destruct (String.eqb_spec (ExpiryPolicy_Type a12) "subscription_end") in Hv;
      [done|]. by injection Hv as <-.
  - intros k program award Hk Hin. destruct (parsed_map_lookup _ _ _ _ _ Hprograms Hk) as (v & _ & Hv).
    unfold parseGrantProgram in Hv. inv_bind. cbn in *. split.
    + match goal with Ha : parse_items (parse_award ?b _) _ _ _ = Ok _ |- _ =>
        apply (parse_items_Forall _ (fun aw : GrantAward D => is_Some (b !! GrantAward_Bucket aw))) in Ha as Haw end.
      * rewrite Forall_forall in Haw. by apply Haw.
      * intros x p aw Hx. by eapply parse_award_Ok.
    + intros Href. match goal with Hc : (if _ && existsb ?f ?l then _ else _) = Ok _ |- _ =>
        assert (existsb f l = true) as Hex; [|rewrite Hex, andb_true_r in Hc] end.
      { apply existsb_exists. exists award. split; [by apply list_elem_of_In|]. by rewrite Href. }
      match goal with Hc : (if negb (?t =? _) then _ else _) = Ok _ |- _ =>
        destruct (String.eqb_spec t "referral_completed"); [done|discriminate Hc] end.
Qed.

(** ** Plans *)

Lemma validate_thresholds_Ok path previous (l : list Z) :
  validate_thresholds path previous l = Ok tt ->
  Forall (fun t => 1 <= t <= 100) l /\ Sorted Z.lt (option_list previous ++ l).
Proof.
  revert previous. induction l as [|t l IH]; intros previous; cbn.
  - intros _. split; [constructor|]. destruct previous; cbn; repeat constructor.
  - destruct (_ || _) eqn:Hc; [done|]. intros [Hall Hs]%IH.
    apply orb_false_iff in Hc as [[Hge%Z.ltb_ge Hle%Z.ltb_ge]%orb_false_iff Hp]. split; [constructor; [lia|done]|].
    destruct previous as [p|]; cbn in *; [|done]. constructor; [done|]. constructor.
    apply Z.leb_gt in Hp. lia.
Qed.

(** A value the feature's definition admits. *)
Definition feature_admits (definition : FeatureDefinition D) (v : any D) : Prop :=
  match v with
  | ABool _ => FeatureDefinition_Type definition = "boolean"
  | AInt KInt z =>
      FeatureDefinition_Type definition = "integer" /\
      (forall lo, FeatureDefinition_Minimum definition = Some lo -> lo <= z) /\
      (forall hi, FeatureDefinition_Maximum definition = Some hi -> z <= hi)
  | AString s =>
      (FeatureDefinition_Type definition = "enum" /\ s ∈ FeatureDefinition_Values definition) \/
      (FeatureDefinition_Type definition = "string" /\
       forall pattern, FeatureDefinition_Pattern definition = Some pattern -> MatchRegexp pattern s = Ok true)
  | _ => False
  end.

Lemma below_false bound (test : Z -> bool) :
  below bound test = false -> forall b, bound = Some b -> test b = false.
Proof. intros Hb b ->. done. Qed.

Lemma validatePlanFeatureValue_admits (value v : any D) definition path :
  validatePlanFeatureValue value definition path = Ok v -> feature_admits definition v.
Proof.
  unfold validatePlanFeatureValue. intros Hv.
  destruct (String.eqb_spec (FeatureDefinition_Type definition) "boolean") as [He|_]; [by inv_bind|].
  destruct (String.eqb_spec (FeatureDefinition_Type definition) "integer") as [He|_].
  { apply bind_Ok in Hv as (z & _ & Hv). destruct (below _ _) eqn:Hlo in Hv; [done|].
    destruct (below _ _) eqn:Hhi in Hv; [done|]. injection Hv as <-. split_and!; [done|..].
    - intros lo Hl. apply (below_false _ _ Hlo), Z.ltb_ge in Hl. done.
    - intros hi Hh. apply (below_false _ _ Hhi), Z.ltb_ge in Hh. done. }
  destruct (String.eqb_spec (FeatureDefinition_Type definition) "enum") as [He|_].
  { apply bind_Ok in Hv as (s & _ & Hv). destruct (existsb _ _) eqn:Hex in Hv; [|done]. injection Hv as <-.
    left. split; [done|]. apply existsb_exists in Hex as (s' & Hin & ->%String.eqb_eq). by apply list_elem_of_In. }
  destruct (String.eqb_spec (FeatureDefinition_Type definition) "string") as [He|_]; [|done].
  apply bind_Ok in Hv as (s & _ & Hv). destruct (FeatureDefinition_Pattern definition) as [pattern|] eqn:Hp.
  - destruct (CompileRegexp pattern); [done|]. destruct (MatchRegexp pattern s) as [[]|] eqn:Hm; try done.
    injection Hv as <-. right. split; [done|]. rewrite Hp. intros ? [= <-]. done.
  - injection Hv as <-. right. split; [done|]. rewrite Hp. by intros ? [=].
Qed.

Lemma check_operations_Ok (pricing : option (PricingConfig D)) key path rateCard seen operations :
  check_operations pricing key path rateCard seen operations = Ok tt ->
  NoDup operations /\ (forall o, o ∈ operations -> o ∉ seen) /\
  forall o, o ∈ operations -> exists p card, pricing = Some p /\ rateCard = Some card /\
    is_Some (PricingConfig_Operations p !! o) /\ ResolvesOperation pricing card o = true.
Proof.
  revert seen. induction operations as [|o l IH]; intros seen; cbn; [intros _; split_and!; [constructor|set_solver..]|].
  destruct (existsb _ _) eqn:Hseen; [done|]. intros ([] & _ & Hc)%bind_Ok.
  destruct pricing as [p|]; [|done]. destruct (PricingConfig_Operations p !! o) eqn:Ho; [|done].
  destruct rateCard as [card|]; [|done]. destruct (ResolvesOperation _ _ _) eqn:Hr; [|done].
  apply IH in Hc as (Hnd & Hfresh & Hall). split_and!.
  - constructor; [|done]. intros Hin. apply (Hfresh o Hin). left.
  - intros o' [->|Hin]%elem_of_cons; [|intros Hs; apply (Hfresh o' Hin); by right].
    intros Hs. apply not_true_iff_false in Hseen. apply Hseen, existsb_exists. exists o.
    split; [by apply list_elem_of_In|]. apply String.eqb_refl.
  - intros o' [->|Hin]%elem_of_cons; [|auto]. exists p, card. eauto.
Qed.

(** What a plan refers to, given the other parts of its catalog. *)
Record plan_consistent (config : BursarConfig D) (plan : PlanDefinition D) : Prop := {
  plan_rate_card : forall card, PlanDefinition_RateCard plan = Some card ->
    exists pricing, BursarConfig_Pricing config = Some pricing /\ is_Some (PricingConfig_RateCards pricing !! card);
  plan_operations_nodup : NoDup (PlanDefinition_AllowedOperations plan);
  plan_operations_priced : forall o, o ∈ PlanDefinition_AllowedOperations plan ->
    exists pricing card price, BursarConfig_Pricing config = Some pricing /\
      PlanDefinition_RateCard plan = Some card /\ is_Some (PricingConfig_Operations pricing !! o) /\
      operationPricing pricing card o = Ok price;
  plan_features : forall k v, PlanDefinition_Features plan !! k = Some v ->
    exists definition, EntitlementsConfig_Features (BursarConfig_Entitlements config) !! k = Some definition /\
      feature_admits definition v;
  plan_credit_policy : forall k, PlanDefinition_CreditPolicy plan = Some k ->
    is_Some (CreditsConfig_Policies (BursarConfig_Credits config) !! k);
  plan_admission_policy : forall k, PlanDefinition_AdmissionPolicy plan = Some k ->
    is_Some (AdmissionConfig_Policies (BursarConfig_Admission config) !! k);
  plan_allowance : forall a, PlanDefinition_CreditAllowance plan = Some a ->
    0 <= CreditAllowance_Priority a /\ is_Some (CreditsConfig_DefaultBucket (BursarConfig_Credits config)) /\
    forall k b, CreditsConfig_Buckets (BursarConfig_Credits config) !! k = Some b ->
      BucketDefinition_Priority b <> CreditAllowance_Priority a;
  plan_quotas : forall k q, PlanDefinition_Quotas plan !! k = Some q ->
    operation_measure (BursarConfig_Pricing config) (QuotaDefinition_Operation q) (QuotaDefinition_Measure q) = true /\
    Forall (fun t => 1 <= t <= 100) (QuotaDefinition_EmitAtPercent q) /\
    Sorted Z.lt (QuotaDefinition_EmitAtPercent q);
}.

Lemma mapBucketPriorities_spec (buckets : gmap string BucketDefinition) k b :
  buckets !! k = Some b -> is_Some (mapBucketPriorities buckets !! BucketDefinition_Priority b).
Proof.
  intros Hin%elem_of_range. unfold mapBucketPriorities. revert Hin.
  assert (forall l (acc : gmap Z unit) p, is_Some (acc !! p) \/ (exists k b, (k, b) ∈ l /\ BucketDefinition_Priority b = p) ->
    is_Some (fold_left (fun (priorities : gmap Z unit) '((_, bucket) : string * BucketDefinition) =>
      <[BucketDefinition_Priority bucket := tt]> priorities) l acc !! p)) as Hl.
  { induction l as [|[k' b'] l IH]; intros acc p; cbn; [intros [?|(? & ? & ? & ?)]; [done|set_solver]|].
    intros Hp. apply IH. destruct Hp as [Hp | (k2 & b2 & [[= -> ->] | Hin]%elem_of_cons & <-)].
    - left. destruct (decide (p = BucketDefinition_Priority b')) as [->|]; [rewrite lookup_insert_eq; eauto|].
      by rewrite lookup_insert_ne.
    - left. rewrite lookup_insert_eq. eauto.
    - right. eauto. }
  intros Hin. apply Hl. eauto.
Qed.

Lemma parsePricing_cards_identifiers value (pricing : PricingConfig D) k :
  parsePricing value = Ok pricing -> is_Some (PricingConfig_RateCards pricing !! k) -> is_identifier k = true.
Proof.
  unfold parsePricing. intros Hp [card Hk]. inv_bind. destruct (_ || _) in Hp; [done|]. inv_bind. cbn in Hk.
  repeat match goal with Hm : parse_entries _ _ = Ok _ |- _ => apply parse_entries_Ok in Hm end.
  match goal with Hm : parsed_map (parse_rate_card _) ?raw _ |- _ =>
    destruct (parsed_map_lookup _ _ _ _ _ Hm Hk) as (v & Hv & _) end.
  match goal with Hi : validateConfigIdentifiers ?raw "pricing.rate_cards" = Ok ?u |- _ =>
    destruct u; unfold validateConfigIdentifiers in Hi; rewrite for_each_range in Hi; specialize (Hi _ _ Hv) end.
  unfold validateConfigIdentifier in *. by destruct (is_identifier k).
Qed.

Lemma parseQuota_Ok pricing path value (q : QuotaDefinition D) :
  parseQuota pricing path value = Ok q ->
  operation_measure pricing (QuotaDefinition_Operation q) (QuotaDefinition_Measure q) = true /\
  Forall (fun t => 1 <= t <= 100) (QuotaDefinition_EmitAtPercent q) /\
  Sorted Z.lt (QuotaDefinition_EmitAtPercent q).
Proof.
  unfold parseQuota. intros Hq. inv_bind. destruct (operation_measure _ _ _) eqn:Hm; [|done].
  cbn [negb] in Hq. inv_bind. cbn. split; [done|].
  match goal with Ht : validate_thresholds _ _ _ = Ok ?u |- _ =>
    destruct u; by apply validate_thresholds_Ok in Ht end.
Qed.

Lemma policy_reference_Ok {A} (policies : gmap string A) (raw : gmap string (any D)) key path k :
  policy_reference policies raw key path = Ok (Some k) -> is_Some (policies !! k).
Proof.
  unfold policy_reference. intros (o & _ & Hk)%bind_Ok. destruct o as [name|]; [|done].
  destruct (policies !! name) eqn:Hn; [|done]. injection Hk as <-. eauto.
Qed.

Lemma parse_plan_allowance_Ok credits key path value (a : CreditAllowance D) :
  parse_plan_allowance credits key path value = Ok a ->
  0 <= CreditAllowance_Priority a /\ is_Some (CreditsConfig_DefaultBucket credits) /\
  forall k b, CreditsConfig_Buckets credits !! k = Some b ->
    BucketDefinition_Priority b <> CreditAllowance_Priority a.
Proof.
  unfold parse_plan_allowance. intros (a' & Ha & Hc)%bind_Ok.
  destruct (mapBucketPriorities _ !! _) eqn:Hm; [done|].
  destruct (CreditsConfig_DefaultBucket credits); [|done]. injection Hc as ->. split_and!; [|eauto|].
  - unfold parseCreditAllowance in Ha. inv_bind. destruct (Z.ltb_spec a2 0); [done|].
    apply bind_Ok in Ha as (w & _ & [= <-]). done.
  - intros k b Hk Heq. apply mapBucketPriorities_spec in Hk as [? Hk]. congruence.
Qed.

Lemma parse_plan_Ok config subs key value (plan : PlanDefinition D) :
  (forall p, BursarConfig_Pricing config = Some p -> PricingConfig_RateCards p !! "" = None) ->
  parse_plan (BursarConfig_Pricing config) (BursarConfig_Credits config) (BursarConfig_Entitlements config)
    (BursarConfig_Admission config) subs key value = Ok plan ->
  plan_consistent config plan.
Proof.
  intros Hcards Hp. unfold parse_plan in Hp. inv_bind.
  match goal with
  | Hr : check_rate_card _ _ _ = Ok ?u, Ho : check_operations _ _ _ _ _ _ = Ok ?w,
    Hf : parse_range (parse_plan_feature _ _ _) _ = Ok _, Hq : parse_range (fun _ => _) _ = Ok _ |- _ =>
      destruct u, w; rename Hr into Hcard; apply check_operations_Ok in Ho as (Hnd & _ & Hops);
      apply parse_range_Ok in Hf; rename Hf into Hfeatures;
      apply parse_range_Ok in Hq; rename Hq into Hquotas
  end.
  split; cbn.
  - intros card ->. unfold check_rate_card in Hcard. destruct (BursarConfig_Pricing config) as [p|]; [|done].
    destruct (PricingConfig_RateCards p !! card) eqn:Hc; [|done]. eauto.
  - done.
  - intros o (p & card & Hpr & -> & Ho & Hr)%Hops. rewrite Hpr in Hr.
    rewrite ResolvesOperation_pricing in Hr by auto.
    destruct (operationPricing p card o) as [price|] eqn:Hprice; [|done]. exists p, card, price. eauto.
  - intros k v Hk. destruct (parsed_map_lookup _ _ _ _ _ Hfeatures Hk) as (v' & _ & Hv).
    unfold parse_plan_feature in Hv.
    destruct (EntitlementsConfig_Features (BursarConfig_Entitlements config) !! k) as [definition|]; [|done].
    exists definition. split; [done|]. by eapply validatePlanFeatureValue_admits.
  - intros k ->. by eapply policy_reference_Ok.
  - intros k ->. by eapply policy_reference_Ok.
  - intros al ->. match goal with Ha : optional_pointer _ _ _ = Ok (Some _) |- _ =>
      apply optional_pointer_Ok in Ha as (v & _ & Ha) end. by eapply parse_plan_allowance_Ok.
  - intros k q Hk. destruct (parsed_map_lookup _ _ _ _ _ Hquotas Hk) as (v & _ & Hv). by eapply parseQuota_Ok.
Qed.

(** ** The whole catalog *)
Record config_consistent (config : BursarConfig D) : Prop := {
  config_version : BursarConfig_Version config = 1;
  config_default_plan :
    match CatalogConfig_DefaultPlan (BursarConfig_Catalog config) with
    | Some plan => is_Some (BursarConfig_Plans config !! plan)
    | None => BursarConfig_Plans config = ∅
    end;
  config_credits : credits_consistent (BursarConfig_Credits config);
  config_plans : forall k plan, BursarConfig_Plans config !! k = Some plan -> plan_consistent config plan;
  config_offers : forall k offer, CommerceConfig_Offers (BursarConfig_Commerce config) !! k = Some offer ->
    CommerceOffer_Type offer = "subscription" ->
    exists plan, CommerceOffer_Plan offer = Some plan /\ is_Some (BursarConfig_Plans config !! plan);
  config_programs : forall k program plan,
    CreditsConfig_GrantPrograms (BursarConfig_Credits config) !! k = Some program ->
    plan ∈ GrantProgram_EligibilityPlans program -> is_Some (BursarConfig_Plans config !! plan);
  config_admission : forall p k policy o, BursarConfig_Pricing config = Some p ->
    AdmissionConfig_Policies (BursarConfig_Admission config) !! k = Some policy ->
    is_Some (AdmissionPolicy_Operations policy !! o) -> is_Some (PricingConfig_Operations p !! o);
}.

Lemma check_offers_Ok offers (plans : gmap string (PlanDefinition D)) :
  check_offers offers plans = Ok tt -> forall k offer, offers !! k = Some offer ->
  CommerceOffer_Type offer = "subscription" ->
  exists plan, CommerceOffer_Plan offer = Some plan /\ is_Some (plans !! plan).
Proof.
  unfold check_offers. rewrite for_each_range. intros Hall k offer Hk Ht. specialize (Hall _ _ Hk). cbn in Hall.
  rewrite Ht in Hall. cbn in Hall. destruct (CommerceOffer_Plan offer) as [plan|]; [|done].
  exists plan. split; [done|]. destruct (plans !! plan); [eauto|done].
Qed.

Lemma check_programs_Ok programs (plans : gmap string (PlanDefinition D)) :
  check_programs programs plans = Ok tt -> forall k (program : GrantProgram D) plan,
  programs !! k = Some program -> plan ∈ GrantProgram_EligibilityPlans program -> is_Some (plans !! plan).
Proof.
  unfold check_programs. rewrite for_each_range. intros Hall k program plan Hk Hin.
  specialize (Hall _ _ Hk). cbn in Hall. rewrite for_each_Ok, Forall_forall in Hall. specialize (Hall _ Hin).
  destruct (plans !! plan); [eauto|done].
Qed.

Lemma check_admission_Ok pricing admission :
  check_admission pricing admission = Ok tt ->
  forall (p : PricingConfig D) k policy o, pricing = Some p -> AdmissionConfig_Policies admission !! k = Some policy ->
  is_Some (AdmissionPolicy_Operations policy !! o) -> is_Some (PricingConfig_Operations p !! o).
Proof.
  intros Hc p k policy o -> Hk [a Ho]. cbn in Hc. rewrite for_each_range in Hc. specialize (Hc _ _ Hk).
  cbn in Hc. rewrite for_each_range in Hc. specialize (Hc _ _ Ho). cbn in Hc.
  destruct (PricingConfig_Operations p !! o); [eauto|done].
Qed.

(** C2: every catalog that loads is consistent.  Its default plan exists;
    bucket priorities are unique and grants go to existing buckets; each
    plan's rate card, policies, features (with values their definitions
    admit) and quotas exist, its allowed operations are distinct and the
    engine finds a price for each on the plan's rate card, its allowance
    has a priority no bucket uses; quota thresholds strictly increase
    between 1 and 100; subscription offers and grant programs name existing
    plans, admission policies existing operations. *)
Theorem parseBursarConfig_consistent raw (config : BursarConfig D) :
  parseBursarConfig raw = Ok config -> config_consistent config.
Proof.
  unfold parseBursarConfig. intros Hp. inv_bind. destruct (negb _) in Hp; [done|]. inv_bind.
  match goal with
  | Hpr : optional_pointer parsePricing _ _ = Ok ?pricing, Hcr : parseCredits _ = Ok _,
    Ha : check_admission _ _ = Ok ?u1, Ho : check_offers _ _ = Ok ?u2,
    Hg : check_programs _ _ = Ok ?u3, Hd : check_default_plan _ _ = Ok ?u4,
    Hpl : parsePlans _ _ _ _ _ _ = Ok ?plans |- config_consistent ?c =>
      destruct u1, u2, u3, u4; rename Hd into Hdefault, Hpl into Hplans, Hpr into Hpricing;
      set (config := c)
  end.
  split; cbn.
  - done.
  - unfold check_default_plan in Hdefault. destruct a1 as [plan|].
    + destruct (a8 !! plan) eqn:Hk; [eauto|done].
    + destruct (0 <? size a8)%nat eqn:Hs; [done|]. apply Nat.ltb_ge in Hs. apply map_size_empty_inv. lia.
  - by eapply parseCredits_Ok.
  - assert (forall p, a5 = Some p -> PricingConfig_RateCards p !! "" = None) as Hcards.
    { intros p ->. apply optional_pointer_Ok in Hpricing as (v & _ & Hv).
      destruct (PricingConfig_RateCards p !! "") eqn:Hk; [|done].
      by assert (is_identifier "" = true) by (eapply parsePricing_cards_identifiers; eauto). }
    intros k plan Hk. unfold parsePlans in Hplans.
    destruct (field raw "plans"); try (injection Hplans as <-; by rewrite lookup_empty in Hk); try done.
    inv_bind. apply parse_entries_Ok in Hplans.
    destruct (parsed_map_lookup _ _ _ _ _ Hplans Hk) as (v & _ & Hv).
    by eapply (parse_plan_Ok config).
  - by apply check_offers_Ok.
  - by apply check_programs_Ok.
  - by apply check_admission_Ok.
Qed.
End integrity.

(** ** Witness: a catalog with one plan *)
#[local] Existing Instance canonical_range.

(** A time-zone database that knows UTC, and patterns that match anything. *)
Definition utc_only : TimeZones :=
  {| LoadLocation := fun zone => if zone =? "UTC" then None else Some ("unknown time zone " +:+ zone) |}.
Definition any_pattern : Regexps := {| CompileRegexp := fun _ => None; MatchRegexp := fun _ _ => Ok true |}.
#[local] Existing Instances utc_only any_pattern.

Definition sample_catalog : gmap string (any dec) :=
  list_to_map
    [("version", ANumber "1"); ("credits", obj [("buckets", obj [("main", obj [("priority", ANumber "10")])]);
                                                ("default_bucket", AString "main")]);
     ("catalog", obj [("default_plan", AString "pro")]);
     ("pricing", pricing_value sample_formula_charge);
     ("plans", obj [("pro", obj [("display_name", AString "Pro"); ("rate_card", AString "base");
        ("allowed_operations", ASlice [AString "chat"]);
        ("credit_allowance", obj [("amount", AString "100"); ("priority", ANumber "5");
           ("window", obj [("type", AString "calendar"); ("unit", AString "month")])]);
        ("quotas", obj [("daily", obj [("operation", AString "chat"); ("measure", AString "tokens");
           ("limit", AString "1000"); ("enforcement", AString "block");
           ("emit_at_percent", ASlice [ANumber "50"; ANumber "100"]);
           ("window", obj [("type", AString "rolling");
              ("duration", obj [("unit", AString "day"); ("count", ANumber "1")])])])])])])].

Lemma parseBursarConfig_consistent_witness :
  match parseBursarConfig sample_catalog with
  | Ok config => config_consistent config
  | Err _ => False
  end.
Proof.
  destruct (parseBursarConfig sample_catalog) as [config|e] eqn:Hp.
  - exact (parseBursarConfig_consistent sample_catalog config Hp).
  - vm_compute in Hp. discriminate Hp.
Defined.
