(* ===== verification/CanonicalFacts.v ===== *)
(** * The canonical form reads back

    What a parser accepted, written by the canonical serializer and
    normalised by [canonicalJSONValue], parses again to the same thing:
    windows and expiries exactly, charges up to the six places amounts are
    written with. *)

From S2P Require Export Canonical ConfigFacts ConfigPricingFacts.
From S2P Require Import DecimalRef ConfigIntegrity.
Local Open Scope Z_scope.
Local Open Scope go_scope.

Section fields.
Context {D : Type}.
Implicit Types (m : gmap string (any D)).

Lemma field_canonical m k : field (canonicalJSONValue <$> m) k = canonicalJSONValue (field m k).
Proof. unfold field. rewrite lookup_fmap. by destruct (m !! k). Qed.

Lemma present_canonical m k :
  present (canonicalJSONValue <$> m) k = canonicalJSONValue <$> present m k.
Proof. unfold present. rewrite lookup_fmap. by destruct (m !! k) as [[]|]. Qed.

Lemma field_insert m k v : field (<[k := v]> m) k = v.
Proof. unfold field. by rewrite lookup_insert_eq. Qed.
Lemma field_insert_ne m k k' v : k <> k' -> field (<[k := v]> m) k' = field m k'.
Proof. intros Hk. unfold field. by rewrite lookup_insert_ne. Qed.
Lemma field_singleton k (v : any D) : field {[ k := v ]} k = v.
Proof. unfold field. by rewrite lookup_singleton_eq. Qed.
Lemma present_insert m k v : v <> ANil -> present (<[k := v]> m) k = Some v.
Proof. intros Hv. unfold present. rewrite lookup_insert_eq. by destruct v. Qed.
Lemma present_insert_ne m k k' v : k <> k' -> present (<[k := v]> m) k' = present m k'.
Proof. intros Hk. unfold present. by rewrite lookup_insert_ne. Qed.
Lemma present_singleton k (v : any D) : v <> ANil -> present {[ k := v ]} k = Some v.
Proof. intros Hv. unfold present. rewrite lookup_singleton_eq. by destruct v. Qed.
Lemma present_singleton_ne k k' (v : any D) : k <> k' -> present ({[ k := v ]} : gmap string (any D)) k' = None.
Proof. intros Hk. unfold present. by rewrite lookup_singleton_ne. Qed.
End fields.

(** Reads the fields of a literal object. *)
Ltac read_step :=
  first
    [ rewrite field_canonical | rewrite present_canonical
    | rewrite field_insert | rewrite field_singleton
    | rewrite field_insert_ne by discriminate
    | rewrite present_insert by discriminate | rewrite present_insert_ne by discriminate
    | rewrite present_singleton by discriminate | rewrite present_singleton_ne by discriminate ].
Ltac read_reduce :=
  cbn [canonicalJSONValue configString configObject configArray configBool bind fmap option_fmap option_map].
Ltac read_fields := unfold int; read_reduce; repeat (read_step; read_reduce).

#[local] Arguments parseDuration : simpl never.
#[local] Arguments parseBillingInterval : simpl never.
#[local] Arguments parseTimezone : simpl never.
#[local] Arguments parseWindow : simpl never.
#[local] Arguments plan_assignment_timezone : simpl never.
#[local] Arguments configInteger : simpl never.
#[local] Arguments field : simpl never.
#[local] Arguments present : simpl never.

Section windows.
Context {D : Type} `{DecimalOps D} `{RangeOrder} `{TimeZones} `{Regexps} `{Schema D}.

Lemma configInteger_int z path :
  Z.abs z <= safeIntegerMax -> configInteger (AInt KInt z : any D) path = Ok z.
Proof.
  intros Hz. rewrite configInteger_Int64. unfold configInt64; cbn [int64_of bind].
  destruct (_ || _) eqn:Hr; [|done]. apply orb_true_iff in Hr as [Hr%Z.ltb_lt | Hr%Z.ltb_lt];
    unfold safeIntegerMax in *; lia.
Qed.

(** A count as the parser returns it. *)
Definition safe_count (z : Z) : Prop := Z.abs z <= safeIntegerMax.

Lemma configInteger_safe (v : any D) path z : configInteger v path = Ok z -> safe_count z.
Proof. rewrite configInteger_Int64. apply configInt64_safe. Qed.

Lemma parseDuration_safe (v : any D) path d : parseDuration v path = Ok d -> safe_count (Duration_Count d).
Proof. unfold parseDuration. intros Hd. inv_bind. cbn. by eapply configInteger_safe. Qed.

Lemma parseBillingInterval_safe (v : any D) path i :
  parseBillingInterval v path = Ok i -> safe_count (BillingInterval_Count i).
Proof.
  unfold parseBillingInterval. intros Hi. inv_bind. cbn.
  match goal with Ho : optional _ _ _ _ = Ok _ |- _ => apply optional_Ok in Ho as [[_ ->]|(x & _ & Hx)] end.
  - by vm_compute.
  - by eapply configInteger_safe.
Qed.

Lemma parseDuration_canonical d path :
  safe_count (Duration_Count d) ->
  parseDuration (AMap (canonicalJSONValue <$> canonicalDuration d) : any D) path = Ok d.
Proof.
  intros Hd. unfold parseDuration, canonicalDuration. cbn [canonicalJSONValue]. read_fields.
  rewrite (configInteger_int (Duration_Count d)) by done. by destruct d.
Qed.

Lemma parseBillingInterval_canonical i path :
  safe_count (BillingInterval_Count i) ->
  parseBillingInterval (AMap (canonicalJSONValue <$> canonicalInterval i) : any D) path = Ok i.
Proof.
  intros Hi. unfold parseBillingInterval, canonicalInterval, optional. cbn [canonicalJSONValue]. read_fields.
  rewrite (configInteger_int (BillingInterval_Count i)) by done. by destruct i.
Qed.

Lemma parseTimezone_string (v : any D) path zone :
  parseTimezone v path = Ok zone -> forall path', parseTimezone (AString zone : any D) path' = Ok zone.
Proof.
  unfold parseTimezone. intros Hz path'. apply bind_Ok in Hz as (z & _ & Hz). cbn.
  destruct (_ || _) eqn:He in Hz; [done|]. destruct (LoadLocation z) eqn:Hl in Hz; [done|].
  injection Hz as <-. by rewrite He, Hl.
Qed.

Definition known_zone (zone : string) : Prop := forall path, parseTimezone (AString zone : any D) path = Ok zone.

(** UTC is a zone of every database. *)
Lemma timezone_known (raw : gmap string (any D)) path zone :
  LoadLocation "UTC" = None ->
  optional "UTC" (fun input => parseTimezone input path) raw "timezone" = Ok zone -> known_zone zone.
Proof.
  intros Hutc [[_ ->] | (v & _ & Hv)]%optional_Ok p.
  - unfold parseTimezone. cbn. by rewrite Hutc.
  - by eapply parseTimezone_string.
Qed.

Lemma parseWindow_canonical (v : any D) path w path' :
  LoadLocation "UTC" = None -> parseWindow v path = Ok w ->
  parseWindow (AMap (canonicalJSONValue <$> canonicalWindow w) : any D) path' = Ok w.
Proof.
  intros Hutc. unfold parseWindow at 1. intros (raw & _ & Hw)%bind_Ok. apply bind_Ok in Hw as (kind & _ & Hw).
  destruct (String.eqb_spec kind "rolling") as [_|_].
  { apply bind_Ok in Hw as (d & Hd%parseDuration_safe & [= <-]).
    unfold parseWindow, canonicalWindow, set_optional. cbn. read_fields. cbn.
    by rewrite (parseDuration_canonical d) by done. }
  destruct (String.eqb_spec kind "plan_assignment") as [_|_].
  { apply bind_Ok in Hw as (i & Hi%parseBillingInterval_safe & Hw). apply bind_Ok in Hw as (zone & Hz & [= <-]).
    assert (known_zone zone) as Hknown.
    { unfold plan_assignment_timezone in Hz. destruct (present raw "timezone") as [input|] eqn:Hp.
      - destruct (parseTimezone input _) eqn:Ht in Hz; [|done]. injection Hz as <-. intros p.
        by eapply parseTimezone_string.
      - rewrite Hutc in Hz. injection Hz as <-. intros p. unfold parseTimezone. cbn. by rewrite Hutc. }
    unfold parseWindow, canonicalWindow, set_optional. cbn. read_fields. cbn.
    rewrite (parseBillingInterval_canonical i) by done. cbn. unfold plan_assignment_timezone. read_fields.
    by rewrite Hknown. }
  destruct (String.eqb_spec kind "calendar") as [_|_]; [|done].
  apply bind_Ok in Hw as (u & _ & Hw). apply bind_Ok in Hw as (c & Hc & Hw).
  apply bind_Ok in Hw as (zone & Hz%timezone_known & [= <-]); [|done].
  assert (safe_count c) as Hsafe.
  { apply optional_Ok in Hc as [[_ ->]|(x & _ & Hx)]; [by vm_compute|by eapply configInteger_safe]. }
  unfold parseWindow, canonicalWindow, optional. cbn. read_fields. cbn. read_fields.
  rewrite (configInteger_int c) by done. cbn. by rewrite Hz.
Qed.

Lemma parseExpiry_canonical (v : any D) path e path' :
  LoadLocation "UTC" = None -> parseExpiry v path = Ok e ->
  parseExpiry (AMap (canonicalJSONValue <$> canonicalExpiry e) : any D) path' = Ok e.
Proof.
  intros Hutc. unfold parseExpiry at 1. intros (raw & _ & He)%bind_Ok. apply bind_Ok in He as (kind & _ & He).
  destruct (_ || _) eqn:Hk in He.
  { injection He as <-. unfold parseExpiry, canonicalExpiry, expiry_of_type; cbn.
    apply orb_true_iff in Hk as [->%String.eqb_eq | ->%String.eqb_eq]; by read_fields. }
  destruct (String.eqb_spec kind "after_grant") as [Hkind|_].
  { subst kind. apply bind_Ok in He as (i & Hi%parseBillingInterval_safe & He).
    apply bind_Ok in He as (zone & Hz%timezone_known & [= <-]); [|done].
    unfold parseExpiry, canonicalExpiry, set_optional, optional. cbn. read_fields. cbn. read_fields.
    rewrite (parseBillingInterval_canonical i) by done. cbn. by rewrite Hz. }
  destruct (String.eqb_spec kind "end_of_window") as [Hkind|_].
  { subst kind. apply bind_Ok in He as (w & Hw & He).
    destruct (Window_Type w =? "rolling") eqn:Hr in He; [done|]. injection He as <-.
    unfold parseExpiry, canonicalExpiry, set_optional. cbn. read_fields. cbn. read_fields.
    rewrite (parseWindow_canonical _ _ _ _ Hutc Hw). cbn. by rewrite Hr. }
  destruct (String.eqb_spec kind "fixed_at") as [Hkind|_]; [|done].
  subst kind. apply bind_Ok in He as (at_ & _ & [= <-]).
  unfold parseExpiry, canonicalExpiry, set_optional. cbn. by read_fields.
Qed.

(** windows and expiry policies survive a round trip through the
    canonical form: what the parser returned, serialized and normalised to
    JSON shapes, parses to the very same window or policy, defaults (a count
    of 1, the UTC zone) included.  It needs the time-zone database to know
    UTC, as every database does. *)
Theorem window_expiry_roundtrip (v : any D) path path' :
  LoadLocation "UTC" = None ->
  (forall w, parseWindow v path = Ok w ->
     parseWindow (canonicalJSONValue (AMap (canonicalWindow w) : any D)) path' = Ok w) /\
  (forall e, parseExpiry v path = Ok e ->
     parseExpiry (canonicalJSONValue (AMap (canonicalExpiry e) : any D)) path' = Ok e).
Proof.
  intros Hutc. split.
  - intros w Hw. by apply (parseWindow_canonical v path).
  - intros e He. by apply (parseExpiry_canonical v path).
Qed.
End windows.

(** ** Charges *)
#[local] Arguments configDecimal : simpl never.

Section charges.
Context {D : Type} `{DecimalLaws D} `{RangeOrder} `{TimeZones} `{Regexps} `{Schema D}.

(** Equal up to the numbers the amounts denote. *)
Definition tier_eqv (a b : GraduatedTier D) : Prop :=
  dec_eqv (GraduatedTier_Rate a) (GraduatedTier_Rate b) /\
  match GraduatedTier_UpTo a, GraduatedTier_UpTo b with
  | None, None => True
  | Some x, Some y => dec_eqv x y
  | _, _ => False
  end.

Inductive charge_eqv : Charge D -> Charge D -> Prop :=
  | charge_eqv_intro a b :
      Charge_Type a = Charge_Type b -> Charge_Measure a = Charge_Measure b ->
      Charge_Rounding a = Charge_Rounding b -> Charge_Formula a = Charge_Formula b ->
      dec_eqv (Charge_Amount a) (Charge_Amount b) -> dec_eqv (Charge_Rate a) (Charge_Rate b) ->
      dec_eqv (Charge_UnitSize a) (Charge_UnitSize b) -> dec_eqv (Charge_Units a) (Charge_Units b) ->
      Forall2 tier_eqv (Charge_Tiers a) (Charge_Tiers b) ->
      Forall2 charge_eqv (Charge_Components a) (Charge_Components b) ->
      charge_eqv a b.

(** Every amount of the charge has at most six decimal places. *)
Definition six_places (c : Charge D) : Prop :=
  is_money (Charge_Amount c) /\ is_money (Charge_Rate c) /\ is_money (Charge_UnitSize c) /\
  is_money (Charge_Units c) /\
  Forall (fun t => is_money (GraduatedTier_Rate t) /\
                   match GraduatedTier_UpTo t with Some u => is_money u | None => True end) (Charge_Tiers c).

Lemma configDecimal_amount (d : D) path :
  is_money d -> exists d', configDecimal (AString (amountConfigString d) : any D) path = Ok d' /\ dec_eqv d d'.
Proof.
  intros Hd. unfold configDecimal, NewAmount, ParseDecimalString, amountConfigString, MoneyDecimalPlaces.
  destruct (StringFixed_canonical (QuantizeMoney d) 6 ltac:(lia)) as [Hm Hv]. rewrite Hm. cbn [negb].
  destruct (NewFromString_canonical _ Hm) as (d' & -> & Hd'). exists d'. split; [done|].
  unfold dec_eqv. rewrite Hd', Hv, <- toQ_quantize, QuantizeMoney_money by apply QuantizeMoney_is_money.
  by rewrite QuantizeMoney_money.
Qed.

Lemma parse_tier_canonical (t : GraduatedTier D) path :
  is_money (GraduatedTier_Rate t) ->
  match GraduatedTier_UpTo t with Some u => is_money u | None => True end ->
  exists t', parse_tier (canonicalJSONValue (canonical_tier t)) path = Ok t' /\ tier_eqv t t'.
Proof.
  destruct t as [upTo rate]; cbn. intros Hr Hu.
  unfold parse_tier, canonical_tier, optional_pointer, optional, set_optional, amount; cbn.
  destruct (configDecimal_amount rate (path +:+ ".rate") Hr) as (r' & Hr' & Er).
  destruct upTo as [u|]; read_fields; rewrite Hr'; cbn.
  - read_fields. destruct (configDecimal_amount u (path +:+ ".up_to") Hu) as (u' & -> & Eu).
    eexists. split; [done|]. by split.
  - read_fields. eexists. split; [done|]. by split.
Qed.

Lemma parse_items_canonical {B} (f : any D -> string -> result B) (g : B -> any D) (R : B -> B -> Prop)
    (xs : list B) path index :
  Forall (fun x => forall p, exists y, f (g x) p = Ok y /\ R x y) xs ->
  exists ys, parse_items f (g <$> xs) path index = Ok ys /\ Forall2 R xs ys.
Proof.
  intros Hxs. revert index. induction Hxs as [|x xs Hx _ IH]; intros index; cbn; [by exists []|].
  destruct (Hx (item_path path index)) as (y & -> & Hy). cbn.
  destruct (IH (S index)) as (ys & -> & Hys). exists (y :: ys). by repeat constructor.
Qed.

(** ** Tiers *)
Lemma LessThan_eqv (a a' b b' : D) : dec_eqv a a' -> dec_eqv b b' -> LessThan a b = LessThan a' b'.
Proof. intros Ha Hb. unfold LessThan. by rewrite Ha, Hb. Qed.
Lemma GreaterThan_eqv (a a' b b' : D) : dec_eqv a a' -> dec_eqv b b' -> GreaterThan a b = GreaterThan a' b'.
Proof. intros Ha Hb. unfold GreaterThan. by rewrite Ha, Hb. Qed.

Lemma validate_bounds_eqv p p' (tiers tiers' : list (GraduatedTier D)) :
  option_Forall2 dec_eqv p p' -> Forall2 tier_eqv tiers tiers' ->
  validate_bounds p tiers = validate_bounds p' tiers'.
Proof.
  intros Hp Ht. revert p p' Hp. induction Ht as [|t t' ts ts' [_ Hu] _ IH]; intros p p' Hp; cbn; [done|].
  destruct (GraduatedTier_UpTo t) as [u|], (GraduatedTier_UpTo t') as [u'|]; try done.
  rewrite (IH (Some u) (Some u')) by by constructor.
  destruct Hp as [x x' Hx|]; [|done]. by rewrite (LessThan_eqv x x' u u').
Qed.

Lemma Forall2_last {A} (R : A -> A -> Prop) xs ys :
  Forall2 R xs ys -> option_Forall2 R (last xs) (last ys) /\ Forall2 R (removelast xs) (removelast ys).
Proof.
  induction 1 as [|x y xs ys Hxy Hall [IHl IHr]]; [by repeat constructor|].
  destruct Hall as [|x' y' xs ys Hxy' Hall]; cbn; [by repeat constructor|].
  split; [exact IHl|]. constructor; [done|exact IHr].
Qed.

Lemma parseTiers_canonical (v : any D) path tiers path' :
  parseTiers v path = Ok tiers ->
  Forall (fun t => is_money (GraduatedTier_Rate t) /\
                   match GraduatedTier_UpTo t with Some u => is_money u | None => True end) tiers ->
  exists tiers', parseTiers (ASlice (canonicalJSONValue <$> (canonical_tier <$> tiers))) path' = Ok tiers' /\
                 Forall2 tier_eqv tiers tiers'.
Proof.
  intros (t & Hl & Ht & Hv)%parseTiers_last Hm. unfold parseTiers. cbn [canonicalJSONValue configArray bind].
  rewrite <- list_fmap_compose.
  destruct (parse_items_canonical parse_tier (canonicalJSONValue ∘ canonical_tier) tier_eqv tiers path' 0)
    as (tiers' & Hp & Heq).
  { eapply Forall_impl; [exact Hm|]. intros x [Hx Hx'] p. by apply parse_tier_canonical. }
  exists tiers'. split; [|done]. rewrite Hp. cbn [bind].
  destruct (Forall2_last _ _ _ Heq) as [Hlast Hinit]. rewrite Hl in Hlast. inversion Hlast as [? t' Htt' Heq'|].
  destruct Htt' as [_ Hopen]. rewrite Ht in Hopen. destruct t' as [[u|] r]; [done|].
  rewrite <- (validate_bounds_eqv None None (removelast tiers)) by (done || constructor). by rewrite Hv.
Qed.

(** ** Charges *)
Lemma positive_eqv (a b : D) : dec_eqv a b -> GreaterThan a dec_zero = true -> GreaterThan b dec_zero = true.
Proof. intros Hab <-. symmetry. by apply GreaterThan_eqv. Qed.

(** Reads the type of a canonical charge. *)
Local Ltac open_charge :=
  cbn [Charge_Amount Charge_Rate Charge_UnitSize Charge_Units Charge_Tiers Charge_Components] in *;
  cbn [canonicalCharge Charge_Type]; cbn; read_fields; cbn.
(** Reads an amount with at most six places. *)
Local Ltac read_amount Hm :=
  match goal with
  | |- context [configDecimal (AString (amountConfigString ?a)) ?p] =>
      let Ha := fresh "Ea" in
      destruct (configDecimal_amount a p Hm) as (? & -> & Ha); cbn [bind]
  end.

Lemma parse_charge_canonical levels (v : any D) path c :
  parse_charge_levels levels v path = Ok c -> everywhere six_places c ->
  forall path', exists c', parse_charge_levels levels (canonicalJSONValue (AMap (canonicalCharge c))) path' = Ok c' /\
                  charge_eqv c c'.
Proof.
  revert v path c. induction levels as [|levels IH]; intros v path c; [done|]. cbn [parse_charge_levels].
  intros (raw & _ & Hc)%bind_Ok. apply bind_Ok in Hc as (kind & _ & Hc).
  intros [(Ma & Mr & Ms & Mu & Mt) Hsub]%everywhere_inv path'.
  destruct (String.eqb_spec kind "flat") as [Hk|_].
  { subst kind. unfold parse_flat in Hc. inv_bind. open_charge. unfold parse_flat, amount. read_fields.
    read_amount Ma. eexists. split; [done|]. by constructor. }
  destruct (String.eqb_spec kind "per_unit") as [Hk|_].
  { subst kind. unfold parse_per_unit in Hc. inv_bind. destruct (GreaterThan _ _) eqn:Hg in Hc; [|done].
    injection Hc as <-.
    open_charge. unfold parse_per_unit, optional, amount. read_fields. read_amount Mr. read_fields. read_amount Ms.
    erewrite positive_eqv by done. eexists. split; [done|]. by constructor. }
  destruct (String.eqb_spec kind "package") as [Hk|_].
  { subst kind. unfold parse_package in Hc. inv_bind. destruct (GreaterThan _ _) eqn:Hg in Hc; [|done].
    injection Hc as <-.
    open_charge. unfold parse_package, optional, amount. read_fields. read_amount Mu. read_amount Ma. read_fields.
    erewrite positive_eqv by done. eexists. split; [done|]. by constructor. }
  destruct (_ || _) eqn:Ht in Hc.
  { unfold parse_tiered in Hc. inv_bind.
    destruct (parseTiers_canonical _ _ _ (path' +:+ ".tiers") Ha0 Mt) as (tiers' & Htiers & Et).
    apply orb_true_iff in Ht as [->%String.eqb_eq | ->%String.eqb_eq]; open_charge;
      unfold parse_tiered; read_fields; rewrite Htiers; (eexists; split; [done|]; by constructor). }
  destruct (String.eqb_spec kind "expression") as [Hk|_].
  { subst kind. unfold parse_expression in Hc. inv_bind. open_charge. unfold parse_expression. read_fields.
    eexists. split; [done|]. by constructor. }
  destruct (String.eqb_spec kind "sum") as [Hk|_]; [|done]. subst kind.
  apply bind_Ok in Hc as (inputs & _ & (components & Hcs & [= <-])%bind_Ok). open_charge. read_fields.
  destruct (parse_items_canonical (parse_charge_levels levels)
    (canonicalJSONValue ∘ (fun component => AMap (canonicalCharge component))) charge_eqv components (path' +:+ ".components") 0)
    as (components' & Hp & Heq).
  { cbn in Hsub. apply parse_items_Ok in Hcs. rewrite Forall_forall in Hsub |- *. intros x Hx p.
    apply list_elem_of_lookup in Hx as [i Hi]. destruct (Forall2_lookup_r _ _ _ _ _ Hcs Hi) as (y & _ & q & Hq).
    eapply IH; [exact Hq|]. apply Hsub. by eapply list_elem_of_lookup_2. }
  rewrite <- list_fmap_compose, Hp. cbn [bind]. eexists. split; [done|]. by constructor.
Qed.

(** ** Equal charges cost the same *)
Lemma IsZero_eqv (a a' : D) : dec_eqv a a' -> IsZero a = IsZero a'.
Proof. intros Ha. unfold IsZero, dec_equal. by rewrite Ha. Qed.

(** The same price, or the same error. *)
Definition result_eqv (a b : result D) : Prop :=
  match a, b with
  | Ok x, Ok y => dec_eqv x y
  | Err e, Err e' => e = e'
  | _, _ => False
  end.

Lemma bind_eqv (a b : result D) (k k' : D -> result D) :
  result_eqv a b -> (forall x y, dec_eqv x y -> result_eqv (k x) (k' y)) -> result_eqv (bind a k) (bind b k').
Proof. intros Hab Hk. destruct a, b; cbn in *; [by apply Hk|done..]. Qed.

Lemma decimalDiv_eqv (a b b' : D) : dec_eqv b b' -> result_eqv (decimalDiv a b) (decimalDiv a b').
Proof.
  intros Hb. unfold decimalDiv. rewrite (IsZero_eqv b b') by done. destruct (IsZero b') eqn:Hz; [done|].
  apply IsZero_false in Hz. unfold result_eqv, dec_eqv in *.
  rewrite !toQ_div_round by (lia || by rewrite ?Hb). by rewrite Hb.
Qed.

Lemma round_packages_eqv rounding (p q : D) :
  dec_eqv p q -> result_eqv (round_packages rounding p) (round_packages rounding q).
Proof.
  intros Hpq. unfold round_packages, result_eqv, dec_eqv in *.
  repeat case_match; simplify_eq; [by rewrite !toQ_ceil, Hpq|by rewrite !toQ_floor, Hpq| |done].
  by rewrite !toQ_round, Hpq by lia.
Qed.

Lemma graduated_loop_eqv r r' p p' t t' (tiers tiers' : list (GraduatedTier D)) :
  dec_eqv r r' -> dec_eqv p p' -> dec_eqv t t' -> Forall2 tier_eqv tiers tiers' ->
  dec_eqv (graduated_loop r p t tiers) (graduated_loop r' p' t' tiers').
Proof.
  intros Hr Hp Ht Htiers. revert r r' p p' t t' Hr Hp Ht.
  induction Htiers as [|x x' xs xs' [Hrate Hup] _ IH]; intros r r' p p' t t' Hr Hp Ht; cbn; [done|].
  assert (forall u u', dec_eqv u u' -> dec_eqv (if LessThan r (dec_sub u p) then r else dec_sub u p)
    (if LessThan r' (dec_sub u' p') then r' else dec_sub u' p')) as Hunits.
  { intros u u' Hu. rewrite (LessThan_eqv r r' (dec_sub u p) (dec_sub u' p')) by (done || by rewrite Hu, Hp).
    destruct (LessThan _ _); [done|]. by rewrite Hu, Hp. }
  assert (forall u u', dec_eqv u u' -> forall q q', dec_eqv q q' -> dec_eqv
    (let '(total, remaining) := if GreaterThan u dec_zero then (dec_add t (dec_mul u (GraduatedTier_Rate x)), dec_sub r u) else (t, r) in
     if negb (GreaterThan remaining dec_zero) then total else graduated_loop remaining q total xs)
    (let '(total, remaining) := if GreaterThan u' dec_zero then (dec_add t' (dec_mul u' (GraduatedTier_Rate x')), dec_sub r' u') else (t', r') in
     if negb (GreaterThan remaining dec_zero) then total else graduated_loop remaining q' total xs')) as Hstep.
  { intros u u' Hu q q' Hq. rewrite (GreaterThan_eqv u u' dec_zero dec_zero) by done.
    assert (dec_eqv (dec_sub r u) (dec_sub r' u')) as Hs by by rewrite Hr, Hu.
    assert (dec_eqv (dec_add t (dec_mul u (GraduatedTier_Rate x))) (dec_add t' (dec_mul u' (GraduatedTier_Rate x')))) as Ha
      by by rewrite Ht, Hu, Hrate.
    destruct (GreaterThan u' dec_zero).
    - rewrite (GreaterThan_eqv _ _ dec_zero dec_zero Hs) by done. destruct (negb _); [done|]. by apply IH.
    - rewrite (GreaterThan_eqv r r' dec_zero dec_zero) by done. destruct (negb _); [done|]. by apply IH. }
  destruct (GraduatedTier_UpTo x) as [u|], (GraduatedTier_UpTo x') as [u'|]; try done; cbn.
  - apply Hstep; auto.
  - by apply Hstep.
Qed.

Lemma volume_tier_eqv (m : D) l l' (tiers tiers' : list (GraduatedTier D)) :
  tier_eqv l l' -> Forall2 tier_eqv tiers tiers' ->
  tier_eqv (volume_tier m l tiers) (volume_tier m l' tiers').
Proof.
  intros Hl. induction 1 as [|x x' xs xs' Hx _ IH]; cbn; [done|]. pose proof Hx as [_ Hup].
  destruct (GraduatedTier_UpTo x) as [u|] eqn:Eu, (GraduatedTier_UpTo x') as [u'|] eqn:Eu'; try done.
  unfold LessThanOrEqual. rewrite (GreaterThan_eqv m m u u') by done. by destruct (negb _).
Qed.

Lemma requiredMeasure_eqv (measures : gmap string D) name :
  result_eqv (requiredMeasure measures name) (requiredMeasure measures name).
Proof. unfold requiredMeasure. by destruct (measures !! name). Qed.

Lemma result_eqv_refl (r : result D) : result_eqv r r.
Proof. by destruct r. Qed.

Lemma evaluateCharge_eqv (c c' : Charge D) (measures : gmap string D) :
  charge_eqv c c' -> result_eqv (evaluateCharge c measures) (evaluateCharge c' measures).
Proof.
  revert c'. induction c as [c IH] using Charge_nested_ind. intros c' Hcc.
  inversion Hcc as [? ? Et Em Ero Ef Ea Era Eus Eu Eti Ec]; subst.
  destruct c as [type_ amount measure rate unitSize units rounding tiers formula components].
  destruct c' as [? ? ? ? ? ? ? tiers' ? components']. cbn in *. subst.
  repeat match goal with |- context [if ?b then _ else _] => destruct b; cbn end; try done.
  - unfold requiredMeasure. destruct (measures !! _) as [m|]; [|done]. cbn [bind].
    apply bind_eqv; [by apply decimalDiv_eqv|]. intros x y Hxy. cbn. by rewrite Hxy, Era.
  - unfold requiredMeasure. destruct (measures !! _) as [m|]; [|done]. cbn [bind].
    apply bind_eqv; [by apply decimalDiv_eqv|]. intros x y Hxy.
    apply bind_eqv; [by apply round_packages_eqv|]. intros x' y' Hxy'. cbn. by rewrite Hxy', Ea.
  - unfold requiredMeasure. destruct (measures !! _) as [m|]; [|done]. cbn.
    by apply graduated_loop_eqv.
  - unfold requiredMeasure. destruct (measures !! _) as [m|]; [|done]. cbn [bind].
    destruct (Forall2_last _ _ _ Eti) as [Hlast _]. destruct Hlast as [t t' Ht|]; [|done]. cbn.
    destruct (volume_tier_eqv m t t' _ _ Ht Eti) as [Hrate _]. by rewrite Hrate.
  - apply result_eqv_refl.
  - assert (forall a b, dec_eqv a b -> result_eqv
      (fold_result (fun total component => value <- evaluateCharge component measures ;; Ok (dec_add total value)) a components)
      (fold_result (fun total component => value <- evaluateCharge component measures ;; Ok (dec_add total value)) b components'))
      as Hfold; [|by apply Hfold].
    clear Hcc. revert IH. induction Ec as [|x x' xs xs' Hx _ IHl]; intros IH a b Hab; [done|].
    apply Forall_cons in IH as [IHx IHxs]. cbn [fold_result].
    specialize (IHx _ Hx). destruct (evaluateCharge x measures), (evaluateCharge x' measures); cbn in IHx |- *; try done.
    apply IHl; [done|]. by rewrite Hab, IHx.
Qed.

(** A charge survives the canonical form: when every amount of a charge
    the parser returned has at most six decimal places, the canonical
    serializer's object, normalised to JSON shapes, parses again to a charge
    of the same kind, measure, rounding, formula and components whose amounts
    and tiers denote the same numbers, and on every usage the two charges
    evaluate to the same cost or to the same error. *)
Theorem charge_roundtrip (v : any D) path path' (c : Charge D) :
  parseCharge v path 0 = Ok c -> everywhere six_places c ->
  exists c', parseCharge (canonicalJSONValue (AMap (canonicalCharge c))) path' 0 = Ok c' /\ charge_eqv c c' /\
             forall measures, result_eqv (evaluateCharge c measures) (evaluateCharge c' measures).
Proof.
  intros Hc Hm. destruct (parse_charge_canonical _ _ _ _ Hc Hm path') as (c' & Hp & Heq).
  exists c'. split; [done|]. split; [done|]. intros measures. by apply evaluateCharge_eqv.
Qed.
End charges.

(** ** Witnesses *)
#[local] Existing Instances utc_only any_pattern canonical_range.

Definition sample_window_value : any dec :=
  obj [("type", AString "end_of_window");
       ("window", obj [("type", AString "calendar"); ("unit", AString "month")])].

Definition sample_expiry : ExpiryPolicy :=
  {| ExpiryPolicy_Type := "end_of_window"; ExpiryPolicy_Interval := None;
     ExpiryPolicy_Window :=
       Some {| Window_Type := "calendar"; Window_Duration := None; Window_Interval := None;
               Window_Unit := "month"; Window_Count := 1; Window_Timezone := "UTC" |};
     ExpiryPolicy_At := None; ExpiryPolicy_Timezone := "" |}.

Lemma window_expiry_roundtrip_witness :
  parseExpiry (canonicalJSONValue (AMap (canonicalExpiry sample_expiry) : any dec)) "again" = Ok sample_expiry.
Proof.
  refine (proj2 (window_expiry_roundtrip sample_window_value "expiry" "again" _) sample_expiry _);
    vm_compute; reflexivity.
Defined.

(** 0.002 per 1000 units, plus two bands. *)
Definition sample_sum_value : any dec :=
  obj [("type", AString "sum"); ("components", ASlice
    [obj [("type", AString "per_unit"); ("measure", AString "tokens"); ("rate", AString "0.002");
          ("unit_size", AString "1000")];
     obj [("type", AString "graduated"); ("measure", AString "tokens");
          ("tiers", ASlice [obj [("up_to", AString "100"); ("rate", AString "0.5")];
                            obj [("rate", AString "0.25")]])]])].

Definition sample_sum_charge : Charge dec :=
  match parseCharge sample_sum_value "charge" 0 with Ok c => c | Err _ => charge_of_type "" end.

Lemma charge_roundtrip_witness :
  exists c', parseCharge (canonicalJSONValue (AMap (canonicalCharge sample_sum_charge))) "again" 0 = Ok c' /\
             charge_eqv sample_sum_charge c' /\
             forall measures, result_eqv (evaluateCharge sample_sum_charge measures) (evaluateCharge c' measures).
Proof.
  apply (charge_roundtrip sample_sum_value "charge" "again"); [vm_compute; reflexivity|].
  assert (forall d : dec, Qeq_bool (toQ d * ten 6) (inject_Z (half_away (toQ d * ten 6))) = true -> is_money d) as Hm.
  { intros d Hd%Qeq_bool_eq. by exists (half_away (toQ d * ten 6)). }
  repeat constructor; apply Hm; vm_compute; reflexivity.
Defined.

(** ** Below six places *)

(** A per-unit charge with no unit size. *)
Definition per_unit_value (rate : string) : any dec :=
  obj [("type", AString "per_unit"); ("measure", AString "tokens"); ("rate", AString rate)].

(** What a charge value costs for [amount] tokens once parsed. *)
Definition price_of (charge : any dec) (amount : string) : result string :=
  c <- parseCharge charge "charge" 0 ;;
  cost <- evaluateCharge c {[ "tokens" := lit amount ]} ;;
  Ok (amountConfigString cost).

(** What it costs after the catalog was published and loaded again. *)
Definition republished_price_of (charge : any dec) (amount : string) : result string :=
  c <- parseCharge charge "charge" 0 ;;
  price_of (canonicalJSONValue (AMap (canonicalCharge c))) amount.

(** The bound of six places in the round trip is needed: the canonical
      form, which is what a published catalog stores, rounds every amount to
      six places, so a rate of 0.0000025 a token costs 2.5 for a million
      tokens before publication and 3 after, and one of 0.0000004 becomes
      free; a unit size of 0.0000004 becomes zero, which the parser refuses. *)
Theorem small_rate_repriced :
  price_of (per_unit_value "0.0000025") "1000000" = Ok "2.500000" /\
  republished_price_of (per_unit_value "0.0000025") "1000000" = Ok "3.000000" /\
  price_of (per_unit_value "0.0000004") "1000000" = Ok "0.400000" /\
  republished_price_of (per_unit_value "0.0000004") "1000000" = Ok "0.000000" /\
  price_of (obj [("type", AString "per_unit"); ("measure", AString "tokens"); ("rate", AString "1");
                 ("unit_size", AString "0.0000004")]) "1" = Ok "2500000.000000" /\
  is_Ok (republished_price_of (obj [("type", AString "per_unit"); ("measure", AString "tokens");
                 ("rate", AString "1"); ("unit_size", AString "0.0000004")]) "1") = false.
Proof. split_and!; vm_compute; reflexivity. Qed.
