(* ===== verification/CommerceFacts.v ===== *)
(** * What parseCommerce accepts

    Offers, the provider objects they are bought through, and the guardrails
    of automatic recharge. *)

From S2P Require Export ConfigFacts.
From S2P Require Import DecimalRef ConfigIntegrity.
Local Open Scope Z_scope.
Local Open Scope go_scope.

(** The key of a provider object: which provider, and its identifier there. *)
Definition object_key (providerKey : string) (reference : ProviderReference) : string :=
  providerKey +:+ "/" +:+ providerReferenceExternalID reference.

Section references.
Context {D : Type} `{DecimalOps D} `{RangeOrder}.
Implicit Types (references : gmap string ProviderReference) (seen : gmap string unit).

(** The references go to providers of their kind, to objects not seen before
    and each to one of its own. *)
Record references_fresh (providers : gmap string ProviderDefinition) seen references seen' : Prop := {
  fresh_compatible : forall k r, references !! k = Some r ->
    exists p, providers !! k = Some p /\ providerReferenceCompatible p r = true;
  fresh_new : forall k r, references !! k = Some r ->
    seen !! object_key k r = None /\ seen' !! object_key k r = Some tt;
  fresh_injective : forall k1 r1 k2 r2, references !! k1 = Some r1 -> references !! k2 = Some r2 ->
    object_key k1 r1 = object_key k2 r2 -> k1 = k2;
  fresh_seen : seen ⊆ seen';
}.

Lemma references_fresh_empty providers seen : references_fresh providers seen ∅ seen.
Proof. by split; intros *; rewrite ?lookup_empty. Qed.

Lemma parse_reference_fresh (providers : gmap string ProviderDefinition) path seen references seen1 entry references' seen2 :
  references_fresh providers seen references seen1 ->
  parse_reference (D := D) providers path (references, seen1) entry = Ok (references', seen2) ->
  references_fresh providers seen references' seen2.
Proof.
  destruct entry as [key input]. unfold parse_reference. intros [Hc Hn Hi Hs] Hr.
  destruct (providers !! key) as [p|] eqn:Hp; [|done]. apply bind_Ok in Hr as (r & _ & Hr).
  destruct (providerReferenceCompatible p r) eqn:Hcomp; [|done]. cbn [negb] in Hr.
  fold (object_key key r) in Hr. destruct (seen1 !! object_key key r) eqn:Hseen; [done|]. injection Hr as <- <-.
  assert (seen !! object_key key r = None) as Hnew.
  { destruct (seen !! object_key key r) eqn:He; [|done]. by rewrite (lookup_weaken _ _ _ _ He Hs) in Hseen. }
  split.
  - intros k r' [[<- <-]|[_ Hk]]%lookup_insert_Some; eauto.
  - intros k r' [[<- <-]|[_ Hk%Hn]]%lookup_insert_Some; [by rewrite lookup_insert_eq|].
    destruct Hk as [Hk1 Hk2]. split; [done|]. rewrite lookup_insert_ne; [done|]. congruence.
  - intros k1 r1 k2 r2 [[<- <-]|[_ H1]]%lookup_insert_Some [[<- <-]|[_ H2]]%lookup_insert_Some Heq; [done| | |by eapply Hi].
    + apply Hn in H2 as [_ H2]. congruence.
    + apply Hn in H1 as [_ H1]. congruence.
  - etrans; [exact Hs|]. by apply insert_subseteq.
Qed.
End references.

Section commerce.
Context {D : Type} `{DecimalLaws D} `{RangeOrder} `{TimeZones}.

Definition quantity_ordered (q : OfferQuantity) : Prop :=
  OfferQuantity_Minimum q <= OfferQuantity_Default q <= OfferQuantity_Maximum q.

(** An offer that can be sold: its price is in an ISO currency, what it
    fills exists, and it is bought through known providers. *)
Record offer_valid (providers : gmap string ProviderDefinition) (credits : CreditsConfig D) (offer : CommerceOffer D)
    : Prop := {
  offer_currency : matches_currency (OfferPrice_Currency (CommerceOffer_Price offer)) = true;
  offer_kind :
    (CommerceOffer_Type offer = "subscription" /\ is_Some (CommerceOffer_Plan offer) /\
     is_Some (CommerceOffer_BillingInterval offer) /\
     forall grant, CommerceOffer_CycleGrant offer = Some grant ->
       is_Some (CreditsConfig_Buckets credits !! CycleGrant_Bucket grant)) \/
    (CommerceOffer_Type offer = "topup" /\ is_Some (CommerceOffer_CreditsPerUnit offer) /\
     (exists bucket, CommerceOffer_Bucket offer = Some bucket /\ is_Some (CreditsConfig_Buckets credits !! bucket)) /\
     exists quantity, CommerceOffer_Quantity offer = Some quantity /\ quantity_ordered quantity);
  offer_references : forall k r, CommerceOffer_Providers offer !! k = Some r ->
    exists p, providers !! k = Some p /\ providerReferenceCompatible p r = true;
}.

Lemma parseOfferQuantity_ordered (v : any D) path q : parseOfferQuantity v path = Ok q -> quantity_ordered q.
Proof.
  intros Hq. unfold parseOfferQuantity in Hq. destruct v; try done.
  - injection Hq as <-. unfold quantity_ordered; cbn. lia.
  - apply bind_Ok in Hq as (raw & _ & Hq). inv_bind. destruct (_ || _) eqn:Hb in Hq; [done|]. injection Hq as <-.
    unfold quantity_ordered; cbn. apply orb_false_iff in Hb as [[]%orb_false_iff ?]. lia.
Qed.

Lemma parseCycleGrant_bucket (v : any D) path credits grant :
  parseCycleGrant v path credits = Ok grant -> is_Some (CreditsConfig_Buckets credits !! CycleGrant_Bucket grant).
Proof.
  unfold parseCycleGrant. intros Hg. inv_bind. destruct (CreditsConfig_Buckets credits !! _) eqn:Hb; [|done].
  inv_bind. cbn. eauto.
Qed.

Lemma parse_price_currency (v : any D) path price :
  parse_price v path = Ok price -> matches_currency (OfferPrice_Currency price) = true.
Proof.
  unfold parse_price. intros Hp. inv_bind. destruct (matches_currency _) eqn:Hm in Hp; [|done]. cbn in Hp.
  inv_bind. done.
Qed.

Lemma parseCommerceOffer_Ok key (v : any D) providers credits seen offer seen' :
  parseCommerceOffer key v providers credits seen = Ok (offer, seen') ->
  offer_valid providers credits offer /\
  references_fresh providers seen (CommerceOffer_Providers offer) seen'.
Proof.
  unfold parseCommerceOffer. intros (raw & _ & Ho)%bind_Ok.
  do 5 (apply bind_Ok in Ho as (? & _ & Ho)). apply bind_Ok in Ho as (price & Hprice%parse_price_currency & Ho).
  apply bind_Ok in Ho as (refsRaw & _ & Ho). apply bind_Ok in Ho as ([references seen1] & Hrefs & Ho).
  apply bind_Ok in Ho as (o & Ho & [= <- <-]).
  assert (references_fresh providers seen references seen1) as Hfresh.
  { refine (fold_result_inv _ (fun '(r, s) => references_fresh providers seen r s) _ _
      (∅, seen) (references, seen1) (references_fresh_empty _ _) Hrefs).
    intros [r s] e [r' s'] _ Hf Hr. by eapply parse_reference_fresh. }
  destruct (String.eqb_spec x "subscription") as [->|_].
  { unfold parse_subscription in Ho. inv_bind. split; [|done]. split; [done| |apply Hfresh]. left. cbn.
    split_and!; eauto. intros grant ->.
    match goal with Hg : optional_pointer _ _ "cycle_grant" = Ok _ |- _ =>
      apply optional_pointer_Ok in Hg as (g & _ & Hg) end.
    by eapply parseCycleGrant_bucket. }
  destruct (String.eqb_spec x "topup") as [->|_]; [|done].
  unfold parse_topup in Ho. inv_bind. destruct (CreditsConfig_Buckets credits !! _) eqn:Hb; [|done].
  inv_bind. split; [|done]. split; [done| |apply Hfresh]. right. cbn. split_and!; eauto.
  eexists. split; [done|]. by eapply parseOfferQuantity_ordered.
Qed.

(** ** All the offers of a catalog *)
Record offers_valid (providers : gmap string ProviderDefinition) (credits : CreditsConfig D)
    (offers : gmap string (CommerceOffer D)) (seen : gmap string unit) : Prop := {
  offers_each : forall key offer, offers !! key = Some offer -> offer_valid providers credits offer;
  offers_seen : forall key offer k r, offers !! key = Some offer -> CommerceOffer_Providers offer !! k = Some r ->
    seen !! object_key k r = Some tt;
  offers_objects : forall key1 offer1 k1 r1 key2 offer2 k2 r2,
    offers !! key1 = Some offer1 -> CommerceOffer_Providers offer1 !! k1 = Some r1 ->
    offers !! key2 = Some offer2 -> CommerceOffer_Providers offer2 !! k2 = Some r2 ->
    object_key k1 r1 = object_key k2 r2 -> key1 = key2 /\ k1 = k2;
}.

Lemma offers_valid_insert providers credits offers seen key offer seen' :
  offers_valid providers credits offers seen -> offer_valid providers credits offer ->
  references_fresh providers seen (CommerceOffer_Providers offer) seen' ->
  offers_valid providers credits (<[key := offer]> offers) seen'.
Proof.
  intros [He Hs Ho] Hv [Hc Hn Hi Hsub]. split.
  - intros k o [[<- <-]|[_ Hk]]%lookup_insert_Some; eauto.
  - intros k o p r [[<- <-]|[_ Hk]]%lookup_insert_Some Hr; [by apply Hn in Hr as [_ ?]|].
    eapply lookup_weaken; [by eapply Hs|done].
  - intros key1 o1 k1 r1 key2 o2 k2 r2 [[<- <-]|[_ Hin1]]%lookup_insert_Some Hr1
      [[<- <-]|[_ Hin2]]%lookup_insert_Some Hr2 Heq.
    + split; [done|]. by eapply Hi.
    + apply Hn in Hr1 as [Hr1 _]. rewrite Heq, (Hs _ _ _ _ Hin2 Hr2) in Hr1. done.
    + apply Hn in Hr2 as [Hr2 _]. rewrite <- Heq, (Hs _ _ _ _ Hin1 Hr1) in Hr2. done.
    + by eapply Ho.
Qed.

Lemma parse_offers_valid providers credits (offersRaw : gmap string (any D)) offers seen :
  parse_offers providers credits offersRaw = Ok (offers, seen) -> offers_valid providers credits offers seen.
Proof.
  intros Hp. refine (fold_result_inv _ (fun '(o, s) => offers_valid providers credits o s) _ _
    (∅, ∅) (offers, seen) _ Hp).
  - intros [o s] key [o' s'] _ Hv Hk. apply bind_Ok in Hk as ([offer s1] & Hk & [= <- <-]).
    apply parseCommerceOffer_Ok in Hk as [Hvalid Hfresh]. by eapply offers_valid_insert.
  - by split; intros *; rewrite ?lookup_empty.
Qed.

(** ** Automatic recharge *)

(** A top-up recharge may buy: in this currency, and selling the quantity. *)
Definition eligible (offers : gmap string (CommerceOffer D)) (currency : string) (quantity : OfferQuantity)
    (key : string) : Prop :=
  exists offer sold, offers !! key = Some offer /\ CommerceOffer_Type offer = "topup" /\
    OfferPrice_Currency (CommerceOffer_Price offer) = currency /\ CommerceOffer_Quantity offer = Some sold /\
    OfferQuantity_Minimum sold <= OfferQuantity_Minimum quantity /\
    OfferQuantity_Maximum quantity <= OfferQuantity_Maximum sold.

(** Guardrails no customer setting can leave. *)
Record guardrails_valid (offers : gmap string (CommerceOffer D)) (g : AutoRechargeGuardrails D) : Prop := {
  guard_eligible : exists currency, forall key, key ∈ AutoRechargeGuardrails_EligibleTopups g ->
    eligible offers currency (AutoRechargeGuardrails_Quantity g) key;
  guard_balance : let range := AutoRechargeGuardrails_BalanceBelow g in
    (toQ (DecimalRange_Minimum range) <= toQ (DecimalRange_Default range) <= toQ (DecimalRange_Maximum range))%Q /\
    (toQ (DecimalRange_Maximum range) < toQ (AutoRechargeGuardrails_RearmAbove g))%Q;
  guard_quantity : quantity_ordered (AutoRechargeGuardrails_Quantity g);
  guard_window : Window_Type (AutoRechargeLimits_Window (AutoRechargeGuardrails_Limits g)) <> "plan_assignment";
}.

Lemma eligible_currency_Ok (offers : gmap string (CommerceOffer D)) keys acc currency :
  (forall key offer, offers !! key = Some offer -> OfferPrice_Currency (CommerceOffer_Price offer) <> "") ->
  fold_result (eligible_currency offers) acc keys = Ok currency ->
  (acc <> "" -> currency = acc) /\
  forall key, key ∈ keys -> exists offer, offers !! key = Some offer /\ CommerceOffer_Type offer = "topup" /\
    OfferPrice_Currency (CommerceOffer_Price offer) = currency.
Proof.
  intros Hcur. revert acc. induction keys as [|key keys IH]; intros acc; cbn.
  { intros [= <-]. split; [done|]. intros key Hk. by apply not_elem_of_nil in Hk. }
  intros (acc1 & Ha & (Hkeep & Hall)%IH)%bind_Ok. unfold eligible_currency in Ha.
  destruct (offers !! key) as [offer|] eqn:Hk; [|done]. specialize (Hcur _ _ Hk).
  destruct (String.eqb_spec (CommerceOffer_Type offer) "topup") as [Ht|]; [|done]. cbn [negb] in Ha.
  assert (acc1 = OfferPrice_Currency (CommerceOffer_Price offer) /\ (acc <> "" -> acc1 = acc)) as [-> Hacc].
  { destruct (String.eqb_spec acc "") as [->|Hne]; [by injection Ha as <-|].
    destruct (String.eqb_spec acc (OfferPrice_Currency (CommerceOffer_Price offer))) as [->|]; [|done].
    by injection Ha as <-. }
  specialize (Hkeep Hcur). split; [intros Hne; by rewrite Hkeep, Hacc|].
  intros key' [->|Hin]%elem_of_cons; [by exists offer|by apply Hall].
Qed.

Lemma quantity_fits_Ok (offers : gmap string (CommerceOffer D)) quantity key :
  quantity_fits offers quantity key = Ok tt ->
  exists offer sold, offers !! key = Some offer /\ CommerceOffer_Quantity offer = Some sold /\
    OfferQuantity_Minimum sold <= OfferQuantity_Minimum quantity /\
    OfferQuantity_Maximum quantity <= OfferQuantity_Maximum sold.
Proof.
  unfold quantity_fits. destruct (offers !! key) as [offer|]; cbn; [|done].
  destruct (CommerceOffer_Quantity offer) as [sold|] eqn:Hs; [|done].
  destruct (_ || _) eqn:Hb; [done|]. apply orb_false_iff in Hb as [Hb1 Hb2]. intros _.
  exists offer, sold. split_and!; [done|done|lia|lia].
Qed.

Lemma parse_balance_below_Ok (v : any D) range :
  parse_balance_below v = Ok range ->
  (toQ (DecimalRange_Minimum range) <= toQ (DecimalRange_Default range) <= toQ (DecimalRange_Maximum range))%Q.
Proof.
  unfold parse_balance_below. intros Hr. inv_bind. destruct (_ || _) eqn:Hb in Hr; [done|]. injection Hr as <-.
  apply orb_false_iff in Hb as [[_ Hb1]%orb_false_iff Hb2]. apply LessThan_false in Hb1. by apply GreaterThan_false in Hb2.
Qed.

Lemma parse_limits_window (v : any D) limits :
  parse_limits v = Ok limits -> Window_Type (AutoRechargeLimits_Window limits) <> "plan_assignment".
Proof.
  unfold parse_limits. intros Hl. inv_bind. destruct (String.eqb_spec (Window_Type a1) "plan_assignment"); [done|].
  inv_bind. done.
Qed.

Lemma parseAutoRecharge_valid (v : any D) (offers : gmap string (CommerceOffer D)) g :
  (forall key offer, offers !! key = Some offer -> OfferPrice_Currency (CommerceOffer_Price offer) <> "") ->
  parseAutoRecharge v offers = Ok g -> guardrails_valid offers g.
Proof.
  intros Hcur. unfold parseAutoRecharge. intros (raw & _ & Hg)%bind_Ok. apply bind_Ok in Hg as (keys & _ & Hg).
  apply bind_Ok in Hg as (currency & Hc & Hg). apply bind_Ok in Hg as (range & Hr%parse_balance_below_Ok & Hg).
  apply bind_Ok in Hg as (rearm & _ & Hg). destruct (GreaterThan rearm _) eqn:Hrearm; [|done]. cbn [negb] in Hg.
  apply GreaterThan_spec in Hrearm. apply bind_Ok in Hg as (quantity & Hq%parseOfferQuantity_ordered & Hg).
  apply bind_Ok in Hg as ([] & Hfit & Hg). apply bind_Ok in Hg as (limits & Hl%parse_limits_window & [= <-]).
  split; cbn; [|done..]. exists currency. intros key Hin. apply for_each_Ok in Hfit. rewrite Forall_forall in Hfit.
  destruct (quantity_fits_Ok _ _ _ (Hfit key Hin)) as (offer & sold & Hk & Hs & Hmin & Hmax).
  apply eligible_currency_Ok in Hc as [_ Hall]; [|done]. destruct (Hall key Hin) as (offer' & Hk' & Ht & Hcurrency).
  rewrite Hk in Hk'. injection Hk' as <-. by exists offer, sold.
Qed.

(** C9: the commerce part of a catalog that loads can be sold safely.  Every
    offer is a subscription to a named plan or a top-up of an existing
    bucket, priced in an ISO currency, with ordered quantity bounds, and
    bought through configured providers of its kind; no two references name
    the same object of a provider, so a payment identifies one offer.  The
    automatic recharge guardrails buy only existing top-ups of one currency,
    in quantities each of them sells, below thresholds that are ordered and
    strictly under the balance that re-arms it, in a calendar or rolling
    window. *)
Theorem parseCommerce_valid (v : any D) credits commerce :
  parseCommerce v credits = Ok commerce ->
  let offers := CommerceConfig_Offers commerce in
  (forall key offer, offers !! key = Some offer -> offer_valid (CommerceConfig_Providers commerce) credits offer) /\
  (forall key1 offer1 k1 r1 key2 offer2 k2 r2,
     offers !! key1 = Some offer1 -> CommerceOffer_Providers offer1 !! k1 = Some r1 ->
     offers !! key2 = Some offer2 -> CommerceOffer_Providers offer2 !! k2 = Some r2 ->
     object_key k1 r1 = object_key k2 r2 -> key1 = key2 /\ k1 = k2) /\
  forall g, CommerceConfig_AutoRecharge commerce = Some g -> guardrails_valid offers g.
Proof.
  intros Hc. unfold parseCommerce in Hc. destruct v; try done.
  { injection Hc as <-. cbn. split_and!; intros *; by rewrite ?lookup_empty. }
  apply bind_Ok in Hc as (raw & _ & Hc). do 4 (apply bind_Ok in Hc as (? & _ & Hc)).
  apply bind_Ok in Hc as (providers & _ & Hc). apply bind_Ok in Hc as ([offers seen] & Ho%parse_offers_valid & Hc).
  apply bind_Ok in Hc as (changes & _ & Hc). apply bind_Ok in Hc as (recharge & Hr & [= <-]). cbn.
  split; [apply Ho|]. split; [apply Ho|]. intros g ->. apply optional_pointer_Ok in Hr as (input & _ & Hg).
  eapply parseAutoRecharge_valid; [|exact Hg]. intros key offer Hk Hempty.
  destruct Ho as [He _ _]. apply He in Hk as [Hk _ _]. rewrite Hempty in Hk. by vm_compute in Hk.
Qed.
End commerce.

(** ** Witness: a top-up sold through Stripe, recharged automatically *)
#[local] Existing Instances canonical_range utc_only.

Definition sample_commerce_value : any dec :=
  obj [("providers", obj [("stripe", obj [("type", AString "stripe")])]);
       ("offers", obj [("credits", obj
          [("type", AString "topup"); ("display_name", AString "Credits");
           ("price", obj [("amount_minor", ANumber "500"); ("currency", AString "EUR")]);
           ("providers", obj [("stripe", obj [("type", AString "stripe_price"); ("price_id", AString "price_1")])]);
           ("credits_per_unit", AString "100"); ("bucket", AString "main");
           ("quantity", obj [("minimum", ANumber "1"); ("maximum", ANumber "10"); ("default", ANumber "1")])])]);
       ("auto_recharge", obj
          [("eligible_topups", ASlice [AString "credits"]);
           ("balance_below", obj [("minimum", AString "5"); ("maximum", AString "50"); ("default", AString "10")]);
           ("rearm_above", AString "60");
           ("quantity", obj [("minimum", ANumber "1"); ("maximum", ANumber "5"); ("default", ANumber "2")]);
           ("limits", obj [("max_purchases", ANumber "3"); ("max_charge_minor", ANumber "5000");
              ("window", obj [("type", AString "calendar"); ("unit", AString "month")]);
              ("cooldown", obj [("unit", AString "hour"); ("count", ANumber "1")])])])].

Definition sample_credits : CreditsConfig dec :=
  {| CreditsConfig_Buckets := {[ "main" := {| BucketDefinition_Priority := 10;
       BucketDefinition_Expiry := expiry_of_type "never" |} ]};
     CreditsConfig_DefaultBucket := Some "main"; CreditsConfig_Policies := ∅;
     CreditsConfig_GrantPrograms := ∅; CreditsConfig_Display := None |}.

Lemma parseCommerce_valid_witness :
  match parseCommerce sample_commerce_value sample_credits with
  | Ok commerce => exists g, CommerceConfig_AutoRecharge commerce = Some g /\
                             guardrails_valid (CommerceConfig_Offers commerce) g
  | Err _ => False
  end.
Proof.
  destruct (parseCommerce sample_commerce_value sample_credits) as [commerce|e] eqn:Hp.
  - destruct (CommerceConfig_AutoRecharge commerce) as [g|] eqn:Hg.
    + exists g. split; [reflexivity|].
      exact (proj2 (proj2 (parseCommerce_valid sample_commerce_value sample_credits commerce Hp)) g Hg).
    + vm_compute in Hp. injection Hp as <-. discriminate Hg.
  - vm_compute in Hp. discriminate Hp.
Defined.
