(* ===== verification/RechargeWindow.v ===== *)
(** * auto_recharge.go, lines 898-1001: the window a recharge limit counts in

    A rolling window ends now; a calendar window is the run of [count] days,
    weeks, months or years, in its zone, that now is in, runs being laid out
    from January 2000. *)

From S2P Require Export GoCalendar Catalog.
Local Open Scope Z_scope.
Local Open Scope go_scope.

Definition autoRechargeConfigError (message : string) : error :=
  NewError message (error_options ErrorCode.Config ErrorCategory.InvalidRequest None).

Record AutoRechargeWindow := {
  AutoRechargeWindow_Unit : string;
  AutoRechargeWindow_Count : Z;
  AutoRechargeWindow_Anchor : string;
  AutoRechargeWindow_Timezone : string;
  AutoRechargeWindow_Start : Time;
  AutoRechargeWindow_End : Time;
  AutoRechargeWindow_DurationDays : spec_float;
}.

Definition floorDivide (dividend divisor : Z) : Z :=
  let quotient := Z.quot dividend divisor in
  let remainder := Z.rem dividend divisor in
  if negb (remainder =? 0)%Z && negb (Bool.eqb (remainder <? 0) (divisor <? 0)) then quotient - 1 else quotient.

Section window.
Context `{TimeZones} `{Zones}.

Definition resolveAutoRechargeCalendarWindow (now : Time) (unit : string) (count : Z) : result (Time * Time) :=
  let loc := location now in
  if (unit =? "day") || (unit =? "week") then
    let anchor := if unit =? "week" then time_Date 2000 1 3 0 0 0 0 loc else time_Date 2000 1 1 0 0 0 0 loc in
    let calendarNow := time_Date (Year now) (Month now) (Day now) 0 0 0 0 UTC in
    let calendarAnchor := time_Date (Year anchor) (Month anchor) (Day anchor) 0 0 0 0 UTC in
    let elapsedDays := Z.quot (Sub calendarNow calendarAnchor) (24 * Hour) in
    let stepDays := if unit =? "week" then wrap64 (count * 7) else count in
    let start := AddDate anchor 0 0 (wrap64 (floorDivide elapsedDays stepDays * stepDays)) in
    Ok (start, AddDate start 0 0 stepDays)
  else if unit =? "month" then
    let currentMonth := Year now * 12 + Month now - 1 in
    let anchorMonth := 2000 * 12 + 1 - 1 in
    let startMonth := wrap64 (anchorMonth + wrap64 (floorDivide (currentMonth - anchorMonth) count * count)) in
    let start := time_Date (Z.quot startMonth 12) (Z.rem startMonth 12 + 1) 1 0 0 0 0 loc in
    Ok (start, AddDate start 0 count 0)
  else if unit =? "year" then
    let startYear := wrap64 (2000 + wrap64 (floorDivide (Year now - 2000) count * count)) in
    let start := time_Date startYear 1 1 0 0 0 0 loc in
    Ok (start, AddDate start count 0 0)
  else Err (autoRechargeConfigError "auto-recharge calendar window unit is not supported").

(** [time.Duration(count)] of a unit, negated: the switch over the unit. *)
Definition rolling_offset (unit : string) (count : Z) : option Z :=
  let back := wrap64 (- count) in
  if unit =? "second" then Some (wrap64 (back * Second))
  else if unit =? "minute" then Some (wrap64 (back * Minute))
  else if unit =? "hour" then Some (wrap64 (back * Hour))
  else if unit =? "day" then Some (wrap64 (wrap64 (back * 24) * Hour))
  else if unit =? "week" then Some (wrap64 (wrap64 (wrap64 (back * 7) * 24) * Hour))
  else None.

(** [now.Location()] is never nil: the method answers UTC instead. *)
Definition resolveAutoRechargeWindow (window : Window) (now : Time) : result AutoRechargeWindow :=
  if IsZeroTime now
  then Err (autoRechargeConfigError "auto-recharge policy window requires a timezone-aware instant")
  else
    let now := ToUTC now in
    if Window_Type window =? "rolling" then
      let refused := Err (autoRechargeConfigError "rolling auto-recharge window requires a positive duration") in
      match Window_Duration window with
      | None => refused
      | Some duration =>
          if Duration_Count duration <? 1 then refused
          else
            match rolling_offset (Duration_Unit duration) (Duration_Count duration) with
            | None => Err (autoRechargeConfigError "auto-recharge rolling window unit is not supported")
            | Some offset =>
                let start := time_Add now offset in
                Ok {| AutoRechargeWindow_Unit := Duration_Unit duration;
                      AutoRechargeWindow_Count := Duration_Count duration;
                      AutoRechargeWindow_Anchor := "rolling"; AutoRechargeWindow_Timezone := "UTC";
                      AutoRechargeWindow_Start := start; AutoRechargeWindow_End := now;
                      AutoRechargeWindow_DurationDays := SFdiv 53 1024 (Hours (Sub now start)) (float64_of 24) |}
            end
      end
    else if Window_Type window =? "calendar" then
      if Window_Count window <? 1
      then Err (autoRechargeConfigError "calendar auto-recharge window requires a positive count")
      else
        let timezone := if TrimSpace (Window_Timezone window) =? "" then "UTC" else TrimSpace (Window_Timezone window) in
        match LoadLocation timezone with
        | Some _ => Err (autoRechargeConfigError "calendar auto-recharge window has an invalid timezone")
        | None =>
            '(start, end_) <- resolveAutoRechargeCalendarWindow (In_ now (location_named timezone))
                               (Window_Unit window) (Window_Count window) ;;
            let startUTC := ToUTC start in
            let endUTC := ToUTC end_ in
            Ok {| AutoRechargeWindow_Unit := Window_Unit window; AutoRechargeWindow_Count := Window_Count window;
                  AutoRechargeWindow_Anchor := "calendar"; AutoRechargeWindow_Timezone := timezone;
                  AutoRechargeWindow_Start := startUTC; AutoRechargeWindow_End := endUTC;
                  AutoRechargeWindow_DurationDays := SFdiv 53 1024 (Hours (Sub endUTC startUTC)) (float64_of 24) |}
        end
    else Err (autoRechargeConfigError "auto-recharge window must be rolling or calendar").
End window.

(** The window of the test of auto_recharge_test.go: two months in Kolkata
    around 10 August 2026, from 1 July to 1 September at midnight there. *)
Example two_months_in_kolkata :
  let kolkata := {| zone_lookup := fun _ _ => (19800, - 2 ^ 63, 2 ^ 63 - 1) |} in
  let zones := {| LoadLocation := fun _ => None |} in
  let window := {| Window_Type := "calendar"; Window_Unit := "month"; Window_Count := 2;
                   Window_Timezone := "Asia/Kolkata"; Window_Duration := None; Window_Interval := None |} in
  (w <- resolveAutoRechargeWindow window (time_Date 2026 8 10 12 0 0 0 UTC) ;;
   Ok (instant (AutoRechargeWindow_Start w), instant (AutoRechargeWindow_End w), AutoRechargeWindow_DurationDays w))
  = Ok (instant (time_Date 2026 6 30 18 30 0 0 UTC), instant (time_Date 2026 8 31 18 30 0 0 UTC), float64_of 62).
Proof. vm_compute. reflexivity. Qed.

(** ** What a calendar window is

    Periods of a unit are numbered from the one January 2000 starts: period 0
    is 1 January 2000, the week of Monday 3 January, January 2000, or the year
    2000. *)

(** The first day of a period. *)
Definition period_start (unit : string) (period : Z) : Z :=
  if unit =? "day" then 10957 + period
  else if unit =? "week" then 10959 + period * 7
  else if unit =? "month" then month_start (24000 + period)
  else month_start ((2000 + period) * 12).

(** The period a day is in. *)
Definition period_of (unit : string) (day : Z) : Z :=
  if unit =? "day" then day - 10957
  else if unit =? "week" then (day - 10959) / 7
  else if unit =? "month" then month_index day - 24000
  else month_index day / 12 - 2000.

Lemma period_start_le unit period day : period_start unit period <= day <-> period <= period_of unit day.
Proof.
  unfold period_start, period_of. destruct (unit =? "day"); [lia|].
  destruct (unit =? "week"); [Z.to_euclidean_division_equations; lia|].
  destruct (unit =? "month"); rewrite month_index_spec; [lia|]. Z.to_euclidean_division_equations. lia.
Qed.

Lemma period_start_month p : period_start "month" p = month_start (24000 + p).
Proof. done. Qed.
Lemma period_start_year p : period_start "year" p = month_start ((2000 + p) * 12).
Proof. done. Qed.
Lemma period_of_month day : month_index day - (2000 * 12 + 1 - 1) = period_of "month" day.
Proof. done. Qed.
Lemma period_of_year day : month_index day / 12 - 2000 = period_of "year" day.
Proof. done. Qed.

Definition calendar_unit (unit : string) : bool :=
  (unit =? "day") || (unit =? "week") || (unit =? "month") || (unit =? "year").

(** The first day of the run of [count] periods that [day] is in, and of the
    run after it. *)
Definition run_start (unit : string) (count day : Z) : Z :=
  period_start unit (period_of unit day / count * count).
Definition run_end (unit : string) (count day : Z) : Z :=
  period_start unit ((period_of unit day / count + 1) * count).

Lemma run_start_eq unit count day : run_start unit count day = period_start unit (period_of unit day / count * count).
Proof. done. Qed.
Lemma run_end_eq unit count day : run_end unit count day = period_start unit ((period_of unit day / count + 1) * count).
Proof. done. Qed.

(** A run holds the day it is the run of, and every day of it has that run. *)
Lemma run_contains unit count day :
  0 < count -> run_start unit count day <= day < run_end unit count day.
Proof.
  intros Hc. unfold run_start, run_end. split.
  - apply period_start_le. pose proof (Z.mul_div_le (period_of unit day) count Hc). lia.
  - apply Z.nle_gt. rewrite period_start_le. pose proof (Z.mul_succ_div_gt (period_of unit day) count Hc). lia.
Qed.

Lemma run_same unit count day day' :
  0 < count -> run_start unit count day <= day' < run_end unit count day ->
  period_of unit day' / count = period_of unit day / count.
Proof.
  intros Hc [Hl%period_start_le Hr]. apply Z.nle_gt in Hr. unfold run_end in Hr. rewrite period_start_le in Hr.
  symmetry. apply (Z.div_unique _ _ _ (period_of unit day' - period_of unit day / count * count)); lia.
Qed.

Lemma floorDivide_div a b : 0 < b -> floorDivide a b = a / b.
Proof.
  intros Hb. unfold floorDivide. rewrite (proj2 (Z.ltb_ge b 0)) by lia.
  destruct (Z.eqb_spec (Z.rem a b) 0), (Z.ltb_spec (Z.rem a b) 0); cbn; Z.to_euclidean_division_equations; nia.
Qed.

(** ** The code computes that run *)

(** An offset from UTC is less than a day. *)
Class ZoneLaws `{Zones} := {
  offset_small : forall loc sec, Z.abs (offset_at loc sec) < 86400;
}.

(** From 1823 to 2262: the instants whose distance to the anchor is a
    [Duration], with a margin. *)
Definition in_range (t : Time) : Prop := - 2 ^ 62 <= instant t < 2 ^ 63.

Section calendar.
Context `{TimeZones} `{Zones} `{!ZoneLaws}.

Lemma local_day_range t : in_range t -> - 60000 <= local_day t <= 107000.
Proof.
  unfold in_range, local_day, local_second, unix_sec, Second. intros Hr.
  pose proof (offset_small (location t) (instant t / 1000000000)) as Ho.
  assert (- 4611686019 <= instant t / 1000000000 <= 9223372037) by (Z.to_euclidean_division_equations; lia).
  Z.to_euclidean_division_equations. lia.
Qed.

Lemma period_of_range unit day : - 60000 <= day <= 107000 -> - 900000 <= period_of unit day <= 900000.
Proof.
  intros Hd. pose proof (month_index_bound day). unfold period_of.
  repeat (destruct (_ =? _)); Z.to_euclidean_division_equations; lia.
Qed.

Lemma period_start_range unit period :
  Z.abs period <= 2 ^ 36 -> Z.abs (period_start unit period) <= 2 ^ 45.
Proof.
  intros Hp. unfold period_start. destruct (unit =? "day"); [lia|]. destruct (unit =? "week"); [lia|].
  destruct (unit =? "month");
    match goal with |- context [month_start ?i] => pose proof (month_start_bound i) end; lia.
Qed.

(** The midnight UTC of a date, as a day number. *)
Lemma utc_midnight_of t day :
  local_day t = day -> Z.abs day <= 2 ^ 40 ->
  instant (time_Date (Year t) (Month t) (Day t) 0 0 0 0 UTC) = day * 86400 * Second.
Proof.
  intros <- Hb. unfold Year, Month, Day. destruct (civil_from_days (local_day t)) as [[y m] d] eqn:Hc. cbn [fst snd].
  apply civil_from_days_inverse in Hc as (Hinv & Hm & _ & _).
  assert (month_start (y * 12 + m - 1) + d - 1 = local_day t) as Heq.
  { transitivity (days_from_civil y m d); [|done]. unfold month_start.
    replace ((y * 12 + m - 1) / 12) with y by (Z.to_euclidean_division_equations; lia).
    replace ((y * 12 + m - 1) mod 12 + 1) with m by (Z.to_euclidean_division_equations; lia).
    unfold days_from_civil. lia. }
  rewrite time_Date_midnight; rewrite Heq; [done|]. unfold fits64. lia.
Qed.

Lemma AddDate_days loc day n :
  regular_midnight loc day -> Z.abs day <= 2 ^ 45 -> Z.abs n <= 2 ^ 45 ->
  AddDate (at_midnight loc day) 0 0 n = at_midnight loc (day + n).
Proof.
  intros Hreg Hday Hn. pose proof (AddDate_midnight loc day 0 0 n) as Ha. cbn zeta in Ha.
  rewrite Ha; try done; try lia; [f_equal|unfold fits64]; rewrite !Z.add_0_r; lia.
Qed.

(** The days of a run of [step] days from [anchor]. *)
Lemma elapsed_days now anchor loc :
  in_range now -> 10000 <= anchor <= 20000 -> regular_midnight loc anchor ->
  let t := at_midnight loc anchor in
  Z.quot (Sub (time_Date (Year now) (Month now) (Day now) 0 0 0 0 UTC)
              (time_Date (Year t) (Month t) (Day t) 0 0 0 0 UTC)) (24 * Hour) = local_day now - anchor.
Proof.
  intros Hr Ha Hreg t. pose proof (local_day_range now Hr) as Hday.
  destruct (at_midnight_fields loc anchor Hreg) as (Hanchor & _ & _).
  unfold Sub. rewrite (utc_midnight_of now (local_day now)), (utc_midnight_of t anchor) by (done || lia).
  unfold Hour, Minute, Second in *.
  rewrite (proj2 (Z.ltb_ge _ (- 2 ^ 63))), (proj2 (Z.ltb_ge (2 ^ 63 - 1) _)) by lia.
  replace (local_day now * 86400 * 1000000000 - anchor * 86400 * 1000000000)
    with ((local_day now - anchor) * (24 * (60 * (60 * 1000000000)))) by lia.
  by rewrite Z.quot_mul.
Qed.

Lemma div_step_bound x c : 0 < c -> Z.abs (x / c * c) <= Z.abs x + c.
Proof. intros Hc. pose proof (Z.div_mod x c ltac:(lia)). pose proof (Z.mod_pos_bound x c Hc). lia. Qed.

Lemma day_run now anchor step loc :
  in_range now -> 10000 <= anchor <= 20000 -> 0 < step < 2 ^ 40 -> regular_midnight loc anchor ->
  let start := anchor + (local_day now - anchor) / step * step in
  regular_midnight loc start ->
  AddDate (at_midnight loc anchor) 0 0 (wrap64 (floorDivide (local_day now - anchor) step * step)) = at_midnight loc start /\
  AddDate (at_midnight loc start) 0 0 step = at_midnight loc (start + step).
Proof.
  intros Hr Ha Hs Hreg start Hstart. pose proof (local_day_range now Hr) as Hday.
  pose proof (div_step_bound (local_day now - anchor) step ltac:(lia)) as Hb.
  rewrite floorDivide_div, wrap64_fits by (unfold fits64; lia).
  split; apply AddDate_days; unfold start; done || lia.
Qed.

Lemma time_Date_month year month i loc :
  year * 12 + month - 1 = i -> Z.abs i <= 2 ^ 40 ->
  time_Date year month 1 0 0 0 0 loc = at_midnight loc (month_start i).
Proof.
  intros <- Hi. pose proof (month_start_bound (year * 12 + month - 1)) as Hb.
  rewrite time_Date_midnight by (unfold fits64; lia). f_equal. lia.
Qed.

Lemma AddDate_month loc i years months :
  regular_midnight loc (month_start i) -> Z.abs i <= 2 ^ 38 -> Z.abs years <= 2 ^ 32 -> Z.abs months <= 2 ^ 32 ->
  AddDate (at_midnight loc (month_start i)) years months 0 = at_midnight loc (month_start (i + years * 12 + months)).
Proof.
  intros Hreg Hi Hy Hm. pose proof (AddDate_midnight loc (month_start i) years months 0) as Ha. cbn zeta in Ha.
  pose proof (month_start_bound i). pose proof (month_start_bound (i + years * 12 + months)).
  rewrite month_index_start in Ha. rewrite Ha; try done; try lia; [f_equal; lia|unfold fits64; lia].
Qed.

Lemma month_of_now t : Year t * 12 + Month t - 1 = month_index (local_day t).
Proof. unfold Year, Month, month_index. by destruct (civil_from_days (local_day t)) as [[y m] d]. Qed.

Lemma year_of_now t : Year t = month_index (local_day t) / 12.
Proof.
  rewrite <- month_of_now. unfold Year, Month. destruct (civil_from_days (local_day t)) as [[y m] d] eqn:Hc. cbn.
  apply civil_from_days_inverse in Hc as (_ & Hm & _). Z.to_euclidean_division_equations. lia.
Qed.

Lemma period_run_div7 x c : 0 < c -> x / (c * 7) = x / 7 / c.
Proof. intros Hc. rewrite Z.div_div, Z.mul_comm by lia. by rewrite (Z.mul_comm 7). Qed.

(** What each unit's branch returns: the midnights of the run now is in. *)
Section units.
Context (now : Time) (count : Z).
Context (Hcount : 0 < count < 2 ^ 31) (Hrange : in_range now).

Definition returns_run (unit : string) : Prop :=
  regular_midnight (location now) (period_start unit 0) ->
  regular_midnight (location now) (run_start unit count (local_day now)) ->
  resolveAutoRechargeCalendarWindow now unit count =
  Ok (at_midnight (location now) (run_start unit count (local_day now)),
      at_midnight (location now) (run_end unit count (local_day now))).

Lemma day_returns_run : returns_run "day".
Proof using All.
  intros Hanchor Hstart. unfold resolveAutoRechargeCalendarWindow. cbn [String.eqb Ascii.eqb Bool.eqb orb].
  rewrite (time_Date_month 2000 1 24000) by lia.
  replace (month_start 24000) with 10957 by reflexivity. change (period_start "day" 0) with 10957 in Hanchor.
  cbv zeta. rewrite elapsed_days by (done || lia).
  destruct (day_run now 10957 count (location now)) as [-> ->]; try done; try lia.
  do 3 f_equal. unfold run_end, period_start, period_of. cbn. lia.
Qed.

Lemma week_returns_run : returns_run "week".
Proof using All.
  intros Hanchor Hstart. unfold resolveAutoRechargeCalendarWindow. cbn [String.eqb Ascii.eqb Bool.eqb orb].
  rewrite (time_Date_midnight 2000 1 3) by (vm_compute; split; congruence).
  replace (month_start (2000 * 12 + 1 - 1) + 3 - 1) with 10959 by reflexivity.
  change (period_start "week" 0) with 10959 in Hanchor. cbv zeta.
  rewrite elapsed_days, (wrap64_fits (count * 7)) by (done || unfold fits64; lia).
  assert (run_start "week" count (local_day now) = 10959 + (local_day now - 10959) / (count * 7) * (count * 7)) as Heq.
  { rewrite period_run_div7 by lia. unfold run_start, period_start, period_of. cbn. lia. }
  destruct (day_run now 10959 (count * 7) (location now)) as [-> ->]; rewrite <- ?Heq; try done; try lia.
  do 3 f_equal. rewrite Heq, period_run_div7 by lia. unfold run_end, period_start, period_of. cbn. lia.
Qed.

Lemma month_returns_run : returns_run "month".
Proof using All.
  intros Hanchor Hstart. unfold resolveAutoRechargeCalendarWindow. cbn [String.eqb Ascii.eqb Bool.eqb orb].
  pose proof (local_day_range now Hrange) as Hday. rewrite month_of_now. cbv zeta.
  rewrite period_of_month.
  pose proof (period_of_range "month" (local_day now) Hday) as Hp.
  pose proof (div_step_bound (period_of "month" (local_day now)) count ltac:(lia)) as Hb.
  rewrite floorDivide_div by lia. rewrite run_start_eq in Hstart |- *. rewrite run_end_eq.
  rewrite period_start_month in Hstart |- *. rewrite period_start_month.
  set (k := period_of "month" (local_day now) / count) in *. clearbody k.
  rewrite (wrap64_fits (k * count)), wrap64_fits by (unfold fits64; lia).
  rewrite (time_Date_month _ _ (24000 + k * count)) by (Z.to_euclidean_division_equations; lia).
  rewrite AddDate_month by (done || lia). do 4 f_equal. lia.
Qed.

Lemma year_returns_run : returns_run "year".
Proof using All.
  intros Hanchor Hstart. unfold resolveAutoRechargeCalendarWindow. cbn [String.eqb Ascii.eqb Bool.eqb orb].
  pose proof (local_day_range now Hrange) as Hday. rewrite year_of_now. cbv zeta.
  rewrite period_of_year.
  pose proof (period_of_range "year" (local_day now) Hday) as Hp.
  pose proof (div_step_bound (period_of "year" (local_day now)) count ltac:(lia)) as Hb.
  rewrite floorDivide_div by lia. rewrite run_start_eq in Hstart |- *. rewrite run_end_eq.
  rewrite period_start_year in Hstart |- *. rewrite period_start_year.
  set (k := period_of "year" (local_day now) / count) in *. clearbody k.
  rewrite (wrap64_fits (k * count)), wrap64_fits by (unfold fits64; lia).
  rewrite (time_Date_month _ _ ((2000 + k * count) * 12)) by lia.
  rewrite AddDate_month by (done || lia). do 4 f_equal. lia.
Qed.

Lemma resolveAutoRechargeCalendarWindow_run unit : calendar_unit unit = true -> returns_run unit.
Proof using All.
  unfold calendar_unit. intros [[[Hu|Hu]%orb_true_iff|Hu]%orb_true_iff|Hu]%orb_true_iff;
    apply String.eqb_eq in Hu as ->.
  - apply day_returns_run.
  - apply week_returns_run.
  - apply month_returns_run.
  - apply year_returns_run.
Qed.
End units.

(** The zone a window is in. *)
Definition window_timezone (window : Window) : string :=
  if TrimSpace (Window_Timezone window) =? "" then "UTC" else TrimSpace (Window_Timezone window).

Definition calendar_window (window : Window) (loc : Location) (day : Z) : AutoRechargeWindow :=
  let start := ToUTC (at_midnight loc (run_start (Window_Unit window) (Window_Count window) day)) in
  let end_ := ToUTC (at_midnight loc (run_end (Window_Unit window) (Window_Count window) day)) in
  {| AutoRechargeWindow_Unit := Window_Unit window; AutoRechargeWindow_Count := Window_Count window;
     AutoRechargeWindow_Anchor := "calendar"; AutoRechargeWindow_Timezone := window_timezone window;
     AutoRechargeWindow_Start := start; AutoRechargeWindow_End := end_;
     AutoRechargeWindow_DurationDays := SFdiv 53 1024 (Hours (Sub end_ start)) (float64_of 24) |}.

Lemma in_range_not_zero t : in_range t -> IsZeroTime t = false.
Proof.
  intros [Hl _]. unfold IsZeroTime. apply Z.eqb_neq.
  replace (days_from_civil 1 1 1) with (-719162) by reflexivity. unfold Second. lia.
Qed.

Lemma resolve_calendar window now :
  Window_Type window = "calendar" -> calendar_unit (Window_Unit window) = true ->
  0 < Window_Count window < 2 ^ 31 -> LoadLocation (window_timezone window) = None -> in_range now ->
  let loc := location_named (window_timezone window) in
  let day := local_day (In_ now loc) in
  regular_midnight loc (period_start (Window_Unit window) 0) ->
  regular_midnight loc (run_start (Window_Unit window) (Window_Count window) day) ->
  resolveAutoRechargeWindow window now = Ok (calendar_window window loc day).
Proof.
  intros Htype Hunit Hcount Hload Hrange loc day Hanchor Hstart.
  unfold resolveAutoRechargeWindow. rewrite (in_range_not_zero now Hrange), Htype.
  change ("calendar" =? "rolling") with false. change ("calendar" =? "calendar") with true. cbv iota beta.
  rewrite (proj2 (Z.ltb_ge _ 1)) by lia. cbv zeta. fold (window_timezone window). rewrite Hload. fold loc.
  rewrite (resolveAutoRechargeCalendarWindow_run (In_ (ToUTC now) loc) (Window_Count window)); done.
Qed.

(** C15: a calendar window holds the instant it was resolved at, from the
    local midnight of the first day of its run of periods to the midnight
    after the last, and every instant of it resolves to the same window: the
    purchases a limit counts are those of one fixed run.  The midnights that
    bound it must exist in the zone (see [skipped_midnight_window]). *)
Theorem resolveAutoRechargeWindow_calendar window now :
  Window_Type window = "calendar" -> calendar_unit (Window_Unit window) = true ->
  0 < Window_Count window < 2 ^ 31 -> LoadLocation (window_timezone window) = None -> in_range now ->
  let loc := location_named (window_timezone window) in
  let day := local_day (In_ now loc) in
  (forall d, d ∈ [period_start (Window_Unit window) 0; run_start (Window_Unit window) (Window_Count window) day;
                  run_end (Window_Unit window) (Window_Count window) day] -> regular_midnight loc d) ->
  exists w, resolveAutoRechargeWindow window now = Ok w /\
    instant (AutoRechargeWindow_Start w) <= instant now < instant (AutoRechargeWindow_End w) /\
    forall now', in_range now' ->
      instant (AutoRechargeWindow_Start w) <= instant now' < instant (AutoRechargeWindow_End w) ->
      resolveAutoRechargeWindow window now' = Ok w.
Proof.
  intros Htype Hunit Hcount Hload Hrange loc day Hreg.
  assert (regular_midnight loc (period_start (Window_Unit window) 0)) as Hanchor by (apply Hreg; set_solver).
  assert (regular_midnight loc (run_start (Window_Unit window) (Window_Count window) day)) as Hstart by (apply Hreg; set_solver).
  assert (regular_midnight loc (run_end (Window_Unit window) (Window_Count window) day)) as Hend by (apply Hreg; set_solver).
  assert (forall t, instant (ToUTC (at_midnight loc (run_start (Window_Unit window) (Window_Count window) day))) <= instant t <
                    instant (ToUTC (at_midnight loc (run_end (Window_Unit window) (Window_Count window) day))) <->
            run_start (Window_Unit window) (Window_Count window) day <= local_day (In_ t loc) <
            run_end (Window_Unit window) (Window_Count window) day) as Hin.
  { intros t. pose proof (midnight_le loc _ (In_ t loc) Hstart eq_refl). pose proof (midnight_le loc _ (In_ t loc) Hend eq_refl).
    cbn [ToUTC In_ instant] in *. lia. }
  exists (calendar_window window loc day). split; [by apply resolve_calendar|]. split.
  { apply (Hin now), run_contains. lia. }
  intros now' Hrange' Hnow'%Hin.
  assert (calendar_window window loc day = calendar_window window loc (local_day (In_ now' loc))) as ->.
  { unfold calendar_window, run_start, run_end. by rewrite (run_same _ _ day (local_day (In_ now' loc))) by (done || lia). }
  apply resolve_calendar; try done. fold loc. unfold run_start in *.
  by rewrite (run_same _ _ day (local_day (In_ now' loc))) by (done || lia).
Qed.
End calendar.

(** ** Rolling windows *)

Definition unit_length (unit : string) : option Z :=
  if unit =? "second" then Some Second
  else if unit =? "minute" then Some Minute
  else if unit =? "hour" then Some Hour
  else if unit =? "day" then Some (24 * Hour)
  else if unit =? "week" then Some (7 * 24 * Hour)
  else None.

Lemma wrap64_mul_l a b : wrap64 (wrap64 a * b) = wrap64 (a * b).
Proof.
  unfold wrap64. f_equal. replace ((a + 2 ^ 63) mod 2 ^ 64 - 2 ^ 63) with (a - (a + 2 ^ 63) / 2 ^ 64 * 2 ^ 64)
    by (pose proof (Z.div_mod (a + 2 ^ 63) (2 ^ 64) ltac:(lia)); lia).
  replace ((a - (a + 2 ^ 63) / 2 ^ 64 * 2 ^ 64) * b + 2 ^ 63)
    with (a * b + 2 ^ 63 + - ((a + 2 ^ 63) / 2 ^ 64 * b) * 2 ^ 64) by ring.
  apply Z.mod_add. lia.
Qed.

(** The products of the switch wrap once, at the end. *)
Lemma rolling_offset_eq unit count :
  rolling_offset unit count = (fun len => wrap64 (- (count * len))) <$> unit_length unit.
Proof.
  unfold rolling_offset, unit_length. cbv zeta.
  repeat (destruct (_ =? _)); cbn [fmap option_fmap option_map]; try done; f_equal;
    repeat (rewrite <- ?Z.mul_assoc; rewrite wrap64_mul_l); f_equal; ring.
Qed.

Section rolling.
Context `{TimeZones} `{Zones}.

(** A rolling window ends at the instant it is resolved at and starts
    [count] units before, for every unit the schema admits, as long as that
    span is a [time.Duration] (292 years); beyond, the start is off by a
    multiple of 2^64 nanoseconds (see [rolling_window_wraps]).  Any other
    unit, or a count below one, is a configuration error. *)
Theorem resolveAutoRechargeWindow_rolling window duration now :
  Window_Type window = "rolling" -> Window_Duration window = Some duration -> IsZeroTime now = false ->
  match unit_length (Duration_Unit duration) with
  | Some len =>
      if 1 <=? Duration_Count duration then
        exists w, resolveAutoRechargeWindow window now = Ok w /\
          instant (AutoRechargeWindow_End w) = instant now /\
          instant (AutoRechargeWindow_Start w) = instant now + wrap64 (- (Duration_Count duration * len)) /\
          (Duration_Count duration * len <= 2 ^ 63 ->
           instant (AutoRechargeWindow_Start w) = instant now - Duration_Count duration * len)
      else exists e, resolveAutoRechargeWindow window now = Err e /\ is_config_error e
  | None => exists e, resolveAutoRechargeWindow window now = Err e /\ is_config_error e
  end.
Proof.
  intros Htype Hdur Hzero. unfold resolveAutoRechargeWindow. rewrite Hzero, Htype, Hdur.
  change ("rolling" =? "rolling") with true. cbv iota zeta. rewrite rolling_offset_eq.
  destruct (unit_length (Duration_Unit duration)) as [len|] eqn:Hlen; cbn [fmap option_fmap option_map].
  - destruct (Z.leb_spec 1 (Duration_Count duration)) as [Hc|Hc].
    + rewrite (proj2 (Z.ltb_ge _ 1)) by lia. eexists. split; [done|]. cbn. split_and!; [done..|]. intros Hfits.
      assert (0 <= len) as Hnonneg.
      { unfold unit_length in Hlen. repeat (destruct (_ =? _)); try done; injection Hlen as <-; done. }
      rewrite wrap64_fits by (unfold fits64; nia). lia.
    + rewrite (proj2 (Z.ltb_lt _ 1)) by lia. eexists. split; [done|]. apply newConfigError_is.
  - destruct (Duration_Count duration <? 1); (eexists; split; [done|]; apply newConfigError_is).
Qed.
End rolling.

(** ** Witnesses *)

(** A window of whole periods. *)
Definition calendar (unit : string) (count : Z) (timezone : string) : Window :=
  {| Window_Type := "calendar"; Window_Unit := unit; Window_Count := count; Window_Timezone := timezone;
     Window_Duration := None; Window_Interval := None |}.
Definition rolling (unit : string) (count : Z) : Window :=
  {| Window_Type := "rolling"; Window_Unit := ""; Window_Count := 0; Window_Timezone := "";
     Window_Duration := Some {| Duration_Unit := unit; Duration_Count := count |}; Window_Interval := None |}.

#[local] Instance every_zone : TimeZones := {| LoadLocation := fun _ => None |}.

(** New York around 2026: summer time from 8 March, 07:00 UTC, to 1 November, 06:00 UTC. *)
Definition new_york : Zones :=
  {| zone_lookup := fun _ sec =>
       if sec <? 1772953200 then (-18000, -2 ^ 63, 1772953200)
       else if sec <? 1793512800 then (-14400, 1772953200, 1793512800)
       else (-18000, 1793512800, 2 ^ 63 - 1) |}.

Lemma new_york_laws : @ZoneLaws new_york.
Proof.
  split. intros [|name] sec; unfold offset_at, lookup, new_york; cbn; [lia|].
  destruct (sec <? 1772953200); [cbn; lia|]. destruct (sec <? 1793512800); cbn; lia.
Qed.

Lemma new_york_midnight name day u :
  @midnight new_york (Zone name) day = u ->
  u + @offset_at new_york (Zone name) u = day * 86400 -> u <> 1793512800 + 3600 ->
  (day * 86400 < 1793512800 - 18000 \/ 1793512800 - 14400 <= day * 86400) ->
  @regular_midnight new_york (Zone name) day.
Proof.
  intros Hu Hl Hne Hday. split; rewrite Hu; [done|]. revert Hl. unfold offset_at, lookup, new_york; cbn.
  intros Hl sec.
  destruct (Z.ltb_spec u 1772953200), (Z.ltb_spec u 1793512800), (Z.ltb_spec sec 1772953200), (Z.ltb_spec sec 1793512800);
    cbn in *; lia.
Qed.

(** The week in which summer time starts in New York has 167 hours. *)
Lemma resolveAutoRechargeWindow_calendar_witness :
  let now := time_Date (H := new_york) 2026 3 8 12 0 0 0 UTC in
  exists w, resolveAutoRechargeWindow (H0 := new_york) (calendar "week" 1 "America/New_York") now = Ok w /\
    instant (AutoRechargeWindow_Start w) <= instant now < instant (AutoRechargeWindow_End w) /\
    instant (AutoRechargeWindow_End w) - instant (AutoRechargeWindow_Start w) = 167 * Hour.
Proof.
  intros now.
  destruct (@resolveAutoRechargeWindow_calendar every_zone new_york new_york_laws
              (calendar "week" 1 "America/New_York") now) as (w & Hw & Hin & _).
  - reflexivity.
  - reflexivity.
  - split; reflexivity.
  - reflexivity.
  - split; [discriminate|reflexivity].
  - intros d Hd. repeat (apply elem_of_cons in Hd as [->|Hd]); [..|by apply not_elem_of_nil in Hd];
      (eapply new_york_midnight; [vm_compute; reflexivity|reflexivity|discriminate|left; reflexivity]).
  - exists w. split; [exact Hw|]. split; [exact Hin|]. vm_compute in Hw. injection Hw as <-. reflexivity.
Defined.

Lemma resolveAutoRechargeWindow_rolling_witness :
  let now := time_Date (H := new_york) 2026 3 8 12 0 0 0 UTC in
  exists w, resolveAutoRechargeWindow (H0 := new_york) (rolling "day" 30) now = Ok w /\
    instant (AutoRechargeWindow_Start w) = instant (time_Date (H := new_york) 2026 2 6 12 0 0 0 UTC).
Proof.
  intros now. destruct (@resolveAutoRechargeWindow_rolling every_zone new_york (rolling "day" 30)
    {| Duration_Unit := "day"; Duration_Count := 30 |} now eq_refl eq_refl eq_refl) as (w & Hw & _ & _ & Hstart).
  exists w. split; [exact Hw|]. rewrite Hstart by (vm_compute; discriminate). reflexivity.
Defined.

(** ** What the model found *)

(** The longest windows the schema admits do not fit a [time.Duration]: one
    of 106752 days starts 292 years after it ends. *)
Theorem rolling_window_wraps `{Zones} :
  exists w, resolveAutoRechargeWindow (rolling "day" 106752) (time_Date 2026 3 8 12 0 0 0 UTC) = Ok w /\
    instant (AutoRechargeWindow_End w) + 292 * 365 * 24 * Hour < instant (AutoRechargeWindow_Start w).
Proof. eexists. split; [vm_compute; reflexivity|]. vm_compute. reflexivity. Qed.

(** Sao Paulo until 2019: on 4 November 2018 clocks went from midnight to one. *)
Definition sao_paulo : Zones :=
  {| zone_lookup := fun _ sec =>
       if sec <? 1541300400 then (-10800, -2 ^ 63, 1541300400) else (-7200, 1541300400, 2 ^ 63 - 1) |}.

(** Where a local midnight is skipped, the day's window starts an hour early
    and so ends an hour early: late on 4 November it is already over. *)
Theorem skipped_midnight_window :
  let now := time_Date (H := sao_paulo) 2018 11 4 23 30 0 0 (Zone "America/Sao_Paulo") in
  exists w, resolveAutoRechargeWindow (H0 := sao_paulo) (calendar "day" 1 "America/Sao_Paulo") now = Ok w /\
    instant (AutoRechargeWindow_End w) <= instant now.
Proof. eexists. split; [vm_compute; reflexivity|]. vm_compute. discriminate. Qed.
