(* ===== verification/CreditTypes.v ===== *)
(** * credit_store.go and credit_types.go: checks and data of the credit services

    Amounts are decimals, pointers options, [time.Duration] its nanoseconds.
    A nil [CreditMetadata] is told apart from an empty one, since [Clone]
    does. *)

From S2P Require Export Effects GoCalendar Engine.
Local Open Scope Z_scope.
Local Open Scope go_scope.

(** ** credit_store.go, lines 85-151: the checks of caller-supplied values *)

Definition maxIdempotencyKeyLength : Z := 255.
Definition defaultLeaseTTL : Z := 10 * Minute.
Definition BillingModeStrict := "strict".
Definition BillingModeOverdraft := "overdraft".

Definition string_length (s : string) : Z := Z.of_nat (String.length s).

(** [firstNonEmpty], of credits.go *)
Fixpoint firstNonEmpty (values : list string) : string :=
  match values with
  | [] => ""
  | value :: rest => if TrimSpace value =? "" then firstNonEmpty rest else value
  end.

Definition requireText (value field : string) : result string :=
  let trimmed := TrimSpace value in
  if trimmed =? ""
  then Err (errorf ErrorCode.Config ErrorCategory.InvalidRequest (field +:+ " must not be empty"))
  else Ok trimmed.

Definition requireStableKey (value field : string) : result string :=
  trimmed <- requireText value field ;;
  if maxIdempotencyKeyLength <? string_length trimmed
  then Err (errorf ErrorCode.Config ErrorCategory.InvalidRequest
              (field +:+ " must be at most " +:+ itoa maxIdempotencyKeyLength +:+ " characters"))
  else Ok trimmed.

(** [value % time.Second] truncates. *)
Definition requirePositiveDuration (value : Z) (field : string) : result Z :=
  if value <=? 0
  then Err (errorf ErrorCode.Config ErrorCategory.InvalidRequest (field +:+ " must be positive"))
  else if negb (Z.rem value Second =? 0)%Z
  then Err (errorf ErrorCode.Config ErrorCategory.InvalidRequest (field +:+ " must be an exact number of seconds"))
  else Ok value.

Definition requireBoundedLimit (value fallback maximum : Z) (field : string) : result Z :=
  if (value =? 0)%Z then Ok fallback
  else if (value <? 1) || (maximum <? value)
  then Err (errorf ErrorCode.Config ErrorCategory.InvalidRequest
              (field +:+ " must be between 1 and " +:+ itoa maximum))
  else Ok value.

Definition requireBillingMode (mode : string) : result string :=
  if mode =? "" then Ok BillingModeStrict
  else if negb (mode =? BillingModeStrict) && negb (mode =? BillingModeOverdraft)
  then Err (errorf ErrorCode.Config ErrorCategory.InvalidRequest
              ("billing mode must be " +:+ Quote BillingModeStrict +:+ " or " +:+ Quote BillingModeOverdraft))
  else Ok mode.

(** Their lemmas. *)

Lemma requireText_Ok value field trimmed :
  requireText value field = Ok trimmed <-> trimmed = TrimSpace value /\ trimmed <> "".
Proof.
  unfold requireText. destruct (String.eqb_spec (TrimSpace value) ""); naive_solver.
Qed.

Lemma requireStableKey_Ok value field key :
  requireStableKey value field = Ok key <->
  key = TrimSpace value /\ key <> "" /\ string_length key <= maxIdempotencyKeyLength.
Proof.
  unfold requireStableKey. rewrite bind_Ok. setoid_rewrite requireText_Ok. split.
  - intros (k & [-> Hne] & Hk). destruct (Z.ltb_spec maxIdempotencyKeyLength (string_length (TrimSpace value))); [done|].
    by injection Hk as <-.
  - intros (-> & Hne & Hlen). exists (TrimSpace value). split; [done|].
    by rewrite (proj2 (Z.ltb_ge _ _)).
Qed.

(** ** credit_types.go *)

Section types.
Context {D : Type}.

Definition CreditMetadata : Type := option (gmap string (any D)).

(** [CreditMetadata.Clone] *)
Definition Clone (m : CreditMetadata) : gmap string (any D) :=
  match m with None => ∅ | Some m => m end.

Record BalanceResult := {
  BalanceResult_UserID : string;
  BalanceResult_Balance : D;
  BalanceResult_LifetimePurchased : D;
}.

Record AddCreditsOptions := {
  AddCreditsOptions_Type : string;
  AddCreditsOptions_Metadata : CreditMetadata;
  AddCreditsOptions_ExpiresAt : option Time;
  AddCreditsOptions_Bucket : string;
  AddCreditsOptions_IdempotencyKey : string;
}.

Record AddCreditsResult := {
  AddCreditsResult_EntryID : string;
  AddCreditsResult_UserID : string;
  AddCreditsResult_Amount : D;
  AddCreditsResult_NewBalance : D;
  AddCreditsResult_LifetimePurchased : D;
  AddCreditsResult_Bucket : string;
  AddCreditsResult_Idempotent : bool;
}.

Record AvailableResult := {
  AvailableResult_UserID : string;
  AvailableResult_Balance : D;
  AvailableResult_Reserved : D;
  AvailableResult_Available : D;
}.

Record DeductionResult := {
  DeductionResult_EntryID : string;
  DeductionResult_UsageChargeID : string;
  DeductionResult_UserID : string;
  DeductionResult_Amount : D;
  DeductionResult_BalanceAfter : option D;
  DeductionResult_AllowanceConsumed : D;
  DeductionResult_Idempotent : bool;
  DeductionResult_ErrorCode : string;
  DeductionResult_BucketBreakdown : option (gmap string D);
}.

Record PostDeductionContext := {
  PostDeductionContext_UserID : string;
  PostDeductionContext_Source : string;
  PostDeductionContext_Deduction : DeductionResult;
}.

Record RefundResult := {
  RefundResult_RefundEntryID : string;
  RefundResult_OriginalEntryID : string;
  RefundResult_UserID : string;
  RefundResult_Amount : option D;
  RefundResult_NewBalance : option D;
  RefundResult_ErrorCode : string;
  RefundResult_BucketBreakdown : option (gmap string D);
}.

Record RevokeCreditsResult := {
  RevokeCreditsResult_UserID : string;
  RevokeCreditsResult_EntryType : string;
  RevokeCreditsResult_Revoked : D;
  RevokeCreditsResult_BalanceAfter : D;
}.

Record OperationUsageOptions := {
  OperationUsageOptions_Feature : string;
  OperationUsageOptions_Model : string;
  OperationUsageOptions_Region : string;
  OperationUsageOptions_Measures : gmap string D;
  OperationUsageOptions_Dimensions : gmap string (any D);
}.

Record DeductWithAllowanceOptions := {
  DeductOptions_Usage : OperationUsageOptions;
  DeductOptions_IdempotencyKey : string;
  DeductOptions_Operation : string;
  DeductOptions_Metadata : CreditMetadata;
}.

Record RecordUsageOptions := {
  RecordUsageOptions_Usage : OperationUsageOptions;
  RecordUsageOptions_IdempotencyKey : string;
  RecordUsageOptions_Metadata : CreditMetadata;
}.

Record UsageRecordResult := {
  UsageRecordResult_UsageID : string;
  UsageRecordResult_UserID : string;
  UsageRecordResult_Requested : D;
  UsageRecordResult_Idempotent : bool;
  UsageRecordResult_ErrorCode : string;
}.

Record CreateLeaseOptions := {
  CreateLeaseOptions_Usage : OperationUsageOptions;
  CreateLeaseOptions_IdempotencyKey : string;
  CreateLeaseOptions_BillingMode : string;
  CreateLeaseOptions_Floor : D;
  CreateLeaseOptions_MaxConcurrent : option Z;
  CreateLeaseOptions_OverdraftFloor : option D;
  CreateLeaseOptions_TTL : Z;
  CreateLeaseOptions_Metadata : CreditMetadata;
}.

(** [SettleLeaseOptions] and the service's [SettleOptions] have the same
    fields and are converted into one another. *)
Record SettleOptions := {
  SettleOptions_Usage : OperationUsageOptions;
  SettleOptions_IdempotencyKey : string;
  SettleOptions_Metadata : CreditMetadata;
}.

Record LeaseResult := {
  LeaseResult_LeaseID : string;
  LeaseResult_UserID : string;
  LeaseResult_Amount : option D;
  LeaseResult_Available : D;
  LeaseResult_ReservedTotal : D;
  LeaseResult_MinimumBalance : option D;
  LeaseResult_BillingMode : string;
  LeaseResult_ExpiresAt : option Time;
  LeaseResult_ErrorCode : string;
}.

Record LeasePricingContext := {
  LeasePricingContext_CatalogVersion : Z;
  LeasePricingContext_PlanID : string;
  LeasePricingContext_PlanKey : string;
  LeasePricingContext_RateCard : string;
}.

Record ReleaseResult := {
  ReleaseResult_LeaseID : string;
  ReleaseResult_UserID : string;
  ReleaseResult_Released : bool;
  ReleaseResult_Reason : string;
}.

Record CanAffordResult := {
  CanAffordResult_Affordable : bool;
  CanAffordResult_Spendable : D;
  CanAffordResult_WorstCase : D;
  CanAffordResult_Reason : string;
}.

Record AllowanceResult := {
  AllowanceResult_PlanID : string;
  AllowanceResult_AllowanceRemaining : D;
  AllowanceResult_PeriodStart : Time;
  AllowanceResult_PeriodEnd : Time;
}.

Record CatalogRevision := {
  CatalogRevision_ID : string;
  CatalogRevision_Config : option (gmap string (any D));
  CatalogRevision_Version : Z;
}.
End types.
Arguments CreditMetadata : clear implicits.
Arguments BalanceResult : clear implicits.
Arguments AddCreditsOptions : clear implicits.
Arguments AddCreditsResult : clear implicits.
Arguments AvailableResult : clear implicits.
Arguments DeductionResult : clear implicits.
Arguments PostDeductionContext : clear implicits.
Arguments RefundResult : clear implicits.
Arguments RevokeCreditsResult : clear implicits.
Arguments OperationUsageOptions : clear implicits.
Arguments DeductWithAllowanceOptions : clear implicits.
Arguments RecordUsageOptions : clear implicits.
Arguments UsageRecordResult : clear implicits.
Arguments CreateLeaseOptions : clear implicits.
Arguments SettleOptions : clear implicits.
Arguments LeaseResult : clear implicits.
Arguments CanAffordResult : clear implicits.
Arguments AllowanceResult : clear implicits.
Arguments CatalogRevision : clear implicits.

(** What the services read of [GetUserPlanResult]. *)
Record GetUserPlanResult := {
  GetUserPlanResult_PlanKey : string;
  GetUserPlanResult_RateCard : string;
  GetUserPlanResult_CatalogVersion : option Z;
  GetUserPlanResult_PlanAssignedAt : option Time;
}.

(** [CheckFeatureResult], without the entitlement's value. *)
Record CheckFeatureResult := {
  CheckFeatureResult_UserID : string;
  CheckFeatureResult_Feature : string;
  CheckFeatureResult_HasFeature : bool;
}.

Record SetUserPlanResult := {
  SetUserPlanResult_UserID : string;
  SetUserPlanResult_PlanID : string;
  SetUserPlanResult_PlanKey : string;
  SetUserPlanResult_PlanAssignedAt : Time;
  SetUserPlanResult_AssignmentState : string;
}.

Record QuotaEvent := {
  QuotaEvent_EventID : string;
  QuotaEvent_QuotaKey : string;
  QuotaEvent_Operation : string;
  QuotaEvent_Measure : string;
  QuotaEvent_EventType : string;
  QuotaEvent_ThresholdPercent : option float64;
  QuotaEvent_IdempotencyKey : string;
  QuotaEvent_UsageChargeID : string;
  QuotaEvent_CreatedAt : Time;
}.

Record ListQuotaEventsOptions := {
  ListQuotaEventsOptions_After : option Time;
  ListQuotaEventsOptions_AfterID : string;
  ListQuotaEventsOptions_Limit : Z;
  ListQuotaEventsOptions_IdempotencyKey : string;
}.

(** The options and results of the service methods. *)
Section service_types.
Context {D : Type}.

Record SweepResult := {
  SweepResult_ExpiredCount : Z;
  SweepResult_ExpiredAmount : D;
  SweepResult_DryRun : bool;
  SweepResult_ExpiredByBucket : gmap string D;
}.

Record TeamBalanceResult := {
  TeamBalanceResult_TeamID : string;
  TeamBalanceResult_Name : string;
  TeamBalanceResult_Balance : D;
  TeamBalanceResult_MemberCount : Z;
}.

Record TeamDeductionOptions := {
  TeamDeductionOptions_IdempotencyKey : string;
  TeamDeductionOptions_Operation : string;
  TeamDeductionOptions_Metadata : CreditMetadata D;
}.

Record TeamDeductionResult := {
  TeamDeductionResult_EntryID : string;
  TeamDeductionResult_TeamID : string;
  TeamDeductionResult_UserID : string;
  TeamDeductionResult_Amount : D;
  TeamDeductionResult_TeamBalanceAfter : option D;
  TeamDeductionResult_Idempotent : bool;
  TeamDeductionResult_ErrorCode : string;
}.

(** [PricedUsageOptions]; [PricedUsageRecordOptions] and
    [PricedTeamDeductionOptions] are the same without a feature. *)
Record PricedUsageOptions := {
  PricedUsageOptions_IdempotencyKey : string;
  PricedUsageOptions_Feature : string;
  PricedUsageOptions_Metadata : CreditMetadata D;
}.

Record PricedOptions := {
  PricedOptions_IdempotencyKey : string;
  PricedOptions_Metadata : CreditMetadata D;
}.

Record ReserveOptions := {
  ReserveOptions_Usage : OperationUsageOptions D;
  ReserveOptions_IdempotencyKey : string;
  ReserveOptions_OperationType : string;
  ReserveOptions_BillingMode : string;
  ReserveOptions_TTL : Z;
  ReserveOptions_Metadata : CreditMetadata D;
}.

Record CanAffordOptions := {
  CanAffordOptions_Feature : string;
  CanAffordOptions_BillingMode : string;
  CanAffordOptions_OperationType : string;
}.

Record GrantSubscriptionCycleOptions := {
  GrantOptions_Bucket : string;
  GrantOptions_ExpiresAt : option Time;
  GrantOptions_TTLDays : Z;
  GrantOptions_PlanKey : string;
  GrantOptions_IdempotencyKey : string;
  GrantOptions_Metadata : CreditMetadata D;
}.

(** The options shared by [RunBilledOptions] and [BeginBilledOperationOptions]
    and, with a metrics estimate [E], by their usage counterparts. *)
Record BeginBilledOperationOptions {E : Type} := {
  BilledOptions_Estimate : E;
  BilledOptions_OperationKey : string;
  BilledOptions_OperationType : string;
  BilledOptions_BillingMode : string;
  BilledOptions_TTL : Z;
  BilledOptions_Feature : string;
  BilledOptions_Metadata : CreditMetadata D;
}.

Record RunBilledOptions {E : Type} := {
  RunBilledOptions_Begin : @BeginBilledOperationOptions E;
  RunBilledOptions_HasDoWork : bool;
  RunBilledOptions_SettlementAttempts : Z;
}.

Record RunBilledResult := {
  RunBilledResult_Result : any D;
  RunBilledResult_Deduction : DeductionResult D;
}.
End service_types.
Arguments SweepResult : clear implicits.
Arguments TeamBalanceResult : clear implicits.
Arguments TeamDeductionOptions : clear implicits.
Arguments TeamDeductionResult : clear implicits.
Arguments PricedUsageOptions : clear implicits.
Arguments PricedOptions : clear implicits.
Arguments ReserveOptions : clear implicits.
Arguments GrantSubscriptionCycleOptions : clear implicits.
Arguments BeginBilledOperationOptions : clear implicits.
Arguments RunBilledOptions : clear implicits.
Arguments RunBilledResult : clear implicits.

Module CreditPolicy.
Definition StrictPrepaid := "strict_prepaid".
Definition Overdraft := "overdraft".
End CreditPolicy.

Module PostDeductionSource.
Definition Raw := "raw".
Definition Deduct := "deduct".
Definition Settle := "settle".
End PostDeductionSource.
