(* ===== verification/AutoRecharge.v ===== *)
(** * auto_recharge.go, lines 19-360 and 1003-1182: data and checks

    The policies, profiles, attempts and provider values of automatic
    recharge, and the checks the service makes of everything a store or a
    provider hands it. *)

From S2P Require Export RechargeWindow CreditTypes.
Local Open Scope Z_scope.
Local Open Scope go_scope.

Module AutoRechargeState.
Definition Disabled := "disabled".
Definition Active := "active".
Definition Paused := "paused".
End AutoRechargeState.

Module AttemptState.
Definition Claimed := "claimed".
Definition Submitted := "submitted".
Definition Processing := "processing".
Definition Unknown := "unknown".
Definition Succeeded := "succeeded".
Definition Failed := "failed".
Definition ActionRequired := "action_required".
End AttemptState.

Module Outcome.
Definition NotConfigured := "not_configured".
Definition Disabled := "disabled".
Definition AboveThreshold := "above_threshold".
Definition AlreadyProcessing := "already_processing".
Definition LimitReached := "limit_reached".
Definition Submitted := "submitted".
Definition ActionRequired := "action_required".
Definition Failed := "failed".
End Outcome.

Module ChargeStatus.
Definition Succeeded := "succeeded".
Definition Processing := "processing".
Definition Failed := "failed".
Definition Cancelled := "cancelled".
Definition RequiresCustomerAction := "requires_customer_action".
Definition RequiresMerchantAction := "requires_merchant_action".
Definition RequiresPaymentMethod := "requires_payment_method".
Definition RequiresConfirmation := "requires_confirmation".
Definition RequiresCapture := "requires_capture".
Definition PartiallyCaptured := "partially_captured".
Definition PartiallyCapturedAndCapturable := "partially_captured_and_capturable".
End ChargeStatus.

Section data.
Context {D : Type}.

Record AutoRechargePolicy := {
  AutoRechargePolicy_Threshold : D;
  AutoRechargePolicy_RearmAbove : D;
  AutoRechargePolicy_TopupKey : string;
  AutoRechargePolicy_TopupID : string;
  AutoRechargePolicy_ProductID : string;
  AutoRechargePolicy_Quantity : Z;
  AutoRechargePolicy_MaxChargesPerWindow : Z;
  AutoRechargePolicy_MaxChargeMinor : Z;
  AutoRechargePolicy_Window : AutoRechargeWindow;
}.

Record AutoRechargeProfile := {
  AutoRechargeProfile_UserID : string;
  AutoRechargeProfile_Enabled : bool;
  AutoRechargeProfile_State : string;
  AutoRechargeProfile_Armed : bool;
  AutoRechargeProfile_Provider : string;
  AutoRechargeProfile_TopupID : string;
  AutoRechargeProfile_Quantity : Z;
  AutoRechargeProfile_Threshold : D;
  AutoRechargeProfile_MaxChargesPerWindow : Z;
  AutoRechargeProfile_WindowUnit : string;
  AutoRechargeProfile_WindowCount : Z;
  AutoRechargeProfile_WindowAnchor : string;
  AutoRechargeProfile_WindowTimezone : string;
  AutoRechargeProfile_UpdatedAt : Time;
}.

Record AutoRechargeAttempt := {
  AutoRechargeAttempt_ID : string;
  AutoRechargeAttempt_UserID : string;
  AutoRechargeAttempt_Provider : string;
  AutoRechargeAttempt_IdempotencyKey : string;
  AutoRechargeAttempt_ProviderAttemptID : string;
  AutoRechargeAttempt_TopupID : string;
  AutoRechargeAttempt_Quantity : Z;
  AutoRechargeAttempt_State : string;
  AutoRechargeAttempt_WindowStart : Time;
  AutoRechargeAttempt_WindowEnd : Time;
  AutoRechargeAttempt_QuotedAmountMinor : option Z;
  AutoRechargeAttempt_Currency : string;
  AutoRechargeAttempt_FailureCode : string;
  AutoRechargeAttempt_FailureMessage : string;
  AutoRechargeAttempt_Metadata : gmap string (any D);
  AutoRechargeAttempt_CreatedAt : Time;
  AutoRechargeAttempt_UpdatedAt : Time;
}.

Record AutoRechargeAttemptUpdate := {
  AutoRechargeAttemptUpdate_ID : string;
  AutoRechargeAttemptUpdate_State : string;
  AutoRechargeAttemptUpdate_ProviderAttemptID : string;
  AutoRechargeAttemptUpdate_FailureCode : string;
  AutoRechargeAttemptUpdate_FailureMessage : string;
  AutoRechargeAttemptUpdate_Metadata : gmap string (any D);
}.

Record AutoRechargeProcessInput := {
  ProcessInput_UserID : string;
  ProcessInput_Balance : D;
  ProcessInput_ReturnURL : string;
}.
End data.
Arguments AutoRechargePolicy : clear implicits.
Arguments AutoRechargeProfile : clear implicits.
Arguments AutoRechargeAttempt : clear implicits.
Arguments AutoRechargeAttemptUpdate : clear implicits.
Arguments AutoRechargeProcessInput : clear implicits.

Record AutoRechargeAttemptClaim := {
  AutoRechargeAttemptClaim_UserID : string;
  AutoRechargeAttemptClaim_IdempotencyKey : string;
}.

Record AutoRechargeProfileUpsertOptions := { UpsertOptions_ResetCooldown : bool }.

Record AutoRechargeCustomer := {
  AutoRechargeCustomer_UserID : string;
  AutoRechargeCustomer_Provider : string;
  AutoRechargeCustomer_ProviderCustomerID : string;
}.

Record AutoRechargeTopupLookup := {
  AutoRechargeTopupLookup_Provider : string;
  AutoRechargeTopupLookup_OfferKey : string;
  AutoRechargeTopupLookup_Reference : ProviderReference;
}.

Record AutoRechargeTopup := {
  AutoRechargeTopup_ID : string;
  AutoRechargeTopup_ProductID : string;
}.

Record PaymentMethodInfo := {
  PaymentMethodInfo_ID : string;
  PaymentMethodInfo_Last4 : string;
  PaymentMethodInfo_Brand : string;
  PaymentMethodInfo_ExpiryMonth : Z;
  PaymentMethodInfo_ExpiryYear : Z;
  PaymentMethodInfo_IsDefault : bool;
}.

Record SavedPaymentChargeParams := {
  SavedPaymentChargeParams_CustomerID : string;
  SavedPaymentChargeParams_PaymentMethodID : string;
  SavedPaymentChargeParams_ProductID : string;
  SavedPaymentChargeParams_Quantity : Z;
  SavedPaymentChargeParams_ReturnURL : string;
  SavedPaymentChargeParams_Metadata : gmap string string;
  SavedPaymentChargeParams_IdempotencyKey : string;
}.

Record SavedPaymentChargeResult := {
  SavedPaymentChargeResult_ProviderPaymentID : string;
  SavedPaymentChargeResult_Status : string;
  SavedPaymentChargeResult_ActionURL : string;
  SavedPaymentChargeResult_AmountMinor : option Z;
  SavedPaymentChargeResult_Currency : string;
}.

Record SavedPaymentChargeQuote := {
  SavedPaymentChargeQuote_AmountMinor : Z;
  SavedPaymentChargeQuote_Currency : string;
  SavedPaymentChargeQuote_TaxMinor : option Z;
  SavedPaymentChargeQuote_ExpiresAt : option Time;
}.

Record AutoRechargeProcessResult := {
  ProcessResult_Outcome : string;
  ProcessResult_Charge : option SavedPaymentChargeResult;
}.

(** A payment provider: the name it answers to and which of the optional
    interfaces [PaymentMethodsProvider], [SavedPaymentPreviewProvider] and
    [SavedPaymentChargeProvider] it implements. *)
Record PaymentProvider := {
  Provider_Name : string;
  Provider_ListsPaymentMethods : bool;
  Provider_Previews : bool;
  Provider_Charges : bool;
}.

(** ** Small helpers *)

(** [commerce.go]: the first identifier of a reference that is not blank. *)
Definition providerProductID (reference : ProviderReference) : string :=
  let values := [ProviderReference_PriceID reference; ProviderReference_ProductID reference;
                 ProviderReference_ExternalID reference] in
  (fix first (l : list (option string)) : string :=
     match l with
     | [] => ""
     | Some value :: rest => if negb (TrimSpace value =? "") then TrimSpace value else first rest
     | None :: rest => first rest
     end) values.

Definition autoRechargeUserID (userID : string) : result string :=
  requireText userID "auto-recharge user ID".

Definition autoRechargeProviderName (provider : option PaymentProvider) : result string :=
  match provider with
  | None => Err (NewError "payment provider is required"
                   (error_options ErrorCode.CapabilityNotConfigured ErrorCategory.InvalidRequest None))
  | Some p => requireText (Provider_Name p) "payment provider name"
  end.

Definition autoRechargeCapabilityError (provider capability : string) : error :=
  NewError ("payment provider " +:+ Quote provider +:+ " does not support " +:+ Quote capability)
    (error_details ErrorCode.ProviderCapabilityNotSupported ErrorCategory.Unavailable
       {[ "provider" := provider; "capability" := capability ]}).

Definition autoRechargeDiagnosticSummary (err : error) : string :=
  match AsBursarError err with
  | Some b =>
      if negb (error_code b =? "") then "auto_recharge_provider_failed:" +:+ error_code b
      else "auto_recharge_provider_failed:provider_error"
  | None => "auto_recharge_provider_failed:provider_error"
  end.

Definition isPaymentMethodLast4 (value : string) : bool :=
  (string_length value =? 4)%Z && all_chars is_digit value.

Definition isCurrencyCode (value : string) : bool :=
  (string_length value =? 3)%Z && all_chars is_upper value.

(** ** Checks *)

(** [NewStoreError(message, ErrorOptions{Details: details})] *)
Definition store_error (message : string) (details : gmap string string) : error :=
  NewStoreError message (error_details "" "" details).

(** An invalid answer of the provider. *)
Definition response_error (message : string) (details : gmap string string) : error :=
  NewError message (error_details ErrorCode.ProviderResponseInvalid ErrorCategory.Unavailable details).

Section checks.
Context {D : Type} `{DecimalOps D}.

Definition autoRechargeProfileProviderMatches (profile : option (AutoRechargeProfile D)) (providerName : string)
    : result unit :=
  match profile with
  | None => Ok tt
  | Some p =>
      if (TrimSpace (AutoRechargeProfile_Provider p) =? "") || (AutoRechargeProfile_Provider p =? providerName)
      then Ok tt
      else Err (NewError "auto-recharge profile provider does not match selected provider"
                  (error_details ErrorCode.ProviderResponseInvalid ErrorCategory.Conflict
                     {[ "profile_provider" := AutoRechargeProfile_Provider p; "provider" := providerName ]}))
  end.

Definition attempt_states : list string :=
  [AttemptState.Claimed; AttemptState.Submitted; AttemptState.Processing; AttemptState.Unknown;
   AttemptState.Succeeded; AttemptState.Failed; AttemptState.ActionRequired].

(** The caller has dismissed the nil attempt. *)
Definition validateAutoRechargeAttempt (attempt : AutoRechargeAttempt D) (providerName userID : string)
    : result unit :=
  requireText (AutoRechargeAttempt_ID attempt) "auto-recharge attempt ID" ;;;
  requireStableKey (AutoRechargeAttempt_IdempotencyKey attempt) "auto-recharge attempt idempotency key" ;;;
  if negb (TrimSpace (AutoRechargeAttempt_UserID attempt) =? userID)
  then Err (store_error "auto-recharge attempt does not belong to requested user" {[ "user_id" := userID ]})
  else if negb (TrimSpace (AutoRechargeAttempt_Provider attempt) =? providerName)
  then Err (store_error "auto-recharge attempt does not belong to selected provider" {[ "provider" := providerName ]})
  else if existsb (String.eqb (AutoRechargeAttempt_State attempt)) attempt_states then Ok tt
  else Err (store_error "auto-recharge attempt has an invalid state"
              {[ "state" := AutoRechargeAttempt_State attempt ]}).

Definition validateAutoRechargeProfile (profile : option (AutoRechargeProfile D)) (userID : string) : result unit :=
  match profile with
  | None => Ok tt
  | Some p =>
      let state := AutoRechargeProfile_State p in
      let user := {[ "user_id" := userID ]} in
      if negb (TrimSpace (AutoRechargeProfile_UserID p) =? userID)
      then Err (store_error "auto-recharge profile does not belong to requested user" user)
      else if negb (AutoRechargeProfile_Enabled p)
      then
        if negb (state =? "") && negb (state =? AutoRechargeState.Disabled)
        then Err (store_error "disabled auto-recharge profile has an invalid state" {[ "state" := state ]})
        else Ok tt
      else if negb (state =? AutoRechargeState.Active) && negb (state =? AutoRechargeState.Paused)
      then Err (store_error "enabled auto-recharge profile has an invalid state" {[ "state" := state ]})
      else if (TrimSpace (AutoRechargeProfile_Provider p) =? "") || (TrimSpace (AutoRechargeProfile_TopupID p) =? "")
              || (AutoRechargeProfile_Quantity p <? 1) || (AutoRechargeProfile_MaxChargesPerWindow p <? 1)
              || (AutoRechargeProfile_WindowCount p <? 1) || IsNegative (AutoRechargeProfile_Threshold p)
      then Err (store_error "enabled auto-recharge profile is malformed" user)
      else if negb (AutoRechargeProfile_WindowAnchor p =? "calendar")
              && negb (AutoRechargeProfile_WindowAnchor p =? "rolling")
      then Err (store_error "enabled auto-recharge profile has an invalid window anchor"
                  {[ "anchor" := AutoRechargeProfile_WindowAnchor p ]})
      else if (TrimSpace (AutoRechargeProfile_WindowUnit p) =? "")
              || (TrimSpace (AutoRechargeProfile_WindowTimezone p) =? "")
      then Err (store_error "enabled auto-recharge profile has an incomplete window" user)
      else Ok tt
  end.
End checks.

Definition validatePaymentMethod (method : PaymentMethodInfo) (providerName : string) : result unit :=
  requireText (PaymentMethodInfo_ID method) "payment method ID" ;;;
  if negb (isPaymentMethodLast4 (PaymentMethodInfo_Last4 method)) || (TrimSpace (PaymentMethodInfo_Brand method) =? "")
  then Err (response_error "provider returned invalid payment method last4" {[ "provider" := providerName ]})
  else if (PaymentMethodInfo_ExpiryMonth method <? 1) || (12 <? PaymentMethodInfo_ExpiryMonth method)
          || (PaymentMethodInfo_ExpiryYear method <? 1)
  then Err (response_error "provider returned invalid payment method expiry" {[ "provider" := providerName ]})
  else Ok tt.

Definition validateSavedPaymentQuote (quote : SavedPaymentChargeQuote) : result unit :=
  if SavedPaymentChargeQuote_AmountMinor quote <? 0
  then Err (response_error "provider returned a negative saved-payment quote" ∅)
  else if negb (isCurrencyCode (SavedPaymentChargeQuote_Currency quote))
  then Err (response_error "provider returned an invalid saved-payment quote currency" ∅)
  else Ok tt.

Definition charge_statuses : list string :=
  [ChargeStatus.Succeeded; ChargeStatus.Processing; ChargeStatus.Failed; ChargeStatus.Cancelled;
   ChargeStatus.RequiresCustomerAction; ChargeStatus.RequiresMerchantAction; ChargeStatus.RequiresPaymentMethod;
   ChargeStatus.RequiresConfirmation; ChargeStatus.RequiresCapture; ChargeStatus.PartiallyCaptured;
   ChargeStatus.PartiallyCapturedAndCapturable].

Definition validateSavedPaymentCharge (charge : SavedPaymentChargeResult) : result unit :=
  if negb (existsb (String.eqb (SavedPaymentChargeResult_Status charge)) charge_statuses)
  then Err (response_error "provider returned saved-payment charge without status" ∅)
  else if match SavedPaymentChargeResult_AmountMinor charge with Some amount => amount <? 0 | None => false end
  then Err (response_error "provider returned a negative saved-payment charge amount" ∅)
  else if negb (SavedPaymentChargeResult_Currency charge =? "")
          && negb (isCurrencyCode (SavedPaymentChargeResult_Currency charge))
  then Err (response_error "provider returned an invalid saved-payment charge currency" ∅)
  else Ok tt.

(** The parameters of a charge or a preview; the details are the attempt and
    the account, when given. *)
Definition savedPaymentParams {D} (policy : AutoRechargePolicy D) (customerID : string) (method : PaymentMethodInfo)
    (returnURL idempotencyKey : string) (details : list string) : SavedPaymentChargeParams :=
  let add (key : string) (detail : option string) (metadata : gmap string string) :=
    match detail with
    | Some value => if negb (TrimSpace value =? "") then <[key := TrimSpace value]> metadata else metadata
    | None => metadata
    end in
  let metadata := add "bursar_account_id" (details !! 1%nat) (add "auto_recharge_attempt_id" (details !! 0%nat) ∅) in
  let metadata := if (0 <? size metadata)%nat then <["purpose" := "credit_topup"]> metadata else metadata in
  {| SavedPaymentChargeParams_CustomerID := customerID;
     SavedPaymentChargeParams_PaymentMethodID := PaymentMethodInfo_ID method;
     SavedPaymentChargeParams_ProductID := AutoRechargePolicy_ProductID policy;
     SavedPaymentChargeParams_Quantity := AutoRechargePolicy_Quantity policy;
     SavedPaymentChargeParams_ReturnURL := TrimSpace returnURL;
     SavedPaymentChargeParams_Metadata := metadata;
     SavedPaymentChargeParams_IdempotencyKey := idempotencyKey |}.

(** The default payment method, or the only one; the loop over the methods. *)
Definition default_method (methods : list PaymentMethodInfo) (providerName : string)
    : result (option PaymentMethodInfo) :=
  fold_result (fun (selected : option PaymentMethodInfo) candidate =>
    if negb (PaymentMethodInfo_IsDefault candidate) then Ok selected
    else match selected with
         | Some _ => Err (response_error "provider returned multiple default payment methods"
                            {[ "provider" := providerName ]})
         | None => Ok (Some candidate)
         end) None methods.

Definition select_method (methods : list PaymentMethodInfo) (providerName : string)
    : result (option PaymentMethodInfo) :=
  selected <- default_method methods providerName ;;
  let selected :=
    match selected, methods with
    | None, [only] => Some only
    | _, _ => selected
    end in
  match selected with
  | None => Ok None
  | Some method => validatePaymentMethod method providerName ;;; Ok (Some method)
  end.
