(* ===== verification/AutoRechargeService.v ===== *)
(** * auto_recharge.go, lines 308-876: the service

    Its methods as programs over the calls they make to the catalog source,
    the durable store, the payment provider, the clock and the key source. *)

From S2P Require Export AutoRecharge.
Local Open Scope Z_scope.
Local Open Scope go_scope.

(** The calls of the service: [AutoRechargeCatalogSource],
    [AutoRechargeStore], the optional interfaces of a provider (named by the
    provider), [AutoRechargeProviderResolver], [now] and
    [newIdempotencyKey]. *)
Section calls.
Context {D : Type}.

Inductive call :=
  | GetConfig
  | ResolveAutoRechargeTopup (lookup : AutoRechargeTopupLookup)
  | GetAutoRechargeCustomer (userID provider : string)
  | GetAutoRechargeProfile (userID : string)
  | UpsertAutoRechargeProfile (profile : AutoRechargeProfile D) (options : AutoRechargeProfileUpsertOptions)
  | ClaimAutoRechargeAttempt (claim : AutoRechargeAttemptClaim)
  | UpdateAutoRechargeAttempt (update : AutoRechargeAttemptUpdate D)
  | CountAutoRechargeAttempts (userID : string) (start : Time)
  | ListPaymentMethods (provider customerID : string)
  | PreviewSavedPaymentCharge (provider : string) (params : SavedPaymentChargeParams)
  | ChargeSavedPaymentMethod (provider : string) (params : SavedPaymentChargeParams)
  | GetProvider (name : string)
  | NewIdempotencyKey (userID : string)
  | Now.

(** What each answers; an option is a pointer that may be nil. *)
Definition answer (c : call) : Type :=
  match c with
  | GetConfig => result (option (BursarConfig D))
  | ResolveAutoRechargeTopup _ => result (option AutoRechargeTopup)
  | GetAutoRechargeCustomer _ _ => result (option AutoRechargeCustomer)
  | GetAutoRechargeProfile _ => result (option (AutoRechargeProfile D))
  | UpsertAutoRechargeProfile _ _ => result unit
  | ClaimAutoRechargeAttempt _ => result (option (AutoRechargeAttempt D))
  | UpdateAutoRechargeAttempt _ => result unit
  | CountAutoRechargeAttempts _ _ => result Z
  | ListPaymentMethods _ _ => result (list PaymentMethodInfo)
  | PreviewSavedPaymentCharge _ _ => result SavedPaymentChargeQuote
  | ChargeSavedPaymentMethod _ _ => result SavedPaymentChargeResult
  | GetProvider _ => result (option PaymentProvider)
  | NewIdempotencyKey _ => result string
  | Now => Time
  end.
End calls.
Arguments call : clear implicits.

(** The provider for the [AutoRechargeService] value: which of its ports are set. *)
Record AutoRechargeService := {
  Service_HasCatalog : bool;
  Service_HasStore : bool;
}.

Definition not_initialized : error :=
  NewError "auto-recharge service is not initialized"
    (error_options ErrorCode.StoreClosed ErrorCategory.Unavailable None).

Definition NewAutoRechargeService (hasCatalog hasStore : bool) : result AutoRechargeService :=
  if negb hasCatalog
  then Err (NewError "auto-recharge requires a catalog source"
              (error_options ErrorCode.Config ErrorCategory.InvalidRequest None))
  else if negb hasStore
  then Err (NewError "auto-recharge requires a durable store"
              (error_options ErrorCode.Config ErrorCategory.InvalidRequest None))
  else Ok {| Service_HasCatalog := hasCatalog; Service_HasStore := hasStore |}.

Record AutoRechargeStatus (D : Type) := {
  AutoRechargeStatus_Enabled : bool;
  AutoRechargeStatus_State : string;
  AutoRechargeStatus_ThresholdCredits : D;
  AutoRechargeStatus_TopupKey : string;
  AutoRechargeStatus_Quantity : Z;
  AutoRechargeStatus_MaxRecharges : Z;
  AutoRechargeStatus_WindowStart : Time;
  AutoRechargeStatus_WindowEnd : Time;
  AutoRechargeStatus_RechargesInWindow : Z;
  AutoRechargeStatus_PaymentMethodID : string;
  AutoRechargeStatus_PaymentMethodLast4 : string;
  AutoRechargeStatus_PaymentMethodBrand : string;
  AutoRechargeStatus_SuspendedReason : string;
  AutoRechargeStatus_PendingAttemptID : string;
  AutoRechargeStatus_QuoteAmountMinor : option Z;
  AutoRechargeStatus_QuoteCurrency : string;
}.

Section service.
Context {D : Type} `{DecimalOps D} `{TimeZones} `{Zones}.
Implicit Types (s : option AutoRechargeService) (provider : option PaymentProvider) (userID : string).

Notation prog := (prog (@answer D)).

(** A call that answers [(A, error)], its error returned at once. *)
Definition getConfig : prog (option (BursarConfig D)) := Do GetConfig Done.
Definition resolveTopup lookup : prog (option AutoRechargeTopup) := Do (ResolveAutoRechargeTopup lookup) Done.
Definition getCustomer userID name : prog (option AutoRechargeCustomer) := Do (GetAutoRechargeCustomer userID name) Done.
Definition getProfile userID : prog (option (AutoRechargeProfile D)) := Do (GetAutoRechargeProfile userID) Done.
Definition upsertProfile profile options : prog unit := Do (UpsertAutoRechargeProfile profile options) Done.
Definition claimAttempt claim : prog (option (AutoRechargeAttempt D)) := Do (ClaimAutoRechargeAttempt claim) Done.
Definition countAttempts userID start : prog Z := Do (CountAutoRechargeAttempts userID start) Done.
Definition listPaymentMethods name customerID : prog (list PaymentMethodInfo) := Do (ListPaymentMethods name customerID) Done.
Definition previewCharge name params : prog SavedPaymentChargeQuote := Do (PreviewSavedPaymentCharge name params) Done.
Definition newIdempotencyKey userID : prog string := Do (NewIdempotencyKey userID) Done.
Definition now : prog Time := Do Now (fun t => Done (Ok t)).
Definition getProvider name : prog (option PaymentProvider) := Do (GetProvider name) Done.

Definition provider_implements (capability : PaymentProvider -> bool) provider : bool :=
  match provider with Some p => capability p | None => false end.

(** The checks of the guardrails before the store is asked: the top-up key,
    its reference at the provider and the product there. *)
Definition policy_product (config : BursarConfig D) (guardrails : AutoRechargeGuardrails D) (providerName : string)
    : result (option (string * ProviderReference * string)) :=
  match AutoRechargeGuardrails_EligibleTopups guardrails with
  | [] => Err (autoRechargeConfigError "eligible top-ups must not be empty")
  | first :: _ =>
      let topupKey := TrimSpace first in
      let refused := Err (autoRechargeConfigError
        "eligible auto-recharge top-up is missing or is not a top-up offer") in
      match CommerceConfig_Offers (BursarConfig_Commerce config) !! topupKey with
      | None => refused
      | Some offer =>
          if negb (CommerceOffer_Type offer =? "topup") then refused
          else match CommerceOffer_Providers offer !! providerName with
          | None => Ok None
          | Some reference =>
              let productID := providerProductID reference in
              if productID =? ""
              then Err (autoRechargeConfigError "auto-recharge top-up provider reference has no product identifier")
              else if (OfferQuantity_Default (AutoRechargeGuardrails_Quantity guardrails) <? 1)
                      || (AutoRechargeLimits_MaxPurchases (AutoRechargeGuardrails_Limits guardrails) <? 1)
              then Err (autoRechargeConfigError "auto-recharge quantity and max purchases must be positive")
              else Ok (Some (topupKey, reference, productID))
          end
      end
  end.

(** The policy of the guardrails once the store knows the top-up. *)
Definition policy_of (guardrails : AutoRechargeGuardrails D) (topupKey topupID productID : string)
    (window : AutoRechargeWindow) : AutoRechargePolicy D :=
  let limits := AutoRechargeGuardrails_Limits guardrails in
  {| AutoRechargePolicy_Threshold := DecimalRange_Default (AutoRechargeGuardrails_BalanceBelow guardrails);
     AutoRechargePolicy_RearmAbove := AutoRechargeGuardrails_RearmAbove guardrails;
     AutoRechargePolicy_TopupKey := topupKey; AutoRechargePolicy_TopupID := topupID;
     AutoRechargePolicy_ProductID := productID;
     AutoRechargePolicy_Quantity := OfferQuantity_Default (AutoRechargeGuardrails_Quantity guardrails);
     AutoRechargePolicy_MaxChargesPerWindow := AutoRechargeLimits_MaxPurchases limits;
     AutoRechargePolicy_MaxChargeMinor := AutoRechargeLimits_MaxChargeMinor limits;
     AutoRechargePolicy_Window := window |}.

Definition resolvePolicy (providerName : string) : prog (option (AutoRechargePolicy D)) :=
  config <~ getConfig ;;
  match config with
  | None => raise (NewError "auto-recharge catalog source returned nil configuration"
                     (error_options ErrorCode.CatalogNotLoaded ErrorCategory.Unavailable None))
  | Some config =>
      match CommerceConfig_AutoRecharge (BursarConfig_Commerce config) with
      | None => ret None
      | Some guardrails =>
          product <~ lift (policy_product config guardrails providerName) ;;
          match product with
          | None => ret None
          | Some (topupKey, reference, productID) =>
              topup <~ resolveTopup {| AutoRechargeTopupLookup_Provider := providerName;
                                       AutoRechargeTopupLookup_OfferKey := topupKey;
                                       AutoRechargeTopupLookup_Reference := reference |} ;;
              match topup with
              | None => ret None
              | Some topup =>
                  topupID <~ lift (requireText (AutoRechargeTopup_ID topup) "auto-recharge top-up ID") ;;
                  instant <~ now ;;
                  window <~ lift (resolveAutoRechargeWindow
                              (AutoRechargeLimits_Window (AutoRechargeGuardrails_Limits guardrails)) instant) ;;
                  ret (Some (policy_of guardrails topupKey topupID productID window))
              end
          end
      end
  end.

Definition ResolvePolicy s provider : prog (option (AutoRechargePolicy D)) :=
  match s with
  | Some {| Service_HasCatalog := true; Service_HasStore := true |} =>
      providerName <~ lift (autoRechargeProviderName provider) ;;
      resolvePolicy providerName
  | _ => raise not_initialized
  end.

Definition GetProfile s userID : prog (option (AutoRechargeProfile D)) :=
  match s with
  | Some {| Service_HasStore := true |} =>
      userID <~ lift (autoRechargeUserID userID) ;;
      profile <~ getProfile userID ;;
      lift (validateAutoRechargeProfile profile userID) ;;~
      ret profile
  | _ => raise not_initialized
  end.

(** [autoRechargePayment] *)
Definition autoRechargePayment : Type := string * PaymentMethodInfo.

Definition paymentMethod userID provider : prog (option autoRechargePayment) :=
  providerName <~ lift (autoRechargeProviderName provider) ;;
  customer <~ getCustomer userID providerName ;;
  match customer with
  | None => ret None
  | Some customer =>
      let user := AutoRechargeCustomer_UserID customer in
      let name := AutoRechargeCustomer_Provider customer in
      if negb (user =? "") && negb (TrimSpace user =? userID)
      then raise (store_error "auto-recharge customer does not belong to requested user" {[ "user_id" := userID ]})
      else if negb (name =? "") && negb (TrimSpace name =? providerName)
      then raise (store_error "auto-recharge customer does not belong to selected provider"
                    {[ "provider" := providerName ]})
      else
        customerID <~ lift (requireText (AutoRechargeCustomer_ProviderCustomerID customer) "provider customer ID") ;;
        if negb (provider_implements Provider_ListsPaymentMethods provider)
        then raise (autoRechargeCapabilityError providerName "list_payment_methods")
        else
          methods <~ listPaymentMethods providerName customerID ;;
          selected <~ lift (select_method methods providerName) ;;
          ret ((fun method => (customerID, method)) <$> selected)
  end.

(** The preview of a charge, when there is a payment method and the provider
    previews. *)
Definition preview provider (policy : AutoRechargePolicy D) (payment : autoRechargePayment)
    : prog (option SavedPaymentChargeQuote) :=
  match provider with
  | Some p =>
      if Provider_Previews p then
        quote <~ previewCharge (Provider_Name p)
                   (savedPaymentParams policy payment.1 payment.2 "" "auto-recharge-preview" []) ;;
        lift (validateSavedPaymentQuote quote) ;;~
        ret (Some quote)
      else ret None
  | None => ret None
  end.

Definition Quote_ s userID provider : prog (option SavedPaymentChargeQuote) :=
  userID <~ lift (autoRechargeUserID userID) ;;
  policy <~ ResolvePolicy s provider ;;
  match policy with
  | None => ret None
  | Some policy =>
      payment <~ paymentMethod userID provider ;;
      match payment with
      | None => ret None
      | Some payment => preview provider policy payment
      end
  end.

Definition profile_enabled (profile : option (AutoRechargeProfile D)) : bool :=
  match profile with Some p => AutoRechargeProfile_Enabled p | None => false end.

(** The status assembled from what the calls answered. *)
Definition status_of (policy : AutoRechargePolicy D) (profile : option (AutoRechargeProfile D))
    (payment : option autoRechargePayment) (quote : option SavedPaymentChargeQuote) (count : Z)
    : AutoRechargeStatus D :=
  let state :=
    match profile with
    | Some p => if AutoRechargeProfile_Enabled p then AutoRechargeProfile_State p else AutoRechargeState.Disabled
    | None => AutoRechargeState.Disabled
    end in
  let shown field := match payment with Some (_, method) => field method | None => "" end in
  {| AutoRechargeStatus_Enabled := profile_enabled profile;
     AutoRechargeStatus_State := state;
     AutoRechargeStatus_ThresholdCredits := AutoRechargePolicy_Threshold policy;
     AutoRechargeStatus_TopupKey := AutoRechargePolicy_TopupKey policy;
     AutoRechargeStatus_Quantity := AutoRechargePolicy_Quantity policy;
     AutoRechargeStatus_MaxRecharges := AutoRechargePolicy_MaxChargesPerWindow policy;
     AutoRechargeStatus_WindowStart := AutoRechargeWindow_Start (AutoRechargePolicy_Window policy);
     AutoRechargeStatus_WindowEnd := AutoRechargeWindow_End (AutoRechargePolicy_Window policy);
     AutoRechargeStatus_RechargesInWindow := count;
     AutoRechargeStatus_PaymentMethodID := shown PaymentMethodInfo_ID;
     AutoRechargeStatus_PaymentMethodLast4 := shown PaymentMethodInfo_Last4;
     AutoRechargeStatus_PaymentMethodBrand := shown PaymentMethodInfo_Brand;
     AutoRechargeStatus_SuspendedReason :=
       if state =? AutoRechargeState.Paused then "auto_recharge_paused" else "";
     AutoRechargeStatus_PendingAttemptID := "";
     AutoRechargeStatus_QuoteAmountMinor := SavedPaymentChargeQuote_AmountMinor <$> quote;
     AutoRechargeStatus_QuoteCurrency := match quote with Some q => SavedPaymentChargeQuote_Currency q | None => "" end |}.

Definition GetStatus s userID provider : prog (option (AutoRechargeStatus D)) :=
  userID <~ lift (autoRechargeUserID userID) ;;
  policy <~ ResolvePolicy s provider ;;
  match policy with
  | None => ret None
  | Some policy =>
      profile <~ GetProfile s userID ;;
      providerName <~ lift (autoRechargeProviderName provider) ;;
      lift (autoRechargeProfileProviderMatches profile providerName) ;;~
      payment <~ (if profile_enabled profile then paymentMethod userID provider else ret None) ;;
      quote <~ match payment with
               | Some payment => preview provider policy payment
               | None => ret None
               end ;;
      count <~ countAttempts userID (AutoRechargeWindow_Start (AutoRechargePolicy_Window policy)) ;;
      ret (Some (status_of policy profile payment quote count))
  end.

(** ** ProcessIfNeeded *)

(** A Go method may return a result beside its error. *)
Definition processed : Type := AutoRechargeProcessResult * option error.

Definition outcome (name : string) : prog processed :=
  ret ({| ProcessResult_Outcome := name; ProcessResult_Charge := None |}, None).

Definition no_result : AutoRechargeProcessResult :=
  {| ProcessResult_Outcome := ""; ProcessResult_Charge := None |}.

(** The update of the attempt and the outcome for a charge the provider
    answered: the switch over its status. *)
Definition settled_charge (attemptID : string) (charge : SavedPaymentChargeResult)
    : AutoRechargeAttemptUpdate D * string :=
  let status := SavedPaymentChargeResult_Status charge in
  let update state failure :=
    {| AutoRechargeAttemptUpdate_ID := attemptID; AutoRechargeAttemptUpdate_State := state;
       AutoRechargeAttemptUpdate_ProviderAttemptID := SavedPaymentChargeResult_ProviderPaymentID charge;
       AutoRechargeAttemptUpdate_FailureCode := failure; AutoRechargeAttemptUpdate_FailureMessage := "";
       AutoRechargeAttemptUpdate_Metadata := ∅ |} in
  if status =? ChargeStatus.RequiresCustomerAction
  then (update AttemptState.ActionRequired "", Outcome.ActionRequired)
  else if existsb (String.eqb status)
            [ChargeStatus.Succeeded; ChargeStatus.Processing; ChargeStatus.RequiresMerchantAction;
             ChargeStatus.RequiresConfirmation; ChargeStatus.RequiresCapture; ChargeStatus.PartiallyCaptured;
             ChargeStatus.PartiallyCapturedAndCapturable]
  then (update AttemptState.Processing "", Outcome.Submitted)
  else (update AttemptState.Failed "payment_failed", Outcome.Failed).

(** The update for a charge the provider did not answer. *)
Definition unknown_charge (attemptID : string) (chargeErr : error) : AutoRechargeAttemptUpdate D :=
  {| AutoRechargeAttemptUpdate_ID := attemptID; AutoRechargeAttemptUpdate_State := AttemptState.Unknown;
     AutoRechargeAttemptUpdate_ProviderAttemptID := "";
     AutoRechargeAttemptUpdate_FailureCode := "provider_request_failed";
     AutoRechargeAttemptUpdate_FailureMessage := autoRechargeDiagnosticSummary chargeErr;
     AutoRechargeAttemptUpdate_Metadata := ∅ |}.

(** From the claimed attempt on: the charge, and the record of what came of it. *)
Definition charge_attempt (providerName attemptID : string) (params : SavedPaymentChargeParams) : prog processed :=
  Do (ChargeSavedPaymentMethod providerName params) (fun answered =>
    match answered with
    | Err chargeErr =>
        Do (UpdateAutoRechargeAttempt (unknown_charge attemptID chargeErr)) (fun updated =>
          match updated with
          | Err updateErr => raise (JoinedError [chargeErr; updateErr])
          | Ok _ => raise chargeErr
          end)
    | Ok charge =>
        lift (validateSavedPaymentCharge charge) ;;~
        let '(update, name) := settled_charge attemptID charge in
        Do (UpdateAutoRechargeAttempt update) (fun updated =>
          match updated with
          | Err err => ret ({| ProcessResult_Outcome := ""; ProcessResult_Charge := Some charge |}, Some err)
          | Ok _ => ret ({| ProcessResult_Outcome := name; ProcessResult_Charge := Some charge |}, None)
          end)
    end).

(** The claim of an attempt for a payment method, and its charge. *)
Definition claim_and_charge userID (providerName : string) (policy : AutoRechargePolicy D)
    (payment : autoRechargePayment) (returnURL : string) : prog processed :=
  key <~ newIdempotencyKey userID ;;
  idempotencyKey <~ lift (requireStableKey key "auto-recharge idempotency key") ;;
  attempt <~ claimAttempt {| AutoRechargeAttemptClaim_UserID := userID;
                             AutoRechargeAttemptClaim_IdempotencyKey := idempotencyKey |} ;;
  match attempt with
  | None => outcome Outcome.LimitReached
  | Some attempt =>
      lift (validateAutoRechargeAttempt attempt providerName userID) ;;~
      if negb (AutoRechargeAttempt_IdempotencyKey attempt =? idempotencyKey)
         && negb (AutoRechargeAttempt_State attempt =? AttemptState.Unknown)
      then outcome Outcome.AlreadyProcessing
      else charge_attempt providerName (AutoRechargeAttempt_ID attempt)
             (savedPaymentParams policy payment.1 payment.2 returnURL (AutoRechargeAttempt_IdempotencyKey attempt)
                [AutoRechargeAttempt_ID attempt; userID])
  end.

Definition ProcessIfNeeded s provider (input : AutoRechargeProcessInput D) : prog processed :=
  userID <~ lift (autoRechargeUserID (ProcessInput_UserID input)) ;;
  policy <~ ResolvePolicy s provider ;;
  match policy with
  | None => outcome Outcome.NotConfigured
  | Some policy =>
      profile <~ GetProfile s userID ;;
      if match profile with
         | Some p => AutoRechargeProfile_Enabled p && (AutoRechargeProfile_State p =? AutoRechargeState.Active)
         | None => false
         end
      then
        providerName <~ lift (autoRechargeProviderName provider) ;;
        lift (autoRechargeProfileProviderMatches profile providerName) ;;~
        if GreaterThanOrEqual (ProcessInput_Balance input) (AutoRechargePolicy_Threshold policy)
        then outcome Outcome.AboveThreshold
        else if negb (provider_implements Provider_Charges provider)
        then raise (autoRechargeCapabilityError providerName "charge_saved_payment_method")
        else
          payment <~ paymentMethod userID provider ;;
          match payment with
          | None => outcome Outcome.Failed
          | Some payment => claim_and_charge userID providerName policy payment (ProcessInput_ReturnURL input)
          end
      else outcome Outcome.Disabled
  end.

(** [if err != nil { return err }] after ProcessIfNeeded. *)
Definition process_checked s provider (input : AutoRechargeProcessInput D) : prog AutoRechargeProcessResult :=
  r <~ ProcessIfNeeded s provider input ;;
  match r with
  | (_, Some err) => raise err
  | (result, None) => ret result
  end.

(** ** Enable, Disable, Retry *)

(** The profile Enable writes for a policy. *)
Definition enabled_profile userID (providerName : string) (policy : AutoRechargePolicy D) : AutoRechargeProfile D :=
  let window := AutoRechargePolicy_Window policy in
  {| AutoRechargeProfile_UserID := userID; AutoRechargeProfile_Enabled := true;
     AutoRechargeProfile_State := AutoRechargeState.Active; AutoRechargeProfile_Armed := true;
     AutoRechargeProfile_Provider := providerName; AutoRechargeProfile_TopupID := AutoRechargePolicy_TopupID policy;
     AutoRechargeProfile_Quantity := AutoRechargePolicy_Quantity policy;
     AutoRechargeProfile_Threshold := AutoRechargePolicy_Threshold policy;
     AutoRechargeProfile_MaxChargesPerWindow := AutoRechargePolicy_MaxChargesPerWindow policy;
     AutoRechargeProfile_WindowUnit := AutoRechargeWindow_Unit window;
     AutoRechargeProfile_WindowCount := AutoRechargeWindow_Count window;
     AutoRechargeProfile_WindowAnchor := AutoRechargeWindow_Anchor window;
     AutoRechargeProfile_WindowTimezone := AutoRechargeWindow_Timezone window;
     AutoRechargeProfile_UpdatedAt := zero_time |}.

(** A profile with another state; the rest of the stored row is kept. *)
Definition with_state (enabled : bool) (state : string) (p : AutoRechargeProfile D) : AutoRechargeProfile D :=
  {| AutoRechargeProfile_UserID := AutoRechargeProfile_UserID p; AutoRechargeProfile_Enabled := enabled;
     AutoRechargeProfile_State := state; AutoRechargeProfile_Armed := true;
     AutoRechargeProfile_Provider := AutoRechargeProfile_Provider p;
     AutoRechargeProfile_TopupID := AutoRechargeProfile_TopupID p;
     AutoRechargeProfile_Quantity := AutoRechargeProfile_Quantity p;
     AutoRechargeProfile_Threshold := AutoRechargeProfile_Threshold p;
     AutoRechargeProfile_MaxChargesPerWindow := AutoRechargeProfile_MaxChargesPerWindow p;
     AutoRechargeProfile_WindowUnit := AutoRechargeProfile_WindowUnit p;
     AutoRechargeProfile_WindowCount := AutoRechargeProfile_WindowCount p;
     AutoRechargeProfile_WindowAnchor := AutoRechargeProfile_WindowAnchor p;
     AutoRechargeProfile_WindowTimezone := AutoRechargeProfile_WindowTimezone p;
     AutoRechargeProfile_UpdatedAt := AutoRechargeProfile_UpdatedAt p |}.

Definition Enable s provider (input : AutoRechargeProcessInput D) : prog (option (AutoRechargeStatus D)) :=
  userID <~ lift (autoRechargeUserID (ProcessInput_UserID input)) ;;
  policy <~ ResolvePolicy s provider ;;
  match policy with
  | None => raise (NewError "auto-recharge is not configured for this catalog"
                     (error_options ErrorCode.AutoRechargeNotConfigured ErrorCategory.Unavailable None))
  | Some policy =>
      payment <~ paymentMethod userID provider ;;
      match payment with
      | None => raise (NewError "a saved payment method is required"
                         (error_options ErrorCode.PaymentMethodRequired ErrorCategory.PaymentRequired None))
      | Some _ =>
          providerName <~ lift (autoRechargeProviderName provider) ;;
          upsertProfile (enabled_profile userID providerName policy) {| UpsertOptions_ResetCooldown := false |} ;;~
          process_checked s provider
            {| ProcessInput_UserID := userID; ProcessInput_Balance := ProcessInput_Balance input;
               ProcessInput_ReturnURL := ProcessInput_ReturnURL input |} ;;~
          GetStatus s userID provider
      end
  end.

Definition Disable s userID : prog unit :=
  userID <~ lift (autoRechargeUserID userID) ;;
  profile <~ GetProfile s userID ;;
  match profile with
  | None => ret tt
  | Some p => upsertProfile (with_state false AutoRechargeState.Disabled p) {| UpsertOptions_ResetCooldown := false |}
  end.

Definition Retry s provider (input : AutoRechargeProcessInput D) : prog processed :=
  userID <~ lift (autoRechargeUserID (ProcessInput_UserID input)) ;;
  profile <~ GetProfile s userID ;;
  match profile with
  | Some p =>
      if AutoRechargeProfile_Enabled p then
        providerName <~ lift (autoRechargeProviderName provider) ;;
        lift (autoRechargeProfileProviderMatches (Some p) providerName) ;;~
        upsertProfile (with_state (AutoRechargeProfile_Enabled p) AutoRechargeState.Active p)
          {| UpsertOptions_ResetCooldown := true |} ;;~
        ProcessIfNeeded s provider
          {| ProcessInput_UserID := userID; ProcessInput_Balance := ProcessInput_Balance input;
             ProcessInput_ReturnURL := ProcessInput_ReturnURL input |}
      else raise (NewError "auto-recharge is disabled for this account"
                    (error_options ErrorCode.AutoRechargeDisabled ErrorCategory.Conflict None))
  | None => raise (NewError "auto-recharge is disabled for this account"
                     (error_options ErrorCode.AutoRechargeDisabled ErrorCategory.Conflict None))
  end.

(** ** After a deduction *)

(** The balance a deduction left is nil when it did not report one. *)
Definition ProcessPostDeduction s provider userID (balanceAfter : option D) (returnURL : string) : prog processed :=
  match balanceAfter with
  | None => outcome Outcome.AboveThreshold
  | Some balance =>
      ProcessIfNeeded s provider
        {| ProcessInput_UserID := userID; ProcessInput_Balance := balance; ProcessInput_ReturnURL := returnURL |}
  end.

(** [hasProviders]: the provider resolver is set. *)
Definition PostDeductionHook s (hasProviders : bool) userID (balanceAfter : option D) (returnURL : string) : prog unit :=
  match balanceAfter with
  | None => ret tt
  | Some _ =>
      if negb hasProviders
      then raise (NewError "auto-recharge provider resolver is not configured"
                    (error_options ErrorCode.CapabilityNotConfigured ErrorCategory.Unavailable None))
      else
        profile <~ GetProfile s userID ;;
        match profile with
        | Some p =>
            if AutoRechargeProfile_Enabled p && (AutoRechargeProfile_State p =? AutoRechargeState.Active) then
              provider <~ getProvider (AutoRechargeProfile_Provider p) ;;
              r <~ ProcessPostDeduction s provider userID balanceAfter returnURL ;;
              match r.2 with Some err => raise err | None => ret tt end
            else ret tt
        | None => ret tt
        end
  end.
End service.
