(* ===== verification/RechargeFacts.v ===== *)
(** * What automatic recharge does with a customer's money

    Every statement quantifies over the runs of a method, so over all that a
    store, a provider and a clock may answer. *)

From S2P Require Import DecimalRef ConfigIntegrity CommerceFacts.
From S2P Require Export AutoRechargeService.
Local Open Scope Z_scope.
Local Open Scope go_scope.

Section facts.
Context {D : Type} `{DecimalOps D} `{TimeZones} `{Zones}.
Implicit Types (s : option AutoRechargeService) (provider : option PaymentProvider) (userID : string)
  (policy : AutoRechargePolicy D) (profile : option (AutoRechargeProfile D)).

Notation event := (event (@answer D)).
Notation "c ↦ x" := (existT c x : event) (at level 60).

(** ** Calls that change nothing *)

(** A call that neither writes to the store nor charges. *)
Definition quiet (e : event) : Prop :=
  match projT1 e with
  | UpsertAutoRechargeProfile _ _ | ClaimAutoRechargeAttempt _ | UpdateAutoRechargeAttempt _
  | ChargeSavedPaymentMethod _ _ => False
  | _ => True
  end.

(** Walks a program: every call of it satisfies the predicate. *)
Ltac only_tac :=
  repeat match goal with
  | |- only _ (lift _) => apply only_done
  | |- only _ (ret _) => apply only_done
  | |- only _ (raise _) => apply only_done
  | |- only _ (Done _) => apply only_done
  | |- only _ (outcome _) => apply only_done
  | |- only _ (Do _ _) => apply only_do; [done|intros ?]
  | |- only _ (pbind _ _) => apply only_bind; [|intros ?]
  | |- only _ (if ?b then _ else _) => destruct b
  | |- only _ (match ?x with _ => _ end) => destruct x
  end; auto with effects.

Lemma resolvePolicy_quiet name : only quiet (resolvePolicy name).
Proof. unfold resolvePolicy, getConfig, resolveTopup, now. only_tac. Qed.
#[local] Hint Resolve resolvePolicy_quiet : effects.
Lemma ResolvePolicy_quiet s provider : only quiet (ResolvePolicy s provider).
Proof. unfold ResolvePolicy. only_tac. Qed.
Lemma GetProfile_quiet s userID : only quiet (GetProfile s userID).
Proof. unfold GetProfile, getProfile. only_tac. Qed.
Lemma paymentMethod_quiet userID provider : only quiet (paymentMethod userID provider).
Proof. unfold paymentMethod, getCustomer, listPaymentMethods. only_tac. Qed.
Lemma preview_quiet provider policy payment : only quiet (preview provider policy payment).
Proof. unfold preview, previewCharge. only_tac. Qed.
#[local] Hint Resolve ResolvePolicy_quiet GetProfile_quiet paymentMethod_quiet preview_quiet : effects.
Lemma GetStatus_quiet s userID provider : only quiet (GetStatus s userID provider).
Proof. unfold GetStatus, countAttempts. only_tac. Qed.
Lemma Quote_quiet s userID provider : only quiet (Quote_ s userID provider).
Proof. unfold Quote_. only_tac. Qed.

(** The charges of a run, and what they were for. *)
Definition charge_of (e : event) : option SavedPaymentChargeParams :=
  match projT1 e with ChargeSavedPaymentMethod _ params => Some params | _ => None end.
Definition charges (t : list event) : list SavedPaymentChargeParams := omap charge_of t.

Definition update_of (e : event) : option (AutoRechargeAttemptUpdate D) :=
  match projT1 e with UpdateAutoRechargeAttempt update => Some update | _ => None end.
Definition updates (t : list event) : list (AutoRechargeAttemptUpdate D) := omap update_of t.

Lemma charges_app t1 t2 : charges (t1 ++ t2) = charges t1 ++ charges t2.
Proof. apply omap_app. Qed.
Lemma updates_app t1 t2 : updates (t1 ++ t2) = updates t1 ++ updates t2.
Proof. apply omap_app. Qed.

Lemma quiet_charges t : Forall quiet t -> charges t = [] /\ updates t = [].
Proof. induction 1 as [|[[] ?] t Hq _ [IHc IHu]]; cbn in *; done. Qed.

(** ** What a run of the parts tells *)

Lemma runs_lift {A} (r : result A) t r' : runs (lift r : prog (@answer D) A) t r' <-> t = [] /\ r' = r.
Proof. done. Qed.

(** A composition whose first part calls nothing. *)
Lemma runs_lift_bind {A B} (r : result A) (f : A -> prog (@answer D) B) t r' :
  runs (pbind (lift r) f) t r' <->
  match r with Ok a => runs (f a) t r' | Err e => t = [] /\ r' = Err e end.
Proof. destruct r; done. Qed.

Lemma resolvePolicy_Some name t policy :
  runs (resolvePolicy name) t (Ok (Some policy)) ->
  exists config guardrails topupKey reference productID topup window instant,
    (GetConfig ↦ Ok (Some config)) ∈ t /\
    CommerceConfig_AutoRecharge (BursarConfig_Commerce config) = Some guardrails /\
    policy_product config guardrails name = Ok (Some (topupKey, reference, productID)) /\
    TrimSpace (AutoRechargeTopup_ID topup) <> "" /\ (Now ↦ instant) ∈ t /\
    resolveAutoRechargeWindow (AutoRechargeLimits_Window (AutoRechargeGuardrails_Limits guardrails)) instant = Ok window /\
    policy = policy_of guardrails topupKey (TrimSpace (AutoRechargeTopup_ID topup)) productID window.
Proof.
  unfold resolvePolicy. intros (x & t1 & -> & Hr). destruct x as [[config|]|e]; cbn [pbind] in Hr; [|by destruct Hr as [_ [=]]..].
  destruct (CommerceConfig_AutoRecharge (BursarConfig_Commerce config)) as [g|] eqn:Hg; [|by destruct Hr as [_ [=]]].
  apply runs_lift_bind in Hr. destruct (policy_product config g name) as [[[[key reference] product]|]|e] eqn:Hp; [|by destruct Hr as [_ [=]]..].
  destruct Hr as (x & t2 & -> & Hr). destruct x as [[topup|]|e]; cbn [pbind] in Hr; [|by destruct Hr as [_ [=]]..].
  apply runs_lift_bind in Hr. destruct (requireText _ _) as [topupID|e] eqn:Ht; [|by destruct Hr as [_ [=]]].
  apply requireText_Ok in Ht as [-> Hne]. destruct Hr as (instant & t3 & -> & Hr).
  apply runs_lift_bind in Hr. destruct (resolveAutoRechargeWindow _ _) as [window|e] eqn:Hw; [|by destruct Hr as [_ [=]]].
  destruct Hr as [-> [= ->]]. exists config, g, key, reference, product, topup, window, instant.
  split_and!; try done; set_solver.
Qed.

Lemma ResolvePolicy_Some s provider t policy :
  runs (ResolvePolicy s provider) t (Ok (Some policy)) ->
  exists p, provider = Some p /\ runs (resolvePolicy (TrimSpace (Provider_Name p))) t (Ok (Some policy)).
Proof.
  unfold ResolvePolicy. destruct s as [[[] []]|]; try (intros [_ [=]]). intros Hr%runs_lift_bind.
  destruct provider as [p|]; cbn in Hr; [|by destruct Hr as [_ [=]]]. exists p. split; [done|].
  destruct (requireText _ _) as [name|e] eqn:Hn; [|by destruct Hr as [_ [=]]].
  by apply requireText_Ok in Hn as [-> _].
Qed.

Lemma GetProfile_Ok s userID t profile :
  runs (GetProfile s userID) t (Ok profile) ->
  t = [GetAutoRechargeProfile (TrimSpace userID) ↦ Ok profile] /\ validateAutoRechargeProfile profile (TrimSpace userID) = Ok tt.
Proof.
  unfold GetProfile. destruct s as [[? []]|]; try (intros [_ [=]]). intros Hr%runs_lift_bind.
  destruct (autoRechargeUserID userID) as [user|e] eqn:Hu; [|by destruct Hr as [_ [=]]].
  apply requireText_Ok in Hu as [-> _]. destruct Hr as (x & t1 & -> & Hr). destruct x as [p|e]; cbn [pbind] in Hr; [|by destruct Hr as [_ [=]]].
  apply runs_lift_bind in Hr. destruct (validateAutoRechargeProfile p _) as [[]|e] eqn:Hv; [|by destruct Hr as [_ [=]]].
  destruct Hr as [-> [= ->]]. done.
Qed.

(** ** Charging a claimed attempt *)

(** How the answer to a charge is recorded, and what is returned: the attempt
    becomes unknown when the provider failed, follows the status it answered,
    and is left as it was when the answer itself is invalid. *)
Inductive recorded (attemptID : string) :
    result SavedPaymentChargeResult -> list event -> result processed -> Prop :=
  | recorded_unknown chargeErr updated :
      recorded attemptID (Err chargeErr)
        [UpdateAutoRechargeAttempt (unknown_charge attemptID chargeErr) ↦ updated]
        (Err match updated with Ok _ => chargeErr | Err updateErr => JoinedError [chargeErr; updateErr] end)
  | recorded_settled charge updated :
      validateSavedPaymentCharge charge = Ok tt ->
      recorded attemptID (Ok charge)
        [UpdateAutoRechargeAttempt (settled_charge attemptID charge).1 ↦ updated]
        (Ok match updated with
            | Ok _ => ({| ProcessResult_Outcome := (settled_charge (D := D) attemptID charge).2;
                          ProcessResult_Charge := Some charge |}, None)
            | Err err => ({| ProcessResult_Outcome := ""; ProcessResult_Charge := Some charge |}, Some err)
            end)
  | recorded_nothing charge err :
      validateSavedPaymentCharge charge = Err err -> recorded attemptID (Ok charge) [] (Err err).

Lemma charge_attempt_runs name attemptID params t r :
  runs (charge_attempt name attemptID params) t r ->
  exists answered rest, t = (ChargeSavedPaymentMethod name params ↦ answered) :: rest /\   recorded attemptID answered rest r.
Proof.
  unfold charge_attempt. intros (answered & rest & -> & Hr). exists answered, rest. split; [done|].
  destruct answered as [charge|chargeErr].
  - apply runs_lift_bind in Hr. destruct (validateSavedPaymentCharge charge) as [[]|err] eqn:Hv.
    + pose proof (recorded_settled attemptID charge) as Hs. destruct (settled_charge attemptID charge) as [update name'].
      destruct Hr as (updated & t' & -> & Hr). specialize (Hs updated Hv).
      destruct updated as [[]|err]; destruct Hr as [-> ->]; exact Hs.
    + destruct Hr as [-> ->]. by constructor.
  - destruct Hr as (updated & t' & -> & Hr). pose proof (recorded_unknown attemptID chargeErr updated) as Hs.
    destruct updated; destruct Hr as [-> ->]; exact Hs.
Qed.

(** A charge is of an attempt claimed just before for this user and provider,
    under the attempt's own key: the key it was claimed with, or that of an
    attempt whose outcome is unknown, submitted again. *)
Definition charged (userID providerName returnURL : string) (policy : AutoRechargePolicy D)
    (payment : autoRechargePayment) (t : list event) (r : result processed) : Prop :=
  exists key attempt answered rest,
    let params := savedPaymentParams policy payment.1 payment.2 returnURL (AutoRechargeAttempt_IdempotencyKey attempt)
                    [AutoRechargeAttempt_ID attempt; userID] in
    t = (ClaimAutoRechargeAttempt {| AutoRechargeAttemptClaim_UserID := userID;
                                     AutoRechargeAttemptClaim_IdempotencyKey := key |} ↦ Ok (Some attempt))
        :: (ChargeSavedPaymentMethod providerName params ↦ answered) :: rest /\   validateAutoRechargeAttempt attempt providerName userID = Ok tt /\
  (AutoRechargeAttempt_IdempotencyKey attempt = key \/ AutoRechargeAttempt_State attempt = AttemptState.Unknown) /\
  recorded (AutoRechargeAttempt_ID attempt) answered rest r.

Lemma claim_and_charge_runs userID name policy payment returnURL t r :
  runs (claim_and_charge userID name policy payment returnURL) t r ->
  charges t = [] /\ updates t = [] \/
  exists prefix t', t = prefix ++ t' /\ Forall quiet prefix /\ charged userID name returnURL policy payment t' r.
Proof.
  unfold claim_and_charge. intros (x & t1 & -> & Hr). destruct x as [key|e]; cbn [pbind] in Hr; [|left; by destruct Hr as [-> _]].
  apply runs_lift_bind in Hr. destruct (requireStableKey _ _) as [key'|e]; [|left; by destruct Hr as [-> _]].
  destruct Hr as (x & t2 & -> & Hr). destruct x as [[attempt|]|e]; cbn [pbind] in Hr; [|left; by destruct Hr as [-> _]..].
  apply runs_lift_bind in Hr. destruct (validateAutoRechargeAttempt _ _ _) as [[]|e] eqn:Hv; [|left; by destruct Hr as [-> _]].
  destruct (negb _ && negb _) eqn:Hkey; [left; by destruct Hr as [-> _]|]. right.
  apply charge_attempt_runs in Hr as (answered & rest & -> & Hrec).
  exists [NewIdempotencyKey userID ↦ Ok key]. eexists. split; [done|]. split; [by repeat constructor|].
  exists key', attempt, answered, rest. split_and!; try done.
  apply andb_false_iff in Hkey as [Hk|Hk]; apply negb_false_iff, String.eqb_eq in Hk; auto.
Qed.

(** ** ProcessIfNeeded *)

(** What must have been read before a charge: the recharge is configured,
    with a threshold the balance is below, and the account's stored profile
    is enabled, active and of this provider. *)
Definition authorised (input : AutoRechargeProcessInput D) (userID providerName : string) policy (t : list event) : Prop :=
  (exists config guardrails,
     (GetConfig ↦ Ok (Some config)) ∈ t /\
     CommerceConfig_AutoRecharge (BursarConfig_Commerce config) = Some guardrails /\
     AutoRechargePolicy_Threshold policy = DecimalRange_Default (AutoRechargeGuardrails_BalanceBelow guardrails) /\
     AutoRechargePolicy_Quantity policy = OfferQuantity_Default (AutoRechargeGuardrails_Quantity guardrails) /\
     GreaterThanOrEqual (ProcessInput_Balance input) (AutoRechargePolicy_Threshold policy) = false) /\
  (exists stored,
     (GetAutoRechargeProfile userID ↦ Ok (Some stored)) ∈ t /\
     AutoRechargeProfile_Enabled stored = true /\ AutoRechargeProfile_State stored = AutoRechargeState.Active /\
     AutoRechargeProfile_Provider stored = providerName).

Lemma profile_provider (p : AutoRechargeProfile D) name userID :
  autoRechargeProfileProviderMatches (Some p) name = Ok tt -> validateAutoRechargeProfile (Some p) userID = Ok tt ->
  AutoRechargeProfile_Enabled p = true -> AutoRechargeProfile_Provider p = name.
Proof.
  cbn. intros Hm Hv He. rewrite He in Hv. cbn in Hv.
  destruct (String.eqb_spec (AutoRechargeProfile_Provider p) name) as [|_]; [done|]. rewrite orb_false_r in Hm.
  destruct (TrimSpace (AutoRechargeProfile_Provider p) =? ""); [|done]. cbn in Hv.
  by repeat (destruct (negb _) in Hv; try done).
Qed.

(** A run of ProcessIfNeeded only reads, or gets as far as claiming an attempt. *)
Lemma ProcessIfNeeded_runs s provider input t r :
  runs (ProcessIfNeeded s provider input) t r ->
  let userID := TrimSpace (ProcessInput_UserID input) in
  Forall quiet t \/
  exists t1 policy p name t2 payment t3,
    t = t1 ++ (GetAutoRechargeProfile userID ↦ Ok (Some p)) :: t2 ++ t3 /\ Forall quiet t1 /\ Forall quiet t2 /\
    runs (ResolvePolicy s provider) t1 (Ok (Some policy)) /\
    validateAutoRechargeProfile (Some p) userID = Ok tt /\ AutoRechargeProfile_Enabled p = true /\
    AutoRechargeProfile_State p = AutoRechargeState.Active /\ autoRechargeProviderName provider = Ok name /\
    autoRechargeProfileProviderMatches (Some p) name = Ok tt /\
    GreaterThanOrEqual (ProcessInput_Balance input) (AutoRechargePolicy_Threshold policy) = false /\
    runs (claim_and_charge userID name policy payment (ProcessInput_ReturnURL input)) t3 r.
Proof.
  unfold ProcessIfNeeded. intros Hr%runs_lift_bind. cbn zeta.
  destruct (autoRechargeUserID _) as [user|e] eqn:Hu; [|left; by destruct Hr as [-> _]].
  apply requireText_Ok in Hu as [-> _].
  apply runs_bind in Hr as [(t1 & policy & t2 & -> & Hrun1 & Hr)|(e & Hrun1 & _)];
    [|left; by eapply ResolvePolicy_quiet].
  pose proof (ResolvePolicy_quiet _ _ _ _ Hrun1) as Hq1. rewrite Forall_app.
  destruct policy as [policy|]; [|left; by destruct Hr as [-> _]].
  apply runs_bind in Hr as [(t3 & profile & t4 & -> & Hrun3 & Hr)|(e & Hrun3 & _)];
    [|left; split; [done|by eapply GetProfile_quiet]].
  pose proof (GetProfile_quiet _ _ _ _ Hrun3) as Hq3. apply GetProfile_Ok in Hrun3 as [-> Hvalid].
  rewrite TrimSpace_idem in *. rewrite Forall_app.
  assert (forall (x : result processed), runs (Done x) t4 r -> Forall quiet t4) as Hend by (intros x [-> _]; done).
  destruct (match profile with Some _ => _ | None => _ end) eqn:Hactive; [|left; by destruct Hr as [-> _]].
  destruct profile as [p|]; [|done]. apply andb_true_iff in Hactive as [Henabled Hstate%String.eqb_eq].
  apply runs_lift_bind in Hr. destruct (autoRechargeProviderName provider) as [name|e] eqn:Hname; [|left; by destruct Hr as [-> _]].
  apply runs_lift_bind in Hr. destruct (autoRechargeProfileProviderMatches _ name) as [[]|e] eqn:Hmatch; [|left; by destruct Hr as [-> _]].
  destruct (GreaterThanOrEqual _ _) eqn:Hbelow; [left; by destruct Hr as [-> _]|].
  destruct (negb _); [left; by destruct Hr as [-> _]|].
  apply runs_bind in Hr as [(t5 & payment & t6 & -> & Hrun5 & Hr)|(e & Hrun5 & _)];
    [|left; split_and!; [done..|by eapply paymentMethod_quiet]].
  pose proof (paymentMethod_quiet _ _ _ _ Hrun5) as Hq5.
  destruct payment as [payment|]; [|left; destruct Hr as [-> _]; by rewrite app_nil_r].
  right. exists t1, policy, p, name, t5, payment, t6. done.
Qed.

Lemma recorded_charges attemptID answered rest r : recorded attemptID answered rest r -> charges rest = [].
Proof. by destruct 1. Qed.

Lemma charged_once userID name returnURL policy payment t r :
  charged userID name returnURL policy payment t r -> length (charges t) = 1%nat.
Proof. intros (key & attempt & answered & rest & -> & _ & _ & Hrec%recorded_charges). unfold charges in *. cbn. by rewrite Hrec. Qed.

(** A run of ProcessIfNeeded that charges reads, authorises and charges once. *)
Lemma ProcessIfNeeded_charging s provider input t r :
  runs (ProcessIfNeeded s provider input) t r ->
  charges t = [] /\ updates t = [] \/
  exists prefix t' policy payment name,
    t = prefix ++ t' /\ Forall quiet prefix /\
    authorised input (TrimSpace (ProcessInput_UserID input)) name policy prefix /\
    charged (TrimSpace (ProcessInput_UserID input)) name (ProcessInput_ReturnURL input) policy payment t' r /\
    length (charges t) = 1%nat.
Proof.
  intros [Hq|(t1 & policy & p & name & t2 & payment & t3 & -> & Hq1 & Hq2 & Hpolicy & Hvalid & Henabled & Hstate &
    Hname & Hmatch & Hbelow & Hr)]%ProcessIfNeeded_runs; [left; by apply quiet_charges|].
  set (userID := TrimSpace (ProcessInput_UserID input)) in *.
  set (before := t1 ++ (GetAutoRechargeProfile userID ↦ Ok (Some p)) :: t2).
  assert (Forall quiet before) as Hq by (unfold before; rewrite Forall_app, Forall_cons; done).
  replace (t1 ++ _ :: t2 ++ t3) with (before ++ t3) by (unfold before; by rewrite <- app_assoc).
  destruct (quiet_charges before Hq) as [Hc Hu]. rewrite charges_app, updates_app, Hc, Hu. cbn [app].
  apply claim_and_charge_runs in Hr as [Hnone|(prefix & t' & -> & Hp & Hcharged)]; [by left|right].
  exists (before ++ prefix), t', policy, payment, name. split_and!; try done.
  - by rewrite app_assoc.
  - by rewrite Forall_app.
  - apply ResolvePolicy_Some in Hpolicy as (q & -> & Hpolicy).
    apply resolvePolicy_Some in Hpolicy as (config & g & key & reference & product & topup & window & instant & Hin & Hg & _ & _ & _ & _ & ->).
    split.
    + exists config, g. split_and!; try done. unfold before. set_solver.
    + exists p. split_and!; try done; [unfold before; set_solver|]. by eapply profile_provider.
  - destruct (quiet_charges prefix Hp) as [Hcp _]. rewrite charges_app, Hcp. by eapply charged_once.
Qed.

(** C13: automatic recharge spends a customer's money only when it may.  In
    any run of ProcessIfNeeded, whatever the store and the provider answer,
    there is either no charge and no update of an attempt, or exactly one
    charge, and then: the catalog configures recharges and the balance is
    below its threshold; the account's profile is enabled, active and of this
    provider; the charge follows at once the claim of an attempt of this user
    and provider, under that attempt's idempotency key, which is new or that
    of an attempt whose outcome is unknown; and what the provider answered is
    recorded on that attempt, except when the answer is malformed. *)
Theorem ProcessIfNeeded_charges s provider input t r :
  runs (ProcessIfNeeded s provider input) t r ->
  charges t = [] /\ updates t = [] \/
  exists prefix t' policy payment name,
    t = prefix ++ t' /\ Forall quiet prefix /\
    authorised input (TrimSpace (ProcessInput_UserID input)) name policy prefix /\
    charged (TrimSpace (ProcessInput_UserID input)) name (ProcessInput_ReturnURL input) policy payment t' r /\
    length (charges t) = 1%nat.
Proof. apply ProcessIfNeeded_charging. Qed.

(** ** Enable *)

Lemma unit_length_nonblank unit len : unit_length unit = Some len -> TrimSpace unit <> "".
Proof.
  unfold unit_length. destruct (String.eqb_spec unit "second") as [->|_]; [vm_compute; congruence|].
  destruct (String.eqb_spec unit "minute") as [->|_]; [vm_compute; congruence|].
  destruct (String.eqb_spec unit "hour") as [->|_]; [vm_compute; congruence|].
  destruct (String.eqb_spec unit "day") as [->|_]; [vm_compute; congruence|].
  destruct (String.eqb_spec unit "week") as [->|_]; [vm_compute; congruence|done].
Qed.

(** A resolved window can be stored: it has a count, an anchor the profile
    knows, a unit and a zone. *)
Lemma resolved_window_fields window instant w :
  resolveAutoRechargeWindow window instant = Ok w ->
  1 <= AutoRechargeWindow_Count w /\
  (AutoRechargeWindow_Anchor w = "calendar" \/ AutoRechargeWindow_Anchor w = "rolling") /\
  TrimSpace (AutoRechargeWindow_Unit w) <> "" /\ TrimSpace (AutoRechargeWindow_Timezone w) <> "".
Proof.
  unfold resolveAutoRechargeWindow. destruct (IsZeroTime instant); [done|]. cbv zeta.
  destruct (Window_Type window =? "rolling").
  - destruct (Window_Duration window) as [d|]; [|done]. destruct (Z.ltb_spec (Duration_Count d) 1); [done|].
    rewrite rolling_offset_eq. destruct (unit_length (Duration_Unit d)) as [len|] eqn:Hu; [|done].
    intros [= <-]. cbn [AutoRechargeWindow_Count AutoRechargeWindow_Anchor AutoRechargeWindow_Unit AutoRechargeWindow_Timezone].
    split_and!; [lia|by right| |done].
    by eapply unit_length_nonblank.
  - destruct (Window_Type window =? "calendar"); [|done]. destruct (Z.ltb_spec (Window_Count window) 1); [done|].
    fold (window_timezone window). destruct (LoadLocation _); [done|]. intros ([start end_] & Hcal & [= <-])%bind_Ok.
    cbn [AutoRechargeWindow_Count AutoRechargeWindow_Anchor AutoRechargeWindow_Unit AutoRechargeWindow_Timezone].
    split_and!; [lia|by left| |].
    + unfold resolveAutoRechargeCalendarWindow in Hcal. cbv zeta in Hcal.
      destruct (String.eqb_spec (Window_Unit window) "day") as [->|_]; [vm_compute; congruence|].
      destruct (String.eqb_spec (Window_Unit window) "week") as [->|_]; [vm_compute; congruence|].
      destruct (String.eqb_spec (Window_Unit window) "month") as [->|_]; [vm_compute; congruence|].
      destruct (String.eqb_spec (Window_Unit window) "year") as [->|_]; [vm_compute; congruence|done].
    + unfold window_timezone. destruct (String.eqb_spec (TrimSpace (Window_Timezone window)) ""); [vm_compute; congruence|].
      by rewrite TrimSpace_idem.
Qed.

Lemma policy_product_Some config guardrails name key reference product :
  policy_product config guardrails name = Ok (Some (key, reference, product)) ->
  product <> "" /\ 1 <= OfferQuantity_Default (AutoRechargeGuardrails_Quantity (D := D) guardrails) /\
  1 <= AutoRechargeLimits_MaxPurchases (AutoRechargeGuardrails_Limits guardrails).
Proof.
  unfold policy_product. destruct (AutoRechargeGuardrails_EligibleTopups guardrails); [done|].
  destruct (_ !! _) as [offer|]; [|done]. destruct (negb _); [done|]. destruct (_ !! name) as [r|]; [|done].
  destruct (String.eqb_spec (providerProductID r) ""); [done|]. destruct (_ || _) eqn:Hb; [done|]. intros [= <- <- <-].
  apply orb_false_iff in Hb as [Hq Hm]. split_and!; [done|lia|lia].
Qed.

(** The profile Enable writes for a resolved policy is one GetProfile
    accepts, unless the catalog's threshold is negative. *)
Lemma enabled_profile_valid name t policy userID :
  runs (resolvePolicy name) t (Ok (Some policy)) -> TrimSpace userID = userID -> TrimSpace name <> "" ->
  validateAutoRechargeProfile (Some (enabled_profile userID name policy)) userID = Ok tt <->
  IsNegative (AutoRechargePolicy_Threshold policy) = false.
Proof.
  intros (config & g & key & reference & product & topup & window & instant & _ & _ & Hp & Htopup & _ & Hw & ->)%resolvePolicy_Some
    Huser Hname.
  apply policy_product_Some in Hp as (_ & Hq & Hm). apply resolved_window_fields in Hw as (Hc & Ha & Hunit & Htz).
  cbn -[TrimSpace]. rewrite Huser, String.eqb_refl, TrimSpace_idem. cbn -[TrimSpace].
  rewrite !(proj2 (String.eqb_neq _ _)) by done. rewrite !(proj2 (Z.ltb_ge _ 1)) by done. cbn.
  destruct (IsNegative _); [by split|]. rewrite (proj2 (String.eqb_neq _ _) Hunit), (proj2 (String.eqb_neq _ _) Htz).
  by destruct Ha as [-> | ->].
Qed.

(** The profiles a run writes. *)
Definition upsert_of (e : event) : option (AutoRechargeProfile D * bool) :=
  match projT1 e with
  | UpsertAutoRechargeProfile p options => Some (p, UpsertOptions_ResetCooldown options)
  | _ => None
  end.
Definition upserts (t : list event) : list (AutoRechargeProfile D * bool) := omap upsert_of t.

Lemma upserts_app t1 t2 : upserts (t1 ++ t2) = upserts t1 ++ upserts t2.
Proof. apply omap_app. Qed.

Lemma quiet_upserts t : Forall quiet t -> upserts t = [].
Proof. induction 1 as [|[[] ?] t Hq _ IH]; cbn in *; done. Qed.

Lemma recorded_upserts attemptID answered rest r : recorded attemptID answered rest r -> upserts rest = [].
Proof. by destruct 1. Qed.

(** ProcessIfNeeded never writes a profile. *)
Definition no_upsert (e : event) : Prop := upsert_of e = None.

Lemma claim_and_charge_no_upsert userID name policy payment returnURL :
  only no_upsert (claim_and_charge userID name policy payment returnURL).
Proof.
  unfold claim_and_charge, charge_attempt, newIdempotencyKey, claimAttempt. only_tac.
Qed.

Lemma quiet_no_upsert t : Forall quiet t -> Forall no_upsert t.
Proof. intros Hq. eapply Forall_impl; [exact Hq|]. by intros [[] ?]. Qed.

Lemma ProcessIfNeeded_no_upsert s provider input : only no_upsert (ProcessIfNeeded s provider input).
Proof.
  intros t r [Hq|(t1 & policy & p & name & t2 & payment & t3 & -> & Hq1 & Hq2 & _ & _ & _ & _ & _ & _ & _ & Hr)]%ProcessIfNeeded_runs;
    [by apply quiet_no_upsert|].
  rewrite Forall_app, Forall_cons, Forall_app. split_and!; try by apply quiet_no_upsert. { done. }
  by eapply claim_and_charge_no_upsert.
Qed.

Lemma process_checked_no_upsert s provider input : only no_upsert (process_checked s provider input).
Proof. apply only_bind; [apply ProcessIfNeeded_no_upsert|]. intros [x [e|]]; apply only_done. Qed.

Lemma no_upsert_upserts t : Forall no_upsert t -> upserts t = [].
Proof. induction 1 as [|e t He _ IH]; [done|]. cbn. by rewrite He. Qed.

(** Enable turns recharge on only for an account that can be charged,
    and before anything is charged.  In any run, either nothing is written or
    charged, or the run begins with reads only, then writes one profile: the
    catalog's current policy for this account and provider, enabled, active
    and armed, keeping the cooldown; the service accepts that profile when it
    reads it back exactly when the catalog's threshold is not negative; a
    refused write ends the call before any attempt is claimed; and no other
    profile is written. *)
Theorem Enable_writes_policy s provider input t r :
  runs (Enable s provider input) t r ->
  Forall quiet t \/
  exists t1 policy name written t2,
    let userID := TrimSpace (ProcessInput_UserID input) in
    let profile := enabled_profile userID name policy in
    t = t1 ++ (UpsertAutoRechargeProfile profile {| UpsertOptions_ResetCooldown := false |} ↦ written) :: t2 /\
    Forall quiet t1 /\ upserts t = [(profile, false)] /\
    (validateAutoRechargeProfile (Some profile) userID = Ok tt <->
     IsNegative (AutoRechargePolicy_Threshold policy) = false) /\
    (forall e, written = Err e -> t2 = [] /\ r = Err e).
Proof.
  unfold Enable. intros Hr%runs_lift_bind.
  destruct (autoRechargeUserID _) as [user|e] eqn:Hu; [|left; by destruct Hr as [-> _]].
  apply requireText_Ok in Hu as [-> _].
  apply runs_bind in Hr as [(t1 & policy & t2 & -> & Hrun1 & Hr)|(e & Hrun1 & _)]; [|left; by eapply ResolvePolicy_quiet].
  pose proof (ResolvePolicy_quiet _ _ _ _ Hrun1) as Hq1. rewrite Forall_app.
  destruct policy as [policy|]; [|left; by destruct Hr as [-> _]].
  apply runs_bind in Hr as [(t3 & payment & t4 & -> & Hrun3 & Hr)|(e & Hrun3 & _)];
    [|left; split; [done|by eapply paymentMethod_quiet]].
  pose proof (paymentMethod_quiet _ _ _ _ Hrun3) as Hq3. rewrite Forall_app.
  destruct payment as [payment|]; [|left; by destruct Hr as [-> _]].
  apply runs_lift_bind in Hr. destruct (autoRechargeProviderName provider) as [name|e] eqn:Hname; [|left; by destruct Hr as [-> _]].
  destruct Hr as (written & t5 & -> & Hr). right. exists (t1 ++ t3), policy, name, written, t5. cbn zeta.
  assert (upserts t5 = []) as Hnone.
  { apply no_upsert_upserts. destruct written as [[]|e]; [|by destruct Hr as [-> _]]. cbn [pbind] in Hr.
    eapply (only_bind no_upsert); [apply process_checked_no_upsert| |exact Hr].
    intros _ t' r' Ht'. by eapply quiet_no_upsert, GetStatus_quiet. }
  apply ResolvePolicy_Some in Hrun1 as (p & -> & Hrun1). apply requireText_Ok in Hname as [-> Hname].
  split_and!.
  - by rewrite <- app_assoc.
  - by rewrite Forall_app.
  - rewrite !upserts_app, !quiet_upserts by done. cbn. f_equal. exact Hnone.
  - eapply enabled_profile_valid; [done|apply TrimSpace_idem|]. by rewrite TrimSpace_idem.
  - intros e ->. by destruct Hr as [-> ->].
Qed.

(** ** The payment method *)

(** The methods a customer marked as default. *)
Definition defaults (methods : list PaymentMethodInfo) : list PaymentMethodInfo :=
  filter (fun m => PaymentMethodInfo_IsDefault m = true) methods.

Lemma defaults_cons m methods :
  defaults (m :: methods) = if PaymentMethodInfo_IsDefault m then m :: defaults methods else defaults methods.
Proof. unfold defaults. rewrite filter_cons. by destruct (PaymentMethodInfo_IsDefault m). Qed.

Definition multiple_defaults (providerName : string) : error :=
  response_error "provider returned multiple default payment methods" {[ "provider" := providerName ]}.

(** The loop over the methods, from a method already selected. *)
Lemma default_method_from methods providerName selected :
  fold_result (fun (selected : option PaymentMethodInfo) candidate =>
    if negb (PaymentMethodInfo_IsDefault candidate) then Ok selected
    else match selected with
         | Some _ => Err (response_error "provider returned multiple default payment methods"
                            {[ "provider" := providerName ]})
         | None => Ok (Some candidate)
         end) selected methods =
  match option_list selected ++ defaults methods with
  | [] => Ok None
  | [m] => Ok (Some m)
  | _ => Err (multiple_defaults providerName)
  end.
Proof.
  revert selected. induction methods as [|m methods IH]; intros selected; [by destruct selected|].
  rewrite defaults_cons. cbn [fold_result]. destruct (PaymentMethodInfo_IsDefault m); cbn [negb].
  - destruct selected; cbn; [done|]. by rewrite IH.
  - apply IH.
Qed.

Lemma default_method_eq methods providerName :
  default_method methods providerName =
  match defaults methods with
  | [] => Ok None
  | [m] => Ok (Some m)
  | _ => Err (multiple_defaults providerName)
  end.
Proof. apply (default_method_from methods providerName None). Qed.

(** The method a recharge may use: the one default, or the only one there is. *)
Definition chosen (methods : list PaymentMethodInfo) (m : PaymentMethodInfo) : Prop :=
  defaults methods = [m] \/ defaults methods = [] /\ methods = [m].

(** A recharge is paid with the customer's default payment method, or
    with the only one, and only when its data is valid; two defaults are a
    fault of the provider, and without a default among several methods none
    is used. *)
Theorem select_method_correct methods providerName :
  match select_method methods providerName with
  | Ok (Some m) => chosen methods m /\ validatePaymentMethod m providerName = Ok tt
  | Ok None => defaults methods = [] /\ length methods <> 1%nat
  | Err e => (2 <= length (defaults methods))%nat /\ e = multiple_defaults providerName \/
             exists m, chosen methods m /\ validatePaymentMethod m providerName = Err e
  end.
Proof.
  unfold select_method, chosen. rewrite default_method_eq.
  destruct (defaults methods) as [|d [|d' ds]] eqn:Hd; cbn [bind].
  - destruct methods as [|m [|m' ms]]; [done| |done].
    destruct (validatePaymentMethod m providerName) as [[]|e] eqn:Hv; cbn [bind]; [by split; [right|]|].
    right. exists m. split; [by right|done].
  - replace (match methods with _ => _ end) with (Some d) by (by destruct methods as [|? []]).
    destruct (validatePaymentMethod d providerName) as [[]|e] eqn:Hv; cbn [bind]; [by split; [left|]|].
    right. exists d. split; [by left|done].
  - left. split; [cbn; lia|done].
Qed.
End facts.

(** ** Witness: a balance of 3 under a threshold of 10 *)
#[local] Existing Instances canonical_range utc_only.
#[local] Instance no_zones : Zones := {| zone_lookup := fun _ _ => (0, - 2 ^ 63, 2 ^ 63 - 1) |}.

Definition sample_config : option (BursarConfig dec) :=
  match parseCommerce sample_commerce_value sample_credits with
  | Ok commerce =>
      Some {| BursarConfig_Version := 1; BursarConfig_Catalog := {| CatalogConfig_DefaultPlan := None |};
              BursarConfig_Pricing := None; BursarConfig_Credits := sample_credits;
              BursarConfig_Entitlements := {| EntitlementsConfig_Features := ∅ |};
              BursarConfig_Admission := {| AdmissionConfig_Policies := ∅ |}; BursarConfig_Plans := ∅;
              BursarConfig_Commerce := commerce |}
  | Err _ => None
  end.

Definition sample_now : Time := {| instant := 1786363200 * Second; location := UTC |}.

Definition sample_profile : AutoRechargeProfile dec :=
  {| AutoRechargeProfile_UserID := "user_1"; AutoRechargeProfile_Enabled := true;
     AutoRechargeProfile_State := "active"; AutoRechargeProfile_Armed := true;
     AutoRechargeProfile_Provider := "stripe"; AutoRechargeProfile_TopupID := "topup_1";
     AutoRechargeProfile_Quantity := 2; AutoRechargeProfile_Threshold := Ref.of_int 10;
     AutoRechargeProfile_MaxChargesPerWindow := 3; AutoRechargeProfile_WindowUnit := "month";
     AutoRechargeProfile_WindowCount := 1; AutoRechargeProfile_WindowAnchor := "calendar";
     AutoRechargeProfile_WindowTimezone := "UTC"; AutoRechargeProfile_UpdatedAt := sample_now |}.

Definition sample_attempt (key : string) : AutoRechargeAttempt dec :=
  {| AutoRechargeAttempt_ID := "attempt_1"; AutoRechargeAttempt_UserID := "user_1";
     AutoRechargeAttempt_Provider := "stripe"; AutoRechargeAttempt_IdempotencyKey := key;
     AutoRechargeAttempt_ProviderAttemptID := ""; AutoRechargeAttempt_TopupID := "topup_1";
     AutoRechargeAttempt_Quantity := 2; AutoRechargeAttempt_State := AttemptState.Claimed;
     AutoRechargeAttempt_WindowStart := sample_now; AutoRechargeAttempt_WindowEnd := sample_now;
     AutoRechargeAttempt_QuotedAmountMinor := None; AutoRechargeAttempt_Currency := "";
     AutoRechargeAttempt_FailureCode := ""; AutoRechargeAttempt_FailureMessage := "";
     AutoRechargeAttempt_Metadata := ∅; AutoRechargeAttempt_CreatedAt := sample_now;
     AutoRechargeAttempt_UpdatedAt := sample_now |}.

(** A store with this account and a provider whose charges stay in progress. *)
Definition sample_callee (c : call dec) (_ : unit) : answer c * unit :=
  (match c return answer c with
   | GetConfig => Ok sample_config
   | ResolveAutoRechargeTopup _ => Ok (Some {| AutoRechargeTopup_ID := "topup_1"; AutoRechargeTopup_ProductID := "price_1" |})
   | GetAutoRechargeCustomer userID provider =>
       Ok (Some {| AutoRechargeCustomer_UserID := userID; AutoRechargeCustomer_Provider := provider;
                   AutoRechargeCustomer_ProviderCustomerID := "cus_1" |})
   | GetAutoRechargeProfile _ => Ok (Some sample_profile)
   | UpsertAutoRechargeProfile _ _ => Ok tt
   | ClaimAutoRechargeAttempt claim => Ok (Some (sample_attempt (AutoRechargeAttemptClaim_IdempotencyKey claim)))
   | UpdateAutoRechargeAttempt _ => Ok tt
   | CountAutoRechargeAttempts _ _ => Ok 1
   | ListPaymentMethods _ _ =>
       Ok [{| PaymentMethodInfo_ID := "pm_1"; PaymentMethodInfo_Last4 := "4242"; PaymentMethodInfo_Brand := "visa";
              PaymentMethodInfo_ExpiryMonth := 12; PaymentMethodInfo_ExpiryYear := 2030;
              PaymentMethodInfo_IsDefault := true |}]
   | PreviewSavedPaymentCharge _ _ => Err (ExternalError "no preview")
   | ChargeSavedPaymentMethod _ _ =>
       Ok {| SavedPaymentChargeResult_ProviderPaymentID := "pi_1"; SavedPaymentChargeResult_Status := "processing";
             SavedPaymentChargeResult_ActionURL := ""; SavedPaymentChargeResult_AmountMinor := Some 1000;
             SavedPaymentChargeResult_Currency := "EUR" |}
   | GetProvider name => Ok None
   | NewIdempotencyKey _ => Ok "key_1"
   | Now => sample_now
   end, tt).

Definition sample_service : option AutoRechargeService :=
  Some {| Service_HasCatalog := true; Service_HasStore := true |}.
Definition sample_provider : option PaymentProvider :=
  Some {| Provider_Name := "stripe"; Provider_ListsPaymentMethods := true; Provider_Previews := false;
          Provider_Charges := true |}.
Definition sample_input : AutoRechargeProcessInput dec :=
  {| ProcessInput_UserID := "user_1"; ProcessInput_Balance := Ref.of_int 3; ProcessInput_ReturnURL := "" |}.

Definition sample_process := run sample_callee tt (ProcessIfNeeded sample_service sample_provider sample_input).
Definition sample_enable := run sample_callee tt (Enable sample_service sample_provider sample_input).

Example sample_process_submits :
  match sample_process.1.2 with
  | Ok (result, None) => ProcessResult_Outcome result = Outcome.Submitted
  | _ => False
  end.
Proof. vm_compute. reflexivity. Qed.

(** The sample charges once, under the key of the claim. *)
Lemma ProcessIfNeeded_charges_witness :
  (exists params, charges sample_process.1.1 = [params] /\ SavedPaymentChargeParams_IdempotencyKey params = "key_1") /\
  exists prefix t' policy payment name,
    sample_process.1.1 = prefix ++ t' /\ authorised sample_input "user_1" name policy prefix /\
    charged "user_1" name "" policy payment t' sample_process.1.2.
Proof.
  split; [eexists; split; vm_compute; reflexivity|].
  destruct (ProcessIfNeeded_charges sample_service sample_provider sample_input sample_process.1.1 sample_process.1.2)
    as [[Hnone _]|(prefix & t' & policy & payment & name & Ht & _ & Ha & Hc & _)].
  - apply run_runs.
  - vm_compute in Hnone. discriminate Hnone.
  - exists prefix, t', policy, payment, name. exact (conj Ht (conj Ha Hc)).
Defined.

Lemma Enable_writes_policy_witness :
  exists profile, upserts sample_enable.1.1 = [(profile, false)] /\ AutoRechargeProfile_State profile = "active".
Proof.
  destruct (Enable_writes_policy sample_service sample_provider sample_input sample_enable.1.1 sample_enable.1.2)
    as [Hq|(t1 & policy & name & written & t2 & _ & _ & Hu & _)].
  - apply run_runs.
  - apply quiet_upserts in Hq. vm_compute in Hq. discriminate Hq.
  - eexists. split; [exact Hu|reflexivity].
Defined.

(** ** What the model found *)

(** A store that keeps the live attempt of the account and answers claims
    with it, as claim_auto_recharge_attempt does, and a provider whose charge
    goes through with a status outside the vocabulary.  The state: the keys
    given out so far and the live attempt. *)
Definition stuck_callee (c : call dec) (st : nat * option (AutoRechargeAttempt dec))
    : answer c * (nat * option (AutoRechargeAttempt dec)) :=
  let '(keys, live) := st in
  match c return answer c * (nat * option (AutoRechargeAttempt dec)) with
  | ClaimAutoRechargeAttempt claim =>
      let attempt := default (sample_attempt (AutoRechargeAttemptClaim_IdempotencyKey claim)) live in
      (Ok (Some attempt), (keys, Some attempt))
  | UpdateAutoRechargeAttempt _ => (Ok tt, (keys, None))
  | NewIdempotencyKey _ => (Ok ("key_" +:+ itoa (Z.of_nat keys)), (S keys, live))
  | ChargeSavedPaymentMethod _ _ =>
      (Ok {| SavedPaymentChargeResult_ProviderPaymentID := "pi_1"; SavedPaymentChargeResult_Status := "settling";
             SavedPaymentChargeResult_ActionURL := ""; SavedPaymentChargeResult_AmountMinor := Some 1000;
             SavedPaymentChargeResult_Currency := "EUR" |}, st)
  | c => ((sample_callee c tt).1, st)
  end.

(** A charge answered with an unknown status is made but not recorded, and
    the attempt it leaves claimed stops every later recharge. *)
Theorem malformed_charge_blocks :
  let first := run stuck_callee (0%nat, None) (ProcessIfNeeded sample_service sample_provider sample_input) in
  let second := run stuck_callee first.2 (ProcessIfNeeded sample_service sample_provider sample_input) in
  length (charges first.1.1) = 1%nat /\ updates first.1.1 = [] /\ is_Ok first.1.2 = false /\
  charges second.1.1 = [] /\
  second.1.2 = Ok ({| ProcessResult_Outcome := Outcome.AlreadyProcessing; ProcessResult_Charge := None |}, None).
Proof. vm_compute. auto 6. Qed.
