(* ===== verification/AttemptStates.v ===== *)
(** * postgres_commerce_state.go, lines 1454-1570: the states of an attempt

    The database moves an attempt one legal step at a time
    (advance_auto_recharge_attempt in 020_auto_recharge_rpc.sql); the store
    turns the state a caller asks for into the steps that lead there. *)

From S2P Require Export RechargeFacts.
Local Open Scope Z_scope.
Local Open Scope go_scope.

Definition commerceStateAutoRechargeAttemptState (state : string) : bool :=
  existsb (String.eqb state) attempt_states.

(** The map literal of the function: current state, target, steps. *)
Definition transition_paths : list (string * list (string * list string)) :=
  let submitted := AttemptState.Submitted in
  let processing := AttemptState.Processing in
  let succeeded := AttemptState.Succeeded in
  let failed := AttemptState.Failed in
  let unknown := AttemptState.Unknown in
  let action := AttemptState.ActionRequired in
  [(AttemptState.Claimed,
     [(submitted, [submitted]); (processing, [submitted; processing]);
      (succeeded, [submitted; processing; succeeded]); (failed, [submitted; processing; failed]);
      (unknown, [submitted; processing; unknown]); (action, [submitted; action])]);
   (submitted,
     [(processing, [processing]); (succeeded, [processing; succeeded]); (failed, [processing; failed]);
      (unknown, [processing; unknown]); (action, [action])]);
   (processing, [(succeeded, [succeeded]); (failed, [failed]); (unknown, [unknown]); (action, [action])]);
   (unknown, [(processing, [processing]); (succeeded, [succeeded]); (failed, [failed]); (action, [action])]);
   (action, [(processing, [processing]); (succeeded, [succeeded]); (failed, [failed])])].

(** [m[key]] of a map literal. *)
Definition literal_lookup {A} (key : string) (m : list (string * A)) : option A :=
  snd <$> find (fun entry => entry.1 =? key) m.

Definition commerceStateAutoRechargeTransitionPath (current target : string) : result (list string) :=
  if current =? target then Ok []
  else
    match literal_lookup current transition_paths ≫= literal_lookup target with
    | Some path => Ok path
    | None => Err (store_error "auto-recharge attempt transition was rejected"
                     {[ "current_state" := current; "requested_state" := target ]})
    end.

(** ** The database's rule *)

(** The pairs the database function admits; "canceled" is a state the SDK
    never asks for. *)
Definition legal_steps : list (string * string) :=
  [("claimed", "submitted"); ("submitted", "processing"); ("submitted", "action_required");
   ("processing", "succeeded"); ("processing", "failed"); ("processing", "unknown");
   ("processing", "action_required"); ("unknown", "processing"); ("unknown", "action_required");
   ("unknown", "succeeded"); ("unknown", "failed"); ("action_required", "processing");
   ("action_required", "succeeded"); ("action_required", "failed"); ("claimed", "canceled");
   ("submitted", "canceled"); ("processing", "canceled"); ("unknown", "canceled");
   ("action_required", "canceled")].

Definition legal (current next : string) : Prop := (current, next) ∈ legal_steps.

(** [path] goes by legal steps from [current] to [target]. *)
Fixpoint leads (current : string) (path : list string) (target : string) : Prop :=
  match path with
  | [] => current = target
  | next :: rest => legal current next /\ leads next rest target
  end.

Lemma leads_rtc current path target : leads current path target -> rtc legal current target.
Proof.
  revert current. induction path as [|next path IH]; cbn; [intros current ->; apply rtc_refl|].
  intros current [Hl Hp]. eapply rtc_l; [done|]. by apply IH.
Qed.

(** ** Reachability *)

Definition mem (x : string) (l : list string) : bool := existsb (String.eqb x) l.

Lemma mem_elem x l : mem x l = true <-> x ∈ l.
Proof.
  unfold mem. rewrite existsb_exists. split.
  - intros (y & Hy & ->%String.eqb_eq). by apply list_elem_of_In.
  - intros Hin. exists x. split; [by apply list_elem_of_In|apply String.eqb_refl].
Qed.

(** The states one legal step leads to from those of [l]. *)
Definition successors (l : list string) : list string :=
  snd <$> List.filter (fun s => mem s.1 l) legal_steps.

(** The states at most [rounds] steps lead to. *)
Fixpoint closure (rounds : nat) (l : list string) : list string :=
  match rounds with
  | O => l
  | S rounds' => closure rounds' (l ++ List.filter (fun s => negb (mem s l)) (successors l))
  end.

Lemma successors_elem l current next : current ∈ l -> legal current next -> next ∈ successors l.
Proof.
  intros Hin Hl. apply list_elem_of_fmap. exists (current, next). split; [done|].
  apply list_elem_of_In, List.filter_In. split; [by apply list_elem_of_In|by apply mem_elem].
Qed.

Lemma rtc_closed (l : list string) current target :
  forallb (fun next => mem next l) (successors l) = true -> current ∈ l -> rtc legal current target -> target ∈ l.
Proof.
  intros Hclosed Hin Hrtc. rewrite forallb_forall in Hclosed. induction Hrtc as [|x y z Hl _ IH]; [done|].
  apply IH, mem_elem, Hclosed, list_elem_of_In. by eapply successors_elem.
Qed.

Lemma closure_extensive rounds l x : x ∈ l -> x ∈ closure rounds l.
Proof.
  revert l. induction rounds as [|rounds IH]; intros l Hx; cbn [closure]; [done|]. apply IH. rewrite elem_of_app. by left.
Qed.

(** Five rounds reach a fixed point, and so everything there is to reach. *)
Lemma closure_complete current target :
  commerceStateAutoRechargeAttemptState current = true -> rtc legal current target -> target ∈ closure 5 [current].
Proof.
  intros Hin%mem_elem Hrtc. eapply rtc_closed; [|by apply closure_extensive; left|exact Hrtc].
  repeat (apply elem_of_cons in Hin as [->|Hin]; [by vm_compute|]). by apply not_elem_of_nil in Hin.
Qed.

Definition legalb (current next : string) : bool :=
  existsb (fun s => (s.1 =? current) && (s.2 =? next)) legal_steps.

Lemma legalb_spec current next : legalb current next = true -> legal current next.
Proof.
  unfold legalb. rewrite existsb_exists. intros ([a b] & Hin & [Ha%String.eqb_eq Hb%String.eqb_eq]%andb_true_iff).
  cbn in Ha, Hb. subst a b. by apply list_elem_of_In.
Qed.

Fixpoint leadsb (current : string) (path : list string) (target : string) : bool :=
  match path with
  | [] => current =? target
  | next :: rest => legalb current next && leadsb next rest target
  end.

Lemma leadsb_spec current path target : leadsb current path target = true -> leads current path target.
Proof.
  revert current. induction path as [|next path IH]; intros current; cbn [leadsb leads]; [apply String.eqb_eq|].
  intros [Hl Hp]%andb_true_iff. split; [by apply legalb_spec|by apply IH].
Qed.

(** The theorem below, decided for one pair of states. *)
Definition path_right (current target : string) : bool :=
  match commerceStateAutoRechargeTransitionPath current target with
  | Ok path => leadsb current path target
  | Err _ => negb (mem target (closure 5 [current]))
             || (current =? AttemptState.ActionRequired) && (target =? AttemptState.Unknown)
  end.

Lemma path_right_all current target :
  current ∈ attempt_states -> target ∈ attempt_states -> path_right current target = true.
Proof.
  assert (forallb (fun c => forallb (path_right c) attempt_states) attempt_states = true) as Hall by (vm_compute; reflexivity).
  rewrite !list_elem_of_In. intros Hc Ht. rewrite forallb_forall in Hall. specialize (Hall _ Hc).
  rewrite forallb_forall in Hall. by apply Hall.
Qed.

(** The states ProcessIfNeeded moves an attempt to, and from. *)
Definition charge_targets : list string :=
  [AttemptState.ActionRequired; AttemptState.Processing; AttemptState.Failed; AttemptState.Unknown].
Definition charge_sources : list string := [AttemptState.Claimed; AttemptState.Unknown].

Lemma settled_charge_target {D} (attemptID : string) charge :
  AutoRechargeAttemptUpdate_State (settled_charge (D := D) attemptID charge).1 ∈ charge_targets.
Proof.
  unfold settled_charge. destruct (_ =? _); [left|]. destruct (existsb _ _); cbn; [right; left|do 2 right; left].
Qed.

(** C14: the store persists exactly the changes of state the database admits.
    Between any two states of an attempt, the steps it takes are legal one by
    one and end at the state asked for; it refuses only a change no legal
    steps make, save from action_required to unknown; and it never refuses
    the outcome of a charge ProcessIfNeeded made of a claimed attempt or of
    one whose outcome was unknown. *)
Theorem transition_path_correct current target :
  commerceStateAutoRechargeAttemptState current = true -> commerceStateAutoRechargeAttemptState target = true ->
  match commerceStateAutoRechargeTransitionPath current target with
  | Ok path => leads current path target
  | Err _ => ~ rtc legal current target \/
             current = AttemptState.ActionRequired /\ target = AttemptState.Unknown
  end /\
  (current ∈ charge_sources -> target ∈ charge_targets ->
   is_Ok (commerceStateAutoRechargeTransitionPath current target) = true).
Proof.
  intros Hc Ht. pose proof (path_right_all current target) as Hright. rewrite <- !mem_elem in Hright.
  specialize (Hright Hc Ht). unfold path_right in Hright. split.
  - destruct (commerceStateAutoRechargeTransitionPath current target) as [path|e]; [by apply leadsb_spec|].
    apply orb_true_iff in Hright as [Hn|[Ha Hu]%andb_true_iff]; [left|right].
    + intros Hr%closure_complete; [|done]. apply mem_elem in Hr. by rewrite Hr in Hn.
    + by apply String.eqb_eq in Ha as ->, Hu as ->.
  - assert (forallb (fun c => forallb (fun t => is_Ok (commerceStateAutoRechargeTransitionPath c t)) charge_targets)
              charge_sources = true) as Hall by (vm_compute; reflexivity).
    rewrite !list_elem_of_In. intros Hcs Hts. rewrite forallb_forall in Hall. specialize (Hall _ Hcs).
    rewrite forallb_forall in Hall. by apply Hall.
Qed.

Lemma transition_path_correct_witness :
  exists path, commerceStateAutoRechargeTransitionPath AttemptState.Claimed AttemptState.Failed = Ok path /\
    leads AttemptState.Claimed path AttemptState.Failed.
Proof.
  eexists. split; [reflexivity|]. exact (proj1 (transition_path_correct AttemptState.Claimed AttemptState.Failed eq_refl eq_refl)).
Defined.
