(* ===== verification/Outbox.v ===== *)
(** * outbox_worker.go, lines 17-211 and 615-671: the outbox worker's data

    The events and outcomes of the outbox, the options of its worker with
    their defaults and bounds, the retry delay, the diagnostic summaries that
    may be stored, and the construction of a worker. *)

From S2P Require Export GoCalendar Value.
Local Open Scope Z_scope.
Local Open Scope go_scope.

Definition Millisecond : Z := 1000000.

Definition outboxConfigError (message : string) : error :=
  NewError message (error_options ErrorCode.Config ErrorCategory.InvalidRequest None).

(** ** Events and outcomes *)

Record OutboxEvent {D : Type} := {
  OutboxEvent_EventID : string;
  OutboxEvent_TenantID : string;
  OutboxEvent_Topic : string;
  OutboxEvent_AggregateType : string;
  OutboxEvent_AggregateID : string;
  OutboxEvent_PayloadVersion : Z;
  OutboxEvent_Payload : gmap string (any D);
  OutboxEvent_ClaimToken : string;
  OutboxEvent_AttemptCount : Z;
  OutboxEvent_CreatedAt : Time;
}.
Arguments OutboxEvent : clear implicits.

Inductive OutboxEventOutcomeStatus :=
  | OutboxOutcomeDelivered
  | OutboxOutcomeDeliveryFailed
  | OutboxOutcomeClaimLost.

Inductive OutboxClaimLossPhase :=
  | OutboxClaimLossHeartbeat
  | OutboxClaimLossComplete
  | OutboxClaimLossFail.

(** [Duration], which only times the delivery, is left out. *)
Record OutboxEventOutcome := {
  OutboxEventOutcome_Topic : string;
  OutboxEventOutcome_AttemptCount : Z;
  OutboxEventOutcome_Status : OutboxEventOutcomeStatus;
  OutboxEventOutcome_Summary : option string;
  OutboxEventOutcome_RetryDelaySeconds : option Z;
  OutboxEventOutcome_DeadLettered : bool;
  OutboxEventOutcome_ClaimLossPhase : option OutboxClaimLossPhase;
}.

Record OutboxRunResult := {
  OutboxRunResult_Claimed : Z;
  OutboxRunResult_Delivered : Z;
  OutboxRunResult_Failed : Z;
  OutboxRunResult_ClaimLost : Z;
}.

(** ** Options *)

(** A callback is known by whether it is set. *)
Record OutboxWorkerOptions := {
  Options_BatchSize : Z;
  Options_Concurrency : Z;
  Options_LeaseSeconds : Z;
  Options_PollInterval : Z;
  Options_RetryDelaySeconds : Z;
  Options_MaxRetryDelaySeconds : Z;
  Options_AttemptLimit : Z;
  Options_OnError : bool;
  Options_OnEventOutcome : bool;
}.

Definition or_default (value fallback : Z) : Z := if (value =? 0)%Z then fallback else value.

Definition outside (low high value : Z) : bool := (value <? low) || (value >? high).

(** The zero fields filled in. *)
Definition with_defaults (o : OutboxWorkerOptions) : OutboxWorkerOptions :=
  {| Options_BatchSize := or_default (Options_BatchSize o) 100;
     Options_Concurrency := or_default (Options_Concurrency o) 4;
     Options_LeaseSeconds := or_default (Options_LeaseSeconds o) 60;
     Options_PollInterval := or_default (Options_PollInterval o) Second;
     Options_RetryDelaySeconds := or_default (Options_RetryDelaySeconds o) 30;
     Options_MaxRetryDelaySeconds := or_default (Options_MaxRetryDelaySeconds o) 3600;
     Options_AttemptLimit := or_default (Options_AttemptLimit o) 10;
     Options_OnError := Options_OnError o;
     Options_OnEventOutcome := Options_OnEventOutcome o |}.

Definition normalized (o : OutboxWorkerOptions) : result OutboxWorkerOptions :=
  let o := with_defaults o in
  if outside 1 1000 (Options_BatchSize o)
  then Err (outboxConfigError "batch size must be between 1 and 1000")
  else if outside 1 100 (Options_Concurrency o)
  then Err (outboxConfigError "concurrency must be between 1 and 100")
  else if outside 1 3600 (Options_LeaseSeconds o)
  then Err (outboxConfigError "lease seconds must be between 1 and 3600")
  else if outside (10 * Millisecond) Hour (Options_PollInterval o)
  then Err (outboxConfigError "poll interval must be between 10ms and 1h")
  else if outside 1 86400 (Options_RetryDelaySeconds o)
  then Err (outboxConfigError "retry delay seconds must be between 1 and 86400")
  else if outside 1 86400 (Options_MaxRetryDelaySeconds o)
  then Err (outboxConfigError "maximum retry delay seconds must be between 1 and 86400")
  else if Options_MaxRetryDelaySeconds o <? Options_RetryDelaySeconds o
  then Err (outboxConfigError "maximum retry delay must be at least the base retry delay")
  else if outside 1 100 (Options_AttemptLimit o)
  then Err (outboxConfigError "attempt limit must be between 1 and 100")
  else Ok o.

(** ** The retry delay *)

(** The loop, which runs at most [steps] times; [int] wraps around. *)
Fixpoint retry_delay_loop (steps : nat) (delay maximum : Z) : Z :=
  match steps with
  | O => Z.min delay maximum
  | S steps' =>
      if delay <? maximum then
        if delay >? maximum ÷ 2 then maximum
        else retry_delay_loop steps' (wrap64 (delay * 2)) maximum
      else Z.min delay maximum
  end.

Definition boundedOutboxRetryDelay (base maximum attempt : Z) : Z :=
  retry_delay_loop (Z.to_nat (Z.max attempt 1 - 1)) base maximum.

Example first_delays :
  boundedOutboxRetryDelay 30 3600 <$> [0; 1; 2; 3; 7; 8; 100] = [30; 30; 60; 120; 1920; 3600; 3600].
Proof. reflexivity. Qed.

(** The heartbeat's interval: a third of the lease, at least 100ms. *)
Definition heartbeat_interval (leaseSeconds : Z) : Z :=
  let interval := wrap64 (leaseSeconds * Second) ÷ 3 in
  if interval <? 100 * Millisecond then 100 * Millisecond else interval.

(** ** Diagnostic summaries *)

Definition is_letter (c : ascii) : bool := is_upper c || is_lower c.
Definition is_code_char (c : ascii) : bool :=
  is_letter c || is_digit c || Ascii.eqb c "_" || Ascii.eqb c "." || Ascii.eqb c "-".

(** [diagnosticCodePattern]: a letter and up to 127 code characters. *)
Definition matches_diagnostic_code (s : string) : bool :=
  match s with
  | EmptyString => false
  | String c rest => is_letter c && all_chars is_code_char rest && (String.length rest <=? 127)%nat
  end.

(** The loop over the runes, each written as one byte. *)
Fixpoint sanitize_loop (builder : string) (rest : list (list ascii)) : string :=
  match rest with
  | [] => builder
  | character :: rest' =>
      if (128 <=? String.length builder)%nat then builder
      else sanitize_loop (builder +:+ match character with
                                      | [c] => if is_code_char c then String c "" else "_"
                                      | _ => "_"
                                      end) rest'
  end.

Definition sanitizeDiagnosticCode (value fallback : string) : string :=
  let result := sanitize_loop "" (runes (TrimSpace value)) in
  if matches_diagnostic_code result then result else fallback.

Definition persistedDiagnosticSummary (err : option error) (fallback : string) : string :=
  let operation := sanitizeDiagnosticCode fallback "operation_failed" in
  let errorCode :=
    match err with
    | None => "UnknownError"
    | Some err =>
        match AsBursarError err with
        | Some bursarErr => if matches_diagnostic_code (error_code bursarErr) then error_code bursarErr else "Error"
        | None => "Error"
        end
    end in
  operation +:+ ":" +:+ errorCode.

Definition validatePersistedDiagnosticSummary (value : string) : result string :=
  let refused := Err (outboxConfigError "outbox failure summary must contain two safe diagnostic codes") in
  match Split value ":" with
  | [operation; code] =>
      if matches_diagnostic_code operation && matches_diagnostic_code code then Ok value else refused
  | _ => refused
  end.

(** ** The worker *)

(** A handler: which it is, and the topics it declares. *)
Record OutboxHandler := {
  Handler_ID : nat;
  Topics : list string;
}.
#[export] Instance handler_eq_dec : EqDecision OutboxHandler.
Proof. solve_decision. Defined.

Record OutboxWorker := {
  Worker_handlers : gmap string (list OutboxHandler);
  Worker_topics : list string;
  Worker_options : OutboxWorkerOptions;
}.

Definition handlers_of (byTopic : gmap string (list OutboxHandler)) (topic : string) : list OutboxHandler :=
  default [] (byTopic !! topic).

(** One topic of a handler. *)
Definition add_topic (handler : OutboxHandler) (byTopic : gmap string (list OutboxHandler)) (topic : string)
    : result (gmap string (list OutboxHandler)) :=
  let topic := TrimSpace topic in
  if (topic =? "") || (Z.of_nat (String.length topic) >? 255)
  then Err (outboxConfigError "outbox topics must contain between 1 and 255 characters")
  else Ok (<[topic := handlers_of byTopic topic ++ [handler]]> byTopic).

(** One handler; nil is [None]. *)
Definition add_handler (byTopic : gmap string (list OutboxHandler)) (handler : option OutboxHandler)
    : result (gmap string (list OutboxHandler)) :=
  match handler with
  | None => Err (outboxConfigError "outbox handlers must not be nil")
  | Some handler =>
      match Topics handler with
      | [] => Err (outboxConfigError "outbox handlers must declare at least one topic")
      | topics => fold_result (add_topic handler) byTopic topics
      end
  end.

Definition NewOutboxWorker `{RangeOrder} (hasStore : bool) (handlers : list (option OutboxHandler))
    (options : OutboxWorkerOptions) : result OutboxWorker :=
  if negb hasStore then Err (outboxConfigError "outbox store is required")
  else match handlers with
  | [] => Err (outboxConfigError "OutboxWorker requires at least one handler")
  | _ =>
      normalized_options <- normalized options ;;
      byTopic <- fold_result add_handler ∅ handlers ;;
      if (64 <? size byTopic)%nat
      then Err (outboxConfigError "OutboxWorker supports at most 64 topics")
      else Ok {| Worker_handlers := byTopic;
                 Worker_topics := sort_strings (range byTopic).*1;
                 Worker_options := normalized_options |}
  end.
