(* ===== verification/OutboxFacts.v ===== *)
(** * What a worker is built from, when it retries and what it may store

    The options a worker runs with, the handlers of its topics, the retry
    delay in closed form, and the shape of every diagnostic summary. *)

From S2P Require Export Outbox.
Local Open Scope Z_scope.
Local Open Scope go_scope.

(** ** Options *)

Record options_ok (o : OutboxWorkerOptions) : Prop := {
  batch_ok : 1 <= Options_BatchSize o <= 1000;
  concurrency_ok : 1 <= Options_Concurrency o <= 100;
  lease_ok : 1 <= Options_LeaseSeconds o <= 3600;
  poll_ok : 10 * Millisecond <= Options_PollInterval o <= Hour;
  delay_ok : 1 <= Options_RetryDelaySeconds o <= Options_MaxRetryDelaySeconds o;
  max_delay_ok : Options_MaxRetryDelaySeconds o <= 86400;
  attempts_ok : 1 <= Options_AttemptLimit o <= 100;
}.

Lemma outside_false low high value : outside low high value = false <-> low <= value <= high.
Proof. unfold outside. rewrite orb_false_iff, Z.gtb_ltb, !Z.ltb_ge. done. Qed.

Lemma normalized_Ok o o' : normalized o = Ok o' <-> o' = with_defaults o /\ options_ok o'.
Proof.
  unfold normalized. split.
  - repeat case_match; try discriminate. intros [= <-].
    repeat match goal with H : outside _ _ _ = false |- _ => apply outside_false in H end.
    split; [done|]. constructor; try done; lia.
  - intros [-> []].
    repeat (rewrite (proj2 (outside_false _ _ _)) by lia). destruct (_ <? _) eqn:E; [lia|done].
Qed.

Lemma with_defaults_fixed o : options_ok o -> with_defaults o = o.
Proof.
  intros []. unfold with_defaults, or_default.
  repeat match goal with |- context [(?x =? 0)%Z] => destruct (Z.eqb_spec x 0); [unfold Millisecond in *; lia|] end.
  by destruct o.
Qed.

Lemma heartbeat_in_lease o :
  options_ok o -> 3 * heartbeat_interval (Options_LeaseSeconds o) <= Options_LeaseSeconds o * Second.
Proof.
  intros []. unfold heartbeat_interval, Second, Millisecond in *.
  rewrite wrap64_fits by (unfold fits64; lia).
  pose proof (Z.quot_rem' (Options_LeaseSeconds o * 1000000000) 3).
  pose proof (Z.rem_bound_pos (Options_LeaseSeconds o * 1000000000) 3). destruct (_ <? _) eqn:E; lia.
Qed.

(** ** Topics *)

Definition topic_ok (topic : string) : Prop := topic <> "" /\ (String.length topic <= 255)%nat.

(** The handlers given, each under every topic it declares. *)
Definition subscriptions (handlers : list OutboxHandler) : list (string * OutboxHandler) :=
  handlers ≫= fun h => (fun topic => (TrimSpace topic, h)) <$> Topics h.

Definition subscribe (byTopic : gmap string (list OutboxHandler)) (s : string * OutboxHandler) :=
  <[s.1 := handlers_of byTopic s.1 ++ [s.2]]> byTopic.

(** The handlers subscribed to a topic, in the order they were given. *)
Definition subscribers (topic : string) (subs : list (string * OutboxHandler)) : list OutboxHandler :=
  (filter (fun s => s.1 = topic) subs).*2.

Lemma add_topic_Ok h m topic m' :
  add_topic h m topic = Ok m' <-> topic_ok (TrimSpace topic) /\ m' = subscribe m (TrimSpace topic, h).
Proof.
  unfold add_topic, topic_ok, subscribe. cbn [fst snd]. split.
  - destruct (_ || _) eqn:E; [discriminate|]. intros [= <-]. apply orb_false_iff in E as [E1 E2].
    apply String.eqb_neq in E1. split; [split; [done|lia]|done].
  - intros [[H1%String.eqb_neq H2] ->]. rewrite H1. cbn. destruct (_ >? _) eqn:E; [lia|done].
Qed.

Lemma add_topics_Ok h m topics m' :
  fold_result (add_topic h) m topics = Ok m' <->
  Forall (fun t => topic_ok (TrimSpace t)) topics /\
  m' = foldl subscribe m ((fun topic => (TrimSpace topic, h)) <$> topics).
Proof.
  revert m. induction topics as [|t topics IH]; intros m; cbn [fold_result].
  - split; [by intros [= <-]|]. by intros [_ ->].
  - rewrite bind_Ok, Forall_cons. setoid_rewrite add_topic_Ok. setoid_rewrite IH. cbn. naive_solver.
Qed.

Definition handler_ok (h : OutboxHandler) : Prop :=
  Topics h <> [] /\ Forall (fun t => topic_ok (TrimSpace t)) (Topics h).

Lemma subscriptions_one h : subscriptions [h] = (fun topic => (TrimSpace topic, h)) <$> Topics h.
Proof. apply app_nil_r. Qed.

Lemma add_handler_Ok m h m' :
  add_handler m h = Ok m' <->
  exists h', h = Some h' /\ handler_ok h' /\ m' = foldl subscribe m (subscriptions [h']).
Proof.
  unfold add_handler, handler_ok. destruct h as [h|]; [|naive_solver]. setoid_rewrite subscriptions_one. destruct (Topics h) as [|t topics] eqn:E.
  - split; [done|]. by intros (? & [= <-] & [[] _] & _).
  - rewrite add_topics_Ok. split.
    + intros [Hall ->]. exists h. by rewrite E.
    + intros (h' & [= <-] & [_ Hall] & ->). rewrite E in *. done.
Qed.

Lemma subscriptions_cons h hs : subscriptions (h :: hs) = subscriptions [h] ++ subscriptions hs.
Proof. by rewrite subscriptions_one. Qed.

Lemma add_handlers_Ok m hs m' :
  fold_result add_handler m hs = Ok m' <->
  exists hs', hs = Some <$> hs' /\ Forall handler_ok hs' /\ m' = foldl subscribe m (subscriptions hs').
Proof.
  revert m. induction hs as [|h hs IH]; intros m; cbn [fold_result].
  - split.
    + intros [= <-]. by exists [].
    + intros (hs' & E & _ & ->). symmetry in E. apply fmap_nil_inv in E as ->. done.
  - rewrite bind_Ok. setoid_rewrite add_handler_Ok. setoid_rewrite IH. split.
    + intros (m1 & (h' & -> & Hh & ->) & hs' & -> & Hall & ->). exists (h' :: hs').
      rewrite (subscriptions_cons h' hs'), foldl_app. split_and!; [done|by constructor|done].
    + intros ([|h' hs'] & E & Hall & ->); [done|]. injection E as -> ->.
      apply Forall_cons in Hall as [Hh Hall]. rewrite (subscriptions_cons h' hs'), foldl_app.
      eexists. split; [by exists h'|]. by exists hs'.
Qed.

Lemma handlers_of_subscribe m s topic :
  handlers_of (subscribe m s) topic = handlers_of m topic ++ subscribers topic [s].
Proof.
  unfold subscribe, subscribers, handlers_of. destruct s as [t h]. cbn [fst snd].
  destruct (decide (t = topic)) as [->|Hne].
  - rewrite lookup_insert_eq, filter_cons_True by done. done.
  - rewrite lookup_insert_ne, filter_cons_False by done. cbn. by rewrite app_nil_r.
Qed.

Lemma subscribers_app topic l1 l2 : subscribers topic (l1 ++ l2) = subscribers topic l1 ++ subscribers topic l2.
Proof. unfold subscribers. by rewrite filter_app, fmap_app. Qed.

Lemma handlers_of_subscribed m subs topic :
  handlers_of (foldl subscribe m subs) topic = handlers_of m topic ++ subscribers topic subs.
Proof.
  revert m. induction subs as [|s subs IH]; intros m; cbn [foldl].
  - unfold subscribers. cbn. by rewrite app_nil_r.
  - rewrite IH, handlers_of_subscribe, <- app_assoc. f_equal. by rewrite <- subscribers_app.
Qed.

Lemma subscribed_keys m subs topic :
  is_Some (foldl subscribe m subs !! topic) <-> is_Some (m !! topic) \/ topic ∈ subs.*1.
Proof.
  revert m. induction subs as [|[t h] subs IH]; intros m; cbn [foldl].
  - rewrite elem_of_nil. tauto.
  - rewrite IH. unfold subscribe. cbn [fst snd]. rewrite lookup_insert_is_Some', fmap_cons, elem_of_cons. cbn.
    split; intuition congruence.
Qed.

(** ** The worker *)

(** What holds of every worker: options within their bounds, the topics it
    claims sorted, each once, each with its handlers, and time to renew a lease
    three times before it runs out. *)
Record worker_ok (w : OutboxWorker) : Prop := {
  worker_options_ok : options_ok (Worker_options w);
  worker_topics_sorted : StronglySorted string_le (Worker_topics w);
  worker_topics_distinct : NoDup (Worker_topics w);
  worker_topics_count : (1 <= length (Worker_topics w) <= 64)%nat;
  worker_topic_ok : Forall topic_ok (Worker_topics w);
  worker_topic_trimmed : Forall (fun t => TrimSpace t = t) (Worker_topics w);
  worker_topic_handlers : forall t, t ∈ Worker_topics w <-> handlers_of (Worker_handlers w) t <> [];
  worker_heartbeat :
    let lease := Options_LeaseSeconds (Worker_options w) in 3 * heartbeat_interval lease <= lease * Second;
}.

(** What a worker can be built from. *)
Definition buildable (hasStore : bool) (handlers : list OutboxHandler) (options : OutboxWorkerOptions) : Prop :=
  hasStore = true /\ handlers <> [] /\ options_ok (with_defaults options) /\ Forall handler_ok handlers /\
  (size (list_to_set (subscriptions handlers).*1 : gset string) <= 64)%nat.

#[export] Instance string_le_total : Total string_le.
Proof. intros a b. unfold string_le. destruct (String.leb_total a b); auto. Qed.
#[export] Instance string_le_trans : Transitive string_le.
Proof.
  intros a b c Hab Hbc. apply Is_true_true. unfold string_le in *. apply Is_true_true in Hab, Hbc.
  by etrans.
Qed.
#[export] Instance string_le_antisym : AntiSymm (=) string_le.
Proof. intros a b. apply String.leb_antisym. Qed.

Lemma sort_strings_sorted l : StronglySorted string_le (sort_strings l).
Proof. apply (StronglySorted_merge_sort string_le). Qed.

(** The order a map is ranged over does not show in its sorted keys. *)
Lemma sorted_keys `{RangeOrder} {A} (m : gmap string A) :
  sort_strings (range m).*1 = sort_strings (map_to_list m).*1.
Proof.
  apply (StronglySorted_unique string_le); [apply sort_strings_sorted..|].
  by rewrite !sort_strings_perm, range_perm.
Qed.

(** The topics declared are the keys the handlers are filed under. *)
Lemma size_subscribed handlers :
  size (foldl subscribe ∅ (subscriptions handlers)) =
  size (list_to_set (subscriptions handlers).*1 : gset string).
Proof.
  rewrite <- size_dom. f_equal. apply leibniz_equiv. intros t.
  rewrite elem_of_dom, subscribed_keys, elem_of_list_to_set, lookup_empty, is_Some_alt. tauto.
Qed.

Lemma subscribed_ok handlers t :
  Forall handler_ok handlers -> t ∈ (subscriptions handlers).*1 -> topic_ok t /\ TrimSpace t = t.
Proof.
  unfold handler_ok, subscriptions. rewrite Forall_forall. intros Hall Ht.
  apply list_elem_of_fmap in Ht as ([t' h] & -> & Ht). apply list_elem_of_bind in Ht as (h' & Ht & Hh').
  apply list_elem_of_fmap in Ht as (topic & [= -> ->] & Ht).
  destruct (Hall _ Hh') as [_ Hok]. rewrite Forall_forall in Hok. cbn. split; [by apply Hok|apply TrimSpace_idem].
Qed.

Lemma range_keys `{RangeOrder} {A} (m : gmap string A) t : t ∈ sort_strings (range m).*1 <-> is_Some (m !! t).
Proof.
  rewrite elem_of_sort_strings, list_elem_of_fmap. split.
  - intros ([t' a] & -> & Hin%elem_of_range). by exists a.
  - intros [a Ha]. exists (t, a). by rewrite elem_of_range.
Qed.

(** A topic is filed exactly when it has a handler. *)
Lemma subscribed_handlers subs t :
  is_Some (foldl subscribe ∅ subs !! t) <-> handlers_of (foldl subscribe ∅ subs) t <> [].
Proof.
  split.
  - intros Hs E. rewrite handlers_of_subscribed in E. apply subscribed_keys in Hs as [Hs|Hs].
    { rewrite lookup_empty in Hs. by apply is_Some_None in Hs. }
    apply app_nil in E as [_ E]. apply fmap_nil_inv in E.
    apply list_elem_of_fmap in Hs as (s & -> & Hs). by eapply (filter_nil_not_elem_of _ _ s) in E.
  - unfold handlers_of. destruct (_ !! t); [by eauto|done].
Qed.

Lemma worker_well_formed `{RangeOrder} handlers options :
  buildable true handlers options ->
  worker_ok {| Worker_handlers := foldl subscribe ∅ (subscriptions handlers);
               Worker_topics := sort_strings (range (foldl subscribe ∅ (subscriptions handlers))).*1;
               Worker_options := with_defaults options |}.
Proof.
  intros (_ & Hne & Hopt & Hall & Hsize).
  set (m := foldl subscribe ∅ (subscriptions handlers)).
  assert (forall t, is_Some (m !! t) <-> t ∈ (subscriptions handlers).*1) as Hin.
  { intros t. unfold m. rewrite subscribed_keys, lookup_empty, is_Some_alt. tauto. }
  constructor; cbn.
  - done.
  - apply sort_strings_sorted.
  - rewrite sort_strings_perm. apply NoDup_fst_range.
  - rewrite sort_strings_perm, length_fmap, range_length. rewrite <- size_subscribed in Hsize. split; [|done].
    destruct handlers as [|h handlers]; [done|]. apply Forall_cons in Hall as [[Ht _] _].
    apply Nat.neq_0_lt_0. intros Hz%map_size_empty_inv. specialize (Hin (TrimSpace (hd "" (Topics h)))).
    fold m in Hz. rewrite Hz, lookup_empty, is_Some_alt, (subscriptions_cons h handlers), fmap_app, elem_of_app,
      subscriptions_one in Hin. apply Hin. left. destruct (Topics h) as [|t ts]; [done|]. cbn. set_solver.
  - apply Forall_forall. intros t Ht%range_keys%Hin. by eapply subscribed_ok.
  - apply Forall_forall. intros t Ht%range_keys%Hin. by eapply subscribed_ok.
  - intros t. rewrite range_keys. apply subscribed_handlers.
  - by apply (heartbeat_in_lease (with_defaults options)).
Qed.

(** C29: a worker can be built exactly from a store, options that are within
    their bounds once the defaults are filled in, and at least one handler,
    none nil, each declaring topics of 1 to 255 bytes once trimmed, at most 64
    different ones in all.  The worker then runs with those options (which the
    same check leaves as they are), renews a lease at least three times before
    it runs out, and claims its topics in order, each once and trimmed,
    whatever the order Go ranges over the map; every topic has the handlers
    that declared it, in the order they were given. *)
Theorem NewOutboxWorker_well_formed `{RangeOrder} hasStore handlers options w :
  NewOutboxWorker hasStore handlers options = Ok w <->
  exists given, handlers = Some <$> given /\ buildable hasStore given options /\ worker_ok w /\
    normalized (Worker_options w) = Ok (Worker_options w) /\ Worker_options w = with_defaults options /\
    Worker_handlers w = foldl subscribe ∅ (subscriptions given) /\
    (forall t, handlers_of (Worker_handlers w) t = subscribers t (subscriptions given)).
Proof.
  unfold NewOutboxWorker. split.
  - destruct hasStore; [|discriminate]. cbn [negb]. destruct handlers as [|h0 hs]; [discriminate|].
    rewrite bind_Ok. intros (o & (-> & Ho)%normalized_Ok & Hw).
    apply bind_Ok in Hw as (m & (given & Eg & Hall & ->)%add_handlers_Ok & Hw).
    destruct (_ <? _)%nat eqn:Hsize in Hw; [discriminate|]. injection Hw as <-. apply Nat.ltb_ge in Hsize.
    rewrite size_subscribed in Hsize. exists given.
    assert (buildable true given options) as Hb. { split_and!; try done. by intros ->. }
    split_and!; try done; [by apply worker_well_formed| |].
    + apply normalized_Ok. cbn. by rewrite (with_defaults_fixed (with_defaults options)).
    + intros t. cbn. rewrite handlers_of_subscribed. done.
  - intros (given & -> & (-> & Hne & Ho & Hall & Hsize) & Hok & _ & Hopt & Hm & _). cbn [negb].
    assert (fold_result add_handler ∅ (Some <$> given) = Ok (foldl subscribe ∅ (subscriptions given))) as Hf
      by (apply add_handlers_Ok; by exists given).
    rewrite (proj2 (normalized_Ok _ _) (conj eq_refl Ho)), Hf. cbn [bind].
    destruct (Some <$> given) eqn:E; [by apply fmap_nil_inv in E|].
    rewrite size_subscribed, (proj2 (Nat.ltb_ge _ _)) by done. destruct w as [m topics wo]. cbn in *. subst.
    do 2 f_equal. apply (StronglySorted_unique string_le); [apply sort_strings_sorted|by destruct Hok|].
    apply NoDup_Permutation; [rewrite sort_strings_perm; apply NoDup_fst_range|by destruct Hok|].
    intros t. rewrite range_keys, subscribed_handlers. destruct Hok as [_ _ _ _ _ _ Hh _]. cbn in Hh. by rewrite Hh.
Qed.

(** ** The retry delay *)

Lemma retry_delay_loop_eq steps delay maximum :
  1 <= delay -> maximum < 2 ^ 63 -> retry_delay_loop steps delay maximum = Z.min maximum (delay * 2 ^ Z.of_nat steps).
Proof.
  intros Hd Hm. revert delay Hd. induction steps as [|steps IH]; intros delay Hd; cbn [retry_delay_loop].
  - rewrite Z.pow_0_r. lia.
  - assert (1 <= 2 ^ Z.of_nat (S steps)) by (apply (Z.pow_le_mono_r 2 0); lia).
    destruct (delay <? maximum) eqn:E1; [|nia].
    destruct (delay >? maximum ÷ 2) eqn:E2.
    + assert (2 ^ 1 <= 2 ^ Z.of_nat (S steps)) by (apply Z.pow_le_mono_r; lia).
      pose proof (Z.quot_rem' maximum 2). pose proof (Z.rem_bound_pos maximum 2). nia.
    + assert (delay * 2 <= maximum) by (pose proof (Z.quot_rem' maximum 2); pose proof (Z.rem_bound_pos maximum 2); lia).
      rewrite wrap64_fits by (unfold fits64; lia). rewrite IH by lia.
      replace (Z.of_nat (S steps)) with (1 + Z.of_nat steps) by lia.
      rewrite Z.pow_add_r by lia. f_equal. lia.
Qed.

(** The delay before a failed event is tried again doubles with every
    attempt from the base delay up to the maximum: it is exactly
    [min(maximum, base * 2^(attempt-1))], an attempt below one counting as
    one.  With the options of a worker nothing overflows, whatever the attempt
    count, and the delay stays between the base and a day. *)
Theorem boundedOutboxRetryDelay_exact o attempt :
  options_ok o ->
  let delay := boundedOutboxRetryDelay (Options_RetryDelaySeconds o) (Options_MaxRetryDelaySeconds o) attempt in
  delay = Z.min (Options_MaxRetryDelaySeconds o) (Options_RetryDelaySeconds o * 2 ^ Z.max 0 (attempt - 1)) /\
  Options_RetryDelaySeconds o <= delay <= 86400.
Proof.
  intros []. cbn zeta. unfold boundedOutboxRetryDelay. rewrite retry_delay_loop_eq, Z2Nat.id by lia.
  replace (Z.max attempt 1 - 1) with (Z.max 0 (attempt - 1)) by lia. split; [done|].
  assert (1 <= 2 ^ Z.max 0 (attempt - 1)) by (apply (Z.pow_le_mono_r 2 0); lia). nia.
Qed.

Definition default_options : OutboxWorkerOptions :=
  with_defaults {| Options_BatchSize := 0; Options_Concurrency := 0; Options_LeaseSeconds := 0;
    Options_PollInterval := 0; Options_RetryDelaySeconds := 0; Options_MaxRetryDelaySeconds := 0;
    Options_AttemptLimit := 0; Options_OnError := false; Options_OnEventOutcome := true |}.

Lemma default_options_ok : options_ok default_options.
Proof. constructor; vm_compute; repeat split; discriminate. Qed.

Lemma boundedOutboxRetryDelay_exact_witness :
  boundedOutboxRetryDelay 30 3600 8 = 3600 /\ boundedOutboxRetryDelay 30 3600 7 = 1920.
Proof.
  split; [exact (proj1 (boundedOutboxRetryDelay_exact default_options 8 default_options_ok))|].
  exact (proj1 (boundedOutboxRetryDelay_exact default_options 7 default_options_ok)).
Defined.

(** ** Diagnostic summaries *)

Lemma code_char_facts c :
  is_code_char c = true ->
  ascii_space c = false /\ byte_of c < 128 /\ utf8_first (byte_of c) = None /\ negb (Ascii.eqb c ":") = true.
Proof. destruct c as [[] [] [] [] [] [] [] []]; vm_compute; try discriminate; intros _; split_and!; reflexivity. Qed.

Lemma all_chars_Forall p s : all_chars p s = true <-> Forall (fun c => p c = true) (list_ascii_of_string s).
Proof. induction s as [|c s IH]; cbn; [done|]. by rewrite andb_true_iff, Forall_cons, IH. Qed.

Lemma all_chars_impl (p q : ascii -> bool) s :
  (forall c, p c = true -> q c = true) -> all_chars p s = true -> all_chars q s = true.
Proof. rewrite !all_chars_Forall. intros Hpq Hp. by eapply Forall_impl. Qed.

(** Text of code characters is left alone by the steps of the sanitizer. *)
Lemma leading_space_code wide c l :
  Forall (fun w => 128 <= hd 0 w) wide -> is_code_char c = true -> leading_space wide (c :: l) = 0%nat.
Proof.
  intros Hwide (Hs & Hb & _)%code_char_facts. unfold leading_space. rewrite Hs.
  destruct (list_find _ wide) as [[i w]|] eqn:Hf; [|done].
  apply list_find_Some in Hf as (Hi & Hw & _). rewrite Forall_forall in Hwide.
  specialize (Hwide w (list_elem_of_lookup_2 _ _ _ Hi)). rewrite <- Hw in Hwide.
  destruct (length w); cbn in Hwide; lia.
Qed.

Lemma trim_left_code wide fuel l :
  Forall (fun w => 128 <= hd 0 w) wide -> Forall (fun c => is_code_char c = true) l -> trim_left wide fuel l = l.
Proof.
  intros Hwide Hl. apply trim_left_done. destruct l as [|c l]; [done|].
  apply Forall_cons in Hl as [Hc _]. by apply leading_space_code.
Qed.

Lemma TrimSpace_code s : all_chars is_code_char s = true -> TrimSpace s = s.
Proof.
  rewrite all_chars_Forall, TrimSpace_eq. intros Hs. cbn zeta.
  rewrite trim_left_code by (try done; vm_compute; repeat constructor; discriminate).
  unfold trim_right. rewrite trim_left_code; [by rewrite rev_involutive, string_of_list_ascii_of_string| |].
  - vm_compute. repeat constructor; discriminate.
  - by apply Forall_rev.
Qed.

Lemma runes_of_code fuel l :
  (length l <= fuel)%nat -> Forall (fun c => is_code_char c = true) l -> runes_of fuel l = (fun c => [c]) <$> l.
Proof.
  revert l. induction fuel as [|fuel IH]; intros [|c l] Hl Hc; cbn in Hl; try lia; [done..|].
  apply Forall_cons in Hc as [(_ & _ & Hu & _)%code_char_facts Hc].
  assert (rune_width (c :: l) = 1%nat) as Hw by (cbn; by rewrite Hu).
  transitivity (firstn (rune_width (c :: l)) (c :: l) :: runes_of fuel (skipn (rune_width (c :: l)) (c :: l))); [done|].
  rewrite Hw. cbn [firstn skipn]. rewrite fmap_cons. f_equal. apply IH; [lia|done].
Qed.

Lemma sanitize_loop_code builder l :
  (String.length builder + length l <= 128)%nat -> Forall (fun c => is_code_char c = true) l ->
  sanitize_loop builder ((fun c => [c]) <$> l) = builder +:+ string_of_list_ascii l.
Proof.
  revert builder. induction l as [|c l IH]; intros builder Hl Hc; [cbn; by rewrite string_app_nil|].
  rewrite fmap_cons. cbn [sanitize_loop string_of_list_ascii]. apply Forall_cons in Hc as [Hc Hc']. cbn in Hl. rewrite (proj2 (Nat.leb_gt _ _)) by lia.
  rewrite Hc, IH; [by rewrite string_app_assoc| |done]. rewrite length_append. cbn. lia.
Qed.

Lemma matches_diagnostic_code_chars s :
  matches_diagnostic_code s = true -> all_chars is_code_char s = true /\ (1 <= String.length s <= 128)%nat.
Proof.
  destruct s as [|c s]; cbn; [done|]. rewrite !andb_true_iff, Nat.leb_le. intros [[Hc Hs] Hl].
  split; [|lia]. split; [|done]. unfold is_code_char. by rewrite Hc.
Qed.

(** A safe code is kept as it is. *)
Lemma sanitizeDiagnosticCode_code value fallback :
  matches_diagnostic_code value = true -> sanitizeDiagnosticCode value fallback = value.
Proof.
  intros Hm. destruct (matches_diagnostic_code_chars _ Hm) as [Hc [_ Hl]].
  unfold sanitizeDiagnosticCode, runes. rewrite TrimSpace_code by done. apply all_chars_Forall in Hc.
  rewrite runes_of_code, sanitize_loop_code by (try done; cbn; by rewrite ?length_list_ascii).
  rewrite append_nil, string_of_list_ascii_of_string. cbn zeta. by rewrite Hm.
Qed.

Lemma sanitizeDiagnosticCode_safe value fallback :
  matches_diagnostic_code fallback = true -> matches_diagnostic_code (sanitizeDiagnosticCode value fallback) = true.
Proof. unfold sanitizeDiagnosticCode. by destruct (matches_diagnostic_code (sanitize_loop _ _)) eqn:E. Qed.

(** The code a summary names for an error. *)
Definition diagnostic_of (err : option error) : string :=
  match err with
  | None => "UnknownError"
  | Some err =>
      match AsBursarError err with
      | Some b => if matches_diagnostic_code (error_code b) then error_code b else "Error"
      | None => "Error"
      end
  end.

Lemma diagnostic_of_safe err : matches_diagnostic_code (diagnostic_of err) = true.
Proof.
  unfold diagnostic_of. destruct err as [err|]; [|done]. destruct (AsBursarError err) as [e|]; [|done].
  by destruct (matches_diagnostic_code (error_code e)) eqn:E.
Qed.

Lemma code_no_colon s :
  matches_diagnostic_code s = true -> all_chars (fun c => negb (Ascii.eqb c ":")) s = true.
Proof.
  intros [Hs _]%matches_diagnostic_code_chars. eapply all_chars_impl, Hs. intros c Hc.
  by apply code_char_facts in Hc as (_ & _ & _ & Hc).
Qed.

(** [strings.Split] undone. *)
Lemma Split_nonempty s sep : Split s sep <> [].
Proof. destruct s as [|c s]; cbn; [done|]. destruct (Ascii.eqb c sep); [done|]. by destruct (Split s sep). Qed.

Lemma Split_one s sep b : Split s sep = [b] -> s = b.
Proof.
  revert b. induction s as [|c s IH]; intros b; cbn [Split]; [by intros [= <-]|].
  destruct (Ascii.eqb c sep); [intros [= _ E]; by apply Split_nonempty in E|].
  destruct (Split s sep) as [|x xs] eqn:E; [by apply Split_nonempty in E|]. intros [= <- ->]. f_equal. by apply IH.
Qed.

Lemma Split_two s sep a b : Split s sep = [a; b] -> s = a +:+ String sep b.
Proof.
  revert a. induction s as [|c s IH]; intros a; cbn [Split]; [done|].
  destruct (Ascii.eqb_spec c sep) as [->|_].
  - intros [= <- Hs%Split_one]. by subst.
  - destruct (Split s sep) as [|x xs] eqn:E; [done|]. intros [= <- ->]. rewrite append_cons. f_equal. by apply IH.
Qed.

(** What may be stored about a failure is exactly two safe diagnostic
    codes, a letter and at most 127 more code characters each, joined by a
    colon.  Every summary the SDK makes passes that check and so is at most
    257 bytes: the operation it names is the one given, when that is a code,
    and all it reveals of the error is its Bursar code, when that is a code,
    never its message. *)
Theorem persistedDiagnosticSummary_safe err operation :
  (forall value stored,
     validatePersistedDiagnosticSummary value = Ok stored <->
     stored = value /\ exists a b, value = a +:+ ":" +:+ b /\
       matches_diagnostic_code a = true /\ matches_diagnostic_code b = true) /\
  let summary := persistedDiagnosticSummary err operation in
  validatePersistedDiagnosticSummary summary = Ok summary /\
  (String.length summary <= 257)%nat /\
  (matches_diagnostic_code operation = true -> summary = operation +:+ ":" +:+ diagnostic_of err).
Proof.
  assert (forall a b, matches_diagnostic_code a = true -> matches_diagnostic_code b = true ->
    validatePersistedDiagnosticSummary (a +:+ ":" +:+ b) = Ok (a +:+ ":" +:+ b)) as Hvalid.
  { intros a b Ha Hb. unfold validatePersistedDiagnosticSummary. change (":" +:+ b) with (String ":" b).
    rewrite Split_app, Split_none by (by apply code_no_colon). by rewrite Ha, Hb. }
  assert (matches_diagnostic_code (sanitizeDiagnosticCode operation "operation_failed") = true) as Hop
    by (by apply sanitizeDiagnosticCode_safe).
  split; [|cbn zeta; split_and!].
  - intros value stored. split.
    + unfold validatePersistedDiagnosticSummary. destruct (Split value ":") as [|a [|b []]] eqn:E; try discriminate.
      destruct (_ && _) eqn:Hm; [|discriminate]. intros [= <-]. apply andb_true_iff in Hm as [Ha Hb].
      split; [done|]. exists a, b. split; [by apply Split_two|done].
    + intros (-> & a & b & -> & Ha & Hb). by apply Hvalid.
  - apply Hvalid; [done|apply diagnostic_of_safe].
  - unfold persistedDiagnosticSummary. fold (diagnostic_of err). rewrite !length_append.
    apply matches_diagnostic_code_chars in Hop. pose proof (diagnostic_of_safe err) as Hc.
    apply matches_diagnostic_code_chars in Hc. cbn. lia.
  - intros Hcode. unfold persistedDiagnosticSummary. by rewrite sanitizeDiagnosticCode_code.
Qed.
