(* ===== verification/OutboxDispatch.v ===== *)
(** * outbox_worker.go, lines 437-613: the delivery of events

    [dispatchEvent] runs the handlers of an event and the heartbeat of its
    lease in goroutines of their own and settles the event when they are
    done; [dispatchOnce] claims events in rounds and dispatches those of a
    round at once.  Both are transition systems: a state says what each
    goroutine is doing and what its channels hold. *)

From S2P Require Export Effects OutboxFacts.
Local Open Scope Z_scope.
Local Open Scope go_scope.

(** ** Calls *)

(** What a handler's goroutine ends with. *)
Inductive handled :=
  | Returned (err : option error)
  | Panicked.

Section calls.
Context {D : Type}.

Inductive call :=
  | Claim (topics : list string) (available leaseSeconds : Z)
  | Renew (event : OutboxEvent D) (leaseSeconds : Z)
  | Complete (event : OutboxEvent D)
  | Fail (event : OutboxEvent D) (summary : string) (delay attemptLimit : Z)
  | Handle (handler : OutboxHandler) (event : OutboxEvent D)
  | OnEventOutcome (outcome : OutboxEventOutcome).

Definition answer (c : call) : Type :=
  match c with
  | Claim _ _ _ => result (list (OutboxEvent D))
  | Renew _ _ | Complete _ | Fail _ _ _ _ => result bool
  | Handle _ _ => handled
  | OnEventOutcome _ => unit
  end.
End calls.
Arguments call : clear implicits.

Section dispatch.
Context {D : Type}.
Implicit Types (w : OutboxWorker) (event : OutboxEvent D).
#[local] Notation prog := (prog (@answer D)).
#[local] Notation label := (label (@answer D)).
Notation "c ↦ x" := (existT c x : event (@answer D)) (at level 60).

(** [if err != nil || !ok] *)
Definition refused (answered : result bool) : bool := match answered with Ok true => false | _ => true end.
Definition error_of {A} (answered : result A) : option error :=
  match answered with Err e => Some e | Ok _ => None end.

(** ** Settling an event: the end of dispatchEvent *)

(** A panic of the callback is recovered. *)
Definition reportOutcome w (outcome : OutboxEventOutcome) : prog unit :=
  if Options_OnEventOutcome (Worker_options w) then Do (OnEventOutcome outcome) (fun _ => ret tt) else ret tt.

Definition claimLost w event (phase : OutboxClaimLossPhase) (summary : string) : prog OutboxEventOutcomeStatus :=
  let summary := if summary =? "" then persistedDiagnosticSummary None "outbox_claim_lost" else summary in
  reportOutcome w
    {| OutboxEventOutcome_Topic := OutboxEvent_Topic event;
       OutboxEventOutcome_AttemptCount := OutboxEvent_AttemptCount event;
       OutboxEventOutcome_Status := OutboxOutcomeClaimLost; OutboxEventOutcome_Summary := Some summary;
       OutboxEventOutcome_RetryDelaySeconds := None; OutboxEventOutcome_DeadLettered := false;
       OutboxEventOutcome_ClaimLossPhase := Some phase |} ;;~
  ret OutboxOutcomeClaimLost.

Definition failDelivery w event (deliveryErr : error) : prog OutboxEventOutcomeStatus :=
  let summary := persistedDiagnosticSummary (Some deliveryErr) "outbox_delivery_failed" in
  let options := Worker_options w in
  let delay := boundedOutboxRetryDelay (Options_RetryDelaySeconds options) (Options_MaxRetryDelaySeconds options)
                 (OutboxEvent_AttemptCount event) in
  Do (Fail event summary delay (Options_AttemptLimit options)) (fun answered =>
    if refused answered then
      let claimSummary :=
        match error_of answered with
        | Some err => persistedDiagnosticSummary (Some err) "outbox_claim_lost"
        | None => summary
        end in
      claimLost w event OutboxClaimLossFail claimSummary
    else
      reportOutcome w
        {| OutboxEventOutcome_Topic := OutboxEvent_Topic event;
           OutboxEventOutcome_AttemptCount := OutboxEvent_AttemptCount event;
           OutboxEventOutcome_Status := OutboxOutcomeDeliveryFailed; OutboxEventOutcome_Summary := Some summary;
           OutboxEventOutcome_RetryDelaySeconds := Some delay;
           OutboxEventOutcome_DeadLettered := OutboxEvent_AttemptCount event >=? Options_AttemptLimit options;
           OutboxEventOutcome_ClaimLossPhase := None |} ;;~
      ret OutboxOutcomeDeliveryFailed).

(** From the answer of [heartbeat.stop()] on: a lost claim has its summary. *)
Definition settle w event (lost : option string) (deliveryErr : option error) : prog OutboxEventOutcomeStatus :=
  match lost, deliveryErr with
  | Some summary, _ => claimLost w event OutboxClaimLossHeartbeat summary
  | None, Some err => failDelivery w event err
  | None, None =>
      Do (Complete event) (fun answered =>
        if refused answered
        then claimLost w event OutboxClaimLossComplete
               (persistedDiagnosticSummary (error_of answered) "outbox_claim_lost")
        else
          reportOutcome w
            {| OutboxEventOutcome_Topic := OutboxEvent_Topic event;
               OutboxEventOutcome_AttemptCount := OutboxEvent_AttemptCount event;
               OutboxEventOutcome_Status := OutboxOutcomeDelivered; OutboxEventOutcome_Summary := None;
               OutboxEventOutcome_RetryDelaySeconds := None; OutboxEventOutcome_DeadLettered := false;
               OutboxEventOutcome_ClaimLossPhase := None |} ;;~
          ret OutboxOutcomeDelivered)
  end.

(** ** One event: dispatchEvent with its goroutines *)

Definition invokeOutboxHandler (h : handled) : option error :=
  match h with
  | Returned err => err
  | Panicked => Some (ExternalError "outbox handler panicked")
  end.

(** The heartbeat's goroutine: in its select, in a call to Renew, or done. *)
Inductive outboxHeartbeat :=
  | Beating
  | Renewing
  | Lost (summary : string)
  | Ended.

(** The goroutine of dispatchEvent: before [heartbeat.stop()] has returned,
    or settling the event. *)
Inductive stage :=
  | Waiting
  | Settling (p : prog OutboxEventOutcomeStatus).

(** [running] are the handlers that have not returned, [failures] what the
    channel of that name holds, [awaited] the receives to come and [stopping]
    whether stopCh is closed. *)
Record delivery := {
  delivery_event : OutboxEvent D;
  running : list OutboxHandler;
  failures : list (option error);
  awaited : nat;
  deliveryErr : option error;
  heartbeat : outboxHeartbeat;
  stopping : bool;
  at_stage : stage;
}.

(** The event's handlers and its heartbeat have been started. *)
Definition dispatchEvent w event : delivery :=
  let handlers := handlers_of (Worker_handlers w) (OutboxEvent_Topic event) in
  {| delivery_event := event; running := handlers; failures := []; awaited := length handlers;
     deliveryErr := match handlers with [] => Some (ExternalError "outbox topic has no handler") | _ => None end;
     heartbeat := Beating; stopping := false; at_stage := Waiting |}.

(** [if err := <-failures; err != nil && deliveryErr == nil] *)
Definition first_error (deliveryErr err : option error) : option error :=
  match deliveryErr with Some _ => deliveryErr | None => err end.

Definition with_heartbeat (b : outboxHeartbeat) (d : delivery) : delivery :=
  {| delivery_event := delivery_event d; running := running d; failures := failures d; awaited := awaited d;
     deliveryErr := deliveryErr d; heartbeat := b; stopping := stopping d; at_stage := at_stage d |}.
Definition with_stage (g : stage) (d : delivery) : delivery :=
  {| delivery_event := delivery_event d; running := running d; failures := failures d; awaited := awaited d;
     deliveryErr := deliveryErr d; heartbeat := heartbeat d; stopping := stopping d; at_stage := g |}.

(** The heartbeat's goroutine, in newOutboxHeartbeat.  Its select takes any
    case that is ready; the context may be cancelled, with an error of its
    own, at any time. *)
Inductive heartbeat_step w event (stopping : bool) : outboxHeartbeat -> label -> outboxHeartbeat -> Prop :=
  | heartbeat_ends : stopping = true -> heartbeat_step w event stopping Beating Internal Ended
  | heartbeat_cancelled err :
      heartbeat_step w event stopping Beating Internal
        (Lost (persistedDiagnosticSummary (Some err) "outbox_claim_lost"))
  | heartbeat_ticks : heartbeat_step w event stopping Beating Tick Renewing
  | heartbeat_renews answered :
      heartbeat_step w event stopping Renewing
        (Called (Renew event (Options_LeaseSeconds (Worker_options w)) ↦ answered))
        (if refused answered
         then Lost (persistedDiagnosticSummary (error_of answered) "outbox_claim_lost")
         else Beating).

(** dispatchEvent, the goroutines of its handlers and that of its heartbeat. *)
Inductive delivery_step w : delivery -> label -> delivery -> Prop :=
  | handler_returns d before h after x :
      running d = before ++ h :: after ->
      delivery_step w d (Called (Handle h (delivery_event d) ↦ x))
        {| delivery_event := delivery_event d; running := before ++ after;
           failures := failures d ++ [invokeOutboxHandler x]; awaited := awaited d;
           deliveryErr := deliveryErr d; heartbeat := heartbeat d; stopping := stopping d; at_stage := at_stage d |}
  | heartbeat_steps d l b :
      heartbeat_step w (delivery_event d) (stopping d) (heartbeat d) l b -> delivery_step w d l (with_heartbeat b d)
  | failure_received d err rest n :
      at_stage d = Waiting -> failures d = err :: rest -> awaited d = S n ->
      delivery_step w d Internal
        {| delivery_event := delivery_event d; running := running d; failures := rest; awaited := n;
           deliveryErr := first_error (deliveryErr d) err; heartbeat := heartbeat d; stopping := stopping d;
           at_stage := at_stage d |}
  | heartbeat_stop d :
      at_stage d = Waiting -> awaited d = 0%nat -> stopping d = false ->
      delivery_step w d Internal
        {| delivery_event := delivery_event d; running := running d; failures := failures d; awaited := awaited d;
           deliveryErr := deliveryErr d; heartbeat := heartbeat d; stopping := true; at_stage := at_stage d |}
  | heartbeat_joined d lost :
      at_stage d = Waiting -> stopping d = true ->
      match heartbeat d with Ended => lost = None | Lost summary => lost = Some summary | _ => False end ->
      delivery_step w d Internal (with_stage (Settling (settle w (delivery_event d) lost (deliveryErr d))) d)
  | settling_calls d c k x :
      at_stage d = Settling (Do c k) -> delivery_step w d (Called (c ↦ x)) (with_stage (Settling (k x)) d).

(** dispatchEvent has returned. *)
Definition returned (d : delivery) : option OutboxEventOutcomeStatus :=
  match at_stage d with Settling (Done (Ok status)) => Some status | _ => None end.

(** ** A pass: dispatchOnce *)

(** dispatchOnce itself: at the head of its loop, collecting what is left of
    the outcomes of a round, or back with its error. *)
Inductive pass_stage :=
  | AtLoop
  | Collecting (available claimed : Z) (expected : nat)
  | Back (err : option error).

Record pass := {
  pass_result : OutboxRunResult;
  remaining : Z;
  deliveries : list delivery;
  outcomes : list OutboxEventOutcomeStatus;
  at_pass : pass_stage;
}.

Definition dispatchOnce w : pass :=
  {| pass_result := {| OutboxRunResult_Claimed := 0; OutboxRunResult_Delivered := 0;
                       OutboxRunResult_Failed := 0; OutboxRunResult_ClaimLost := 0 |};
     remaining := Options_BatchSize (Worker_options w); deliveries := []; outcomes := []; at_pass := AtLoop |}.

Definition count (r : OutboxRunResult) (outcome : OutboxEventOutcomeStatus) : OutboxRunResult :=
  match outcome with
  | OutboxOutcomeDelivered =>
      {| OutboxRunResult_Claimed := OutboxRunResult_Claimed r;
         OutboxRunResult_Delivered := OutboxRunResult_Delivered r + 1;
         OutboxRunResult_Failed := OutboxRunResult_Failed r; OutboxRunResult_ClaimLost := OutboxRunResult_ClaimLost r |}
  | OutboxOutcomeDeliveryFailed =>
      {| OutboxRunResult_Claimed := OutboxRunResult_Claimed r;
         OutboxRunResult_Delivered := OutboxRunResult_Delivered r;
         OutboxRunResult_Failed := OutboxRunResult_Failed r + 1;
         OutboxRunResult_ClaimLost := OutboxRunResult_ClaimLost r |}
  | OutboxOutcomeClaimLost =>
      {| OutboxRunResult_Claimed := OutboxRunResult_Claimed r;
         OutboxRunResult_Delivered := OutboxRunResult_Delivered r;
         OutboxRunResult_Failed := OutboxRunResult_Failed r + 1;
         OutboxRunResult_ClaimLost := OutboxRunResult_ClaimLost r + 1 |}
  end.

Definition add_claimed (n : Z) (r : OutboxRunResult) : OutboxRunResult :=
  {| OutboxRunResult_Claimed := OutboxRunResult_Claimed r + n;
     OutboxRunResult_Delivered := OutboxRunResult_Delivered r;
     OutboxRunResult_Failed := OutboxRunResult_Failed r; OutboxRunResult_ClaimLost := OutboxRunResult_ClaimLost r |}.

Definition too_many_events (n available : Z) : error :=
  NewStoreError ("outbox store returned " +:+ itoa n +:+ " events for " +:+ itoa available +:+ " available slots")
    (error_options "" "" None).

Definition with_pass (g : pass_stage) (p : pass) : pass :=
  {| pass_result := pass_result p; remaining := remaining p; deliveries := deliveries p; outcomes := outcomes p;
     at_pass := g |}.

(** The pass after [store.Claim]; the goroutines of the round before have all
    returned. *)
Definition claimed w (p : pass) (available : Z) (answered : result (list (OutboxEvent D))) : pass :=
  match answered with
  | Err err => with_pass (Back (Some err)) p
  | Ok [] => with_pass (Back None) p
  | Ok events =>
      let n := Z.of_nat (length events) in
      if n >? available then with_pass (Back (Some (too_many_events n available))) p
      else {| pass_result := add_claimed n (pass_result p); remaining := remaining p - n;
              deliveries := dispatchEvent w <$> events; outcomes := [];
              at_pass := Collecting available n (length events) |}
  end.

Inductive pass_step w : pass -> label -> pass -> Prop :=
  | loop_claims p answered :
      at_pass p = AtLoop -> 0 < remaining p ->
      let available := Z.min (Options_Concurrency (Worker_options w)) (remaining p) in
      pass_step w p
        (Called (Claim (Worker_topics w) available (Options_LeaseSeconds (Worker_options w)) ↦ answered))
        (claimed w p available answered)
  | loop_ends p : at_pass p = AtLoop -> remaining p <= 0 -> pass_step w p Internal (with_pass (Back None) p)
  | delivery_steps p before d after l d' :
      deliveries p = before ++ d :: after -> delivery_step w d l d' ->
      pass_step w p l
        {| pass_result := pass_result p; remaining := remaining p; deliveries := before ++ d' :: after;
           outcomes := outcomes p; at_pass := at_pass p |}
  | delivery_returns p before d after status :
      deliveries p = before ++ d :: after -> returned d = Some status ->
      pass_step w p Internal
        {| pass_result := pass_result p; remaining := remaining p; deliveries := before ++ after;
           outcomes := outcomes p ++ [status]; at_pass := at_pass p |}
  | outcome_received p available n expected outcome rest :
      at_pass p = Collecting available n (S expected) -> outcomes p = outcome :: rest ->
      pass_step w p Internal
        {| pass_result := count (pass_result p) outcome; remaining := remaining p; deliveries := deliveries p;
           outcomes := rest; at_pass := Collecting available n expected |}
  | round_ends p available n :
      at_pass p = Collecting available n 0 ->
      pass_step w p Internal (with_pass (if n <? available then Back None else AtLoop) p).
End dispatch.
Arguments stage : clear implicits.
Arguments delivery : clear implicits.
Arguments pass : clear implicits.
