(* ===== verification/OutboxDispatchFacts.v ===== *)
(** * How events are settled

    Every event a pass claims is settled once, by what its handlers and its
    lease say; a pass counts what it settled, never runs more deliveries at
    once than it may, and always returns. *)

From S2P Require Export OutboxDispatch.
Local Open Scope Z_scope.
Local Open Scope go_scope.

Section facts.
Context {D : Type} (w : OutboxWorker).
Implicit Types (event : OutboxEvent D) (d : delivery D) (p : pass D) (status : OutboxEventOutcomeStatus).
#[local] Notation prog := (prog (@answer D)).
#[local] Notation label := (label (@answer D)).
#[local] Notation call_event := (Effects.event (@answer D)).
#[local] Notation "c ↦ x" := (existT c x : call_event) (at level 60).

(** ** The programs that settle an event *)

(** The status a program is bound to end with: only the report is left. *)
Definition decided (q : prog OutboxEventOutcomeStatus) : option OutboxEventOutcomeStatus :=
  match q with
  | Done (Ok status) => Some status
  | Do (OnEventOutcome _) k => match k tt with Done (Ok status) => Some status | _ => None end
  | _ => None
  end.

Lemma decided_report outcome status :
  decided (reportOutcome w outcome ;;~ ret status) = Some status.
Proof. unfold reportOutcome. by destruct (Options_OnEventOutcome _). Qed.

Lemma decided_claimLost event phase summary : decided (claimLost w event phase summary) = Some OutboxOutcomeClaimLost.
Proof. apply decided_report. Qed.

(** What a settling goroutine can be about to do. *)
Inductive settling event : prog OutboxEventOutcomeStatus -> Prop :=
  | settling_complete : settling event (settle w event None None)
  | settling_fail err : settling event (failDelivery w event err)
  | settling_decided q status : decided q = Some status -> settling event q.

Lemma settle_settling event lost err : settling event (settle w event lost err).
Proof.
  destruct lost as [s|]; [|destruct err as [e|]].
  - eapply settling_decided, decided_claimLost.
  - apply settling_fail.
  - apply settling_complete.
Qed.

(** The status an answer of the store puts on record. *)
Definition recorded (e : call_event) : option OutboxEventOutcomeStatus :=
  match e with
  | existT (Complete _) (Ok true) => Some OutboxOutcomeDelivered
  | existT (Fail _ _ _ _) (Ok true) => Some OutboxOutcomeDeliveryFailed
  | _ => None
  end.
Definition record_of status : option OutboxEventOutcomeStatus :=
  match status with OutboxOutcomeClaimLost => None | _ => Some status end.

(** A call of a settling goroutine either decides its status, as the store's
    answer says, or comes after that. *)
Definition call_decides event (q : prog OutboxEventOutcomeStatus) : Prop :=
  match q with
  | Done r => exists status, r = Ok status
  | Do c k => forall x,
      settling event (k x) /\
      ((exists status, decided q = None /\ decided (k x) = Some status /\ recorded (c ↦ x) = record_of status) \/
       (exists status, decided q = Some status /\ k x = Done (Ok status) /\ recorded (c ↦ x) = None))
  end.

Lemma settling_call event q : settling event q -> call_decides event q.
Proof.
  assert (forall q status, decided q = Some status -> settling event q) as Hd by (intros; by eapply settling_decided).
  intros [|err|q' status Hq].
  - intros [[]|e]; cbn [refused];
      (split; [eapply Hd; apply decided_report|left; eexists; split_and!; [done|apply decided_report|done]]).
  - intros [[]|e]; cbn [refused];
      (split; [eapply Hd; apply decided_report|left; eexists; split_and!; [done|apply decided_report|done]]).
  - destruct q' as [[s|]|c k]; try discriminate Hq; [by exists s|]. destruct c; try discriminate Hq.
    intros []. cbn in Hq |- *. destruct (k tt) as [[s|]|] eqn:Ek; try discriminate Hq. injection Hq as ->.
    split; [by apply Hd with status|]. right. by exists status.
Qed.

(** ** What holds of a delivery at every moment *)

Definition heartbeat_done d : Prop := match heartbeat d with Lost _ | Ended => True | _ => False end.

(** Every handler is running, waiting in the channel or received; the
    heartbeat is stopped when all are received, and waited for. *)
Record delivery_ok d : Prop := {
  handlers_accounted : (length (running d) + length (failures d) = awaited d)%nat;
  stopping_last : stopping d = true -> awaited d = 0%nat;
  settling_last : forall q, at_stage d = Settling q ->
    awaited d = 0%nat /\ heartbeat_done d /\ settling (delivery_event d) q;
}.

Lemma dispatchEvent_ok event : delivery_ok (dispatchEvent w event).
Proof. constructor; cbn; [lia|done|done]. Qed.

(** A heartbeat that can still step has not been joined. *)
Lemma heartbeat_step_live event st b l b' :
  heartbeat_step w event st b l b' -> b = Beating \/ b = Renewing.
Proof. by intros []; [left..|right]. Qed.

(** While a handler runs, or the heartbeat does, the event is not settled. *)
Lemma running_waiting d h : delivery_ok d -> h ∈ running d -> at_stage d = Waiting.
Proof.
  intros [Hn _ Hset] Hh. destruct (at_stage d) as [|q] eqn:Hg; [done|].
  destruct (Hset q eq_refl) as [Ha _]. destruct (running d); [set_solver|cbn in Hn; lia].
Qed.

Lemma beating_waiting d l b :
  delivery_ok d -> heartbeat_step w (delivery_event d) (stopping d) (heartbeat d) l b -> at_stage d = Waiting.
Proof.
  intros [_ _ Hset] Hb%heartbeat_step_live. destruct (at_stage d) as [|q] eqn:Hg; [done|].
  destruct (Hset q eq_refl) as (_ & Hd & _). unfold heartbeat_done in Hd. by destruct Hb as [Hb|Hb]; rewrite Hb in Hd.
Qed.

Lemma delivery_step_ok d l d' : delivery_ok d -> delivery_step w d l d' -> delivery_ok d'.
Proof.
  intros Hok Hs. pose proof Hok as [Hn Hst Hset].
  destruct Hs as [d before h after x Hr|d l b Hb|d err rest n Hg Hf Ha|d Hg Ha Hstop|d lost Hg Hstop Hb|d c k x Hg];
    constructor; cbn in *; try done.
  all: try (intros q Hq; congruence).
  - rewrite Hr, length_app in Hn. rewrite !length_app. cbn in *. lia.
  - intros q Hq. pose proof (beating_waiting d l b Hok Hb). congruence.
  - rewrite Hf in Hn. cbn in Hn. lia.
  - intros Hstop. specialize (Hst Hstop). lia.
  - intros q [= <-]. split_and!; [by apply Hst| |apply settle_settling]. unfold heartbeat_done. cbn. by case_match.
  - intros q [= <-]. destruct (Hset _ Hg) as (? & ? & Hq). split_and!; [done..|].
    by apply settling_call in Hq; destruct (Hq x) as [? _].
Qed.

(** ** The calls of one delivery *)

(** A handler that returned, and with what. *)
Definition handle_of (e : call_event) : option (OutboxHandler * handled) :=
  match e with existT (Handle h _) x => Some (h, x) | _ => None end.
Definition handles (t : list call_event) : list (OutboxHandler * handled) := omap handle_of t.

(** Calls of the handlers and the heartbeat of an event. *)
Definition while_handling event (e : call_event) : Prop :=
  match e with
  | existT (Handle _ event') _ => event' = event
  | existT (Renew event' lease) _ => event' = event /\ lease = Options_LeaseSeconds (Worker_options w)
  | _ => False
  end.
(** The lease was renewed when it was asked for. *)
Definition lease_kept (e : call_event) : Prop :=
  match e with existT (Renew _ _) x => refused x = false | _ => True end.

Lemma handles_app t1 t2 : handles (t1 ++ t2) = handles t1 ++ handles t2.
Proof. apply omap_app. Qed.

(** What the trace [tr] says of the delivery [d] it led to. *)
Record history event (t1 t2 : list call_event) d : Prop := {
  same_event : delivery_event d = event;
  only_handling : Forall (while_handling event) t1;
  handlers_called : (handles t1).*1 ++ running d ≡ₚ handlers_of (Worker_handlers w) (OutboxEvent_Topic event);
  errors_received : exists received,
    invokeOutboxHandler <$> (handles t1).*2 = received ++ failures d /\
    deliveryErr d = foldl first_error (deliveryErr (dispatchEvent w event)) received;
  lease_so_far : (forall s, heartbeat d <> Lost s) -> Forall lease_kept t1;
  settled_so_far :
    match at_stage d with
    | Waiting => t2 = []
    | Settling q =>
        exists lost, match heartbeat d with Lost s => lost = Some s | _ => lost = None end /\
          reaches (settle w event lost (deliveryErr d)) t2 q
    end;
}.

Lemma history_waiting event t1 t2 d : at_stage d = Waiting -> history event t1 t2 d -> t2 = [].
Proof. intros Hg [_ _ _ _ _ Hs]. by rewrite Hg in Hs. Qed.

Lemma history_handle event t1 d before h after x :
  at_stage d = Waiting -> running d = before ++ h :: after -> history event t1 [] d ->
  history event (t1 ++ [Handle h (delivery_event d) ↦ x]) []
    {| delivery_event := delivery_event d; running := before ++ after;
       failures := failures d ++ [invokeOutboxHandler x]; awaited := awaited d;
       deliveryErr := deliveryErr d; heartbeat := heartbeat d; stopping := stopping d; at_stage := at_stage d |}.
Proof.
  intros Hg Hr [He Ho Hc [received [Hrec Herr]] Hl _]. constructor; cbn; try done.
  - apply Forall_app. split; [done|]. by constructor.
  - rewrite handles_app, fmap_app, <- Hc, Hr. cbn. rewrite <- app_assoc. cbn. by rewrite (Permutation_middle before after h).
  - exists received. rewrite handles_app, fmap_app, fmap_app, Hrec. cbn. by rewrite <- app_assoc.
  - intros Hb. apply Forall_app. split; [by apply Hl|]. by constructor.
  - by rewrite Hg.
Qed.

Lemma history_heartbeat event t1 t b d :
  at_stage d = Waiting -> history event t1 [] d ->
  Forall (while_handling event) t -> handles t = [] ->
  ((forall s, b <> Lost s) -> Forall lease_kept t /\ forall s, heartbeat d <> Lost s) ->
  history event (t1 ++ t) [] (with_heartbeat b d).
Proof.
  intros Hg [He Ho Hc Herr Hl _] Ht Hnone Hb. constructor; cbn; try done.
  - apply Forall_app. by split.
  - by rewrite handles_app, Hnone, app_nil_r.
  - by rewrite handles_app, Hnone, app_nil_r.
  - intros Hlost. destruct (Hb Hlost) as [? ?]. apply Forall_app. split; [by apply Hl|done].
  - by rewrite Hg.
Qed.

(** A step of the heartbeat. *)
Lemma history_beat event t1 t2 d l b :
  delivery_ok d -> heartbeat_step w (delivery_event d) (stopping d) (heartbeat d) l b -> history event t1 t2 d ->
  t2 = [] /\ history event (t1 ++ calls [l]) [] (with_heartbeat b d).
Proof.
  intros Hok Hb Hh. pose proof (beating_waiting d l b Hok Hb) as Hg. pose proof (history_waiting _ _ _ _ Hg Hh) as ->.
  split; [done|]. pose proof (same_event _ _ _ _ Hh) as He. remember (heartbeat d) as b0 eqn:Eb.
  destruct Hb as [Hstop|err| |answered]; apply history_heartbeat; try done; rewrite <- ?Eb.
  - by split; [constructor|].
  - intros Hlost. by destruct (Hlost (persistedDiagnosticSummary (Some err) "outbox_claim_lost")).
  - by split; [constructor|].
  - by constructor.
  - destruct (refused answered) eqn:Hr; [|by split; [constructor|]].
    intros Hlost. by destruct (Hlost (persistedDiagnosticSummary (error_of answered) "outbox_claim_lost")).
Qed.

Lemma history_step event t1 t2 d l d' :
  delivery_ok d -> history event t1 t2 d -> delivery_step w d l d' ->
  exists t1' t2', history event t1' t2' d' /\ t1' ++ t2' = (t1 ++ t2) ++ calls [l].
Proof.
  intros Hok Hh Hs.
  destruct Hs as [d before h after x Hr|d l b Hb|d err rest n Hg Hf Ha|d Hg Ha Hstop|d lost Hg Hstop Hb|d c k x Hg].
  - assert (at_stage d = Waiting) as Hg by (apply (running_waiting d h); [done|rewrite Hr; set_solver]).
    pose proof (history_waiting _ _ _ _ Hg Hh) as ->. exists (t1 ++ [Handle h (delivery_event d) ↦ x]), [].
    split; [by apply history_handle|by rewrite !app_nil_r].
  - destruct (history_beat event t1 t2 d l b Hok Hb Hh) as [-> Hh']. exists (t1 ++ calls [l]), [].
    split; [done|by rewrite !app_nil_r].
  - exists t1, t2. split; [|by rewrite app_nil_r]. destruct Hh as [He Ho Hc [received [Hrec Herr]] Hl Hs].
    rewrite Hg in Hs. constructor; cbn; try done; [|by rewrite Hg].
    exists (received ++ [err]). rewrite Hrec, Hf, <- app_assoc, foldl_app, Herr. done.
  - exists t1, t2. split; [|by rewrite app_nil_r]. destruct Hh as [He Ho Hc Herr Hl Hs]. by constructor.
  - exists t1, t2. split; [|by rewrite app_nil_r]. destruct Hh as [He Ho Hc Herr Hl Hs]. rewrite Hg in Hs. subst t2.
    constructor; try done. cbn. exists lost. split; [by destruct (heartbeat d)|]. by rewrite He.
  - exists t1, (t2 ++ [c ↦ x]). split; [|by rewrite app_assoc]. destruct Hh as [He Ho Hc Herr Hl Hs].
    rewrite Hg in Hs. destruct Hs as (lost & Hb & Hr). constructor; try done. cbn. exists lost.
    split; [done|]. by apply reaches_step.
Qed.

(** ** How an event is settled *)

(** The failure dispatchEvent goes by: that of the first handler to fail. *)
Definition failure (t1 : list call_event) : option error :=
  match handles t1 with
  | [] => Some (ExternalError "outbox topic has no handler")
  | hs => head (omap invokeOutboxHandler hs.*2)
  end.

(** The callback, when there is one, is told the status. *)
Definition reported event status (t : list call_event) : Prop :=
  if Options_OnEventOutcome (Worker_options w) then
    exists outcome, t = [OnEventOutcome outcome ↦ tt] /\ OutboxEventOutcome_Status outcome = status /\
      OutboxEventOutcome_Topic outcome = OutboxEvent_Topic event /\
      OutboxEventOutcome_AttemptCount outcome = OutboxEvent_AttemptCount event
  else t = [].

Definition fail_call event (err : error) : call D :=
  let options := Worker_options w in
  Fail event (persistedDiagnosticSummary (Some err) "outbox_delivery_failed")
    (boundedOutboxRetryDelay (Options_RetryDelaySeconds options) (Options_MaxRetryDelaySeconds options)
       (OutboxEvent_AttemptCount event)) (Options_AttemptLimit options).

(** After the calls [t1] of the handlers and the heartbeat, the event ends
    with a status and the calls of the last argument. *)
Inductive settled_as event (t1 : list call_event) : OutboxEventOutcomeStatus -> list call_event -> Prop :=
  | settled_delivered t :
      failure t1 = None -> Forall lease_kept t1 -> reported event OutboxOutcomeDelivered t ->
      settled_as event t1 OutboxOutcomeDelivered ((Complete event ↦ Ok true) :: t)
  | settled_failed err t :
      failure t1 = Some err -> Forall lease_kept t1 -> reported event OutboxOutcomeDeliveryFailed t ->
      settled_as event t1 OutboxOutcomeDeliveryFailed ((fail_call event err ↦ Ok true) :: t)
  | lost_at_complete answered t :
      failure t1 = None -> Forall lease_kept t1 -> refused answered = true ->
      reported event OutboxOutcomeClaimLost t ->
      settled_as event t1 OutboxOutcomeClaimLost ((Complete event ↦ answered) :: t)
  | lost_at_fail err answered t :
      failure t1 = Some err -> Forall lease_kept t1 -> refused answered = true ->
      reported event OutboxOutcomeClaimLost t ->
      settled_as event t1 OutboxOutcomeClaimLost ((fail_call event err ↦ answered) :: t)
  | lost_by_heartbeat t : reported event OutboxOutcomeClaimLost t -> settled_as event t1 OutboxOutcomeClaimLost t.

Lemma runs_report event outcome status t r :
  OutboxEventOutcome_Status outcome = status -> OutboxEventOutcome_Topic outcome = OutboxEvent_Topic event ->
  OutboxEventOutcome_AttemptCount outcome = OutboxEvent_AttemptCount event ->
  runs (reportOutcome w outcome ;;~ ret status) t r -> r = Ok status /\ reported event status t.
Proof.
  intros H1 H2 H3. unfold reported, reportOutcome. destruct (Options_OnEventOutcome _).
  - intros ([] & t' & -> & [-> ->]). split; [done|]. by exists outcome.
  - by intros [-> ->].
Qed.

Lemma runs_claimLost event phase summary t r :
  runs (claimLost w event phase summary) t r ->
  r = Ok OutboxOutcomeClaimLost /\ reported event OutboxOutcomeClaimLost t.
Proof. unfold claimLost. by apply runs_report. Qed.

Lemma refused_false answered : refused answered = false -> answered = Ok true.
Proof. by destruct answered as [[]|]. Qed.

Lemma settle_settles event t1 lost t status :
  (lost = None -> Forall lease_kept t1) ->
  runs (settle w event lost (failure t1)) t (Ok status) -> settled_as event t1 status t.
Proof.
  intros Hl. destruct lost as [s|]; [|specialize (Hl eq_refl); destruct (failure t1) as [err|] eqn:Hf]; cbn [settle].
  - intros [[= ->] Hr]%runs_claimLost. by apply lost_by_heartbeat.
  - intros (answered & t' & -> & Hr). destruct (refused answered) eqn:Ha.
    + apply runs_claimLost in Hr as [[= ->] Hr]. by apply lost_at_fail.
    + apply (runs_report event) in Hr as [[= ->] Hr]; [|done..]. rewrite (refused_false _ Ha). by apply settled_failed.
  - intros (answered & t' & -> & Hr). destruct (refused answered) eqn:Ha.
    + apply runs_claimLost in Hr as [[= ->] Hr]. by apply lost_at_complete.
    + apply (runs_report event) in Hr as [[= ->] Hr]; [|done..]. rewrite (refused_false _ Ha). by apply settled_delivered.
Qed.

Lemma foldl_first_error (err : option error) l :
  foldl first_error err l = match err with Some _ => err | None => head (omap id l) end.
Proof.
  revert err. induction l as [|e l IH]; intros err; cbn; [by destruct err|]. rewrite IH. by destruct err, e.
Qed.

Lemma omap_invoke (l : list handled) : omap id (invokeOutboxHandler <$> l) = omap invokeOutboxHandler l.
Proof. induction l as [|h l IH]; [done|]. cbn. rewrite IH. done. Qed.

Lemma delivery_history event tr d :
  exec (delivery_step w) (dispatchEvent w event) tr d ->
  delivery_ok d /\ exists t1 t2, calls tr = t1 ++ t2 /\ history event t1 t2 d.
Proof.
  apply (exec_invariant _ (fun tr d => delivery_ok d /\ exists t1 t2, calls tr = t1 ++ t2 /\ history event t1 t2 d)).
  - split; [apply dispatchEvent_ok|]. exists [], []. split; [done|]. constructor; cbn; try done. by exists [].
  - intros tr' d1 l d2 _ [Hok (t1 & t2 & Ht & Hh)] Hs. split; [by eapply delivery_step_ok|].
    destruct (history_step event t1 t2 d1 l d2 Hok Hh Hs) as (t1' & t2' & Hh' & E).
    exists t1', t2'. split; [|done]. by rewrite calls_app, Ht.
Qed.

(** C16: an event is settled once and only after all its handlers.  When
    dispatchEvent returns, whatever the interleaving of the handlers, the
    heartbeat and the store, every handler of the topic was called exactly
    once and returned before the event was settled, and no lease was renewed
    after that.  The event was completed in the store exactly when it is
    reported delivered, and then no handler failed and no renewal was refused;
    it was recorded as failed, with the first failure, the bounded delay and
    the attempt limit, exactly when it is reported failed; in every other
    case the claim is reported lost.  Never is more than one of Complete and
    Fail called. *)
Theorem dispatchEvent_settles event tr d status :
  exec (delivery_step w) (dispatchEvent w event) tr d -> returned d = Some status ->
  exists t1 t2, calls tr = t1 ++ t2 /\ Forall (while_handling event) t1 /\
    (handles t1).*1 ≡ₚ handlers_of (Worker_handlers w) (OutboxEvent_Topic event) /\
    settled_as event t1 status t2.
Proof.
  intros He Hret. destruct (delivery_history event tr d He) as [[Hn _ Hset] (t1 & t2 & Ht & Hh)].
  unfold returned in Hret. destruct (at_stage d) as [|q] eqn:Hg; [done|].
  destruct (Hset q eq_refl) as (Ha & _ & _). destruct q as [[s|]|]; [|done..]. injection Hret as ->.
  destruct (running d) eqn:Hrun; [|cbn in Hn; lia]. destruct (failures d) eqn:Hfail; [|cbn in Hn; lia].
  destruct Hh as [Hev Ho Hc [received [Hrec Herr]] Hl Hs]. rewrite Hg in Hs.
  rewrite Hrun, app_nil_r in Hc. rewrite Hfail, app_nil_r in Hrec. destruct Hs as (lost & Hlost & Hr).
  exists t1, t2. split_and!; [done..|]. apply (settle_settles event t1 lost).
  - intros ->. apply Hl. intros s Hb. by rewrite Hb in Hlost.
  - apply reaches_runs. enough (deliveryErr d = failure t1) as <- by done. rewrite Herr, foldl_first_error.
    rewrite <- Hrec, omap_invoke. unfold failure. cbn.
    destruct (handles t1) as [|h hs]; destruct (handlers_of _ _) as [|h' hs'] eqn:E; try done.
    + by apply Permutation_nil_l in Hc.
    + by apply Permutation_nil_r in Hc.
Qed.
End facts.
