(* ===== verification/OutboxPassFacts.v ===== *)
(** * What a pass of the outbox worker adds up to, and that it ends

    The counts of a pass against what the store was asked and answered, the
    bounds on what it claims and runs at once, and its termination. *)

From S2P Require Export OutboxDispatchFacts.
Local Open Scope Z_scope.
Local Open Scope go_scope.

#[export] Instance outcome_status_eq_dec : EqDecision OutboxEventOutcomeStatus.
Proof. solve_decision. Defined.

(** How often a status occurs. *)
Definition tally (status : OutboxEventOutcomeStatus) (l : list OutboxEventOutcomeStatus) : Z :=
  Z.of_nat (length (filter (eq status) l)).

Lemma tally_nil status : tally status [] = 0.
Proof. done. Qed.
Lemma tally_cons status s l : tally status (s :: l) = (if decide (status = s) then 1 else 0) + tally status l.
Proof. unfold tally. rewrite filter_cons. destruct (decide (status = s)); cbn; lia. Qed.
Lemma tally_app status l1 l2 : tally status (l1 ++ l2) = tally status l1 + tally status l2.
Proof. unfold tally. rewrite filter_app, length_app. lia. Qed.

(** Which of two given statuses is counted. *)
Ltac decide_tally :=
  match goal with
  | |- context [decide ?P] => destruct (decide P) as [E|E]; first [discriminate E|by destruct E|lia]
  end.

Section facts.
Context {D : Type} (w : OutboxWorker).
Implicit Types (event : OutboxEvent D) (d : delivery D) (p : pass D) (status : OutboxEventOutcomeStatus).
#[local] Notation label := (label (@answer D)).
#[local] Notation call_event := (Effects.event (@answer D)).
#[local] Notation "c ↦ x" := (existT c x : call_event) (at level 60).

(** ** What the trace records *)

(** The events a claim hands over: none when it answers too many. *)
Definition claimed_by (e : call_event) : Z :=
  match e with
  | existT (Claim _ available _) (Ok events) =>
      let n := Z.of_nat (length events) in if n >? available then 0 else n
  | _ => 0
  end.
Definition events_claimed (t : list call_event) : Z := foldr Z.add 0 (claimed_by <$> t).
(** The statuses the store put on record. *)
Definition records status (t : list call_event) : Z := tally status (omap recorded t).

Lemma events_claimed_app t1 t2 : events_claimed (t1 ++ t2) = events_claimed t1 + events_claimed t2.
Proof. unfold events_claimed. induction t1 as [|e t1 IH]; cbn; [done|]. unfold events_claimed in IH. cbn in IH. lia. Qed.
Lemma records_app status t1 t2 : records status (t1 ++ t2) = records status t1 + records status t2.
Proof. unfold records. by rewrite omap_app, tally_app. Qed.

(** The status a delivery is bound to. *)
Definition decided_at d : option OutboxEventOutcomeStatus :=
  match at_stage d with Settling q => decided q | Waiting => None end.

(** A call of a settling goroutine claims nothing. *)
Definition claims_nothing (q : prog (@answer D) OutboxEventOutcomeStatus) : Prop :=
  match q with Do c k => forall x, claimed_by (c ↦ x) = 0 | Done _ => True end.

Lemma settling_claims_nothing event q : settling w event q -> claims_nothing q.
Proof. intros [|err|q' status Hq]; [done..|]. by destruct q' as [|[] k]. Qed.

(** A step of a delivery settles it as the store's answer says, or changes
    nothing in what is decided and recorded. *)
Lemma delivery_effect d l d' :
  delivery_ok w d -> delivery_step w d l d' ->
  events_claimed (calls [l]) = 0 /\
  ((decided_at d' = decided_at d /\ omap recorded (calls [l]) = []) \/
   (decided_at d = None /\ exists status, decided_at d' = Some status /\
      omap recorded (calls [l]) = match record_of status with Some s => [s] | None => [] end)).
Proof.
  intros Hok Hs.
  destruct Hs as [d before h after x Hr|d l b Hb|d err rest n Hg Hf Ha|d Hg Ha Hstop|d lost Hg Hstop Hb|d c k x Hg]; try (split; [done|by left]).
  - by destruct Hb; (split; [done|by left]).
  - split; [done|]. unfold decided_at. cbn. rewrite Hg. destruct lost as [s|].
    + right. split; [done|]. exists OutboxOutcomeClaimLost. split; [apply decided_claimLost|done].
    + left. by destruct (deliveryErr d).
  - destruct (settling_last _ _ Hok _ Hg) as (_ & _ & Hq). unfold decided_at. cbn [at_stage with_stage]. rewrite Hg.
    split; [exact (f_equal (fun z => z + 0) (settling_claims_nothing _ _ Hq x))|].
    destruct (settling_call _ _ _ Hq x) as [_ [(status & H1 & H2 & H3)|(status & H1 & H2 & H3)]].
    + right. split; [done|]. exists status. split; [done|].
      transitivity (omap recorded [c ↦ x]); [done|]. cbn [omap list_omap]. rewrite H3. by destruct (record_of status).
    + left. rewrite H2, H1. split; [done|]. transitivity (omap recorded [c ↦ x]); [done|]. cbn [omap list_omap]. by rewrite H3.
Qed.

Lemma delivery_effect_tally d l d' rest before status :
  delivery_ok w d -> delivery_step w d l d' -> status <> OutboxOutcomeClaimLost ->
  tally status (omap decided_at (before ++ d' :: rest)) =
  tally status (omap decided_at (before ++ d :: rest)) + records status (calls [l]).
Proof.
  intros Hok Hs Hne. destruct (delivery_effect d l d' Hok Hs) as [_ He]. rewrite !omap_app, !tally_app. unfold records.
  cbn [omap list_omap]. destruct He as [[-> ->]|(-> & s & -> & ->)]; cbn [record_of]; [rewrite tally_nil; lia|].
  destruct s; cbn [record_of]; rewrite ?tally_cons, ?tally_nil; try lia. destruct (decide _); [done|lia].
Qed.

(** ** The invariant of a pass *)

Definition in_flight p : list OutboxEventOutcomeStatus := outcomes p ++ omap decided_at (deliveries p).

Definition stage_ok p : Prop :=
  match at_pass p with
  | Collecting available n expected =>
      expected = (length (outcomes p) + length (deliveries p))%nat /\
      Z.of_nat expected <= n <= available /\ available <= Options_Concurrency (Worker_options w)
  | _ => outcomes p = [] /\ deliveries p = []
  end.

Record pass_ok (t : list call_event) p : Prop := {
  claims_counted : let r := pass_result p in
    OutboxRunResult_Claimed r = OutboxRunResult_Delivered r + OutboxRunResult_Failed r
      + Z.of_nat (length (outcomes p)) + Z.of_nat (length (deliveries p));
  deliveries_recorded :
    records OutboxOutcomeDelivered t =
    OutboxRunResult_Delivered (pass_result p) + tally OutboxOutcomeDelivered (in_flight p);
  failures_recorded : let r := pass_result p in
    records OutboxOutcomeDeliveryFailed t =
    OutboxRunResult_Failed r - OutboxRunResult_ClaimLost r + tally OutboxOutcomeDeliveryFailed (in_flight p);
  claims_recorded : OutboxRunResult_Claimed (pass_result p) = events_claimed t;
  within_budget :
    OutboxRunResult_Claimed (pass_result p) + remaining p = Options_BatchSize (Worker_options w) /\ 0 <= remaining p;
  losses_counted : let r := pass_result p in
    0 <= OutboxRunResult_Delivered r /\ 0 <= OutboxRunResult_ClaimLost r <= OutboxRunResult_Failed r;
  all_deliveries_ok : Forall (delivery_ok w) (deliveries p);
  pass_stage_ok : stage_ok p;
}.

Lemma dispatchOnce_ok : options_ok (Worker_options w) -> pass_ok [] (dispatchOnce w).
Proof. intros []. constructor; cbn; try done; lia. Qed.

Lemma fresh_deliveries events :
  Forall (delivery_ok w) (dispatchEvent (D:=D) w <$> events) /\ omap decided_at (dispatchEvent w <$> events) = [].
Proof.
  split; [apply Forall_fmap, Forall_true; intros event; apply dispatchEvent_ok|].
  induction events as [|event events IH]; [done|]. done.
Qed.

Lemma records_claim status topics available lease answered :
  records status [Claim topics available lease ↦ answered] = 0.
Proof. done. Qed.

Lemma claimed_ok t p answered :
  let available := Z.min (Options_Concurrency (Worker_options w)) (remaining p) in
  at_pass p = AtLoop -> 0 < remaining p -> pass_ok t p ->
  pass_ok (t ++ [Claim (Worker_topics w) available (Options_LeaseSeconds (Worker_options w)) ↦ answered])
    (claimed w p available answered).
Proof.
  intros available Hg Hr [Hcount Hd Hf Hc [Hb1 Hb2] Hl Hall Hst]. unfold stage_ok in Hst. rewrite Hg in Hst.
  destruct Hst as [Ho Hds]. unfold claimed.
  assert (forall g, (match g with Collecting _ _ _ => False | _ => True end) ->
    claimed_by (Claim (Worker_topics w) available (Options_LeaseSeconds (Worker_options w)) ↦ answered) = 0 ->
    pass_ok (t ++ [Claim (Worker_topics w) available (Options_LeaseSeconds (Worker_options w)) ↦ answered]) (with_pass g p)) as Hback.
  { intros g Hg' Hz. constructor; cbn [pass_result outcomes deliveries remaining with_pass]; try done.
    - by rewrite records_app, records_claim, Z.add_0_r.
    - by rewrite records_app, records_claim, Z.add_0_r.
    - rewrite events_claimed_app, <- Hc. unfold events_claimed. cbn [fmap list_fmap foldr]. rewrite Hz. lia.
    - unfold stage_ok. cbn. by destruct g. }
  destruct answered as [[|event events]|err]; [apply Hback; [done|]; cbn; by destruct (_ >? _)| |by apply Hback].
  destruct (_ >? available) eqn:Hn; [apply Hback; [done|]; unfold claimed_by; by rewrite Hn|]. clear Hback.
  set (evs := event :: events) in *. destruct (fresh_deliveries evs) as [Hfresh Hnone].
  assert (Z.of_nat (length evs) <= available) by lia.
  constructor; cbn [pass_result outcomes deliveries remaining add_claimed OutboxRunResult_Claimed OutboxRunResult_Delivered
    OutboxRunResult_Failed OutboxRunResult_ClaimLost]; try done.
  - rewrite Ho, Hds in Hcount. rewrite length_fmap. cbn [length] in *. lia.
  - rewrite records_app, Hd. unfold in_flight. cbn [outcomes deliveries]. rewrite Ho, Hds, Hnone, records_claim. cbn. lia.
  - rewrite records_app, Hf. unfold in_flight. cbn [outcomes deliveries]. rewrite Ho, Hds, Hnone, records_claim. cbn. lia.
  - rewrite events_claimed_app, <- Hc. unfold events_claimed. cbn [fmap list_fmap foldr claimed_by]. rewrite Hn. lia.
  - lia.
  - unfold stage_ok. cbn [at_pass outcomes deliveries]. rewrite length_fmap. cbn [length]. split_and!; [done|lia..].
Qed.

Lemma returned_decided d status : returned d = Some status -> decided_at d = Some status.
Proof. unfold returned, decided_at. destruct (at_stage d) as [|[[s|]|]]; try done. Qed.

Lemma returns_ok t p before d after status :
  deliveries p = before ++ d :: after -> returned d = Some status -> pass_ok t p ->
  pass_ok t {| pass_result := pass_result p; remaining := remaining p; deliveries := before ++ after;
               outcomes := outcomes p ++ [status]; at_pass := at_pass p |}.
Proof.
  intros Hd Hret%returned_decided [Hcount Hdel Hf Hc Hb Hl Hall Hst].
  assert (forall s, tally s (in_flight {| pass_result := pass_result p; remaining := remaining p;
    deliveries := before ++ after; outcomes := outcomes p ++ [status]; at_pass := at_pass p |}) = tally s (in_flight p)) as Ht.
  { intros s. unfold in_flight. cbn [deliveries outcomes]. rewrite Hd, !omap_app, !tally_app. cbn [omap list_omap].
    rewrite Hret, !tally_cons, tally_nil. lia. }
  constructor; cbn [pass_result remaining]; rewrite ?Ht; try done.
  - cbn [outcomes deliveries]. rewrite Hd in Hcount. rewrite !length_app in *. cbn [length] in *. lia.
  - cbn [deliveries]. rewrite Hd, !Forall_app, Forall_cons in Hall. rewrite Forall_app. tauto.
  - unfold stage_ok in *. cbn [at_pass outcomes deliveries]. rewrite Hd in Hst. rewrite !length_app in *. cbn [length] in *.
    destruct (at_pass p); [destruct Hst as [_ E]; by destruct before| |destruct Hst as [_ E]; by destruct before].
    destruct Hst as (E & ? & ?). split_and!; lia.
Qed.

Lemma delivery_steps_ok t p before d after l d' :
  deliveries p = before ++ d :: after -> delivery_step w d l d' -> pass_ok t p ->
  pass_ok (t ++ calls [l])
    {| pass_result := pass_result p; remaining := remaining p; deliveries := before ++ d' :: after;
       outcomes := outcomes p; at_pass := at_pass p |}.
Proof.
  intros Hd Hs [Hcount Hdel Hf Hc Hb Hl Hall Hst].
  assert (delivery_ok w d) as Hok by (rewrite Hd in Hall; apply Forall_app in Hall as [_ [? _]%Forall_cons]; done).
  assert (forall s, s <> OutboxOutcomeClaimLost -> tally s (in_flight {| pass_result := pass_result p; remaining := remaining p;
    deliveries := before ++ d' :: after; outcomes := outcomes p; at_pass := at_pass p |})
    = tally s (in_flight p) + records s (calls [l])) as Ht.
  { intros s Hne. unfold in_flight. cbn [deliveries outcomes]. rewrite Hd, !tally_app, (delivery_effect_tally d l d') by done. lia. }
  destruct (delivery_effect d l d' Hok Hs) as [Hz _].
  constructor; cbn [pass_result remaining]; rewrite ?records_app, ?Ht by done; try done.
  - cbn [outcomes deliveries]. rewrite Hd in Hcount. rewrite !length_app in *. cbn [length] in *. lia.
  - rewrite Hdel. lia.
  - cbn zeta. rewrite Hf. lia.
  - rewrite events_claimed_app, Hz, <- Hc. lia.
  - cbn [deliveries]. rewrite Hd, !Forall_app, !Forall_cons in *. split_and!; [tauto| |tauto]. by eapply delivery_step_ok.
  - unfold stage_ok in *. cbn [at_pass outcomes deliveries]. rewrite Hd in Hst. rewrite !length_app in *. cbn [length] in *.
    destruct (at_pass p); [destruct Hst as [_ E]; by destruct before| |destruct Hst as [_ E]; by destruct before].
    destruct Hst as (E & ? & ?). split_and!; lia.
Qed.

Lemma received_ok t p available n expected outcome rest :
  at_pass p = Collecting available n (S expected) -> outcomes p = outcome :: rest -> pass_ok t p ->
  pass_ok t {| pass_result := count (pass_result p) outcome; remaining := remaining p; deliveries := deliveries p;
               outcomes := rest; at_pass := Collecting available n expected |}.
Proof.
  intros Hg Ho [Hcount Hdel Hf Hc Hb Hl Hall Hst]. unfold in_flight in Hdel, Hf. unfold stage_ok in Hst. rewrite Hg in Hst.
  rewrite Ho in *. cbn [app length] in *. rewrite tally_cons in Hdel, Hf.
  constructor; cbn [pass_result remaining deliveries outcomes]; try done.
  - destruct outcome; cbn in *; lia.
  - unfold in_flight. cbn [outcomes deliveries]. rewrite Hdel. generalize (tally OutboxOutcomeDelivered (rest ++ omap decided_at (deliveries p))).
    intros z. destruct outcome; cbn; decide_tally.
  - unfold in_flight. cbn [outcomes deliveries]. rewrite Hf. generalize (tally OutboxOutcomeDeliveryFailed (rest ++ omap decided_at (deliveries p))).
    intros z. destruct outcome; cbn; decide_tally.
  - by destruct outcome.
  - destruct outcome; cbn; lia.
  - destruct outcome; cbn in *; lia.
  - unfold stage_ok. cbn. destruct Hst as (E & ? & ?). split_and!; [lia..|done].
Qed.

Lemma with_pass_ok t p g :
  pass_ok t p -> stage_ok (with_pass g p) -> pass_ok t (with_pass g p).
Proof. intros [] Hg. by constructor. Qed.

Lemma pass_step_ok t p l p' : pass_ok t p -> pass_step w p l p' -> pass_ok (t ++ calls [l]) p'.
Proof.
  intros Hok Hs. destruct Hs as [p answered Hg Hr available|p Hg Hr|p before d after l d' Hd Hs|p before d after status Hd Hret
    |p available n expected outcome rest Hg Ho|p available n Hg].
  - by apply claimed_ok.
  - rewrite app_nil_r. apply with_pass_ok; [done|]. destruct Hok as [_ _ _ _ _ _ _ Hst]. unfold stage_ok in *.
    rewrite Hg in Hst. done.
  - by apply (delivery_steps_ok t p before d after l d').
  - rewrite app_nil_r. by apply (returns_ok t p before d after status).
  - rewrite app_nil_r. by eapply received_ok.
  - rewrite app_nil_r. apply with_pass_ok; [done|]. destruct Hok as [_ _ _ _ _ _ _ Hst]. unfold stage_ok in *.
    rewrite Hg in Hst. destruct Hst as (E & _). cbn [with_pass at_pass outcomes deliveries].
    destruct (outcomes p); [|discriminate]. destruct (deliveries p); [|discriminate]. by destruct (_ <? _).
Qed.

Lemma pass_invariant tr p :
  options_ok (Worker_options w) -> exec (pass_step w) (dispatchOnce w) tr p -> pass_ok (calls tr) p.
Proof.
  intros Hw. apply (exec_invariant _ (fun tr p => pass_ok (calls tr) p)); [by apply dispatchOnce_ok|].
  intros tr' p1 l p2 _ Hok Hs. rewrite calls_app. by eapply pass_step_ok.
Qed.

(** C17: a pass adds up, under every interleaving of its deliveries.  At
    every moment it runs at most [Concurrency] deliveries and has claimed at
    most [BatchSize] events.  When it returns, with an error or without, no
    delivery is left running; it has claimed exactly the events the store
    handed over, and each was delivered or failed; [Delivered] counts the
    events the store recorded as complete, and the failures that are not lost
    claims are exactly those the store recorded as failed. *)
Theorem dispatchOnce_accounts tr p :
  options_ok (Worker_options w) -> exec (pass_step w) (dispatchOnce w) tr p ->
  Z.of_nat (length (deliveries p)) <= Options_Concurrency (Worker_options w) /\
  OutboxRunResult_Claimed (pass_result p) <= Options_BatchSize (Worker_options w) /\
  forall err, at_pass p = Back err ->
    let r := pass_result p in
    deliveries p = [] /\
    OutboxRunResult_Claimed r = events_claimed (calls tr) /\
    OutboxRunResult_Claimed r = OutboxRunResult_Delivered r + OutboxRunResult_Failed r /\
    OutboxRunResult_Delivered r = records OutboxOutcomeDelivered (calls tr) /\
    OutboxRunResult_Failed r = OutboxRunResult_ClaimLost r + records OutboxOutcomeDeliveryFailed (calls tr) /\
    0 <= OutboxRunResult_ClaimLost r.
Proof.
  intros Hw He. destruct (pass_invariant tr p Hw He) as [Hcount Hdel Hf Hc Hb Hl _ Hst].
  unfold stage_ok in Hst. split_and!.
  - pose proof (concurrency_ok _ Hw). destruct (at_pass p); [|lia|]; destruct Hst as [_ Hd]; rewrite Hd; cbn; lia.
  - lia.
  - intros err Hg. rewrite Hg in Hst. destruct Hst as [Ho Hds]. unfold in_flight in *. rewrite Ho, Hds in *. cbn in *.
    rewrite tally_nil in Hdel, Hf. split_and!; try done; lia.
Qed.

(** ** A pass ends *)

(** What is left to do: a pending call, and the calls it may lead to. *)
Definition calls_left (q : prog (@answer D) OutboxEventOutcomeStatus) : nat :=
  match q with
  | Done _ => 1
  | Do (OnEventOutcome _) _ => 2
  | Do _ _ => 3
  end.
Definition delivery_left d : nat :=
  3 + 3 * length (running d) + 2 * length (failures d) + (if stopping d then 0 else 1)
  + match heartbeat d with Beating => 1 | Renewing => 2 | _ => 0 end
  + match at_stage d with Waiting => 4 | Settling q => calls_left q end.

Lemma calls_left_decided q status : decided q = Some status -> (calls_left q <= 2)%nat.
Proof. destruct q as [r|c k]; [|destruct c]; cbn; intros; (done || lia). Qed.

Lemma calls_left_settle event lost err : (calls_left (settle w event lost err) < 4)%nat.
Proof.
  destruct lost as [s|]; cbn [settle].
  - pose proof (calls_left_decided _ _ (decided_claimLost w event OutboxClaimLossHeartbeat s)). lia.
  - destruct err; cbn; lia.
Qed.

Lemma settling_report event q :
  settling w event q -> match q with Do (OnEventOutcome _) _ => is_Some (decided q) | _ => True end.
Proof. intros [|err|q' status Hq]; [done..|]. destruct q' as [r|c k]; [done|]. by destruct c. Qed.

Lemma settling_call_left event c k x :
  settling w event (Do c k) -> (calls_left (k x) < calls_left (Do c k))%nat.
Proof.
  intros Hq. pose proof (settling_report event _ Hq) as Hrep.
  destruct (settling_call w event _ Hq x) as [_ [(status & H1 & H2 & _)|(status & H1 & H2 & _)]].
  - apply calls_left_decided in H2. destruct c; cbn [calls_left] in *; try lia. rewrite H1 in Hrep. by apply is_Some_None in Hrep.
  - rewrite H2. cbn. destruct c; lia.
Qed.

(** Every step of a delivery but a tick leaves less to do. *)
Lemma delivery_step_left d l d' :
  delivery_ok w d -> delivery_step w d l d' ->
  if is_tick l then (delivery_left d' <= delivery_left d + 1)%nat else (delivery_left d' < delivery_left d)%nat.
Proof.
  intros Hok Hs. unfold delivery_left.
  destruct Hs as [d before h after x Hr|d l b Hb|d err rest n Hg Hf Ha|d Hg Ha Hstop|d lost Hg Hstop Hb|d c k x Hg];
    cbn [is_tick running failures stopping heartbeat at_stage with_heartbeat with_stage].
  - rewrite Hr, !length_app. cbn [length]. lia.
  - destruct Hb as [Hstop|err| |answered]; cbn [is_tick]; [lia..|]. destruct (refused answered); lia.
  - rewrite Hf. cbn [length]. lia.
  - rewrite Hstop. lia.
  - rewrite Hg. pose proof (calls_left_settle (delivery_event d) lost (deliveryErr d)). lia.
  - rewrite Hg. destruct (settling_last _ _ Hok _ Hg) as (_ & _ & Hq).
    pose proof (settling_call_left _ _ _ x Hq). lia.
Qed.

(** A delivery that has not returned can go on without its timer. *)
Lemma delivery_progress d :
  delivery_ok w d -> (exists status, returned d = Some status) \/ exists l d', is_tick l = false /\ delivery_step w d l d'.
Proof.
  intros [Hn Hst Hset]. unfold returned. destruct (at_stage d) as [|q] eqn:Hg.
  - right. destruct (running d) as [|h rest] eqn:Hr.
    2:{ eexists _, _. split; [|apply (handler_returns w d [] h rest Panicked Hr)]. done. }
    destruct (failures d) as [|err rest] eqn:Hf.
    2:{ eexists _, _. split; [|eapply (failure_received w d err rest _ Hg Hf); by rewrite <- Hn]. done. }
    destruct (stopping d) eqn:Hs.
    2:{ eexists _, _. split; [|by apply (heartbeat_stop w d Hg)]. done. }
    destruct (heartbeat d) as [| |s|] eqn:Hb.
    + eexists _, _. split; [|apply (heartbeat_steps w d); rewrite Hb; by apply heartbeat_ends]. done.
    + eexists _, _. split; [|apply (heartbeat_steps w d); rewrite Hb; by apply (heartbeat_renews _ _ _ (Ok true))]. done.
    + eexists _, _. split; [|apply (heartbeat_joined w d (Some s)); [done..|]; by rewrite Hb]. done.
    + eexists _, _. split; [|apply (heartbeat_joined w d None); [done..|]; by rewrite Hb]. done.
  - destruct (Hset q eq_refl) as (_ & _ & Hq). destruct q as [r|c k].
    + destruct (settling_call w _ _ Hq) as [status ->]. left. by exists status.
    + right. assert (answer c) as x by (destruct c; [exact (Ok [])|exact (Ok true)..|exact Panicked|exact tt]).
      eexists _, _. split; [|by apply (settling_calls w d c k x)]. done.
Qed.

(** The largest number of handlers a topic has. *)
Definition most_handlers : nat := max_list ((fun kv => length kv.2) <$> map_to_list (Worker_handlers w)).

Lemma most_handlers_ge topic : (length (handlers_of (Worker_handlers w) topic) <= most_handlers)%nat.
Proof.
  unfold handlers_of. destruct (Worker_handlers w !! topic) as [hs|] eqn:E; cbn; [|lia].
  apply max_list_elem_of_le, list_elem_of_fmap. exists (topic, hs). split; [done|]. by apply elem_of_map_to_list.
Qed.

(** What an event costs, and a pass. *)
Definition event_cost : nat := 3 * most_handlers + 11.
Definition pass_left p : nat :=
  event_cost * Z.to_nat (remaining p) + sum_list_with delivery_left (deliveries p) + 2 * length (outcomes p)
  + match at_pass p with AtLoop => 1 | Collecting _ _ _ => 2 | Back _ => 0 end.

Lemma dispatchEvent_left event : (delivery_left (dispatchEvent w event) + 2 <= event_cost)%nat.
Proof.
  unfold delivery_left, event_cost. cbn. pose proof (most_handlers_ge (OutboxEvent_Topic event)). lia.
Qed.

Lemma claimed_left t p answered :
  let available := Z.min (Options_Concurrency (Worker_options w)) (remaining p) in
  at_pass p = AtLoop -> 0 < remaining p -> pass_ok t p ->
  (pass_left (claimed w p available answered) < pass_left p)%nat.
Proof.
  intros available Hg Hr [_ _ _ _ _ _ _ Hst]. unfold stage_ok in Hst. rewrite Hg in Hst. destruct Hst as [Ho Hd].
  unfold claimed. destruct answered as [[|event events]|err]; try (unfold pass_left; cbn; rewrite Hg; lia).
  destruct (_ >? available) eqn:Hn; [unfold pass_left; cbn; rewrite Hg; lia|].
  set (evs := event :: events) in *. unfold pass_left. cbn [remaining deliveries outcomes at_pass]. rewrite Hg, Ho, Hd.
  assert (sum_list_with delivery_left (dispatchEvent w <$> evs) + 2 * length evs <= event_cost * length evs)%nat as Hsum.
  { clear. induction evs as [|e evs IH]; [cbn; lia|]. pose proof (dispatchEvent_left e).
    rewrite fmap_cons. cbn [sum_list_with length]. rewrite Nat.mul_succ_r. lia. }
  assert (1 <= length evs)%nat by (cbn; lia).
  assert (length evs <= Z.to_nat (remaining p))%nat as Hle by lia.
  change (sum_list_with delivery_left []) with 0%nat. cbn [length].
  rewrite Z2Nat.inj_sub, Nat2Z.id, Nat.mul_sub_distr_l by lia.
  assert (event_cost * length evs <= event_cost * Z.to_nat (remaining p))%nat by (by apply Nat.mul_le_mono_l). lia.
Qed.

Lemma sum_left_app l1 l2 :
  sum_list_with delivery_left (l1 ++ l2) = (sum_list_with delivery_left l1 + sum_list_with delivery_left l2)%nat.
Proof. apply sum_list_with_app. Qed.

(** Every step of a pass but a tick leaves less to do. *)
Lemma pass_step_left t p l p' :
  pass_ok t p -> pass_step w p l p' ->
  if is_tick l then (pass_left p' <= pass_left p + 1)%nat else (pass_left p' < pass_left p)%nat.
Proof.
  intros Hok Hs. destruct Hs as [p answered Hg Hr available|p Hg Hr|p before d after l d' Hd Hs|p before d after status Hd Hret
    |p available n expected outcome rest Hg Ho|p available n Hg].
  - by eapply claimed_left.
  - unfold pass_left. cbn. rewrite Hg. lia.
  - assert (delivery_ok w d) as Hdok.
    { destruct Hok as [_ _ _ _ _ _ Hall _]. rewrite Hd in Hall. by apply Forall_app in Hall as [_ [? _]%Forall_cons]. }
    pose proof (delivery_step_left d l d' Hdok Hs) as Hl. unfold pass_left. cbn [deliveries remaining outcomes at_pass].
    rewrite Hd, !sum_left_app. cbn [sum_list_with]. destruct (is_tick l); lia.
  - unfold pass_left. cbn [deliveries remaining outcomes at_pass is_tick]. rewrite Hd, length_app, !sum_left_app.
    cbn [sum_list_with length]. unfold delivery_left at 4. lia.
  - unfold pass_left. cbn [deliveries remaining outcomes at_pass is_tick]. rewrite Hg, Ho. cbn [length]. lia.
  - unfold pass_left. cbn. rewrite Hg. destruct (_ <? _); lia.
Qed.

(** A pass that has not returned can go on, whatever its timers do. *)
Lemma pass_progress t p :
  pass_ok t p -> (exists err, at_pass p = Back err) \/ exists l p', is_tick l = false /\ pass_step w p l p'.
Proof.
  intros [_ _ _ _ _ _ Hall Hst]. unfold stage_ok in Hst. destruct (at_pass p) as [|available n expected|err] eqn:Hg; [|right|left; by exists err].
  - right. destruct (Z.lt_ge_cases 0 (remaining p)).
    + eexists _, _. split; [|by apply (loop_claims w p (Ok []))]. done.
    + eexists _, _. split; [|by apply (loop_ends w p)]. done.
  - destruct Hst as (E & _). destruct expected as [|expected].
    { eexists _, _. split; [|by apply (round_ends w p available n)]. done. }
    destruct (outcomes p) as [|outcome rest] eqn:Ho.
    2:{ eexists _, _. split; [|by apply (outcome_received w p available n expected outcome rest)]. done. }
    destruct (deliveries p) as [|d after] eqn:Hd; [done|]. apply Forall_cons in Hall as [Hok _].
    destruct (delivery_progress d Hok) as [[status Hret]|(l & d' & Hl & Hs)].
    + eexists _, _. split; [|by apply (delivery_returns w p [] d after status)]. done.
    + eexists l, _. split; [done|]. by apply (delivery_steps w p [] d after l d').
Qed.

Lemma back_is_final t p err l p' : pass_ok t p -> at_pass p = Back err -> ~ pass_step w p l p'.
Proof.
  intros [_ _ _ _ _ _ _ Hst] Hg Hs. unfold stage_ok in Hst. rewrite Hg in Hst. destruct Hst as [Ho Hd].
  destruct Hs; try congruence; rewrite Hd in *; by destruct before.
Qed.


(** A delivery runs in a pass as it does alone. *)
Lemma exec_delivery p before d after tr d' :
  deliveries p = before ++ d :: after -> exec (delivery_step w) d tr d' ->
  exec (pass_step w) p tr
    {| pass_result := pass_result p; remaining := remaining p; deliveries := before ++ d' :: after;
       outcomes := outcomes p; at_pass := at_pass p |}.
Proof.
  intros Hd He. induction He as [|tr d1 l d2 _ IH Hs].
  - rewrite <- Hd. destruct p. apply exec_start.
  - eapply exec_step; [exact IH|].
    apply (delivery_steps w {| pass_result := pass_result p; remaining := remaining p;
      deliveries := before ++ d1 :: after; outcomes := outcomes p; at_pass := at_pass p |} before d1 after l d2); done.
Qed.
End facts.

(** ** A run *)

(** A delivery of two handlers, the second of which panics while the lease is
    being renewed, in a pass that claims one event. *)
Definition sample_event : OutboxEvent unit :=
  {| OutboxEvent_EventID := "evt_1"; OutboxEvent_TenantID := "tenant"; OutboxEvent_Topic := "credits.deducted";
     OutboxEvent_AggregateType := "account"; OutboxEvent_AggregateID := "acct_1"; OutboxEvent_PayloadVersion := 1;
     OutboxEvent_Payload := ∅; OutboxEvent_ClaimToken := "token"; OutboxEvent_AttemptCount := 2;
     OutboxEvent_CreatedAt := zero_time |}.
Definition audit : OutboxHandler := {| Handler_ID := 1; Topics := ["credits.deducted"] |}.
Definition webhook : OutboxHandler := {| Handler_ID := 2; Topics := [" credits.deducted"; "plan.changed"] |}.

Definition sample_worker : OutboxWorker :=
  match NewOutboxWorker (H := canonical_range) true [Some audit; Some webhook] default_options with
  | Ok w => w
  | Err _ => {| Worker_handlers := ∅; Worker_topics := []; Worker_options := default_options |}
  end.

Example sample_topics : Worker_topics sample_worker = ["credits.deducted"; "plan.changed"].
Proof. vm_compute. reflexivity. Qed.

Lemma sample_options_ok : options_ok (Worker_options sample_worker).
Proof. exact default_options_ok. Qed.

Definition sample_failure : Effects.event (@answer unit) :=
  existT (fail_call sample_worker sample_event (ExternalError "outbox handler panicked")) (Ok true).
Definition sample_report : OutboxEventOutcome :=
  {| OutboxEventOutcome_Topic := "credits.deducted"; OutboxEventOutcome_AttemptCount := 2;
     OutboxEventOutcome_Status := OutboxOutcomeDeliveryFailed;
     OutboxEventOutcome_Summary := Some "outbox_delivery_failed:Error";
     OutboxEventOutcome_RetryDelaySeconds := Some 60; OutboxEventOutcome_DeadLettered := false;
     OutboxEventOutcome_ClaimLossPhase := None |}.
Definition sample_delivery_trace : list (label (@answer unit)) :=
  [Called (existT (Handle audit sample_event) (Returned None)); Internal; Tick;
   Called (existT (Handle webhook sample_event) Panicked); Called (existT (Renew sample_event (Options_LeaseSeconds (Worker_options sample_worker))) (Ok true));
   Internal; Internal; Internal; Internal; Called sample_failure; Called (existT (OnEventOutcome sample_report) tt)].

Definition sample_delivered : delivery unit :=
  {| delivery_event := sample_event; running := []; failures := []; awaited := 0;
     deliveryErr := Some (ExternalError "outbox handler panicked"); heartbeat := Ended; stopping := true;
     at_stage := Settling (Done (Ok OutboxOutcomeDeliveryFailed)) |}.

(** One step of a concrete execution. *)
Tactic Notation "step_by" uconstr(rule) :=
  eapply exec_cons;
    [refine rule; first [reflexivity|econstructor; reflexivity]
    |cbn [delivery_event running failures awaited deliveryErr heartbeat stopping at_stage with_heartbeat with_stage
          app first_error invokeOutboxHandler refused error_of settle failDelivery]].

Lemma sample_delivery :
  exec (delivery_step sample_worker) (dispatchEvent sample_worker sample_event) sample_delivery_trace sample_delivered.
Proof.
  assert (handlers_of (Worker_handlers sample_worker) "credits.deducted" = [audit; webhook]) as Hh by reflexivity.
  unfold dispatchEvent. cbn [OutboxEvent_Topic sample_event]. rewrite Hh.
  cbn [length].
  step_by (handler_returns sample_worker _ [] audit [webhook] (Returned None) _).
  step_by (failure_received sample_worker _ _ _ _ _ _ _).
  step_by (heartbeat_steps sample_worker _ _ _ _).
  step_by (handler_returns sample_worker _ [] webhook [] Panicked _).
  step_by (heartbeat_steps sample_worker _ _ _ _).
  step_by (failure_received sample_worker _ _ _ _ _ _ _).
  step_by (heartbeat_stop sample_worker _ _ _ _).
  step_by (heartbeat_steps sample_worker _ _ _ _).
  step_by (heartbeat_joined sample_worker _ None _ _ _).
  step_by (settling_calls sample_worker _ _ _ _ _).
  step_by (settling_calls sample_worker _ _ _ _ _).
  apply exec_start.
Qed.

Definition sample_claim : Effects.event (@answer unit) :=
  existT (Claim (Worker_topics sample_worker)
            (Z.min (Options_Concurrency (Worker_options sample_worker)) (Options_BatchSize (Worker_options sample_worker)))
            (Options_LeaseSeconds (Worker_options sample_worker))) (Ok [sample_event]).
Definition sample_trace : list (label (@answer unit)) :=
  Called sample_claim :: sample_delivery_trace ++ [Internal; Internal; Internal].
Definition sample_pass : pass unit :=
  {| pass_result := {| OutboxRunResult_Claimed := 1; OutboxRunResult_Delivered := 0;
                       OutboxRunResult_Failed := 1; OutboxRunResult_ClaimLost := 0 |};
     remaining := 99; deliveries := []; outcomes := []; at_pass := Back None |}.

Lemma sample_exec : exec (pass_step sample_worker) (dispatchOnce sample_worker) sample_trace sample_pass.
Proof.
  eapply exec_cons; [apply (loop_claims sample_worker (dispatchOnce sample_worker) (Ok [sample_event])); reflexivity|].
  eapply exec_trans; [eapply (exec_delivery sample_worker _ [] _ []); [reflexivity|exact sample_delivery]|].
  eapply exec_cons; [by apply (delivery_returns sample_worker _ [] sample_delivered [] OutboxOutcomeDeliveryFailed)|].
  eapply exec_cons; [by apply (outcome_received sample_worker _ 4 1 0 OutboxOutcomeDeliveryFailed [])|].
  eapply exec_cons; [by apply (round_ends sample_worker _ 4 1)|].
  apply exec_start.
Qed.

Lemma dispatchEvent_settles_witness :
  exists t1 t2, calls sample_delivery_trace = t1 ++ t2 /\ Forall (while_handling sample_worker sample_event) t1 /\
    (handles t1).*1 ≡ₚ [audit; webhook] /\
    settled_as sample_worker sample_event t1 OutboxOutcomeDeliveryFailed t2.
Proof. exact (dispatchEvent_settles sample_worker _ _ _ OutboxOutcomeDeliveryFailed sample_delivery eq_refl). Defined.

Lemma dispatchOnce_accounts_witness :
  1 = events_claimed (calls sample_trace) /\ 1 = 0 + records OutboxOutcomeDeliveryFailed (calls sample_trace).
Proof.
  pose proof (dispatchOnce_accounts sample_worker sample_trace sample_pass sample_options_ok sample_exec) as (_ & _ & Hr).
  destruct (Hr None eq_refl) as (_ & Hc & _ & _ & Hf & _). split; [exact Hc|exact Hf].
Defined.

