(* ===== verification/OutboxLifecycle.v ===== *)
(** * outbox_worker.go, lines 112-435: the life of a worker

    The worker's fields behind its mutex, what each method does to them while
    it holds it, and the goroutines that call those methods: the polling loop,
    callers of RunOnce and callers of Stop, in any number and interleaving.
    A pass of dispatchOnce is one call here; OutboxDispatch.v is what it does. *)

From S2P Require Export OutboxDispatch.
Local Open Scope Z_scope.
Local Open Scope go_scope.

(** ** Snapshots *)

Inductive OutboxWorkerLifecycle :=
  | OutboxWorkerNotConfigured
  | OutboxWorkerNotStarted
  | OutboxWorkerRunning
  | OutboxWorkerStopped.

Record OutboxWorkerRunSnapshot := {
  RunSnapshot_Source : string;
  RunSnapshot_Status : string;
  RunSnapshot_StartedAt : Time;
  RunSnapshot_CompletedAt : Time;
  RunSnapshot_Result : option OutboxRunResult;
  RunSnapshot_Error : string;
}.

Record OutboxWorkerErrorSnapshot := {
  ErrorSnapshot_At : Time;
  ErrorSnapshot_Error : string;
}.

Record OutboxWorkerSnapshot := {
  Snapshot_Configured : bool;
  Snapshot_Lifecycle : OutboxWorkerLifecycle;
  Snapshot_LastRun : option OutboxWorkerRunSnapshot;
  Snapshot_LastError : option OutboxWorkerErrorSnapshot;
}.

(** ** The state behind the mutex *)

(** What [dispatchOnce] returns. *)
Definition dispatched : Type := OutboxRunResult * option error.

(** A run: whether [cancel] was called, and what it ended with once its
    channel [done] is closed. *)
Record outboxActiveRun := {
  run_cancelled : bool;
  run_done : option dispatched;
}.

(** [active] is a position in [run_table], which holds every run begun; the
    loop's context and channel exist when [started] is set. *)
Record worker_state := {
  started : bool;
  stopped : bool;
  loop_cancelled : bool;
  active : option nat;
  run_table : list outboxActiveRun;
  lastRun : option OutboxWorkerRunSnapshot;
  lastError : option OutboxWorkerErrorSnapshot;
}.

Definition new_state : worker_state :=
  {| started := false; stopped := false; loop_cancelled := false; active := None; run_table := [];
     lastRun := None; lastError := None |}.

Definition closed_error (message : string) : error :=
  NewError message (error_options ErrorCode.StoreClosed ErrorCategory.Unavailable None).

(** Start on a live context; the boolean says whether the loop is launched. *)
Definition Start (s : worker_state) : result (worker_state * bool) :=
  if stopped s then Err (closed_error "OutboxWorker cannot be restarted after close")
  else if started s then Ok (s, false)
  else Ok ({| started := true; stopped := stopped s; loop_cancelled := loop_cancelled s; active := active s;
              run_table := run_table s; lastRun := lastRun s; lastError := lastError s |}, true).

(** What the first critical section of runOnce decides. *)
Inductive begun :=
  | Closed (err : error)
  | Joined (id : nat)
  | Began (id : nat).

Definition begin_run (s : worker_state) : worker_state * begun :=
  if stopped s then (s, Closed (closed_error "OutboxWorker has been closed"))
  else match active s with
  | Some id => (s, Joined id)
  | None =>
      let id := length (run_table s) in
      ({| started := started s; stopped := stopped s; loop_cancelled := loop_cancelled s; active := Some id;
          run_table := run_table s ++ [{| run_cancelled := false; run_done := None |}];
          lastRun := lastRun s; lastError := lastError s |}, Began id)
  end.

Definition close_run (outcome : dispatched) (r : outboxActiveRun) : outboxActiveRun :=
  {| run_cancelled := run_cancelled r; run_done := Some outcome |}.

(** The second critical section of runOnce. *)
Definition finish_run (detachFromParent : bool) (id : nat) (outcome : dispatched) (startedAt completedAt : Time)
    (s : worker_state) : worker_state :=
  let manual status result message :=
    if detachFromParent then lastRun s
    else Some {| RunSnapshot_Source := "manual"; RunSnapshot_Status := status; RunSnapshot_StartedAt := startedAt;
                 RunSnapshot_CompletedAt := completedAt; RunSnapshot_Result := result; RunSnapshot_Error := message |} in
  let '(last, failed) :=
    match outcome with
    | (_, Some err) =>
        let message := persistedDiagnosticSummary (Some err) "outbox_worker_failed" in
        (manual "failed" None message, Some {| ErrorSnapshot_At := completedAt; ErrorSnapshot_Error := message |})
    | (result, None) => (manual "completed" (Some result) "", lastError s)
    end in
  {| started := started s; stopped := stopped s; loop_cancelled := loop_cancelled s;
     active := if decide (active s = Some id) then None else active s;
     run_table := alter (close_run outcome) id (run_table s); lastRun := last; lastError := failed |}.

(** The critical section of Stop; it goes on with the active run and whether
    there is a loop. *)
Definition stop_worker (s : worker_state) : worker_state * (option nat * bool) :=
  ({| started := started s; stopped := true;
      loop_cancelled := if stopped s then loop_cancelled s else started s;
      active := active s; run_table := run_table s; lastRun := lastRun s; lastError := lastError s |},
   (active s, started s)).

Definition cancel_run (id : option nat) (s : worker_state) : worker_state :=
  match id with
  | None => s
  | Some id =>
      {| started := started s; stopped := stopped s; loop_cancelled := loop_cancelled s; active := active s;
         run_table := alter (fun r => {| run_cancelled := true; run_done := run_done r |}) id (run_table s);
         lastRun := lastRun s; lastError := lastError s |}
  end.

Definition Snapshot (w : option worker_state) : OutboxWorkerSnapshot :=
  match w with
  | None => {| Snapshot_Configured := false; Snapshot_Lifecycle := OutboxWorkerNotConfigured;
               Snapshot_LastRun := None; Snapshot_LastError := None |}
  | Some s =>
      {| Snapshot_Configured := true;
         Snapshot_Lifecycle :=
           if stopped s then OutboxWorkerStopped else if started s then OutboxWorkerRunning else OutboxWorkerNotStarted;
         Snapshot_LastRun := lastRun s; Snapshot_LastError := lastError s |}
  end.

Definition Health (w : option worker_state) : result unit :=
  match w with
  | None => Err (closed_error "outbox worker is not initialized")
  | Some s =>
      if stopped s then Err (closed_error "outbox worker is closed")
      else if negb (started s)
      then Err (NewError "outbox worker is not started" (error_options ErrorCode.Store ErrorCategory.Unavailable None))
      else Ok tt
  end.

(** ** The goroutines *)

(** A pass of a run, and the callback for the loop's errors. *)
Inductive lifecycle_call :=
  | Dispatch (id : nat)
  | OnError (err : error).
Definition lifecycle_answer (c : lifecycle_call) : Type :=
  match c with Dispatch _ => dispatched | OnError _ => unit end.
#[local] Notation label := (label lifecycle_answer).

(** [errors.Is(err, context.Canceled)] *)
Fixpoint is_canceled (err : error) : bool :=
  match err with
  | BursarError _ _ _ _ _ _ (Some cause) => is_canceled cause
  | ExternalError text => text =? "context canceled"
  | JoinedError errs => existsb is_canceled errs
  | WrappedError _ err => is_canceled err
  | _ => false
  end.

(** runLoop: before runOnce, in its own run, waiting for another's, in the
    callback, in its select, and gone. *)
Inductive loop_state :=
  | LoopHead
  | LoopRunning (id : nat)
  | LoopWaiting (id : nat)
  | LoopReporting (err : error)
  | LoopSelect
  | LoopExited.

(** A caller of RunOnce in its own run or waiting for another's; a caller of
    Stop waiting for the run it found, then for the loop, and back. *)
Inductive caller :=
  | OnceRunning (id : nat)
  | OnceWaiting (id : nat)
  | StopWaiting (run : option nat) (hasLoop : bool)
  | StopLoop (run : option nat) (hasLoop : bool) (failures : list error)
  | StopReturned (failures : list error).

Record system := {
  worker : worker_state;
  polling : option loop_state;
  callers : list caller;
}.

Definition new_system : system := {| worker := new_state; polling := None; callers := [] |}.

(** Where the loop goes once runOnce has returned. *)
Definition after_run (hasOnError : bool) (err : option error) : loop_state :=
  match err with
  | Some err => if negb (is_canceled err) && hasOnError then LoopReporting err else LoopSelect
  | None => LoopSelect
  end.

Definition run_outcome (s : worker_state) (id : nat) : option dispatched := run_table s !! id ≫= run_done.

Section system.
Variable hasOnError : bool.

(** Where runOnce leads its goroutine. *)
Definition loop_begins (b : begun) : loop_state :=
  match b with
  | Closed err => after_run hasOnError (Some err)
  | Joined id => LoopWaiting id
  | Began id => LoopRunning id
  end.
Definition caller_begins (b : begun) : list caller :=
  match b with Closed _ => [] | Joined id => [OnceWaiting id] | Began id => [OnceRunning id] end.

(** runLoop, one step at a time. *)
Inductive loop_step : worker_state -> loop_state -> label -> worker_state -> loop_state -> Prop :=
  | loop_calls s : loop_step s LoopHead Internal (begin_run s).1 (loop_begins (begin_run s).2)
  | loop_dispatches s id outcome startedAt completedAt :
      loop_step s (LoopRunning id) (Called (existT (Dispatch id) outcome))
        (finish_run true id outcome startedAt completedAt s) (after_run hasOnError outcome.2)
  | loop_waits s id outcome :
      run_outcome s id = Some outcome ->
      loop_step s (LoopWaiting id) Internal s (after_run hasOnError outcome.2)
  | loop_wait_cancelled s id : loop_cancelled s = true -> loop_step s (LoopWaiting id) Internal s LoopSelect
  | loop_reports s err : loop_step s (LoopReporting err) (Called (existT (OnError err) tt)) s LoopSelect
  | loop_ticks s : loop_step s LoopSelect Tick s LoopHead
  | loop_exits s : loop_cancelled s = true -> loop_step s LoopSelect Internal s LoopExited.

(** A caller of RunOnce or Stop, after its first critical section; the last
    argument is what becomes of it, nothing when it has returned.  Its own
    context may be done at any time. *)
Inductive caller_step (loop : option loop_state) : worker_state -> caller -> label -> worker_state -> list caller -> Prop :=
  | once_dispatches s id outcome startedAt completedAt :
      caller_step loop s (OnceRunning id) (Called (existT (Dispatch id) outcome))
        (finish_run false id outcome startedAt completedAt s) []
  | once_returns s id : caller_step loop s (OnceWaiting id) Internal s []
  | stop_finds_none s hasLoop :
      caller_step loop s (StopWaiting None hasLoop) Internal s [StopLoop None hasLoop []]
  | stop_run_done s id hasLoop outcome :
      run_outcome s id = Some outcome ->
      caller_step loop s (StopWaiting (Some id) hasLoop) Internal s
        [StopLoop (Some id) hasLoop (option_list outcome.2)]
  | stop_run_done_late s id hasLoop outcome err :
      run_outcome s id = Some outcome -> outcome.2 = Some err ->
      caller_step loop s (StopWaiting (Some id) hasLoop) Internal s []
  | stop_gives_up_run s id hasLoop :
      caller_step loop s (StopWaiting (Some id) hasLoop) Internal (cancel_run (Some id) s) []
  | stop_loop_done s run hasLoop failures :
      (if hasLoop : bool then loop = Some LoopExited else True) ->
      caller_step loop s (StopLoop run hasLoop failures) Internal s [StopReturned failures]
  | stop_gives_up_loop s run failures :
      caller_step loop s (StopLoop run true failures) Internal (cancel_run run s) [].

(** Any goroutine steps, or one calls Start, RunOnce or Stop. *)
Inductive system_step : system -> label -> system -> Prop :=
  | start_called y s launched :
      Start (worker y) = Ok (s, launched) ->
      system_step y Internal
        {| worker := s; polling := if launched : bool then Some LoopHead else polling y; callers := callers y |}
  | once_called y :
      system_step y Internal
        {| worker := (begin_run (worker y)).1; polling := polling y;
           callers := callers y ++ caller_begins (begin_run (worker y)).2 |}
  | stop_called y :
      system_step y Internal
        {| worker := (stop_worker (worker y)).1; polling := polling y;
           callers := callers y ++ [StopWaiting (stop_worker (worker y)).2.1 (stop_worker (worker y)).2.2] |}
  | loop_steps y p l s p' :
      polling y = Some p -> loop_step (worker y) p l s p' ->
      system_step y l {| worker := s; polling := Some p'; callers := callers y |}
  | caller_steps y before c after l s new :
      callers y = before ++ c :: after -> caller_step (polling y) (worker y) c l s new ->
      system_step y l {| worker := s; polling := polling y; callers := before ++ new ++ after |}.
End system.
