(* ===== verification/OutboxLifecycleFacts.v ===== *)
(** * One pass at a time, and none after Stop

    The invariant of the worker's goroutines: every run has one owner until
    it ends, so no two passes overlap; and a Stop that returned leaves nothing
    running and nothing that could start. *)

From S2P Require Export OutboxLifecycle.
Local Open Scope Z_scope.
Local Open Scope go_scope.

Section facts.
Context (hasOnError : bool).
Implicit Types (y : system) (s : worker_state) (c : caller).
#[local] Notation step := (system_step hasOnError).

(** ** Who is in a pass *)

Definition owned_by c : list nat := match c with OnceRunning id => [id] | _ => [] end.
Definition loop_owns (l : option loop_state) : list nat := match l with Some (LoopRunning id) => [id] | _ => [] end.

(** The runs in which some goroutine is dispatching. *)
Definition dispatching y : list nat := (callers y ≫= owned_by) ++ loop_owns (polling y).

Lemma owned_app l1 l2 : (l1 ++ l2) ≫= owned_by = (l1 ≫= owned_by) ++ (l2 ≫= owned_by).
Proof. apply bind_app. Qed.
Lemma owned_cons c l : (c :: l) ≫= owned_by = owned_by c ++ (l ≫= owned_by).
Proof. done. Qed.

(** ** The invariant *)

(** Nothing runs and nothing will. *)
Definition at_rest y : Prop :=
  stopped (worker y) = true /\ active (worker y) = None /\ (polling y = None \/ polling y = Some LoopExited).

Definition caller_ok y c : Prop :=
  match c with
  | StopWaiting run hasLoop =>
      stopped (worker y) = true /\ hasLoop = started (worker y) /\
      (active (worker y) = None \/ active (worker y) = run)
  | StopLoop run hasLoop _ =>
      stopped (worker y) = true /\ hasLoop = started (worker y) /\ active (worker y) = None
  | StopReturned _ => at_rest y
  | _ => True
  end.

(** A run is open exactly while it is the active one. *)
Definition runs_ok s : Prop :=
  (forall id r, run_table s !! id = Some r -> (run_done r = None <-> active s = Some id)) /\
  (forall id, active s = Some id -> is_Some (run_table s !! id)).

Record system_ok y : Prop := {
  one_owner : dispatching y = option_list (active (worker y));
  open_runs : runs_ok (worker y);
  loop_started : started (worker y) = false <-> polling y = None;
  callers_ok : Forall (caller_ok y) (callers y);
}.

(** ** The critical sections *)

Lemma begin_run_ok s :
  runs_ok s ->
  runs_ok (begin_run s).1 /\ started (begin_run s).1 = started s /\ stopped (begin_run s).1 = stopped s /\
  match (begin_run s).2 with
  | Began id => stopped s = false /\ active s = None /\ active (begin_run s).1 = Some id
  | _ => (begin_run s).1 = s
  end.
Proof.
  intros Hruns. unfold begin_run. destruct (stopped s) eqn:Hs; [by split_and!|].
  destruct (active s) as [id|] eqn:Ha; [by split_and!|]. destruct Hruns as [Ho Hi]. split_and!; try done. split; cbn.
  - intros id r [[Hlt Hr]|[-> <-]]%lookup_snoc_Some; [|done].
    apply Ho in Hr. rewrite Ha in Hr. split; [naive_solver|]. intros [= E]. lia.
  - intros id [= <-]. exists {| run_cancelled := false; run_done := None |}. by rewrite lookup_snoc_Some; right.
Qed.

Lemma finish_run_ok detach id outcome t1 t2 s :
  active s = Some id -> runs_ok s ->
  let s' := finish_run detach id outcome t1 t2 s in
  runs_ok s' /\ active s' = None /\ started s' = started s /\ stopped s' = stopped s.
Proof.
  intros Ha [Ho Hi]. unfold finish_run. destruct outcome as [result [err|]]; cbn; rewrite Ha, decide_True by done;
    split_and!; try done; split; cbn; try done.
  all: intros id' r Hr; split; [|done]; intros Hd; destruct (decide (id' = id)) as [->|Hne].
  all: try (rewrite list_lookup_alter_eq in Hr; destruct (run_table s !! id); [by injection Hr as <-|done]).
  all: rewrite list_lookup_alter_ne in Hr by done; apply Ho in Hr; rewrite Ha in Hr; apply Hr in Hd; congruence.
Qed.

Lemma cancel_run_ok id s :
  runs_ok s -> runs_ok (cancel_run id s) /\ active (cancel_run id s) = active s /\
  started (cancel_run id s) = started s /\ stopped (cancel_run id s) = stopped s.
Proof.
  intros [Ho Hi]. destruct id as [id|]; [|done]. split_and!; try done. split; cbn.
  - intros id' r Hr. destruct (decide (id' = id)) as [->|Hne].
    + rewrite list_lookup_alter_eq in Hr. destruct (run_table s !! id) as [r'|] eqn:E; [|done].
      injection Hr as <-. by apply Ho in E.
    + rewrite list_lookup_alter_ne in Hr by done. by apply Ho.
  - intros id' Ha. destruct (Hi id' Ha) as [r Hr]. destruct (decide (id' = id)) as [->|Hne].
    + rewrite list_lookup_alter_eq, Hr. by eexists.
    + rewrite list_lookup_alter_ne by done. by eexists.
Qed.

(** ** Steps *)

Lemma owner_is_active (o : option nat) a id b : a ++ id :: b = option_list o -> o = Some id /\ a = [] /\ b = [].
Proof. destruct o as [x|], a as [|? [|]]; cbn; intros E; simplify_eq; done. Qed.

(** A caller's run is the active one. *)
Lemma once_owner y before id after :
  system_ok y -> callers y = before ++ OnceRunning id :: after ->
  active (worker y) = Some id /\ (before ++ after) ≫= owned_by = [] /\ loop_owns (polling y) = [].
Proof.
  intros [Ho _ _ _] Hc. unfold dispatching in Ho. rewrite Hc, owned_app, owned_cons in Ho. cbn [owned_by app] in Ho.
  rewrite <- app_assoc in Ho. cbn [app] in Ho. apply owner_is_active in Ho as (Ha & H1 & [H2 H3]%app_nil).
  by rewrite owned_app, H1, H2.
Qed.

Lemma loop_owner y id :
  system_ok y -> polling y = Some (LoopRunning id) -> active (worker y) = Some id /\ callers y ≫= owned_by = [].
Proof.
  intros [Ho _ _ _] Hl. unfold dispatching in Ho. rewrite Hl in Ho. cbn in Ho.
  apply owner_is_active in Ho as (Ha & H1 & _). done.
Qed.

(** What a step keeps of a stopped worker. *)
Definition keeps_rest y y' : Prop :=
  stopped (worker y) = true ->
  stopped (worker y') = true /\ started (worker y') = started (worker y) /\
  (active (worker y') = None \/ active (worker y') = active (worker y)) /\
  (polling y = None \/ polling y = Some LoopExited -> polling y' = polling y).

Lemma callers_keep y y' l : keeps_rest y y' -> Forall (caller_ok y) l -> Forall (caller_ok y') l.
Proof.
  intros Hk Hl. eapply Forall_impl; [exact Hl|]. intros c. unfold keeps_rest, caller_ok, at_rest in *.
  destruct c as [| |run hasLoop|run hasLoop fs|fs]; [done..| | |].
  - intros (Hs & -> & Ha). destruct (Hk Hs) as (? & -> & [->| ->] & _); split_and!; auto.
  - intros (Hs & -> & Ha). destruct (Hk Hs) as (? & -> & [->| ->] & _); split_and!; auto.
  - intros (Hs & Ha & Hp). destruct (Hk Hs) as (? & _ & [->| ->] & Hp'); rewrite (Hp' Hp); split_and!; auto.
Qed.

(** Callers that come, go or change while the rest stays. *)
Lemma callers_change y y' before c after new :
  keeps_rest y y' -> callers y = before ++ c :: after -> Forall (caller_ok y) (callers y) ->
  Forall (caller_ok y') new -> Forall (caller_ok y') (before ++ new ++ after).
Proof.
  intros Hk -> Hall Hnew. apply (callers_keep y y') in Hall; [|done].
  apply Forall_app in Hall as [H1 [_ H2]%Forall_cons]. by rewrite !Forall_app.
Qed.

Lemma step_keeps_rest y l y' : system_ok y -> step y l y' -> keeps_rest y y'.
Proof.
  intros Hok Hs Hstop. pose proof Hok as [_ Hr _ _].
  destruct Hs as [y s launched Hst|y|y|y p l s p' Hp Hs|y before c after l s new Hc Hs]; cbn [worker polling callers].
  - unfold Start in Hst. by rewrite Hstop in Hst.
  - unfold begin_run. rewrite Hstop. by split_and!; try right.
  - by split_and!; try right.
  - assert (forall P : Prop, p <> LoopExited -> polling y = None \/ polling y = Some LoopExited -> P) as Hlive
      by (intros P Hne [E|E]; congruence).
    remember (worker y) as s0 eqn:Es0.
    destruct Hs as [s|s id outcome t1 t2|s id outcome Ho|s id Hcan|s err|s|s Hcan]; subst s;
      try (split_and!; [done|done|by right|by apply Hlive]).
    + unfold begin_run. rewrite Hstop. split_and!; [done|done|by right|intros ?; by apply Hlive].
    + destruct (loop_owner y id Hok Hp) as (Ha & _).
      destruct (finish_run_ok true id outcome t1 t2 _ Ha Hr) as (_ & -> & -> & ->). split_and!; [done|done|by left|intros ?; by apply Hlive].
  - remember (worker y) as s0 eqn:Es0.
    destruct Hs as [s id outcome t1 t2|s id|s hasLoop|s id hasLoop outcome Ho|s id hasLoop outcome err Ho He|s id hasLoop
      |s run hasLoop fs Hl|s run fs]; subst s; try (by split_and!; try right).
    + destruct (once_owner y before id after Hok Hc) as (Ha & _ & _).
      destruct (finish_run_ok false id outcome t1 t2 _ Ha Hr) as (_ & -> & -> & ->). by split_and!; try left.
    + destruct (cancel_run_ok run _ Hr) as (_ & -> & -> & ->). by split_and!; try right.
Qed.

Lemma new_system_ok : system_ok new_system.
Proof. by constructor. Qed.

(** A step that leaves the runs and their owners alone. *)
Lemma same_runs_ok y s' l' cs' :
  system_ok y -> runs_ok s' -> active s' = active (worker y) ->
  loop_owns l' = loop_owns (polling y) -> cs' ≫= owned_by = callers y ≫= owned_by ->
  (started s' = false <-> l' = None) ->
  Forall (caller_ok {| worker := s'; polling := l'; callers := cs' |}) cs' ->
  system_ok {| worker := s'; polling := l'; callers := cs' |}.
Proof.
  intros [Ho Hr _ _] Hr' Ha Hl Hc Hst Hall. constructor; cbn; try done.
  unfold dispatching in *. cbn. by rewrite Ha, <- Ho, Hl, Hc.
Qed.

Lemma after_run_owns err : loop_owns (Some (after_run hasOnError err)) = [].
Proof. unfold after_run. destruct err as [err|]; [|done]. by destruct (_ && _). Qed.

Lemma owned_replace before c after c' :
  owned_by c = owned_by c' -> (before ++ c' :: after) ≫= owned_by = (before ++ c :: after) ≫= owned_by.
Proof. intros Hc. by rewrite !owned_app, !owned_cons, Hc. Qed.
Lemma owned_remove before c after :
  owned_by c = [] -> (before ++ after) ≫= owned_by = (before ++ c :: after) ≫= owned_by.
Proof. intros Hc. by rewrite !owned_app, !owned_cons, Hc. Qed.

Lemma start_ok y s launched :
  system_ok y -> Start (worker y) = Ok (s, launched) ->
  system_ok {| worker := s; polling := if launched then Some LoopHead else polling y; callers := callers y |}.
Proof.
  intros Hok. pose proof Hok as [Ho Hr Hl Hc]. unfold Start. destruct (stopped (worker y)) eqn:Hs; [done|].
  destruct (started (worker y)) eqn:Hst; intros [= <- <-]; [by destruct y|].
  assert (polling y = None) as Hp by (by apply Hl). apply (same_runs_ok y); try done; [by rewrite Hp|].
  eapply Forall_impl; [exact Hc|]. intros c. unfold caller_ok, at_rest. cbn. rewrite Hs. by destruct c; try (intros [? _]).
Qed.

Lemma begins_ok y cs' l' :
  system_ok y ->
  Forall (caller_ok {| worker := (begin_run (worker y)).1; polling := l'; callers := cs' |}) cs' ->
  (l' = None <-> polling y = None) ->
  (cs' ≫= owned_by) ++ loop_owns l' =
    match (begin_run (worker y)).2 with Began id => [id] | _ => dispatching y end ->
  system_ok {| worker := (begin_run (worker y)).1; polling := l'; callers := cs' |}.
Proof.
  intros [Ho Hr Hl Hc] Hall Hp Howns. destruct (begin_run_ok (worker y) Hr) as (Hr' & Hst & _ & Hb).
  constructor; cbn; try done.
  - unfold dispatching. cbn. rewrite Howns. destruct (begin_run (worker y)).2 as [err|id|id].
    + by rewrite Hb.
    + by rewrite Hb.
    + by destruct Hb as (_ & _ & ->).
  - by rewrite Hst, Hl, Hp.
Qed.

Lemma finishes_ok y detach id outcome t1 t2 cs' l' :
  system_ok y -> active (worker y) = Some id ->
  Forall (caller_ok {| worker := finish_run detach id outcome t1 t2 (worker y); polling := l'; callers := cs' |}) cs' ->
  (l' = None <-> polling y = None) -> cs' ≫= owned_by = [] -> loop_owns l' = [] ->
  system_ok {| worker := finish_run detach id outcome t1 t2 (worker y); polling := l'; callers := cs' |}.
Proof.
  intros [Ho Hr Hl Hc] Ha Hall Hp Hcs Hl'. destruct (finish_run_ok detach id outcome t1 t2 _ Ha Hr) as (Hr' & Ha' & Hst & _).
  constructor; cbn; try done.
  - unfold dispatching. cbn. by rewrite Ha', Hcs, Hl'.
  - by rewrite Hst, Hl, Hp.
Qed.

(** A caller that moves on, or leaves. *)
Lemma caller_moves_ok y before c after new s' :
  system_ok y -> callers y = before ++ c :: after -> owned_by c = [] -> Forall (fun c' => owned_by c' = []) new ->
  runs_ok s' -> active s' = active (worker y) -> started s' = started (worker y) -> stopped s' = stopped (worker y) ->
  Forall (caller_ok y) new ->
  system_ok {| worker := s'; polling := polling y; callers := before ++ new ++ after |}.
Proof.
  intros Hok Hc Hown Hnew Hr Ha Hst Hs Hall. pose proof Hok as [_ _ Hl Hcs].
  set (y' := {| worker := s'; polling := polling y; callers := before ++ new ++ after |}).
  assert (keeps_rest y y') as Hk by (intros E; cbn; split_and!; [congruence|done|by right|done]).
  apply (same_runs_ok y); try done.
  - rewrite Hc, !owned_app, owned_cons, Hown. f_equal. cbn [app].
    enough (new ≫= owned_by = []) as -> by done. clear -Hnew. induction Hnew as [|c' new Hc' _ IH]; [done|].
    by rewrite owned_cons, Hc', IH.
  - by rewrite Hst.
  - apply (callers_change y y' before c after new); [done..|]. by apply (callers_keep y y').
Qed.

Lemma caller_in y c before after : system_ok y -> callers y = before ++ c :: after -> caller_ok y c.
Proof. intros [_ _ _ Hall] Hc. rewrite Hc in Hall. by apply Forall_app in Hall as [_ [? _]%Forall_cons]. Qed.

(** The run a Stop waited for is the only one that could be active. *)
Lemma run_over y id outcome :
  system_ok y -> run_outcome (worker y) id = Some outcome ->
  active (worker y) = None \/ active (worker y) = Some id -> active (worker y) = None.
Proof.
  intros [_ [Hr _] _ _] Ho [Ha|Ha]; [done|]. unfold run_outcome in Ho.
  destruct (run_table (worker y) !! id) as [r|] eqn:E; [|done]. cbn in Ho. apply (Hr id r) in E.
  apply E in Ha. congruence.
Qed.

Lemma loop_step_ok y p l s p' :
  system_ok y -> polling y = Some p -> loop_step hasOnError (worker y) p l s p' ->
  keeps_rest y {| worker := s; polling := Some p'; callers := callers y |} ->
  system_ok {| worker := s; polling := Some p'; callers := callers y |}.
Proof.
  intros Hok Hp Hs Hk. pose proof Hok as [Hown Hr Hl Hcs].
  remember (worker y) as s0 eqn:Es0.
  destruct Hs as [s|s id outcome t1 t2|s id outcome Ho|s id Hcan|s err|s|s Hcan]; subst s;
    try (apply (same_runs_ok y); try done; [by rewrite Hp|by rewrite Hl, Hp|by eapply callers_keep]).
  - apply begins_ok; [done|by eapply callers_keep|rewrite Hp; by destruct (begin_run (worker y)).2|].
    unfold dispatching in *. rewrite Hp in *. change (loop_owns (Some LoopHead)) with (@nil nat) in *. rewrite app_nil_r in *.
    destruct (begin_run_ok (worker y) Hr) as (_ & _ & _ & Hb).
    destruct (begin_run (worker y)).2 as [err|id|id]; cbn [loop_begins]; [by rewrite after_run_owns, app_nil_r|by rewrite app_nil_r|].
    destruct Hb as (_ & Ha & _). by rewrite Hown, Ha.
  - destruct (loop_owner y id Hok Hp) as (Ha & Hcs'). apply finishes_ok; try done; [by eapply callers_keep|by rewrite Hp|].
    apply after_run_owns.
  - apply (same_runs_ok y); try done; [rewrite Hp; apply after_run_owns|by rewrite Hl, Hp|by eapply callers_keep].
Qed.

Lemma caller_step_ok y before c after l s new :
  system_ok y -> callers y = before ++ c :: after -> caller_step (polling y) (worker y) c l s new ->
  keeps_rest y {| worker := s; polling := polling y; callers := before ++ new ++ after |} ->
  system_ok {| worker := s; polling := polling y; callers := before ++ new ++ after |}.
Proof.
  intros Hok Hc Hs Hk. pose proof Hok as [Hown Hr Hl Hcs]. pose proof (caller_in y _ _ _ Hok Hc) as Hcall.
  remember (worker y) as s0 eqn:Es0. destruct Hs as [s id outcome t1 t2|s id|s hasLoop|s id hasLoop outcome Ho
    |s id hasLoop outcome err Ho He|s id hasLoop|s run hasLoop fs Hloop|s run fs]; subst s.
  - destruct (once_owner y before id after Hok Hc) as (Ha & Hcs' & Hl'). apply finishes_ok; try done.
    by apply (callers_change y _ before (OnceRunning id) after []).
  - by apply (caller_moves_ok y before (OnceWaiting id)).
  - destruct Hcall as (Hs & Hh & Ha). apply (caller_moves_ok y before (StopWaiting None hasLoop)); try done; [by repeat constructor|].
    constructor; [|done]. split_and!; [done..|]. by destruct Ha.
  - destruct Hcall as (Hs & Hh & Ha). apply (caller_moves_ok y before (StopWaiting (Some id) hasLoop)); try done; [by repeat constructor|].
    constructor; [|done]. split_and!; [done..|]. by eapply run_over.
  - by apply (caller_moves_ok y before (StopWaiting (Some id) hasLoop)).
  - destruct (cancel_run_ok (Some id) _ Hr) as (H1 & H2 & H3 & H4).
    by apply (caller_moves_ok y before (StopWaiting (Some id) hasLoop)).
  - destruct Hcall as (Hs & Hh & Ha). apply (caller_moves_ok y before (StopLoop run hasLoop fs)); try done; [by repeat constructor|].
    constructor; [|done]. split_and!; [done..|]. destruct hasLoop; [by right|]. left. by apply Hl.
  - destruct (cancel_run_ok run _ Hr) as (H1 & H2 & H3 & H4). by apply (caller_moves_ok y before (StopLoop run true fs)).
Qed.

Lemma system_step_ok y l y' : system_ok y -> step y l y' -> system_ok y'.
Proof.
  intros Hok Hs. pose proof (step_keeps_rest y l y' Hok Hs) as Hk. pose proof Hok as [Hown Hr Hl Hcs].
  destruct Hs as [y s launched Hst|y|y|y p l s p' Hp Hs|y before c after l s new Hc Hs].
  - by apply start_ok.
  - apply begins_ok; [done| |done|].
    + apply Forall_app. split; [by eapply callers_keep|]. by destruct (begin_run (worker y)).2; repeat constructor.
    + rewrite owned_app, <- app_assoc. destruct (begin_run_ok (worker y) Hr) as (_ & _ & _ & Hb).
      destruct (begin_run (worker y)).2 as [err|id|id]; cbn; [done..|]. unfold dispatching in Hown.
      destruct Hb as (_ & Ha & _). rewrite Ha in Hown. cbn in Hown. apply app_nil in Hown as [-> ->]. done.
  - apply (same_runs_ok y); try done; [by rewrite owned_app, app_nil_r|]. apply Forall_app. split; [by eapply callers_keep|].
    constructor; [|done]. cbn. split_and!; [done..|]. by right.
  - by eapply loop_step_ok.
  - by eapply caller_step_ok.
Qed.

Lemma reachable_ok tr y : exec step new_system tr y -> system_ok y.
Proof.
  apply (exec_invariant _ (fun _ y => system_ok y)); [apply new_system_ok|].
  intros _ y1 l y2 _ Hok Hs. by eapply system_step_ok.
Qed.

(** Nothing moves at rest but the callers. *)
Lemma rest_step y l y' : system_ok y -> at_rest y -> step y l y' -> at_rest y' /\ calls [l] = [].
Proof.
  intros Hok Hrest Hs. pose proof (step_keeps_rest y l y' Hok Hs) as Hk. destruct Hrest as (Hstop & Ha & Hp).
  destruct (Hk Hstop) as (Hs' & _ & Ha' & Hp'). split.
  - split_and!; [done|destruct Ha' as [->| ->]; done|]. by rewrite (Hp' Hp).
  - destruct Hs as [| | |y p l s p' Hl Hs|y before c after l s new Hc Hs]; try done.
    + destruct Hp as [E|E]; rewrite Hl in E; [done|]. injection E as ->. inversion Hs.
    + remember (worker y) as s0 eqn:Es0. destruct Hs as [s' id outcome t1 t2| | | | | | |]; try done.
      destruct (once_owner y before id after Hok Hc) as (E & _). congruence.
Qed.

(** C19: passes never overlap, and a Stop that waited leaves nothing running.
    However the polling loop and any number of callers of RunOnce and Stop
    interleave, at most one of them is dispatching events at any moment.
    Once some Stop has returned without giving up, every run begun has ended,
    the loop is gone, the worker reports itself closed; and from then on,
    whatever is called, no pass is dispatched and no callback is made ever
    again. *)
Theorem Stop_quiesces tr y failures :
  exec step new_system tr y ->
  (length (dispatching y) <= 1)%nat /\
  (StopReturned failures ∈ callers y ->
   dispatching y = [] /\
   (forall id r, run_table (worker y) !! id = Some r -> run_done r <> None) /\
   (polling y = None \/ polling y = Some LoopExited) /\
   Snapshot_Lifecycle (Snapshot (Some (worker y))) = OutboxWorkerStopped /\
   Health (Some (worker y)) = Err (closed_error "outbox worker is closed") /\
   forall tr' y', exec step y tr' y' -> calls tr' = [] /\ dispatching y' = []).
Proof.
  intros He. pose proof (reachable_ok tr y He) as Hok. pose proof Hok as [Hown [Hr _] _ Hcs].
  split; [rewrite Hown; destruct (active (worker y)); cbn; lia|]. intros Hin.
  rewrite Forall_forall in Hcs. pose proof (Hcs _ Hin) as Hrest. pose proof Hrest as (Hstop & Ha & Hp). split_and!.
  - by rewrite Hown, Ha.
  - intros id r E%Hr Hd%E. congruence.
  - done.
  - cbn. by rewrite Hstop.
  - cbn. by rewrite Hstop.
  - intros tr' y' He'.
    enough (system_ok y' /\ at_rest y' /\ calls tr' = []) as ([Hown' _ _ _] & (_ & Ha' & _) & Hcalls).
    { by rewrite Hown', Ha'. }
    revert tr' y' He'. apply (exec_invariant _ (fun tr y => system_ok y /\ at_rest y /\ calls tr = [])); [done|].
    intros tr1 y1 l y2 _ (Hok1 & Hrest1 & Hcalls) Hs. destruct (rest_step y1 l y2 Hok1 Hrest1 Hs) as [H1 H2].
    split_and!; [by eapply system_step_ok|done|]. by rewrite calls_app, Hcalls, H2.
Qed.
End facts.

(** ** A run *)

(** The loop's first pass is under way when RunOnce joins it and Stop is
    called; the pass ends with an error, which Stop hands on. *)
Definition sample_outcome : dispatched :=
  ({| OutboxRunResult_Claimed := 0; OutboxRunResult_Delivered := 0; OutboxRunResult_Failed := 0;
      OutboxRunResult_ClaimLost := 0 |}, Some (ExternalError "connection refused")).
Definition sample_lifecycle : list (label lifecycle_answer) :=
  [Internal; Internal; Internal; Internal; Called (existT (Dispatch 0) sample_outcome); Internal; Internal; Internal;
   Internal].
Definition sample_stopped : system :=
  {| worker :=
       {| started := true; stopped := true; loop_cancelled := true; active := None;
          run_table := [{| run_cancelled := false; run_done := Some sample_outcome |}]; lastRun := None;
          lastError := Some {| ErrorSnapshot_At := zero_time; ErrorSnapshot_Error := "outbox_worker_failed:Error" |} |};
     polling := Some LoopExited;
     callers := [StopReturned [ExternalError "connection refused"]] |}.

Lemma sample_stop : exec (system_step false) new_system sample_lifecycle sample_stopped.
Proof.
  eapply exec_cons; [eapply (start_called false new_system); reflexivity|].
  eapply exec_cons; [eapply loop_steps; [reflexivity|apply loop_calls]|].
  eapply exec_cons; [apply once_called|].
  eapply exec_cons; [apply stop_called|].
  eapply exec_cons; [eapply loop_steps; [reflexivity|apply (loop_dispatches false _ 0 sample_outcome zero_time zero_time)]|].
  eapply exec_cons; [by apply (caller_steps false _ [OnceWaiting 0] (StopWaiting (Some 0%nat) true) []);
    [|apply (stop_run_done _ _ 0 true sample_outcome)]|].
  eapply exec_cons; [eapply loop_steps; [reflexivity|by apply loop_exits]|].
  eapply exec_cons; [by apply (caller_steps false _ [OnceWaiting 0] (StopLoop (Some 0%nat) true [ExternalError "connection refused"]) []);
    [|apply stop_loop_done]|].
  eapply exec_cons; [by apply (caller_steps false _ [] (OnceWaiting 0) [StopReturned [ExternalError "connection refused"]]);
    [|apply once_returns]|].
  apply exec_start.
Qed.

Lemma Stop_quiesces_witness :
  StopReturned [ExternalError "connection refused"] ∈ callers sample_stopped /\ dispatching sample_stopped = [].
Proof.
  assert (StopReturned [ExternalError "connection refused"] ∈ callers sample_stopped) as Hin by (by left).
  split; [exact Hin|]. exact (proj1 (proj2 (Stop_quiesces false _ _ _ sample_stop) Hin)).
Defined.
