(* ===== verification/Protocols.v ===== *)
(** * What a program may call, and when

    [obeys]: a program keeps a protocol.  Every call it makes is allowed by
    what was called before it, as long as the callees keep their side, and
    what it returns satisfies a postcondition.  The rules follow the
    program's structure.  [goroutines]: programs that share a state, their
    calls interleaved in any order. *)

From S2P Require Export Effects.

Section protocol.
Context {call : Type} {answer : call -> Type}.
Notation prog := (prog answer).
Notation event := (event answer).

(** [rely]: what the callees guarantee of an answered call.  [allowed]: which
    calls may follow a history. *)
Context (rely : event -> Prop) (allowed : list event -> call -> Prop).

Fixpoint obeys {A} (Q : list event -> result A -> Prop) (h : list event) (p : prog A) : Prop :=
  match p with
  | Done r => Q h r
  | Do c k => allowed h c /\ forall x, rely (existT c x) -> obeys Q (h ++ [existT c x]) (k x)
  end.

Lemma obeys_done {A} Q h (r : result A) : Q h r -> obeys Q h (Done r).
Proof. done. Qed.

Lemma obeys_do {A} Q h c (k : answer c -> prog A) :
  allowed h c -> (forall x, rely (existT c x) -> obeys Q (h ++ [existT c x]) (k x)) -> obeys Q h (Do c k).
Proof. done. Qed.

Lemma obeys_mono {A} (Q Q' : list event -> result A -> Prop) h p :
  obeys Q h p -> (forall t r, Q (h ++ t) r -> Q' (h ++ t) r) -> obeys Q' h p.
Proof.
  revert h. induction p as [r|c k IH]; intros h; cbn.
  - intros Hq Hmono. specialize (Hmono [] r). rewrite app_nil_r in Hmono. auto.
  - intros [Hc Hk] Hmono. split; [done|]. intros x Hx. apply (IH x); [by apply Hk|].
    intros t r. rewrite <- app_assoc. apply Hmono.
Qed.

(** What follows a call that was caught, and what follows one that returns. *)
Lemma obeys_catch {A B} (Q : list event -> result B -> Prop) h (p : prog A) f :
  obeys (fun h' r => obeys Q h' (f r)) h p -> obeys Q h (pcatch p f).
Proof.
  revert h. induction p as [r|c k IH]; intros h; cbn; [done|].
  intros [Hc Hk]. split; [done|]. intros x Hx. by apply IH, Hk.
Qed.

Lemma obeys_bind {A B} (Q : list event -> result B -> Prop) h (p : prog A) f :
  obeys (fun h' r => match r with Ok a => obeys Q h' (f a) | Err e => Q h' (Err e) end) h p ->
  obeys Q h (pbind p f).
Proof.
  revert h. induction p as [[a|e]|c k IH]; intros h; cbn; [done..|].
  intros [Hc Hk]. split; [done|]. intros x Hx. by apply IH, Hk.
Qed.

Lemma obeys_assoc {A B C} (Q : list event -> result C -> Prop) h (p : prog A) (f : A -> prog B) (g : B -> prog C) :
  obeys Q h (pbind p (fun a => pbind (f a) g)) -> obeys Q h (pbind (pbind p f) g).
Proof.
  revert h. induction p as [[a|e]|c k IH]; intros h; cbn; [done..|].
  intros [Hc Hk]. split; [done|]. intros x Hx. by apply IH, Hk.
Qed.

(** No promise about what is returned. *)
Definition abides {A} (h : list event) (p : prog A) : Prop := obeys (fun _ _ => True) h p.

Lemma abides_of {A} Q h (p : prog A) : obeys Q h p -> abides h p.
Proof. intros Hp. by eapply obeys_mono. Qed.

(** A first part with a specification, then the rest. *)
Lemma obeys_then {A B} (Q : list event -> result A -> Prop) (Q' : list event -> result B -> Prop) h p f :
  obeys Q h p -> (forall t e, Q (h ++ t) (Err e) -> Q' (h ++ t) (Err e)) ->
  (forall t a, Q (h ++ t) (Ok a) -> obeys Q' (h ++ t) (f a)) -> obeys Q' h (pbind p f).
Proof.
  intros Hp He Hk. apply obeys_bind. eapply obeys_mono; [exact Hp|].
  intros t [a|e]; [apply Hk|apply He].
Qed.

Lemma abides_bind {A B} h (p : prog A) (f : A -> prog B) :
  abides h p -> (forall t a, abides (h ++ t) (f a)) -> abides h (pbind p f).
Proof. intros Hp Hk. eapply obeys_then; [exact Hp|done|]. intros t a _. apply Hk. Qed.

Lemma abides_catch {A B} h (p : prog A) (f : result A -> prog B) :
  abides h p -> (forall t r, abides (h ++ t) (f r)) -> abides h (pcatch p f).
Proof. intros Hp Hk. apply obeys_catch. eapply obeys_mono; [exact Hp|]. intros t r _. apply Hk. Qed.

(** The postcondition may mention the run itself. *)
Lemma obeys_traced {A} (Q : list event -> result A -> Prop) h p :
  obeys Q h p -> obeys (fun h' r => Q h' r /\ exists t, h' = h ++ t /\ runs p t r) h p.
Proof.
  revert h. induction p as [r|c k IH]; intros h; cbn.
  - intros Hq. split; [done|]. exists []. by rewrite app_nil_r.
  - intros [Hc Hk]. split; [done|]. intros x Hx. eapply obeys_mono; [by apply IH, Hk|].
    intros t r [Hq (t' & Ht & Hr)]. split; [done|]. exists (existT c x :: t'). split; [|by exists x, t'].
    by rewrite Ht, <- app_assoc.
Qed.

Lemma obeys_runs {A} (Q : list event -> result A -> Prop) h p t r :
  obeys Q h p -> runs p t r -> Forall rely t ->
  Q (h ++ t) r /\ forall t1 c x t2, t = t1 ++ existT c x :: t2 -> allowed (h ++ t1) c.
Proof.
  revert h t. induction p as [r'|c k IH]; intros h t; cbn.
  - intros Hq [-> ->] _. rewrite app_nil_r. split; [done|]. by intros [].
  - intros [Hc Hk] (x & t' & -> & Hr) [Hx Ht]%Forall_cons.
    destruct (IH x (h ++ [existT c x]) t') as [Hq Ha]; [by apply Hk|done..|].
    rewrite <- app_assoc in Hq. split; [done|]. intros [|e t1] c' x' t2 Heq.
    + apply (f_equal (fun l => @projT1 _ _ <$> head l)) in Heq. injection Heq as <-. by rewrite app_nil_r.
    + injection Heq as <- Heq. specialize (Ha t1 c' x' t2 Heq). by rewrite <- app_assoc in Ha.
Qed.

Lemma obeys_reaches {A} (Q : list event -> result A -> Prop) h p t q :
  obeys Q h p -> reaches p t q -> Forall rely t -> obeys Q (h ++ t) q.
Proof.
  revert h p. induction t as [|e t IH]; intros h p; cbn.
  - intros Hp -> _. by rewrite app_nil_r.
  - destruct p as [r|c k]; [done|]. intros [Hc Hk] (x & -> & Hr) [Hx Ht]%Forall_cons.
    pose proof (IH _ _ (Hk x Hx) Hr Ht) as Hq. by rewrite <- app_assoc in Hq.
Qed.

(** ** Programs that only make harmless calls *)

Fixpoint calls_only {A} (P : call -> Prop) (p : prog A) : Prop :=
  match p with
  | Done _ => True
  | Do c k => P c /\ forall x, calls_only P (k x)
  end.

Lemma calls_only_bind {A B} P (p : prog A) (f : A -> prog B) :
  calls_only P p -> (forall a, calls_only P (f a)) -> calls_only P (pbind p f).
Proof.
  intros Hp Hf. induction p as [[a|e]|c k IH]; cbn in *; [apply Hf|done|].
  destruct Hp as [Hc Hk]. split; [done|]. intros x. by apply IH.
Qed.

Lemma calls_only_catch {A B} P (p : prog A) (f : result A -> prog B) :
  calls_only P p -> (forall r, calls_only P (f r)) -> calls_only P (pcatch p f).
Proof.
  intros Hp Hf. induction p as [r|c k IH]; cbn in *; [apply Hf|].
  destruct Hp as [Hc Hk]. split; [done|]. intros x. by apply IH.
Qed.

Lemma calls_only_mono {A} (P P' : call -> Prop) (p : prog A) :
  (forall c, P c -> P' c) -> calls_only P p -> calls_only P' p.
Proof.
  intros Hp. induction p as [r|c k IH]; cbn; [done|]. intros [Hc Hk]. split; [by apply Hp|].
  intros x. by apply IH.
Qed.

(** Such a program extends the history by such calls only. *)
Lemma calls_only_obeys {A} (P : call -> Prop) h (p : prog A) :
  (forall t c, P c -> allowed (h ++ t) c) -> calls_only P p ->
  obeys (fun h' _ => exists t, h' = h ++ t /\ Forall (fun e => P (projT1 e)) t) h p.
Proof.
  revert h. induction p as [r|c k IH]; intros h Ha; cbn.
  - intros _. exists []. by rewrite app_nil_r.
  - intros [Hc Hk]. split; [specialize (Ha [] c Hc); by rewrite app_nil_r in Ha|]. intros x _.
    eapply obeys_mono.
    { apply (IH x); [|by apply Hk]. intros t c' Hc'. rewrite <- app_assoc. by apply Ha. }
    intros t r (t' & Ht & Hall). exists (existT c x :: t'). split; [by rewrite Ht, <- app_assoc|by constructor].
Qed.

(** ** The calls that matter *)

(** The events of a history whose calls are watched. *)
Definition seen (watched : call -> bool) (h : list event) : list event :=
  filter (fun e => watched (projT1 e) = true) h.

Lemma seen_app watched h t : seen watched (h ++ t) = seen watched h ++ seen watched t.
Proof. apply filter_app. Qed.

Lemma seen_last watched h c (x : answer c) :
  seen watched (h ++ [existT c x]) = if watched c then seen watched h ++ [existT c x] else seen watched h.
Proof.
  rewrite seen_app. unfold seen at 2. destruct (watched c) eqn:Hc.
  - by rewrite filter_cons_True.
  - rewrite filter_cons_False; [by rewrite app_nil_r|]. cbn. by rewrite Hc.
Qed.

Lemma seen_nothing watched h t : Forall (fun e => watched (projT1 e) = false) t -> seen watched (h ++ t) = seen watched h.
Proof.
  intros Ht. rewrite seen_app. enough (seen watched t = []) as -> by apply app_nil_r.
  induction Ht as [|e t He Ht IH]; [done|]. unfold seen. rewrite filter_cons_False; [done|].
  intros Hw. discriminate (eq_trans (eq_sym He) Hw).
Qed.

(** A program that makes none of them leaves no trace. *)
Lemma unseen_then {A B} watched (Q : list event -> result B -> Prop) h (p : prog A) f :
  (forall t c, watched c = false -> allowed (h ++ t) c) -> calls_only (fun c => watched c = false) p ->
  (forall h' e, seen watched h' = seen watched h -> Q h' (Err e)) ->
  (forall h' a, seen watched h' = seen watched h -> obeys Q h' (f a)) -> obeys Q h (pbind p f).
Proof.
  intros Ha Hp He Hf. eapply obeys_then; [apply (calls_only_obeys _ _ _ Ha Hp)| |]; intros t x (t' & Ht & Hall);
    rewrite Ht; [apply He|apply Hf]; by apply seen_nothing.
Qed.

(** ** Programs over a shared state *)

(** A goroutine: what it started as, the calls it has made, what is left. *)
Record goroutine := {
  returns : Type;
  start : prog returns;
  made : list event;
  left_over : prog returns;
}.

Context {S : Type} (entry : forall A, prog A -> Prop) (react : S -> forall c, answer c -> S -> Prop).

Definition calling (g : goroutine) (c : call) (x : answer c) (g' : goroutine) : Prop :=
  exists (k : answer c -> prog (returns g)),
    left_over g = Do c k /\
    g' = {| returns := returns g; start := start g; made := made g ++ [existT c x]; left_over := k x |}.

(** A goroutine starts one of the entry points, or one that runs makes its
    next call. *)
Inductive advance : S * list goroutine -> S * list goroutine -> Prop :=
  | advance_go s gs A (p : prog A) :
      entry A p ->
      advance (s, gs) (s, gs ++ [{| returns := A; start := p; made := []; left_over := p |}])
  | advance_call s gs i g c x g' s' :
      gs !! i = Some g -> calling g c x g' -> react s c x s' ->
      advance (s, gs) (s', <[i := g']> gs).

Context (inv : S -> Prop).
Hypothesis entry_obeys : forall A (p : prog A), entry A p -> abides [] p.
Hypothesis reacts : forall s h c x s',
  inv s -> allowed h c -> react s c x s' -> rely (existT c x) /\ inv s'.

Definition goroutine_ok (g : goroutine) : Prop :=
  reaches (start g) (made g) (left_over g) /\ Forall rely (made g) /\ entry (returns g) (start g).

(** Whatever the order, the state stays within its invariant and each
    goroutine has only seen answers it could rely on. *)
Lemma advance_ok s gs s' gs' :
  inv s -> Forall goroutine_ok gs -> rtc advance (s, gs) (s', gs') -> inv s' /\ Forall goroutine_ok gs'.
Proof.
  intros Hs Hgs Hrtc. remember (s, gs) as st eqn:Hst. remember (s', gs') as st' eqn:Hst'.
  revert s gs Hst Hs Hgs. induction Hrtc as [st|st st1 st2 Hstep Hrtc IH]; intros s gs -> Hs Hgs.
  { by injection Hst' as -> ->. }
  inversion Hstep as [s0 gs0 A p Hentry|s0 gs0 i g c x g' s1 Hi (k & Hleft & ->) Hreact]; subst.
  - eapply IH; [done|done|done|]. apply Forall_app. split; [done|]. by repeat constructor.
  - pose proof (Forall_lookup_1 _ _ _ _ Hgs Hi) as (Hreach & Hmade & Hentry). rewrite Hleft in Hreach.
    assert (abides (made g) (Do c k)) as [Hallowed _].
    { by apply (obeys_reaches _ [] (start g)); [apply entry_obeys|..]. }
    destruct (reacts _ _ _ _ _ Hs Hallowed Hreact) as [Hx Hs1].
    eapply IH; [done|done|done|]. apply Forall_insert; [done|]. split_and!; cbn; [by apply reaches_step| |done].
    apply Forall_app. by repeat constructor.
Qed.

(** One goroutine alone, against a callee that is a function: a reachable
    state. *)
Lemma calls_advance (callee : forall c, S -> answer c * S) :
  (forall c s, react s c (callee c s).1 (callee c s).2) ->
  forall A (p0 p : prog A) s h,
    rtc advance (s, [{| returns := A; start := p0; made := h; left_over := p |}])
      ((run callee s p).2,
       [{| returns := A; start := p0; made := h ++ (run callee s p).1.1; left_over := Done (run callee s p).1.2 |}]).
Proof.
  intros Hreact A p0 p. induction p as [r|c k IH]; intros s h; cbn.
  - rewrite app_nil_r. reflexivity.
  - specialize (Hreact c s). destruct (callee c s) as [x s1] eqn:Hcallee. cbn in Hreact.
    eapply rtc_l.
    { apply (advance_call s _ 0 {| returns := A; start := p0; made := h; left_over := Do c k |} c x); [done| |exact Hreact].
      exists k. split; reflexivity. }
    specialize (IH x s1 (h ++ [existT c x])). destruct (run callee s1 (k x)) as [[t r] s2]. cbn in *.
    rewrite <- app_assoc in IH. exact IH.
Qed.

Lemma run_advance (callee : forall c, S -> answer c * S) A (p : prog A) s :
  (forall c s, react s c (callee c s).1 (callee c s).2) -> entry A p ->
  rtc advance (s, [])
    ((run callee s p).2,
     [{| returns := A; start := p; made := (run callee s p).1.1; left_over := Done (run callee s p).1.2 |}]).
Proof.
  intros Hreact Hp. eapply rtc_l; [by apply (advance_go s [] A p)|].
  exact (calls_advance callee Hreact A p p s []).
Qed.
End protocol.
Arguments goroutine {call} answer.

(** Takes a program of harmless calls apart. *)
Ltac only_walk :=
  repeat (cbn [calls_only pbind pcatch lift ret raise];
    match goal with
    | |- _ /\ _ => split
    | |- True => exact I
    | |- forall _, _ => intros ?
    | |- calls_only _ (match ?x with _ => _ end) => destruct x eqn:?
    | |- calls_only _ (pbind (match ?x with _ => _ end) _) => destruct x eqn:?
    | |- calls_only _ (pbind _ _) => apply calls_only_bind
    | |- calls_only _ (pcatch _ _) => apply calls_only_catch
    end).

(** ** Programs within programs

    A service that calls another service makes that service's calls. *)


Section embedding.
Context {call1 : Type} {answer1 : call1 -> Type} {call2 : Type} {answer2 : call2 -> Type}.
Context (up : call1 -> call2) (down : forall c, answer2 (up c) -> answer1 c).

(** The calls of [p], as calls of the larger program. *)
Fixpoint embed {A} (p : prog answer1 A) : prog answer2 A :=
  match p with
  | Done r => Done r
  | Do c k => Do (up c) (fun x => embed (k (down c x)))
  end.

Lemma embed_calls_only {A} (P : call2 -> Prop) (p : prog answer1 A) :
  calls_only (fun c => P (up c)) p -> calls_only P (embed p).
Proof. induction p as [r|c k IH]; cbn; [done|]. intros [Hc Hk]. split; [done|]. intros x. by apply IH. Qed.

Lemma embed_any {A} (P : call2 -> Prop) (p : prog answer1 A) : (forall c, P (up c)) -> calls_only P (embed p).
Proof. intros Hp. induction p as [r|c k IH]; cbn; [done|]. split; [apply Hp|]. intros x. by apply IH. Qed.

(** What a program's runs return, its embedding's runs return. *)
Lemma embed_returns {A} (P : result A -> Prop) (p : prog answer1 A) :
  (forall t r, runs p t r -> P r) -> forall t r, runs (embed p) t r -> P r.
Proof.
  intros Hp t. revert Hp t. induction p as [r|c k IH]; intros Hp t r'; cbn.
  - intros [-> ->]. by eapply Hp.
  - intros (x & t' & -> & Hr). eapply (IH (down c x)); [|exact Hr]. intros t r Hr'. eapply Hp. by exists (down c x), t.
Qed.

(** The runs of an embedding are those of the program, their events seen as
    events of the larger one. *)
Definition up_event (back : forall c, answer1 c -> answer2 (up c)) (ev : event answer1) : event answer2 :=
  existT (up (projT1 ev)) (back _ (projT2 ev)).

Lemma embed_runs {A} (back : forall c, answer1 c -> answer2 (up c)) (p : prog answer1 A) t r :
  (forall c x, back c (down c x) = x) -> runs (embed p) t r -> exists t', t = up_event back <$> t' /\ runs p t' r.
Proof.
  intros Hback. revert t. induction p as [r'|c k IH]; intros t; cbn.
  - intros [-> ->]. by exists [].
  - intros (x & t1 & -> & (t' & -> & Hr)%IH). exists (existT c (down c x) :: t'). split; [|by exists (down c x), t'].
    cbn. unfold up_event; cbn. by rewrite Hback.
Qed.

(** It keeps the protocol of the larger program when the smaller one keeps
    its own. *)
Lemma embed_obeys {A} (rely1 : event answer1 -> Prop) (allowed1 : list (event answer1) -> call1 -> Prop)
    (rely : event answer2 -> Prop) (allowed : list (event answer2) -> call2 -> Prop)
    (Q : result A -> Prop) (p : prog answer1 A) h1 h :
  (forall c x, rely (existT (up c) x) -> rely1 (existT c (down c x))) ->
  (forall h' c, allowed h' (up c)) ->
  obeys rely1 allowed1 (fun _ => Q) h1 p -> obeys rely allowed (fun _ => Q) h (embed p).
Proof.
  intros Hrely Hallowed. revert h1 h. induction p as [r|c k IH]; intros h1 h; cbn; [done|].
  intros [_ Hk]. split; [apply Hallowed|]. intros x Hx. eapply IH, Hk, Hrely, Hx.
Qed.
End embedding.
