(* ===== verification/CreditAlerts.v ===== *)
(** * credits.go, lines 1640-1725: who has been told of a low balance

    For every account the service remembers the thresholds the balance is
    known to be below, so that each is announced once until the balance has
    risen above it again.  The accounts are kept in a list, least recently
    charged first, and the oldest are forgotten beyond a maximum.  Each
    definition here is what one critical section of [lowBalanceMu] does. *)

From S2P Require Export Decimal Effects.
Local Open Scope Z_scope.
Local Open Scope go_scope.

(** [lowBalanceState], [lowBalanceOrder] and [lowBalanceUsers].  A
    [list.Element] is an identity, its value the user; the list is front
    first, and [nextElement] is an identity not yet used. *)
Record LowBalanceTracker := {
  lowBalanceState : gmap string (gset string);
  lowBalanceOrder : list (nat * string);
  lowBalanceUsers : gmap string nat;
  nextElement : nat;
}.

Definition new_tracker : LowBalanceTracker :=
  {| lowBalanceState := ∅; lowBalanceOrder := []; lowBalanceUsers := ∅; nextElement := 0 |}.

(** [list.Remove] and [list.MoveToBack]. *)
Definition Remove (element : nat) (order : list (nat * string)) : list (nat * string) :=
  filter (fun e => e.1 <> element) order.

Definition MoveToBack (element : nat) (order : list (nat * string)) : list (nat * string) :=
  Remove element order ++ filter (fun e => e.1 = element) order.

(** [for s.lowBalanceOrder.Len() > s.lowBalanceMaxTracked]; the maximum is at
    least one. *)
Fixpoint forget_oldest (maxTracked : Z) (t : LowBalanceTracker) (order : list (nat * string)) : LowBalanceTracker :=
  match order with
  | (_, oldestUser) :: rest =>
      if maxTracked <? Z.of_nat (length order)
      then forget_oldest maxTracked
             {| lowBalanceState := delete oldestUser (lowBalanceState t); lowBalanceOrder := rest;
                lowBalanceUsers := delete oldestUser (lowBalanceUsers t); nextElement := nextElement t |} rest
      else t
  | [] => t
  end.

Definition with_order (t : LowBalanceTracker) (order : list (nat * string)) : LowBalanceTracker :=
  {| lowBalanceState := lowBalanceState t; lowBalanceOrder := order;
     lowBalanceUsers := lowBalanceUsers t; nextElement := nextElement t |}.

Definition with_state (t : LowBalanceTracker) (state : gmap string (gset string)) : LowBalanceTracker :=
  {| lowBalanceState := state; lowBalanceOrder := lowBalanceOrder t;
     lowBalanceUsers := lowBalanceUsers t; nextElement := nextElement t |}.

(** The user's element at the back with an empty set. *)
Definition track (t : LowBalanceTracker) (userID : string) : LowBalanceTracker :=
  {| lowBalanceState := <[userID := ∅]> (lowBalanceState t);
     lowBalanceOrder := lowBalanceOrder t ++ [(nextElement t, userID)];
     lowBalanceUsers := <[userID := nextElement t]> (lowBalanceUsers t);
     nextElement := S (nextElement t) |}.

(** The set it answers is the one [lowBalanceState] holds for the user. *)
Definition lowBalanceStateForUserLocked (maxTracked : Z) (t : LowBalanceTracker) (userID : string)
    : LowBalanceTracker * gset string :=
  match lowBalanceUsers t !! userID with
  | Some element =>
      (with_order t (MoveToBack element (lowBalanceOrder t)), default ∅ (lowBalanceState t !! userID))
  | None =>
      let t := track t userID in
      (forget_oldest maxTracked t (lowBalanceOrder t), ∅)
  end.

Section alerts.
Context {D : Type} `{DecimalOps D}.

Definition threshold_key (threshold : D) : string := StringFixed threshold MoneyDecimalPlaces.

(** The body of the loop of [emitLowBalance] over the thresholds. *)
Definition cross_threshold (balanceAfter : D) (acc : gset string * option D) (threshold : D)
    : gset string * option D :=
  let '(below, fire) := acc in
  let key := threshold_key threshold in
  if LessThanOrEqual balanceAfter threshold then
    if decide (key ∈ below) then (below, fire)
    else ({[key]} ∪ below,
          match fire with
          | None => Some threshold
          | Some fired => if LessThan threshold fired then Some threshold else fire
          end)
  else (below ∖ {[key]}, fire).

(** The section of [emitLowBalance]: the threshold to announce, if any.  The
    set is mutated in place, so the change shows wherever the tracker still
    holds it. *)
Definition cross_low_balance (thresholds : list D) (maxTracked : Z) (t : LowBalanceTracker) (userID : string)
    (balanceAfter : D) : LowBalanceTracker * option D :=
  let '(t, below) := lowBalanceStateForUserLocked maxTracked t userID in
  let '(below, fire) := foldl (cross_threshold balanceAfter) (below, None) thresholds in
  (with_state t (alter (fun _ => below) userID (lowBalanceState t)), fire).

(** The body of the loop of [rearmLowBalance]. *)
Definition rearm_threshold (balance : D) (below : gset string) (threshold : D) : gset string :=
  if GreaterThan balance threshold then below ∖ {[threshold_key threshold]} else below.

(** The section of [rearmLowBalance]. *)
Definition rearm_low_balance (thresholds : list D) (t : LowBalanceTracker) (userID : string) (balance : D)
    : LowBalanceTracker :=
  match lowBalanceState t !! userID with
  | None => t
  | Some below =>
      let below := foldl (rearm_threshold balance) below thresholds in
      if decide (below = ∅) then
        {| lowBalanceState := delete userID (lowBalanceState t);
           lowBalanceOrder := match lowBalanceUsers t !! userID with
                              | Some element => Remove element (lowBalanceOrder t)
                              | None => lowBalanceOrder t
                              end;
           lowBalanceUsers := delete userID (lowBalanceUsers t);
           nextElement := nextElement t |}
      else with_state t (<[userID := below]> (lowBalanceState t))
  end.

(** ** The sections one service runs, in the order of its mutex *)
Inductive section :=
  | Charged (userID : string) (balance : D)
  | Granted (userID : string) (balance : D).

Definition section_user (e : section) : string :=
  match e with Charged userID _ | Granted userID _ => userID end.

Definition section_step (thresholds : list D) (maxTracked : Z) (t : LowBalanceTracker) (e : section)
    : LowBalanceTracker * option D :=
  match e with
  | Charged userID balance => cross_low_balance thresholds maxTracked t userID balance
  | Granted userID balance => (rearm_low_balance thresholds t userID balance, None)
  end.

(** The tracker after a history of sections. *)
Definition tracked (thresholds : list D) (maxTracked : Z) (history : list section) : LowBalanceTracker :=
  foldl (fun t e => (section_step thresholds maxTracked t e).1) new_tracker history.

(** ** What the alerts promise, account by account

    A threshold is armed for an account unless the account's balance was last
    seen at or below it by a charge, and has not been seen above it since. *)
Definition armed_step (threshold : D) (armed : bool) (e : section) : bool :=
  match e with
  | Charged _ balance => GreaterThan balance threshold
  | Granted _ balance => armed || GreaterThan balance threshold
  end.

Definition armed (userID : string) (history : list section) (threshold : D) : bool :=
  foldl (armed_step threshold) true (filter (fun e => section_user e = userID) history).

(** A charge announces the lowest armed threshold it brings the balance to or
    below; the thresholds are listed from the highest. *)
Definition announced (thresholds : list D) (history : list section) (userID : string) (balance : D) : option D :=
  last (filter (fun t => LessThanOrEqual balance t && armed userID history t) thresholds).
End alerts.
Arguments section : clear implicits.
