(* ===== verification/CreditAlertsFacts.v ===== *)
(** * The low-balance alerts do what they promise

    The tracker of CreditAlerts.v is coherent and bounded after every history
    of sections, and while no account is forgotten it announces exactly the
    thresholds of the account-by-account specification [announced]. *)

From S2P Require Export CreditAlerts.
From S2P Require Import DecimalRef.
Local Open Scope Z_scope.

(** ** The tracker's invariant *)

Record coherent (t : LowBalanceTracker) : Prop := {
  order_nodup : NoDup (lowBalanceOrder t).*1;
  order_users : forall element userID,
    (element, userID) ∈ lowBalanceOrder t <-> lowBalanceUsers t !! userID = Some element;
  state_users : forall userID,
    lowBalanceState t !! userID = None <-> lowBalanceUsers t !! userID = None;
  element_fresh : forall element userID,
    (element, userID) ∈ lowBalanceOrder t -> (element < nextElement t)%nat;
}.

Lemma NoDup_fst_inj (order : list (nat * string)) e u u' :
  NoDup order.*1 -> (e, u) ∈ order -> (e, u') ∈ order -> u = u'.
Proof.
  induction order as [|[e0 u0] order IH]; [set_solver|].
  rewrite fmap_cons. intros [Hin Hnd]%NoDup_cons [He|He]%elem_of_cons [He'|He']%elem_of_cons.
  - congruence.
  - injection He as -> ->. destruct Hin. apply list_elem_of_fmap. by exists (e0, u').
  - injection He' as -> ->. destruct Hin. apply list_elem_of_fmap. by exists (e0, u).
  - by apply IH.
Qed.

(** An element belongs to one account. *)
Lemma coherent_inj t e u u' :
  coherent t -> lowBalanceUsers t !! u = Some e -> lowBalanceUsers t !! u' = Some e -> u = u'.
Proof. intros [Hnd Hou _ _] H1%Hou H2%Hou. by eapply NoDup_fst_inj. Qed.

Lemma coherent_new : coherent new_tracker.
Proof. split; cbn; [constructor| | |]; intros; set_solver. Qed.

Lemma coherent_with_state t state :
  coherent t -> (forall userID, state !! userID = None <-> lowBalanceState t !! userID = None) ->
  coherent (with_state t state).
Proof. intros [] Hs. split; [done..| |done]. intros userID. cbn. by rewrite Hs. Qed.

Lemma elem_of_MoveToBack element order e : e ∈ MoveToBack element order <-> e ∈ order.
Proof.
  unfold MoveToBack, Remove. rewrite elem_of_app, !list_elem_of_filter.
  destruct (decide (e.1 = element)); naive_solver.
Qed.

Lemma NoDup_filter_fst (P : nat * string -> Prop) `{!forall x, Decision (P x)} order :
  NoDup order.*1 -> NoDup (filter P order).*1.
Proof.
  induction order as [|e order IH]; [done|]. rewrite fmap_cons. intros [Hin Hnd]%NoDup_cons.
  rewrite filter_cons. case_decide; [|by apply IH]. rewrite fmap_cons. apply NoDup_cons. split; [|by apply IH].
  intros ([? ?] & He & [_ ?]%list_elem_of_filter)%list_elem_of_fmap. apply Hin, list_elem_of_fmap. eauto.
Qed.

Lemma NoDup_MoveToBack element order : NoDup order.*1 -> NoDup (MoveToBack element order).*1.
Proof.
  intros Hnd. unfold MoveToBack, Remove. rewrite fmap_app.
  apply NoDup_app. split_and!; try by apply NoDup_filter_fst.
  intros x ([e u] & -> & [Hne _]%list_elem_of_filter)%list_elem_of_fmap
    ([e' u'] & He & [Heq _]%list_elem_of_filter)%list_elem_of_fmap. cbn in *. congruence.
Qed.

Lemma length_MoveToBack element order : length (MoveToBack element order) = length order.
Proof.
  unfold MoveToBack, Remove. rewrite length_app. induction order as [|[e u] order IH]; [done|].
  rewrite !filter_cons. cbn [fst].
  repeat case_decide; cbn [length] in *; try done; lia.
Qed.

Lemma coherent_move t element : coherent t -> coherent (with_order t (MoveToBack element (lowBalanceOrder t))).
Proof.
  intros []. split; cbn; [by apply NoDup_MoveToBack| |done|].
  - intros e u. by rewrite elem_of_MoveToBack.
  - intros e u. rewrite elem_of_MoveToBack. eauto.
Qed.

Lemma coherent_track t userID : coherent t -> lowBalanceUsers t !! userID = None -> coherent (track t userID).
Proof.
  intros [Hnd Hou Hsu Hf] Hnone. split; cbn.
  - rewrite fmap_app. apply NoDup_app. split_and!; [done| |apply NoDup_singleton].
    intros e [[e' u] [-> Hin]]%list_elem_of_fmap. apply Hf in Hin. cbn. set_unfold. lia.
  - intros e u. rewrite elem_of_app, Hou, list_elem_of_singleton, lookup_insert_Some. naive_solver.
  - intros u. rewrite !lookup_insert_None, Hsu. done.
  - intros e u [Hin|Hin]%elem_of_app; [apply Hf in Hin; lia|].
    apply list_elem_of_singleton in Hin. injection Hin. lia.
Qed.

(** Forgetting keeps what is left coherent, and within the maximum. *)
Lemma forget_oldest_coherent maxTracked t :
  0 <= maxTracked -> coherent t ->
  let t' := forget_oldest maxTracked t (lowBalanceOrder t) in
  coherent t' /\ Z.of_nat (length (lowBalanceOrder t')) <= maxTracked.
Proof.
  intros Hmax. remember (lowBalanceOrder t) as order eqn:Ho. revert t Ho.
  induction order as [|[e u] rest IH]; intros t Ho Hc; cbn -[Z.of_nat].
  { split; [done|]. rewrite <- Ho. done. }
  destruct (Z.ltb_spec maxTracked (Z.of_nat (S (length rest)))) as [Hlt|Hge].
  2: { split; [done|]. by rewrite <- Ho. }
  apply IH; [done|]. destruct Hc as [Hnd Hou Hsu Hf]. rewrite <- Ho in *.
  apply NoDup_cons in Hnd as [Hin Hnd]. split; cbn; [done| | |].
  - intros e' u'. rewrite lookup_delete_Some, <- Hou, elem_of_cons. split; [|naive_solver].
    intros He. split; [|by right]. intros ->. apply Hin, list_elem_of_fmap. exists (e', u').
    split; [|done]. cut (Some e = Some e'); [congruence|]. rewrite <- (proj1 (Hou e u')), <- (proj1 (Hou e' u')); set_solver.
  - intros u'. rewrite !lookup_delete_None, Hsu. done.
  - intros e' u' He. apply (Hf e' u'). by right.
Qed.

(** Nothing is forgotten while there is room. *)
Lemma forget_oldest_room maxTracked t :
  Z.of_nat (length (lowBalanceOrder t)) <= maxTracked -> forget_oldest maxTracked t (lowBalanceOrder t) = t.
Proof.
  intros Hle. destruct (lowBalanceOrder t) as [|[e u] rest]; [done|].
  cbn [forget_oldest]. by rewrite (proj2 (Z.ltb_ge _ _)).
Qed.

Definition within (maxTracked : Z) (t : LowBalanceTracker) : Prop :=
  coherent t /\ Z.of_nat (length (lowBalanceOrder t)) <= maxTracked.

Lemma locked_within maxTracked t userID :
  0 <= maxTracked -> within maxTracked t ->
  within maxTracked (lowBalanceStateForUserLocked maxTracked t userID).1.
Proof.
  intros Hmax [Hc Hle]. unfold lowBalanceStateForUserLocked.
  destruct (lowBalanceUsers t !! userID) as [e|] eqn:He; cbn.
  - split; [by apply coherent_move|]. cbn. by rewrite length_MoveToBack.
  - apply (forget_oldest_coherent maxTracked (track t userID)); [done|]. by apply coherent_track.
Qed.

(** The list holds each tracked account once, so that its length is their
    number. *)
Lemma coherent_nodup t : coherent t -> NoDup (lowBalanceOrder t).*2.
Proof.
  intros [Hnd Hou _ _]. apply NoDup_fmap_2_strong; [|by eapply NoDup_fmap_1].
  intros [e u] [e' u'] H1 H2 Heq. cbn in Heq. subst u'. apply Hou in H1, H2. congruence.
Qed.

Lemma coherent_users t userID :
  coherent t -> userID ∈ (lowBalanceOrder t).*2 <-> is_Some (lowBalanceState t !! userID).
Proof.
  intros [_ Hou Hsu _]. rewrite list_elem_of_fmap, <- not_eq_None_Some, Hsu, not_eq_None_Some. split.
  - intros ([e u] & -> & Hin). exists e. by apply Hou.
  - intros [e He]. exists (e, userID). split; [done|]. by apply Hou.
Qed.

Lemma coherent_size t : coherent t -> size (lowBalanceState t) = length (lowBalanceOrder t).
Proof.
  intros Hc. rewrite <- size_dom, <- (length_fmap snd), <- (size_list_to_set (C := gset string)) by by apply coherent_nodup.
  f_equal. apply set_eq. intros u. by rewrite elem_of_dom, elem_of_list_to_set, coherent_users.
Qed.

Section tracker.
Context {D : Type} `{DecimalOps D} (thresholds : list D) (maxTracked : Z).

Lemma alter_coherent t userID below :
  coherent t -> coherent (with_state t (alter (fun _ => below) userID (lowBalanceState t))).
Proof. intros Hc. apply coherent_with_state; [done|]. intros u. by rewrite lookup_alter_None. Qed.

Lemma rearm_within t userID balance :
  within maxTracked t -> within maxTracked (rearm_low_balance thresholds t userID balance).
Proof.
  intros [Hc Hle]. unfold rearm_low_balance. destruct (lowBalanceState t !! userID) as [below|] eqn:Hb; [|done].
  cbn zeta. case_decide as Hempty.
  - pose proof Hc as [Hnd Hou Hsu Hf]. destruct (lowBalanceUsers t !! userID) as [e|] eqn:He.
    2: { by rewrite (proj2 (Hsu userID) He) in Hb. }
    unfold within. split; [split|]; cbn.
    + by apply NoDup_filter_fst.
    + intros e' u'. unfold Remove. rewrite list_elem_of_filter, Hou, lookup_delete_Some. cbn.
      split; intros [Hne Hu]; split; try done; [congruence|].
      intros ->. by apply Hne, (coherent_inj t e).
    + intros u'. rewrite !lookup_delete_None, Hsu. done.
    + intros e' u' [_ Hin]%list_elem_of_filter. by eapply Hf.
    + etransitivity; [|exact Hle]. apply inj_le, length_filter.
  - split; [|done]. apply coherent_with_state; [done|]. intros u. rewrite lookup_insert_None. naive_solver.
Qed.
Lemma step_within t e :
  0 <= maxTracked -> within maxTracked t -> within maxTracked (section_step thresholds maxTracked t e).1.
Proof.
  intros Hmax Hw. destruct e as [userID balance|userID balance]; [|by apply rearm_within].
  unfold section_step, cross_low_balance.
  pose proof (locked_within _ _ userID Hmax Hw) as [Hc Hle].
  destruct (lowBalanceStateForUserLocked maxTracked t userID) as [t' below].
  destruct (foldl _ _ _) as [below' fire]. split; [by apply alter_coherent|done].
Qed.

Lemma tracked_snoc history e :
  tracked thresholds maxTracked (history ++ [e]) =
  (section_step thresholds maxTracked (tracked thresholds maxTracked history) e).1.
Proof. unfold tracked. by rewrite foldl_app. Qed.

Lemma tracked_within history : 0 <= maxTracked -> within maxTracked (tracked thresholds maxTracked history).
Proof.
  intros Hmax. induction history as [|e history IH] using rev_ind.
  - split; [apply coherent_new|done].
  - rewrite tracked_snoc. by apply step_within.
Qed.

(** ** What the loops over the thresholds compute *)

Lemma filter_ext_in {A} (f g : A -> bool) (l : list A) : (forall x, x ∈ l -> f x = g x) -> filter f l = filter g l.
Proof.
  induction l as [|x l IH]; intros Hfg; [done|]. rewrite !filter_cons.
  rewrite IH by (intros; apply Hfg; by right). by rewrite (Hfg x) by left.
Qed.

Section loops.
Hypothesis Hkeys : NoDup (threshold_key <$> thresholds).
Hypothesis Hsorted : StronglySorted (fun a b => LessThan b a = true) thresholds.

Lemma key_inj t t' : t ∈ thresholds -> t' ∈ thresholds -> threshold_key t = threshold_key t' -> t = t'.
Proof.
  intros Ht Ht' Hkey. induction thresholds as [|t0 thr IH]; [set_solver|].
  rewrite fmap_cons in Hkeys. apply NoDup_cons in Hkeys as [Hin Hnd].
  apply StronglySorted_inv in Hsorted as [Hs _].
  apply elem_of_cons in Ht as [->|Ht], Ht' as [->|Ht']; [done| | |by apply IH];
    destruct Hin; [rewrite Hkey|rewrite <- Hkey]; by apply list_elem_of_fmap_2.
Qed.

(** The set afterwards: the thresholds at or above the balance, and what was
    there under other keys. *)
Lemma cross_below balance thr below fire key :
  NoDup (threshold_key <$> thr) ->
  key ∈ (foldl (cross_threshold balance) (below, fire) thr).1 <->
  (exists t, t ∈ thr /\ threshold_key t = key /\ LessThanOrEqual balance t = true) \/
  (key ∈ below /\ forall t, t ∈ thr -> threshold_key t <> key).
Proof.
  revert below fire. induction thr as [|t thr IH]; intros below fire; [set_solver|].
  rewrite fmap_cons. intros [Hin Hnd]%NoDup_cons. cbn [foldl].
  assert (forall t', t' ∈ thr -> threshold_key t' <> threshold_key t) as Hother.
  { intros t' Ht' Heq. apply Hin. rewrite <- Heq. by apply list_elem_of_fmap_2. }
  destruct (cross_threshold balance (below, fire) t) as [below' fire'] eqn:Hstep.
  rewrite IH by done.
  assert (key ∈ below' <-> (threshold_key t = key /\ LessThanOrEqual balance t = true) \/
                           (key ∈ below /\ threshold_key t <> key)) as Hb.
  { unfold cross_threshold in Hstep. destruct (LessThanOrEqual balance t); [case_decide|];
      injection Hstep as <- <-; destruct (decide (threshold_key t = key)) as [<-|]; set_solver. }
  rewrite Hb. setoid_rewrite elem_of_cons. naive_solver.
Qed.

(** What is announced: the last threshold, from the highest, that the balance
    reaches and the set did not hold. *)
Lemma cross_fire balance thr below fire :
  NoDup (threshold_key <$> thr) -> StronglySorted (fun a b => LessThan b a = true) thr ->
  (forall f t, fire = Some f -> t ∈ thr -> LessThan t f = true) ->
  (foldl (cross_threshold balance) (below, fire) thr).2 =
  match last (filter (fun t => LessThanOrEqual balance t && negb (bool_decide (threshold_key t ∈ below))) thr) with
  | Some t => Some t
  | None => fire
  end.
Proof.
  revert below fire. induction thr as [|t thr IH]; intros below fire; [done|].
  rewrite fmap_cons. intros [Hin Hnd]%NoDup_cons [Hs Hall]%StronglySorted_inv Hfire. cbn [foldl].
  assert (forall below' : gset string, (forall key, key <> threshold_key t -> key ∈ below' <-> key ∈ below) ->
    filter (fun t => LessThanOrEqual balance t && negb (bool_decide (threshold_key t ∈ below'))) thr =
    filter (fun t => LessThanOrEqual balance t && negb (bool_decide (threshold_key t ∈ below))) thr) as Hother.
  { intros below' Hk. apply filter_ext_in. intros t' Ht'.
    rewrite (bool_decide_ext _ (threshold_key t' ∈ below)); [done|]. apply Hk.
    intros Heq. apply Hin. rewrite <- Heq. by apply list_elem_of_fmap_2. }
  assert (forall f t', fire = Some f -> t' ∈ thr -> LessThan t' f = true) as Htail
    by (intros f t' Hf Ht'; apply (Hfire f t' Hf); by right).
  unfold cross_threshold at 2. destruct (LessThanOrEqual balance t) eqn:Hle.
  2: { rewrite filter_cons_False by (rewrite Hle; by intros []). rewrite IH by done. rewrite Hother by set_solver. done. }
  destruct (decide (threshold_key t ∈ below)) as [Hb|Hb].
  - rewrite filter_cons_False by (rewrite Hle, bool_decide_eq_true_2 by done; by intros []). by rewrite IH.
  - replace (match fire with Some fired => if LessThan t fired then Some t else fire | None => Some t end)
      with (Some t).
    2: { destruct fire as [f|]; [|done]. by rewrite (Hfire f t) by set_solver. }
    rewrite filter_cons_True by (rewrite Hle, bool_decide_eq_false_2 by done; exact I).
    rewrite IH; [rewrite Hother by set_solver|done|done|].
    + rewrite last_cons. by destruct (last _).
    + intros f t' [= <-] Ht'. rewrite Forall_forall in Hall. by apply Hall.
Qed.

Lemma rearm_below balance thr below key :
  key ∈ foldl (rearm_threshold balance) below thr <->
  key ∈ below /\ forall t, t ∈ thr -> threshold_key t = key -> GreaterThan balance t = false.
Proof.
  revert below. induction thr as [|t thr IH]; intros below; cbn [foldl]; [set_solver|].
  assert (key ∈ rearm_threshold balance below t <->
          key ∈ below /\ (threshold_key t = key -> GreaterThan balance t = false)) as Hstep.
  { unfold rearm_threshold. destruct (GreaterThan balance t); [|naive_solver].
    rewrite elem_of_difference, elem_of_singleton. split; intros [Hin Hk]; (split; [done|]).
    - intros <-. by destruct Hk.
    - intros ->. by discriminate Hk. }
  rewrite IH, Hstep. clear. split.
  - intros [[Hb Ht] Hthr]. split; [done|]. intros t' [->|Ht']%elem_of_cons; [done|by apply Hthr].
  - intros [Hb Hall]. split_and!; [done| |]; intros; apply Hall; try done; [by left|by right].
Qed.

(** ** One section, when nothing is forgotten *)

Definition below_of (t : LowBalanceTracker) (userID : string) : gset string :=
  default ∅ (lowBalanceState t !! userID).

Definition room (t : LowBalanceTracker) (userID : string) : Prop :=
  lowBalanceState t !! userID = None -> Z.of_nat (length (lowBalanceOrder t)) < maxTracked.

Lemma locked_room t userID :
  within maxTracked t -> room t userID ->
  let '(t', below) := lowBalanceStateForUserLocked maxTracked t userID in
  below = below_of t userID /\ lowBalanceState t' = <[userID := below]> (lowBalanceState t).
Proof.
  intros [[_ _ Hsu _] _] Hroom. unfold lowBalanceStateForUserLocked, below_of.
  destruct (lowBalanceUsers t !! userID) as [e|] eqn:He.
  - split; [done|]. cbn. destruct (lowBalanceState t !! userID) as [below|] eqn:Hb; [by rewrite insert_id|].
    apply Hsu in Hb. congruence.
  - apply Hsu in He. rewrite He. split; [done|]. cbn zeta. rewrite forget_oldest_room; [done|].
    cbn. rewrite length_app. cbn. specialize (Hroom He). lia.
Qed.

Lemma cross_state t userID balance :
  within maxTracked t -> room t userID ->
  let '(t', fire) := cross_low_balance thresholds maxTracked t userID balance in
  let '(below, fire') := foldl (cross_threshold balance) (below_of t userID, None) thresholds in
  lowBalanceState t' = <[userID := below]> (lowBalanceState t) /\ fire = fire'.
Proof.
  intros Hw Hroom. pose proof (locked_room t userID Hw Hroom) as Hl. unfold cross_low_balance.
  destruct (lowBalanceStateForUserLocked maxTracked t userID) as [t' below]. destruct Hl as [-> Hs].
  destruct (foldl _ _ _) as [below' fire]. split; [|done]. cbn. rewrite Hs.
  apply map_eq. intros u. destruct (decide (u = userID)) as [->|Hne].
  - by rewrite lookup_alter_eq, !lookup_insert_eq.
  - by rewrite lookup_alter_ne, !lookup_insert_ne.
Qed.

Lemma rearm_state t userID balance u :
  below_of (rearm_low_balance thresholds t userID balance) u =
  (if decide (u = userID) then foldl (rearm_threshold balance) (below_of t userID) thresholds else below_of t u).
Proof.
  unfold rearm_low_balance, below_of.
  destruct (lowBalanceState t !! userID) as [below|] eqn:Hb; cbn zeta.
  - destruct (decide (foldl _ below thresholds = ∅)) as [He|He]; cbn; destruct (decide (u = userID)) as [->|Hne];
      rewrite ?lookup_delete_eq, ?lookup_delete_ne, ?lookup_insert_eq, ?lookup_insert_ne by done; done.
  - destruct (decide (u = userID)) as [->|Hne]; [|done]. rewrite Hb. cbn. symmetry.
    apply set_eq. intros key. rewrite rearm_below. set_solver.
Qed.

(** ** The tracker against the specification *)

Definition users_of (history : list (section D)) : gset string := list_to_set (section_user <$> history).

Lemma armed_snoc userID history e threshold :
  armed userID (history ++ [e]) threshold =
  if decide (section_user e = userID) then armed_step threshold (armed userID history threshold) e
  else armed userID history threshold.
Proof.
  unfold armed. rewrite filter_app, foldl_app, filter_cons. by destruct (decide _).
Qed.

Lemma users_of_snoc history e : users_of (history ++ [e]) = users_of history ∪ {[section_user e]}.
Proof. unfold users_of. rewrite fmap_app, list_to_set_app_L. cbn. by rewrite union_empty_r_L. Qed.

Definition agrees (t : LowBalanceTracker) (history : list (section D)) : Prop :=
  (forall userID, is_Some (lowBalanceState t !! userID) -> userID ∈ users_of history) /\
  (forall userID threshold, threshold ∈ thresholds ->
     threshold_key threshold ∈ below_of t userID <-> armed userID history threshold = false).

Lemma agrees_room t history e :
  within maxTracked t -> agrees t history ->
  Z.of_nat (size (users_of (history ++ [e]))) <= maxTracked -> room t (section_user e).
Proof.
  intros [Hc _] [Hdom _] Hsize Hnone. rewrite <- coherent_size by done. rewrite users_of_snoc in Hsize.
  enough (size (lowBalanceState t) < size (users_of history ∪ {[section_user e]}))%nat by lia.
  rewrite <- size_dom. apply subset_size. split.
  - intros u [below Hu]%elem_of_dom. apply elem_of_union_l, Hdom. by exists below.
  - intros Hsub. apply not_elem_of_dom in Hnone. apply Hnone, Hsub, elem_of_union_r. by apply elem_of_singleton.
Qed.

Lemma agrees_charged t history userID balance :
  within maxTracked t -> room t userID -> agrees t history ->
  agrees (cross_low_balance thresholds maxTracked t userID balance).1 (history ++ [Charged userID balance]).
Proof.
  intros Hw Hroom [Hdom Hbelow]. pose proof (cross_state t userID balance Hw Hroom) as Hs.
  destruct (cross_low_balance _ _ _ _ _) as [t' fire].
  pose proof (fun key => cross_below balance thresholds (below_of t userID) None key Hkeys) as Hb.
  destruct (foldl _ _ _) as [below fire']. destruct Hs as [Hs _]. cbn [fst] in *. split.
  - intros u. rewrite Hs, users_of_snoc. cbn. destruct (decide (u = userID)) as [->|Hne]; [set_solver|].
    rewrite lookup_insert_ne by done. intros Hu%Hdom. set_solver.
  - intros u threshold Hin. rewrite armed_snoc. unfold below_of. rewrite Hs. cbn [section_user armed_step].
    destruct (decide (userID = u)) as [<-|Hne].
    + rewrite lookup_insert_eq. cbn [default]. unfold id. rewrite Hb. unfold LessThanOrEqual. split.
      * intros [(t0 & Ht0 & Hkey & Hle)|[_ Hno]]; [|by destruct (Hno threshold)].
        by rewrite <- (key_inj t0 threshold) by done; apply negb_true_iff.
      * intros Hgt. left. exists threshold. by rewrite Hgt.
    + rewrite lookup_insert_ne by done. by apply Hbelow.
Qed.

Lemma agrees_granted t history userID balance :
  agrees t history ->
  agrees (rearm_low_balance thresholds t userID balance) (history ++ [Granted userID balance]).
Proof.
  intros [Hdom Hbelow]. split.
  - intros u. rewrite users_of_snoc. cbn. destruct (decide (u = userID)) as [->|Hne]; [set_solver|].
    intros Hu. apply elem_of_union_l, Hdom. revert Hu. unfold rearm_low_balance.
    destruct (lowBalanceState t !! userID); [|done]. cbn zeta. destruct (decide _); cbn;
      by rewrite ?lookup_delete_ne, ?lookup_insert_ne by done.
  - intros u threshold Hin. rewrite rearm_state, armed_snoc. cbn [section_user armed_step].
    destruct (decide (userID = u)) as [<-|Hne]; [|rewrite decide_False by done; by apply Hbelow].
    rewrite decide_True, rearm_below, Hbelow by done. rewrite orb_false_iff.
    split; intros [Ha Hg]; (split; [done|]); [by apply Hg|].
    intros t' Ht' Hkey. by rewrite (key_inj t' threshold).
Qed.

Lemma agrees_tracked history :
  Z.of_nat (size (users_of history)) <= maxTracked -> agrees (tracked thresholds maxTracked history) history.
Proof.
  induction history as [|e history IH] using rev_ind; intros Hsize.
  { split; [intros ? [? Hs]; cbn in Hs; by rewrite lookup_empty in Hs|]. intros u threshold Hin. unfold below_of.
    cbn. rewrite lookup_empty. set_solver. }
  assert (agrees (tracked thresholds maxTracked history) history) as Ha.
  { apply IH. etransitivity; [|exact Hsize]. rewrite users_of_snoc. apply inj_le, subseteq_size. set_solver. }
  assert (within maxTracked (tracked thresholds maxTracked history)) as Hw by (apply tracked_within; lia).
  rewrite tracked_snoc. pose proof (agrees_room _ _ _ Hw Ha Hsize) as Hroom.
  destruct e as [userID balance|userID balance]; [by apply agrees_charged|by apply agrees_granted].
Qed.

(** What a charge announces, in terms of the specification. *)
Lemma announced_correct history userID balance :
  Z.of_nat (size (users_of (history ++ [Charged userID balance]))) <= maxTracked ->
  (cross_low_balance thresholds maxTracked (tracked thresholds maxTracked history) userID balance).2 =
  announced thresholds history userID balance.
Proof.
  intros Hsize.
  assert (agrees (tracked thresholds maxTracked history) history) as Ha.
  { apply agrees_tracked. etransitivity; [|exact Hsize]. rewrite users_of_snoc.
    apply inj_le, subseteq_size. set_solver. }
  assert (within maxTracked (tracked thresholds maxTracked history)) as Hw by (apply tracked_within; lia).
  pose proof (agrees_room _ _ (Charged userID balance) Hw Ha Hsize) as Hroom.
  pose proof (cross_state _ userID balance Hw Hroom) as Hs.
  destruct (cross_low_balance _ _ _ _ _) as [t' fire]. set (below := below_of _ userID) in Hs.
  pose proof (cross_fire balance thresholds below None Hkeys Hsorted ltac:(done)) as Hf.
  destruct (foldl _ _ _) as [below' fire']. destruct Hs as [_ ->]. cbn [snd] in *. rewrite Hf. unfold announced.
  rewrite (filter_ext_in _ (fun t => LessThanOrEqual balance t && armed userID history t)).
  { match goal with |- match ?x with _ => _ end = _ => by destruct x end. }
  intros t Ht. cbn beta. f_equal.
  destruct Ha as [_ Ha]. specialize (Ha userID t Ht). fold below in Ha.
  case_bool_decide as Hb; destruct (armed userID history t); cbn; try done; [by apply Ha in Hb|].
  by destruct Hb; apply Ha.
Qed.

(** The account just charged is never the one forgotten. *)
Lemma forget_oldest_keeps t rest element userID :
  1 <= maxTracked -> coherent t -> lowBalanceOrder t = rest ++ [(element, userID)] ->
  lowBalanceState (forget_oldest maxTracked t (lowBalanceOrder t)) !! userID = lowBalanceState t !! userID.
Proof.
  intros Hmax Hc Ho. assert (lowBalanceUsers t !! userID = Some element) as Hu.
  { apply (order_users _ Hc). rewrite Ho. set_solver. }
  rewrite Ho. assert (forall e u, (e, u) ∈ rest -> u <> userID) as Hrest.
  { intros e u Hin ->. pose proof (order_nodup _ Hc) as Hnd. rewrite Ho in Hnd.
    assert (lowBalanceUsers t !! userID = Some e) as He.
    { apply (order_users _ Hc). rewrite Ho. set_solver. }
    rewrite fmap_app in Hnd. apply NoDup_app in Hnd as (_ & Hno & _).
    apply (Hno e); [|set_solver]. apply list_elem_of_fmap. by exists (e, userID). }
  clear Hc Ho Hu. revert t. induction rest as [|[e u] rest IH]; intros t; cbn [app forget_oldest].
  { by rewrite (proj2 (Z.ltb_ge _ _)). }
  destruct (maxTracked <? _); [|done]. rewrite IH by (intros; eapply Hrest; by right).
  cbn. rewrite lookup_delete_ne; [done|]. apply (Hrest e). by left.
Qed.

Lemma locked_tracks t userID :
  1 <= maxTracked -> within maxTracked t ->
  let '(t', below) := lowBalanceStateForUserLocked maxTracked t userID in
  lowBalanceState t' !! userID = Some below.
Proof.
  intros Hmax [Hc _]. unfold lowBalanceStateForUserLocked.
  destruct (lowBalanceUsers t !! userID) as [e|] eqn:He.
  - cbn. destruct (lowBalanceState t !! userID) eqn:Hs; [done|]. apply (state_users _ Hc) in Hs. congruence.
  - cbn zeta. rewrite (forget_oldest_keeps _ (lowBalanceOrder t) (nextElement t)); [|done|by apply coherent_track|done].
    apply lookup_insert_eq.
Qed.

Lemma cross_tracks t userID balance threshold :
  1 <= maxTracked -> within maxTracked t -> threshold ∈ thresholds ->
  threshold_key threshold ∈ below_of (cross_low_balance thresholds maxTracked t userID balance).1 userID <->
  LessThanOrEqual balance threshold = true.
Proof.
  intros Hmax Hw Hin. unfold cross_low_balance. pose proof (locked_tracks t userID Hmax Hw) as Hs.
  destruct (lowBalanceStateForUserLocked maxTracked t userID) as [t' below].
  pose proof (fun key => cross_below balance thresholds below None key Hkeys) as Hb.
  destruct (foldl _ _ _) as [below' fire]. unfold below_of. cbn [fst with_state lowBalanceState] in *.
  rewrite lookup_alter_eq, Hs. cbn. rewrite Hb. split.
  - intros [(t0 & Ht0 & Hkey & Hle)|[_ Hno]]; [|by destruct (Hno threshold)].
    by rewrite <- (key_inj t0 threshold).
  - intros Hle. left. by exists threshold.
Qed.
End loops.
End tracker.

Section promises.
Context {D : Type} `{DecimalLaws D} (thresholds : list D) (maxTracked : Z).

(** Thresholds of six places, each below the one before it, as a catalog of
    money amounts sorted by the constructor. *)
Definition money_thresholds : Prop :=
  Forall is_money thresholds /\ StronglySorted (fun a b => LessThan b a = true) thresholds.

Lemma money_keys : money_thresholds -> NoDup (threshold_key <$> thresholds).
Proof.
  intros [Hmoney Hsorted]. induction thresholds as [|t thr IH]; [constructor|].
  apply StronglySorted_inv in Hsorted as [Hs Hall]. apply Forall_cons in Hmoney as [Hm Hmoney].
  rewrite fmap_cons. apply NoDup_cons. split; [|by apply IH].
  intros (t' & Hkey & Hin)%list_elem_of_fmap. rewrite Forall_forall in Hall, Hmoney.
  specialize (Hall _ Hin). apply LessThan_spec in Hall. revert Hall. unfold threshold_key in Hkey.
  destruct (StringFixed_canonical t MoneyDecimalPlaces ltac:(unfold MoneyDecimalPlaces; lia)) as [_ Ht].
  destruct (StringFixed_canonical t' MoneyDecimalPlaces ltac:(unfold MoneyDecimalPlaces; lia)) as [_ Ht'].
  rewrite Hkey in Ht. rewrite Ht' in Ht.
  destruct Hm as [z Hz], (Hmoney _ Hin) as [z' Hz'].
  unfold MoneyDecimalPlaces in Ht. rewrite (round_places_exact _ _ _ Hz), (round_places_exact _ _ _ Hz') in Ht.
  rewrite Ht. apply Qlt_irrefl.
Qed.

(** C28: the memory of low-balance alerts is bounded and coherent.  After any
    history of charges and grants, of any accounts, in the order their critical
    sections ran, no more accounts are tracked than the configured maximum, the
    list and both maps know exactly the same accounts, each once, and an
    account's set holds exactly the thresholds its last charge left it at or
    below, even when that charge pushed another account out. *)
Theorem low_balance_tracker_bounded (history : list (section D)) :
  1 <= maxTracked -> money_thresholds ->
  let t := tracked thresholds maxTracked history in
  Z.of_nat (size (lowBalanceState t)) <= maxTracked /\
  NoDup (lowBalanceOrder t).*2 /\
  (forall userID, userID ∈ (lowBalanceOrder t).*2 <-> is_Some (lowBalanceState t !! userID)) /\
  (forall userID balance threshold, threshold ∈ thresholds ->
     threshold_key threshold ∈ below_of (cross_low_balance thresholds maxTracked t userID balance).1 userID <->
     (toQ balance <= toQ threshold)%Q).
Proof.
  intros Hmax Hthr t. assert (within maxTracked t) as Hw by (apply tracked_within; lia).
  pose proof Hw as [Hc Hle]. split_and!.
  - by rewrite coherent_size.
  - by apply coherent_nodup.
  - intros u. by apply coherent_users.
  - intros userID balance threshold Hin. rewrite <- LessThanOrEqual_spec.
    apply cross_tracks; first [done | by apply money_keys | apply Hthr].
Qed.

(** C27: low-balance alerts are edge triggered, account by account.  With
    thresholds of six places listed from the highest and no more accounts in
    the history than the service tracks, the charge of an account announces
    exactly the lowest threshold that its balance reaches and that is armed:
    never seen reached by an earlier charge of that account, or since then seen
    exceeded by one of its charges or grants.  What other accounts do in
    between makes no difference. *)
Theorem low_balance_alerts_refine (history : list (section D)) (userID : string) (balance : D) :
  money_thresholds ->
  Z.of_nat (size (users_of (history ++ [Charged userID balance]))) <= maxTracked ->
  (section_step thresholds maxTracked (tracked thresholds maxTracked history) (Charged userID balance)).2 =
  announced thresholds history userID balance.
Proof. intros Hthr. apply announced_correct; [by apply money_keys|apply Hthr]. Qed.
End promises.

(** ** A sample history: two accounts, two thresholds *)

Definition sample_thresholds : list Ref.dec := [lit "100"; lit "10"].

Definition sample_history : list (section Ref.dec) :=
  [Charged "user_1" (lit "250"); Charged "user_2" (lit "5"); Charged "user_1" (lit "90");
   Granted "user_2" (lit "50"); Charged "user_1" (lit "80")].

Lemma sample_money : money_thresholds sample_thresholds.
Proof.
  split.
  - repeat constructor; [exists 100000000|exists 10000000]; vm_compute; reflexivity.
  - repeat constructor.
Qed.

(** The charge of user_2 announces the threshold that its grant armed again. *)
Lemma low_balance_alerts_refine_witness :
  (section_step sample_thresholds 2 (tracked sample_thresholds 2 sample_history) (Charged "user_2" (lit "7"))).2
  = Some (lit "10").
Proof.
  rewrite (low_balance_alerts_refine sample_thresholds 2 sample_history "user_2" (lit "7")).
  - vm_compute. reflexivity.
  - exact sample_money.
  - vm_compute. discriminate.
Defined.

(** With room for one account only, each charge forgets the other's. *)
Lemma low_balance_tracker_bounded_witness :
  Z.of_nat (size (lowBalanceState (tracked sample_thresholds 1 sample_history))) <= 1.
Proof.
  exact (proj1 (low_balance_tracker_bounded sample_thresholds 1 sample_history ltac:(lia) sample_money)).
Defined.
