(* ===== verification/CreditCalls.v ===== *)
(** * What the credit and catalog services call

    The methods of [CreditStore] the services' programs use, the critical
    sections of the state they keep in memory, the callbacks they were given
    and the clock: each with what it answers.  A pointer that may be nil is an
    option; [(T, error)] is a result. *)

From S2P Require Export CreditTypes CreditAlerts Engine.
Local Open Scope Z_scope.

(** The data of a [CreditEvent]: the Go types the services put there. *)
Inductive event_datum {D : Type} :=
  | EString (s : string)
  | EBool (b : bool)
  | EInt (z : Z)
  | EAmount (d : D)
  | EAmounts (m : gmap string D)
  | EPercent (p : option float64)
  | ETime (t : Time).
Arguments event_datum : clear implicits.

Record CreditEvent {D : Type} := {
  CreditEvent_Type : string;
  CreditEvent_Timestamp : Time;
  CreditEvent_UserID : string;
  CreditEvent_Data : list (string * event_datum D);
}.
Arguments CreditEvent : clear implicits.

Module CreditEventType.
Definition Deducted := "credits.deducted".
Definition DeductFailed := "credits.deduct_failed".
Definition Added := "credits.added".
Definition Refunded := "credits.refunded".
Definition RefundFailed := "credits.refund_failed".
Definition Expired := "credits.expired".
Definition LowBalance := "credits.low_balance".
Definition PlanChanged := "credits.plan_changed".
Definition Reserved := "credits.reserved".
Definition ReservationReleased := "credits.reservation_released".
Definition LeaseExpired := "credits.lease_expired".
Definition Overdraft := "credits.overdraft".
Definition CycleRenewed := "credits.cycle_renewed".
Definition Revoked := "credits.revoked".
Definition QuotaBlocked := "credits.quota_blocked".
Definition QuotaThreshold := "credits.quota_threshold".
End CreditEventType.

Section calls.
Context {D : Type}.

(** The fields of [CatalogService] its mutex guards. *)
Record CatalogCache := {
  Cache_revision : option (CatalogRevision D);
  Cache_config : option (BursarConfig D);
  Cache_engine : option (PricingEngine D);
  Cache_versionEngines : gmap Z (PricingEngine D);
  Cache_loadedAt : Time;
}.

(** The critical sections of that mutex. *)
Inductive catalog_section :=
  | RevisionLoaded (revision : CatalogRevision D)
  | Loaded
  | SetLoadedAt (t : Time)
  | LoadedAt
  | CurrentEngine
  | VersionEngine (version : Z)
  | KeepVersionEngine (version : Z) (engine : PricingEngine D)
  | Install (revision : CatalogRevision D) (config : BursarConfig D) (engine : PricingEngine D) (t : Time).

Definition catalog_answer (s : catalog_section) : Type :=
  match s with
  | RevisionLoaded _ | Loaded => bool
  | SetLoadedAt _ | Install _ _ _ _ => unit
  | LoadedAt => Time
  | CurrentEngine | VersionEngine _ => option (PricingEngine D)
  | KeepVersionEngine _ _ => PricingEngine D
  end.

(** What application work that was asked for an amount or metrics did. *)
Inductive work_outcome (A : Type) :=
  | WorkDone (value : any D) (actual : A)
  | WorkFailed (err : error)
  | WorkPanicked (text : string).

Inductive credit_call :=
  (* CreditStore *)
  | StoreGetBalance (userID : string)
  | StoreAddCredits (userID : string) (amount : D) (options : AddCreditsOptions D)
  | StoreDeductWithAllowance (userID : string) (amount : D) (options : DeductWithAllowanceOptions D)
  | StoreRecordUsage (userID operation : string) (requested : D) (options : RecordUsageOptions D)
  | StoreCreateLease (userID : string) (amount : D) (operationType : string) (options : CreateLeaseOptions D)
  | StoreSettleLease (userID leaseID : string) (amount : D) (options : SettleOptions D)
  | StoreGetLeasePricingContext (userID leaseID : string)
  | StoreReleaseLease (userID leaseID : string)
  | StoreRenewLease (userID leaseID : string) (ttl : Z)
  | StoreGetAvailable (userID : string)
  | StoreGetActiveCatalog
  | StorePublishAndActivateCatalog (config : gmap string (any D)) (label : string) (rollout : CatalogRollout)
  | StorePublishCatalogDraft (config : gmap string (any D)) (label : string)
  | StoreGetCatalogRevision (version : Z)
  | StoreActivateCatalogRevision (version : Z) (rollout : CatalogRollout)
  | StoreSetPlanRevisionPin (userID : string) (pinned : bool)
  | StoreApplyDuePlanChanges (limit : Z)
  | StoreGetUserPlan (userID : string)
  | StoreSetUserPlan (userID planKey : string) (planAssignedAt : option Time)
  | StoreUnsetUserPlan (userID : string)
  | StoreCheckFeature (userID feature : string)
  | StoreCheckAllowance (userID : string)
  | StoreListQuotaEvents (userID : string) (options : ListQuotaEventsOptions)
  | StoreRefundCredits (entryID : string) (amount : option D) (reason : string) (metadata : CreditMetadata D)
      (idempotencyKey : string)
  | StoreSweepExpiredCredits (dryRun : bool) (userID : string) (limit : Z)
  | StoreRevokeCreditsByEntryType (userID entryType : string)
  | StoreGetTeamBalance (teamID : string)
  | StoreDeductTeam (teamID userID : string) (amount : D) (options : TeamDeductionOptions D)
  (* the services' own state *)
  | LockRefresh
  | UnlockRefresh
  | CatalogState (s : catalog_section)
  | LowBalance (s : section D)
  | PostDeductionHooks
  (* callbacks, the context and the clock *)
  | Emit (event : CreditEvent D)
  | OnTrigger (event : CreditEvent D)
  | RunHook (id : Z) (deduction : PostDeductionContext D)
  | DoWork
  | DoUsageWork
  | ContextErr
  | Now.

(** [PostDeductionHooks] answers the registered identifiers in the order of
    the map's iteration, [LowBalance] the threshold to announce. *)
Definition credit_answer (c : credit_call) : Type :=
  match c with
  | StoreGetBalance _ => result (BalanceResult D)
  | StoreAddCredits _ _ _ => result (AddCreditsResult D)
  | StoreDeductWithAllowance _ _ _ | StoreSettleLease _ _ _ _ => result (DeductionResult D)
  | StoreRecordUsage _ _ _ _ => result (UsageRecordResult D)
  | StoreCreateLease _ _ _ _ | StoreRenewLease _ _ _ => result (LeaseResult D)
  | StoreGetLeasePricingContext _ _ => result (option LeasePricingContext)
  | StoreReleaseLease _ _ => result ReleaseResult
  | StoreGetAvailable _ => result (AvailableResult D)
  | StoreGetActiveCatalog | StoreGetCatalogRevision _ => result (option (CatalogRevision D))
  | StorePublishAndActivateCatalog _ _ _ | StorePublishCatalogDraft _ _
  | StoreActivateCatalogRevision _ _ => result string
  | StoreSetPlanRevisionPin _ _ => result bool
  | StoreApplyDuePlanChanges _ => result Z
  | StoreGetUserPlan _ => result GetUserPlanResult
  | StoreSetUserPlan _ _ _ => result SetUserPlanResult
  | StoreUnsetUserPlan _ => result string
  | StoreCheckFeature _ _ => result CheckFeatureResult
  | StoreCheckAllowance _ => result (option (AllowanceResult D))
  | StoreListQuotaEvents _ _ => result (list QuotaEvent)
  | StoreRefundCredits _ _ _ _ _ => result (RefundResult D)
  | StoreSweepExpiredCredits _ _ _ => result (SweepResult D)
  | StoreRevokeCreditsByEntryType _ _ => result (RevokeCreditsResult D)
  | StoreGetTeamBalance _ => result (option (TeamBalanceResult D))
  | StoreDeductTeam _ _ _ _ => result (TeamDeductionResult D)
  | LockRefresh | UnlockRefresh => unit
  | CatalogState s => catalog_answer s
  | LowBalance _ => option D
  | PostDeductionHooks => list Z
  | Emit _ | OnTrigger _ | RunHook _ _ => unit
  | DoWork => work_outcome D
  | DoUsageWork => work_outcome (UsageMetrics D)
  | ContextErr => bool
  | Now => Time
  end.
End calls.
Arguments credit_call : clear implicits.
Arguments work_outcome : clear implicits.
Arguments WorkDone {D A} value actual.
Arguments WorkFailed {D A} err.
Arguments WorkPanicked {D A} text.
Arguments CatalogCache : clear implicits.
Arguments catalog_section : clear implicits.

(** The answers of callees that know nothing, for samples. *)
Definition no_answer {D} (c : credit_call D) : credit_answer c :=
  let nothing := ExternalError "not available" in
  match c with
  | StoreGetBalance _ | StoreAddCredits _ _ _ | StoreDeductWithAllowance _ _ _ | StoreRecordUsage _ _ _ _
  | StoreCreateLease _ _ _ _ | StoreSettleLease _ _ _ _ | StoreGetLeasePricingContext _ _ | StoreReleaseLease _ _
  | StoreRenewLease _ _ _ | StoreGetAvailable _ | StoreGetActiveCatalog | StorePublishAndActivateCatalog _ _ _
  | StorePublishCatalogDraft _ _ | StoreGetCatalogRevision _ | StoreActivateCatalogRevision _ _
  | StoreSetPlanRevisionPin _ _ | StoreApplyDuePlanChanges _ | StoreGetUserPlan _ | StoreSetUserPlan _ _ _
  | StoreUnsetUserPlan _ | StoreCheckFeature _ _ | StoreCheckAllowance _ | StoreListQuotaEvents _ _
  | StoreRefundCredits _ _ _ _ _ | StoreSweepExpiredCredits _ _ _ | StoreRevokeCreditsByEntryType _ _
  | StoreGetTeamBalance _ | StoreDeductTeam _ _ _ _ => Err nothing
  | CatalogState s =>
      match s with
      | RevisionLoaded _ | Loaded => false
      | SetLoadedAt _ | Install _ _ _ _ => tt
      | LoadedAt => zero_time
      | CurrentEngine | VersionEngine _ => None
      | KeepVersionEngine _ engine => engine
      end
  | LowBalance _ => None
  | PostDeductionHooks => []
  | DoWork => WorkFailed nothing
  | DoUsageWork => WorkFailed nothing
  | ContextErr => false
  | Now => zero_time
  | LockRefresh | UnlockRefresh | Emit _ | OnTrigger _ | RunHook _ _ => tt
  end.
