(* ===== verification/CatalogService.v ===== *)
(** * catalog.go: the catalog service

    The service parses the active revision once, keeps the engines of the
    revisions it has priced with, and prices usage at the revision of an
    account's plan or of a lease.  What its mutex guards is a [CatalogCache];
    each critical section is one atomic call of a program, answered by
    [catalog_step]. *)

From S2P Require Export CreditCalls Canonical.
Local Open Scope Z_scope.
Local Open Scope go_scope.

Definition defaultCatalogCacheTTL : Z := 5 * Minute.
Definition defaultPageSize : Z := 50.
Definition maxMaintenanceBatchSize : Z := 1000.

(** The fields no mutex guards; [store] is an interface that may be nil. *)
Record CatalogService := {
  CatalogService_HasStore : bool;
  CatalogService_cacheTTL : Z;
}.

Definition NewCatalogServiceWithOptions (hasStore : bool) (cacheTTL : Z) : result CatalogService :=
  if negb hasStore
  then Err (NewError "catalog requires a credit store"
              (error_options ErrorCode.Config ErrorCategory.InvalidRequest None))
  else if cacheTTL <? 0
  then Err (NewError "catalog cache TTL must not be negative"
              (error_options ErrorCode.Config ErrorCategory.InvalidRequest None))
  else Ok {| CatalogService_HasStore := hasStore; CatalogService_cacheTTL := cacheTTL |}.

Definition NewCatalogService (hasStore : bool) : result CatalogService :=
  NewCatalogServiceWithOptions hasStore defaultCatalogCacheTTL.

Section cache.
Context {D : Type}.

(** The zero value of the guarded fields. *)
Definition new_cache : CatalogCache D :=
  {| Cache_revision := None; Cache_config := None; Cache_engine := None; Cache_versionEngines := ∅;
     Cache_loadedAt := zero_time |}.

Definition with_loadedAt (c : CatalogCache D) (t : Time) : CatalogCache D :=
  {| Cache_revision := Cache_revision c; Cache_config := Cache_config c; Cache_engine := Cache_engine c;
     Cache_versionEngines := Cache_versionEngines c; Cache_loadedAt := t |}.

Definition with_version_engine (c : CatalogCache D) (version : Z) (engine : PricingEngine D) : CatalogCache D :=
  {| Cache_revision := Cache_revision c; Cache_config := Cache_config c; Cache_engine := Cache_engine c;
     Cache_versionEngines := <[version := engine]> (Cache_versionEngines c); Cache_loadedAt := Cache_loadedAt c |}.

(** What a critical section answers and leaves. *)
Definition catalog_step (c : CatalogCache D) (s : catalog_section D) : catalog_answer s * CatalogCache D :=
  match s with
  | RevisionLoaded revision =>
      (match Cache_revision c with
       | Some current =>
           (CatalogRevision_ID current =? CatalogRevision_ID revision)
           && (CatalogRevision_Version current =? CatalogRevision_Version revision)%Z
           && is_some (Cache_engine c)
       | None => false
       end, c)
  | Loaded => (is_some (Cache_engine c) && is_some (Cache_config c) && is_some (Cache_revision c), c)
  | SetLoadedAt t => (tt, with_loadedAt c t)
  | LoadedAt => (Cache_loadedAt c, c)
  | CurrentEngine => (Cache_engine c, c)
  | VersionEngine version => (Cache_versionEngines c !! version, c)
  | KeepVersionEngine version engine =>
      match Cache_versionEngines c !! version with
      | Some cached => (cached, c)
      | None => (engine, with_version_engine c version engine)
      end
  | Install revision config engine t =>
      (tt, {| Cache_revision := Some revision; Cache_config := Some config; Cache_engine := Some engine;
              Cache_versionEngines := {[ CatalogRevision_Version revision := engine ]}; Cache_loadedAt := t |})
  end.
End cache.

Section service.
Context {D : Type} `{DecimalOps D} `{RangeOrder} `{TimeZones} `{Regexps} `{Schema D}.
Implicit Types (s : option CatalogService) (userID : string).

Notation prog := (prog (@credit_answer D)).

Definition catalog_error (message code category : string) : error :=
  NewError message (error_options code category None).

Definition not_initialized : error :=
  catalog_error "catalog service is not initialized" ErrorCode.StoreClosed ErrorCategory.Unavailable.

Definition no_active_catalog : error :=
  catalog_error "no active Bursar catalog is available" ErrorCode.CatalogNotLoaded ErrorCategory.NotFound.

(** [if s == nil || s.store == nil] *)
Definition with_store {A} s (p : CatalogService -> prog A) : prog A :=
  match s with
  | Some service => if CatalogService_HasStore service then p service else raise not_initialized
  | None => raise not_initialized
  end.

(** The calls whose error is returned at once. *)
Definition now : prog Time := Do Now (fun t => ret t).
Definition in_state (section : catalog_section D) : prog (catalog_answer section) :=
  Do (CatalogState section) (fun x => ret x).
Definition getActiveCatalog : prog (option (CatalogRevision D)) := Do StoreGetActiveCatalog Done.
Definition getCatalogRevision version : prog (option (CatalogRevision D)) := Do (StoreGetCatalogRevision version) Done.
Definition getUserPlan userID : prog GetUserPlanResult := Do (StoreGetUserPlan userID) Done.
Definition getLeasePricingContext userID leaseID : prog (option LeasePricingContext) :=
  Do (StoreGetLeasePricingContext userID leaseID) Done.

Definition GetActive s : prog (option (CatalogRevision D)) := with_store s (fun _ => getActiveCatalog).

Definition IsLoaded s : prog bool :=
  match s with None => ret false | Some _ => in_state Loaded end.

Definition install (revision : CatalogRevision D) : prog unit :=
  config <~ lift (LoadConfigFromMap (CatalogRevision_Config revision)) ;;
  engine <~ lift (NewPricingEngine (Some config)) ;;
  t <~ now ;;
  in_state (Install revision config engine (ToUTC t)).

Definition refreshNow s : prog unit :=
  with_store s (fun _ =>
    revision <~ getActiveCatalog ;;
    match revision with
    | None => raise no_active_catalog
    | Some revision =>
        loaded <~ in_state (RevisionLoaded revision) ;;
        if loaded : bool
        then t <~ now ;; in_state (SetLoadedAt (ToUTC t))
        else install revision
    end).

Definition Load s : prog unit := refreshNow s.

Definition catalogFresh (service : CatalogService) : prog bool :=
  loadedAt <~ in_state LoadedAt ;;
  if IsZeroTime loadedAt then ret false
  else t <~ now ;; ret (Sub t loadedAt <? CatalogService_cacheTTL service)%Z.

(** [s.refreshMu.Lock(); defer s.refreshMu.Unlock()] *)
Definition holding_refresh {A} (p : prog A) : prog A :=
  Do LockRefresh (fun _ => pcatch p (fun r => Do UnlockRefresh (fun _ => Done r))).

Definition RefreshIfStale s : prog unit :=
  with_store s (fun service =>
    if (CatalogService_cacheTTL service =? 0)%Z then ret tt
    else
      fresh <~ catalogFresh service ;;
      if fresh : bool then ret tt
      else holding_refresh (
        fresh <~ catalogFresh service ;;
        if fresh : bool then ret tt else refreshNow s)).

Definition Refresh s : prog unit := RefreshIfStale s.

Definition Invalidate s : prog unit :=
  match s with None => ret tt | Some _ => in_state (SetLoadedAt zero_time) end.

Definition GetConfig s : prog (BursarConfig D) :=
  revision <~ GetActive s ;;
  match revision with
  | None => raise no_active_catalog
  | Some revision => lift (LoadConfigFromMap (CatalogRevision_Config revision))
  end.

(** [CatalogService.Engine] *)
Definition EngineOf s : prog (PricingEngine D) :=
  match s with
  | None => raise (catalog_error "catalog service is not initialized" ErrorCode.CatalogNotLoaded ErrorCategory.Unavailable)
  | Some _ =>
      engine <~ in_state CurrentEngine ;;
      match engine with
      | None => raise (catalog_error "catalog is not loaded" ErrorCode.CatalogNotLoaded ErrorCategory.Conflict)
      | Some engine => ret engine
      end
  end.

Definition engineForVersion s (version : option Z) : prog (PricingEngine D) :=
  match version with
  | None => EngineOf s
  | Some version =>
      engine <~ in_state (VersionEngine version) ;;
      match engine with
      | Some engine => ret engine
      | None =>
          revision <~ getCatalogRevision version ;;
          match revision with
          | None =>
              raise (NewError "catalog revision is unavailable for the pinned plan"
                       (error_details ErrorCode.CatalogNotLoaded ErrorCategory.NotFound
                          {[ "catalog_version" := itoa version ]}))
          | Some revision =>
              config <~ lift (LoadConfigFromMap (CatalogRevision_Config revision)) ;;
              engine <~ lift (NewPricingEngine (Some config)) ;;
              in_state (KeepVersionEngine version engine)
          end
      end
  end.

(** [engine.Calculate], with the options of a rate card when there is one. *)
Definition rate_card_options (rateCard : string) : list PricingOptions :=
  if rateCard =? "" then [] else [{| PricingOptions_RateCard := rateCard |}].

Definition CalculateForUser s userID (metrics : UsageMetrics D) : prog (CostBreakdown D) :=
  with_store s (fun _ =>
    plan <~ getUserPlan userID ;;
    (if is_some (GetUserPlanResult_CatalogVersion plan) then ret tt else RefreshIfStale s) ;;~
    engine <~ engineForVersion s (GetUserPlanResult_CatalogVersion plan) ;;
    lift (Calculate (Some engine) metrics (rate_card_options (GetUserPlanResult_RateCard plan)))).

(** The rate card of the snapshot, or the one its plan has in the catalog. *)
Definition lease_rate_card (engine : PricingEngine D) (context : LeasePricingContext) : string :=
  if LeasePricingContext_RateCard context =? ""
  then default "" (GetRateCardForPlan (Some engine) (LeasePricingContext_PlanKey context))
  else LeasePricingContext_RateCard context.

Definition CalculateForLease s userID leaseID (metrics : UsageMetrics D) : prog (CostBreakdown D) :=
  with_store s (fun _ =>
    context <~ getLeasePricingContext userID leaseID ;;
    match context with
    | None => raise (catalog_error "lease pricing context was not found" ErrorCode.LeaseNotFound ErrorCategory.NotFound)
    | Some context =>
        engine <~ engineForVersion s (Some (LeasePricingContext_CatalogVersion context)) ;;
        lift (Calculate (Some engine) metrics (rate_card_options (lease_rate_card engine context)))
    end).

Definition PublishDraft s (config : option (gmap string (any D))) label : prog string :=
  with_store s (fun _ =>
    parsed <~ lift (LoadConfigFromMap config) ;;
    Do (StorePublishCatalogDraft (CanonicalParsedBursarConfigDict parsed) label) Done).

Definition Activate s version rollout : prog string :=
  with_store s (fun _ =>
    result <~ Do (StoreActivateCatalogRevision version rollout) Done ;;
    Invalidate s ;;~
    ret result).

Definition PublishAndActivate s (config : option (gmap string (any D))) label rollout : prog string :=
  with_store s (fun _ =>
    parsed <~ lift (LoadConfigFromMap config) ;;
    result <~ Do (StorePublishAndActivateCatalog (CanonicalParsedBursarConfigDict parsed) label rollout) Done ;;
    Invalidate s ;;~
    ret result).

Definition SetRevisionPin s userID pinned : prog bool :=
  with_store s (fun _ => Do (StoreSetPlanRevisionPin userID pinned) Done).

Definition ApplyDueChanges s (limit : Z) : prog Z :=
  with_store s (fun _ =>
    limit <~ lift (requireBoundedLimit limit defaultPageSize maxMaintenanceBatchSize "catalog change limit") ;;
    Do (StoreApplyDuePlanChanges limit) Done).
End service.
