(* ===== verification/CatalogServiceFacts.v ===== *)
(** * The catalog service prices at the right revision

    The cache invariant [cache_ok] holds under every interleaving of catalog
    calls: a cached engine is the engine of a revision the store answered
    under that version.  Hence what a lease settles at is priced by the very
    revision its snapshot names, whatever was published meanwhile. *)

From S2P Require Export CatalogService Protocols.
From S2P Require Import DecimalRef ConfigIntegrity ConfigPricingFacts.
Local Open Scope Z_scope.
Local Open Scope go_scope.

Section facts.
Context {D : Type} `{DecimalOps D} `{RangeOrder} `{TimeZones} `{Regexps} `{Schema D}.

Notation prog := (prog (@credit_answer D)).
Notation event := (event (@credit_answer D)).

(** The engine a revision parses to. *)
Definition engine_at (revision : CatalogRevision D) : option (PricingEngine D) :=
  match LoadConfigFromMap (CatalogRevision_Config revision) with
  | Ok config => Some {| PricingEngine_config := Some config |}
  | Err _ => None
  end.

(** The revisions the store holds. *)
Context (published : CatalogRevision D -> Prop).

(** The store answers revisions it holds, under the version asked for. *)
Definition store_answers (e : event) : Prop :=
  match e with
  | existT StoreGetActiveCatalog x => forall revision, x = Ok (Some revision) -> published revision
  | existT (StoreGetCatalogRevision version) x =>
      forall revision, x = Ok (Some revision) -> published revision /\ CatalogRevision_Version revision = version
  | _ => True
  end.

Definition engine_of_version (version : Z) (engine : PricingEngine D) : Prop :=
  exists revision, published revision /\ CatalogRevision_Version revision = version /\
    engine_at revision = Some engine.

Definition cache_ok (c : CatalogCache D) : Prop :=
  (forall version engine, Cache_versionEngines c !! version = Some engine -> engine_of_version version engine) /\
  (forall engine, Cache_engine c = Some engine ->
     exists revision, Cache_revision c = Some revision /\ published revision /\ engine_at revision = Some engine).

Lemma cache_ok_new : cache_ok new_cache.
Proof. split; cbn; [intros ? ?; by rewrite lookup_empty|done]. Qed.

(** What a goroutine may rely on, and the calls it may make. *)
Definition rely (e : event) : Prop :=
  store_answers e /\
  match e with
  | existT (CatalogState s) x => exists c, cache_ok c /\ x = (catalog_step c s).1
  | _ => True
  end.

Definition allowed (h : list event) (c : credit_call D) : Prop :=
  match c with
  | CatalogState (Install revision config engine _) => published revision /\ engine_at revision = Some engine
  | CatalogState (KeepVersionEngine version engine) => engine_of_version version engine
  | _ => True
  end.

Lemma allowed_keeps h s c : cache_ok c -> allowed h (CatalogState s) -> cache_ok (catalog_step c s).2.
Proof.
  intros [Hv He] Ha. destruct s as [revision| |t| | |version|version engine|revision config engine t]; cbn in *;
    try (by split).
  - destruct (Cache_versionEngines c !! version) eqn:Hc; cbn; split; try done; cbn.
    intros v e [[<- <-]|[_ Hvn]]%lookup_insert_Some; [done|by apply Hv].
  - destruct Ha as [Hp Hengine]. split; cbn.
    + intros v e [<- <-]%lookup_singleton_Some. by exists revision.
    + intros e [= <-]. by exists revision.
Qed.

Notation obeys := (obeys rely allowed).

(** ** Every method keeps the protocol *)

Notation abides := (abides rely allowed).

(** Takes a program apart: the calls it makes and the branches it takes. *)
Ltac walk :=
  repeat (cbn [Protocols.obeys pbind pcatch lift ret raise];
    match goal with
    | |- Protocols.abides _ _ _ _ => unfold Protocols.abides
    | |- _ /\ _ => split
    | |- True => done
    | |- forall _, rely _ -> _ => intros ? ?
    | |- Protocols.obeys _ _ _ _ (match ?x with _ => _ end) => destruct x eqn:?
    | |- Protocols.obeys _ _ _ _ (pbind (match ?x with _ => _ end) _) => destruct x eqn:?
    | |- allowed _ _ => exact I
    end).

Lemma NewPricingEngine_at revision config engine :
  LoadConfigFromMap (CatalogRevision_Config revision) = Ok config -> NewPricingEngine (Some config) = Ok engine ->
  engine_at revision = Some engine.
Proof. unfold engine_at. intros -> [= <-]. done. Qed.

Lemma install_abides h revision : published revision -> abides h (install revision).
Proof.
  intros Hp. unfold install, now, in_state. walk. split; [done|]. by eapply NewPricingEngine_at.
Qed.

Lemma refreshNow_abides h s : abides h (refreshNow s).
Proof.
  unfold refreshNow, with_store, getActiveCatalog, in_state, now. walk.
  apply install_abides. destruct H4 as [Hstore _]. by apply Hstore.
Qed.

Lemma catalogFresh_abides h service : abides h (catalogFresh service).
Proof. unfold catalogFresh, in_state, now. walk. Qed.

Lemma RefreshIfStale_abides h s : abides h (RefreshIfStale s).
Proof.
  unfold RefreshIfStale, with_store, holding_refresh. walk.
  apply abides_bind; [apply catalogFresh_abides|]. intros t1 fresh. walk.
  apply abides_catch; [|intros; by walk].
  apply abides_bind; [apply catalogFresh_abides|]. intros t2 fresh'. walk. apply refreshNow_abides.
Qed.

(** The engine a version stands for; without a version, of the active revision. *)
Definition engine_for (version : option Z) (engine : PricingEngine D) : Prop :=
  exists revision, published revision /\ engine_at revision = Some engine /\
    match version with Some version => CatalogRevision_Version revision = version | None => True end.

Lemma rely_version version engine :
  rely (existT (CatalogState (VersionEngine version)) (Some engine)) -> engine_for (Some version) engine.
Proof. intros [_ (c & [Hc _] & Hx)]. cbn in Hx. symmetry in Hx. apply Hc in Hx as (r & ? & ? & ?). by exists r. Qed.

Lemma rely_current engine :
  rely (existT (CatalogState CurrentEngine) (Some engine)) -> engine_for None engine.
Proof. intros [_ (c & [_ Hc] & Hx)]. cbn in Hx. symmetry in Hx. apply Hc in Hx as (r & _ & ? & ?). by exists r. Qed.

Lemma rely_kept version engine engine' :
  engine_of_version version engine ->
  rely (existT (CatalogState (KeepVersionEngine version engine)) engine') -> engine_for (Some version) engine'.
Proof.
  intros Hengine [_ (c & [Hc _] & Hx)]. cbn in Hx.
  destruct (Cache_versionEngines c !! version) eqn:Hcached; cbn in Hx; subst.
  - apply Hc in Hcached as (r & ? & ? & ?). by exists r.
  - destruct Hengine as (r & ? & ? & ?). by exists r.
Qed.

Lemma fetched_version version revision config engine :
  rely (existT (StoreGetCatalogRevision version) (Ok (Some revision))) ->
  LoadConfigFromMap (CatalogRevision_Config revision) = Ok config -> NewPricingEngine (Some config) = Ok engine ->
  engine_of_version version engine.
Proof.
  intros [Hstore _] Hload Hnew. destruct (Hstore revision eq_refl) as [Hp Hv].
  exists revision. split_and!; [done..|]. by eapply NewPricingEngine_at.
Qed.

Lemma engineForVersion_obeys h s version :
  obeys (fun _ r => forall engine, r = Ok engine -> engine_for version engine) h (engineForVersion s version).
Proof.
  unfold engineForVersion, EngineOf, in_state, getCatalogRevision. walk; try (intros ? [=]; subst).
  - by apply rely_version.
  - by eapply fetched_version.
  - eapply rely_kept; [|done]. by eapply fetched_version.
  - by apply rely_current.
Qed.

Lemma engineForVersion_abides h s version : abides h (engineForVersion s version).
Proof. eapply abides_of, engineForVersion_obeys. Qed.

(** ** What is priced, at which revision *)

(** The cost is the one [engine] computes, and [engine] that of a revision the
    store holds: the one asked for, or an active one. *)
Definition priced (version : option Z) (metrics : UsageMetrics D)
    (options : PricingEngine D -> list PricingOptions) (cost : CostBreakdown D) : Prop :=
  exists engine, engine_for version engine /\ Calculate (Some engine) metrics (options engine) = Ok cost.

Lemma priced_obeys h s version metrics options :
  obeys (fun _ r => forall cost, r = Ok cost -> priced version metrics options cost) h
    (engine <~ engineForVersion s version ;; lift (Calculate (Some engine) metrics (options engine))).
Proof.
  eapply obeys_then; [apply engineForVersion_obeys|done|].
  intros t engine Hengine cost Hcost. exists engine. split; [by apply Hengine|done].
Qed.

Definition lease_priced userID leaseID metrics (h : list event) (r : result (CostBreakdown D)) : Prop :=
  forall cost, r = Ok cost -> exists context,
    existT (StoreGetLeasePricingContext userID leaseID) (Ok (Some context)) ∈ h /\
    priced (Some (LeasePricingContext_CatalogVersion context)) metrics
      (fun engine => rate_card_options (lease_rate_card engine context)) cost.

Lemma CalculateForLease_obeys h s userID leaseID metrics :
  obeys (lease_priced userID leaseID metrics) h (CalculateForLease s userID leaseID metrics).
Proof.
  unfold CalculateForLease, with_store, getLeasePricingContext. walk; try done.
  eapply obeys_mono; [apply priced_obeys|]. intros t r Hr cost Hcost. exists l. split; [set_solver|by apply Hr].
Qed.

Definition user_priced userID metrics (h : list event) (r : result (CostBreakdown D)) : Prop :=
  forall cost, r = Ok cost -> exists plan,
    existT (StoreGetUserPlan userID) (Ok plan) ∈ h /\
    priced (GetUserPlanResult_CatalogVersion plan) metrics
      (fun _ => rate_card_options (GetUserPlanResult_RateCard plan)) cost.

Lemma user_priced_obeys h s userID metrics plan :
  existT (StoreGetUserPlan userID) (Ok plan) ∈ h ->
  obeys (user_priced userID metrics) h
    (engine <~ engineForVersion s (GetUserPlanResult_CatalogVersion plan) ;;
     lift (Calculate (Some engine) metrics (rate_card_options (GetUserPlanResult_RateCard plan)))).
Proof.
  intros Hplan. eapply obeys_mono; [apply (priced_obeys _ s _ _ (fun _ => _))|]. intros t' r Hr cost Hcost.
  exists plan. split; [|by apply Hr]. by apply elem_of_app; left.
Qed.

Lemma CalculateForUser_obeys h s userID metrics :
  obeys (user_priced userID metrics) h (CalculateForUser s userID metrics).
Proof.
  unfold CalculateForUser, with_store, getUserPlan. walk; try done.
  - apply user_priced_obeys. set_solver.
  - eapply obeys_then; [apply RefreshIfStale_abides|done|].
    intros t [] _. apply user_priced_obeys. set_solver.
Qed.

(** ** Every entry point, in any number of goroutines *)

Inductive entry s : forall A, prog A -> Prop :=
  | entry_GetActive : entry s _ (GetActive s)
  | entry_IsLoaded : entry s _ (IsLoaded s)
  | entry_Load : entry s _ (Load s)
  | entry_Refresh : entry s _ (Refresh s)
  | entry_RefreshIfStale : entry s _ (RefreshIfStale s)
  | entry_Invalidate : entry s _ (Invalidate s)
  | entry_GetConfig : entry s _ (GetConfig s)
  | entry_Engine : entry s _ (EngineOf s)
  | entry_CalculateForUser userID metrics : entry s _ (CalculateForUser s userID metrics)
  | entry_CalculateForLease userID leaseID metrics : entry s _ (CalculateForLease s userID leaseID metrics)
  | entry_PublishDraft config label : entry s _ (PublishDraft s config label)
  | entry_Activate version rollout : entry s _ (Activate s version rollout)
  | entry_PublishAndActivate config label rollout : entry s _ (PublishAndActivate s config label rollout)
  | entry_SetRevisionPin userID pinned : entry s _ (SetRevisionPin s userID pinned)
  | entry_ApplyDueChanges limit : entry s _ (ApplyDueChanges s limit).

Lemma entry_abides s A (p : prog A) : entry s A p -> abides [] p.
Proof.
  intros Hp. destruct Hp;
    first [ apply refreshNow_abides | apply RefreshIfStale_abides | eapply abides_of, CalculateForUser_obeys
          | eapply abides_of, CalculateForLease_obeys
          | unfold GetConfig, GetActive, IsLoaded, EngineOf, PublishDraft, SetRevisionPin, ApplyDueChanges, Activate,
              PublishAndActivate, Invalidate, with_store, getActiveCatalog, in_state; walk; done ].
Qed.
End facts.

(** ** The system: a store, one cache and any number of callers *)

Section system.
Context {D : Type} `{DecimalOps D} `{RangeOrder} `{TimeZones} `{Regexps} `{Schema D}.
Context (published : CatalogRevision D -> Prop).

(** A critical section acts on the cache; any other call is answered by the
    store as it likes, within [store_answers]. *)
Definition catalog_reacts (cache : CatalogCache D) (c : credit_call D) (x : credit_answer c) (cache' : CatalogCache D)
    : Prop :=
  store_answers published (existT c x) /\
  match c, x with
  | CatalogState s, x => (x, cache') = catalog_step cache s
  | _, _ => cache' = cache
  end.

(** A state reached from the empty cache by the calls of any goroutines of
    service [s]. *)
Definition reachable s (cache : CatalogCache D) (gs : list (goroutine (@credit_answer D))) : Prop :=
  rtc (advance (entry s) catalog_reacts) (new_cache, []) (cache, gs).

Lemma catalog_reacts_ok cache h c x cache' :
  cache_ok published cache -> allowed published h c -> catalog_reacts cache c x cache' ->
  rely published (existT c x) /\ cache_ok published cache'.
Proof.
  intros Hok Ha [Hstore Hx]. unfold rely. destruct c; try (subst; by split).
  pose proof (allowed_keeps _ _ _ _ Hok Ha) as Hkeep. destruct (catalog_step cache s) as [y c'] eqn:Hstep.
  injection Hx as -> ->. split; [|done]. split; [done|]. exists cache. by rewrite Hstep.
Qed.

Lemma catalog_reachable_ok s cache gs :
  reachable s cache gs ->
  cache_ok published cache /\ Forall (goroutine_ok (rely published) (entry s)) gs.
Proof.
  intros Hr. eapply advance_ok; [|apply catalog_reacts_ok|apply cache_ok_new|constructor|exact Hr].
  intros A p Hp. by eapply entry_abides.
Qed.

(** C25: a lease is settled at the price of its own snapshot, and a pinned
    plan's usage at the price of its own revision.  Whatever goroutines load,
    refresh, publish, activate, invalidate and price through one catalog
    service, their calls interleaved in any order, if the store answers a
    version with a revision of that version, then every cached engine is that of
    the revision of its version, and every cost returned is the one Calculate
    gives on the engine of a published revision: of exactly the version in the
    lease's snapshot and with the snapshot's rate card, or of the version of
    the account's plan when it is pinned and with its rate card. *)
Theorem catalog_prices_snapshots s cache gs :
  reachable s cache gs ->
  cache_ok published cache /\
  (forall userID leaseID metrics t cost,
     {| returns := CostBreakdown D; start := CalculateForLease s userID leaseID metrics; made := t;
        left_over := Done (Ok cost) |} ∈ gs ->
     lease_priced published userID leaseID metrics t (Ok cost)) /\
  (forall userID metrics t cost,
     {| returns := CostBreakdown D; start := CalculateForUser s userID metrics; made := t;
        left_over := Done (Ok cost) |} ∈ gs ->
     user_priced published userID metrics t (Ok cost)).
Proof.
  intros [Hok Hgs]%catalog_reachable_ok. rewrite Forall_forall in Hgs. split_and!; [done| |].
  - intros userID leaseID metrics t cost Hin. destruct (Hgs _ Hin) as (Hreach & Hmade & _). cbn in *.
    by destruct (obeys_runs _ _ _ [] _ _ _ (CalculateForLease_obeys published [] s userID leaseID metrics)
      (reaches_runs _ _ _ Hreach) Hmade) as [Hq _].
  - intros userID metrics t cost Hin. destruct (Hgs _ Hin) as (Hreach & Hmade & _). cbn in *.
    by destruct (obeys_runs _ _ _ [] _ _ _ (CalculateForUser_obeys published [] s userID metrics)
      (reaches_runs _ _ _ Hreach) Hmade) as [Hq _].
Qed.
End system.

(** ** Sample: a lease admitted under revision 3 *)
#[local] Existing Instances canonical_range utc_only any_pattern.

Definition any_document : Schema Ref.dec := {| SchemaValidate := fun _ => None |}.
#[local] Existing Instance any_document.

Definition sample_revision : CatalogRevision Ref.dec :=
  {| CatalogRevision_ID := "revision_3"; CatalogRevision_Config := Some sample_catalog; CatalogRevision_Version := 3 |}.

Definition sample_context : LeasePricingContext :=
  {| LeasePricingContext_CatalogVersion := 3; LeasePricingContext_PlanID := "plan_1";
     LeasePricingContext_PlanKey := "pro"; LeasePricingContext_RateCard := "" |}.

Definition sample_usage : UsageMetrics Ref.dec :=
  {| UsageMetrics_Operation := "chat"; UsageMetrics_Measures := {[ "tokens" := lit "2500" ]};
     UsageMetrics_Dimensions := ∅; UsageMetrics_Metadata := ∅ |}.

Definition sample_catalog_service : option CatalogService :=
  Some {| CatalogService_HasStore := true; CatalogService_cacheTTL := defaultCatalogCacheTTL |}.

Definition sample_callee (c : credit_call Ref.dec) (cache : CatalogCache Ref.dec)
    : credit_answer c * CatalogCache Ref.dec :=
  match c with
  | CatalogState s => catalog_step cache s
  | StoreGetLeasePricingContext _ _ => (Ok (Some sample_context), cache)
  | StoreGetCatalogRevision version => (Ok (if (version =? 3)%Z then Some sample_revision else None), cache)
  | c => (no_answer c, cache)
  end.

Definition sample_pricing : Effects.prog (@credit_answer Ref.dec) (CostBreakdown Ref.dec) :=
  CalculateForLease sample_catalog_service "user_1" "lease_1" sample_usage.

(** The lease costs 2.5, the price of revision 3. *)
Lemma catalog_prices_snapshots_witness :
  exists t cost, runs sample_pricing t (Ok cost) /\ CostBreakdown_Total cost = lit "2.500000" /\
    lease_priced (fun revision => revision = sample_revision) "user_1" "lease_1" sample_usage t (Ok cost).
Proof.
  assert (forall c s, catalog_reacts (fun revision => revision = sample_revision) s c
            (sample_callee c s).1 (sample_callee c s).2) as Hreacts.
  { intros c s. destruct c; split; cbn; try done; try (by intros ? [=]); [|by destruct (catalog_step s s0)].
    intros revision. destruct (Z.eqb_spec version 3); intros [=]; subst; by split. }
  pose proof (run_advance (entry sample_catalog_service) (catalog_reacts (fun revision => revision = sample_revision))
    sample_callee _ sample_pricing new_cache Hreacts ltac:(constructor)) as Hreach.
  pose proof (run_runs sample_callee sample_pricing new_cache) as Hruns.
  assert (exists cost, (run sample_callee new_cache sample_pricing).1.2 = Ok cost /\
            CostBreakdown_Total cost = lit "2.500000") as (cost & Hcost & Htotal).
  { eexists. split; vm_compute; reflexivity. }
  rewrite Hcost in Hreach, Hruns. do 2 eexists. split_and!; [exact Hruns|exact Htotal|].
  apply (catalog_prices_snapshots _ sample_catalog_service _ _ Hreach). apply list_elem_of_singleton. reflexivity.
Defined.

(** ** What the model found *)

(** Without a cache lifetime a read refreshes nothing, not even after the
    cache was marked as stale. *)
Lemma zero_ttl_never_refreshes {D : Type} `{DecimalOps D} `{RangeOrder} `{TimeZones} `{Regexps} `{Schema D} (s : CatalogService) :
  CatalogService_HasStore s = true -> CatalogService_cacheTTL s = 0%Z -> RefreshIfStale (D:=D) (Some s) = ret tt.
Proof. intros Hstore Httl. unfold RefreshIfStale, with_store. by rewrite Hstore, Httl. Qed.
