(* ===== verification/Credits.v ===== *)
(** * credits.go: the credit service, its construction and its helpers

    [NewCreditsService], the options of a lease, the errors of a business
    denial, the events and what follows a deduction.  The service's methods are
    in CreditsMethods.v. *)

From S2P Require Export CatalogService.
Local Open Scope Z_scope.
Local Open Scope go_scope.

Section credits.
Context {D : Type} `{DecimalOps D} `{RangeOrder} `{TimeZones} `{Regexps} `{Schema D}.

(** [LowBalanceConfig]: whether [OnTrigger] is set stands for it. *)
Record LowBalanceConfig := {
  LowBalanceConfig_Thresholds : list D;
  LowBalanceConfig_HasOnTrigger : bool;
  LowBalanceConfig_MaxTrackedUsers : Z;
}.

(** [CreditsServiceOptions], without the telemetry and the read backends; an
    interface or a function is whether it is set. *)
Record CreditsServiceOptions := {
  Options_Policy : string;
  Options_OverdraftFloor : option D;
  Options_MaxConcurrent : option Z;
  Options_DefaultLeaseTTL : Z;
  Options_HasEventSink : bool;
  Options_LowBalance : list D;
  Options_LowBalanceConfig : option LowBalanceConfig;
  Options_LazyExpiry : bool;
  Options_CatalogCacheTTL : option Z;
  Options_HasPostDeduction : bool;
}.

(** The fields of [CreditsService] that do not change; the low-balance state
    is a [LowBalanceTracker], the hooks a [HookRegistry], both its own. *)
Record CreditsService := {
  Credits_HasStore : bool;
  Credits_catalog : option CatalogService;
  Credits_HasEvents : bool;
  Credits_policy : string;
  Credits_overdraftFloor : D;
  Credits_maxConcurrent : option Z;
  Credits_defaultLeaseTTL : Z;
  Credits_lowBalance : list D;
  Credits_HasLowBalanceHandler : bool;
  Credits_lowBalanceMaxTracked : Z;
  Credits_lazyExpiry : bool;
}.

(** [postDeductionHooks], whose keys stand for the hooks, and
    [nextPostDeductionID], a uint64. *)
Record HookRegistry := { postDeductionHooks : gset Z; nextPostDeductionID : Z }.

Definition config_failure (message : string) : error :=
  errorf ErrorCode.Config ErrorCategory.InvalidRequest message.

(** The policy, the floor and the limits that [NewCreditsService] checks. *)
Definition checked_policy (policy : string) : result string :=
  let policy := if policy =? "" then CreditPolicy.StrictPrepaid else policy in
  if negb (policy =? CreditPolicy.StrictPrepaid) && negb (policy =? CreditPolicy.Overdraft)
  then Err (config_failure ("credit policy must be " +:+ Quote CreditPolicy.StrictPrepaid +:+ " or "
                            +:+ Quote CreditPolicy.Overdraft))
  else Ok policy.

Definition checked_floor (floor : option D) : result D :=
  match floor with
  | None => Ok dec_zero
  | Some floor =>
      let floor := QuantizeMoney floor in
      if GreaterThan floor dec_zero
      then Err (config_failure "overdraft floor must be less than or equal to zero")
      else Ok floor
  end.

Definition low_balance_max (config : option LowBalanceConfig) : Z :=
  match config with
  | Some config => if (LowBalanceConfig_MaxTrackedUsers config =? 0)%Z then 100000
                   else LowBalanceConfig_MaxTrackedUsers config
  | None => 100000
  end.

(** [sort.Slice(lowBalance, GreaterThan)]: a permutation in descending order.
    Equal thresholds are interchangeable. *)
Definition descending (a b : D) : Prop := LessThan a b = false.
#[global] Instance descending_dec : RelDecision descending.
Proof. intros a b. unfold descending. apply _. Defined.
Definition sort_thresholds (thresholds : list D) : list D := merge_sort descending thresholds.

Definition NewCreditsService (hasStore : bool) (options : CreditsServiceOptions)
    : result (CreditsService * HookRegistry) :=
  if negb hasStore then Err (config_failure "credit store is required") else
  policy <- checked_policy (Options_Policy options) ;;
  overdraftFloor <- checked_floor (Options_OverdraftFloor options) ;;
  if match Options_MaxConcurrent options with Some n => n <? 1 | None => false end
  then Err (config_failure "max concurrent operations must be positive") else
  let defaultTTL := if (Options_DefaultLeaseTTL options =? 0)%Z then defaultLeaseTTL
                    else Options_DefaultLeaseTTL options in
  requirePositiveDuration defaultTTL "default lease TTL" ;;;
  if is_some (Options_LowBalanceConfig options) && negb (bool_decide (Options_LowBalance options = []))
  then Err (config_failure "configure low balance with either LowBalance or LowBalanceConfig") else
  let lowBalance := match Options_LowBalanceConfig options with
                    | Some config => LowBalanceConfig_Thresholds config
                    | None => Options_LowBalance options
                    end in
  let maxTracked := low_balance_max (Options_LowBalanceConfig options) in
  if maxTracked <? 1 then Err (config_failure "low balance max tracked users must be positive") else
  if existsb IsNegative lowBalance then Err (config_failure "low balance thresholds must not be negative") else
  catalog <- NewCatalogServiceWithOptions hasStore
               (default defaultCatalogCacheTTL (Options_CatalogCacheTTL options)) ;;
  Ok ({| Credits_HasStore := hasStore; Credits_catalog := Some catalog;
         Credits_HasEvents := Options_HasEventSink options; Credits_policy := policy;
         Credits_overdraftFloor := overdraftFloor; Credits_maxConcurrent := Options_MaxConcurrent options;
         Credits_defaultLeaseTTL := defaultTTL; Credits_lowBalance := sort_thresholds lowBalance;
         Credits_HasLowBalanceHandler :=
           match Options_LowBalanceConfig options with
           | Some config => LowBalanceConfig_HasOnTrigger config
           | None => false
           end;
         Credits_lowBalanceMaxTracked := maxTracked; Credits_lazyExpiry := Options_LazyExpiry options |},
      if Options_HasPostDeduction options
      then {| postDeductionHooks := {[ 1 ]}; nextPostDeductionID := 1 |}
      else {| postDeductionHooks := ∅; nextPostDeductionID := 0 |}).

(** [AddPostDeductionHook] of a hook that is set: its critical section, with
    the identifier it registers, and that of the function it returns. *)
Definition add_hook (registry : HookRegistry) : HookRegistry * Z :=
  let id := (nextPostDeductionID registry + 1) mod 2 ^ 64 in
  ({| postDeductionHooks := {[ id ]} ∪ postDeductionHooks registry; nextPostDeductionID := id |}, id).

Definition remove_hook (registry : HookRegistry) (id : Z) : HookRegistry :=
  {| postDeductionHooks := postDeductionHooks registry ∖ {[ id ]};
     nextPostDeductionID := nextPostDeductionID registry |}.

(** ** The options of a lease *)

Definition requested_mode (s : CreditsService) (mode : string) : result string :=
  requireBillingMode
    (if mode =? "" then
       if Credits_policy s =? CreditPolicy.Overdraft then BillingModeOverdraft else BillingModeStrict
     else mode).

Definition resolvedLeaseOptions (s : CreditsService) (options : ReserveOptions D)
    : result (CreateLeaseOptions D * string) :=
  let operationType := TrimSpace (ReserveOptions_OperationType options) in
  let operationType := if operationType =? "" then "usage" else operationType in
  idempotencyKey <- requireStableKey (ReserveOptions_IdempotencyKey options) "reserve idempotency key" ;;
  mode <- requested_mode s (ReserveOptions_BillingMode options) ;;
  let ttl := if (ReserveOptions_TTL options =? 0)%Z then Credits_defaultLeaseTTL s else ReserveOptions_TTL options in
  requirePositiveDuration ttl "lease TTL" ;;;
  let overdraft := mode =? BillingModeOverdraft in
  Ok ({| CreateLeaseOptions_Usage := ReserveOptions_Usage options;
         CreateLeaseOptions_IdempotencyKey := idempotencyKey;
         CreateLeaseOptions_BillingMode := mode;
         CreateLeaseOptions_Floor := if overdraft then Credits_overdraftFloor s else dec_zero;
         CreateLeaseOptions_MaxConcurrent := Credits_maxConcurrent s;
         CreateLeaseOptions_OverdraftFloor := if overdraft then Some (Credits_overdraftFloor s) else None;
         CreateLeaseOptions_TTL := ttl;
         CreateLeaseOptions_Metadata := ReserveOptions_Metadata options |}, operationType).

(** ** Business denials *)

Definition isLeaseExpiredCode (code : string) : bool := (code =? "lease_expired") || (code =? "expired_lease").

Definition in_list (code : string) (codes : list string) : bool := existsb (String.eqb code) codes.

(** The switch of [creditBusinessError]; [None] is [NewStoreError]'s code. *)
Definition denial_code (code : string) : option string * string :=
  if in_list code ["insufficient_credits"; "insufficient_headroom"]
  then (Some ErrorCode.InsufficientCredits, ErrorCategory.PaymentRequired)
  else if in_list code ["concurrency_limit"; "max_concurrent_reached"; "concurrency_limit_reached"]
  then (Some ErrorCode.ConcurrencyLimitReached, ErrorCategory.RateLimited)
  else if in_list code ["quota_exceeded"] then (Some ErrorCode.QuotaExceeded, ErrorCategory.RateLimited)
  else if in_list code ["feature_not_entitled"] then (Some ErrorCode.FeatureNotEntitled, ErrorCategory.Forbidden)
  else if in_list code ["operation_not_allowed"] then (Some ErrorCode.OperationNotAllowed, ErrorCategory.Forbidden)
  else if in_list code ["lease_expired"; "expired_lease"] then (Some ErrorCode.LeaseExpired, ErrorCategory.Conflict)
  else if in_list code ["lease_not_found"; "not_found"; "missing_lease"; "released_lease"; "settled_lease"]
  then (Some ErrorCode.LeaseNotFound, ErrorCategory.NotFound)
  else if in_list code ["settlement_conflict"] then (None, ErrorCategory.Conflict)
  else if in_list code ["missing_quota_measure"; "invalid_measure"; "policy_mismatch"; "invalid_amount"; "invalid_request"]
  then (Some ErrorCode.Config, ErrorCategory.InvalidRequest)
  else if in_list code ["refund_rejected"; "already_refunded"; "over_refund"]
  then (Some ErrorCode.RefundRejected, ErrorCategory.Conflict)
  else (Some ErrorCode.Credit, ErrorCategory.Conflict).

Definition creditBusinessError (operation userID code : string) : error :=
  let code := TrimSpace code in
  let message := "credit " +:+ operation +:+ " failed for user " +:+ userID +:+ ": " +:+ code in
  let details : gmap string string :=
    {[ "operation" := operation; "user_id" := userID; "store_error_code" := code ]} in
  match denial_code code with
  | (Some errorCode, category) => NewError message (error_details errorCode category details)
  | (None, category) => NewStoreError message (error_details "" category details)
  end.

(** ** Priced operations *)

Definition metricDimensionString (dimensions : gmap string (any D)) (key : string) : string :=
  match dimensions !! key with
  | Some (AString value) => TrimSpace value
  | _ => ""
  end.

Definition pricedOperationOptions (metrics : UsageMetrics D) (feature : string) : OperationUsageOptions D :=
  {| OperationUsageOptions_Feature := feature;
     OperationUsageOptions_Model := metricDimensionString (UsageMetrics_Dimensions metrics) "model";
     OperationUsageOptions_Region := metricDimensionString (UsageMetrics_Dimensions metrics) "region";
     OperationUsageOptions_Measures := UsageMetrics_Measures metrics;
     OperationUsageOptions_Dimensions := UsageMetrics_Dimensions metrics |}.

Definition pricedMetadata (metrics : UsageMetrics D) (breakdown : CostBreakdown D) (idempotencyKey : string)
    (caller : CreditMetadata D) : CreditMetadata D :=
  Some (<["idempotency_key" := AString idempotencyKey]>
       (<["breakdown_total" := AString (dec_string (CostBreakdown_Total breakdown))]>
       (<["dimensions" := AMap (UsageMetrics_Dimensions metrics)]>
       (<["measures" := ATypedMap ((fun value => AString (dec_string value)) <$> UsageMetrics_Measures metrics)]>
       (<["operation" := AString (UsageMetrics_Operation metrics)]> (Clone caller)))))).

Definition scopedOperationKey (operationKey suffix : string) : result string :=
  key <- requireStableKey operationKey "operation key" ;;
  suffix <- requireText suffix "operation key suffix" ;;
  requireStableKey (key +:+ ":" +:+ suffix) "operation idempotency key".

Definition normalizeSettlementAttempts (attempts : Z) : result Z :=
  if (attempts =? 0)%Z then Ok 3
  else if attempts <? 1 then Err (config_failure "settlement attempts must be positive")
  else Ok attempts.
End credits.
Arguments LowBalanceConfig : clear implicits.
Arguments CreditsServiceOptions : clear implicits.
Arguments CreditsService : clear implicits.
