(* ===== verification/CreditsMethods.v ===== *)
(** * credits.go: the methods of the credit service

    Programs over the calls of CreditCalls.v.  Where Go returns a result
    beside an error, the program returns both; [raise] stands for the zero
    result with an error.  Telemetry only observes a method and is left out. *)

From S2P Require Export Credits.
Local Open Scope Z_scope.
Local Open Scope go_scope.

Section methods.
Context {D : Type} `{DecimalOps D} `{RangeOrder} `{TimeZones} `{Regexps} `{Schema D}.
Implicit Types (s : CreditsService D) (userID leaseID : string) (amount : D).

Notation prog := (prog (@credit_answer D)).
Notation metadata := (CreditMetadata D).

Definition credits_not_initialized : error :=
  NewError "credits service is not initialized" (error_options ErrorCode.StoreClosed ErrorCategory.Unavailable None).

(** [if s == nil || s.store == nil] and [if s == nil || s.catalog == nil] *)
Definition with_credits {A} (service : option (CreditsService D)) (p : CreditsService D -> prog A) : prog A :=
  match service with
  | Some s => if Credits_HasStore s then p s else raise credits_not_initialized
  | None => raise credits_not_initialized
  end.

Definition with_catalog {A} (service : option (CreditsService D)) (p : CreditsService D -> prog A) : prog A :=
  match service with
  | Some s => if is_some (Credits_catalog s) then p s else raise credits_not_initialized
  | None => raise credits_not_initialized
  end.

Fixpoint for_all {A} (f : A -> prog unit) (l : list A) : prog unit :=
  match l with [] => ret tt | x :: rest => f x ;;~ for_all f rest end.

(** A result beside an error, or on its own. *)
Definition failing {A} (r : A) (err : error) : prog (A * option error) := ret (r, Some err).
Definition succeeding {A} (r : A) : prog (A * option error) := ret (r, None).

Definition uncommitted (message : string) : error := NewStoreError message (error_options "" "" None).

(** ** Events and alerts *)

(** [emitCreditEvent] *)
Definition emit s (eventType userID : string) (data : list (string * event_datum D)) : prog unit :=
  if Credits_HasEvents s then
    t <~ now ;;
    Do (Emit {| CreditEvent_Type := eventType; CreditEvent_Timestamp := ToUTC t; CreditEvent_UserID := userID;
                CreditEvent_Data := data |}) (fun _ => ret tt)
  else ret tt.

Definition fireLowBalance s userID (balance threshold : D) : prog unit :=
  let data := [("balance", EAmount balance); ("threshold", EAmount threshold)] in
  emit s CreditEventType.LowBalance userID data ;;~
  if Credits_HasLowBalanceHandler s then
    t <~ now ;;
    Do (OnTrigger {| CreditEvent_Type := CreditEventType.LowBalance; CreditEvent_Timestamp := ToUTC t;
                     CreditEvent_UserID := userID; CreditEvent_Data := data |}) (fun _ => ret tt)
  else ret tt.

Definition emitLowBalance s userID (balanceBefore balanceAfter : D) : prog unit :=
  if bool_decide (Credits_lowBalance s = []) then
    if GreaterThan balanceBefore dec_zero && LessThanOrEqual balanceAfter dec_zero
    then fireLowBalance s userID balanceAfter dec_zero
    else ret tt
  else
    Do (LowBalance (Charged userID balanceAfter)) (fun fire =>
      match fire with
      | Some threshold => fireLowBalance s userID balanceAfter threshold
      | None => ret tt
      end).

Definition rearmLowBalance s userID (balance : D) : prog unit :=
  if bool_decide (Credits_lowBalance s = []) then ret tt
  else Do (LowBalance (Granted userID balance)) (fun _ => ret tt).

(** A hook's error or panic is swallowed. *)
Definition runPostDeductionHooks (deduction : PostDeductionContext D) : prog unit :=
  Do PostDeductionHooks (fun ids =>
    for_all (fun id => Do (RunHook id deduction) (fun _ => ret tt)) (merge_sort Z.le ids)).

Definition emitPostDeduction s userID (source : string) (result : DeductionResult D) : prog unit :=
  match DeductionResult_BalanceAfter result with
  | None => ret tt
  | Some balanceAfter =>
      (if IsNegative balanceAfter
       then emit s CreditEventType.Overdraft userID
              [("balance", EAmount balanceAfter); ("amount", EAmount (DeductionResult_Amount result))]
       else ret tt) ;;~
      emitLowBalance s userID (dec_add balanceAfter (DeductionResult_Amount result)) balanceAfter ;;~
      runPostDeductionHooks {| PostDeductionContext_UserID := userID; PostDeductionContext_Source := source;
                               PostDeductionContext_Deduction := result |}
  end.

Definition emit_quota_event s userID (event : QuotaEvent) : prog unit :=
  let data := [("quota_key", EString (QuotaEvent_QuotaKey event)); ("operation", EString (QuotaEvent_Operation event));
               ("measure", EString (QuotaEvent_Measure event));
               ("threshold_percent", EPercent (QuotaEvent_ThresholdPercent event));
               ("usage_charge_id", EString (QuotaEvent_UsageChargeID event));
               ("idempotency_key", EString (QuotaEvent_IdempotencyKey event))] in
  if QuotaEvent_EventType event =? "blocked" then emit s CreditEventType.QuotaBlocked userID data
  else if QuotaEvent_EventType event =? "threshold" then emit s CreditEventType.QuotaThreshold userID data
  else ret tt.

Definition emitQuotaEvents s userID (idempotencyKey : string) : prog unit :=
  if negb (Credits_HasStore s) || (TrimSpace idempotencyKey =? "") then ret tt
  else
    Do (StoreListQuotaEvents userID
          {| ListQuotaEventsOptions_After := None; ListQuotaEventsOptions_AfterID := "";
             ListQuotaEventsOptions_Limit := 100; ListQuotaEventsOptions_IdempotencyKey := idempotencyKey |})
      (fun events => match events with
                     | Ok events => for_all (emit_quota_event s userID) events
                     | Err _ => ret tt
                     end).

(** What the metered methods do with the outcome of a charge. *)
Definition report_quotas s userID (idempotencyKey : string) (outcome : DeductionResult D * option error)
    : prog (DeductionResult D * option error) :=
  let '(result, err) := outcome in
  (if match err with
      | Some _ => DeductionResult_ErrorCode result =? "quota_exceeded"
      | None => negb (DeductionResult_Idempotent result)
      end
   then emitQuotaEvents s userID idempotencyKey else ret tt) ;;~
  ret outcome.

(** ** Expiry *)

Definition SweepExpiredCredits service (dryRun : bool) userID (limit : Z) : prog (SweepResult D) :=
  with_credits service (fun s =>
    result <~ Do (StoreSweepExpiredCredits dryRun userID limit) Done ;;
    (if negb dryRun && (0 <? SweepResult_ExpiredCount result)
     then emit s CreditEventType.Expired (firstNonEmpty [userID; "system"])
            [("expired_count", EInt (SweepResult_ExpiredCount result));
             ("expired_amount", EAmount (SweepResult_ExpiredAmount result));
             ("expired_by_bucket", EAmounts (SweepResult_ExpiredByBucket result))]
     else ret tt) ;;~
    ret result).

Definition maybeLazyExpire s userID : prog unit :=
  if Credits_lazyExpiry s then SweepExpiredCredits (Some s) false userID 100 ;;~ ret tt else ret tt.

Definition GetBalance service userID : prog (BalanceResult D) :=
  with_credits service (fun s => maybeLazyExpire s userID ;;~ Do (StoreGetBalance userID) Done).

(** ** Grants and debits *)

Definition AddCredits service userID amount (options : AddCreditsOptions D) : prog (AddCreditsResult D) :=
  with_credits service (fun s =>
    lift (requirePositiveAmount amount "add credits") ;;~
    result <~ Do (StoreAddCredits userID (QuantizeMoney amount) options) Done ;;
    emit s CreditEventType.Added userID
      [("entry_id", EString (AddCreditsResult_EntryID result)); ("amount", EAmount (AddCreditsResult_Amount result));
       ("new_balance", EAmount (AddCreditsResult_NewBalance result));
       ("type", EString (AddCreditsOptions_Type options)); ("idempotent", EBool (AddCreditsResult_Idempotent result))] ;;~
    rearmLowBalance s userID (AddCreditsResult_NewBalance result) ;;~
    ret result).

Definition raw_deduction userID amount (result : AddCreditsResult D) : DeductionResult D :=
  {| DeductionResult_EntryID := AddCreditsResult_EntryID result; DeductionResult_UsageChargeID := "";
     DeductionResult_UserID := userID; DeductionResult_Amount := amount;
     DeductionResult_BalanceAfter := Some (AddCreditsResult_NewBalance result);
     DeductionResult_AllowanceConsumed := dec_zero; DeductionResult_Idempotent := false;
     DeductionResult_ErrorCode := ""; DeductionResult_BucketBreakdown := None |}.

Definition DeductCredits service userID amount (options : AddCreditsOptions D) : prog (AddCreditsResult D) :=
  with_credits service (fun s =>
    lift (requirePositiveAmount amount "deduct credits") ;;~
    result <~ Do (StoreAddCredits userID (dec_neg (QuantizeMoney amount)) options) Done ;;
    emit s CreditEventType.Deducted userID
      [("entry_id", EString (AddCreditsResult_EntryID result)); ("amount", EAmount amount);
       ("new_balance", EAmount (AddCreditsResult_NewBalance result));
       ("entry_type", EString (AddCreditsOptions_Type options));
       ("idempotent", EBool (AddCreditsResult_Idempotent result))] ;;~
    (if AddCreditsResult_Idempotent result then ret tt
     else emitPostDeduction s userID PostDeductionSource.Raw (raw_deduction userID amount result)) ;;~
    ret result).

(** From the store's answer on: a denial, a charge, or neither. *)
Definition deducted s userID amount (options : DeductWithAllowanceOptions D) (result : DeductionResult D)
    : prog (DeductionResult D * option error) :=
  if negb (DeductionResult_ErrorCode result =? "") then
    emit s CreditEventType.DeductFailed userID
      [("amount", EAmount amount); ("error", EString (DeductionResult_ErrorCode result));
       ("feature", EString (OperationUsageOptions_Feature (DeductOptions_Usage options)))] ;;~
    failing result (creditBusinessError "deduct" userID (DeductionResult_ErrorCode result))
  else
    match DeductionResult_BalanceAfter result with
    | None => failing result (uncommitted "deduct succeeded without a committed balance")
    | Some balanceAfter =>
        emit s CreditEventType.Deducted userID
          [("entry_id", EString (DeductionResult_EntryID result));
           ("usage_charge_id", EString (DeductionResult_UsageChargeID result));
           ("amount", EAmount (DeductionResult_Amount result));
           ("allowance_consumed", EAmount (DeductionResult_AllowanceConsumed result));
           ("balance_after", EAmount balanceAfter);
           ("model", EString (OperationUsageOptions_Model (DeductOptions_Usage options)));
           ("idempotent", EBool (DeductionResult_Idempotent result))] ;;~
        (if DeductionResult_Idempotent result then ret tt
         else emitPostDeduction s userID PostDeductionSource.Deduct result) ;;~
        succeeding result
    end.

Definition Deduct service userID amount (options : DeductWithAllowanceOptions D)
    : prog (DeductionResult D * option error) :=
  with_credits service (fun s =>
    lift (requireNonNegativeAmount amount "deduct") ;;~
    maybeLazyExpire s userID ;;~
    result <~ Do (StoreDeductWithAllowance userID (QuantizeMoney amount) options) Done ;;
    deducted s userID amount options result).

Definition DeductUsage service userID (metrics : UsageMetrics D) (options : PricedUsageOptions D)
    : prog (DeductionResult D * option error) :=
  with_catalog service (fun s =>
    idempotencyKey <~ lift (requireStableKey (PricedUsageOptions_IdempotencyKey options) "deduct idempotency key") ;;
    breakdown <~ CalculateForUser (Credits_catalog s) userID metrics ;;
    outcome <~ Deduct service userID (CostBreakdown_Total breakdown)
      {| DeductOptions_Usage := pricedOperationOptions metrics (PricedUsageOptions_Feature options);
         DeductOptions_IdempotencyKey := idempotencyKey;
         DeductOptions_Operation := UsageMetrics_Operation metrics;
         DeductOptions_Metadata :=
           pricedMetadata metrics breakdown idempotencyKey (PricedUsageOptions_Metadata options) |} ;;
    report_quotas s userID idempotencyKey outcome).

Definition MustAmount (value : string) : result D :=
  match NewAmount value with
  | Ok amount => Ok amount
  | Err err => Err (GoPanic (error_message err))
  end.

(** The measures of a named job: [jobs] is 1. *)
Definition DeductFlatJob service userID (jobName : string) (options : PricedUsageOptions D)
    : prog (DeductionResult D * option error) :=
  jobs <~ lift (MustAmount "1") ;;
  DeductUsage service userID
    {| UsageMetrics_Operation := jobName; UsageMetrics_Measures := {[ "jobs" := jobs ]};
       UsageMetrics_Dimensions := ∅; UsageMetrics_Metadata := ∅ |} options.

(** ** Leases *)

Definition reserved s userID amount (operationType : string) (result : LeaseResult D)
    : prog (LeaseResult D * option error) :=
  if negb (LeaseResult_ErrorCode result =? "") then
    emit s CreditEventType.DeductFailed userID
      [("error", EString (LeaseResult_ErrorCode result)); ("amount", EAmount amount); ("stage", EString "reserve");
       ("operation_type", EString operationType)] ;;~
    failing result (creditBusinessError "reserve" userID (LeaseResult_ErrorCode result))
  else
    match LeaseResult_Amount result, LeaseResult_MinimumBalance result, LeaseResult_ExpiresAt result with
    | Some held, Some _, Some expiresAt =>
        if LeaseResult_LeaseID result =? ""
        then failing result (uncommitted "reserve succeeded without a committed lease")
        else
          emit s CreditEventType.Reserved userID
            [("lease_id", EString (LeaseResult_LeaseID result)); ("amount", EAmount held);
             ("available", EAmount (LeaseResult_Available result));
             ("billing_mode", EString (LeaseResult_BillingMode result));
             ("operation_type", EString operationType); ("expires_at", ETime expiresAt)] ;;~
          succeeding result
    | _, _, _ => failing result (uncommitted "reserve succeeded without a committed lease")
    end.

Definition Reserve service userID amount (options : ReserveOptions D) : prog (LeaseResult D * option error) :=
  with_credits service (fun s =>
    lift (requireNonNegativeAmount amount "reserve") ;;~
    resolved <~ lift (resolvedLeaseOptions s options) ;;
    let '(storeOptions, operationType) := resolved in
    result <~ Do (StoreCreateLease userID (QuantizeMoney amount) operationType storeOptions) Done ;;
    reserved s userID amount operationType result).

(** The options of [Reserve] for metered usage. *)
Definition priced_reserve (metrics : UsageMetrics D) (breakdown : CostBreakdown D) (options : ReserveOptions D)
    : ReserveOptions D :=
  {| ReserveOptions_Usage :=
       pricedOperationOptions metrics (OperationUsageOptions_Feature (ReserveOptions_Usage options));
     ReserveOptions_IdempotencyKey := ReserveOptions_IdempotencyKey options;
     ReserveOptions_OperationType :=
       if TrimSpace (ReserveOptions_OperationType options) =? "" then UsageMetrics_Operation metrics
       else ReserveOptions_OperationType options;
     ReserveOptions_BillingMode := ReserveOptions_BillingMode options;
     ReserveOptions_TTL := ReserveOptions_TTL options;
     ReserveOptions_Metadata :=
       pricedMetadata metrics breakdown (ReserveOptions_IdempotencyKey options) (ReserveOptions_Metadata options) |}.

Definition ReserveUsage service userID (metrics : UsageMetrics D) (options : ReserveOptions D)
    : prog (LeaseResult D * option error) :=
  with_catalog service (fun s =>
    breakdown <~ CalculateForUser (Credits_catalog s) userID metrics ;;
    outcome <~ Reserve service userID (CostBreakdown_Total breakdown) (priced_reserve metrics breakdown options) ;;
    (if match outcome.2 with
        | Some _ => LeaseResult_ErrorCode outcome.1 =? "quota_exceeded"
        | None => true
        end
     then emitQuotaEvents s userID (ReserveOptions_IdempotencyKey options) else ret tt) ;;~
    ret outcome).

(** The key a settlement uses when it is given none. *)
Definition settle_key leaseID (idempotencyKey : string) : string :=
  if TrimSpace idempotencyKey =? "" then "lease:" +:+ TrimSpace leaseID +:+ ":settle" else idempotencyKey.

Definition with_settle_key leaseID (options : SettleOptions D) : SettleOptions D :=
  {| SettleOptions_Usage := SettleOptions_Usage options;
     SettleOptions_IdempotencyKey := settle_key leaseID (SettleOptions_IdempotencyKey options);
     SettleOptions_Metadata := SettleOptions_Metadata options |}.

Definition settled s userID leaseID amount (options : SettleOptions D) (result : DeductionResult D)
    : prog (DeductionResult D * option error) :=
  let code := DeductionResult_ErrorCode result in
  if negb (code =? "") then
    emit s CreditEventType.DeductFailed userID
      [("error", EString code); ("amount", EAmount amount); ("stage", EString "settle"); ("lease_id", EString leaseID)] ;;~
    (if isLeaseExpiredCode code
     then emit s CreditEventType.LeaseExpired userID [("lease_id", EString leaseID)] else ret tt) ;;~
    failing result (creditBusinessError "settle" userID code)
  else
    match DeductionResult_BalanceAfter result with
    | None => failing result (uncommitted "settle succeeded without a committed balance")
    | Some balanceAfter =>
        emit s CreditEventType.Deducted userID
          [("entry_id", EString (DeductionResult_EntryID result));
           ("usage_charge_id", EString (DeductionResult_UsageChargeID result));
           ("amount", EAmount (DeductionResult_Amount result));
           ("allowance_consumed", EAmount (DeductionResult_AllowanceConsumed result));
           ("balance_after", EAmount balanceAfter);
           ("model", EString (OperationUsageOptions_Model (SettleOptions_Usage options)));
           ("lease_id", EString leaseID); ("idempotent", EBool (DeductionResult_Idempotent result))] ;;~
        (if DeductionResult_Idempotent result then ret tt
         else emitPostDeduction s userID PostDeductionSource.Settle result) ;;~
        succeeding result
    end.

Definition Settle service userID leaseID amount (options : SettleOptions D) : prog (DeductionResult D * option error) :=
  with_credits service (fun s =>
    lift (requireNonNegativeAmount amount "settle") ;;~
    let options := with_settle_key leaseID options in
    lift (requireStableKey (SettleOptions_IdempotencyKey options) "settle idempotency key") ;;~
    result <~ Do (StoreSettleLease userID leaseID (QuantizeMoney amount) options) Done ;;
    settled s userID leaseID amount options result).

Definition priced_settle leaseID (metrics : UsageMetrics D) (breakdown : CostBreakdown D) (options : SettleOptions D)
    : SettleOptions D :=
  let key := settle_key leaseID (SettleOptions_IdempotencyKey options) in
  {| SettleOptions_Usage :=
       pricedOperationOptions metrics (OperationUsageOptions_Feature (SettleOptions_Usage options));
     SettleOptions_IdempotencyKey := key;
     SettleOptions_Metadata := pricedMetadata metrics breakdown key (SettleOptions_Metadata options) |}.

Definition SettleUsage service userID leaseID (metrics : UsageMetrics D) (options : SettleOptions D)
    : prog (DeductionResult D * option error) :=
  with_catalog service (fun s =>
    breakdown <~ CalculateForLease (Credits_catalog s) userID leaseID metrics ;;
    let options := priced_settle leaseID metrics breakdown options in
    outcome <~ Settle service userID leaseID (CostBreakdown_Total breakdown) options ;;
    report_quotas s userID (SettleOptions_IdempotencyKey options) outcome).

Definition Release service userID leaseID : prog ReleaseResult :=
  with_credits service (fun s =>
    result <~ Do (StoreReleaseLease userID leaseID) Done ;;
    (if ReleaseResult_Released result
     then emit s CreditEventType.ReservationReleased userID
            [("lease_id", EString leaseID); ("reason", EString (ReleaseResult_Reason result))]
     else ret tt) ;;~
    ret result).

Definition Renew service userID leaseID (ttl : Z) : prog (LeaseResult D * option error) :=
  with_credits service (fun s =>
    let ttl := if (ttl =? 0)%Z then Credits_defaultLeaseTTL s else ttl in
    result <~ Do (StoreRenewLease userID leaseID ttl) Done ;;
    if negb (LeaseResult_ErrorCode result =? "") then
      (if isLeaseExpiredCode (LeaseResult_ErrorCode result)
       then emit s CreditEventType.LeaseExpired userID [("lease_id", EString leaseID)] else ret tt) ;;~
      failing result (creditBusinessError "renew" userID (LeaseResult_ErrorCode result))
    else succeeding result).

(** ** Affordability *)

(** What is left above the floor, the allowance included. *)
Definition spendable (available floor : D) (allowance : option (AllowanceResult D)) : D :=
  let spendable := dec_sub available floor in
  match allowance with
  | Some allowance => dec_add spendable (AllowanceResult_AllowanceRemaining allowance)
  | None => spendable
  end.

Definition CanAfford service userID (worstCase : D) (options : CanAffordOptions) : prog (CanAffordResult D) :=
  with_credits service (fun s =>
    lift (requireNonNegativeAmount worstCase "can afford") ;;~
    available <~ Do (StoreGetAvailable userID) Done ;;
    mode <~ lift (requested_mode s (CanAffordOptions_BillingMode options)) ;;
    let floor := if mode =? BillingModeOverdraft then Credits_overdraftFloor s else dec_zero in
    allowance <~ Do (StoreCheckAllowance userID) Done ;;
    let left := spendable (AvailableResult_Available available) floor allowance in
    let answer affordable reason :=
      {| CanAffordResult_Affordable := affordable; CanAffordResult_Spendable := left;
         CanAffordResult_WorstCase := QuantizeMoney worstCase; CanAffordResult_Reason := reason |} in
    let affordable := GreaterThanOrEqual left worstCase in
    entitled <~ (if CanAffordOptions_Feature options =? "" then ret true
                 else feature <~ Do (StoreCheckFeature userID (CanAffordOptions_Feature options)) Done ;;
                      ret (CheckFeatureResult_HasFeature feature)) ;;
    if negb entitled then ret (answer false "feature_not_entitled")
    else ret (answer affordable (if affordable then "" else "insufficient_credits"))).

Definition CanAffordUsage service userID (metrics : UsageMetrics D) (options : CanAffordOptions)
    : prog (CanAffordResult D) :=
  with_catalog service (fun s =>
    breakdown <~ CalculateForUser (Credits_catalog s) userID metrics ;;
    CanAfford service userID (CostBreakdown_Total breakdown) options).

(** ** Plans and subscription cycles *)

Definition SetUserPlan service userID (planKey : string) (planAssignedAt : option Time) : prog SetUserPlanResult :=
  with_credits service (fun s =>
    result <~ Do (StoreSetUserPlan userID planKey planAssignedAt) Done ;;
    emit s CreditEventType.PlanChanged userID
      [("plan_key", EString (SetUserPlanResult_PlanKey result));
       ("plan_assigned_at", ETime (SetUserPlanResult_PlanAssignedAt result));
       ("assignment_state", EString (SetUserPlanResult_AssignmentState result))] ;;~
    ret result).

Definition UnsetUserPlan service userID : prog string :=
  with_credits service (fun _ => Do (StoreUnsetUserPlan userID) Done).

(** [time.Duration(days) * 24 * time.Hour] in 64 bits. *)
Definition cycle_ttl (days : Z) : Z := wrap64 (wrap64 (days * 24) * Hour).

Definition cycle_expiry (options : GrantSubscriptionCycleOptions D) : prog (option Time) :=
  if 0 <? GrantOptions_TTLDays options
  then t <~ now ;; ret (Some (time_Add (ToUTC t) (cycle_ttl (GrantOptions_TTLDays options))))
  else ret (GrantOptions_ExpiresAt options).

Definition cycle_bucket (options : GrantSubscriptionCycleOptions D) : string :=
  if GrantOptions_Bucket options =? "" then "subscription" else GrantOptions_Bucket options.

(** The plan is assigned for a new grant, or repaired on a replay. *)
Definition assign_cycle_plan service userID (planKey : string) (replay : bool) : prog unit :=
  if planKey =? "" then ret tt
  else
    assignPlan <~ (if replay then plan <~ getUserPlan userID ;; ret (negb (GetUserPlanResult_PlanKey plan =? planKey))
                   else ret true) ;;
    if assignPlan : bool then SetUserPlan service userID planKey None ;;~ ret tt else ret tt.

Definition GrantSubscriptionCycle service userID amount (options : GrantSubscriptionCycleOptions D)
    : prog (AddCreditsResult D) :=
  with_credits service (fun s =>
    lift (requirePositiveAmount amount "subscription cycle grant") ;;~
    if is_some (GrantOptions_ExpiresAt options) && negb (GrantOptions_TTLDays options =? 0)%Z
    then raise (config_failure "subscription cycle expiry and TTL days are mutually exclusive")
    else if GrantOptions_TTLDays options <? 0
    then raise (config_failure "subscription cycle TTL days must be positive")
    else
      expiresAt <~ cycle_expiry options ;;
      result <~ Do (StoreAddCredits userID (QuantizeMoney amount)
                      {| AddCreditsOptions_Type := "purchase"; AddCreditsOptions_Metadata := GrantOptions_Metadata options;
                         AddCreditsOptions_ExpiresAt := expiresAt; AddCreditsOptions_Bucket := cycle_bucket options;
                         AddCreditsOptions_IdempotencyKey := GrantOptions_IdempotencyKey options |}) Done ;;
      assign_cycle_plan service userID (GrantOptions_PlanKey options) (AddCreditsResult_Idempotent result) ;;~
      emit s CreditEventType.CycleRenewed userID
        [("entry_id", EString (AddCreditsResult_EntryID result)); ("amount", EAmount (AddCreditsResult_Amount result));
         ("new_balance", EAmount (AddCreditsResult_NewBalance result)); ("bucket", EString (cycle_bucket options));
         ("plan_key", EString (GrantOptions_PlanKey options));
         ("idempotency_key", EString (GrantOptions_IdempotencyKey options));
         ("idempotent", EBool (AddCreditsResult_Idempotent result))] ;;~
      ret result).

(** ** Corrections *)

Definition RefundCredits service (entryID : string) (amount : option D) (reason : string) (data : metadata)
    (idempotencyKey : string) : prog (RefundResult D * option error) :=
  with_credits service (fun s =>
    result <~ Do (StoreRefundCredits entryID amount reason data idempotencyKey) Done ;;
    let userID := RefundResult_UserID result in
    if negb (RefundResult_ErrorCode result =? "") then
      (if userID =? "" then ret tt
       else emit s CreditEventType.RefundFailed userID
              [("entry_id", EString entryID); ("error", EString (RefundResult_ErrorCode result));
               ("reason", EString reason)]) ;;~
      failing result (creditBusinessError "refund" userID (RefundResult_ErrorCode result))
    else
      match RefundResult_Amount result, RefundResult_NewBalance result with
      | Some refunded, Some newBalance =>
          if (userID =? "") || (RefundResult_RefundEntryID result =? "")
          then failing result (uncommitted "refund succeeded without committed fields")
          else
            emit s CreditEventType.Refunded userID
              [("entry_id", EString entryID); ("refund_entry_id", EString (RefundResult_RefundEntryID result));
               ("amount", EAmount refunded); ("new_balance", EAmount newBalance); ("reason", EString reason)] ;;~
            succeeding result
      | _, _ => failing result (uncommitted "refund succeeded without committed fields")
      end).

Definition RevokeCreditsByEntryType service userID (entryType : string) : prog (RevokeCreditsResult D) :=
  with_credits service (fun s =>
    result <~ Do (StoreRevokeCreditsByEntryType userID entryType) Done ;;
    emit s CreditEventType.Revoked userID
      [("entry_type", EString entryType); ("revoked", EAmount (RevokeCreditsResult_Revoked result));
       ("balance_after", EAmount (RevokeCreditsResult_BalanceAfter result))] ;;~
    ret result).

(** ** Receipts and teams *)

Definition RecordUsage service userID (operation : string) (requested : D) (options : RecordUsageOptions D)
    : prog (UsageRecordResult D * option error) :=
  with_credits service (fun s =>
    result <~ Do (StoreRecordUsage userID operation requested options) Done ;;
    if negb (UsageRecordResult_ErrorCode result =? "")
    then failing result (creditBusinessError "record usage" userID (UsageRecordResult_ErrorCode result))
    else succeeding result).

Definition RecordUsageMetrics service userID (metrics : UsageMetrics D) (options : PricedOptions D)
    : prog (UsageRecordResult D * option error) :=
  with_catalog service (fun s =>
    idempotencyKey <~ lift (requireStableKey (PricedOptions_IdempotencyKey options) "record usage idempotency key") ;;
    breakdown <~ CalculateForUser (Credits_catalog s) userID metrics ;;
    RecordUsage service userID (UsageMetrics_Operation metrics) (CostBreakdown_Total breakdown)
      {| RecordUsageOptions_Usage := pricedOperationOptions metrics "";
         RecordUsageOptions_IdempotencyKey := idempotencyKey;
         RecordUsageOptions_Metadata :=
           pricedMetadata metrics breakdown idempotencyKey (PricedOptions_Metadata options) |}).

Definition DeductTeam service (teamID : string) userID amount (options : TeamDeductionOptions D)
    : prog (TeamDeductionResult D * option error) :=
  with_credits service (fun s =>
    maybeLazyExpire s userID ;;~
    result <~ Do (StoreDeductTeam teamID userID amount options) Done ;;
    if negb (TeamDeductionResult_ErrorCode result =? "") then
      emit s CreditEventType.DeductFailed userID
        [("error", EString (TeamDeductionResult_ErrorCode result)); ("amount", EAmount amount);
         ("team_id", EString teamID); ("deduct_type", EString "team")] ;;~
      failing result (creditBusinessError "team deduct" userID (TeamDeductionResult_ErrorCode result))
    else
      match TeamDeductionResult_TeamBalanceAfter result with
      | None => failing result (uncommitted "team deduct succeeded without a committed balance")
      | Some balance =>
          emit s CreditEventType.Deducted userID
            [("entry_id", EString (TeamDeductionResult_EntryID result));
             ("amount", EAmount (TeamDeductionResult_Amount result)); ("team_balance_after", EAmount balance);
             ("team_id", EString teamID); ("deduct_type", EString "team")] ;;~
          succeeding result
      end).

(** The balance answered for usage that costs nothing; a service without a
    store would panic here. *)
Definition free_team_usage s (teamID : string) userID : prog (TeamDeductionResult D * option error) :=
  maybeLazyExpire s userID ;;~
  if negb (Credits_HasStore s) then raise (GoPanic "invalid memory address or nil pointer dereference")
  else
    team <~ Do (StoreGetTeamBalance teamID) Done ;;
    match team with
    | None => raise (NewError "team was not found" (error_options ErrorCode.CommerceResourceNotFound ErrorCategory.NotFound None))
    | Some team =>
        succeeding
          {| TeamDeductionResult_EntryID := ""; TeamDeductionResult_TeamID := teamID;
             TeamDeductionResult_UserID := userID; TeamDeductionResult_Amount := dec_zero;
             TeamDeductionResult_TeamBalanceAfter := Some (TeamBalanceResult_Balance team);
             TeamDeductionResult_Idempotent := false; TeamDeductionResult_ErrorCode := "" |}
    end.

Definition DeductTeamUsage service (teamID : string) userID (metrics : UsageMetrics D) (options : PricedOptions D)
    : prog (TeamDeductionResult D * option error) :=
  with_catalog service (fun s =>
    idempotencyKey <~ lift (requireStableKey (PricedOptions_IdempotencyKey options) "team deduction idempotency key") ;;
    breakdown <~ CalculateForUser (Credits_catalog s) userID metrics ;;
    if IsZero (CostBreakdown_Total breakdown) then free_team_usage s teamID userID
    else
      DeductTeam service teamID userID (CostBreakdown_Total breakdown)
        {| TeamDeductionOptions_IdempotencyKey := idempotencyKey;
           TeamDeductionOptions_Operation := UsageMetrics_Operation metrics;
           TeamDeductionOptions_Metadata :=
             pricedMetadata metrics breakdown idempotencyKey (PricedOptions_Metadata options) |}).
End methods.

(** ** credits.go: the methods that pass on to the store

    Reads, catalog publication through the catalog service, and the catalog
    writes that go past it. *)


Section reads.
Context {D : Type} `{DecimalOps D} `{RangeOrder} `{TimeZones} `{Regexps} `{Schema D}.
Implicit Types (service : option (CreditsService D)) (userID : string).

Notation prog := (prog (@credit_answer D)).

Definition GetAvailable service userID : prog (AvailableResult D) :=
  with_credits service (fun _ => Do (StoreGetAvailable userID) Done).

Definition GetUserPlan service userID : prog GetUserPlanResult :=
  with_credits service (fun _ => getUserPlan userID).

Definition CheckFeature service userID feature : prog CheckFeatureResult :=
  with_credits service (fun _ => Do (StoreCheckFeature userID feature) Done).

Definition CheckAllowance service userID : prog (option (AllowanceResult D)) :=
  with_credits service (fun _ => Do (StoreCheckAllowance userID) Done).

Definition GetActiveCatalog service : prog (option (CatalogRevision D)) :=
  with_credits service (fun _ => getActiveCatalog).

(** [if s == nil || s.store == nil || s.catalog == nil] *)
Definition with_both {A} service (p : CreditsService D -> prog A) : prog A :=
  with_credits service (fun s => with_catalog (Some s) p).

Definition PublishAndActivateCatalog service (config : option (gmap string (any D))) label rollout : prog string :=
  with_both service (fun s => PublishAndActivate (Credits_catalog s) config label rollout).

Definition PublishCatalogDraft service (config : option (gmap string (any D))) label : prog string :=
  with_both service (fun s => PublishDraft (Credits_catalog s) config label).

Definition GetCatalogRevision service version : prog (option (CatalogRevision D)) :=
  with_credits service (fun _ => getCatalogRevision version).

Definition ActivateCatalogRevision service version rollout : prog string :=
  with_credits service (fun _ => Do (StoreActivateCatalogRevision version rollout) Done).

Definition SetPlanRevisionPin service userID pinned : prog bool :=
  with_credits service (fun _ => Do (StoreSetPlanRevisionPin userID pinned) Done).

Definition ApplyDuePlanChanges service limit : prog Z :=
  with_credits service (fun _ => Do (StoreApplyDuePlanChanges limit) Done).

Definition ListQuotaEvents service userID options : prog (list QuotaEvent) :=
  with_credits service (fun _ => Do (StoreListQuotaEvents userID options) Done).

Definition GetTeamBalance service teamID : prog (option (TeamBalanceResult D)) :=
  with_credits service (fun _ => Do (StoreGetTeamBalance teamID) Done).
End reads.

(** ** Operations billed around application work

    A billed operation holds a lease for work in progress.  [RunBilled] admits
    it, runs the work and settles what it cost; when the work fails it gives
    the lease back. *)

Section billed.
Context {D : Type} `{DecimalOps D} `{RangeOrder} `{TimeZones} `{Regexps} `{Schema D}.
Implicit Types (s : CreditsService D) (userID leaseID : string).

Notation prog := (prog (@credit_answer D)).

(** The handle; [service] is the service that made it. *)
Record BilledOperation := {
  BilledOperation_service : option (CreditsService D);
  BilledOperation_userID : string;
  BilledOperation_leaseID : string;
  BilledOperation_operationKey : string;
  BilledOperation_feature : string;
  BilledOperation_metadata : CreditMetadata D;
}.

Definition no_usage (feature : string) : OperationUsageOptions D :=
  {| OperationUsageOptions_Feature := feature; OperationUsageOptions_Model := ""; OperationUsageOptions_Region := "";
     OperationUsageOptions_Measures := ∅; OperationUsageOptions_Dimensions := ∅ |}.

(** The options the lease of an operation is reserved with. *)
Definition operation_reserve {E} (reserveKey : string) (options : BeginBilledOperationOptions D E) : ReserveOptions D :=
  {| ReserveOptions_Usage := no_usage (BilledOptions_Feature options);
     ReserveOptions_IdempotencyKey := reserveKey;
     ReserveOptions_OperationType := BilledOptions_OperationType options;
     ReserveOptions_BillingMode := BilledOptions_BillingMode options;
     ReserveOptions_TTL := BilledOptions_TTL options;
     ReserveOptions_Metadata := BilledOptions_Metadata options |}.

(** [BeginBilledOperation] with [reserve] its [Reserve] or [ReserveUsage]. *)
Definition begin_operation {E} (reserve : option (CreditsService D) -> string -> E -> ReserveOptions D ->
      prog (LeaseResult D * option error)) service userID (options : BeginBilledOperationOptions D E)
    : prog BilledOperation :=
  with_credits service (fun _ =>
    operationKey <~ lift (requireStableKey (BilledOptions_OperationKey options) "operation key") ;;
    reserveKey <~ lift (scopedOperationKey operationKey "reserve") ;;
    outcome <~ reserve service userID (BilledOptions_Estimate options) (operation_reserve reserveKey options) ;;
    match outcome with
    | (_, Some err) => raise err
    | (lease, None) =>
        if LeaseResult_LeaseID lease =? "" then raise (uncommitted "reserve succeeded without a lease ID")
        else ret {| BilledOperation_service := service; BilledOperation_userID := userID;
                    BilledOperation_leaseID := LeaseResult_LeaseID lease;
                    BilledOperation_operationKey := operationKey;
                    BilledOperation_feature := BilledOptions_Feature options;
                    BilledOperation_metadata := Some (Clone (BilledOptions_Metadata options)) |}
    end).

Definition BeginBilledOperation service userID (options : BeginBilledOperationOptions D D) : prog BilledOperation :=
  begin_operation Reserve service userID options.

Definition BeginBilledUsageOperation service userID (options : BeginBilledOperationOptions D (UsageMetrics D))
    : prog BilledOperation :=
  begin_operation ReserveUsage service userID options.

Definition ResumeBilledOperation (service : option (CreditsService D)) userID leaseID (operationKey feature : string)
    (metadata : CreditMetadata D) : result BilledOperation :=
  if match service with Some s => negb (Credits_HasStore s) | None => true end then Err credits_not_initialized
  else
    userID <- requireText userID "user ID" ;;
    leaseID <- requireText leaseID "lease ID" ;;
    operationKey <- requireStableKey operationKey "operation key" ;;
    Ok {| BilledOperation_service := service; BilledOperation_userID := userID;
          BilledOperation_leaseID := leaseID; BilledOperation_operationKey := operationKey;
          BilledOperation_feature := feature; BilledOperation_metadata := Some (Clone metadata) |}.

Definition operation_not_initialized : error :=
  NewError "billed operation is not initialized" (error_options ErrorCode.StoreClosed ErrorCategory.Unavailable None).

(** [if o == nil || o.service == nil] *)
Definition with_operation {A} (operation : option BilledOperation) (p : BilledOperation -> prog A) : prog A :=
  match operation with
  | Some o => if is_some (BilledOperation_service o) then p o else raise operation_not_initialized
  | None => raise operation_not_initialized
  end.

Definition Operation_Renew operation (ttl : Z) : prog (LeaseResult D * option error) :=
  with_operation operation (fun o =>
    Renew (BilledOperation_service o) (BilledOperation_userID o) (BilledOperation_leaseID o) ttl).

Definition Operation_Release operation : prog ReleaseResult :=
  with_operation operation (fun o =>
    Release (BilledOperation_service o) (BilledOperation_userID o) (BilledOperation_leaseID o)).

(** The options an operation settles with. *)
Definition operation_settle (o : BilledOperation) (settleKey : string) : SettleOptions D :=
  {| SettleOptions_Usage := no_usage (BilledOperation_feature o);
     SettleOptions_IdempotencyKey := settleKey;
     SettleOptions_Metadata := Some (Clone (BilledOperation_metadata o)) |}.

Definition Operation_Settle operation (actual : D) : prog (DeductionResult D * option error) :=
  with_operation operation (fun o =>
    settleKey <~ lift (scopedOperationKey (BilledOperation_operationKey o) "settle") ;;
    Settle (BilledOperation_service o) (BilledOperation_userID o) (BilledOperation_leaseID o) actual
      (operation_settle o settleKey)).

Definition Operation_SettleUsage operation (actual : UsageMetrics D) : prog (DeductionResult D * option error) :=
  with_operation operation (fun o =>
    settleKey <~ lift (scopedOperationKey (BilledOperation_operationKey o) "settle") ;;
    SettleUsage (BilledOperation_service o) (BilledOperation_userID o) (BilledOperation_leaseID o) actual
      (operation_settle o settleKey)).

(** ** Work between admission and settlement *)

(** The loop over the attempts: [settle] is the operation's settlement, [n]
    the attempts left; the last failure is what the caller sees. *)
Fixpoint settle_attempts (settle : prog (DeductionResult D * option error)) (value : any D) (n : nat) (last : error)
    : prog (RunBilledResult D) :=
  match n with
  | O => raise last
  | S n =>
      pcatch settle (fun outcome =>
        match outcome with
        | Ok (deduction, None) =>
            ret {| RunBilledResult_Result := value; RunBilledResult_Deduction := deduction |}
        | Ok (_, Some err) | Err err =>
            if negb (IsRetryableError err) then raise err
            else Do ContextErr (fun cancelled => if cancelled : bool then raise err
                                                 else settle_attempts settle value n err)
        end)
  end.

(** What follows the work: a lease is given back if it failed, and kept if it
    panicked, since the panic unwinds past the release. *)
Definition after_work {A} (operation : BilledOperation) (settle : option BilledOperation -> A ->
      prog (DeductionResult D * option error)) (attempts : Z) (work : work_outcome D A) : prog (RunBilledResult D) :=
  match work with
  | WorkPanicked text => raise (GoPanic text)
  | WorkFailed workErr => pcatch (Operation_Release (Some operation)) (fun _ => raise workErr)
  | WorkDone value actual =>
      settle_attempts (settle (Some operation) actual) value (Z.to_nat attempts) (ExternalError "nil")
  end.

Definition RunBilled service userID (options : RunBilledOptions D D) : prog (RunBilledResult D) :=
  if negb (RunBilledOptions_HasDoWork options) then raise (config_failure "billed work callback is required")
  else
    attempts <~ lift (normalizeSettlementAttempts (RunBilledOptions_SettlementAttempts options)) ;;
    operation <~ BeginBilledOperation service userID (RunBilledOptions_Begin options) ;;
    Do DoWork (after_work operation Operation_Settle attempts).

Definition RunBilledUsage service userID (options : RunBilledOptions D (UsageMetrics D)) : prog (RunBilledResult D) :=
  if negb (RunBilledOptions_HasDoWork options) then raise (config_failure "billed usage work callback is required")
  else
    attempts <~ lift (normalizeSettlementAttempts (RunBilledOptions_SettlementAttempts options)) ;;
    operation <~ BeginBilledUsageOperation service userID (RunBilledOptions_Begin options) ;;
    Do DoUsageWork (after_work operation Operation_SettleUsage attempts).
End billed.
Arguments BilledOperation : clear implicits.
