(* ===== verification/CreditsFacts.v ===== *)
(** * The credit service charges once, what it was asked

    Then a sample credit service and a store that answers every charge, for the
    concrete runs of the theorems about credits. *)

From S2P Require Export CreditsMethods CatalogServiceFacts Protocols DecimalRef.
From S2P Require Import ConfigIntegrity.
Local Open Scope Z_scope.
Local Open Scope go_scope.

Section facts.
Context {D : Type} `{DecimalLaws D} `{RangeOrder} `{TimeZones} `{Regexps} `{Schema D}.
Implicit Types (s : CreditsService D) (userID leaseID : string) (amount : D).

Notation prog := (prog (@credit_answer D)).
Notation event := (event (@credit_answer D)).

(** ** Which calls the parts of a method make *)

(** The store calls that move or hold an amount of an account. *)
Definition is_charge (c : credit_call D) : bool :=
  match c with
  | StoreAddCredits _ _ _ | StoreDeductWithAllowance _ _ _ | StoreCreateLease _ _ _ _ | StoreSettleLease _ _ _ _
  | StoreDeductTeam _ _ _ _ | StoreRefundCredits _ _ _ _ _ | StoreRevokeCreditsByEntryType _ _ => true
  | _ => false
  end.

(** The calls that tell the application something. *)
Definition notifies (c : credit_call D) : bool :=
  match c with Emit _ | OnTrigger _ | RunHook _ _ => true | _ => false end.

Definition quiet (c : credit_call D) : Prop := is_charge c = false.
Definition silent (c : credit_call D) : Prop := is_charge c = false /\ notifies c = false.

Lemma install_silent revision : calls_only silent (install revision).
Proof. unfold install, now, in_state. only_walk; done. Qed.

Lemma catalogFresh_silent service : calls_only silent (catalogFresh service).
Proof. unfold catalogFresh, in_state, now. only_walk; done. Qed.

Lemma refreshNow_silent service : calls_only silent (refreshNow service).
Proof. unfold refreshNow, with_store, getActiveCatalog, in_state, now. only_walk; try done. apply install_silent. Qed.

Lemma RefreshIfStale_silent service : calls_only silent (RefreshIfStale service).
Proof.
  unfold RefreshIfStale, with_store, holding_refresh. only_walk; try done;
    first [apply catalogFresh_silent | apply refreshNow_silent].
Qed.

Lemma engineForVersion_silent service version : calls_only silent (engineForVersion service version).
Proof. unfold engineForVersion, EngineOf, in_state, getCatalogRevision. only_walk; done. Qed.

Lemma CalculateForUser_silent service userID metrics : calls_only silent (CalculateForUser service userID metrics).
Proof.
  unfold CalculateForUser, with_store, getUserPlan. only_walk; try done;
    first [apply RefreshIfStale_silent | apply engineForVersion_silent].
Qed.

Lemma CalculateForLease_silent service userID leaseID metrics :
  calls_only silent (CalculateForLease service userID leaseID metrics).
Proof.
  unfold CalculateForLease, with_store, getLeasePricingContext. only_walk; try done. apply engineForVersion_silent.
Qed.

Lemma emit_quiet s eventType userID data : calls_only quiet (emit s eventType userID data).
Proof. unfold emit, now. only_walk; done. Qed.

Lemma fireLowBalance_quiet s userID balance threshold : calls_only quiet (fireLowBalance s userID balance threshold).
Proof. unfold fireLowBalance, now. only_walk; try done. apply emit_quiet. Qed.

Lemma rearmLowBalance_quiet s userID balance : calls_only quiet (rearmLowBalance s userID balance).
Proof. unfold rearmLowBalance. only_walk; done. Qed.

Lemma for_all_only {A} P (f : A -> prog unit) l : (forall x, calls_only P (f x)) -> calls_only P (for_all f l).
Proof. intros Hf. induction l; cbn [for_all]; only_walk; [apply Hf|done]. Qed.

Lemma emitPostDeduction_quiet s userID source result : calls_only quiet (emitPostDeduction s userID source result).
Proof.
  unfold emitPostDeduction, emitLowBalance, runPostDeductionHooks. only_walk; try done;
    first [apply emit_quiet | apply fireLowBalance_quiet | apply for_all_only; by intros].
Qed.

Lemma emitQuotaEvents_quiet s userID key : calls_only quiet (emitQuotaEvents s userID key).
Proof.
  unfold emitQuotaEvents. only_walk; try done. apply for_all_only. intros event.
  unfold emit_quota_event. only_walk; apply emit_quiet.
Qed.

Lemma maybeLazyExpire_quiet s userID : calls_only quiet (maybeLazyExpire s userID).
Proof.
  unfold maybeLazyExpire, SweepExpiredCredits, with_credits. only_walk; try done. apply emit_quiet.
Qed.

Lemma silent_quiet {A} (p : prog A) : calls_only silent p -> calls_only quiet p.
Proof. apply calls_only_mono. by intros c []. Qed.

(** ** At most one charge *)

Definition charges (h : list event) : list event := filter (fun e => is_charge (projT1 e) = true) h.

Lemma charge_events_app h t : charges (h ++ t) = charges h ++ charges t.
Proof. apply filter_app. Qed.

Lemma charges_quiet t : Forall (fun e => quiet (projT1 e)) t -> charges t = [].
Proof.
  unfold charges, quiet. induction 1 as [|e t He _ IH]; [done|].
  rewrite filter_cons_False; [exact IH|]. by apply not_true_iff_false.
Qed.

Lemma charges_charge h c (x : credit_answer c) : is_charge c = true -> charges (h ++ [existT c x]) <> [].
Proof. intros Hc. rewrite charge_events_app. unfold charges at 2. rewrite filter_cons_True by done. by destruct (charges h). Qed.

(** The first charge of a trace. *)
Lemma first_charge t :
  charges t = [] \/
  exists t1 c x t2, t = t1 ++ existT c x :: t2 /\ charges t1 = [] /\ is_charge c = true.
Proof.
  induction t as [|[c x] t IH]; [by left|]. destruct (is_charge c) eqn:Hc.
  - right. by exists [], c, x, t.
  - destruct IH as [IH|(t1 & c' & x' & t2 & -> & Hno & Hc')]; [left|right].
    + unfold charges. rewrite filter_cons_False; [done|]. cbn. by rewrite Hc.
    + exists (existT c x :: t1), c', x', t2. split_and!; [done| |done].
      unfold charges. rewrite filter_cons_False; [done|]. cbn. by rewrite Hc.
Qed.

Section bill.
(** [bill h c]: after the calls [h], [c] is the charge that is due. *)
Context (bill : list event -> credit_call D -> Prop).

Definition due (h : list event) (c : credit_call D) : Prop := is_charge c = true -> charges h = [] /\ bill h c.

(** Whoever gets a result has been charged. *)
Definition charged_for {A} (h : list event) (r : result A) : Prop :=
  match r with Ok _ => charges h <> [] | Err _ => True end.

Definition charges_once {A} (h : list event) (p : prog A) : Prop := obeys (fun _ => True) due charged_for h p.

Lemma quiet_due h c : quiet c -> due h c.
Proof. unfold quiet, due. by intros ->. Qed.

(** A part that charges nothing, before and after the charge. *)
Lemma quiet_part {A} h (p : prog A) :
  calls_only quiet p ->
  obeys (fun _ => True) due (fun h' r => exists t, h' = h ++ t /\ charges t = [] /\ runs p t r) h p.
Proof.
  intros Hp. eapply obeys_mono.
  - apply obeys_traced, (calls_only_obeys _ _ quiet); [|done]. intros t c Hc. by apply quiet_due.
  - intros t r [(t' & Ht & Hall) (t'' & Ht' & Hr)]. exists t'. simplify_list_eq.
    split_and!; [done|by apply charges_quiet|done].
Qed.

Lemma before_charge {A B} h (p : prog A) (f : A -> prog B) :
  calls_only quiet p ->
  (forall t a, charges t = [] -> runs p t (Ok a) -> charges_once (h ++ t) (f a)) ->
  charges_once h (pbind p f).
Proof.
  intros Hp Hf. eapply obeys_then; [by apply quiet_part|done|].
  intros t a (t' & Ht & Hcharges & Hr). simplify_list_eq. by apply Hf.
Qed.

Lemma charge_step {B} h c (f : credit_answer c -> prog B) :
  charges h = [] -> bill h c -> is_charge c = true ->
  (forall x, charges_once (h ++ [existT c x]) (f x)) -> charges_once h (Do c f).
Proof. intros Hh Hb Hc Hf. split; [done|]. intros x _. apply Hf. Qed.

Lemma after_charge {A} h (p : prog A) : charges h <> [] -> calls_only quiet p -> charges_once h p.
Proof.
  intros Hh Hp. eapply obeys_mono; [by apply quiet_part|].
  intros t [a|e] (t' & Ht & _ & _); [|done]. cbn. rewrite charge_events_app. by destruct (charges h).
Qed.

(** A charge whose answer is returned or passed on quietly. *)
Lemma charge_then {A B} h c (k : credit_answer c -> prog A) (f : A -> prog B) :
  charges h = [] -> bill h c -> is_charge c = true ->
  (forall x, calls_only quiet (k x)) -> (forall a, calls_only quiet (f a)) -> charges_once h (pbind (Do c k) f).
Proof.
  intros Hh Hb Hc Hk Hf. cbn [pbind]. apply charge_step; [done..|]. intros x. apply after_charge; [by apply charges_charge|].
  by apply calls_only_bind.
Qed.

Lemma charges_once_bind {A B} h (p : prog A) (f : A -> prog B) :
  charges_once h p -> (forall a, calls_only quiet (f a)) -> charges_once h (pbind p f).
Proof.
  intros Hp Hf. eapply obeys_then; [exact Hp|done|]. intros t a Ha. by apply after_charge.
Qed.

Definition billed_once {A} (t : list event) (r : result A) : Prop :=
  (charges t = [] /\ exists err, r = Err err) \/
  exists t1 c x t2, t = t1 ++ existT c x :: t2 /\ is_charge c = true /\ bill t1 c /\
    charges t1 = [] /\ charges t2 = [].

Lemma charges_once_runs {A} (p : prog A) t r : charges_once [] p -> runs p t r -> billed_once t r.
Proof.
  intros Hp Hr. assert (Forall (fun _ => True) t) as Ht by by apply Forall_forall.
  destruct (obeys_runs _ _ _ _ _ _ _ Hp Hr Ht) as [Hq Ha].
  destruct (first_charge t) as [Hno|(t1 & c & x & t2 & -> & Hno & Hc)].
  - left. split; [done|]. destruct r as [a|e]; [done|by exists e].
  - right. exists t1, c, x, t2. destruct (Ha t1 c x t2 eq_refl Hc) as [_ Hb]. split_and!; [done..|].
    destruct (first_charge t2) as [Hno2|(t3 & c' & x' & t4 & -> & _ & Hc')]; [done|exfalso].
    destruct (Ha (t1 ++ existT c x :: t3) c' x' t4) as [Hempty _]; [by simplify_list_eq|done|].
    cbn in Hempty. rewrite charge_events_app in Hempty. unfold charges at 2 in Hempty.
    rewrite filter_cons_True in Hempty by done. by destruct (charges t1).
Qed.
End bill.

(** ** What the constructor guarantees *)

Record service_ok s : Prop := {
  ok_store : Credits_HasStore s = true;
  ok_catalog : is_some (Credits_catalog s) = true;
  ok_floor : is_money (Credits_overdraftFloor s) /\ (toQ (Credits_overdraftFloor s) <= 0)%Q;
  ok_concurrent : forall n, Credits_maxConcurrent s = Some n -> 1 <= n;
  ok_ttl : 0 < Credits_defaultLeaseTTL s /\ Z.rem (Credits_defaultLeaseTTL s) Second = 0;
  ok_policy : Credits_policy s = CreditPolicy.StrictPrepaid \/ Credits_policy s = CreditPolicy.Overdraft;
  ok_thresholds : Forall (fun t => (0 <= toQ t)%Q) (Credits_lowBalance s);
  ok_tracked : 1 <= Credits_lowBalanceMaxTracked s;
}.

Lemma requirePositiveDuration_Ok value field ttl :
  requirePositiveDuration value field = Ok ttl -> ttl = value /\ 0 < value /\ Z.rem value Second = 0.
Proof.
  unfold requirePositiveDuration. destruct (Z.leb_spec value 0); [done|].
  destruct (Z.eqb_spec (Z.rem value Second) 0); [|done]. by intros [= <-].
Qed.

Lemma checked_floor_Ok floor d : checked_floor floor = Ok d -> is_money d /\ (toQ d <= 0)%Q.
Proof.
  unfold checked_floor. destruct floor as [floor|].
  - destruct (GreaterThan (QuantizeMoney floor) dec_zero) eqn:Hgt; [done|]. intros [= <-].
    split; [apply QuantizeMoney_is_money|]. apply GreaterThan_false in Hgt. by rewrite toQ_zero in Hgt.
  - intros [= <-]. split; [apply is_money_zero|]. rewrite toQ_zero. apply Qle_refl.
Qed.

Lemma checked_policy_Ok policy p :
  checked_policy policy = Ok p -> p = CreditPolicy.StrictPrepaid \/ p = CreditPolicy.Overdraft.
Proof.
  unfold checked_policy. set (q := if policy =? "" then _ else policy).
  destruct (String.eqb_spec q CreditPolicy.StrictPrepaid); [intros [= <-]; by left|].
  destruct (String.eqb_spec q CreditPolicy.Overdraft); [intros [= <-]; by right|done].
Qed.

Lemma NewCreditsService_ok hasStore options s registry :
  NewCreditsService hasStore options = Ok (s, registry) -> service_ok s.
Proof.
  unfold NewCreditsService. destruct hasStore; [|done]. cbn [negb].
  intros Hnew. apply bind_Ok in Hnew as (policy & Hpolicy & Hnew). apply bind_Ok in Hnew as (floor & Hfloor & Hnew).
  destruct (match Options_MaxConcurrent options with Some n => n <? 1 | None => false end) eqn:Hmax; [done|].
  apply bind_Ok in Hnew as (ttl & Httl & Hnew).
  destruct (is_some _ && _); [done|]. destruct (_ <? 1) eqn:Htracked; [done|].
  destruct (existsb IsNegative _) eqn:Hneg; [done|]. apply bind_Ok in Hnew as (catalog & _ & Hnew).
  injection Hnew as <- _. apply requirePositiveDuration_Ok in Httl as (_ & Hpos & Hsec).
  split; cbn; try done.
  - by apply checked_floor_Ok in Hfloor.
  - intros n Hn. rewrite Hn in Hmax. by apply Z.ltb_ge in Hmax.
  - by apply checked_policy_Ok in Hpolicy.
  - apply Forall_forall. intros t Ht. apply IsNegative_false. apply not_true_is_false. intros Hn.
    apply not_true_iff_false in Hneg. apply Hneg. apply existsb_exists. exists t. split; [|done].
    apply list_elem_of_In. unfold sort_thresholds in Ht. by rewrite merge_sort_Permutation in Ht.
  - by apply Z.ltb_ge in Htracked.
Qed.
End facts.
#[export] Hint Resolve emit_quiet fireLowBalance_quiet rearmLowBalance_quiet emitPostDeduction_quiet
  emitQuotaEvents_quiet maybeLazyExpire_quiet CalculateForUser_silent CalculateForLease_silent silent_quiet : effects.

(** ** A sample service and store *)

#[export] Existing Instances canonical_range utc_only any_pattern any_document.

Definition sample_options : CreditsServiceOptions Ref.dec :=
  {| Options_Policy := "overdraft"; Options_OverdraftFloor := Some (lit "-5"); Options_MaxConcurrent := Some 2;
     Options_DefaultLeaseTTL := 0; Options_HasEventSink := true; Options_LowBalance := [lit "10"; lit "100"];
     Options_LowBalanceConfig := None; Options_LazyExpiry := false; Options_CatalogCacheTTL := None;
     Options_HasPostDeduction := true |}.

Definition sample_credits : CreditsService Ref.dec :=
  match NewCreditsService true sample_options with
  | Ok (s, _) => s
  | Err _ =>
      {| Credits_HasStore := false; Credits_catalog := None; Credits_HasEvents := false; Credits_policy := "";
         Credits_overdraftFloor := lit "0"; Credits_maxConcurrent := None; Credits_defaultLeaseTTL := 0;
         Credits_lowBalance := []; Credits_HasLowBalanceHandler := false; Credits_lowBalanceMaxTracked := 0;
         Credits_lazyExpiry := false |}
  end.

Definition sample_registry : HookRegistry := {| postDeductionHooks := {[ 1 ]}; nextPostDeductionID := 1 |}.

Example sample_credits_made : NewCreditsService true sample_options = Ok (sample_credits, sample_registry).
Proof. vm_compute. reflexivity. Qed.

(** A charge that leaves 90. *)
Definition sample_deduction (amount : Ref.dec) : DeductionResult Ref.dec :=
  {| DeductionResult_EntryID := "entry_1"; DeductionResult_UsageChargeID := "usage_1";
     DeductionResult_UserID := "user_1"; DeductionResult_Amount := amount;
     DeductionResult_BalanceAfter := Some (lit "90"); DeductionResult_AllowanceConsumed := lit "0";
     DeductionResult_Idempotent := false; DeductionResult_ErrorCode := ""; DeductionResult_BucketBreakdown := None |}.

Definition sample_lease (amount : Ref.dec) : LeaseResult Ref.dec :=
  {| LeaseResult_LeaseID := "lease_1"; LeaseResult_UserID := "user_1"; LeaseResult_Amount := Some amount;
     LeaseResult_Available := lit "95"; LeaseResult_ReservedTotal := amount;
     LeaseResult_MinimumBalance := Some (lit "-5"); LeaseResult_BillingMode := BillingModeOverdraft;
     LeaseResult_ExpiresAt := Some zero_time; LeaseResult_ErrorCode := "" |}.

(** The state: the service's tracker and how often a settlement still fails
    with a timeout. *)
Definition sample_state : Type := LowBalanceTracker * nat.

Definition sample_store (work : work_outcome Ref.dec Ref.dec) (c : credit_call Ref.dec) (state : sample_state)
    : credit_answer c * sample_state :=
  match c with
  | StoreDeductWithAllowance _ amount _ => (Ok (sample_deduction amount), state)
  | StoreCreateLease _ amount _ _ => (Ok (sample_lease amount), state)
  | StoreSettleLease _ _ amount _ =>
      match state.2 with
      | O => (Ok (sample_deduction amount), state)
      | S n => (Err (NewStoreTimeoutError "timeout" None), (state.1, n))
      end
  | StoreReleaseLease userID leaseID =>
      (Ok {| ReleaseResult_LeaseID := leaseID; ReleaseResult_UserID := userID; ReleaseResult_Released := true;
             ReleaseResult_Reason := "released" |}, state)
  | LowBalance e =>
      let '(tracker, fire) :=
        section_step (Credits_lowBalance sample_credits) (Credits_lowBalanceMaxTracked sample_credits) state.1 e in
      (fire, (tracker, state.2))
  | PostDeductionHooks => ([1], state)
  | DoWork => (work, state)
  | c => (no_answer c, state)
  end.

Definition done_work : work_outcome Ref.dec Ref.dec := WorkDone (AString "done") (lit "2.5").
