(* ===== verification/CreditChargesFacts.v ===== *)
(** * Each charging method makes one store call, for what it was asked

    [charging]: the methods that grant, debit, hold or settle an amount, each
    with the call that is due.  Whatever the store, the catalog and the
    callbacks answer, a method makes that call once, or fails before it. *)

From S2P Require Export CreditsFacts.
From S2P Require Import DecimalRef.
Local Open Scope Z_scope.
Local Open Scope go_scope.

Section charging.
Context {D : Type} `{DecimalLaws D} `{RangeOrder} `{TimeZones} `{Regexps} `{Schema D}.
Implicit Types (s : CreditsService D) (userID leaseID : string) (amount : D).

Notation prog := (prog (@credit_answer D)).
Notation event := (event (@credit_answer D)).

(** ** The calls that are due *)

Definition debit_due userID amount (options : DeductWithAllowanceOptions D) (_ : list event) (c : credit_call D) : Prop :=
  c = StoreDeductWithAllowance userID (QuantizeMoney amount) options /\ (0 <= toQ amount)%Q.

(** What the store is asked to hold is well formed: a key, a mode and the
    floor that goes with it, a whole number of seconds, a positive limit. *)
Definition lease_options_ok (key : string) (lease : CreateLeaseOptions D) : Prop :=
  CreateLeaseOptions_IdempotencyKey lease = TrimSpace key /\ TrimSpace key <> "" /\
  string_length (TrimSpace key) <= maxIdempotencyKeyLength /\
  (CreateLeaseOptions_BillingMode lease = BillingModeStrict /\ CreateLeaseOptions_Floor lease = dec_zero /\
     CreateLeaseOptions_OverdraftFloor lease = None \/
   CreateLeaseOptions_BillingMode lease = BillingModeOverdraft /\ (toQ (CreateLeaseOptions_Floor lease) <= 0)%Q /\
     CreateLeaseOptions_OverdraftFloor lease = Some (CreateLeaseOptions_Floor lease)) /\
  0 < CreateLeaseOptions_TTL lease /\ Z.rem (CreateLeaseOptions_TTL lease) Second = 0 /\
  (forall n, CreateLeaseOptions_MaxConcurrent lease = Some n -> 1 <= n).

Definition hold_due userID amount (options : ReserveOptions D) (_ : list event) (c : credit_call D) : Prop :=
  exists operationType lease,
    c = StoreCreateLease userID (QuantizeMoney amount) operationType lease /\ (0 <= toQ amount)%Q /\
    operationType <> "" /\ CreateLeaseOptions_Usage lease = ReserveOptions_Usage options /\
    lease_options_ok (ReserveOptions_IdempotencyKey options) lease.

Definition settlement_due userID leaseID amount (options : SettleOptions D) (_ : list event) (c : credit_call D) : Prop :=
  c = StoreSettleLease userID leaseID (QuantizeMoney amount) (with_settle_key leaseID options) /\ (0 <= toQ amount)%Q /\
  TrimSpace (settle_key leaseID (SettleOptions_IdempotencyKey options)) <> "".

(** A metered call is due after [price] has answered a cost, for that cost. *)
Definition priced_due (price : prog (CostBreakdown D)) (due : CostBreakdown D -> list event -> credit_call D -> Prop)
    (h : list event) (c : credit_call D) : Prop :=
  exists t cost, t `prefix_of` h /\ runs price t (Ok cost) /\ due cost h c.

(** The options [DeductUsage] debits with. *)
Definition usage_options (metrics : UsageMetrics D) (options : PricedUsageOptions D) (key : string)
    (cost : CostBreakdown D) : DeductWithAllowanceOptions D :=
  {| DeductOptions_Usage := pricedOperationOptions metrics (PricedUsageOptions_Feature options);
     DeductOptions_IdempotencyKey := key; DeductOptions_Operation := UsageMetrics_Operation metrics;
     DeductOptions_Metadata := pricedMetadata metrics cost key (PricedUsageOptions_Metadata options) |}.

Inductive charging s : (list event -> credit_call D -> Prop) -> forall A, prog A -> Prop :=
  | charging_AddCredits userID amount options :
      charging s (fun _ c => c = StoreAddCredits userID (QuantizeMoney amount) options /\ (0 < toQ amount)%Q)
        _ (AddCredits (Some s) userID amount options)
  | charging_DeductCredits userID amount options :
      charging s (fun _ c => c = StoreAddCredits userID (dec_neg (QuantizeMoney amount)) options /\ (0 < toQ amount)%Q)
        _ (DeductCredits (Some s) userID amount options)
  | charging_GrantSubscriptionCycle userID amount options :
      charging s (fun _ c => exists granted, c = StoreAddCredits userID (QuantizeMoney amount) granted /\
                    (0 < toQ amount)%Q /\
                    AddCreditsOptions_IdempotencyKey granted = GrantOptions_IdempotencyKey options)
        _ (GrantSubscriptionCycle (Some s) userID amount options)
  | charging_Deduct userID amount options :
      charging s (debit_due userID amount options) _ (Deduct (Some s) userID amount options)
  | charging_DeductUsage userID metrics options :
      charging s
        (priced_due (CalculateForUser (Credits_catalog s) userID metrics)
           (fun cost => debit_due userID (CostBreakdown_Total cost)
              (usage_options metrics options (TrimSpace (PricedUsageOptions_IdempotencyKey options)) cost)))
        _ (DeductUsage (Some s) userID metrics options)
  | charging_Reserve userID amount options :
      charging s (hold_due userID amount options) _ (Reserve (Some s) userID amount options)
  | charging_ReserveUsage userID metrics options :
      charging s
        (priced_due (CalculateForUser (Credits_catalog s) userID metrics)
           (fun cost => hold_due userID (CostBreakdown_Total cost) (priced_reserve metrics cost options)))
        _ (ReserveUsage (Some s) userID metrics options)
  | charging_Settle userID leaseID amount options :
      charging s (settlement_due userID leaseID amount options) _ (Settle (Some s) userID leaseID amount options)
  | charging_SettleUsage userID leaseID metrics options :
      charging s
        (priced_due (CalculateForLease (Credits_catalog s) userID leaseID metrics)
           (fun cost => settlement_due userID leaseID (CostBreakdown_Total cost)
              (priced_settle leaseID metrics cost options)))
        _ (SettleUsage (Some s) userID leaseID metrics options).

(** ** The parts of the methods *)

Lemma amount_checks amount a op :
  (requirePositiveAmount amount op = Ok a -> (0 < toQ amount)%Q) /\
  (requireNonNegativeAmount amount op = Ok a -> (0 <= toQ amount)%Q).
Proof.
  unfold requirePositiveAmount, requireNonNegativeAmount. split.
  - destruct (GreaterThan amount dec_zero) eqn:Hgt; [|done]. apply GreaterThan_spec in Hgt. by rewrite toQ_zero in Hgt.
  - destruct (IsNegative amount) eqn:Hn; [done|]. by apply IsNegative_false in Hn.
Qed.

Lemma lift_quiet {A} (r : result A) : calls_only quiet (lift r : prog A).
Proof. done. Qed.

Lemma lift_runs {A} (r : result A) (t : list event) a : runs (lift r : prog A) t (Ok a) -> t = [] /\ r = Ok a.
Proof. intros [-> ->]. done. Qed.

Lemma deducted_quiet s userID amount options result : calls_only quiet (deducted s userID amount options result).
Proof. unfold deducted, failing, succeeding. only_walk; eauto with effects. Qed.

Lemma reserved_quiet s userID amount operationType result :
  calls_only quiet (reserved s userID amount operationType result).
Proof. unfold reserved, failing, succeeding. only_walk; eauto with effects. Qed.

Lemma settled_quiet s userID leaseID amount options result :
  calls_only quiet (settled s userID leaseID amount options result).
Proof. unfold settled, failing, succeeding. only_walk; eauto with effects. Qed.

Lemma report_quotas_quiet s userID key outcome : calls_only quiet (report_quotas s userID key outcome).
Proof. unfold report_quotas. only_walk; eauto with effects. Qed.

Lemma requested_mode_Ok s mode m :
  requested_mode s mode = Ok m -> m = BillingModeStrict \/ m = BillingModeOverdraft.
Proof.
  unfold requested_mode, requireBillingMode. set (q := if mode =? "" then _ else mode).
  destruct (q =? "") eqn:Hq; [intros [= <-]; by left|].
  destruct (String.eqb_spec q BillingModeStrict); [intros [= <-]; by left|].
  destruct (String.eqb_spec q BillingModeOverdraft); [intros [= <-]; by right|done].
Qed.

Lemma resolvedLeaseOptions_ok s options lease operationType :
  service_ok s -> resolvedLeaseOptions s options = Ok (lease, operationType) ->
  operationType <> "" /\ CreateLeaseOptions_Usage lease = ReserveOptions_Usage options /\
  lease_options_ok (ReserveOptions_IdempotencyKey options) lease.
Proof.
  intros [_ _ [_ Hfloor] Hmax _ _ _ _] Hr. unfold resolvedLeaseOptions in Hr.
  apply bind_Ok in Hr as (key & (-> & Hne & Hlen)%requireStableKey_Ok & Hr).
  apply bind_Ok in Hr as (mode & Hmode%requested_mode_Ok & Hr).
  apply bind_Ok in Hr as (ttl & (_ & Hpos & Hsec)%requirePositiveDuration_Ok & Hr).
  injection Hr as <- <-. split_and!; [|done|].
  - by destruct (String.eqb_spec (TrimSpace (ReserveOptions_OperationType options)) "").
  - unfold lease_options_ok. cbn. split_and!; try done.
    destruct Hmode as [-> | ->]; [left|right]; by split_and!.
Qed.

#[local] Hint Resolve lift_quiet deducted_quiet reserved_quiet settled_quiet report_quotas_quiet : effects.

Section due_calls.
Context (bill : list event -> credit_call D -> Prop).

(** A check that has passed leaves the history as it is. *)
Lemma after_check {A B} h (r : result A) (f : A -> prog B) :
  (forall a, r = Ok a -> charges_once bill h (f a)) -> charges_once bill h (pbind (lift r) f).
Proof.
  intros Hf. apply before_charge; [done|]. intros t a _ [-> Hr]%lift_runs. rewrite app_nil_r. by apply Hf.
Qed.

Lemma charges_nil_app (h t : list event) : charges h = [] -> charges t = [] -> charges (h ++ t) = [].
Proof. intros Hh Ht. by rewrite charge_events_app, Hh, Ht. Qed.

Lemma Deduct_charges h s userID amount options :
  Credits_HasStore s = true -> charges h = [] ->
  (forall h' c, h `prefix_of` h' -> debit_due userID amount options h' c -> bill h' c) ->
  charges_once bill h (Deduct (Some s) userID amount options).
Proof.
  intros Hstore Hh Hbill. unfold Deduct, with_credits. rewrite Hstore. apply after_check. intros a Hamount.
  apply before_charge; [eauto with effects|]. intros t [] Ht _.
  apply charge_then; eauto using charges_nil_app with effects.
  apply Hbill; [by eexists|]. split; [done|]. by eapply amount_checks.
Qed.

Lemma Reserve_charges h s userID amount options :
  service_ok s -> charges h = [] ->
  (forall h' c, h `prefix_of` h' -> hold_due userID amount options h' c -> bill h' c) ->
  charges_once bill h (Reserve (Some s) userID amount options).
Proof.
  intros Hok Hh Hbill. unfold Reserve, with_credits. rewrite (ok_store _ Hok). apply after_check. intros a Hamount.
  apply after_check. intros [lease operationType] Hresolved.
  apply charge_then; eauto with effects.
  apply Hbill; [done|]. exists operationType, lease. split; [done|]. split; [by eapply amount_checks|].
  by apply (resolvedLeaseOptions_ok s).
Qed.

Lemma Settle_charges h s userID leaseID amount options :
  Credits_HasStore s = true -> charges h = [] ->
  (forall h' c, h `prefix_of` h' -> settlement_due userID leaseID amount options h' c -> bill h' c) ->
  charges_once bill h (Settle (Some s) userID leaseID amount options).
Proof.
  intros Hstore Hh Hbill. unfold Settle, with_credits. rewrite Hstore. apply after_check. intros a Hamount.
  cbn zeta. apply after_check. intros key (-> & Hne & _)%requireStableKey_Ok.
  apply charge_then; eauto with effects.
  apply Hbill; [done|]. split; [done|]. split; [by eapply amount_checks|done].
Qed.

(** After a price has been answered. *)
Lemma after_price {B} h price (due : CostBreakdown D -> list event -> credit_call D -> Prop)
    (f : CostBreakdown D -> prog B) :
  h = [] -> calls_only silent price ->
  (forall h' c, priced_due price due h' c -> bill h' c) ->
  (forall h' cost, charges h' = [] ->
     (forall h'' c, h' `prefix_of` h'' -> due cost h'' c -> bill h'' c) -> charges_once bill h' (f cost)) ->
  charges_once bill h (pbind price f).
Proof.
  intros -> Hprice Hbill Hf. apply before_charge; [by apply silent_quiet|].
  intros t cost Ht Hr. apply Hf; [done|]. intros h'' c Hprefix Hdue. apply Hbill. by exists t, cost.
Qed.
End due_calls.

Lemma assign_cycle_plan_quiet s userID planKey replay :
  calls_only quiet (assign_cycle_plan (Some s) userID planKey replay).
Proof.
  unfold assign_cycle_plan, getUserPlan, SetUserPlan, with_credits. only_walk; try done; eauto with effects.
Qed.

Lemma cycle_charges s userID amount options :
  Credits_HasStore s = true ->
  charges_once (fun _ c => exists granted, c = StoreAddCredits userID (QuantizeMoney amount) granted /\
      (0 < toQ amount)%Q /\ AddCreditsOptions_IdempotencyKey granted = GrantOptions_IdempotencyKey options) []
    (GrantSubscriptionCycle (Some s) userID amount options).
Proof.
  intros Hstore. unfold GrantSubscriptionCycle, with_credits. rewrite Hstore. apply after_check. intros a Ha.
  destruct (is_some _ && _); [done|]. destruct (_ <? 0); [done|].
  apply before_charge; [unfold cycle_expiry, now; by only_walk|]. intros t expiresAt Ht _.
  apply charge_then; [done| |done|done|].
  - eexists. split; [done|]. split; [by eapply amount_checks|done].
  - intros result. apply calls_only_bind; [apply assign_cycle_plan_quiet|]. intros []. only_walk; eauto with effects.
Qed.

Lemma charging_charges s bill A (p : prog A) : service_ok s -> charging s bill A p -> charges_once bill [] p.
Proof.
  intros Hok Hp. pose proof (ok_store _ Hok) as Hstore. pose proof (ok_catalog _ Hok) as Hcatalog.
  destruct Hp; unfold AddCredits, DeductCredits, DeductUsage, ReserveUsage, SettleUsage,
    with_credits, with_catalog; rewrite ?Hstore, ?Hcatalog.
  - apply after_check. intros a Ha. apply charge_then; [done| |done|done|].
    + split; [done|]. by eapply amount_checks.
    + intros result. only_walk; eauto with effects.
  - apply after_check. intros a Ha. apply charge_then; [done| |done|done|].
    + split; [done|]. by eapply amount_checks.
    + intros result. only_walk; eauto with effects.
  - by apply cycle_charges.
  - by apply Deduct_charges.
  - apply after_check. intros key (-> & Hne & _)%requireStableKey_Ok.
    eapply after_price; eauto with effects. intros h' cost Hh Hdue. apply charges_once_bind; eauto with effects.
    by apply Deduct_charges.
  - by apply Reserve_charges.
  - eapply after_price; eauto with effects. intros h' cost Hh Hdue. apply charges_once_bind; [by apply Reserve_charges|].
    intros outcome. only_walk; eauto with effects.
  - by apply Settle_charges.
  - eapply after_price; eauto with effects. intros h' cost Hh Hdue. cbn zeta.
    apply charges_once_bind; eauto with effects. by apply Settle_charges.
Qed.

(** C20: a charging method charges once, what it was asked.  Of a service that
    was constructed, and whatever the store, the catalog, the sink and the
    hooks answer, a run of AddCredits, DeductCredits, GrantSubscriptionCycle,
    Deduct, DeductUsage, Reserve, ReserveUsage, Settle or SettleUsage either
    fails before any charging call of the store, or makes exactly one, the one
    that is due: on the account asked for, for the amount asked for rounded to
    six places and checked beforehand, the metered ones for the cost the catalog
    had just answered, a lease with a trimmed key, a floor that goes with its
    mode, a positive whole number of seconds and a positive limit, a settlement
    under a key that is not blank.  Whatever is returned as a result has been
    charged. *)
Theorem charging_method_charges_once options s registry bill A (p : prog A) t r :
  NewCreditsService true options = Ok (s, registry) -> charging s bill A p -> runs p t r ->
  billed_once bill t r.
Proof.
  intros Hnew%NewCreditsService_ok Hp Hr. eapply charges_once_runs; [|exact Hr]. by eapply charging_charges.
Qed.
End charging.

(** ** Sample: a debit of 2.5 that leaves 90 *)

Definition sample_debit_options : DeductWithAllowanceOptions Ref.dec :=
  {| DeductOptions_Usage := no_usage "chat"; DeductOptions_IdempotencyKey := "key_1";
     DeductOptions_Operation := "chat"; DeductOptions_Metadata := None |}.

Definition sample_debit : Effects.prog (@credit_answer Ref.dec) (DeductionResult Ref.dec * option error) :=
  Deduct (Some sample_credits) "user_1" (lit "2.5000004") sample_debit_options.

Definition sample_debit_run := run (sample_store done_work) (new_tracker, O) sample_debit.

Lemma charging_method_charges_once_witness :
  exists t1 x t2, sample_debit_run.1.1 =
      t1 ++ existT (StoreDeductWithAllowance "user_1" (QuantizeMoney (lit "2.5000004")) sample_debit_options) x :: t2 /\
    charges t1 = [] /\ charges t2 = [].
Proof.
  destruct (charging_method_charges_once sample_options sample_credits sample_registry _ _ sample_debit
    sample_debit_run.1.1 sample_debit_run.1.2 sample_credits_made (charging_Deduct _ _ _ _) (run_runs _ _ _))
    as [[Hno _]|(t1 & c & x & t2 & Ht & _ & [-> _] & H1 & H2)].
  - exfalso. assert (charges sample_debit_run.1.1 <> []) as Hyes by (vm_compute; discriminate). exact (Hyes Hno).
  - exists t1, x, t2. exact (conj Ht (conj H1 H2)).
Defined.

(** ** What the model found *)

(** A grant that lasts 106752 days has already expired. *)
Example long_cycle_expires_at_once : cycle_ttl 106752 < 0.
Proof. vm_compute. reflexivity. Qed.
