(* ===== verification/CreditEventsFacts.v ===== *)
(** * Credit events tell what happened

    [justified]: what must have been answered before an event of each type may
    be emitted for an account.  Every method of the service, whatever its
    callees answer, emits only justified events and runs hooks only for
    deductions that were committed. *)

From S2P Require Export CreditChargesFacts.
Local Open Scope Z_scope.
Local Open Scope go_scope.

Section truthful.
Context {D : Type} `{DecimalLaws D} `{RangeOrder} `{TimeZones} `{Regexps} `{Schema D}.
Implicit Types (s : CreditsService D) (userID leaseID : string) (amount : D).

Notation prog := (prog (@credit_answer D)).
Notation event := (event (@credit_answer D)).

(** ** What an event or a hook stands on *)

Definition answered (h : list event) (c : credit_call D) (x : credit_answer c) : Prop := existT c x ∈ h.

(** A deduction the store has committed, just now rather than in a replay. *)
Inductive committed (h : list event) userID : DeductionResult D -> Prop :=
  | committed_usage amount options result :
      answered h (StoreDeductWithAllowance userID amount options) (Ok result) ->
      DeductionResult_ErrorCode result = "" -> DeductionResult_Idempotent result = false ->
      committed h userID result
  | committed_lease leaseID amount options result :
      answered h (StoreSettleLease userID leaseID amount options) (Ok result) ->
      DeductionResult_ErrorCode result = "" -> DeductionResult_Idempotent result = false ->
      committed h userID result
  | committed_raw amount options result :
      answered h (StoreAddCredits userID (dec_neg (QuantizeMoney amount)) options) (Ok result) ->
      AddCreditsResult_Idempotent result = false -> committed h userID (raw_deduction userID amount result).

Inductive justified (h : list event) userID : string -> Prop :=
  | just_added amount options result :
      answered h (StoreAddCredits userID (QuantizeMoney amount) options) (Ok result) -> (0 < toQ amount)%Q ->
      justified h userID CreditEventType.Added
  | just_deducted_raw amount options result :
      answered h (StoreAddCredits userID (dec_neg (QuantizeMoney amount)) options) (Ok result) -> (0 < toQ amount)%Q ->
      justified h userID CreditEventType.Deducted
  | just_deducted_usage amount options result balance :
      answered h (StoreDeductWithAllowance userID amount options) (Ok result) ->
      DeductionResult_ErrorCode result = "" -> DeductionResult_BalanceAfter result = Some balance ->
      justified h userID CreditEventType.Deducted
  | just_deducted_lease leaseID amount options result balance :
      answered h (StoreSettleLease userID leaseID amount options) (Ok result) ->
      DeductionResult_ErrorCode result = "" -> DeductionResult_BalanceAfter result = Some balance ->
      justified h userID CreditEventType.Deducted
  | just_deducted_team teamID amount options result balance :
      answered h (StoreDeductTeam teamID userID amount options) (Ok result) ->
      TeamDeductionResult_ErrorCode result = "" -> TeamDeductionResult_TeamBalanceAfter result = Some balance ->
      justified h userID CreditEventType.Deducted
  | just_failed_usage amount options result :
      answered h (StoreDeductWithAllowance userID amount options) (Ok result) ->
      DeductionResult_ErrorCode result <> "" -> justified h userID CreditEventType.DeductFailed
  | just_failed_lease leaseID amount options result :
      answered h (StoreSettleLease userID leaseID amount options) (Ok result) ->
      DeductionResult_ErrorCode result <> "" -> justified h userID CreditEventType.DeductFailed
  | just_failed_reserve amount operationType options result :
      answered h (StoreCreateLease userID amount operationType options) (Ok result) ->
      LeaseResult_ErrorCode result <> "" -> justified h userID CreditEventType.DeductFailed
  | just_failed_team teamID amount options result :
      answered h (StoreDeductTeam teamID userID amount options) (Ok result) ->
      TeamDeductionResult_ErrorCode result <> "" -> justified h userID CreditEventType.DeductFailed
  | just_reserved amount operationType options result :
      answered h (StoreCreateLease userID amount operationType options) (Ok result) ->
      LeaseResult_ErrorCode result = "" -> LeaseResult_LeaseID result <> "" ->
      justified h userID CreditEventType.Reserved
  | just_released leaseID result :
      answered h (StoreReleaseLease userID leaseID) (Ok result) -> ReleaseResult_Released result = true ->
      justified h userID CreditEventType.ReservationReleased
  | just_expired_settle leaseID amount options result :
      answered h (StoreSettleLease userID leaseID amount options) (Ok result) ->
      isLeaseExpiredCode (DeductionResult_ErrorCode result) = true -> justified h userID CreditEventType.LeaseExpired
  | just_expired_renew leaseID ttl result :
      answered h (StoreRenewLease userID leaseID ttl) (Ok result) ->
      isLeaseExpiredCode (LeaseResult_ErrorCode result) = true -> justified h userID CreditEventType.LeaseExpired
  | just_overdraft result balance :
      committed h userID result -> DeductionResult_BalanceAfter result = Some balance -> (toQ balance < 0)%Q ->
      justified h userID CreditEventType.Overdraft
  | just_low_threshold result balance threshold :
      committed h userID result -> DeductionResult_BalanceAfter result = Some balance ->
      answered h (LowBalance (Charged userID balance)) (Some threshold) ->
      justified h userID CreditEventType.LowBalance
  | just_low_zero result balance :
      committed h userID result -> DeductionResult_BalanceAfter result = Some balance -> (toQ balance <= 0)%Q ->
      (0 < toQ (dec_add balance (DeductionResult_Amount result)))%Q -> justified h userID CreditEventType.LowBalance
  | just_cycle amount options result :
      answered h (StoreAddCredits userID (QuantizeMoney amount) options) (Ok result) -> (0 < toQ amount)%Q ->
      justified h userID CreditEventType.CycleRenewed
  | just_plan planKey assigned result :
      answered h (StoreSetUserPlan userID planKey assigned) (Ok result) -> justified h userID CreditEventType.PlanChanged
  | just_refunded entryID refunded reason data key result balance :
      answered h (StoreRefundCredits entryID refunded reason data key) (Ok result) -> RefundResult_UserID result = userID ->
      RefundResult_ErrorCode result = "" -> RefundResult_NewBalance result = Some balance ->
      justified h userID CreditEventType.Refunded
  | just_refund_failed entryID refunded reason data key result :
      answered h (StoreRefundCredits entryID refunded reason data key) (Ok result) -> RefundResult_UserID result = userID ->
      RefundResult_ErrorCode result <> "" -> justified h userID CreditEventType.RefundFailed
  | just_expired swept limit result :
      answered h (StoreSweepExpiredCredits false swept limit) (Ok result) -> 0 < SweepResult_ExpiredCount result ->
      userID = firstNonEmpty [swept; "system"] -> justified h userID CreditEventType.Expired
  | just_revoked entryType result :
      answered h (StoreRevokeCreditsByEntryType userID entryType) (Ok result) ->
      justified h userID CreditEventType.Revoked
  | just_blocked options events quota :
      answered h (StoreListQuotaEvents userID options) (Ok events) -> quota ∈ events ->
      QuotaEvent_EventType quota = "blocked" -> justified h userID CreditEventType.QuotaBlocked
  | just_threshold options events quota :
      answered h (StoreListQuotaEvents userID options) (Ok events) -> quota ∈ events ->
      QuotaEvent_EventType quota = "threshold" -> justified h userID CreditEventType.QuotaThreshold.

(** What may be told after a history. *)
Definition tellable (h : list event) (c : credit_call D) : Prop :=
  match c with
  | Emit e => justified h (CreditEvent_UserID e) (CreditEvent_Type e)
  | OnTrigger e =>
      CreditEvent_Type e = CreditEventType.LowBalance /\ justified h (CreditEvent_UserID e) CreditEventType.LowBalance
  | RunHook _ deduction =>
      committed h (PostDeductionContext_UserID deduction) (PostDeductionContext_Deduction deduction)
  | _ => True
  end.

Lemma answered_app h t c x : answered h c x -> answered (h ++ t) c x.
Proof. intros Hx. by apply elem_of_app; left. Qed.

Lemma committed_app h t userID result : committed h userID result -> committed (h ++ t) userID result.
Proof. intros Hc. destruct Hc; [eapply committed_usage|eapply committed_lease|eapply committed_raw]; eauto using answered_app. Qed.

Lemma justified_app h t userID eventType : justified h userID eventType -> justified (h ++ t) userID eventType.
Proof.
  intros Hj. destruct Hj;
    [eapply just_added|eapply just_deducted_raw|eapply just_deducted_usage|eapply just_deducted_lease
    |eapply just_deducted_team|eapply just_failed_usage|eapply just_failed_lease|eapply just_failed_reserve
    |eapply just_failed_team|eapply just_reserved|eapply just_released|eapply just_expired_settle
    |eapply just_expired_renew|eapply just_overdraft|eapply just_low_threshold|eapply just_low_zero
    |eapply just_cycle|eapply just_plan|eapply just_refunded|eapply just_refund_failed|eapply just_expired
    |eapply just_revoked|eapply just_blocked|eapply just_threshold];
    eauto using committed_app, answered_app.
Qed.

(** ** Every part of every method tells only that *)

Notation abides := (abides (fun _ => True) tellable).

Lemma answered_last h c (x : credit_answer c) : answered (h ++ [existT c x]) c x.
Proof. apply elem_of_app. right. by apply list_elem_of_singleton. Qed.

(** Takes a method apart down to the parts that have lemmas of their own. *)
Ltac walk :=
  repeat (cbn [Protocols.obeys pbind pcatch lift ret raise];
    match goal with
    | |- Protocols.abides _ _ _ _ => unfold Protocols.abides
    | |- _ /\ _ => split
    | |- True => exact I
    | |- tellable _ _ => exact I
    | |- forall _, True -> _ => intros ? _
    | |- Protocols.obeys _ _ _ _ (match ?x with _ => _ end) => destruct x eqn:?
    | |- Protocols.obeys _ _ _ _ (pbind (match ?x with _ => _ end) _) => destruct x eqn:?
    | |- Protocols.obeys _ _ _ _ (pbind _ _) => apply abides_bind; [|intros ? ?]
    end).

(** The answer a branch was taken for is somewhere in the history. *)
Ltac recall := eauto 8 using answered_app, answered_last.

Lemma silent_abides {A} h (p : prog A) : calls_only silent p -> abides h p.
Proof.
  intros Hp. eapply abides_of, calls_only_obeys; [|exact Hp]. intros t c [_ Hc]. by destruct c.
Qed.

Lemma emit_abides h s eventType userID data : justified h userID eventType -> abides h (emit s eventType userID data).
Proof. intros Hj. unfold emit, now. walk. by apply justified_app. Qed.

Lemma for_all_abides {A} h (f : A -> prog unit) l :
  (forall t x, x ∈ l -> abides (h ++ t) (f x)) -> abides h (for_all f l).
Proof.
  revert h. induction l as [|x l IH]; intros h Hf; cbn [for_all]; [done|]. apply abides_bind.
  - rewrite <- (app_nil_r h). apply Hf. by left.
  - intros t []. apply IH. intros t' y Hy. rewrite <- app_assoc. apply Hf. by right.
Qed.

Lemma fireLowBalance_abides h s userID balance threshold :
  justified h userID CreditEventType.LowBalance -> abides h (fireLowBalance s userID balance threshold).
Proof.
  intros Hj. unfold fireLowBalance, now. apply abides_bind; [by apply emit_abides|]. intros t []. walk.
  split; [done|]. by do 2 apply justified_app.
Qed.

Lemma emitPostDeduction_abides h s userID source result :
  committed h userID result -> abides h (emitPostDeduction s userID source result).
Proof.
  intros Hc. unfold emitPostDeduction. destruct (DeductionResult_BalanceAfter result) as [balance|] eqn:Hb; [|done].
  apply abides_bind; [|intros t1 []; apply abides_bind; [|intros t2 []]].
  - destruct (IsNegative balance) eqn:Hn; [|done]. apply IsNegative_spec in Hn.
    apply emit_abides. by eapply just_overdraft.
  - apply (committed_app _ t1) in Hc. unfold emitLowBalance. case_bool_decide.
    + destruct (GreaterThan _ dec_zero && _) eqn:Hcross; [|done]. apply andb_true_iff in Hcross as [Hbefore Hafter].
      apply GreaterThan_spec in Hbefore. apply LessThanOrEqual_spec in Hafter. rewrite toQ_zero in Hbefore, Hafter.
      apply fireLowBalance_abides. by eapply just_low_zero.
    + walk. apply fireLowBalance_abides. eapply just_low_threshold; [by apply committed_app|done|apply answered_last].
  - apply (committed_app _ t1), (committed_app _ t2) in Hc. unfold runPostDeductionHooks. walk.
    apply for_all_abides. intros t id _. walk. cbn. by do 2 apply committed_app.
Qed.

Lemma emitQuotaEvents_abides h s userID key : abides h (emitQuotaEvents s userID key).
Proof.
  unfold emitQuotaEvents. destruct (_ || _); [done|]. walk. apply for_all_abides. intros t quota Hin.
  unfold emit_quota_event. cbn zeta.
  destruct (String.eqb_spec (QuotaEvent_EventType quota) "blocked") as [Hb|_].
  { apply emit_abides. eapply just_blocked; recall. }
  destruct (String.eqb_spec (QuotaEvent_EventType quota) "threshold") as [Ht|_]; [|done].
  apply emit_abides. eapply just_threshold; recall.
Qed.

Lemma report_quotas_abides h s userID key outcome : abides h (report_quotas s userID key outcome).
Proof.
  unfold report_quotas. destruct outcome as [result err]. apply abides_bind; [|done].
  destruct (match err with Some _ => _ | None => _ end); [apply emitQuotaEvents_abides|done].
Qed.

Lemma SweepExpiredCredits_abides h service dryRun userID limit :
  abides h (SweepExpiredCredits service dryRun userID limit).
Proof.
  unfold SweepExpiredCredits, with_credits. walk. apply andb_true_iff in Heqb0 as [Hdry Hcount].
  destruct dryRun; [done|]. apply Z.ltb_lt in Hcount. apply emit_abides. eapply just_expired; recall.
Qed.

Lemma maybeLazyExpire_abides h s userID : abides h (maybeLazyExpire s userID).
Proof. unfold maybeLazyExpire. walk. apply SweepExpiredCredits_abides. Qed.

Lemma AddCredits_abides h service userID amount options : abides h (AddCredits service userID amount options).
Proof.
  unfold AddCredits, rearmLowBalance, with_credits. destruct service as [s|]; [|done].
  destruct (Credits_HasStore s); [|done]. destruct (requirePositiveAmount amount _) eqn:Ha; [|done].
  apply amount_checks in Ha. walk. apply emit_abides. eapply just_added; recall.
Qed.

Lemma DeductCredits_abides h service userID amount options : abides h (DeductCredits service userID amount options).
Proof.
  unfold DeductCredits, with_credits. destruct service as [s|]; [|done]. destruct (Credits_HasStore s); [|done].
  destruct (requirePositiveAmount amount _) eqn:Ha; [|done]. apply amount_checks in Ha. walk.
  - apply emit_abides. eapply just_deducted_raw; recall.
  - apply emitPostDeduction_abides. eapply committed_raw; recall.
Qed.

Lemma deducted_abides h s userID amount store_amount options result :
  answered h (StoreDeductWithAllowance userID store_amount options) (Ok result) ->
  abides h (deducted s userID amount options result).
Proof.
  intros Hans. unfold deducted, failing, succeeding.
  destruct (String.eqb_spec (DeductionResult_ErrorCode result) "") as [He|He]; cbn [negb]; walk.
  - apply emit_abides. by eapply just_deducted_usage.
  - apply emitPostDeduction_abides. eapply committed_usage; recall.
  - apply emit_abides. by eapply just_failed_usage.
Qed.

Lemma Deduct_abides h service userID amount options : abides h (Deduct service userID amount options).
Proof.
  unfold Deduct, with_credits. walk; [apply maybeLazyExpire_abides|]. eapply deducted_abides, answered_last.
Qed.

Lemma DeductUsage_abides h service userID metrics options : abides h (DeductUsage service userID metrics options).
Proof.
  unfold DeductUsage, with_catalog. walk;
    first [apply silent_abides, CalculateForUser_silent | apply Deduct_abides | apply report_quotas_abides].
Qed.

Lemma reserved_abides h s userID amount store_amount operationType options result :
  answered h (StoreCreateLease userID store_amount operationType options) (Ok result) ->
  abides h (reserved s userID amount operationType result).
Proof.
  intros Hans. unfold reserved, failing, succeeding.
  destruct (String.eqb_spec (LeaseResult_ErrorCode result) "") as [He|He]; cbn [negb]; walk.
  - apply emit_abides. eapply just_reserved; [done..|]. by apply String.eqb_neq.
  - apply emit_abides. by eapply just_failed_reserve.
Qed.

Lemma Reserve_abides h service userID amount options : abides h (Reserve service userID amount options).
Proof. unfold Reserve, with_credits. walk. eapply reserved_abides, answered_last. Qed.

Lemma ReserveUsage_abides h service userID metrics options : abides h (ReserveUsage service userID metrics options).
Proof.
  unfold ReserveUsage, with_catalog. walk;
    first [apply silent_abides, CalculateForUser_silent | apply Reserve_abides | apply emitQuotaEvents_abides].
Qed.

Lemma settled_abides h s userID leaseID amount store_amount store_options options result :
  answered h (StoreSettleLease userID leaseID store_amount store_options) (Ok result) ->
  abides h (settled s userID leaseID amount options result).
Proof.
  intros Hans. unfold settled, failing, succeeding.
  destruct (String.eqb_spec (DeductionResult_ErrorCode result) "") as [He|He]; cbn [negb]; walk.
  - apply emit_abides. by eapply just_deducted_lease.
  - apply emitPostDeduction_abides. eapply committed_lease; recall.
  - apply emit_abides. by eapply just_failed_lease.
  - apply emit_abides. eapply just_expired_settle; recall.
Qed.

Lemma Settle_abides h service userID leaseID amount options : abides h (Settle service userID leaseID amount options).
Proof. unfold Settle, with_credits. walk. eapply settled_abides, answered_last. Qed.

Lemma SettleUsage_abides h service userID leaseID metrics options :
  abides h (SettleUsage service userID leaseID metrics options).
Proof.
  unfold SettleUsage, with_catalog. walk;
    first [apply silent_abides, CalculateForLease_silent | apply Settle_abides | apply report_quotas_abides].
Qed.

Lemma Release_abides h service userID leaseID : abides h (Release service userID leaseID).
Proof. unfold Release, with_credits. walk. apply emit_abides. eapply just_released; recall. Qed.

Lemma Renew_abides h service userID leaseID ttl : abides h (Renew service userID leaseID ttl).
Proof. unfold Renew, failing, succeeding, with_credits. walk. all: apply emit_abides; eapply just_expired_renew; recall. Qed.

Lemma CanAfford_abides h service userID worstCase options : abides h (CanAfford service userID worstCase options).
Proof. unfold CanAfford, with_credits. walk. Qed.

Lemma CanAffordUsage_abides h service userID metrics options : abides h (CanAffordUsage service userID metrics options).
Proof.
  unfold CanAffordUsage, with_catalog. walk;
    first [apply silent_abides, CalculateForUser_silent | apply CanAfford_abides].
Qed.

Lemma SetUserPlan_abides h service userID planKey assigned : abides h (SetUserPlan service userID planKey assigned).
Proof. unfold SetUserPlan, with_credits. walk. apply emit_abides. eapply just_plan, answered_last. Qed.

Lemma GrantSubscriptionCycle_abides h service userID amount options :
  abides h (GrantSubscriptionCycle service userID amount options).
Proof.
  unfold GrantSubscriptionCycle, with_credits. destruct service as [s|]; [|done].
  destruct (Credits_HasStore s); [|done]. destruct (requirePositiveAmount amount _) eqn:Ha; [|done].
  apply amount_checks in Ha. walk.
  - unfold cycle_expiry, now. walk.
  - unfold assign_cycle_plan, getUserPlan. walk; apply SetUserPlan_abides.
  - apply emit_abides. eapply just_cycle; recall.
Qed.

Lemma RefundCredits_abides h service entryID refunded reason data key :
  abides h (RefundCredits service entryID refunded reason data key).
Proof.
  unfold RefundCredits, failing, succeeding, with_credits. walk.
  - apply emit_abides. eapply just_refund_failed; recall. intros He. rewrite He in *. done.
  - apply emit_abides. eapply just_refunded; recall. destruct (String.eqb_spec (RefundResult_ErrorCode a) ""); done.
Qed.

Lemma RevokeCreditsByEntryType_abides h service userID entryType :
  abides h (RevokeCreditsByEntryType service userID entryType).
Proof. unfold RevokeCreditsByEntryType, with_credits. walk. apply emit_abides. eapply just_revoked, answered_last. Qed.

Lemma RecordUsage_abides h service userID operation requested options :
  abides h (RecordUsage service userID operation requested options).
Proof. unfold RecordUsage, failing, succeeding, with_credits. walk. Qed.

Lemma RecordUsageMetrics_abides h service userID metrics options :
  abides h (RecordUsageMetrics service userID metrics options).
Proof.
  unfold RecordUsageMetrics, with_catalog. walk;
    first [apply silent_abides, CalculateForUser_silent | apply RecordUsage_abides].
Qed.

Lemma DeductTeam_abides h service teamID userID amount options :
  abides h (DeductTeam service teamID userID amount options).
Proof.
  unfold DeductTeam, failing, succeeding, with_credits. walk; [apply maybeLazyExpire_abides| |].
  - apply emit_abides. eapply just_failed_team; recall. intros He. rewrite He in *. done.
  - apply emit_abides. eapply just_deducted_team; recall.
    destruct (String.eqb_spec (TeamDeductionResult_ErrorCode a0) ""); done.
Qed.

Lemma DeductTeamUsage_abides h service teamID userID metrics options :
  abides h (DeductTeamUsage service teamID userID metrics options).
Proof.
  unfold DeductTeamUsage, free_team_usage, succeeding, with_catalog. walk;
    first [apply silent_abides, CalculateForUser_silent | apply maybeLazyExpire_abides | apply DeductTeam_abides].
Qed.

Lemma begin_operation_abides {E} h reserve service userID (options : BeginBilledOperationOptions D E) :
  (forall h service userID estimate options, abides h (reserve service userID estimate options)) ->
  abides h (begin_operation reserve service userID options).
Proof. intros Hreserve. unfold begin_operation, with_credits. walk. apply Hreserve. Qed.

Lemma Operation_Release_abides h operation : abides h (Operation_Release operation).
Proof. unfold Operation_Release, with_operation. walk. apply Release_abides. Qed.

Lemma Operation_Settle_abides h operation actual : abides h (Operation_Settle operation actual).
Proof. unfold Operation_Settle, with_operation. walk. apply Settle_abides. Qed.

Lemma Operation_SettleUsage_abides h operation actual : abides h (Operation_SettleUsage operation actual).
Proof. unfold Operation_SettleUsage, with_operation. walk. apply SettleUsage_abides. Qed.

Lemma settle_attempts_abides h settle value n last :
  (forall h, abides h settle) -> abides h (settle_attempts settle value n last).
Proof.
  intros Hsettle. revert h last. induction n as [|n IH]; intros h last; cbn [settle_attempts]; [done|].
  apply abides_catch; [apply Hsettle|]. intros t [[deduction [err|]]|err]; walk; apply IH.
Qed.

Lemma after_work_abides {A} h operation (settle : option (BilledOperation D) -> A -> _) attempts work :
  (forall h operation actual, abides h (settle operation actual)) ->
  abides h (after_work operation settle attempts work).
Proof.
  intros Hsettle. unfold after_work. destruct work; [by apply settle_attempts_abides| |done].
  apply abides_catch; [apply Operation_Release_abides|done].
Qed.

Lemma RunBilled_abides h service userID options : abides h (RunBilled service userID options).
Proof.
  unfold RunBilled, BeginBilledOperation. walk.
  - apply begin_operation_abides, Reserve_abides.
  - apply after_work_abides, Operation_Settle_abides.
Qed.

Lemma RunBilledUsage_abides h service userID options : abides h (RunBilledUsage service userID options).
Proof.
  unfold RunBilledUsage, BeginBilledUsageOperation. walk.
  - apply begin_operation_abides, ReserveUsage_abides.
  - apply after_work_abides, Operation_SettleUsage_abides.
Qed.

(** ** All the methods *)

Inductive credit_method (service : option (CreditsService D)) : forall A, prog A -> Prop :=
  | m_GetBalance userID : credit_method service _ (GetBalance service userID)
  | m_AddCredits userID amount options : credit_method service _ (AddCredits service userID amount options)
  | m_DeductCredits userID amount options : credit_method service _ (DeductCredits service userID amount options)
  | m_Deduct userID amount options : credit_method service _ (Deduct service userID amount options)
  | m_DeductUsage userID metrics options : credit_method service _ (DeductUsage service userID metrics options)
  | m_DeductFlatJob userID job options : credit_method service _ (DeductFlatJob service userID job options)
  | m_Reserve userID amount options : credit_method service _ (Reserve service userID amount options)
  | m_ReserveUsage userID metrics options : credit_method service _ (ReserveUsage service userID metrics options)
  | m_Settle userID leaseID amount options : credit_method service _ (Settle service userID leaseID amount options)
  | m_SettleUsage userID leaseID metrics options :
      credit_method service _ (SettleUsage service userID leaseID metrics options)
  | m_Release userID leaseID : credit_method service _ (Release service userID leaseID)
  | m_Renew userID leaseID ttl : credit_method service _ (Renew service userID leaseID ttl)
  | m_CanAfford userID worstCase options : credit_method service _ (CanAfford service userID worstCase options)
  | m_CanAffordUsage userID metrics options : credit_method service _ (CanAffordUsage service userID metrics options)
  | m_GrantSubscriptionCycle userID amount options :
      credit_method service _ (GrantSubscriptionCycle service userID amount options)
  | m_SetUserPlan userID planKey assigned : credit_method service _ (SetUserPlan service userID planKey assigned)
  | m_UnsetUserPlan userID : credit_method service _ (UnsetUserPlan service userID)
  | m_RefundCredits entryID refunded reason data key :
      credit_method service _ (RefundCredits service entryID refunded reason data key)
  | m_RevokeCreditsByEntryType userID entryType :
      credit_method service _ (RevokeCreditsByEntryType service userID entryType)
  | m_SweepExpiredCredits dryRun userID limit :
      credit_method service _ (SweepExpiredCredits service dryRun userID limit)
  | m_RecordUsage userID operation requested options :
      credit_method service _ (RecordUsage service userID operation requested options)
  | m_RecordUsageMetrics userID metrics options :
      credit_method service _ (RecordUsageMetrics service userID metrics options)
  | m_DeductTeam teamID userID amount options : credit_method service _ (DeductTeam service teamID userID amount options)
  | m_DeductTeamUsage teamID userID metrics options :
      credit_method service _ (DeductTeamUsage service teamID userID metrics options)
  | m_BeginBilledOperation userID options : credit_method service _ (BeginBilledOperation service userID options)
  | m_BeginBilledUsageOperation userID options :
      credit_method service _ (BeginBilledUsageOperation service userID options)
  | m_RunBilled userID options : credit_method service _ (RunBilled service userID options)
  | m_RunBilledUsage userID options : credit_method service _ (RunBilledUsage service userID options).

Lemma GetBalance_abides h service userID : abides h (GetBalance service userID).
Proof. unfold GetBalance, with_credits. walk. apply maybeLazyExpire_abides. Qed.

Lemma DeductFlatJob_abides h service userID job options : abides h (DeductFlatJob service userID job options).
Proof. unfold DeductFlatJob. walk. apply DeductUsage_abides. Qed.

Lemma UnsetUserPlan_abides h service userID : abides h (UnsetUserPlan service userID).
Proof. unfold UnsetUserPlan, with_credits. walk. Qed.

#[local] Hint Resolve GetBalance_abides DeductFlatJob_abides UnsetUserPlan_abides AddCredits_abides DeductCredits_abides Deduct_abides DeductUsage_abides Reserve_abides
  ReserveUsage_abides Settle_abides SettleUsage_abides Release_abides Renew_abides CanAfford_abides
  CanAffordUsage_abides GrantSubscriptionCycle_abides SetUserPlan_abides RefundCredits_abides
  RevokeCreditsByEntryType_abides SweepExpiredCredits_abides RecordUsage_abides RecordUsageMetrics_abides
  DeductTeam_abides DeductTeamUsage_abides RunBilled_abides RunBilledUsage_abides begin_operation_abides
  maybeLazyExpire_abides : effects.

Lemma credit_method_abides service A (p : prog A) : credit_method service A p -> abides [] p.
Proof.
  intros Hp. destruct Hp; eauto with effects; apply begin_operation_abides; eauto with effects.
Qed.

(** C26: credit events tell what happened.  Whatever the store, the catalog,
    the application's work and the clock answer, each event that any method of
    the service emits, and each low-balance callback it makes, is justified by an
    answer it had already received in the same call: a deduction, grant,
    reservation, release, refund, expiry, revocation or plan change for that
    account that the store had committed, a denial it had answered, a balance
    below zero or at a threshold that such a deduction left, a quota event it
    had read.  Post-deduction hooks are run only for a deduction the store had
    just committed without error and not as a replay, with that deduction. *)
Theorem credit_events_truthful service A (p : prog A) t r t1 c x t2 :
  credit_method service A p -> runs p t r -> t = t1 ++ existT c x :: t2 -> tellable t1 c.
Proof.
  intros Hp%credit_method_abides Hr Ht.
  destruct (obeys_runs _ _ _ _ _ _ _ Hp Hr (proj2 (Forall_forall _ _) (fun _ _ => I))) as [_ Ha]. by eapply Ha.
Qed.
End truthful.

Definition sample_hook : credit_call Ref.dec :=
  RunHook 1 {| PostDeductionContext_UserID := "user_1"; PostDeductionContext_Source := PostDeductionSource.Deduct;
               PostDeductionContext_Deduction := sample_deduction (QuantizeMoney (lit "2.5000004")) |}.

(** The hook of the sample debit is run with the deduction the store answered. *)
Lemma credit_events_truthful_witness : tellable (take 7 sample_debit_run.1.1) sample_hook.
Proof.
  apply (credit_events_truthful (Some sample_credits) _ sample_debit sample_debit_run.1.1 sample_debit_run.1.2
    (take 7 sample_debit_run.1.1) sample_hook tt []).
  - apply m_Deduct.
  - apply run_runs.
  - vm_compute. reflexivity.
Defined.
