(* ===== verification/BilledFacts.v ===== *)
(** * A billed operation settles or gives its lease back

    [billed]: what a run of [RunBilled] does to the lease of its operation, as
    the sequence of its lease calls and its work, and what it returns. *)

From S2P Require Export CreditsFacts.
Local Open Scope Z_scope.
Local Open Scope go_scope.

(** ** The idempotency keys of a billed operation

    An operation key that is trimmed stays so when an ASCII suffix is added;
    hence the keys an operation reserves and settles with are its own key
    and a suffix, and whoever could reserve can settle. *)


(** ** Trimming and suffixes *)

Definition ascii_byte (c : ascii) : Prop := byte_of c < 128.

Lemma wide_bytes : Forall (fun w : list Z => w <> [] /\ Forall (fun b => 128 <= b) w) wide_spaces.
Proof. unfold wide_spaces. repeat (apply Forall_cons; split; [split; [done|repeat constructor; lia]|]). constructor. Qed.

Definition wide_pattern (w : list Z) : Prop := w <> [] /\ Forall (fun b => 128 <= b) w.

Lemma leading_space_0 wide c l :
  Forall wide_pattern wide ->
  leading_space wide (c :: l) = 0%nat <->
  ascii_space c = false /\ forall w, w ∈ wide -> firstn (length w) (byte_of <$> c :: l) <> w.
Proof.
  intros Hwide. rewrite Forall_forall in Hwide. unfold leading_space. destruct (ascii_space c); [naive_solver|].
  destruct (list_find _ wide) as [[i w]|] eqn:Hf.
  - apply list_find_Some in Hf as (Hi & Hm & _). apply list_elem_of_lookup_2 in Hi. split.
    + destruct (Hwide w Hi) as [Hne _]. by destruct w.
    + intros [_ Hno]. by destruct (Hno w Hi).
  - apply list_find_None in Hf. rewrite Forall_forall in Hf. by split.
Qed.

Lemma leading_space_app wide l c m :
  Forall wide_pattern wide -> l <> [] -> ascii_byte c ->
  leading_space wide l = 0%nat -> leading_space wide (l ++ c :: m) = 0%nat.
Proof.
  intros Hwide Hl Hc. destruct l as [|c0 l]; [done|]. cbn [app]. rewrite !leading_space_0 by done.
  intros [Hs Hno]. split; [done|]. intros w Hw Hm. apply (Hno w Hw).
  change (c0 :: l ++ c :: m) with ((c0 :: l) ++ c :: m) in Hm. rewrite fmap_app, take_app in Hm.
  destruct (decide (length w <= length (c0 :: l))%nat) as [Hle|Hgt].
  - rewrite (proj2 (Nat.sub_0_le _ _)) in Hm by (by rewrite length_fmap). by rewrite take_0, app_nil_r in Hm.
  - exfalso. rewrite Forall_forall in Hwide. destruct (Hwide w Hw) as [_ Hbig]. rewrite Forall_forall in Hbig.
    unfold ascii_byte in Hc. enough (byte_of c ∈ w) as Hin by (apply Hbig in Hin; lia).
    rewrite <- Hm. apply elem_of_app. right. rewrite length_fmap.
    destruct (length w - length (c0 :: l))%nat eqn:Hn; [lia|]. cbn. by left.
Qed.

Lemma leading_space_ascii wide c l :
  Forall wide_pattern wide -> ascii_byte c -> ascii_space c = false -> leading_space wide (c :: l) = 0%nat.
Proof.
  intros Hwide Hc Hs. rewrite leading_space_0 by done. split; [done|]. intros w Hw Hm.
  rewrite Forall_forall in Hwide. destruct (Hwide w Hw) as [Hne Hbig]. destruct w as [|b w]; [done|].
  cbn in Hm. injection Hm as Hb _. apply Forall_cons in Hbig as [Hb128 _]. unfold ascii_byte in Hc. lia.
Qed.

Lemma wide_spaces_patterns : Forall wide_pattern wide_spaces.
Proof. exact wide_bytes. Qed.

Lemma rev_wide_spaces : Forall wide_pattern (@rev Z <$> wide_spaces).
Proof.
  apply Forall_fmap. eapply Forall_impl; [exact wide_bytes|]. intros w [Hne Hbig]. split; cbn.
  - intros Hr. apply Hne. rewrite <- (rev_involutive w), Hr. done.
  - rewrite Forall_forall in Hbig |- *. intros b Hb. apply Hbig. rewrite rev_alt in Hb. exact (proj1 (elem_of_reverse b w) Hb).
Qed.

Lemma list_ascii_append a b :
  list_ascii_of_string (a +:+ b) = (list_ascii_of_string a ++ list_ascii_of_string b)%list.
Proof. induction a as [|c a IH]; [done|]. exact (f_equal (cons c) IH). Qed.

(** What is trimmed starts with no space. *)
Lemma trimmed_leading s : TrimSpace s = s -> leading_space wide_spaces (list_ascii_of_string s) = 0%nat.
Proof.
  intros Hs. set (l := list_ascii_of_string s).
  assert (trim_right (trim_left wide_spaces (length l) l) = l) as Hl.
  { subst l. rewrite <- Hs at 3. rewrite TrimSpace_eq. cbn zeta. by rewrite list_ascii_of_string_of_list_ascii. }
  assert (trim_left wide_spaces (length l) l = l) as Heq.
  { destruct (trim_right_prefix (trim_left wide_spaces (length l) l)) as [k Hk]. rewrite Hk in Hl.
    destruct (trim_left_suffix wide_spaces (length l) l) as [n Hn]. rewrite Hn in *.
    assert (length (firstn k (skipn n l)) = length l) as Hlen by (by rewrite Hl).
    rewrite length_take, length_drop in Hlen. destruct n as [|n]; [done|]. destruct l; cbn in *; [done|lia]. }
  rewrite <- Heq. by apply trim_left_clean.
Qed.

(** A suffix of ASCII bytes whose last one is no space. *)
Definition clean_suffix (suffix : string) : Prop :=
  match list_ascii_of_string suffix, rev (list_ascii_of_string suffix) with
  | c :: _, e :: _ => ascii_byte c /\ ascii_byte e /\ ascii_space e = false
  | _, _ => False
  end.

Lemma TrimSpace_suffix s suffix :
  TrimSpace s = s -> s <> "" -> clean_suffix suffix -> TrimSpace (s +:+ suffix) = s +:+ suffix.
Proof.
  intros Hs Hne Hclean. pose proof (trimmed_leading s Hs) as Hlead. unfold clean_suffix in Hclean.
  rewrite TrimSpace_eq. cbn zeta. rewrite list_ascii_append.
  set (l := list_ascii_of_string s) in *. set (m := list_ascii_of_string suffix) in *.
  destruct m as [|c m'] eqn:Hm; [done|]. destruct (rev (c :: m')) as [|e m''] eqn:Hrev; [done|].
  destruct Hclean as (Hc & He & Hspace).
  rewrite (trim_left_done wide_spaces).
  2: { apply leading_space_app; [apply wide_spaces_patterns| |done|done]. subst l. by destruct s. }
  unfold trim_right. rewrite rev_app_distr, Hrev. cbn [app]. rewrite trim_left_done.
  2: { apply leading_space_ascii; [apply rev_wide_spaces|done|done]. }
  change (e :: m'' ++ rev l) with ((e :: m'') ++ rev l). rewrite <- Hrev, <- rev_app_distr, rev_involutive.
  rewrite <- Hm. subst m l. rewrite <- list_ascii_append. apply string_of_list_ascii_of_string.
Qed.

(** ** The two keys *)

Lemma clean_reserve : clean_suffix ":reserve".
Proof. vm_compute. by split_and!. Qed.

Lemma clean_settle : clean_suffix ":settle".
Proof. vm_compute. by split_and!. Qed.

Lemma scopedOperationKey_eq key suffix :
  TrimSpace key = key -> key <> "" -> string_length key <= maxIdempotencyKeyLength ->
  TrimSpace suffix = suffix -> suffix <> "" -> clean_suffix (":" +:+ suffix) ->
  scopedOperationKey key suffix =
  (if maxIdempotencyKeyLength <? string_length (key +:+ ":" +:+ suffix)
   then Err (errorf ErrorCode.Config ErrorCategory.InvalidRequest
               ("operation idempotency key must be at most " +:+ itoa maxIdempotencyKeyLength +:+ " characters"))
   else Ok (key +:+ ":" +:+ suffix)).
Proof.
  intros Hk Hne Hlen Hs Hsne Hclean. unfold scopedOperationKey.
  rewrite (proj2 (requireStableKey_Ok key _ key)) by done. cbn [bind].
  rewrite (proj2 (requireText_Ok suffix _ suffix)) by done. cbn [bind].
  unfold requireStableKey, requireText. rewrite TrimSpace_suffix by done.
  destruct (String.eqb_spec (key +:+ ":" +:+ suffix) "") as [He|_]; [by destruct key|]. done.
Qed.

(** Whoever reserves under a key can settle under it, with a key of its own. *)
Lemma operation_keys operationKey field key reserveKey :
  requireStableKey operationKey field = Ok key -> scopedOperationKey key "reserve" = Ok reserveKey ->
  reserveKey = key +:+ ":reserve" /\ scopedOperationKey key "settle" = Ok (key +:+ ":settle") /\
  requireStableKey (key +:+ ":settle") "settle idempotency key" = Ok (key +:+ ":settle") /\
  TrimSpace (key +:+ ":settle") <> "".
Proof.
  intros (-> & Hne & Hlen)%requireStableKey_Ok. set (key := TrimSpace operationKey) in *.
  assert (TrimSpace key = key) as Htrim by apply TrimSpace_idem.
  rewrite !scopedOperationKey_eq by (done || apply clean_reserve || apply clean_settle).
  destruct (Z.ltb_spec maxIdempotencyKeyLength (string_length (key +:+ ":" +:+ "reserve"))) as [|Hr]; [done|].
  intros [= <-]. assert (string_length (key +:+ ":settle") <= maxIdempotencyKeyLength) as Hsettle.
  { unfold string_length in *. rewrite length_append in Hr |- *.
    change (String.length (":" +:+ "reserve")) with 8%nat in Hr. change (String.length ":settle") with 7%nat. lia. }
  assert (TrimSpace (key +:+ ":settle") = key +:+ ":settle") as Ht by (by apply TrimSpace_suffix).
  assert (key +:+ ":settle" <> "") as Hne' by (by destruct key).
  split_and!; [done| | |by rewrite Ht].
  - by rewrite (proj2 (Z.ltb_ge _ _)).
  - by apply requireStableKey_Ok.
Qed.

Section billed.
Context {D : Type} `{DecimalLaws D} `{RangeOrder} `{TimeZones} `{Regexps} `{Schema D}.
Implicit Types (s : CreditsService D) (userID leaseID : string) (amount : D).

Notation prog := (prog (@credit_answer D)).
Notation event := (event (@credit_answer D)).
Notation obeys := (obeys (fun _ => True) (fun _ _ => True)).

(** ** The calls about a lease *)

Definition about_lease (c : credit_call D) : bool :=
  match c with
  | StoreCreateLease _ _ _ _ | StoreSettleLease _ _ _ _ | StoreReleaseLease _ _ | StoreRenewLease _ _ _ | DoWork => true
  | _ => false
  end.

Definition lease_events : list event -> list event := seen about_lease.

Lemma lease_events_last h c (x : credit_answer c) :
  lease_events (h ++ [existT c x]) = if about_lease c then lease_events h ++ [existT c x] else lease_events h.
Proof. apply seen_last. Qed.

(** [steady a p]: [p] makes no call about a lease and always returns [a]. *)
Fixpoint steady {A} (a : A) (p : prog A) : Prop :=
  match p with
  | Done r => r = Ok a
  | Do c k => about_lease c = false /\ forall x, steady a (k x)
  end.

Lemma steady_bind {A B} a b (p : prog A) (f : A -> prog B) : steady a p -> steady b (f a) -> steady b (pbind p f).
Proof.
  intros Hp Hf. induction p as [r|c k IH]; cbn in *; [by subst|].
  destruct Hp as [Hc Hk]. split; [done|]. intros x. by apply IH.
Qed.

Lemma steady_obeys {A} h (a : A) p :
  steady a p -> obeys (fun h' r => lease_events h' = lease_events h /\ r = Ok a) h p.
Proof.
  revert h. induction p as [r|c k IH]; intros h; cbn; [done|]. intros [Hc Hk]. split; [done|]. intros x _.
  eapply obeys_mono; [by apply IH|]. intros t r [Hl Hr]. split; [|done]. by rewrite Hl, lease_events_last, Hc.
Qed.

(** A steady part, and what follows it. *)
Lemma steady_then {A B} (Q : list event -> result B -> Prop) h (a : A) p f :
  steady a p -> (forall h', lease_events h' = lease_events h -> obeys Q h' (f a)) -> obeys Q h (pbind p f).
Proof.
  intros Hp Hf. eapply obeys_then; [by apply steady_obeys| |].
  - by intros t e [_ ?].
  - intros t a' [Hl [= ->]]. by apply Hf.
Qed.

Lemma emit_steady s eventType userID data : steady tt (emit s eventType userID data).
Proof. unfold emit, now. by destruct (Credits_HasEvents s). Qed.

Lemma fireLowBalance_steady s userID balance threshold : steady tt (fireLowBalance s userID balance threshold).
Proof.
  unfold fireLowBalance, now. eapply steady_bind; [apply emit_steady|]. by destruct (Credits_HasLowBalanceHandler s).
Qed.

Lemma for_all_steady {A} (f : A -> prog unit) l : (forall x, steady tt (f x)) -> steady tt (for_all f l).
Proof. intros Hf. induction l as [|x l IH]; cbn [for_all]; [done|]. by eapply steady_bind. Qed.

Lemma emitPostDeduction_steady s userID source result : steady tt (emitPostDeduction s userID source result).
Proof.
  unfold emitPostDeduction. destruct (DeductionResult_BalanceAfter result) as [balance|]; [|done].
  eapply steady_bind; [destruct (IsNegative balance); [apply emit_steady|done]|].
  eapply steady_bind; [|split; [done|]; intros ids; by apply for_all_steady].
  unfold emitLowBalance. case_bool_decide.
  - destruct (_ && _); [apply fireLowBalance_steady|done].
  - split; [done|]. intros [threshold|]; [apply fireLowBalance_steady|done].
Qed.

(** ** Settling *)

(** A settlement the store committed. *)
Definition settlement_committed (deduction : DeductionResult D) : Prop :=
  DeductionResult_ErrorCode deduction = "" /\ DeductionResult_BalanceAfter deduction <> None.

Definition settle_error userID (deduction : DeductionResult D) : option error :=
  if negb (DeductionResult_ErrorCode deduction =? "")
  then Some (creditBusinessError "settle" userID (DeductionResult_ErrorCode deduction))
  else match DeductionResult_BalanceAfter deduction with
       | None => Some (uncommitted "settle succeeded without a committed balance")
       | Some _ => None
       end.

Lemma settle_error_None userID deduction : settle_error userID deduction = None <-> settlement_committed deduction.
Proof.
  unfold settle_error, settlement_committed. destruct (String.eqb_spec (DeductionResult_ErrorCode deduction) "");
    cbn; [|naive_solver]. destruct (DeductionResult_BalanceAfter deduction); naive_solver.
Qed.

Lemma denial_final operation userID code : IsRetryableError (creditBusinessError operation userID code) = false.
Proof. unfold creditBusinessError. by destruct (denial_code (TrimSpace code)) as [[c|] category]. Qed.

(** A denial, or a settlement without a balance, is not retried. *)
Lemma settle_error_final userID deduction err : settle_error userID deduction = Some err -> IsRetryableError err = false.
Proof.
  unfold settle_error. destruct (negb _); [intros [= <-]; apply denial_final|].
  by destruct (DeductionResult_BalanceAfter deduction); intros [= <-].
Qed.

Lemma settled_steady s userID leaseID amount options deduction :
  steady (deduction, settle_error userID deduction) (settled s userID leaseID amount options deduction).
Proof.
  unfold settled, settle_error, failing, succeeding. cbn zeta.
  destruct (negb _); [|destruct (DeductionResult_BalanceAfter deduction) as [balance|]; [|done]].
  - eapply steady_bind; [apply emit_steady|]. eapply steady_bind; [|done].
    destruct (isLeaseExpiredCode _); [apply emit_steady|done].
  - eapply steady_bind; [apply emit_steady|]. eapply steady_bind; [|done].
    destruct (DeductionResult_Idempotent deduction); [done|apply emitPostDeduction_steady].
Qed.

(** What a settlement answers: the store's error, or its result with the error
    it stands for. *)
Definition settle_result userID (x : result (DeductionResult D)) : result (DeductionResult D * option error) :=
  match x with Ok deduction => Ok (deduction, settle_error userID deduction) | Err err => Err err end.

Lemma check_negative amount op err :
  requireNonNegativeAmount amount op = Err err -> (toQ amount < 0)%Q /\ IsRetryableError err = false.
Proof.
  unfold requireNonNegativeAmount. destruct (IsNegative amount) eqn:Hn; [|done]. intros [= <-].
  by apply IsNegative_spec in Hn.
Qed.

Lemma Settle_obeys h s userID leaseID amount options :
  Credits_HasStore s = true ->
  requireStableKey (SettleOptions_IdempotencyKey options) "settle idempotency key" =
    Ok (SettleOptions_IdempotencyKey options) ->
  obeys (fun h' r =>
    ((toQ amount < 0)%Q /\ lease_events h' = lease_events h /\ exists err, r = Err err /\ IsRetryableError err = false) \/
    ((0 <= toQ amount)%Q /\ exists x,
       lease_events h' = lease_events h ++ [existT (StoreSettleLease userID leaseID (QuantizeMoney amount) options) x] /\
       r = settle_result userID x))
    h (Settle (Some s) userID leaseID amount options).
Proof.
  intros Hstore Hkey. unfold Settle, with_credits. rewrite Hstore.
  destruct (requireNonNegativeAmount amount "settle") as [a|err] eqn:Ha.
  2: { apply check_negative in Ha as [Hneg Hfinal]. left. split_and!; [done..|]. by exists err. }
  cbn [lift pbind]. assert (with_settle_key leaseID options = options) as ->.
  { unfold with_settle_key, settle_key. apply requireStableKey_Ok in Hkey as (Htrim & Hne & _).
    rewrite <- Htrim. apply String.eqb_neq in Hne. rewrite Hne. by destruct options. }
  rewrite Hkey. cbn [lift pbind]. split; [done|]. intros x _.
  assert (0 <= toQ amount)%Q as Hpos.
  { unfold requireNonNegativeAmount in Ha. destruct (IsNegative amount) eqn:Hn; [done|]. by apply IsNegative_false in Hn. }
  destruct x as [deduction|err]; cbn [pbind].
  - eapply obeys_mono; [apply steady_obeys, settled_steady|]. intros t r [Hl ->]. right. split; [done|].
    exists (Ok deduction). split; [|done]. by rewrite Hl, lease_events_last.
  - right. split; [done|]. exists (Err err). split; [|done]. by rewrite lease_events_last.
Qed.

(** What the attempts at a settlement come to, given the store's answers. *)
Inductive settlements (value : any D) : list (result (DeductionResult D)) -> result (RunBilledResult D) -> Prop :=
  | settled_ok deduction :
      settlement_committed deduction ->
      settlements value [Ok deduction]
        (Ok {| RunBilledResult_Result := value; RunBilledResult_Deduction := deduction |})
  | settled_denied deduction err :
      ~ settlement_committed deduction -> settlements value [Ok deduction] (Err err)
  | settled_failed err : settlements value [Err err] (Err err)
  | settled_retry err answers r :
      IsRetryableError err = true -> settlements value answers r -> settlements value (Err err :: answers) r.

(** The attempts: all with one call of the store. *)
Definition settle_calls userID leaseID amount options (answers : list (result (DeductionResult D))) : list event :=
  (fun x => existT (StoreSettleLease userID leaseID (QuantizeMoney amount) options) x) <$> answers.

Definition attempts_post (pre : list event) userID leaseID amount options value (n : nat) (last : error)
    (h : list event) (r : result (RunBilledResult D)) : Prop :=
  ((toQ amount < 0)%Q /\ lease_events h = pre /\ exists err, r = Err err) \/
  ((0 <= toQ amount)%Q /\ exists answers,
     lease_events h = pre ++ settle_calls userID leaseID amount options answers /\ (length answers <= n)%nat /\
     (settlements value answers r \/ n = 0%nat /\ answers = [] /\ r = Err last)).

(** One more failure before the attempts that are left. *)
Lemma attempts_retry h t userID leaseID amount options value n err r :
  (0 <= toQ amount)%Q -> IsRetryableError err = true ->
  attempts_post (lease_events h ++ [existT (StoreSettleLease userID leaseID (QuantizeMoney amount) options) (Err err)])
    userID leaseID amount options value n err t r ->
  forall last, attempts_post (lease_events h) userID leaseID amount options value (S n) last t r.
Proof.
  intros Hpos Hretry [(Hneg & _)|(_ & answers & Hl & Hlen & Ho)] last; [exfalso; lra|].
  right. split; [done|]. exists (Err err :: answers). split_and!; [by rewrite Hl, <- app_assoc|cbn; lia|left].
  destruct Ho as [Ho|(_ & -> & ->)]; [by apply settled_retry|apply settled_failed].
Qed.

Lemma settle_attempts_obeys h s userID leaseID amount options value n last :
  Credits_HasStore s = true ->
  requireStableKey (SettleOptions_IdempotencyKey options) "settle idempotency key" =
    Ok (SettleOptions_IdempotencyKey options) ->
  (0 < n)%nat \/ (0 <= toQ amount)%Q ->
  obeys (attempts_post (lease_events h) userID leaseID amount options value n last) h
    (settle_attempts (Settle (Some s) userID leaseID amount options) value n last).
Proof.
  intros Hstore Hkey. revert h last. induction n as [|n IH]; intros h last Hn; cbn [settle_attempts].
  { right. destruct Hn as [?|Hpos]; [lia|]. split; [done|]. exists []. rewrite app_nil_r. by split_and!; [..|right]. }
  apply obeys_catch. eapply obeys_mono; [by apply Settle_obeys|].
  intros t r [(Hneg & Hl & err & -> & Hfinal)|(Hpos & x & Hl & ->)].
  { rewrite Hfinal. left. eauto. }
  assert (forall h' r, lease_events h' = lease_events (h ++ t) -> settlements value [x] r ->
    attempts_post (lease_events h) userID leaseID amount options value (S n) last h' r) as Hlast.
  { intros h' r' Hh' Hr'. right. split; [done|]. exists [x]. split_and!; [by rewrite Hh'|cbn; lia|by left]. }
  destruct x as [deduction|err]; cbn [settle_result].
  - destruct (settle_error userID deduction) as [err|] eqn:He.
    + rewrite (settle_error_final _ _ _ He). apply Hlast, settled_denied; [done|].
      intros Hc%(settle_error_None userID). congruence.
    + by apply Hlast, settled_ok, (settle_error_None userID).
  - destruct (IsRetryableError err) eqn:Hretry; [|by apply Hlast, settled_failed].
    split; [done|]. intros [] _.
    { apply Hlast, settled_failed. by rewrite lease_events_last. }
    eapply obeys_mono; [apply IH; by right|]. intros t' r'. rewrite lease_events_last, Hl. intros Hpost.
    by apply (attempts_retry _ _ _ _ _ _ _ _ _ _ Hpos Hretry Hpost).
Qed.

(** ** Admission and release *)

(** What holding a lease answers: the lease, when the store committed one. *)
Definition admitted (lease : LeaseResult D) : Prop :=
  LeaseResult_ErrorCode lease = "" /\ LeaseResult_LeaseID lease <> "" /\ LeaseResult_Amount lease <> None /\
  LeaseResult_MinimumBalance lease <> None /\ LeaseResult_ExpiresAt lease <> None.

Definition reserve_error userID (lease : LeaseResult D) : option error :=
  if negb (LeaseResult_ErrorCode lease =? "")
  then Some (creditBusinessError "reserve" userID (LeaseResult_ErrorCode lease))
  else match LeaseResult_Amount lease, LeaseResult_MinimumBalance lease, LeaseResult_ExpiresAt lease with
       | Some _, Some _, Some _ =>
           if LeaseResult_LeaseID lease =? "" then Some (uncommitted "reserve succeeded without a committed lease") else None
       | _, _, _ => Some (uncommitted "reserve succeeded without a committed lease")
       end.

Lemma reserve_error_None userID lease : reserve_error userID lease = None -> admitted lease.
Proof.
  unfold reserve_error, admitted. destruct (String.eqb_spec (LeaseResult_ErrorCode lease) ""); [|done]. cbn.
  destruct (LeaseResult_Amount lease), (LeaseResult_MinimumBalance lease), (LeaseResult_ExpiresAt lease); try done.
  destruct (String.eqb_spec (LeaseResult_LeaseID lease) ""); [done|]. by repeat apply conj.
Qed.

Lemma reserved_steady s userID amount operationType lease :
  steady (lease, reserve_error userID lease) (reserved s userID amount operationType lease).
Proof.
  unfold reserved, reserve_error, failing, succeeding. destruct (negb _).
  - eapply steady_bind; [apply emit_steady|done].
  - destruct (LeaseResult_Amount lease), (LeaseResult_MinimumBalance lease), (LeaseResult_ExpiresAt lease); try done.
    destruct (LeaseResult_LeaseID lease =? ""); [done|]. eapply steady_bind; [apply emit_steady|done].
Qed.

(** The hold of an operation: for the estimate, under its reserve key. *)
Definition held userID amount (key : string) (x : result (LeaseResult D)) (events : list event) : Prop :=
  exists operationType options,
    events = [existT (StoreCreateLease userID (QuantizeMoney amount) operationType options) x] /\
    (0 <= toQ amount)%Q /\ CreateLeaseOptions_IdempotencyKey options = key.

Definition reserve_post userID amount (key : string) (h : list event)
    (r : result (LeaseResult D * option error)) : Prop :=
  match r with
  | Ok (lease, None) => admitted lease /\ held userID amount key (Ok lease) (lease_events h)
  | Ok (_, Some _) => exists x, held userID amount key x (lease_events h)
  | Err _ => lease_events h = [] \/ exists x, held userID amount key x (lease_events h)
  end.

Lemma Reserve_obeys s userID amount options :
  Credits_HasStore s = true ->
  obeys (reserve_post userID amount (TrimSpace (ReserveOptions_IdempotencyKey options))) []
    (Reserve (Some s) userID amount options).
Proof.
  intros Hstore. unfold Reserve, with_credits. rewrite Hstore.
  destruct (requireNonNegativeAmount amount "reserve") as [a|err] eqn:Ha; [|by left].
  assert (0 <= toQ amount)%Q as Hpos.
  { unfold requireNonNegativeAmount in Ha. destruct (IsNegative amount) eqn:Hn; [done|]. by apply IsNegative_false in Hn. }
  cbn [lift pbind]. destruct (resolvedLeaseOptions s options) as [[lease operationType]|err] eqn:Hresolved; [|by left].
  assert (CreateLeaseOptions_IdempotencyKey lease = TrimSpace (ReserveOptions_IdempotencyKey options)) as Hkey.
  { unfold resolvedLeaseOptions in Hresolved. apply bind_Ok in Hresolved as (key & (-> & _)%requireStableKey_Ok & Hr).
    apply bind_Ok in Hr as (mode & _ & Hr). apply bind_Ok in Hr as (ttl & _ & Hr). by injection Hr as <- _. }
  cbn [pbind]. split; [done|]. intros x _.
  assert (held userID amount (TrimSpace (ReserveOptions_IdempotencyKey options)) x
    (lease_events ([] ++ [existT (StoreCreateLease userID (QuantizeMoney amount) operationType lease) x]))) as Hheld.
  { exists operationType, lease. by rewrite lease_events_last. }
  destruct x as [result|err]; cbn [pbind]; [|right; by eexists].
  eapply obeys_mono; [apply steady_obeys, (reserved_steady s userID amount operationType result)|].
  intros t r [Hl ->]. unfold reserve_post. rewrite Hl. destruct (reserve_error userID result) eqn:He; [by eexists|].
  split; [by eapply reserve_error_None|done].
Qed.

Lemma Release_obeys h s userID leaseID :
  Credits_HasStore s = true ->
  obeys (fun h' _ => exists x, lease_events h' = lease_events h ++ [existT (StoreReleaseLease userID leaseID) x]) h
    (Release (Some s) userID leaseID).
Proof.
  intros Hstore. unfold Release, with_credits. rewrite Hstore. split; [done|]. intros x _.
  destruct x as [result|err]; cbn [pbind]; [|eexists; by rewrite lease_events_last].
  eapply (steady_then _ _ tt).
  - destruct (ReleaseResult_Released result); [apply emit_steady|done].
  - intros h' Hh'. eexists. by rewrite Hh', lease_events_last.
Qed.

(** ** The whole operation *)

Section operation.
Context (userID : string) (options : RunBilledOptions D D).

Let begin := RunBilledOptions_Begin options.
Let key := TrimSpace (BilledOptions_OperationKey begin).

(** How an operation settles: its feature, its key, its metadata. *)
Definition settles_with : SettleOptions D :=
  {| SettleOptions_Usage := no_usage (BilledOptions_Feature begin);
     SettleOptions_IdempotencyKey := key +:+ ":settle";
     SettleOptions_Metadata := Some (Clone (BilledOptions_Metadata begin)) |}.

(** The lease calls and the work of an operation, and what it returns. *)
Inductive billed : list event -> result (RunBilledResult D) -> Prop :=
  | billed_refused err : billed [] (Err err)
  | billed_denied x hold err :
      held userID (BilledOptions_Estimate begin) (key +:+ ":reserve") x hold -> billed hold (Err err)
  | billed_panicked lease hold text :
      held userID (BilledOptions_Estimate begin) (key +:+ ":reserve") (Ok lease) hold -> admitted lease ->
      billed (hold ++ [existT DoWork (WorkPanicked text)]) (Err (GoPanic text))
  | billed_failed lease hold err x :
      held userID (BilledOptions_Estimate begin) (key +:+ ":reserve") (Ok lease) hold -> admitted lease ->
      billed (hold ++ [existT DoWork (WorkFailed err); existT (StoreReleaseLease userID (LeaseResult_LeaseID lease)) x])
        (Err err)
  | billed_negative lease hold value actual err :
      held userID (BilledOptions_Estimate begin) (key +:+ ":reserve") (Ok lease) hold -> admitted lease ->
      (toQ actual < 0)%Q -> billed (hold ++ [existT DoWork (WorkDone value actual)]) (Err err)
  | billed_settled lease hold value actual attempts answers r :
      held userID (BilledOptions_Estimate begin) (key +:+ ":reserve") (Ok lease) hold -> admitted lease ->
      (0 <= toQ actual)%Q ->
      normalizeSettlementAttempts (RunBilledOptions_SettlementAttempts options) = Ok attempts ->
      (1 <= length answers <= Z.to_nat attempts)%nat -> settlements value answers r ->
      billed (hold ++ existT DoWork (WorkDone value actual) ::
                settle_calls userID (LeaseResult_LeaseID lease) actual settles_with answers) r.

(** The handle of an operation whose lease is held. *)
Definition begun service (operation : BilledOperation D) (hold : list event) : Prop :=
  exists s lease,
    service = Some s /\ Credits_HasStore s = true /\
    held userID (BilledOptions_Estimate begin) (key +:+ ":reserve") (Ok lease) hold /\ admitted lease /\
    operation = {| BilledOperation_service := service; BilledOperation_userID := userID;
                   BilledOperation_leaseID := LeaseResult_LeaseID lease; BilledOperation_operationKey := key;
                   BilledOperation_feature := BilledOptions_Feature begin;
                   BilledOperation_metadata := Some (Clone (BilledOptions_Metadata begin)) |} /\
    scopedOperationKey key "settle" = Ok (key +:+ ":settle") /\
    requireStableKey (key +:+ ":settle") "settle idempotency key" = Ok (key +:+ ":settle").

Lemma begin_obeys service :
  obeys (fun h r => match r with
                    | Ok operation => begun service operation (lease_events h)
                    | Err err => billed (lease_events h) (Err err)
                    end) [] (BeginBilledOperation service userID begin).
Proof.
  unfold BeginBilledOperation, begin_operation, with_credits. fold begin.
  destruct service as [s|]; [|apply billed_refused]. destruct (Credits_HasStore s) eqn:Hstore; [|apply billed_refused].
  destruct (requireStableKey (BilledOptions_OperationKey begin) "operation key") as [key'|err] eqn:Hkey;
    [|apply billed_refused]. cbn [lift pbind].
  destruct (scopedOperationKey key' "reserve") as [reserveKey|err] eqn:Hreserve; [|apply billed_refused].
  destruct (operation_keys _ _ _ _ Hkey Hreserve) as (-> & Hsettle & Hstable & _).
  apply requireStableKey_Ok in Hkey as (-> & Hne & Hlen). fold key in Hne, Hlen, Hreserve, Hsettle, Hstable |- *.
  assert (TrimSpace (key +:+ ":reserve") = key +:+ ":reserve") as Htrim.
  { apply TrimSpace_suffix; [apply TrimSpace_idem|done|apply clean_reserve]. }
  cbn [pbind]. eapply obeys_then; [by apply Reserve_obeys| |].
  - cbn [operation_reserve ReserveOptions_IdempotencyKey]. rewrite Htrim.
    intros t err [Hl|[x Hheld]]; [rewrite Hl; apply billed_refused|by eapply billed_denied].
  - cbn [operation_reserve ReserveOptions_IdempotencyKey]. rewrite Htrim.
    intros t [lease [err|]]; cbn [reserve_post].
    + intros [x Hheld]. by eapply billed_denied.
    + intros [Hadmitted Hheld]. pose proof Hadmitted as (_ & HID & _). apply String.eqb_neq in HID. rewrite HID.
      exists s, lease. do 6 (split; [done|]). done.
Qed.

Lemma after_work_obeys h service operation work attempts :
  begun service operation (lease_events h) ->
  normalizeSettlementAttempts (RunBilledOptions_SettlementAttempts options) = Ok attempts ->
  obeys (fun h' r => billed (lease_events h') r) (h ++ [existT DoWork work])
    (after_work operation Operation_Settle attempts work).
Proof.
  intros (s & lease & -> & Hstore & Hheld & Hadmitted & -> & Hsettle & Hstable) Hattempts.
  destruct work as [value actual|err|text]; cbn [after_work].
  - assert (exists n, Z.to_nat attempts = S n) as [n Hn].
    { unfold normalizeSettlementAttempts in Hattempts.
      destruct (Z.eqb_spec (RunBilledOptions_SettlementAttempts options) 0); [injection Hattempts as <-; by exists 2%nat|].
      destruct (Z.ltb_spec (RunBilledOptions_SettlementAttempts options) 1); [done|]. injection Hattempts as <-.
      exists (Z.to_nat (RunBilledOptions_SettlementAttempts options - 1)). lia. }
    unfold Operation_Settle, with_operation. cbn [is_some BilledOperation_service BilledOperation_operationKey
      BilledOperation_userID BilledOperation_leaseID].
    rewrite Hsettle. cbn [lift pbind].
    eapply obeys_mono; [apply (settle_attempts_obeys _ s); [done|exact Hstable|left; lia]|].
    intros t r [(Hneg & Hl & err & ->)|(Hpos & answers & Hl & Hlen & [Hsettlements|(Hzero & _)])]; [| |lia];
      rewrite Hl, lease_events_last; cbn [about_lease].
    + by eapply billed_negative.
    + rewrite <- app_assoc. eapply billed_settled; try done. split; [by destruct Hsettlements; cbn; lia|done].
  - apply obeys_catch. unfold Operation_Release, with_operation. cbn [is_some BilledOperation_service].
    eapply obeys_mono; [by apply Release_obeys|]. intros t r [x Hl]. cbn. rewrite Hl, lease_events_last. cbn [about_lease]. rewrite <- app_assoc.
    by eapply billed_failed.
  - cbn. rewrite lease_events_last. by eapply billed_panicked.
Qed.

Lemma RunBilled_obeys service : obeys (fun h r => billed (lease_events h) r) [] (RunBilled service userID options).
Proof.
  unfold RunBilled. destruct (negb _); [apply billed_refused|].
  destruct (normalizeSettlementAttempts _) as [attempts|err] eqn:Hattempts; [|apply billed_refused].
  cbn [lift pbind]. eapply obeys_then; [apply begin_obeys|done|].
  intros t operation Hbegun. split; [done|]. intros work _. by apply (after_work_obeys _ service).
Qed.
End operation.

(** C21: work is charged once, or its lease given back.  Whatever the store and
    the application answer, a run of RunBilled either holds no lease, or holds
    one, for the estimate rounded to six places and under the operation key with
    the suffix [:reserve], before the work is run.  When the work fails the
    lease is released, nothing is settled and the work's error is returned; when
    it panics or answers a negative cost nothing is settled or released.
    Otherwise the same lease is settled for the cost the work answered: all
    attempts are the same call, under the operation key with the suffix
    [:settle], at most as many as configured, a new one only after an error
    classified as retryable, and the run succeeds exactly when the last attempt
    is a committed settlement, which it returns.  A key that could reserve never
    fails to settle for its length. *)
Theorem RunBilled_settles_or_releases service userID options t r :
  runs (RunBilled service userID options) t r -> billed userID options (lease_events t) r.
Proof.
  intros Hr.
  by destruct (obeys_runs _ _ _ [] _ _ _ (RunBilled_obeys userID options service) Hr
    (proj2 (Forall_forall _ _) (fun _ _ => I))) as [Hq _].
Qed.
End billed.

(** ** Sample: work that costs 2.5, settled at the second attempt *)

Definition sample_run_options : RunBilledOptions Ref.dec Ref.dec :=
  {| RunBilledOptions_Begin :=
       {| BilledOptions_Estimate := lit "5"; BilledOptions_OperationKey := " job_1 ";
          BilledOptions_OperationType := ""; BilledOptions_BillingMode := ""; BilledOptions_TTL := 0;
          BilledOptions_Feature := "chat"; BilledOptions_Metadata := None |};
     RunBilledOptions_HasDoWork := true; RunBilledOptions_SettlementAttempts := 0 |}.

Definition sample_billed_run :=
  run (sample_store done_work) (new_tracker, 1%nat) (RunBilled (Some sample_credits) "user_1" sample_run_options).

Example sample_billed_settles :
  settles_with sample_run_options =
  {| SettleOptions_Usage := no_usage "chat"; SettleOptions_IdempotencyKey := "job_1:settle";
     SettleOptions_Metadata := Some ∅ |}.
Proof. reflexivity. Qed.

Lemma RunBilled_settles_or_releases_witness :
  length (lease_events sample_billed_run.1.1) = 4%nat /\
  (exists result, sample_billed_run.1.2 = Ok result) /\
  billed "user_1" sample_run_options (lease_events sample_billed_run.1.1) sample_billed_run.1.2.
Proof.
  split; [vm_compute; reflexivity|]. split; [eexists; vm_compute; reflexivity|].
  apply (RunBilled_settles_or_releases (Some sample_credits)). apply run_runs.
Defined.
