(* ===== verification/GoEncoding.v ===== *)
(** * What the commerce services use of the standard library

    crypto/sha256 and encoding/hex, encoding/json, and the parts of strings
    and time that compare and print. *)

From S2P Require Export GoCalendar.
Local Open Scope Z_scope.

(** ** crypto/sha256 and encoding/hex

    The digest the commerce services bind requests and quotes with: FIPS 180-4
    on bytes, with 32-bit words as integers below 2^32. *)


Definition w32 (x : Z) : Z := Z.land x (2 ^ 32 - 1).
Definition rotr (n x : Z) : Z := Z.lor (Z.shiftr x n) (w32 (Z.shiftl x (32 - n))).
Definition big_sigma0 x := Z.lxor (rotr 2 x) (Z.lxor (rotr 13 x) (rotr 22 x)).
Definition big_sigma1 x := Z.lxor (rotr 6 x) (Z.lxor (rotr 11 x) (rotr 25 x)).
Definition small_sigma0 x := Z.lxor (rotr 7 x) (Z.lxor (rotr 18 x) (Z.shiftr x 3)).
Definition small_sigma1 x := Z.lxor (rotr 17 x) (Z.lxor (rotr 19 x) (Z.shiftr x 10)).
Definition choose e f g := Z.lxor (Z.land e f) (Z.land (Z.lxor e (2 ^ 32 - 1)) g).
Definition majority a b c := Z.lxor (Z.land a b) (Z.lxor (Z.land a c) (Z.land b c)).

Definition round_constants : list Z :=
  [1116352408; 1899447441; 3049323471; 3921009573; 961987163; 1508970993; 2453635748; 2870763221;
   3624381080; 310598401; 607225278; 1426881987; 1925078388; 2162078206; 2614888103; 3248222580;
   3835390401; 4022224774; 264347078; 604807628; 770255983; 1249150122; 1555081692; 1996064986;
   2554220882; 2821834349; 2952996808; 3210313671; 3336571891; 3584528711; 113926993; 338241895;
   666307205; 773529912; 1294757372; 1396182291; 1695183700; 1986661051; 2177026350; 2456956037;
   2730485921; 2820302411; 3259730800; 3345764771; 3516065817; 3600352804; 4094571909; 275423344;
   430227734; 506948616; 659060556; 883997877; 958139571; 1322822218; 1537002063; 1747873779;
   1955562222; 2024104815; 2227730452; 2361852424; 2428436474; 2756734187; 3204031479; 3329325298].

(** The eight words of the state. *)
Record hash := { ha : Z; hb : Z; hc : Z; hd : Z; he : Z; hf : Z; hg : Z; hh : Z }.

Definition initial_hash : hash :=
  {| ha := 1779033703; hb := 3144134277; hc := 1013904242; hd := 2773480762;
     he := 1359893119; hf := 2600822924; hg := 528734635; hh := 1541459225 |}.

(** The message schedule, latest word first: [n] words still to come. *)
Fixpoint schedule (n : nat) (w : list Z) : list Z :=
  match n with
  | O => w
  | S n =>
      let word i := nth i w 0 in
      schedule n (w32 (small_sigma1 (word 1%nat) + word 6%nat + small_sigma0 (word 14%nat) + word 15%nat) :: w)
  end.

Definition round (s : hash) (kw : Z * Z) : hash :=
  let t1 := hh s + big_sigma1 (he s) + choose (he s) (hf s) (hg s) + kw.1 + kw.2 in
  let t2 := big_sigma0 (ha s) + majority (ha s) (hb s) (hc s) in
  {| ha := w32 (t1 + t2); hb := ha s; hc := hb s; hd := hc s;
     he := w32 (hd s + t1); hf := he s; hg := hf s; hh := hg s |}.

Definition add_hash (s t : hash) : hash :=
  {| ha := w32 (ha s + ha t); hb := w32 (hb s + hb t); hc := w32 (hc s + hc t); hd := w32 (hd s + hd t);
     he := w32 (he s + he t); hf := w32 (hf s + hf t); hg := w32 (hg s + hg t); hh := w32 (hh s + hh t) |}.

(** Groups of [k] elements; [n] bounds their number. *)
Fixpoint groups {A} (n k : nat) (l : list A) : list (list A) :=
  match n, l with
  | S n, _ :: _ => firstn k l :: groups n k (skipn k l)
  | _, _ => []
  end.

Definition word_of (bytes : list Z) : Z := foldl (fun acc b => acc * 256 + b) 0 bytes.

Definition compress (s : hash) (block : list Z) : hash :=
  let words := map word_of (groups 16 4 block) in
  add_hash s (foldl round s (combine round_constants (rev (schedule 48 (rev words))))).

(** Big-endian, [n] bytes. *)
Fixpoint be_bytes (n : nat) (z : Z) : list Z :=
  match n with O => [] | S n => Z.shiftr z (8 * Z.of_nat n) mod 256 :: be_bytes n z end.

(** A one bit, zeros up to 56 modulo 64, the length in bits. *)
Definition padded (message : list Z) : list Z :=
  let n := length message in
  message ++ [128] ++ repeat 0 (Z.to_nat ((55 - Z.of_nat n) mod 64)) ++ be_bytes 8 (8 * Z.of_nat n).

Definition hash_bytes (s : hash) : list Z :=
  concat (map (be_bytes 4) [ha s; hb s; hc s; hd s; he s; hf s; hg s; hh s]).

(** [sha256.Sum256] of the bytes of a string. *)
Definition Sum256 (message : string) : list Z :=
  let bytes := padded (map byte_of (list_ascii_of_string message)) in
  hash_bytes (foldl compress initial_hash (groups (length bytes) 64 bytes)).

(** [hex.EncodeToString] *)
Definition hex_char (n : Z) : ascii := ascii_of_N (Z.to_N (if n <? 10 then 48 + n else 87 + n)).
Definition hex_digits (b : Z) : list ascii := [hex_char (b / 16); hex_char (b mod 16)].
Definition EncodeToString (bytes : list Z) : string :=
  string_of_list_ascii (concat (map hex_digits bytes)).

Example sha256_abc :
  EncodeToString (Sum256 "abc") = "ba7816bf8f01cfea414140de5dae2223b00361a396177a9cb410ff61f20015ad".
Proof. vm_compute. reflexivity. Qed.

Example sha256_two_blocks :
  EncodeToString (Sum256 "abcdbcdecdefdefgefghfghighijhijkijkljklmklmnlmnomnopnopq") =
  "248d6a61d20638b8e5c026930c3e6039a33ce45964ff2167f6ecedd419db06c1".
Proof. vm_compute. reflexivity. Qed.

(** ** What the services use of a digest: its length and its alphabet *)

Lemma length_be_bytes n z : length (be_bytes n z) = n.
Proof. revert z. induction n as [|n IH]; intros z; cbn; [done|]. by rewrite IH. Qed.

Lemma be_bytes_range n z : Forall (fun b => 0 <= b < 256) (be_bytes n z).
Proof. induction n as [|n IH]; cbn; constructor; [by apply Z.mod_pos_bound|done]. Qed.

Lemma Sum256_length message : length (Sum256 message) = 32%nat.
Proof. unfold Sum256, hash_bytes. cbn [map concat]. by rewrite !length_app, !length_be_bytes. Qed.

Lemma Sum256_range message : Forall (fun b => 0 <= b < 256) (Sum256 message).
Proof.
  unfold Sum256, hash_bytes. cbn [map concat]. rewrite !Forall_app.
  repeat (split; [apply be_bytes_range|]). constructor.
Qed.

Definition is_hex (c : ascii) : bool :=
  ((48 <=? byte_of c) && (byte_of c <=? 57)) || ((97 <=? byte_of c) && (byte_of c <=? 102)).

Lemma hex_char_hex n : 0 <= n < 16 -> is_hex (hex_char n) = true.
Proof.
  intros Hn. assert (Forall (fun n => is_hex (hex_char n) = true) (seqZ 0 16)) as Hall 
    by (vm_compute; repeat constructor).
  apply (proj1 (Forall_forall _ _) Hall), elem_of_seqZ. lia.
Qed.

Lemma hex_alphabet bytes :
  Forall (fun b => 0 <= b < 256) bytes ->
  Forall (fun c => is_hex c = true) (list_ascii_of_string (EncodeToString bytes)).
Proof.
  unfold EncodeToString. rewrite list_ascii_of_string_of_list_ascii. induction 1 as [|b bytes Hb _ IH]; [constructor|].
  cbn [map concat]. unfold hex_digits. cbn [app].
  constructor; [|constructor; [|done]]; apply hex_char_hex.
  - split; [apply Z.div_pos; lia|apply Z.div_lt_upper_bound; lia].
  - by apply Z.mod_pos_bound.
Qed.

Lemma length_hex bytes : String.length (EncodeToString bytes) = (2 * length bytes)%nat.
Proof.
  unfold EncodeToString. induction bytes as [|b bytes IH]; cbn; [done|]. rewrite IH. lia.
Qed.

Local Open Scope go_scope.

(** ** encoding/json: the text the commerce services hash

    [json.Marshal] of maps, slices, strings, integers and nil, with Go's
    escaping.  The members of a map come out in the order of their keys. *)


Inductive json :=
  | JNull
  | JString (s : string)
  | JInt (z : Z)
  | JArray (items : list json)
  | JObject (members : list (string * json)).

Definition hex4 (code : Z) : string :=
  String "\" (String "u" (string_of_list_ascii
    (hex_digits (code / 256) ++ hex_digits (code mod 256)))).

(** What is written for a byte below 128. *)
Definition escape_byte (c : ascii) : string :=
  let b := byte_of c in
  if (b =? 34)%Z || (b =? 92)%Z then String "\" (String c "")
  else if (b =? 8)%Z then "\b"
  else if (b =? 9)%Z then "\t"
  else if (b =? 10)%Z then "\n"
  else if (b =? 12)%Z then "\f"
  else if (b =? 13)%Z then "\r"
  else if (b <? 32) || (b =? 60)%Z || (b =? 62)%Z || (b =? 38)%Z then hex4 b
  else String c "".

(** What is written for a rune; a byte that is no rune becomes U+FFFD. *)
Definition escape_rune (rune : list ascii) : string :=
  match rune with
  | [c] => if byte_of c <? 128 then escape_byte c else hex4 65533
  | _ =>
      if bool_decide (map byte_of rune = [226; 128; 168]) then hex4 8232
      else if bool_decide (map byte_of rune = [226; 128; 169]) then hex4 8233
      else string_of_list_ascii rune
  end.

Definition quoted (s : string) : string :=
  String "034" (String.concat "" (map escape_rune (runes s)) +:+ String "034" "").

(** Members in the order of their keys, which are distinct. *)
Definition key_le (a b : string * string) : Prop := string_le a.1 b.1.
#[export] Instance key_le_dec : RelDecision key_le.
Proof. intros a b. unfold key_le. apply _. Defined.

Definition object_text (members : list (string * string)) : string :=
  "{" +:+ String.concat "," (map (fun m => quoted m.1 +:+ ":" +:+ m.2) (merge_sort key_le members)) +:+ "}".

(** [json.Marshal] *)
Fixpoint Marshal (v : json) : string :=
  match v with
  | JNull => "null"
  | JString s => quoted s
  | JInt z => itoa z
  | JArray items => "[" +:+ String.concat "," (map Marshal items) +:+ "]"
  | JObject members => object_text (map (fun m => (m.1, Marshal m.2)) members)
  end.

Definition sample_json : json :=
  JObject [("quantity", JInt 2); ("accountId", JString "user <1>"); ("none", JNull); ("lines", JArray [JInt 1])].

Example Marshal_sample :
  list_ascii_of_string (Marshal sample_json) =
  list_ascii_of_string (String.concat (String "034" "")
    ["{"; "accountId"; ":"; "user \u003c1\u003e"; ","; "lines"; ":[1],"; "none"; ":null,"; "quantity"; ":2}"]).
Proof. vm_compute. reflexivity. Qed.

(** ** Packages strings and time: case, replacement and formatting

    What commerce uses of strings.ToLower, EqualFold and ReplaceAll and of
    Time.Format. *)


Definition lower_char (c : ascii) : ascii :=
  if (65 <=? byte_of c) && (byte_of c <=? 90) then ascii_of_N (Z.to_N (byte_of c + 32)) else c.

(** A rune in lower case.  Of the runes beyond ASCII only U+0130 and U+212A
    have a lower case within it; the others are left as they are, so a result
    is ASCII exactly when Go's is, and then it is the same. *)
Definition lower_rune (rune : list ascii) : list ascii :=
  match rune with
  | [c] => [lower_char c]
  | _ => if bool_decide (map byte_of rune = [196; 176]) then ["i"%char]
         else if bool_decide (map byte_of rune = [226; 132; 170]) then ["k"%char]
         else rune
  end.

(** [strings.ToLower], for comparison with ASCII text. *)
Definition ToLower (s : string) : string := string_of_list_ascii (concat (map lower_rune (runes s))).

(** [strings.EqualFold] with a text of hexadecimal digits, to which no rune
    beyond ASCII folds. *)
Definition lower_ascii (s : string) : string := string_of_list_ascii (map lower_char (list_ascii_of_string s)).
Definition EqualFold (s t : string) : bool := lower_ascii s =? lower_ascii t.

(** [strings.ToUpper] of ASCII text, and [^[A-Za-z]{3}$] *)
Definition upper_char (c : ascii) : ascii := if is_lower c then ascii_of_N (Z.to_N (byte_of c - 32)) else c.
Definition upper_ascii (s : string) : string := string_of_list_ascii (map upper_char (list_ascii_of_string s)).
Definition is_letter (c : ascii) : bool := is_lower c || is_upper c.
Definition three_letters (s : string) : bool := (String.length s =? 3)%nat && all_chars is_letter s.

(** [strings.ReplaceAll] of a text that is not empty; [skip] counts the bytes
    of an occurrence still to pass over. *)
Fixpoint replace_from (old new : string) (skip : nat) (s : string) : string :=
  match s with
  | EmptyString => EmptyString
  | String c rest =>
      match skip with
      | S skip => replace_from old new skip rest
      | O => if String.prefix old s
             then new +:+ replace_from old new (String.length old - 1) rest
             else String c (replace_from old new 0 rest)
      end
  end.
Definition ReplaceAll (s old new : string) : string := replace_from old new 0 s.

(** [n] digits at least, after the sign. *)
Fixpoint zeros (n : nat) : string := match n with O => "" | S n => String "0" (zeros n) end.
Definition padded_int (n : nat) (z : Z) : string :=
  let digits := itoa (Z.abs z) in
  (if z <? 0 then "-" else "") +:+ zeros (n - String.length digits) +:+ digits.

Fixpoint drop_zeros (l : list ascii) : list ascii :=
  match l with
  | c :: rest => if Ascii.eqb c "0" then drop_zeros rest else l
  | [] => []
  end.

(** The fraction of a second, its trailing zeros dropped. *)
Definition fraction (nanos : Z) : string :=
  if (nanos =? 0)%Z then ""
  else "." +:+ string_of_list_ascii (rev (drop_zeros (rev (list_ascii_of_string (padded_int 9 nanos))))).

(** "2006-01-02T15:04:05" of the instant in UTC *)
Definition format_seconds (t : Time) : string :=
  let sec := instant t / Second in
  let '(year, month, day) := civil_from_days (sec / 86400) in
  let clock := sec mod 86400 in
  padded_int 4 year +:+ "-" +:+ padded_int 2 month +:+ "-" +:+ padded_int 2 day +:+ "T"
  +:+ padded_int 2 (clock / 3600) +:+ ":" +:+ padded_int 2 (clock / 60 mod 60) +:+ ":" +:+ padded_int 2 (clock mod 60).

(** [t.UTC().Format(time.RFC3339Nano)] *)
Definition FormatRFC3339Nano (t : Time) : string := format_seconds t +:+ fraction (instant t mod Second) +:+ "Z".

(** [t.UTC().Format("2006-01-02T15:04:05.000Z07:00")]: whole milliseconds. *)
Definition FormatMillis (t : Time) : string :=
  format_seconds t +:+ "." +:+ padded_int 3 (instant t mod Second / 1000000) +:+ "Z".

(** [t.After(u)] *)
Definition After (t u : Time) : bool := instant u <? instant t.

Example format_sample :
  FormatRFC3339Nano {| instant := 1709202600500000000; location := UTC |} = "2024-02-29T10:30:00.5Z".
Proof. vm_compute. reflexivity. Qed.

Example replace_sample : ReplaceAll "https://x/{intentId}/y?{intentId}" "{intentId}" "ab" = "https://x/ab/y?ab".
Proof. reflexivity. Qed.

Example fold_sample : ToLower "PaID" = "paid" /\ EqualFold "ABcd09" "abCD09" = true.
Proof. vm_compute. by split. Qed.

(** ** Formatted times parse *)

Lemma is_leap_spec year : is_leap year = true <-> year_days year - year_days (year - 1) = 366.
Proof.
  unfold is_leap, year_days. rewrite andb_true_iff, orb_true_iff, negb_true_iff, !Z.eqb_eq, Z.eqb_neq.
  Z.to_euclidean_division_equations. lia.
Qed.

(** The days of a month are those to the start of the next one. *)
Lemma month_length year month :
  1 <= month <= 12 -> month_start (year * 12 + month) - month_start (year * 12 + month - 1) = days_in month year.
Proof.
  intros Hm. pose (Y := if month <=? 2 then year - 1 else year). pose (mp := (month + 9) mod 12).
  assert (0 <= mp < 12 /\ year * 12 + month - 1 = Y * 12 + mp + 2) as [Hmp Hi]
    by (unfold mp, Y; destruct (Z.leb_spec month 2); Z.to_euclidean_division_equations; lia).
  destruct (month_start_step Y mp Hmp) as [H1 H2].
  rewrite Hi. replace (year * 12 + month) with (Y * 12 + mp + 3) by lia. rewrite H1, H2. clear H1 H2 Hi Hmp.
  pose proof (is_leap_spec year) as Hleap. pose proof (year_days_step (year - 1)) as Hstep.
  replace (year - 1 + 1) with year in Hstep by lia. unfold days_in, Y, mp. clear Y mp.
  assert (month ∈ [1; 2; 3; 4; 5; 6; 7; 8; 9; 10; 11; 12]) as Hcases by (rewrite list_elem_of_In; cbn; lia).
  repeat (apply elem_of_cons in Hcases as [->|Hcases]); [..|by apply elem_of_nil in Hcases];
    (match goal with |- context [(?m + 9) mod 12] =>
       let x := eval vm_compute in ((m + 9) mod 12) in change ((m + 9) mod 12) with x end);
    cbn -[year_days Z.sub]; try (unfold month_days; Z.to_euclidean_division_equations; lia).
  replace (year - 1 + 1) with year by lia. change (month_days 11) with 337.
  destruct (is_leap year); [pose proof (proj1 Hleap eq_refl); lia|].
  assert (year_days year - year_days (year - 1) <> 366) by (intros Heq%Hleap; done). lia.
Qed.

Lemma take_digits_app n acc s z rest tail :
  take_digits n acc s = Some (z, rest) -> take_digits n acc (s +:+ tail) = Some (z, rest +:+ tail).
Proof.
  revert acc s. induction n as [|n IH]; intros acc s; cbn; [by intros [= <- <-]|].
  destruct s as [|c s]; [done|]. rewrite append_cons. cbn.
  destruct (is_digit c); [apply IH|done].
Qed.

Definition parses_padded (n : nat) (z : Z) : bool :=
  match take_digits n 0 (padded_int n z) with Some (z', "") => (z' =? z)%Z | _ => false end.

Lemma padded_checked n : (1 <= n <= 4)%nat -> forallb (parses_padded n) (seqZ 0 (10 ^ Z.of_nat n)) = true.
Proof. intros Hn. destruct n as [|n]; [lia|]. do 4 (destruct n as [|n]; [vm_compute; reflexivity|]). lia. Qed.

Lemma take_padded n z s : (1 <= n <= 4)%nat -> 0 <= z < 10 ^ Z.of_nat n -> take_digits n 0 (padded_int n z +:+ s) = Some (z, s).
Proof.
  intros Hn Hz. pose proof (padded_checked n Hn) as Hall. rewrite forallb_forall in Hall.
  specialize (Hall z ltac:(apply list_elem_of_In, elem_of_seqZ; lia)). unfold parses_padded in Hall.
  destruct (take_digits n 0 (padded_int n z)) as [[z' rest]|] eqn:Ht; [|discriminate Hall].
  destruct rest; [|discriminate Hall].
  apply Z.eqb_eq in Hall as ->. by apply (take_digits_app _ _ _ _ _ s) in Ht.
Qed.

Lemma expect_app c s : expect c (String c "" +:+ s) = Some s.
Proof. change (String c "" +:+ s) with (String c s). cbn. by rewrite Ascii.eqb_refl. Qed.

Lemma take_millis_checked :
  forallb (fun z => match take_fraction ("." +:+ padded_int 3 z +:+ "Z") with
                    | (nanos, rest) => (nanos =? z * 1000000)%Z && (rest =? "Z") end) (seqZ 0 1000) = true.
Proof. vm_compute. reflexivity. Qed.

Lemma take_millis z : 0 <= z < 1000 -> take_fraction ("." +:+ padded_int 3 z +:+ "Z") = (z * 1000000, "Z").
Proof.
  intros Hz. pose proof take_millis_checked as Hall. rewrite forallb_forall in Hall.
  specialize (Hall z ltac:(apply list_elem_of_In, elem_of_seqZ; lia)). destruct (take_fraction _) as [nanos rest].
  by apply andb_true_iff in Hall as [->%Z.eqb_eq ->%String.eqb_eq].
Qed.

(** A date has one year. *)
Lemma civil_year_range day year month d y1 y2 :
  civil_from_days day = (year, month, d) -> days_from_civil y1 1 1 <= day < days_from_civil y2 1 1 -> y1 <= year < y2.
Proof.
  intros (_ & Hm & _ & Hl & Hr)%civil_from_days_inverse Hday.
  assert (forall y, days_from_civil y 1 1 = month_start (y * 12)) as Hstart.
  { intros y. unfold month_start. f_equal; Z.to_euclidean_division_equations; lia. }
  rewrite !Hstart in Hday. split.
  - destruct (Z.le_gt_cases y1 year) as [|Hlt]; [done|].
    destruct (Z.eq_dec (year * 12 + month) (y1 * 12)) as [Heq|]; [rewrite Heq in Hr; lia|].
    pose proof (month_start_mono (year * 12 + month) (y1 * 12) ltac:(lia)). lia.
  - destruct (Z.lt_ge_cases year y2) as [|Hge]; [done|].
    destruct (Z.eq_dec (year * 12 + month - 1) (y2 * 12)) as [Heq|]; [rewrite Heq in Hl; lia|].
    pose proof (month_start_mono (y2 * 12) (year * 12 + month - 1) ltac:(lia)). lia.
Qed.

(** The years the layout has four digits for. *)
Definition four_digit_year (t : Time) : Prop :=
  days_from_civil 0 1 1 * 86400 <= instant t / Second < days_from_civil 10000 1 1 * 86400.

(** The fields of a format of whole milliseconds, and their instant. *)
Record millis_fields (t : Time) (year month day hour minute second millis : Z) : Prop := {
  fields_format :
    FormatMillis t = padded_int 4 year +:+ "-" +:+ padded_int 2 month +:+ "-" +:+ padded_int 2 day +:+ "T"
      +:+ padded_int 2 hour +:+ ":" +:+ padded_int 2 minute +:+ ":" +:+ padded_int 2 second
      +:+ "." +:+ padded_int 3 millis +:+ "Z";
  fields_date : 0 <= year < 10000 /\ 1 <= month <= 12 /\ 1 <= day <= days_in month year /\ days_in month year <= 31;
  fields_clock : 0 <= hour < 24 /\ 0 <= minute < 60 /\ 0 <= second < 60 /\ 0 <= millis < 1000;
  fields_instant :
    instant t / 1000000 = (((days_from_civil year month day * 24 + hour) * 60 + minute) * 60 + second) * 1000 + millis;
}.

Lemma civil_from_days_in_month n year month day :
  civil_from_days n = (year, month, day) -> 1 <= day <= days_in month year /\ days_in month year <= 31.
Proof.
  intros (Hinv & Hm & Hd & Hstart & Hend)%civil_from_days_inverse. pose proof (month_length year month Hm) as Hlen.
  split; [split; [done|]|unfold days_in; destruct (is_leap year); repeat case_match; lia].
  assert (days_from_civil year month day = month_start (year * 12 + month - 1) + day - 1) as Hfirst; [|lia].
  unfold month_start. replace ((year * 12 + month - 1) / 12) with year by (Z.to_euclidean_division_equations; lia).
  replace ((year * 12 + month - 1) mod 12 + 1) with month by (Z.to_euclidean_division_equations; lia).
  rewrite !days_from_civil_eq. lia.
Qed.

Lemma FormatMillis_fields t :
  four_digit_year t -> exists year month day hour minute second millis,
  millis_fields t year month day hour minute second millis.
Proof.
  intros Hrange. destruct (civil_from_days (instant t / Second / 86400)) as [[year month] day] eqn:Hc.
  set (sec := instant t / Second) in *. set (clock := sec mod 86400).
  exists year, month, day, (clock / 3600), (clock / 60 mod 60), (clock mod 60), (instant t mod Second / 1000000).
  assert (0 <= year < 10000) as Hyear.
  { apply (civil_year_range _ _ _ _ 0 10000) in Hc; [done|]. revert Hrange. unfold four_digit_year. fold sec.
    set (a := days_from_civil 0 1 1). set (b := days_from_civil 10000 1 1). clearbody a b sec.
    intros Hsec. split; [apply Z.div_le_lower_bound; lia|apply Z.div_lt_upper_bound; lia]. }
  pose proof (civil_from_days_in_month _ _ _ _ Hc) as [Hday H31].
  split.
  - unfold FormatMillis, format_seconds. cbv zeta. fold sec clock. by rewrite Hc, !string_app_assoc.
  - apply civil_from_days_inverse in Hc as (_ & Hm & _). lia.
  - pose proof (Z.mod_pos_bound sec 86400 ltac:(lia)) as Hclock. fold clock in Hclock.
    unfold Second. Z.to_euclidean_division_equations; lia.
  - apply civil_from_days_inverse in Hc as (-> & _).
    assert (sec = sec / 86400 * 86400 + clock / 3600 * 3600 + clock / 60 mod 60 * 60 + clock mod 60) as Hsec
      by (unfold clock; Z.to_euclidean_division_equations; lia).
    assert (instant t = sec * 1000000000 + instant t mod Second) as Hinstant
      by (unfold sec, Second; Z.to_euclidean_division_equations; lia).
    Z.to_euclidean_division_equations; lia.
Qed.

(** A format of whole milliseconds parses, to those milliseconds. *)
Lemma FormatMillis_parses t :
  four_digit_year t -> ParseRFC3339 (FormatMillis t) = Some (instant t / 1000000 * 1000000).
Proof.
  intros (year & month & day & hour & minute & second & millis & [Hformat Hdate Hclock Hinstant])%FormatMillis_fields.
  rewrite Hformat, Hinstant. unfold ParseRFC3339, parse_instant, take_clock, take_hour.
  repeat first [rewrite take_padded by lia | rewrite expect_app].
  rewrite take_millis by lia. change (take_offset "Z") with (Some 0). unfold instant_of.
  cbn [clock_hour clock_minute clock_second clock_nanos]. repeat (rewrite (proj2 (Z.ltb_ge _ _)) by lia).
  cbn [orb]. f_equal. lia.
Qed.

Lemma take_digits_length n acc s z : take_digits n acc s = Some (z, "") -> String.length s = n.
Proof.
  revert acc s. induction n as [|n IH]; intros acc s; cbn; [by intros [= _ ->]|].
  destruct s as [|c s]; [done|]. destruct (is_digit c); [|done]. intros Ht%IH. cbn. by rewrite Ht.
Qed.
Lemma length_padded n z : (1 <= n <= 4)%nat -> 0 <= z < 10 ^ Z.of_nat n -> String.length (padded_int n z) = n.
Proof.
  intros Hn Hz. pose proof (take_padded n z "" Hn Hz) as Ht. rewrite string_app_nil in Ht. by eapply take_digits_length.
Qed.

Lemma FormatMillis_length t : four_digit_year t -> String.length (FormatMillis t) = 24%nat.
Proof.
  intros (year & month & day & hour & minute & second & millis & [Hformat Hdate Hclock _])%FormatMillis_fields.
  rewrite Hformat, !length_append. rewrite !length_padded by lia. done.
Qed.

(** The format says nothing below the millisecond. *)
Lemma FormatMillis_same t u : instant t / 1000000 = instant u / 1000000 -> FormatMillis t = FormatMillis u.
Proof.
  intros Heq. unfold FormatMillis, format_seconds.
  replace (instant t / Second) with (instant u / Second) by (unfold Second; Z.to_euclidean_division_equations; lia).
  replace (instant t mod Second / 1000000) with (instant u mod Second / 1000000)
    by (unfold Second; Z.to_euclidean_division_equations; lia).
  done.
Qed.
