(* ===== verification/ProviderRegistry.v ===== *)
(** * provider.go: the registry of payment providers

    Providers are built on first use by factories the application gives, once
    however many callers ask at a time.  What the registry's mutex guards is a
    [Registry]; each critical section is one atomic call of a program. *)

From S2P Require Export AutoRecharge Effects.
Local Open Scope Z_scope.
Local Open Scope go_scope.

(** [ProviderEnvironment.Validate] *)
Definition ProviderEnvironmentLive := "live".
Definition ProviderEnvironmentTest := "test".
Definition ProviderEnvironmentSandbox := "sandbox".

Definition Validate (e : string) : result unit :=
  if (e =? ProviderEnvironmentLive) || (e =? ProviderEnvironmentTest) || (e =? ProviderEnvironmentSandbox)
  then Ok tt
  else Err (ExternalError ("bursar: unsupported provider environment " +:+ Quote e)).

(** What a [PaymentProvider] can be asserted to implement: the interfaces of
    provider.go and commerce_state.go, and those of automatic recharge. *)
Record Provider := {
  Provider_Base : PaymentProvider;
  Provider_ReportsCheckoutStatus : bool;
  Provider_HasPortal : bool;
  Provider_UpdatesPaymentMethod : bool;
  Provider_SetsUpPaymentMethod : bool;
  Provider_CancelsSubscription : bool;
  Provider_ReactivatesSubscription : bool;
  Provider_LinksInvoices : bool;
  Provider_PreviewsPlanChange : bool;
  Provider_ChangesPlan : bool;
  Provider_CancelsScheduledChange : bool;
}.

Definition Name (p : Provider) : string := Provider_Name (Provider_Base p).

(** A [providerLoad]: its [done] channel is closed once it has an outcome.
    Its name is that of the entry it was made for. *)
Record providerLoad := {
  load_name : string;
  load_generation : nat;
  load_outcome : option (result Provider);
}.

(** The registry; a [*providerLoad] is its index in [loads].  [generation]
    counts the calls of [Clear], which are fewer than 2^64. *)
Record Registry := {
  factories : gset string;
  instances : gmap string Provider;
  loading : gmap string nat;
  loads : list providerLoad;
  generation : nat;
}.

(** The loop of [NewProviderRegistry] over the factories; the value of an
    entry is whether its factory is set. *)
Fixpoint clone_factories (cloned : gset string) (entries : list (string * bool)) : result (gset string) :=
  match entries with
  | [] => Ok cloned
  | (name, isSet) :: rest =>
      let name := TrimSpace name in
      if (name =? "") || negb isSet
      then Err (ExternalError "bursar: provider names and factories are required")
      else if decide (name ∈ cloned) then Err (ExternalError ("bursar: duplicate provider " +:+ Quote name))
      else clone_factories ({[ name ]} ∪ cloned) rest
  end.

Definition new_registry (names : gset string) : Registry :=
  {| factories := names; instances := ∅; loading := ∅; loads := []; generation := 0 |}.

Definition NewProviderRegistry `{RangeOrder} (environment : string) (given : gmap string bool) : result Registry :=
  Validate environment ;;;
  if decide (given = ∅) then Err (ExternalError "bursar: at least one payment provider is required")
  else
    cloned <- clone_factories ∅ (range given) ;;
    Ok (new_registry cloned).

(** What the first critical section of [Get] finds. *)
Inductive found :=
  | Cached (p : Provider)
  | Pending (load : nat)
  | Missing
  | Begun (load : nat).

Definition lookup_step (r : Registry) (name : string) : found * Registry :=
  match instances r !! name with
  | Some provider => (Cached provider, r)
  | None =>
      match loading r !! name with
      | Some load => (Pending load, r)
      | None =>
          if decide (name ∈ factories r) then
            let load := length (loads r) in
            (Begun load,
             {| factories := factories r; instances := instances r; loading := <[name := load]> (loading r);
                loads := loads r ++ [{| load_name := name; load_generation := generation r; load_outcome := None |}];
                generation := generation r |})
          else (Missing, r)
      end
  end.

(** The second critical section of [Get]. *)
Definition finish_step (r : Registry) (name : string) (load : nat) (outcome : result Provider) : Registry :=
  {| factories := factories r;
     instances :=
       match outcome, loads r !! load with
       | Ok provider, Some l =>
           if decide (load_generation l = generation r) then <[name := provider]> (instances r) else instances r
       | _, _ => instances r
       end;
     loading := if decide (loading r !! name = Some load) then delete name (loading r) else loading r;
     loads := alter (fun l => {| load_name := load_name l; load_generation := load_generation l;
                                 load_outcome := Some outcome |}) load (loads r);
     generation := generation r |}.

Definition clear_step (r : Registry) : Registry :=
  {| factories := factories r; instances := ∅; loading := ∅; loads := loads r; generation := S (generation r) |}.

(** What a factory does: it returns, a provider that may be nil, or panics. *)
Inductive factory_outcome :=
  | Built (r : result (option Provider))
  | FactoryPanicked (text : string).

(** The calls of the registry's methods: the critical sections, the wait for
    a load of a provider, and the factory run for a load. *)
Inductive registry_call :=
  | LookupProvider (name : string)
  | AwaitLoad (name : string) (load : nat)
  | RunFactory (name : string) (load : nat)
  | FinishLoad (name : string) (load : nat) (outcome : result Provider)
  | ClearSection
  | ConfiguredNames.

Definition registry_answer (c : registry_call) : Type :=
  match c with
  | LookupProvider _ => found
  | AwaitLoad _ _ => result Provider
  | RunFactory _ _ => factory_outcome
  | FinishLoad _ _ _ | ClearSection => unit
  | ConfiguredNames => list string
  end.

Notation rprog := (prog registry_answer).

(** What a factory's answer is worth. *)
Definition built (name : string) (answer : result (option Provider)) : result Provider :=
  match answer with
  | Ok None => Err (ExternalError ("bursar: provider factory " +:+ Quote name +:+ " returned nil"))
  | Ok (Some provider) =>
      if negb (TrimSpace (Name provider) =? name)
      then Err (ExternalError ("bursar: provider factory " +:+ Quote name +:+ " returned provider "
                               +:+ Quote (Name provider)))
      else Ok provider
  | Err err => Err err
  end.

(** [Get] after its first critical section. *)
Definition after_lookup (name : string) (f : found) : rprog Provider :=
  match f with
  | Cached provider => ret provider
  | Pending load => Do (AwaitLoad name load) Done
  | Missing => raise (ExternalError ("bursar: provider " +:+ Quote name +:+ " is not configured"))
  | Begun load =>
      Do (RunFactory name load) (fun answer =>
        match answer with
        | FactoryPanicked text => raise (GoPanic text)
        | Built answer => Do (FinishLoad name load (built name answer)) (fun _ => Done (built name answer))
        end)
  end.

(** [hasRegistry]: the receiver is not nil. *)
Definition Get (hasRegistry : bool) (name : string) : rprog Provider :=
  if negb hasRegistry then raise (ExternalError "bursar: provider registry is not configured")
  else
    let name := TrimSpace name in
    if name =? "" then raise (ExternalError "bursar: provider name is required")
    else Do (LookupProvider name) (after_lookup name).

Definition Clear (hasRegistry : bool) : rprog unit :=
  if hasRegistry then Do ClearSection (fun _ => ret tt) else ret tt.

(** The names in their order; the section answers them in any. *)
Definition Configured (hasRegistry : bool) : rprog (list string) :=
  if hasRegistry then Do ConfiguredNames (fun names => ret (sort_strings names)) else ret [].

(** The names [Select] allows. *)
Definition allowed_names (compatible : list string) : gset string :=
  list_to_set (filter (fun name => name <> "") (TrimSpace <$> compatible)).

Definition Select (hasRegistry : bool) (requested fallback : string) (compatible : list string) : rprog Provider :=
  let names := allowed_names compatible in
  if decide (names = ∅) then raise (ExternalError "bursar: no compatible payment provider is configured")
  else
    match filter (fun name => name <> "") (TrimSpace <$> [requested; fallback]) with
    | candidate :: _ =>
        if decide (candidate ∈ names) then Get hasRegistry candidate
        else raise (ExternalError ("bursar: provider " +:+ Quote candidate +:+ " is not compatible with this offer"))
    | [] =>
        match elements names with
        | [name] => Get hasRegistry name
        | _ => raise (ExternalError "bursar: provider selection is ambiguous")
        end
    end.

(** ** The registry under its mutex *)

(** A critical section acts on the registry.  A wait ends when the load has
    its outcome, or with the error of the caller's context; a factory answers
    as it likes. *)
Definition registry_reacts (r : Registry) (c : registry_call) (x : registry_answer c) (r' : Registry) : Prop :=
  match c, x with
  | LookupProvider name, x => (x, r') = lookup_step r name
  | AwaitLoad _ load, x =>
      r' = r /\ ((exists l, loads r !! load = Some l /\ load_outcome l = Some x) \/ exists err, x = Err err)
  | RunFactory _ _, _ => r' = r
  | FinishLoad name load outcome, _ => r' = finish_step r name load outcome
  | ClearSection, _ => r' = clear_step r
  | ConfiguredNames, x => r' = r /\ x ≡ₚ elements (factories r)
  end.
