(* ===== verification/ProviderRegistryFacts.v ===== *)
(** * The provider registry initializes a provider once *)

From S2P Require Export ProviderRegistry Protocols.
Local Open Scope Z_scope.
Local Open Scope go_scope.

(** ** A goroutine's part in the loads

    A goroutine holds no load, waits for one, or owns one: it began it and
    has to finish it. *)
Inductive part := Idle | Waits (name : string) (load : nat) | Owns (name : string) (load : nat).

Definition named (name : string) (p : Provider) : Prop := TrimSpace (Name p) = name.

Definition outcome_named (name : string) (outcome : result Provider) : Prop :=
  forall p, outcome = Ok p -> named name p.

(** The part a call's answer leaves the caller with, where the registry
    gives that answer. *)
Definition next_part (c : registry_call) : registry_answer c -> part :=
  match c with
  | LookupProvider name => fun x => match x with
                            | Pending load => Waits name load
                            | Begun load => Owns name load
                            | _ => Idle
                            end
  | RunFactory name load => fun _ => Owns name load
  | _ => fun _ => Idle
  end.

(** The part a call needs. *)
Definition needs (c : registry_call) : part :=
  match c with
  | AwaitLoad name load => Waits name load
  | RunFactory name load | FinishLoad name load _ => Owns name load
  | _ => Idle
  end.

(** What a caller may rely on, and what it owes, beyond its part. *)
Definition reliable (c : registry_call) : registry_answer c -> Prop :=
  match c with
  | LookupProvider name => fun x => match x with Cached p => named name p | _ => True end
  | AwaitLoad name _ => fun x => outcome_named name x
  | _ => fun _ => True
  end.

Definition owed (c : registry_call) : Prop :=
  match c with FinishLoad name _ outcome => outcome_named name outcome | _ => True end.

(** A program plays its parts, and returns what [Q] allows.  An owner may
    only end by a panic. *)
Fixpoint plays {A} (Q : result A -> Prop) (o : part) (p : rprog A) : Prop :=
  match p with
  | Done r => Q r /\ (o = Idle \/ exists text, r = Err (GoPanic text))
  | Do c k => o = needs c /\ owed c /\ forall x, reliable c x -> plays Q (next_part c x) (k x)
  end.

Lemma plays_Get hasRegistry name :
  plays (outcome_named (TrimSpace name)) Idle (Get hasRegistry name).
Proof.
  unfold Get. destruct hasRegistry; cbn [negb]; [|split; [intros p [=]|by left]].
  destruct (TrimSpace name =? ""); [split; [intros p [=]|by left]|].
  split_and!; [done|done|]. intros [p|load| |load] Hx; cbn.
  - split; [intros ? [= <-]; exact Hx|by left].
  - split_and!; [done|done|]. intros x Hx'. split; [exact Hx'|by left].
  - split; [intros p [=]|by left].
  - split_and!; [done|done|]. intros [answer|text] _; cbn.
    + assert (outcome_named (TrimSpace name) (built (TrimSpace name) answer)) as Hb.
      { intros p. unfold built. destruct answer as [[q|]|]; [|done..].
        destruct (String.eqb_spec (TrimSpace (Name q)) (TrimSpace name)) as [He|]; cbn; [|done].
        intros [= <-]. exact He. }
      split_and!; [done|done|]. intros [] _. split; [exact Hb|by left].
    + split; [intros p [=]|right; by exists text].
Qed.

Lemma plays_mono {A} (Q Q' : result A -> Prop) o p : (forall r, Q r -> Q' r) -> plays Q o p -> plays Q' o p.
Proof.
  intros Hq. revert o. induction p as [r|c k IH]; intros o; cbn.
  - intros [Hr Ho]. split; [by apply Hq|done].
  - intros (Ho & Hc & Hk). split_and!; [done|done|]. intros x Hx. by apply IH, Hk.
Qed.

(** [Select] gets a provider of one of the names it allows. *)
Lemma plays_Select hasRegistry requested fallback compatible :
  plays (fun r => forall p, r = Ok p -> TrimSpace (Name p) ∈ allowed_names compatible) Idle
    (Select hasRegistry requested fallback compatible).
Proof.
  unfold Select. destruct (decide (allowed_names compatible = ∅)); [split; [done|by left]|].
  assert (forall name, TrimSpace name ∈ allowed_names compatible ->
    plays (fun r => forall p, r = Ok p -> TrimSpace (Name p) ∈ allowed_names compatible) Idle (Get hasRegistry name)) as Hget.
  { intros name Hin. eapply plays_mono; [|apply plays_Get]. intros r Hr p Hp. by rewrite (Hr p Hp). }
  assert (forall name, name ∈ allowed_names compatible -> TrimSpace name = name) as Htrim.
  { intros name. unfold allowed_names. rewrite elem_of_list_to_set, list_elem_of_filter, list_elem_of_fmap.
    intros [_ (raw & -> & _)]. apply TrimSpace_idem. }
  destruct (filter _ _) as [|candidate rest].
  - destruct (elements (allowed_names compatible)) as [|name [|]] eqn:He; [split; [done|by left]| |split; [done|by left]].
    assert (name ∈ allowed_names compatible) as Hin by (apply elem_of_elements; rewrite He; by left).
    apply Hget. by rewrite Htrim.
  - destruct (decide (candidate ∈ allowed_names compatible)) as [Hin|]; [|split; [done|by left]].
    apply Hget. by rewrite Htrim.
Qed.

(** ** The registry's own invariant *)

Definition failed (l : providerLoad) : Prop := exists err, load_outcome l = Some (Err err).

Record registry_ok (r : Registry) : Prop := {
  ok_loading : forall name i, loading r !! name = Some i ->
    exists l, loads r !! i = Some l /\ load_name l = name /\ load_generation l = generation r /\ load_outcome l = None;
  ok_instances : forall name p, instances r !! name = Some p ->
    named name p /\ loading r !! name = None /\
    exists i l, loads r !! i = Some l /\ load_name l = name /\ load_generation l = generation r /\
                load_outcome l = Some (Ok p);
  ok_loads : forall i l, loads r !! i = Some l ->
    (load_generation l <= generation r)%nat /\
    (forall p, load_outcome l = Some (Ok p) -> named (load_name l) p) /\
    (load_generation l = generation r -> ~ failed l ->
     loading r !! load_name l = Some i \/ is_Some (instances r !! load_name l));
  ok_once : forall i j l m, loads r !! i = Some l -> loads r !! j = Some m ->
    load_name l = load_name m -> load_generation l = load_generation m -> ~ failed l -> ~ failed m -> i = j;
}.

Lemma new_registry_ok names : registry_ok (new_registry names).
Proof. split; cbn; set_solver. Qed.

Lemma clear_step_ok r : registry_ok r -> registry_ok (clear_step r).
Proof.
  intros [Hl Hi Ho Hu]. split; cbn; [set_solver|set_solver| |exact Hu].
  intros i l Hil. destruct (Ho i l Hil) as (Hg & Hn & _). split_and!; [lia|done|]. lia.
Qed.

Definition begin_load (r : Registry) (name : string) : Registry :=
  {| factories := factories r; instances := instances r; loading := <[name := length (loads r)]> (loading r);
     loads := loads r ++ [{| load_name := name; load_generation := generation r; load_outcome := None |}];
     generation := generation r |}.

Lemma begin_load_ok r name :
  registry_ok r -> instances r !! name = None -> loading r !! name = None -> registry_ok (begin_load r name).
Proof.
  intros [Hl Hi Ho Hu] Hni Hnl. unfold begin_load. split; cbn.
  - intros n i. destruct (decide (n = name)) as [->|Hne].
    + rewrite lookup_insert_eq. intros [= <-]. eexists. by rewrite list_lookup_middle.
    + rewrite lookup_insert_ne by done. intros (l & Hil & Hrest)%Hl. exists l.
      by rewrite lookup_app_l by (by eapply lookup_lt_Some).
  - intros n p Hp. destruct (Hi n p Hp) as (Hn & Hnl' & i & l & Hil & Hrest).
    assert (n <> name) as Hne by (intros ->; congruence). rewrite lookup_insert_ne by done. split_and!; [done..|].
    exists i, l. by rewrite lookup_app_l by (by eapply lookup_lt_Some).
  - intros i l [Hil|[Hlen [Hi0 <-]%list_lookup_singleton_Some]]%lookup_app_Some; cbn.
    + destruct (Ho i l Hil) as (Hg & Hn & Hc). split_and!; [done|done|]. intros Hgen Hf.
      destruct (Hc Hgen Hf) as [Hload|Hin]; [left|by right].
      rewrite lookup_insert_ne by congruence. done.
    + split_and!; [done|done|]. intros _ _. left. rewrite lookup_insert_eq. f_equal. lia.
  - intros i j l m [Hil|[Hlen Hl1]]%lookup_app_Some [Hjm|[Hlen' Hm1]]%lookup_app_Some.
    + by eapply Hu.
    + apply list_lookup_singleton_Some in Hm1 as [Hj <-]. cbn. intros Hname Hgen Hf _.
      destruct (Ho i l Hil) as (_ & _ & Hc). destruct (Hc Hgen Hf) as [Hx|[p Hx]]; rewrite Hname in Hx; congruence.
    + apply list_lookup_singleton_Some in Hl1 as [Hi' <-]. cbn. intros Hname Hgen _ Hf.
      destruct (Ho j m Hjm) as (_ & _ & Hc). destruct (Hc (eq_sym Hgen) Hf) as [Hx|[p Hx]]; rewrite <- Hname in Hx; congruence.
    + apply list_lookup_singleton_Some in Hl1 as [? <-]. apply list_lookup_singleton_Some in Hm1 as [? <-]. lia.
Qed.

(** ** Finishing a load *)
Section finish.
Context (r : Registry) (name : string) (i : nat) (l : providerLoad) (outcome : result Provider).
Hypothesis ok : registry_ok r.
Hypothesis at_i : loads r !! i = Some l.
Hypothesis name_l : load_name l = name.
Hypothesis flying : load_outcome l = None.
Hypothesis is_named : outcome_named name outcome.

Definition finished_load : providerLoad :=
  {| load_name := load_name l; load_generation := load_generation l; load_outcome := Some outcome |}.

Lemma finished_lookup j m :
  loads (finish_step r name i outcome) !! j = Some m <->
  (j = i /\ m = finished_load) \/ (j <> i /\ loads r !! j = Some m).
Proof using at_i.
  cbn. destruct (decide (j = i)) as [->|Hne].
  - rewrite list_lookup_alter_eq, at_i. cbn. split; [intros [= <-]; by left|]. intros [[_ ->]|[]]; done.
  - rewrite list_lookup_alter_ne by done. split; [by right|]. by intros [[]|[_ H]].
Qed.

(** Of the current generation, the load is the one in flight for its name. *)
Lemma current_loading :
  load_generation l = generation r -> loading r !! name = Some i /\ instances r !! name = None.
Proof using ok at_i name_l flying.
  intros Hgen. destruct (ok_loads _ ok i l at_i) as (_ & _ & Hc).
  assert (~ failed l) as Hf by (intros [err He]; congruence).
  assert (instances r !! name = None) as Hn.
  { destruct (instances r !! name) as [p|] eqn:Hp; [|done].
    destruct (ok_instances _ ok name p Hp) as (_ & _ & j & m & Hj & Hm & Hg & Hout).
    assert (j = i) as ->; [|congruence].
    eapply (ok_once _ ok); [exact Hj|exact at_i|congruence|congruence| |exact Hf]. intros [err He]. congruence. }
  destruct (Hc Hgen Hf) as [Hload|[p Hp]]; rewrite name_l in *; [done|congruence].
Qed.

Lemma stale_loading n : load_generation l <> generation r -> loading r !! n <> Some i.
Proof using ok at_i.
  intros Hgen Hn. destruct (ok_loading _ ok n i Hn) as (m & Hm & _ & Hg & _). congruence.
Qed.

Lemma finish_current_ok : load_generation l = generation r -> registry_ok (finish_step r name i outcome).
Proof using ok at_i name_l flying is_named.
  intros Hgen. destruct (current_loading Hgen) as [Hload Hinst].
  assert (loading (finish_step r name i outcome) = delete name (loading r)) as Hloading by (cbn; by rewrite decide_True).
  assert (instances (finish_step r name i outcome) =
    match outcome with Ok p => <[name := p]> (instances r) | Err _ => instances r end) as Hinstances.
  { cbn. rewrite at_i. destruct outcome; [by rewrite decide_True|done]. }
  split; intros *; rewrite ?Hloading, ?Hinstances; setoid_rewrite finished_lookup.
  - intros [Hne Hn]%lookup_delete_Some. destruct (ok_loading _ ok _ _ Hn) as (m & Hm & Hname & Hrest).
    exists m. split; [|done]. right. split; [congruence|done].
  - intros Hp. assert (name0 <> name /\ instances r !! name0 = Some p \/ name0 = name /\ outcome = Ok p) as [[Hne Hp']|[-> Hout]].
    { destruct outcome as [q|]; [|left; split; [congruence|done]].
      apply lookup_insert_Some in Hp as [[<- <-]|[Hne Hp]]; [by right|by left]. }
    + destruct (ok_instances _ ok _ _ Hp') as (Hn & Hnl & j & m & Hj & Hname & Hrest).
      split_and!; [done|by rewrite lookup_delete_ne|]. exists j, m. split; [right; split; [congruence|done]|done].
    + split_and!; [by apply is_named|by apply lookup_delete_eq|]. exists i, finished_load.
      split_and!; [by left|done|done|]. cbn. by rewrite Hout.
  - intros [[-> ->]|[Hne Hj]]; cbn.
    + split_and!; [lia|intros p [= ->]; rewrite name_l; by apply is_named|]. intros _ Hf. right. rewrite name_l.
      destruct outcome as [p|err] eqn:Hout; [rewrite lookup_insert_eq; done|]. destruct Hf. exists err. cbn. by rewrite Hout.
    + destruct (ok_loads _ ok _ _ Hj) as (Hg & Hn & Hc). split_and!; [done|done|]. intros Hgen' Hf.
      assert (load_name l0 <> name) as Hname.
      { intros Hname. destruct (Hc Hgen' Hf) as [Hx|[p Hx]]; rewrite Hname in Hx; congruence. }
      destruct (Hc Hgen' Hf) as [Hx|Hx]; [left; by rewrite lookup_delete_ne|right].
      destruct outcome; [by rewrite lookup_insert_ne|done].
  - assert (~ failed finished_load -> ~ failed l) as Hf by (intros _ [err He]; congruence).
    intros [[-> ->]|[Hne Hi]] [[-> ->]|[Hne' Hj]]; cbn; intros Hname Hg Hfl Hfm; [done|..];
      (eapply (ok_once _ ok); [eassumption..| | | |]; auto).
Qed.

Lemma finish_stale_ok : load_generation l <> generation r -> registry_ok (finish_step r name i outcome).
Proof using ok at_i name_l flying is_named.
  intros Hgen.
  assert (loading (finish_step r name i outcome) = loading r) as Hloading.
  { cbn. by rewrite decide_False by (by apply stale_loading). }
  assert (instances (finish_step r name i outcome) = instances r) as Hinstances.
  { cbn. rewrite at_i. destruct outcome; [by rewrite decide_False|done]. }
  split; intros *; rewrite ?Hloading, ?Hinstances; setoid_rewrite finished_lookup.
  - intros Hn. destruct (ok_loading _ ok _ _ Hn) as (m & Hm & Hrest). exists m. split; [|done]. right.
    split; [intros ->; by apply (stale_loading name0)|done].
  - intros Hp. destruct (ok_instances _ ok _ _ Hp) as (Hn & Hnl & j & m & Hj & Hname & Hg & Hout).
    split_and!; [done|done|]. exists j, m. split; [right; split; [congruence|done]|done].
  - intros [[-> ->]|[Hne Hj]]; cbn; [|by apply (ok_loads _ ok)].
    destruct (ok_loads _ ok _ _ at_i) as (Hg & _). split_and!; [done| |done].
    intros p [= ->]. rewrite name_l. by apply is_named.
  - assert (~ failed finished_load -> ~ failed l) as Hf by (intros _ [err He]; congruence).
    intros [[-> ->]|[Hne Hi]] [[-> ->]|[Hne' Hj]]; cbn; intros Hname Hg Hfl Hfm; [done|..];
      (eapply (ok_once _ ok); [eassumption..| | | |]; auto).
Qed.

Lemma finish_step_ok : registry_ok (finish_step r name i outcome).
Proof using ok at_i name_l flying is_named.
  destruct (decide (load_generation l = generation r)); [by apply finish_current_ok|by apply finish_stale_ok].
Qed.
End finish.

(** ** One call against the registry *)

Definition in_flight (r : Registry) (i : nat) : Prop :=
  exists l, loads r !! i = Some l /\ load_outcome l = None.

(** What a part says of the registry. *)
Definition part_ok (r : Registry) (o : part) : Prop :=
  match o with
  | Idle => True
  | Waits name i => exists l, loads r !! i = Some l /\ load_name l = name
  | Owns name i => exists l, loads r !! i = Some l /\ load_name l = name /\ load_outcome l = None
  end.

Definition held (o : part) : option nat := match o with Owns _ i => Some i | _ => None end.

Lemma held_flying r o i : part_ok r o -> held o = Some i -> in_flight r i.
Proof. destruct o; cbn; [done..|]. intros (l & Hl & _ & Ho) [= <-]. by exists l. Qed.

(** The step keeps the invariant and gives a reliable answer; only the load a
    caller finishes ends, and only a load it begins is new. *)
Record good_step (r : Registry) (c : registry_call) (x : registry_answer c) (r' : Registry) : Prop := {
  step_ok : registry_ok r';
  step_reliable : reliable c x;
  step_part : part_ok r' (next_part c x);
  step_frame : forall o, part_ok r o -> held o = None \/ held o <> held (needs c) -> part_ok r' o;
  step_new : forall i, held (next_part c x) = Some i -> held (needs c) = Some i \/ ~ in_flight r i;
  step_flying : forall i, in_flight r' i -> held (next_part c x) = Some i \/ in_flight r i /\ held (needs c) <> Some i;
}.

(** A call that leaves the registry alone and begins nothing. *)
Lemma still_step r c x :
  registry_ok r -> reliable c x -> part_ok r (next_part c x) -> held (next_part c x) = held (needs c) ->
  good_step r c x r.
Proof.
  intros Hr Hx Hp Hh. split; [done|done|done|done| |].
  - intros i Hi. left. congruence.
  - intros i Hi. destruct (decide (held (needs c) = Some i)) as [He|]; [left; congruence|by right].
Qed.

Lemma begin_load_step r name :
  registry_ok r -> instances r !! name = None -> loading r !! name = None ->
  good_step r (LookupProvider name) (Begun (length (loads r))) (begin_load r name).
Proof.
  intros Hr Hi Hl. assert (forall i l, loads r !! i = Some l -> loads (begin_load r name) !! i = Some l) as Hkeep.
  { intros i l Hil. unfold begin_load. cbn. by rewrite lookup_app_l by (by eapply lookup_lt_Some). }
  split; cbn [next_part needs held reliable].
  - by apply begin_load_ok.
  - done.
  - eexists. unfold begin_load. cbn. by rewrite list_lookup_middle.
  - intros [|n i|n i] Ho _; [done|..]; destruct Ho as (l & Hil & Hrest); exists l; split; auto.
  - intros i [= <-]. right. intros (l & Hil & _). apply lookup_lt_Some in Hil. lia.
  - intros i (l & [Hil|[Hlen [Hi0 _]%list_lookup_singleton_Some]]%lookup_app_Some & Ho).
    + right. split; [by exists l|done].
    + left. f_equal. lia.
Qed.

Lemma finish_load_step r name i outcome x :
  registry_ok r -> part_ok r (Owns name i) -> outcome_named name outcome ->
  good_step r (FinishLoad name i outcome) x (finish_step r name i outcome).
Proof.
  intros Hr (l & Hl & Hname & Ho) Hn. pose proof (finished_lookup r name i l outcome Hl) as Hlook.
  split; cbn [next_part needs held reliable].
  - by eapply finish_step_ok.
  - done.
  - done.
  - intros [|n j|n j] Hp Hh; [done|..].
    + destruct Hp as (m & Hm & Hmn). destruct (decide (j = i)) as [->|Hne].
      * exists (finished_load l outcome). rewrite Hlook. split; [by left|]. cbn. congruence.
      * exists m. rewrite Hlook. split; [by right|done].
    + destruct Hp as (m & Hm & Hmn). destruct Hh as [Hh|Hh]; [done|]. exists m. rewrite Hlook. split; [|done].
      right. split; [intros ->; by apply Hh|done].
  - done.
  - intros j (m & Hm & Hout). apply Hlook in Hm as [[-> ->]|[Hne Hm]]; [done|]. right. split; [by exists m|congruence].
Qed.

Lemma reacts_step r c x r' :
  registry_ok r -> part_ok r (needs c) -> owed c -> registry_reacts r c x r' -> good_step r c x r'.
Proof.
  intros Hr Hn Ho Hx. destruct c as [name|name i|name i|name i outcome| |]; cbn in Hx.
  - unfold lookup_step in Hx. destruct (instances r !! name) as [p|] eqn:Hp.
    { injection Hx as -> ->. apply still_step; [done| |done|done]. by destruct (ok_instances _ Hr _ _ Hp) as [? _]. }
    destruct (loading r !! name) as [i|] eqn:Hl.
    { injection Hx as -> ->. apply still_step; [done|done| |done].
      destruct (ok_loading _ Hr _ _ Hl) as (l & ? & ? & _). by exists l. }
    destruct (decide (name ∈ factories r)).
    + injection Hx as -> ->. by apply begin_load_step.
    + injection Hx as -> ->. by apply still_step.
  - destruct Hx as [-> Hx]. apply still_step; [done| |done|done].
    destruct Hx as [(l & Hl & Hout)|[err ->]]; [|by intros p [=]]. intros p ->.
    destruct Hn as (m & Hm & <-). assert (m = l) as -> by congruence. destruct (ok_loads _ Hr _ _ Hl) as (_ & Hok & _). by apply Hok.
  - subst r'. by apply still_step.
  - subst r'. by apply finish_load_step.
  - subst r'. assert (loads (clear_step r) = loads r) as Hl by done.
    split; cbn [next_part needs held reliable]; [by apply clear_step_ok|done|done| |done|].
    + intros [|n i|n i]; cbn; auto.
    + intros i Hi. right. split; [exact Hi|done].
  - destruct Hx as [-> _]. by apply still_step.
Qed.

(** ** Any number of callers *)

Inductive registry_entry : forall A : Type, rprog A -> Prop :=
  | entry_Get name : registry_entry Provider (Get true name)
  | entry_Select requested fallback compatible : registry_entry Provider (Select true requested fallback compatible)
  | entry_Clear : registry_entry unit (Clear true)
  | entry_Configured : registry_entry (list string) (Configured true).

Lemma entry_plays A (p : rprog A) : registry_entry A p -> exists Q, plays Q Idle p.
Proof.
  intros [name|requested fallback compatible| |].
  - eexists. apply plays_Get.
  - eexists. apply plays_Select.
  - exists (fun _ => True). cbn. split_and!; [done|done|]. intros _ _. split; [done|by left].
  - exists (fun _ => True). cbn. split_and!; [done|done|]. intros names _. split; [done|by left].
Qed.

Definition registry_reachable (names : gset string) (r : Registry) (gs : list (goroutine registry_answer)) : Prop :=
  rtc (advance registry_entry registry_reacts) (new_registry names, []) (r, gs).

(** A goroutine plays the part it has. *)
Definition has_part (r : Registry) (g : goroutine registry_answer) (o : part) : Prop :=
  registry_entry (returns g) (start g) /\ part_ok r o /\
  forall Q, plays Q Idle (start g) -> plays Q o (left_over g).

Record system_ok (r : Registry) (gs : list (goroutine registry_answer)) (parts : list part) : Prop := {
  system_registry : registry_ok r;
  system_parts : Forall2 (has_part r) gs parts;
  system_distinct : forall k k' o o' i,
    parts !! k = Some o -> parts !! k' = Some o' -> held o = Some i -> held o' = Some i -> k = k';
  system_flying : forall i, in_flight r i -> exists k o, parts !! k = Some o /\ held o = Some i;
}.

Lemma system_go r gs parts A (p : rprog A) :
  registry_entry A p -> system_ok r gs parts ->
  system_ok r (gs ++ [{| returns := A; start := p; made := []; left_over := p |}]) (parts ++ [Idle]).
Proof.
  intros Hp [Hr Hf Hd Hfly]. split; [done| | |].
  - apply Forall2_app; [done|]. constructor; [|constructor]. by split_and!.
  - intros k k' o o' i [Hk|[_ [_ <-]%list_lookup_singleton_Some]]%lookup_app_Some
      [Hk'|[_ [_ <-]%list_lookup_singleton_Some]]%lookup_app_Some Ho Ho'; [by eapply Hd|done..].
  - intros i (k & o & Hk & Ho)%Hfly. exists k, o. by rewrite lookup_app_l by (by eapply lookup_lt_Some).
Qed.

Lemma system_call r gs parts a g c x g' r' :
  gs !! a = Some g -> calling g c x g' -> registry_reacts r c x r' -> system_ok r gs parts ->
  exists parts', system_ok r' (<[a := g']> gs) parts'.
Proof.
  intros Ha (k & Hleft & ->) Hx [Hr Hf Hd Hfly].
  destruct (Forall2_lookup_l _ _ _ _ _ Hf Ha) as (o & Ho & Hentry & Hpart & Hplays).
  destruct (entry_plays _ _ Hentry) as [Q0 HQ0]. pose proof (Hplays _ HQ0) as H0. rewrite Hleft in H0.
  destruct H0 as (-> & Howed & _).
  destruct (reacts_step _ _ _ _ Hr Hpart Howed Hx) as [Hok Hrel Hnext Hframe Hnew Hflying].
  exists (<[a := next_part c x]> parts). split; [done| | |].
  - assert (a < length parts)%nat as Hlt by (by eapply lookup_lt_Some).
    assert (length gs = length parts) as Hlen by (by eapply Forall2_length).
    apply Forall2_same_length_lookup. split; [by rewrite !length_insert|]. intros b h o' Hb Hb'.
    apply list_lookup_insert_Some in Hb as [(<- & <- & _)|[Hne Hb]].
    + rewrite list_lookup_insert_eq in Hb' by lia. injection Hb' as <-. split_and!; [done|done|].
      intros Q HQ. pose proof (Hplays Q HQ) as Hq. rewrite Hleft in Hq. destruct Hq as (_ & _ & Hk). by apply Hk.
    + rewrite list_lookup_insert_ne in Hb' by done. destruct (Forall2_lookup_lr _ _ _ _ _ _ Hf Hb Hb') as (He & Hp & Hpl).
      split_and!; [done| |done]. apply Hframe; [done|].
      destruct (held o') as [i|] eqn:Hh; [right|by left]. intros Heq. apply Hne. by eapply (Hd _ _ _ _ i).
  - intros b b' o1 o2 i [(<- & <- & _)|[Hne Hb]]%list_lookup_insert_Some
      [(<- & <- & _)|[Hne' Hb']]%list_lookup_insert_Some Ho1 Ho2; [done| | |by eapply Hd].
    + destruct (Hnew i Ho1) as [Hi|Hi]; [by eapply (Hd _ _ _ _ i)|]. destruct Hi.
      destruct (Forall2_lookup_r _ _ _ _ _ Hf Hb') as (h & _ & _ & Hp & _). by eapply held_flying.
    + destruct (Hnew i Ho2) as [Hi|Hi]; [by eapply (Hd _ _ _ _ i)|]. destruct Hi.
      destruct (Forall2_lookup_r _ _ _ _ _ Hf Hb) as (h & _ & _ & Hp & _). by eapply held_flying.
  - intros i [Hi|[Hi Hne]]%Hflying.
    + exists a, (next_part c x). split; [|done]. apply list_lookup_insert_eq. by eapply lookup_lt_Some.
    + destruct (Hfly i Hi) as (b & o' & Hb & Hh). exists b, o'. split; [|done].
      rewrite list_lookup_insert_ne; [done|]. intros <-. congruence.
Qed.

Lemma system_reachable names r gs : registry_reachable names r gs -> exists parts, system_ok r gs parts.
Proof.
  unfold registry_reachable. remember (new_registry names, []) as st eqn:Hst. remember (r, gs) as st' eqn:Hst'.
  intros Hrtc. assert (exists parts, system_ok st.1 st.2 parts) as Hinit.
  { subst st. exists []. split; cbn; [apply new_registry_ok|constructor|by intros ? ? ? ? ? ?|].
    intros i (l & Hl & _). set_solver. }
  clear Hst. revert r gs Hst' Hinit. induction Hrtc as [st|st st1 st2 Hstep _ IH]; intros r gs -> Hinit; [done|].
  apply IH; [done|]. destruct Hinit as [parts Hsys].
  destruct Hstep as [s gs0 A p Hentry|s gs0 a g c x g' s' Ha Hcall Hreact].
  - eexists. by apply system_go.
  - by eapply system_call.
Qed.

(** ** What the registry promises *)

(** The load a goroutine's next call works on. *)
Definition working {A} (p : rprog A) : option nat :=
  match p with
  | Do (RunFactory _ i) _ | Do (FinishLoad _ i _) _ => Some i
  | _ => None
  end.

Lemma part_working r g o i :
  has_part r g o ->
  (working (left_over g) = Some i -> held o = Some i) /\
  (held o = Some i -> working (left_over g) = Some i \/ exists text, left_over g = Done (Err (GoPanic text))).
Proof.
  intros (Hentry & _ & Hplays). destruct (entry_plays _ _ Hentry) as [Q HQ]. pose proof (Hplays _ HQ) as H0.
  destruct (left_over g) as [res|c k]; cbn in *.
  - split; [done|]. destruct H0 as [_ [->|[text ->]]]; [done|]. intros _. right. by exists text.
  - destruct H0 as (-> & _). destruct c; cbn; split; auto.
Qed.

(** C33: a payment provider is initialized once.  Whatever goroutines get,
    select, clear and list providers of one registry, their critical sections
    and factory runs interleaved in any order and the factories answering
    anything, of all loads of one name between two Clears at most one has not
    failed: no two are in flight and no second one succeeds.  Two goroutines
    never run a factory for the same load, and a load in flight is being worked
    on by one of them, unless its factory panicked.  What is cached is the
    outcome of a load begun since the last Clear, and what Get and Select return
    goes by the name asked for, or by one of the compatible names. *)
Theorem registry_initializes_once names r gs :
  registry_reachable names r gs ->
  (forall i j l m, loads r !! i = Some l -> loads r !! j = Some m -> load_name l = load_name m ->
     load_generation l = load_generation m -> ~ failed l -> ~ failed m -> i = j) /\
  (forall a b g h i, gs !! a = Some g -> gs !! b = Some h ->
     working (left_over g) = Some i -> working (left_over h) = Some i -> a = b) /\
  (forall i, in_flight r i -> exists g, g ∈ gs /\
     (working (left_over g) = Some i \/ exists text, left_over g = Done (Err (GoPanic text)))) /\
  (forall name p, instances r !! name = Some p -> named name p /\
     exists i l, loads r !! i = Some l /\ load_name l = name /\ load_generation l = generation r /\
                 load_outcome l = Some (Ok p)) /\
  (forall name t p,
     {| returns := Provider; start := Get true name; made := t; left_over := Done (Ok p) |} ∈ gs ->
     named (TrimSpace name) p) /\
  (forall requested fallback compatible t p,
     {| returns := Provider; start := Select true requested fallback compatible; made := t;
        left_over := Done (Ok p) |} ∈ gs ->
     TrimSpace (Name p) ∈ allowed_names compatible).
Proof.
  intros [parts [Hr Hf Hd Hfly]]%system_reachable. repeat apply conj.
  - intros i j l m. by apply (ok_once _ Hr).
  - intros a b g h i Ha Hb Hg Hh.
    destruct (Forall2_lookup_l _ _ _ _ _ Hf Ha) as (o & Ho & Hp), (Forall2_lookup_l _ _ _ _ _ Hf Hb) as (o' & Ho' & Hp').
    eapply Hd; [exact Ho|exact Ho'|by apply (part_working _ _ _ i Hp)|by apply (part_working _ _ _ i Hp')].
  - intros i (k & o & Hk & Ho)%Hfly. destruct (Forall2_lookup_r _ _ _ _ _ Hf Hk) as (g & Hg & Hp).
    exists g. split; [by eapply list_elem_of_lookup_2|by apply (part_working _ _ _ i Hp)].
  - intros name p Hp. destruct (ok_instances _ Hr name p Hp) as (Hn & _ & Hrest). done.
  - intros name t p [k Hk]%list_elem_of_lookup_1. destruct (Forall2_lookup_l _ _ _ _ _ Hf Hk) as (o & _ & _ & _ & Hpl).
    by destruct (Hpl _ (plays_Get true name)) as [Hq _]; apply Hq.
  - intros requested fallback compatible t p [k Hk]%list_elem_of_lookup_1.
    destruct (Forall2_lookup_l _ _ _ _ _ Hf Hk) as (o & _ & _ & _ & Hpl).
    by destruct (Hpl _ (plays_Select true requested fallback compatible)) as [Hq _]; apply Hq.
Qed.

(** ** Sample: two checkouts ask for the same provider at once *)

Definition sample_payment_provider : Provider :=
  {| Provider_Base := {| Provider_Name := "mock"; Provider_ListsPaymentMethods := true; Provider_Previews := true;
                         Provider_Charges := true |};
     Provider_ReportsCheckoutStatus := true; Provider_HasPortal := true; Provider_UpdatesPaymentMethod := true;
     Provider_SetsUpPaymentMethod := true; Provider_CancelsSubscription := true;
     Provider_ReactivatesSubscription := true; Provider_LinksInvoices := true; Provider_PreviewsPlanChange := true;
     Provider_ChangesPlan := true; Provider_CancelsScheduledChange := true |}.

Definition getting (t : list (event registry_answer)) (p : rprog Provider) : goroutine registry_answer :=
  {| returns := Provider; start := Get true " mock "; made := t; left_over := p |}.

(** The first builds the provider; the second waits for it. *)
Definition sample_registry : Registry :=
  {| factories := {[ "mock" ]}; instances := {[ "mock" := sample_payment_provider ]}; loading := ∅;
     loads := [{| load_name := "mock"; load_generation := 0; load_outcome := Some (Ok sample_payment_provider) |}];
     generation := 0 |}.

Definition sample_builder : list (event registry_answer) :=
  [existT (LookupProvider "mock") (Begun 0);
   existT (RunFactory "mock" 0) (Built (Ok (Some sample_payment_provider)));
   existT (FinishLoad "mock" 0 (Ok sample_payment_provider)) tt].

Definition sample_waiter : list (event registry_answer) :=
  [existT (LookupProvider "mock") (Pending 0); existT (AwaitLoad "mock" 0) (Ok sample_payment_provider)].

(** One call of a goroutine that gets a provider. *)
Lemma getting_calls r gs i h c k x r' :
  gs !! i = Some (getting h (Do c k)) -> registry_reacts r c x r' ->
  advance registry_entry registry_reacts (r, gs) (r', <[i := getting (h ++ [existT c x]) (k x)]> gs).
Proof. intros Hi Hx. eapply advance_call; [exact Hi| |exact Hx]. by exists k. Qed.

Lemma sample_registry_reachable :
  registry_reachable {[ "mock" ]} sample_registry
    [getting sample_builder (Done (Ok sample_payment_provider));
     getting sample_waiter (Done (Ok sample_payment_provider))].
Proof.
  unfold registry_reachable.
  eapply rtc_l; [apply (advance_go _ _ _ [] _ _ (entry_Get " mock "))|].
  eapply rtc_l; [apply (advance_go _ _ _ [_] _ _ (entry_Get " mock "))|].
  eapply rtc_l; [eapply (getting_calls _ _ 0 _ (LookupProvider "mock")); reflexivity|].
  eapply rtc_l; [eapply (getting_calls _ _ 1 _ (LookupProvider "mock")); reflexivity|].
  eapply rtc_l; [eapply (getting_calls _ _ 0 _ (RunFactory "mock" 0) _ (Built (Ok (Some sample_payment_provider)))); reflexivity|].
  eapply rtc_l; [eapply (getting_calls _ _ 0 _ (FinishLoad "mock" 0 (Ok sample_payment_provider)) _ tt); reflexivity|].
  eapply rtc_l; [eapply (getting_calls _ _ 1 _ (AwaitLoad "mock" 0) _ (Ok sample_payment_provider));
                 [reflexivity|split; [reflexivity|left; eexists; split; reflexivity]]|].
  reflexivity.
Qed.

(** Both callers got the provider one factory run built. *)
Lemma registry_initializes_once_witness :
  named "mock" sample_payment_provider /\
  exists i l, loads sample_registry !! i = Some l /\ load_name l = "mock" /\
    load_generation l = generation sample_registry /\ load_outcome l = Some (Ok sample_payment_provider).
Proof.
  destruct (registry_initializes_once _ _ _ sample_registry_reachable) as (_ & _ & _ & Hcached & _).
  exact (Hcached "mock" sample_payment_provider eq_refl).
Defined.
