(* ===== verification/CommerceTypes.v ===== *)
(** * commerce_state.go, commerce.go, provider.go: the data of commerce

    The structs as they are declared; a pointer is an option. *)

From S2P Require Export CreditTypes ProviderRegistry.
Local Open Scope Z_scope.

(** ** Accounts, subscriptions, changes and preferences *)

Record BillingCustomerRecord := {
  BillingCustomerRecord_Provider : string;
  BillingCustomerRecord_ProviderCustomerID : string;
  BillingCustomerRecord_AccountID : string;
  BillingCustomerRecord_Email : string;
}.

Record CommerceSubscription {D : Type} := {
  CommerceSubscription_ID : string;
  CommerceSubscription_CatalogRevisionID : string;
  CommerceSubscription_Provider : string;
  CommerceSubscription_ProviderSubscriptionID : string;
  CommerceSubscription_AccountID : string;
  CommerceSubscription_ProviderCustomerID : string;
  CommerceSubscription_OfferID : string;
  CommerceSubscription_OfferKey : string;
  CommerceSubscription_PlanID : string;
  CommerceSubscription_PlanKey : string;
  CommerceSubscription_Status : string;
  CommerceSubscription_Interval : string;
  CommerceSubscription_IntervalCount : Z;
  CommerceSubscription_CurrentPeriodStart : option Time;
  CommerceSubscription_CurrentPeriodEnd : option Time;
  CommerceSubscription_TrialEnd : option Time;
  CommerceSubscription_CancelAt : option Time;
  CommerceSubscription_EndedAt : option Time;
  CommerceSubscription_CancelAtPeriodEnd : bool;
  CommerceSubscription_GraceEndsAt : option Time;
  CommerceSubscription_GraceExpiredAt : option Time;
  CommerceSubscription_ProviderUpdatedAt : Time;
  CommerceSubscription_Metadata : gmap string (any D);
}.
Arguments CommerceSubscription : clear implicits.

(** [BillingGrantResult], of billing_management.go *)
Record BillingGrantResult {D : Type} := {
  BillingGrantResult_Mode : string;
  BillingGrantResult_Credits : D;
  BillingGrantResult_Bucket : string;
  BillingGrantResult_ReplacePrior : bool;
}.
Arguments BillingGrantResult : clear implicits.

Record BillingOffer {D : Type} := {
  BillingOffer_ID : string;
  BillingOffer_Provider : string;
  BillingOffer_OfferKey : string;
  BillingOffer_PlanID : string;
  BillingOffer_PlanKey : string;
  BillingOffer_ProductID : string;
  BillingOffer_PriceID : string;
  BillingOffer_LookupKey : string;
  BillingOffer_Interval : string;
  BillingOffer_IntervalCnt : Z;
  BillingOffer_Grant : option (BillingGrantResult D);
}.
Arguments BillingOffer : clear implicits.

Record BillingSubscriptionChange := {
  BillingSubscriptionChange_ID : string;
  BillingSubscriptionChange_Provider : string;
  BillingSubscriptionChange_SubscriptionID : string;
  BillingSubscriptionChange_ToOfferID : string;
  BillingSubscriptionChange_ToOfferKey : string;
  BillingSubscriptionChange_ToPlanKey : string;
  BillingSubscriptionChange_ToInterval : string;
  BillingSubscriptionChange_Effective : string;
  BillingSubscriptionChange_EffectiveAt : Time;
  BillingSubscriptionChange_ProrationBehavior : string;
  BillingSubscriptionChange_State : string;
  BillingSubscriptionChange_ProviderOperationID : string;
  BillingSubscriptionChange_ErrorMessage : string;
  BillingSubscriptionChange_CreatedAt : Time;
  BillingSubscriptionChange_UpdatedAt : Time;
}.

Record BillingSubscriptionChangeCreate := {
  BillingSubscriptionChangeCreate_Provider : string;
  BillingSubscriptionChangeCreate_ProviderSubscriptionID : string;
  BillingSubscriptionChangeCreate_ToOfferID : string;
  BillingSubscriptionChangeCreate_ToOfferKey : string;
  BillingSubscriptionChangeCreate_ToPlanKey : string;
  BillingSubscriptionChangeCreate_ToInterval : string;
  BillingSubscriptionChangeCreate_Effective : string;
  BillingSubscriptionChangeCreate_EffectiveAt : Time;
  BillingSubscriptionChangeCreate_ProrationBehavior : string;
  BillingSubscriptionChangeCreate_OperationKey : string;
}.

Record BillingSubscriptionChangeUpdate := {
  BillingSubscriptionChangeUpdate_State : option string;
  BillingSubscriptionChangeUpdate_ProviderOperationID : option string;
  BillingSubscriptionChangeUpdate_ErrorMessage : option string;
}.

Record BillingPreferences := {
  BillingPreferences_AccountID : string;
  BillingPreferences_AutoRecharge : bool;
  BillingPreferences_OverageProtection : bool;
  BillingPreferences_EmailNotifications : bool;
  BillingPreferences_UsageAlerts : bool;
  BillingPreferences_InvoiceReminders : bool;
}.

Record PreferencePatch := {
  PreferencePatch_AutoRecharge : option bool;
  PreferencePatch_OverageProtection : option bool;
  PreferencePatch_EmailNotifications : option bool;
  PreferencePatch_UsageAlerts : option bool;
  PreferencePatch_InvoiceReminders : option bool;
}.

Record CheckoutStatusResult := {
  CheckoutStatusResult_IntentID : string;
  CheckoutStatusResult_Status : string;
}.

Record SubscriptionCommandInput := {
  SubscriptionCommandInput_AccountID : string;
  SubscriptionCommandInput_SubscriptionID : string;
  SubscriptionCommandInput_OperationKey : string;
}.

Record SubscriptionCommandResult := {
  SubscriptionCommandResult_OK : bool;
  SubscriptionCommandResult_Pending : bool;
}.

Record SubscriptionCancellationResult := {
  SubscriptionCancellationResult_Provider : string;
  SubscriptionCancellationResult_ProviderSubscriptionID : string;
  SubscriptionCancellationResult_Canceled : bool;
  SubscriptionCancellationResult_Error : string;
}.

Record CancelAllSubscriptionsResult := {
  CancelAllSubscriptionsResult_AccountID : string;
  CancelAllSubscriptionsResult_CanceledCount : Z;
  CancelAllSubscriptionsResult_Subscriptions : list SubscriptionCancellationResult;
}.

Record AccountSubscriptionSummary {D : Type} := {
  AccountSubscriptionSummary_AccountID : string;
  AccountSubscriptionSummary_PlanKey : string;
  AccountSubscriptionSummary_Status : string;
  AccountSubscriptionSummary_LifecycleState : string;
  AccountSubscriptionSummary_AccessState : string;
  AccountSubscriptionSummary_IsCurrent : bool;
  AccountSubscriptionSummary_IsEntitled : bool;
  AccountSubscriptionSummary_IsBlockingCheckout : bool;
  AccountSubscriptionSummary_IsCancellable : bool;
  AccountSubscriptionSummary_IsTerminal : bool;
  AccountSubscriptionSummary_Subscription : option (CommerceSubscription D);
  AccountSubscriptionSummary_PendingChange : option BillingSubscriptionChange;
}.
Arguments AccountSubscriptionSummary : clear implicits.

Record PlanChangeLineItem {D : Type} := {
  PlanChangeLineItem_ProductID : string;
  PlanChangeLineItem_Name : string;
  PlanChangeLineItem_UnitPrice : D;
  PlanChangeLineItem_Quantity : Z;
  PlanChangeLineItem_ProrationFactor : D;
  PlanChangeLineItem_Currency : string;
  PlanChangeLineItem_Tax : D;
  PlanChangeLineItem_Subtotal : D;
}.
Arguments PlanChangeLineItem : clear implicits.

Record PlanChangePreview {D : Type} := {
  PlanChangePreview_TotalAmount : D;
  PlanChangePreview_SettlementAmount : D;
  PlanChangePreview_Currency : string;
  PlanChangePreview_LineItems : list (PlanChangeLineItem D);
  PlanChangePreview_EffectiveAt : Time;
  PlanChangePreview_RecurringAmount : option D;
  PlanChangePreview_RecurringCurrency : string;
  PlanChangePreview_NextBillingDate : option Time;
  PlanChangePreview_TaxAmount : option D;
  PlanChangePreview_CustomerCredits : option D;
}.
Arguments PlanChangePreview : clear implicits.

Record PreviewPlanChangeInput := {
  PreviewPlanChangeInput_AccountID : string;
  PreviewPlanChangeInput_OfferKey : string;
}.

Record PlanChangePreviewResult {D : Type} := {
  PlanChangePreviewResult_Unchanged : bool;
  PlanChangePreviewResult_Classification : string;
  PlanChangePreviewResult_Scheduled : bool;
  PlanChangePreviewResult_PlanKey : string;
  PlanChangePreviewResult_Interval : string;
  PlanChangePreviewResult_Preview : option (PlanChangePreview D);
  PlanChangePreviewResult_QuoteFingerprint : string;
}.
Arguments PlanChangePreviewResult : clear implicits.

Record ConfirmPlanChangeInput := {
  ConfirmPlanChangeInput_AccountID : string;
  ConfirmPlanChangeInput_OfferKey : string;
  ConfirmPlanChangeInput_QuoteFingerprint : string;
  ConfirmPlanChangeInput_OperationKey : string;
}.

Record ConfirmPlanChangeResult := {
  ConfirmPlanChangeResult_Success : bool;
  ConfirmPlanChangeResult_Unchanged : bool;
  ConfirmPlanChangeResult_Pending : bool;
  ConfirmPlanChangeResult_Scheduled : bool;
  ConfirmPlanChangeResult_EffectiveAt : option Time;
  ConfirmPlanChangeResult_PlanKey : string;
  ConfirmPlanChangeResult_Interval : string;
}.

Record ProviderPlanChangeRequest := {
  ProviderPlanChangeRequest_ProviderSubscriptionID : string;
  ProviderPlanChangeRequest_ProductID : string;
  ProviderPlanChangeRequest_EffectiveAt : string;
  ProviderPlanChangeRequest_ProrationBillingMode : string;
  ProviderPlanChangeRequest_PaymentFailure : string;
  ProviderPlanChangeRequest_Quantity : Z;
  ProviderPlanChangeRequest_Metadata : gmap string string;
  ProviderPlanChangeRequest_IdempotencyKey : string;
}.

Record ProviderPlanChangeResult := {
  ProviderPlanChangeResult_ProviderOperationID : string;
}.

Record PortalSessionInput := {
  PortalSessionInput_AccountID : string;
  PortalSessionInput_Purpose : string;
  PortalSessionInput_ReturnURL : string;
  PortalSessionInput_CancelURL : string;
}.

Record InvoiceDocumentLocator := {
  InvoiceDocumentLocator_Kind : string;
  InvoiceDocumentLocator_Provider : string;
  InvoiceDocumentLocator_ProviderDocumentID : string;
  InvoiceDocumentLocator_LedgerEntryID : string;
}.

Record GetInvoiceLinkInput := {
  GetInvoiceLinkInput_AccountID : string;
  GetInvoiceLinkInput_Document : InvoiceDocumentLocator;
}.

Record AutoRechargeInput := {
  AutoRechargeInput_AccountID : string;
  AutoRechargeInput_ReturnURL : string;
}.

(** [CheckoutStatus], [PlanChangeClassification] and [PortalPurpose] *)
Definition CheckoutStatusPending := "pending".
Definition CheckoutStatusSucceeded := "succeeded".
Definition CheckoutStatusFailed := "failed".
Definition CheckoutStatusExpired := "expired".

Definition PlanChangeUnchanged := "unchanged".
Definition PlanChangeUpgrade := "upgrade".
Definition PlanChangeDowngrade := "downgrade".
Definition PlanChangeLateral := "lateral".
Definition PlanChangeCadenceChange := "cadence_change".

Definition PortalPurposeBilling := "billing".
Definition PortalPurposePaymentMethod := "payment_method".

(** ** Checkout *)

Record CheckoutSessionRequest := {
  CheckoutSessionRequest_AccountID : string;
  CheckoutSessionRequest_ProductID : string;
  CheckoutSessionRequest_Mode : string;
  CheckoutSessionRequest_Quantity : Z;
  CheckoutSessionRequest_SuccessURL : string;
  CheckoutSessionRequest_CancelURL : string;
  CheckoutSessionRequest_CustomerID : string;
  CheckoutSessionRequest_CustomerEmail : string;
  CheckoutSessionRequest_Metadata : gmap string string;
  CheckoutSessionRequest_IdempotencyKey : string;
}.

Record CheckoutSession := {
  CheckoutSession_ID : string;
  CheckoutSession_URL : string;
  CheckoutSession_CustomerID : string;
}.

Record CheckoutIntent := {
  CheckoutIntent_ID : string;
  CheckoutIntent_SubjectID : string;
  CheckoutIntent_OfferKey : string;
  CheckoutIntent_Provider : string;
  CheckoutIntent_CheckoutKind : string;
  CheckoutIntent_ProductKey : string;
  CheckoutIntent_ProviderSessionID : string;
  CheckoutIntent_ProviderURL : string;
  CheckoutIntent_Status : string;
  CheckoutIntent_IdempotencyKey : string;
  CheckoutIntent_RequestDigest : string;
  CheckoutIntent_ExpiresAt : Time;
  CheckoutIntent_CreatedAt : Time;
  CheckoutIntent_UpdatedAt : Time;
}.

Record CheckoutIntentCreate := {
  CheckoutIntentCreate_SubjectID : string;
  CheckoutIntentCreate_AccountID : string;
  CheckoutIntentCreate_Provider : string;
  CheckoutIntentCreate_CheckoutKind : string;
  CheckoutIntentCreate_ProductKey : string;
  CheckoutIntentCreate_Quantity : Z;
  CheckoutIntentCreate_IdempotencyKey : string;
  CheckoutIntentCreate_RequestDigest : string;
  CheckoutIntentCreate_ExpiresAt : Time;
  CheckoutIntentCreate_Region : string;
  CheckoutIntentCreate_Metadata : gmap string string;
}.

Record CheckoutIntentUpdate := {
  CheckoutIntentUpdate_ProviderSessionID : string;
  CheckoutIntentUpdate_ProviderURL : string;
  CheckoutIntentUpdate_CustomerID : string;
  CheckoutIntentUpdate_Status : string;
}.

Record CreateCheckoutInput := {
  CreateCheckoutInput_SubjectID : string;
  CreateCheckoutInput_AccountID : string;
  CreateCheckoutInput_OfferKey : string;
  CreateCheckoutInput_Type : string;
  CreateCheckoutInput_Quantity : option Z;
  CreateCheckoutInput_Region : string;
  CreateCheckoutInput_Provider : string;
  CreateCheckoutInput_SuccessURL : string;
  CreateCheckoutInput_CancelURL : string;
  CreateCheckoutInput_CustomerID : string;
  CreateCheckoutInput_CustomerEmail : string;
  CreateCheckoutInput_IdempotencyKey : string;
  CreateCheckoutInput_Metadata : gmap string string;
}.

Record CreateCheckoutResult := {
  CreateCheckoutResult_Intent : CheckoutIntent;
  CreateCheckoutResult_Session : CheckoutSession;
}.

(** ** Documents *)

Record BillingInvoice {D : Type} := {
  BillingInvoice_ProviderInvoiceID : string;
  BillingInvoice_ID : string;
  BillingInvoice_Provider : string;
  BillingInvoice_AccountID : string;
  BillingInvoice_SubscriptionID : string;
  BillingInvoice_CustomerID : string;
  BillingInvoice_Status : string;
  BillingInvoice_Currency : string;
  BillingInvoice_AmountPaidMinor : Z;
  BillingInvoice_AmountDueMinor : Z;
  BillingInvoice_PeriodStart : option Time;
  BillingInvoice_PeriodEnd : option Time;
  BillingInvoice_HostedInvoiceURL : string;
  BillingInvoice_Metadata : gmap string (any D);
}.
Arguments BillingInvoice : clear implicits.

Record LedgerEntry {D : Type} := {
  LedgerEntry_EntryID : string;
  LedgerEntry_AccountID : string;
  LedgerEntry_ActorUserID : string;
  LedgerEntry_Amount : D;
  LedgerEntry_EntryType : string;
  LedgerEntry_Operation : string;
  LedgerEntry_ReferenceEntryID : string;
  LedgerEntry_IdempotencyKey : string;
  LedgerEntry_Metadata : CreditMetadata D;
  LedgerEntry_CreatedAt : Time;
}.
Arguments LedgerEntry : clear implicits.
