(* ===== verification/Commerce.v ===== *)
(** * commerce.go: the commerce service, its construction and its helpers

    The service composes the credit and catalog services, the provider
    registry and its stores; its methods are in CommerceCheckout.v,
    CommerceManagement.v and PlanChange.v. *)

From S2P Require Export Protocols GoEncoding CommerceTypes CreditsMethods.
Local Open Scope Z_scope.
Local Open Scope go_scope.

(** ** What the commerce service calls

    Its stores, the payment providers with their optional interfaces, and the
    services it is made of, whose calls it makes through them. *)


Section calls.
Context {D : Type}.

Inductive commerce_call :=
  (* the credit and catalog services, the provider registry *)
  | Credit (c : credit_call D)
  | Providers (c : registry_call)
  (* CommerceStore *)
  | CreateOrGetCheckoutIntent (create : CheckoutIntentCreate)
  | UpdateCheckoutIntent (intentID subjectID : string) (update : CheckoutIntentUpdate)
  | ReadCheckoutIntent (intentID subjectID : string)
  (* CommerceStateStore and BillingCustomerWriter *)
  | GetBillingCustomer (accountID provider : string)
  | GetBillingSubscription (accountID : string) (statuses : list string)
  | ListBillingSubscriptions (accountID : string)
  | ResolveBillingOffer (provider productID priceID lookupKey : string)
  | CreateBillingSubscriptionChange (create : BillingSubscriptionChangeCreate)
  | GetOpenBillingSubscriptionChange (provider subscriptionID : string)
  | UpdateBillingSubscriptionChange (changeID : string) (update : BillingSubscriptionChangeUpdate)
  | GetBillingPreferences (accountID : string)
  | UpsertBillingPreferences (preferences : BillingPreferences)
  | UpsertBillingCustomer (customer : BillingCustomerRecord)
  | ListBillingInvoices (accountID : string)
  (* the ledger the credit service reads *)
  | ReadLedgerEntry (accountID entryID : string)
  (* a provider *)
  | ProviderCreateCheckoutSession (p : Provider) (request : CheckoutSessionRequest)
  | ProviderCheckoutStatus (p : Provider) (sessionID : string)
  | ProviderPortal (p : Provider) (customerID returnURL : string)
  | ProviderUpdatePaymentMethod (p : Provider) (customerID subscriptionID returnURL : string)
  | ProviderSetUpPaymentMethod (p : Provider) (customerID returnURL cancelURL : string)
  | ProviderCancelSubscription (p : Provider) (subscriptionID operationKey : string)
  | ProviderReactivateSubscription (p : Provider) (subscriptionID operationKey : string)
  | ProviderInvoiceURL (p : Provider) (documentID : string)
  | ProviderPreviewPlanChange (p : Provider) (request : ProviderPlanChangeRequest)
  | ProviderChangePlan (p : Provider) (request : ProviderPlanChangeRequest)
  | ProviderCancelScheduledChange (p : Provider) (subscriptionID operationID operationKey : string).

Definition commerce_answer (c : commerce_call) : Type :=
  match c with
  | Credit c => credit_answer c
  | Providers c => registry_answer c
  | CreateOrGetCheckoutIntent _ => result CheckoutIntent
  | UpdateCheckoutIntent _ _ _ => result unit
  | ReadCheckoutIntent _ _ => result (option CheckoutIntent)
  | GetBillingCustomer _ _ => result (option BillingCustomerRecord)
  | GetBillingSubscription _ _ => result (option (CommerceSubscription D))
  | ListBillingSubscriptions _ => result (list (CommerceSubscription D))
  | ResolveBillingOffer _ _ _ _ => result (option (BillingOffer D))
  | CreateBillingSubscriptionChange _ => result BillingSubscriptionChange
  | GetOpenBillingSubscriptionChange _ _ => result (option BillingSubscriptionChange)
  | UpdateBillingSubscriptionChange _ _ => result unit
  | GetBillingPreferences _ => result (option BillingPreferences)
  | UpsertBillingPreferences _ => result unit
  | UpsertBillingCustomer _ => result unit
  | ListBillingInvoices _ => result (list (BillingInvoice D))
  | ReadLedgerEntry _ _ => result (option (LedgerEntry D))
  | ProviderCreateCheckoutSession _ _ => result CheckoutSession
  | ProviderCheckoutStatus _ _ => result string
  | ProviderPortal _ _ _ | ProviderUpdatePaymentMethod _ _ _ _ | ProviderSetUpPaymentMethod _ _ _ _ => result string
  | ProviderCancelSubscription _ _ _ | ProviderReactivateSubscription _ _ _
  | ProviderCancelScheduledChange _ _ _ _ => result unit
  | ProviderInvoiceURL _ _ => result string
  | ProviderPreviewPlanChange _ _ => result (PlanChangePreview D)
  | ProviderChangePlan _ _ => result ProviderPlanChangeResult
  end.
End calls.
Arguments commerce_call : clear implicits.

(** The programs of the services it is made of. *)
Definition of_credit {D A} (p : prog (@credit_answer D) A) : prog (@commerce_answer D) A :=
  embed Credit (fun _ x => x) p.
Definition of_registry {D A} (p : rprog A) : prog (@commerce_answer D) A := embed Providers (fun _ x => x) p.

(** [CommerceOptions], and the billing service it is given: an interface is
    whether it is set, and which optional interfaces the store implements. *)
Record CommerceOptions := {
  CommerceOptions_HasStore : bool;
  CommerceOptions_HasStateStore : bool;
  CommerceOptions_StoreIsState : bool;
  CommerceOptions_HasAutoRechargeStore : bool;
  CommerceOptions_StoreIsAutoRecharge : bool;
  CommerceOptions_StoreWritesCustomers : bool;
  CommerceOptions_StateWritesCustomers : bool;
  CommerceOptions_HasProviders : bool;
  CommerceOptions_DefaultProvider : string;
  CommerceOptions_CheckoutIntentTTL : Z;
  CommerceOptions_PreferenceDefaults : PreferencePatch;
}.

Section commerce.
Context {D : Type} `{DecimalOps D} `{RangeOrder} `{TimeZones} `{Regexps} `{Schema D}.

(** The fields of [CommerceService]. *)
Record CommerceService := {
  Commerce_HasBilling : bool;
  Commerce_catalog : option CatalogService;
  Commerce_credits : option (CreditsService D);
  Commerce_HasStore : bool;
  Commerce_HasState : bool;
  Commerce_StoreWritesCustomers : bool;
  Commerce_StateWritesCustomers : bool;
  Commerce_HasAutoRecharge : bool;
  Commerce_HasProviders : bool;
  Commerce_defaultProvider : string;
  Commerce_checkoutIntentTTL : Z;
  Commerce_preferenceDefaults : PreferencePatch;
}.

Notation prog := (prog (@commerce_answer D)).
Implicit Types (s : option CommerceService) (accountID : string).

Definition commerce_error (message code category : string) : error :=
  NewError message (error_options code category None).

Definition retryable_error (message code category : string) (details : gmap string string) : error :=
  NewError message {| opt_Code := code; opt_Category := category; opt_Retryable := true; opt_Indeterminate := false;
                      opt_Details := details; opt_Cause := None |}.

Definition not_found (message : string) : error :=
  commerce_error message ErrorCode.CommerceResourceNotFound ErrorCategory.NotFound.

Definition invalid_request (message : string) : error :=
  commerce_error message ErrorCode.Config ErrorCategory.InvalidRequest.

Definition unconfigured (message : string) : error :=
  commerce_error message ErrorCode.CommerceNotConfigured ErrorCategory.InvalidRequest.

Definition containsText (values : list string) (target : string) : bool := existsb (String.eqb target) values.

(** The keys of the map in their order, whatever the order of its
    iteration. *)
Definition sortedProviderKeys (values : gmap string ProviderReference) : list string :=
  sort_strings (elements (dom values)).

(** ** Construction *)

(** [billingRecharge]: the billing service already has an automatic recharge.
    The second component is what its field holds afterwards. *)
Definition NewCommerceService (hasBilling billingRecharge : bool) (catalog : option CatalogService)
    (credits : option (CreditsService D)) (options : CommerceOptions) : prog (CommerceService * bool) :=
  if negb hasBilling then raise (unconfigured "commerce requires billing")
  else if negb (is_some catalog) then raise (unconfigured "commerce requires a catalog service")
  else if negb (is_some credits) then raise (unconfigured "commerce requires credits")
  else if negb (CommerceOptions_HasStore options)
  then raise (unconfigured "commerce requires a durable checkout-intent store")
  else if negb (CommerceOptions_HasProviders options) then raise (unconfigured "commerce requires a provider registry")
  else
    let fallback := TrimSpace (CommerceOptions_DefaultProvider options) in
    known <~ (if fallback =? "" then ret true
              else configured <~ of_registry (Configured true) ;; ret (containsText configured fallback)) ;;
    if negb known
    then raise (NewError "commerce default provider is not configured"
                  (error_details ErrorCode.ProviderSelectionFailed ErrorCategory.InvalidRequest
                     {[ "provider" := fallback ]}))
    else
      let ttl := if (CommerceOptions_CheckoutIntentTTL options =? 0)%Z then 24 * Hour
                 else CommerceOptions_CheckoutIntentTTL options in
      if ttl <? 0 then raise (invalid_request "commerce checkout intent TTL must not be negative")
      else
        let recharge := billingRecharge || CommerceOptions_HasAutoRechargeStore options
                        || CommerceOptions_StoreIsAutoRecharge options in
        ret ({| Commerce_HasBilling := true; Commerce_catalog := catalog; Commerce_credits := credits;
                Commerce_HasStore := true;
                Commerce_HasState := CommerceOptions_HasStateStore options || CommerceOptions_StoreIsState options;
                Commerce_StoreWritesCustomers := CommerceOptions_StoreWritesCustomers options;
                Commerce_StateWritesCustomers :=
                  if CommerceOptions_HasStateStore options then CommerceOptions_StateWritesCustomers options
                  else CommerceOptions_StoreIsState options && CommerceOptions_StoreWritesCustomers options;
                Commerce_HasAutoRecharge := recharge; Commerce_HasProviders := true;
                Commerce_defaultProvider := fallback; Commerce_checkoutIntentTTL := ttl;
                Commerce_preferenceDefaults := CommerceOptions_PreferenceDefaults options |}, recharge).

(** ** State and providers *)

Definition state_unavailable : error :=
  retryable_error "core billing state is unavailable for this commerce operation"
    ErrorCode.CoreBillingDataUnavailable ErrorCategory.Unavailable ∅.

(** [requireState]: the service itself when it has a state store. *)
Definition requireState s : prog CommerceService :=
  match s with
  | Some service => if Commerce_HasState service then ret service else raise state_unavailable
  | None => raise state_unavailable
  end.

(** [s.providers.Get(ctx, name)] *)
Definition get_provider (service : CommerceService) (name : string) : prog Provider :=
  of_registry (Get (Commerce_HasProviders service) name).

Definition providerCapabilityError (provider capability : string) : error :=
  NewError ("provider does not support " +:+ capability)
    (error_details ErrorCode.ProviderCapabilityNotSupported ErrorCategory.InvalidRequest
       {[ "provider" := provider; "capability" := capability ]}).

(** [p, ok := provider.(Interface)], failing unless it is implemented. *)
Definition capable (p : Provider) (has : Provider -> bool) (capability : string) : prog unit :=
  if has p then ret tt else raise (providerCapabilityError (Name p) capability).

(** The calls whose error is returned at once. *)
Definition getBillingCustomer accountID provider : prog (option BillingCustomerRecord) :=
  Do (GetBillingCustomer accountID provider) Done.
Definition getBillingSubscription accountID statuses : prog (option (CommerceSubscription D)) :=
  Do (GetBillingSubscription accountID statuses) Done.
Definition listBillingSubscriptions accountID : prog (list (CommerceSubscription D)) :=
  Do (ListBillingSubscriptions accountID) Done.
Definition commerce_now : prog Time := of_credit now.
Definition catalog_config (service : CommerceService) : prog (BursarConfig D) :=
  of_credit (GetConfig (Commerce_catalog service)).

Definition unknown_offer (message offerKey : string) (category : string) : error :=
  NewError message (error_details ErrorCode.UnknownOffer category {[ "offer_key" := offerKey ]}).

(** [offerKey] has at most one element. *)
Definition ProviderForAccount s accountID (offerKey : list string) : prog Provider :=
  match s with
  | Some service =>
      if negb (Commerce_HasProviders service)
      then raise (commerce_error "commerce providers are not configured" ErrorCode.CommerceNotConfigured
                    ErrorCategory.Unavailable)
      else
        accountID <~ lift (requireText accountID "account ID") ;;
        if 1 <? Z.of_nat (length offerKey) then raise (invalid_request "at most one offer key may be supplied")
        else
          current <~ (if negb (Commerce_HasState service) then ret ""
                      else
                        subscription <~ getBillingSubscription accountID [] ;;
                        let current := match subscription with
                                       | Some subscription => TrimSpace (CommerceSubscription_Provider subscription)
                                       | None => ""
                                       end in
                        customer <~ getBillingCustomer accountID current ;;
                        ret match customer with
                            | Some customer =>
                                if current =? "" then TrimSpace (BillingCustomerRecord_Provider customer) else current
                            | None => current
                            end) ;;
          configured <~ of_registry (Configured true) ;;
          compatible <~ match offerKey with
                        | key :: _ =>
                            if TrimSpace key =? "" then ret configured
                            else
                              config <~ catalog_config service ;;
                              match CommerceConfig_Offers (BursarConfig_Commerce config) !! TrimSpace key with
                              | Some offer => ret (sortedProviderKeys (CommerceOffer_Providers offer))
                              | None => raise (unknown_offer "checkout offer was not found" key ErrorCategory.NotFound)
                              end
                        | [] => ret configured
                        end ;;
          of_registry (Select true "" (firstNonEmpty [current; Commerce_defaultProvider service]) compatible)
  | None =>
      raise (commerce_error "commerce providers are not configured" ErrorCode.CommerceNotConfigured
               ErrorCategory.Unavailable)
  end.

Definition Providers_ s : prog (list string) :=
  match s with
  | Some service => of_registry (Configured (Commerce_HasProviders service))
  | None => ret []
  end.

Definition ClearProviderCache s : prog unit :=
  match s with
  | Some service => of_registry (Clear (Commerce_HasProviders service))
  | None => ret tt
  end.
End commerce.
Arguments CommerceService : clear implicits.

(** ** Watching the commerce service's calls

    Lemmas shared by the theorems on its methods: what a method does to the
    calls that are watched, when the credit service's and the provider
    registry's are not among them. *)


Section watched.
Context {D : Type} `{DecimalOps D} `{RangeOrder} `{TimeZones} `{Regexps} `{Schema D}.
Notation prog := (prog (@commerce_answer D)).
Notation event := (event (@commerce_answer D)).
Notation obeys := (obeys (fun _ => True) (fun _ _ => True)).

Lemma requireState_cases (s : option (CommerceService D)) :
  (exists service, s = Some service /\ Commerce_HasState service = true /\ requireState s = ret service) \/
  requireState s = raise state_unavailable.
Proof.
  destruct s as [service|]; [|by right]. cbn. destruct (Commerce_HasState service) eqn:Hstate; [left|by right].
  by exists service.
Qed.

Context (watched : commerce_call D -> bool).
Hypothesis credit_unwatched : forall c, watched (Credit c) = false.
Hypothesis providers_unwatched : forall c, watched (Providers c) = false.

Notation seen := (seen watched).

Lemma unseen_credit {A B} E (Q : list event -> result B -> Prop) h (p : Effects.prog (@credit_answer D) A) f :
  seen h = E -> (forall h' e, seen h' = E -> Q h' (Err e)) ->
  (forall h' a, seen h' = E -> obeys Q h' (f a)) -> obeys Q h (pbind (of_credit p) f).
Proof. intros <-. apply unseen_then; [done|by apply embed_any]. Qed.

Lemma unseen_registry {A B} E (Q : list event -> result B -> Prop) h (p : rprog A) f :
  seen h = E -> (forall h' e, seen h' = E -> Q h' (Err e)) ->
  (forall h' a, seen h' = E -> obeys Q h' (f a)) -> obeys Q h (pbind (of_registry p) f).
Proof. intros <-. apply unseen_then; [done|by apply embed_any]. Qed.

Lemma unseen_do {A} E (Q : list event -> result A -> Prop) h (call : commerce_call D) k :
  seen h = E -> watched call = false ->
  (forall h' x, seen h' = E -> obeys Q h' (k x)) -> obeys Q h (Do call k).
Proof. intros <- Hcall Hk. split; [done|]. intros x _. apply Hk. by rewrite seen_last, Hcall. Qed.

(** A watched call is the next one seen. *)
Lemma seen_do {A} E (Q : list event -> result A -> Prop) h (call : commerce_call D) k :
  seen h = E -> watched call = true ->
  (forall h' x, seen h' = E ++ [existT call x] -> obeys Q h' (k x)) -> obeys Q h (Do call k).
Proof. intros <- Hcall Hk. split; [done|]. intros x _. apply Hk. by rewrite seen_last, Hcall. Qed.
End watched.
