(* ===== verification/CommerceManagement.v ===== *)
(** * commerce_management.go: subscriptions, portals, preferences and invoices

    The self-service methods.  Each starts from the account and asks the state
    store for what the account owns before it calls a provider. *)

From S2P Require Export Commerce.
Local Open Scope Z_scope.
Local Open Scope go_scope.

Definition currentSubscriptionStatuses := ["active"; "trialing"; "past_due"; "incomplete"].
Definition blockingSubscriptionStatuses := ["active"; "trialing"; "past_due"; "incomplete"].
Definition cancellableSubscriptionStates := ["active"; "trialing"; "past_due"; "incomplete"; "unpaid"; "paused"].
Definition terminalSubscriptionStatuses := ["canceled"; "unpaid"; "paused"; "incomplete_expired"; "expired"].

Definition commerceScopedKey (operationKey scope : string) : result string :=
  operationKey <- requireStableKey operationKey "operation key" ;;
  requireStableKey (operationKey +:+ ":" +:+ EncodeToString (firstn 8 (Sum256 scope))) "scoped operation key".

Definition defaultBillingPreferences (accountID : string) (patch : PreferencePatch) : BillingPreferences :=
  {| BillingPreferences_AccountID := accountID;
     BillingPreferences_AutoRecharge := default false (PreferencePatch_AutoRecharge patch);
     BillingPreferences_OverageProtection := default true (PreferencePatch_OverageProtection patch);
     BillingPreferences_EmailNotifications := default true (PreferencePatch_EmailNotifications patch);
     BillingPreferences_UsageAlerts := default true (PreferencePatch_UsageAlerts patch);
     BillingPreferences_InvoiceReminders := default false (PreferencePatch_InvoiceReminders patch) |}.

(** The preferences of [UpdatePreferences] after its patch. *)
Definition patched_preferences (next : BillingPreferences) (patch : PreferencePatch) : BillingPreferences :=
  {| BillingPreferences_AccountID := BillingPreferences_AccountID next;
     BillingPreferences_AutoRecharge :=
       default (BillingPreferences_AutoRecharge next) (PreferencePatch_AutoRecharge patch);
     BillingPreferences_OverageProtection :=
       default (BillingPreferences_OverageProtection next) (PreferencePatch_OverageProtection patch);
     BillingPreferences_EmailNotifications :=
       default (BillingPreferences_EmailNotifications next) (PreferencePatch_EmailNotifications patch);
     BillingPreferences_UsageAlerts :=
       default (BillingPreferences_UsageAlerts next) (PreferencePatch_UsageAlerts patch);
     BillingPreferences_InvoiceReminders :=
       default (BillingPreferences_InvoiceReminders next) (PreferencePatch_InvoiceReminders patch) |}.

Definition owned_by (accountID : string) (p : BillingPreferences) : BillingPreferences :=
  {| BillingPreferences_AccountID := accountID; BillingPreferences_AutoRecharge := BillingPreferences_AutoRecharge p;
     BillingPreferences_OverageProtection := BillingPreferences_OverageProtection p;
     BillingPreferences_EmailNotifications := BillingPreferences_EmailNotifications p;
     BillingPreferences_UsageAlerts := BillingPreferences_UsageAlerts p;
     BillingPreferences_InvoiceReminders := BillingPreferences_InvoiceReminders p |}.

Section management.
Context {D : Type} `{DecimalOps D} `{RangeOrder} `{TimeZones} `{Regexps} `{Schema D}.

Notation prog := (prog (@commerce_answer D)).
Implicit Types (s : option (CommerceService D)) (accountID : string).

(** ** Subscriptions *)

Definition validateSubscriptionCommand (input : SubscriptionCommandInput) : result (string * string) :=
  accountID <- requireText (SubscriptionCommandInput_AccountID input) "account ID" ;;
  operationKey <- requireStableKey (SubscriptionCommandInput_OperationKey input) "subscription operation key" ;;
  Ok (accountID, operationKey).

(** A subscription the command names, in one of the statuses; any status
    when the list is empty. *)
Definition selects (subscriptionID : string) (statuses : list string) (subscription : CommerceSubscription D) : bool :=
  ((CommerceSubscription_ID subscription =? subscriptionID)
   || (CommerceSubscription_ProviderSubscriptionID subscription =? subscriptionID))
  && (bool_decide (statuses = []) || containsText statuses (CommerceSubscription_Status subscription)).

Definition subscriptionForCommand s accountID (subscriptionID : string) (statuses : list string)
    : prog (option (CommerceSubscription D)) :=
  requireState s ;;~
  if TrimSpace subscriptionID =? "" then getBillingSubscription accountID statuses
  else
    subscriptions <~ listBillingSubscriptions accountID ;;
    ret (head (filter (fun x => selects subscriptionID statuses x = true) subscriptions)).

Definition cancellable (subscription : CommerceSubscription D) : bool :=
  containsText cancellableSubscriptionStates (CommerceSubscription_Status subscription)
  && negb (CommerceSubscription_CancelAtPeriodEnd subscription).

Definition command_result (pending : bool) : SubscriptionCommandResult :=
  {| SubscriptionCommandResult_OK := true; SubscriptionCommandResult_Pending := pending |}.

Definition CancelSubscription s (input : SubscriptionCommandInput) : prog SubscriptionCommandResult :=
  command <~ lift (validateSubscriptionCommand input) ;;
  let '(accountID, operationKey) := command in
  service <~ requireState s ;;
  subscription <~ subscriptionForCommand s accountID (SubscriptionCommandInput_SubscriptionID input)
                    currentSubscriptionStatuses ;;
  match subscription with
  | None => raise (not_found "no active subscription was found")
  | Some subscription =>
      if negb (cancellable subscription) then ret (command_result false)
      else
        p <~ get_provider service (CommerceSubscription_Provider subscription) ;;
        capable p Provider_CancelsSubscription "cancel_subscription" ;;~
        Do (ProviderCancelSubscription p (CommerceSubscription_ProviderSubscriptionID subscription) operationKey) Done ;;~
        ret (command_result true)
  end.

Definition ReactivateSubscription s (input : SubscriptionCommandInput) : prog SubscriptionCommandResult :=
  command <~ lift (validateSubscriptionCommand input) ;;
  let '(accountID, operationKey) := command in
  service <~ requireState s ;;
  subscription <~ subscriptionForCommand s accountID (SubscriptionCommandInput_SubscriptionID input) [] ;;
  match subscription with
  | None => raise (not_found "no subscription was found")
  | Some subscription =>
      if (CommerceSubscription_Status subscription =? "active")
         && negb (CommerceSubscription_CancelAtPeriodEnd subscription)
      then ret (command_result false)
      else
        p <~ get_provider service (CommerceSubscription_Provider subscription) ;;
        capable p Provider_ReactivatesSubscription "reactivate_subscription" ;;~
        Do (ProviderReactivateSubscription p (CommerceSubscription_ProviderSubscriptionID subscription) operationKey)
          Done ;;~
        ret (command_result true)
  end.

(** [sort.Slice] by provider and provider identifier: a permutation in that
    order. *)
Definition before (a b : CommerceSubscription D) : Prop :=
  if CommerceSubscription_Provider a =? CommerceSubscription_Provider b
  then string_le (CommerceSubscription_ProviderSubscriptionID a) (CommerceSubscription_ProviderSubscriptionID b)
  else string_le (CommerceSubscription_Provider a) (CommerceSubscription_Provider b).
#[local] Instance before_dec : RelDecision before.
Proof. intros a b. unfold before. destruct (_ =? _); apply _. Defined.
Definition sort_subscriptions (subscriptions : list (CommerceSubscription D)) : list (CommerceSubscription D) :=
  merge_sort before subscriptions.

Definition cancel_command accountID (childKey : string) (subscription : CommerceSubscription D)
    : SubscriptionCommandInput :=
  {| SubscriptionCommandInput_AccountID := accountID;
     SubscriptionCommandInput_SubscriptionID := CommerceSubscription_ProviderSubscriptionID subscription;
     SubscriptionCommandInput_OperationKey := childKey |}.

Definition cancellation (subscription : CommerceSubscription D) (outcome : result SubscriptionCommandResult)
    : SubscriptionCancellationResult :=
  {| SubscriptionCancellationResult_Provider := CommerceSubscription_Provider subscription;
     SubscriptionCancellationResult_ProviderSubscriptionID := CommerceSubscription_ProviderSubscriptionID subscription;
     SubscriptionCancellationResult_Canceled :=
       match outcome with Ok command => SubscriptionCommandResult_OK command | Err _ => false end;
     SubscriptionCancellationResult_Error :=
       match outcome with Ok _ => "" | Err err => error_message err end |}.

Definition add_cancellation (result : CancelAllSubscriptionsResult) (item : SubscriptionCancellationResult)
    : CancelAllSubscriptionsResult :=
  {| CancelAllSubscriptionsResult_AccountID := CancelAllSubscriptionsResult_AccountID result;
     CancelAllSubscriptionsResult_CanceledCount :=
       CancelAllSubscriptionsResult_CanceledCount result
       + (if SubscriptionCancellationResult_Canceled item then 1 else 0);
     CancelAllSubscriptionsResult_Subscriptions :=
       (CancelAllSubscriptionsResult_Subscriptions result ++ [item])%list |}.

(** The loop of [CancelAllSubscriptions]: the result so far, and an error
    that ended it. *)
Fixpoint cancel_each s accountID (operationKey : string) (result : CancelAllSubscriptionsResult)
    (subscriptions : list (CommerceSubscription D)) : prog (CancelAllSubscriptionsResult * option error) :=
  match subscriptions with
  | [] => ret (result, None)
  | subscription :: rest =>
      if negb (cancellable subscription) then cancel_each s accountID operationKey result rest
      else
        match commerceScopedKey operationKey
                (CommerceSubscription_Provider subscription +:+ ":"
                 +:+ CommerceSubscription_ProviderSubscriptionID subscription) with
        | Err keyErr => ret (result, Some keyErr)
        | Ok childKey =>
            pcatch (CancelSubscription s (cancel_command accountID childKey subscription)) (fun outcome =>
              cancel_each s accountID operationKey (add_cancellation result (cancellation subscription outcome)) rest)
        end
  end.

Definition no_cancellations accountID : CancelAllSubscriptionsResult :=
  {| CancelAllSubscriptionsResult_AccountID := accountID; CancelAllSubscriptionsResult_CanceledCount := 0;
     CancelAllSubscriptionsResult_Subscriptions := [] |}.

(** The error of the first cancellation that failed. *)
Definition cancel_failure accountID (result : CancelAllSubscriptionsResult) : option error :=
  match filter (fun item => SubscriptionCancellationResult_Canceled item = false)
          (CancelAllSubscriptionsResult_Subscriptions result) with
  | item :: _ =>
      Some (NewError "one or more subscriptions could not be cancelled"
              (error_details ErrorCode.Billing ErrorCategory.Unavailable
                 {[ "account_id" := accountID;
                    "failed_subscription" := SubscriptionCancellationResult_ProviderSubscriptionID item ]}))
  | [] => None
  end.

Definition CancelAllSubscriptions s accountID (operationKey : string)
    : prog (CancelAllSubscriptionsResult * option error) :=
  accountID <~ lift (requireText accountID "account ID") ;;
  operationKey <~ lift (requireStableKey operationKey "cancel all operation key") ;;
  requireState s ;;~
  subscriptions <~ listBillingSubscriptions accountID ;;
  outcome <~ cancel_each s accountID operationKey (no_cancellations accountID) (sort_subscriptions subscriptions) ;;
  match outcome with
  | (result, Some keyErr) => ret (result, Some keyErr)
  | (result, None) => ret (result, cancel_failure accountID result)
  end.

(** [buildSubscriptionSummary] reads the clock for an account in arrears with
    a grace period. *)
Definition in_grace (subscription : option (CommerceSubscription D)) : prog bool :=
  match subscription with
  | Some x =>
      match CommerceSubscription_GraceEndsAt x with
      | Some ends => if CommerceSubscription_Status x =? "past_due"
                     then now <~ commerce_now ;; ret (After ends now) else ret false
      | None => ret false
      end
  | None => ret false
  end.

Definition buildSubscriptionSummary accountID (subscription : option (CommerceSubscription D))
    (entitlement : GetUserPlanResult) (pending : option BillingSubscriptionChange) (inGrace : bool)
    : AccountSubscriptionSummary D :=
  let status := match subscription with Some x => CommerceSubscription_Status x | None => "" end in
  let planKey :=
    if GetUserPlanResult_PlanKey entitlement =? ""
    then match subscription with Some x => CommerceSubscription_PlanKey x | None => "" end
    else GetUserPlanResult_PlanKey entitlement in
  let isEntitled := negb (GetUserPlanResult_PlanKey entitlement =? "") in
  {| AccountSubscriptionSummary_AccountID := accountID;
     AccountSubscriptionSummary_PlanKey := planKey;
     AccountSubscriptionSummary_Status := status;
     AccountSubscriptionSummary_LifecycleState := firstNonEmpty [status; "none"];
     AccountSubscriptionSummary_AccessState :=
       if isEntitled then (if inGrace then "grace" else "entitled")
       else if negb (status =? "") then "blocked" else "none";
     AccountSubscriptionSummary_IsCurrent := containsText currentSubscriptionStatuses status;
     AccountSubscriptionSummary_IsEntitled := isEntitled;
     AccountSubscriptionSummary_IsBlockingCheckout := containsText blockingSubscriptionStatuses status;
     AccountSubscriptionSummary_IsCancellable :=
       containsText cancellableSubscriptionStates status
       && match subscription with Some x => negb (CommerceSubscription_CancelAtPeriodEnd x) | None => true end;
     AccountSubscriptionSummary_IsTerminal := containsText terminalSubscriptionStatuses status;
     AccountSubscriptionSummary_Subscription := subscription;
     AccountSubscriptionSummary_PendingChange := pending |}.

Definition getOpenChange (provider subscriptionID : string) : prog (option BillingSubscriptionChange) :=
  Do (GetOpenBillingSubscriptionChange provider subscriptionID) Done.

Definition GetAccountSubscriptionSummary s accountID : prog (AccountSubscriptionSummary D) :=
  accountID <~ lift (requireText accountID "account ID") ;;
  service <~ requireState s ;;
  subscription <~ getBillingSubscription accountID [] ;;
  entitlement <~ of_credit (GetUserPlan (Commerce_credits service) accountID) ;;
  pending <~ match subscription with
             | Some x =>
                 if CommerceSubscription_ProviderSubscriptionID x =? "" then ret None
                 else getOpenChange (CommerceSubscription_Provider x) (CommerceSubscription_ProviderSubscriptionID x)
             | None => ret None
             end ;;
  inGrace <~ in_grace subscription ;;
  ret (buildSubscriptionSummary accountID subscription entitlement pending inGrace).

(** ** Portals, preferences and invoices *)

(** The hosted route of one purpose; [subscription] is any the account has. *)
Definition portal_session (p : Provider) (customerID : string) (subscription : option (CommerceSubscription D))
    (input : PortalSessionInput) : prog string :=
  let purpose := if PortalSessionInput_Purpose input =? "" then PortalPurposeBilling
                 else PortalSessionInput_Purpose input in
  let returnURL := PortalSessionInput_ReturnURL input in
  if purpose =? PortalPurposePaymentMethod then
    let subscriptionID := match subscription with
                          | Some x => CommerceSubscription_ProviderSubscriptionID x
                          | None => ""
                          end in
    if negb (TrimSpace subscriptionID =? "") then
      capable p Provider_UpdatesPaymentMethod "create_update_payment_method_session" ;;~
      Do (ProviderUpdatePaymentMethod p customerID subscriptionID returnURL) Done
    else
      capable p Provider_SetsUpPaymentMethod "create_payment_method_setup_session" ;;~
      Do (ProviderSetUpPaymentMethod p customerID returnURL (PortalSessionInput_CancelURL input)) Done
  else if negb (purpose =? PortalPurposeBilling) then raise (invalid_request "portal purpose is invalid")
  else
    capable p Provider_HasPortal "customer_portal" ;;~
    Do (ProviderPortal p customerID returnURL) Done.

Definition CreatePortalSession s (input : PortalSessionInput) : prog string :=
  accountID <~ lift (requireText (PortalSessionInput_AccountID input) "account ID") ;;
  if TrimSpace (PortalSessionInput_ReturnURL input) =? "" then raise (invalid_request "portal return URL is required")
  else
    service <~ requireState s ;;
    subscription <~ getBillingSubscription accountID [] ;;
    let providerName := match subscription with Some x => CommerceSubscription_Provider x | None => "" end in
    customer <~ getBillingCustomer accountID providerName ;;
    match customer with
    | None => raise (not_found "no billing customer was found")
    | Some customer =>
        if TrimSpace (BillingCustomerRecord_ProviderCustomerID customer) =? ""
        then raise (not_found "no billing customer was found")
        else
          p <~ get_provider service (BillingCustomerRecord_Provider customer) ;;
          portal_session p (BillingCustomerRecord_ProviderCustomerID customer) subscription input
    end.

Definition UpdatePreferences s accountID (patch : PreferencePatch) : prog BillingPreferences :=
  accountID <~ lift (requireText accountID "account ID") ;;
  service <~ requireState s ;;
  current <~ Do (GetBillingPreferences accountID) Done ;;
  let next := match current with
              | Some current => owned_by accountID current
              | None => defaultBillingPreferences accountID (Commerce_preferenceDefaults service)
              end in
  let next := patched_preferences next patch in
  Do (UpsertBillingPreferences next) Done ;;~
  ret next.

Definition metadataText (metadata : CreditMetadata D) (key : string) : string :=
  match metadata with
  | Some metadata => match metadata !! key with Some (AString value) => TrimSpace value | _ => "" end
  | None => ""
  end.

(** [credits.GetLedgerEntry] *)
Definition GetLedgerEntry (credits : option (CreditsService D)) accountID (entryID : string)
    : prog (option (LedgerEntry D)) :=
  match credits with
  | Some c => if Credits_HasStore c then Do (ReadLedgerEntry accountID entryID) Done
              else raise credits_not_initialized
  | None => raise credits_not_initialized
  end.

(** The provider and the document an account's locator stands for. *)
Definition owned_document s accountID (document : InvoiceDocumentLocator) : prog (string * string) :=
  if InvoiceDocumentLocator_Kind document =? "provider_invoice" then
    requireState s ;;~
    invoices <~ Do (ListBillingInvoices accountID) Done ;;
    let owned := filter (fun invoice =>
                           BillingInvoice_Provider invoice = InvoiceDocumentLocator_Provider document /\
                           BillingInvoice_ID invoice = InvoiceDocumentLocator_ProviderDocumentID document) invoices in
    ret match owned with
        | invoice :: _ => (BillingInvoice_Provider invoice, BillingInvoice_ID invoice)
        | [] => ("", "")
        end
  else if InvoiceDocumentLocator_Kind document =? "ledger_entry" then
    service <~ match s with
               | Some service => ret service
               | None => raise (GoPanic "invalid memory address or nil pointer dereference")
               end ;;
    entry <~ GetLedgerEntry (Commerce_credits service) accountID (InvoiceDocumentLocator_LedgerEntryID document) ;;
    ret match entry with
        | Some entry =>
            let text := metadataText (LedgerEntry_Metadata entry) in
            (text "provider",
             firstNonEmpty [text "provider_document_id"; text "provider_invoice_id"; text "provider_payment_id"])
        | None => ("", "")
        end
  else raise (invalid_request "invoice document kind is invalid").

Definition GetInvoiceLink s (input : GetInvoiceLinkInput) : prog string :=
  accountID <~ lift (requireText (GetInvoiceLinkInput_AccountID input) "account ID") ;;
  document <~ owned_document s accountID (GetInvoiceLinkInput_Document input) ;;
  let '(providerName, documentID) := document in
  if (TrimSpace providerName =? "") || (TrimSpace documentID =? "") then raise (not_found "invoice was not found")
  else
    p <~ of_registry (Get match s with Some service => Commerce_HasProviders service | None => false end providerName) ;;
    capable p Provider_LinksInvoices "invoice_url" ;;~
    url <~ Do (ProviderInvoiceURL p documentID) Done ;;
    if TrimSpace url =? "" then raise (not_found "provider returned no invoice URL") else ret url.
End management.
