(* ===== verification/PlanChange.v ===== *)
(** * commerce_management.go: changing the plan of a subscription

    A change is priced by the provider, its quote is shown under a
    fingerprint, and it is made only if the provider still gives that quote. *)

From S2P Require Export CommerceManagement.
Local Open Scope Z_scope.
Local Open Scope go_scope.

Definition providerReferenceIDs (reference : ProviderReference) : string * string * string :=
  (default "" (ProviderReference_ProductID reference), default "" (ProviderReference_PriceID reference),
   default "" (ProviderReference_ExternalID reference)).

Section plan_change.
Context {D : Type} `{DecimalOps D} `{RangeOrder} `{TimeZones} `{Regexps} `{Schema D}.

Notation prog := (prog (@commerce_answer D)).
Implicit Types (s : option (CommerceService D)) (accountID : string).

(** [commercePlanChangeContext] *)
Record commercePlanChangeContext := {
  context_subscription : CommerceSubscription D;
  context_provider : Provider;
  context_offer : BillingOffer D;
  context_targetPlan : string;
  context_targetInterval : string;
  context_classification : string;
  context_policy : SubscriptionChangePolicy;
}.

Definition classifyPlanChange (config : BursarConfig D)
    (currentPlan currentInterval targetPlan targetInterval : string) : result string :=
  if currentPlan =? targetPlan then
    Ok (if currentInterval =? targetInterval then PlanChangeUnchanged else PlanChangeCadenceChange)
  else
    match BursarConfig_Plans config !! currentPlan, BursarConfig_Plans config !! targetPlan with
    | Some current, Some target =>
        Ok (if PlanDefinition_Rank current <? PlanDefinition_Rank target then PlanChangeUpgrade
            else if PlanDefinition_Rank target <? PlanDefinition_Rank current then PlanChangeDowngrade
            else PlanChangeLateral)
    | _, _ =>
        Err (retryable_error "subscription plan is absent from the active catalog"
               ErrorCode.CoreBillingDataUnavailable ErrorCategory.Unavailable ∅)
    end.

(** The plan and the interval of a subscription offer. *)
Definition subscription_target (target : option (CommerceOffer D))
    : option (CommerceOffer D * string * BillingInterval) :=
  match target with
  | Some offer =>
      if CommerceOffer_Type offer =? "subscription" then
        match CommerceOffer_Plan offer, CommerceOffer_BillingInterval offer with
        | Some plan, Some interval => Some (offer, plan, interval)
        | _, _ => None
        end
      else None
  | None => None
  end.

(** The policy of a change that is one. *)
Definition change_policy (config : BursarConfig D) (classification : string) : result SubscriptionChangePolicy :=
  if classification =? PlanChangeUnchanged
  then Ok {| SubscriptionChangePolicy_Effective := ""; SubscriptionChangePolicy_Proration := "";
             SubscriptionChangePolicy_PaymentFailure := "" |}
  else
    match CommerceConfig_SubscriptionChanges (BursarConfig_Commerce config) !! classification with
    | Some policy => Ok policy
    | None =>
        Err (retryable_error "subscription change policy is missing" ErrorCode.PlanChangePolicyMissing
               ErrorCategory.Unavailable {[ "classification" := classification ]})
    end.

Definition planChangeContext s (input : PreviewPlanChangeInput) : prog commercePlanChangeContext :=
  accountID <~ lift (requireText (PreviewPlanChangeInput_AccountID input) "account ID") ;;
  offerKey <~ lift (requireText (PreviewPlanChangeInput_OfferKey input) "target offer key") ;;
  service <~ requireState s ;;
  found <~ getBillingSubscription accountID currentSubscriptionStatuses ;;
  subscription <~ match found with
                  | Some x => if TrimSpace (CommerceSubscription_ProviderSubscriptionID x) =? ""
                              then raise (not_found "no active subscription was found") else ret x
                  | None => raise (not_found "no active subscription was found")
                  end ;;
  config <~ catalog_config service ;;
  match subscription_target (CommerceConfig_Offers (BursarConfig_Commerce config) !! offerKey) with
  | None => raise (unknown_offer "target offer is not a subscription offer" offerKey ErrorCategory.NotFound)
  | Some (target, plan, interval) =>
      p <~ get_provider service (CommerceSubscription_Provider subscription) ;;
      match CommerceOffer_Providers target !! Name p with
      | None =>
          raise (NewError "target offer is unavailable from the subscription provider"
                   (error_details ErrorCode.UnknownOffer ErrorCategory.NotFound
                      {[ "offer_key" := offerKey; "provider" := Name p ]}))
      | Some reference =>
          let '(productID, priceID, lookupKey) := providerReferenceIDs reference in
          resolved <~ Do (ResolveBillingOffer (Name p) productID priceID lookupKey) Done ;;
          match resolved with
          | None => raise (not_found "target offer is not available in persisted billing state")
          | Some offer =>
              entitlement <~ of_credit (GetUserPlan (Commerce_credits service) accountID) ;;
              let currentPlan :=
                firstNonEmpty [GetUserPlanResult_PlanKey entitlement; CommerceSubscription_PlanKey subscription] in
              if currentPlan =? "" then raise (not_found "current subscription plan is unknown")
              else
                classification <~ lift (classifyPlanChange config currentPlan
                                          (CommerceSubscription_Interval subscription) plan
                                          (BillingInterval_Unit interval)) ;;
                policy <~ lift (change_policy config classification) ;;
                ret {| context_subscription := subscription; context_provider := p; context_offer := offer;
                       context_targetPlan := plan; context_targetInterval := BillingInterval_Unit interval;
                       context_classification := classification; context_policy := policy |}
          end
      end
  end.

Implicit Types c : commercePlanChangeContext.

Definition scheduled c : bool := SubscriptionChangePolicy_Effective (context_policy c) =? "renewal".

Definition providerRequest c (idempotencyKey : string) : ProviderPlanChangeRequest :=
  let offer := context_offer c in
  {| ProviderPlanChangeRequest_ProviderSubscriptionID :=
       CommerceSubscription_ProviderSubscriptionID (context_subscription c);
     ProviderPlanChangeRequest_ProductID :=
       firstNonEmpty [BillingOffer_PriceID offer; BillingOffer_ProductID offer; BillingOffer_LookupKey offer];
     ProviderPlanChangeRequest_EffectiveAt := if scheduled c then "next_billing_date" else "immediately";
     ProviderPlanChangeRequest_ProrationBillingMode :=
       if SubscriptionChangePolicy_Proration (context_policy c) =? "none" then "do_not_bill"
       else "prorated_immediately";
     ProviderPlanChangeRequest_PaymentFailure := SubscriptionChangePolicy_PaymentFailure (context_policy c);
     ProviderPlanChangeRequest_Quantity := 1;
     ProviderPlanChangeRequest_Metadata :=
       {[ "bursar_account_id" := CommerceSubscription_AccountID (context_subscription c);
          "plan_slug" := context_targetPlan c; "billing_interval" := context_targetInterval c ]};
     ProviderPlanChangeRequest_IdempotencyKey := idempotencyKey |}.

(** ** The fingerprint of a quote *)

Definition amountString (value : option D) : json :=
  match value with Some amount => JString (dec_string amount) | None => JNull end.
Definition timeString (value : option Time) : json :=
  match value with Some t => JString (FormatRFC3339Nano t) | None => JNull end.

Definition quote_line (line : PlanChangeLineItem D) : json :=
  JObject [("productId", JString (PlanChangeLineItem_ProductID line));
           ("unitPrice", JString (dec_string (PlanChangeLineItem_UnitPrice line)));
           ("quantity", JInt (PlanChangeLineItem_Quantity line));
           ("prorationFactor", JString (dec_string (PlanChangeLineItem_ProrationFactor line)));
           ("currency", JString (ToUpper (PlanChangeLineItem_Currency line)));
           ("tax", JString (dec_string (PlanChangeLineItem_Tax line)));
           ("subtotal", JString (dec_string (PlanChangeLineItem_Subtotal line)))].

Definition quote_payload (preview : PlanChangePreview D) : json :=
  JObject [("totalAmount", JString (dec_string (PlanChangePreview_TotalAmount preview)));
           ("settlementAmount", JString (dec_string (PlanChangePreview_SettlementAmount preview)));
           ("currency", JString (ToUpper (PlanChangePreview_Currency preview)));
           ("recurringAmount", amountString (PlanChangePreview_RecurringAmount preview));
           ("recurringCurrency", JString (ToUpper (PlanChangePreview_RecurringCurrency preview)));
           ("taxAmount", amountString (PlanChangePreview_TaxAmount preview));
           ("customerCredits", amountString (PlanChangePreview_CustomerCredits preview));
           ("nextBillingDate", timeString (PlanChangePreview_NextBillingDate preview));
           ("lineItems", JArray (map quote_line (PlanChangePreview_LineItems preview)))].

(** [json.Marshal] cannot fail on these values. *)
Definition planChangeQuoteFingerprint (preview : PlanChangePreview D) : string :=
  EncodeToString (Sum256 (Marshal (quote_payload preview))).

(** ** Preview and confirmation *)

Definition quote c : prog (PlanChangePreview D) :=
  capable (context_provider c) Provider_PreviewsPlanChange "preview_plan_change" ;;~
  Do (ProviderPreviewPlanChange (context_provider c) (providerRequest c "")) Done.

Definition PreviewPlanChange s (input : PreviewPlanChangeInput) : prog (PlanChangePreviewResult D) :=
  c <~ planChangeContext s input ;;
  if context_classification c =? PlanChangeUnchanged
  then ret {| PlanChangePreviewResult_Unchanged := true; PlanChangePreviewResult_Classification := PlanChangeUnchanged;
              PlanChangePreviewResult_Scheduled := false; PlanChangePreviewResult_PlanKey := context_targetPlan c;
              PlanChangePreviewResult_Interval := context_targetInterval c; PlanChangePreviewResult_Preview := None;
              PlanChangePreviewResult_QuoteFingerprint := "" |}
  else
    preview <~ quote c ;;
    ret {| PlanChangePreviewResult_Unchanged := false;
           PlanChangePreviewResult_Classification := context_classification c;
           PlanChangePreviewResult_Scheduled := scheduled c; PlanChangePreviewResult_PlanKey := context_targetPlan c;
           PlanChangePreviewResult_Interval := context_targetInterval c;
           PlanChangePreviewResult_Preview := Some preview;
           PlanChangePreviewResult_QuoteFingerprint := planChangeQuoteFingerprint preview |}.

(** The update of a change that failed is best effort. *)
Definition fail_change {A} (changeID : string) (failure : error) : prog A :=
  Do (UpdateBillingSubscriptionChange changeID
        {| BillingSubscriptionChangeUpdate_State := Some "failed";
           BillingSubscriptionChangeUpdate_ProviderOperationID := None;
           BillingSubscriptionChangeUpdate_ErrorMessage := Some (error_message failure) |})
    (fun _ => raise failure).

Definition change_create c (offerKey operationKey : string) (effectiveAt : Time) : BillingSubscriptionChangeCreate :=
  {| BillingSubscriptionChangeCreate_Provider := CommerceSubscription_Provider (context_subscription c);
     BillingSubscriptionChangeCreate_ProviderSubscriptionID :=
       CommerceSubscription_ProviderSubscriptionID (context_subscription c);
     BillingSubscriptionChangeCreate_ToOfferID := BillingOffer_ID (context_offer c);
     BillingSubscriptionChangeCreate_ToOfferKey := offerKey;
     BillingSubscriptionChangeCreate_ToPlanKey := context_targetPlan c;
     BillingSubscriptionChangeCreate_ToInterval := context_targetInterval c;
     BillingSubscriptionChangeCreate_Effective := SubscriptionChangePolicy_Effective (context_policy c);
     BillingSubscriptionChangeCreate_EffectiveAt := effectiveAt;
     BillingSubscriptionChangeCreate_ProrationBehavior := SubscriptionChangePolicy_Proration (context_policy c);
     BillingSubscriptionChangeCreate_OperationKey := operationKey |}.

(** A subscription that is to end is kept first; whether it was. *)
Definition keep_subscription c (operationKey changeID : string) : prog bool :=
  if negb (CommerceSubscription_CancelAtPeriodEnd (context_subscription c)) then ret false
  else
    let p := context_provider c in
    if negb (Provider_ReactivatesSubscription p)
    then fail_change changeID (providerCapabilityError (Name p) "reactivate_subscription")
    else
      match commerceScopedKey operationKey "keep-cancellation" with
      | Err keyErr => fail_change changeID keyErr
      | Ok keepKey =>
          Do (ProviderReactivateSubscription p
                (CommerceSubscription_ProviderSubscriptionID (context_subscription c)) keepKey)
            (fun kept => match kept with Ok _ => ret true | Err err => fail_change changeID err end)
      end.

(** After a change the provider refused, the cancellation that was lifted is
    asked for again. *)
Definition restore_cancellation c (operationKey : string) (reactivated : bool) (providerErr : error) : prog error :=
  let p := context_provider c in
  if reactivated && Provider_CancelsSubscription p then
    match commerceScopedKey operationKey "restore-cancellation" with
    | Err _ => ret providerErr
    | Ok restoreKey =>
        Do (ProviderCancelSubscription p
              (CommerceSubscription_ProviderSubscriptionID (context_subscription c)) restoreKey)
          (fun restored =>
             ret match restored with
                 | Ok _ => providerErr
                 | Err restoreErr =>
                     WrappedError ("plan change failed: " +:+ error_message providerErr +:+ "; restoring cancellation: "
                                   +:+ error_message restoreErr) providerErr
                 end)
    end
  else ret providerErr.

Definition confirmed c (unchanged : bool) (effectiveAt : option Time) : ConfirmPlanChangeResult :=
  {| ConfirmPlanChangeResult_Success := true; ConfirmPlanChangeResult_Unchanged := unchanged;
     ConfirmPlanChangeResult_Pending := negb unchanged;
     ConfirmPlanChangeResult_Scheduled := negb unchanged && scheduled c;
     ConfirmPlanChangeResult_EffectiveAt := effectiveAt;
     ConfirmPlanChangeResult_PlanKey := context_targetPlan c;
     ConfirmPlanChangeResult_Interval := context_targetInterval c |}.

(** From the durable change on. *)
Definition make_change c (operationKey : string) (effectiveAt : Time) (change : BillingSubscriptionChange)
    : prog ConfirmPlanChangeResult :=
  let changeID := BillingSubscriptionChange_ID change in
  reactivated <~ keep_subscription c operationKey changeID ;;
  Do (ProviderChangePlan (context_provider c) (providerRequest c operationKey)) (fun changed =>
    match changed with
    | Ok _ => ret (confirmed c false (Some effectiveAt))
    | Err providerErr =>
        failure <~ restore_cancellation c operationKey reactivated providerErr ;;
        fail_change changeID failure
    end).

(** The date of a change at renewal is the provider's. *)
Definition effective_date c (preview : PlanChangePreview D) : result Time :=
  if scheduled c then
    match PlanChangePreview_NextBillingDate preview with
    | Some date => Ok date
    | None => Err (retryable_error "provider did not return the scheduled change date"
                     ErrorCode.CoreBillingDataUnavailable ErrorCategory.Unavailable ∅)
    end
  else Ok (PlanChangePreview_EffectiveAt preview).

Definition quote_changed (fingerprint : string) : error :=
  NewError "the financial preview changed"
    (error_details ErrorCode.QuoteChanged ErrorCategory.Conflict {[ "quote_fingerprint" := fingerprint ]}).

Definition quote_accepted (given fingerprint : string) : bool :=
  negb (TrimSpace given =? "") && EqualFold given fingerprint.

Definition ConfirmPlanChange s (input : ConfirmPlanChangeInput) : prog ConfirmPlanChangeResult :=
  operationKey <~ lift (requireStableKey (ConfirmPlanChangeInput_OperationKey input) "plan change operation key") ;;
  c <~ planChangeContext s {| PreviewPlanChangeInput_AccountID := ConfirmPlanChangeInput_AccountID input;
                              PreviewPlanChangeInput_OfferKey := ConfirmPlanChangeInput_OfferKey input |} ;;
  if context_classification c =? PlanChangeUnchanged then ret (confirmed c true None)
  else
    preview <~ quote c ;;
    let fingerprint := planChangeQuoteFingerprint preview in
    if negb (quote_accepted (ConfirmPlanChangeInput_QuoteFingerprint input) fingerprint)
    then raise (quote_changed fingerprint)
    else
      requireState s ;;~
      existing <~ getOpenChange (CommerceSubscription_Provider (context_subscription c))
                    (CommerceSubscription_ProviderSubscriptionID (context_subscription c)) ;;
      match existing with
      | Some change =>
          raise (NewError "a subscription change is already pending"
                   (error_details ErrorCode.CheckoutConflict ErrorCategory.Conflict
                      {[ "subscription_change_id" := BillingSubscriptionChange_ID change ]}))
      | None =>
          effectiveAt <~ lift (effective_date c preview) ;;
          capable (context_provider c) Provider_ChangesPlan "change_plan" ;;~
          change <~ Do (CreateBillingSubscriptionChange
                          (change_create c (ConfirmPlanChangeInput_OfferKey input) operationKey effectiveAt)) Done ;;
          make_change c operationKey effectiveAt change
      end.

Definition CancelScheduledPlanChange s accountID (operationKey : string) : prog unit :=
  accountID <~ lift (requireText accountID "account ID") ;;
  operationKey <~ lift (requireStableKey operationKey "scheduled plan change operation key") ;;
  service <~ requireState s ;;
  found <~ subscriptionForCommand s accountID "" currentSubscriptionStatuses ;;
  match found with
  | None => raise (not_found "no active subscription was found")
  | Some subscription =>
      open <~ getOpenChange (CommerceSubscription_Provider subscription)
                (CommerceSubscription_ProviderSubscriptionID subscription) ;;
      match open with
      | Some change =>
          if (BillingSubscriptionChange_State change =? "scheduled")
             && (BillingSubscriptionChange_Effective change =? "renewal") then
            p <~ get_provider service (CommerceSubscription_Provider subscription) ;;
            capable p Provider_CancelsScheduledChange "cancel_scheduled_plan_change" ;;~
            Do (ProviderCancelScheduledChange p (CommerceSubscription_ProviderSubscriptionID subscription)
                  (BillingSubscriptionChange_ProviderOperationID change) operationKey) Done ;;~
            Do (UpdateBillingSubscriptionChange (BillingSubscriptionChange_ID change)
                  {| BillingSubscriptionChangeUpdate_State := Some "canceled";
                     BillingSubscriptionChangeUpdate_ProviderOperationID := None;
                     BillingSubscriptionChangeUpdate_ErrorMessage := None |}) Done
          else raise (not_found "no scheduled plan change was found")
      | None => raise (not_found "no scheduled plan change was found")
      end
  end.
End plan_change.
Arguments commercePlanChangeContext : clear implicits.
