(* ===== verification/CommerceCheckout.v ===== *)
(** * commerce.go: hosted checkout

    A checkout is a durable intent, made before the provider is asked for a
    session and bound to the request by a digest, so that a retry under the
    same key finds the intent and its session again. *)

From S2P Require Export CommerceManagement.
Local Open Scope Z_scope.
Local Open Scope go_scope.

Definition checkoutMode (offerType : string) : string :=
  if offerType =? "subscription" then "subscription" else "payment".

Definition checkoutIntentKind (offerType : string) : string :=
  if offerType =? "subscription" then "subscription" else "credit_topup".

Definition replaceCheckoutIntentURL (value intentID : string) : string := ReplaceAll value "{intentId}" intentID.

(** [checkoutRequestDigest] of postgres_commerce.go, in hexadecimal. *)
Definition checkout_payload (input : CheckoutIntentCreate) : json :=
  let kind := if CheckoutIntentCreate_CheckoutKind input =? "credit_topup" then "topup"
              else CheckoutIntentCreate_CheckoutKind input in
  JObject [("accountId", JString (CheckoutIntentCreate_AccountID input)); ("checkoutKind", JString kind);
           ("offerKey", JString (CheckoutIntentCreate_ProductKey input));
           ("provider", JString (CheckoutIntentCreate_Provider input));
           ("quantity", JInt (CheckoutIntentCreate_Quantity input))].

Definition checkoutRequestDigest (input : CheckoutIntentCreate) : string :=
  EncodeToString (Sum256 (Marshal (checkout_payload input))).

Definition quantity_error (message : string) : error :=
  commerce_error message ErrorCode.InvalidOfferQuantity ErrorCategory.InvalidRequest.

(** The fields a retry of a checkout finds again. *)
Definition with_status (intent : CheckoutIntent) (sessionID url status : string) : CheckoutIntent :=
  {| CheckoutIntent_ID := CheckoutIntent_ID intent; CheckoutIntent_SubjectID := CheckoutIntent_SubjectID intent;
     CheckoutIntent_OfferKey := CheckoutIntent_OfferKey intent; CheckoutIntent_Provider := CheckoutIntent_Provider intent;
     CheckoutIntent_CheckoutKind := CheckoutIntent_CheckoutKind intent;
     CheckoutIntent_ProductKey := CheckoutIntent_ProductKey intent; CheckoutIntent_ProviderSessionID := sessionID;
     CheckoutIntent_ProviderURL := url; CheckoutIntent_Status := status;
     CheckoutIntent_IdempotencyKey := CheckoutIntent_IdempotencyKey intent;
     CheckoutIntent_RequestDigest := CheckoutIntent_RequestDigest intent;
     CheckoutIntent_ExpiresAt := CheckoutIntent_ExpiresAt intent; CheckoutIntent_CreatedAt := CheckoutIntent_CreatedAt intent;
     CheckoutIntent_UpdatedAt := CheckoutIntent_UpdatedAt intent |}.

Definition no_session : CheckoutSession :=
  {| CheckoutSession_ID := ""; CheckoutSession_URL := ""; CheckoutSession_CustomerID := "" |}.

Definition status_update (status : string) : CheckoutIntentUpdate :=
  {| CheckoutIntentUpdate_ProviderSessionID := ""; CheckoutIntentUpdate_ProviderURL := "";
     CheckoutIntentUpdate_CustomerID := ""; CheckoutIntentUpdate_Status := status |}.

Section checkout.
Context {D : Type} `{DecimalOps D} `{RangeOrder} `{TimeZones} `{Regexps} `{Schema D}.

Notation prog := (prog (@commerce_answer D)).
Implicit Types (s : option (CommerceService D)) (service : CommerceService D).

Definition commerce_not_configured : error :=
  commerce_error "commerce is not configured" ErrorCode.CommerceNotConfigured ErrorCategory.Internal.

Definition checkoutQuantity (offer : CommerceOffer D) (requested : option Z) : result Z :=
  if CommerceOffer_Type offer =? "subscription" then
    match requested with
    | Some n => if (n =? 1)%Z then Ok 1 else Err (quantity_error "subscription checkout quantity must be 1")
    | None => Ok 1
    end
  else
    let fallback := match CommerceOffer_Quantity offer with
                    | Some q => if 0 <? OfferQuantity_Default q then OfferQuantity_Default q else 1
                    | None => 1
                    end in
    let quantity := default fallback requested in
    if quantity <? 1 then Err (quantity_error "checkout quantity must be positive")
    else
      match CommerceOffer_Quantity offer with
      | Some q =>
          if (0 <? OfferQuantity_Minimum q) && (quantity <? OfferQuantity_Minimum q)
          then Err (quantity_error "checkout quantity is below offer minimum")
          else if (0 <? OfferQuantity_Maximum q) && (OfferQuantity_Maximum q <? quantity)
          then Err (quantity_error "checkout quantity exceeds offer maximum")
          else Ok quantity
      | None => Ok quantity
      end.

(** The type the caller may assert. *)
Definition check_requested_type (input : CreateCheckoutInput) (offerKey : string) (offer : CommerceOffer D)
    : result unit :=
  let requestedType := ToLower (TrimSpace (CreateCheckoutInput_Type input)) in
  if requestedType =? "" then Ok tt
  else if negb (requestedType =? "subscription") && negb (requestedType =? "credit_pack")
  then Err (invalid_request "checkout type is invalid")
  else
    let offerType := ToLower (TrimSpace (CommerceOffer_Type offer)) in
    let offerType := if offerType =? "topup" then "credit_pack" else offerType in
    if requestedType =? offerType then Ok tt
    else Err (NewError "checkout type does not match the selected offer"
                (error_details ErrorCode.UnknownOffer ErrorCategory.InvalidRequest
                   {[ "offer_key" := offerKey; "type" := requestedType ]})).

(** The account's customer and the provider its subscription is with. *)
Definition account_customer service accountID : prog (string * option BillingCustomerRecord) :=
  if negb (Commerce_HasState service) then ret ("", None)
  else
    subscription <~ getBillingSubscription accountID [] ;;
    let currentProvider := match subscription with
                           | Some x => TrimSpace (CommerceSubscription_Provider x)
                           | None => ""
                           end in
    customer <~ getBillingCustomer accountID currentProvider ;;
    ret (currentProvider, customer).

(** A second subscription is refused. *)
Definition check_blocking s accountID (offer : CommerceOffer D) : prog unit :=
  if negb (CommerceOffer_Type offer =? "subscription") then ret tt
  else
    requireState s ;;~
    blocking <~ getBillingSubscription accountID blockingSubscriptionStatuses ;;
    match blocking with
    | None => ret tt
    | Some x =>
        raise (NewError "account already has a blocking subscription"
                 (error_details ErrorCode.ActiveSubscription ErrorCategory.Conflict
                    {[ "account_id" := accountID;
                       "subscription_id" := CommerceSubscription_ProviderSubscriptionID x ]}))
    end.

(** The provider of the checkout, with the account's customer there. *)
Definition checkout_provider service accountID (requested : string) (offer : CommerceOffer D)
    (currentProvider : string) (customer : option BillingCustomerRecord)
    : prog (Provider * option BillingCustomerRecord) :=
  let fallback := if negb (currentProvider =? "") then currentProvider
                  else match customer with
                       | Some c => TrimSpace (BillingCustomerRecord_Provider c)
                       | None => Commerce_defaultProvider service
                       end in
  p <~ of_registry (Select (Commerce_HasProviders service) requested fallback
                      (sortedProviderKeys (CommerceOffer_Providers offer))) ;;
  let known := match customer with Some c => BillingCustomerRecord_Provider c =? Name p | None => false end in
  customer <~ (if Commerce_HasState service && negb known then getBillingCustomer accountID (Name p) else ret customer) ;;
  ret (p, customer).

Definition checkout_metadata (input : CreateCheckoutInput) accountID (offer : CommerceOffer D) (quantity : Z)
    : gmap string string :=
  let metadata := <["bursar_account_id" := accountID]> (CreateCheckoutInput_Metadata input) in
  if CommerceOffer_Type offer =? "subscription" then
    let metadata := match CommerceOffer_Plan offer with
                    | Some plan => <["plan_slug" := TrimSpace plan]> metadata
                    | None => metadata
                    end in
    match CommerceOffer_BillingInterval offer with
    | Some interval => <["billing_interval" := TrimSpace (BillingInterval_Unit interval)]> metadata
    | None => metadata
    end
  else
    let metadata := match CommerceOffer_CreditsPerUnit offer with
                    | Some credits => <["credits" := dec_string (dec_mul credits (NewFromInt quantity))]> metadata
                    | None => metadata
                    end in
    <["quantity" := itoa quantity]> metadata.

(** With a state store its customer is the only one; the caller's is taken
    without one. *)
Definition checkout_customer service (input : CreateCheckoutInput) (customer : option BillingCustomerRecord) : string :=
  let given := if Commerce_HasState service then "" else TrimSpace (CreateCheckoutInput_CustomerID input) in
  match customer with
  | Some c => if TrimSpace (BillingCustomerRecord_ProviderCustomerID c) =? "" then given
              else TrimSpace (BillingCustomerRecord_ProviderCustomerID c)
  | None => given
  end.

(** ** The status of an intent *)

Definition updateIntent (intentID subjectID : string) (update : CheckoutIntentUpdate) : prog unit :=
  Do (UpdateCheckoutIntent intentID subjectID update) Done.

(** What the provider's status stands for, and the durable one. *)
Definition provider_status (status : string) : option (string * string) :=
  if containsText ["complete"; "completed"; "paid"; "succeeded"] status
  then Some ("completed", CheckoutStatusSucceeded)
  else if status =? "expired" then Some ("expired", CheckoutStatusExpired)
  else if containsText ["failed"; "cancelled"; "canceled"; "requires_payment_method"] status
  then Some ("failed", CheckoutStatusFailed)
  else None.

(** An intent whose expiry has passed. *)
Definition expired (intent : CheckoutIntent) : prog bool :=
  if IsZeroTime (CheckoutIntent_ExpiresAt intent) then ret false
  else now <~ commerce_now ;; ret (negb (After (CheckoutIntent_ExpiresAt intent) (ToUTC now))).

(** An open intent asks its provider. *)
Definition reconcile service (intent : CheckoutIntent) (subjectID : string) : prog string :=
  if (TrimSpace (CheckoutIntent_ProviderSessionID intent) =? "") || negb (Commerce_HasProviders service)
  then ret CheckoutStatusPending
  else
    p <~ get_provider service (CheckoutIntent_Provider intent) ;;
    if negb (Provider_ReportsCheckoutStatus p) then ret CheckoutStatusPending
    else
      status <~ Do (ProviderCheckoutStatus p (CheckoutIntent_ProviderSessionID intent)) Done ;;
      match provider_status (ToLower (TrimSpace status)) with
      | None => ret CheckoutStatusPending
      | Some (durable, status) =>
          updateIntent (CheckoutIntent_ID intent) subjectID (status_update durable) ;;~
          ret status
      end.

Definition resolveCheckoutStatus service (intent : CheckoutIntent) (subjectID : string) : prog string :=
  let status := ToLower (TrimSpace (CheckoutIntent_Status intent)) in
  if status =? "completed" then ret CheckoutStatusSucceeded
  else if containsText ["failed"; "cancelled"; "canceled"] status then ret CheckoutStatusFailed
  else if status =? "expired" then ret CheckoutStatusExpired
  else if negb ((status =? "open") || (status =? "")) then ret CheckoutStatusFailed
  else
    late <~ expired intent ;;
    if late : bool then
      updateIntent (CheckoutIntent_ID intent) subjectID (status_update "expired") ;;~
      ret CheckoutStatusExpired
    else reconcile service intent subjectID.

Definition GetCheckoutIntent s (intentID subjectID : string) : prog (option CheckoutIntent) :=
  match s with
  | Some service =>
      if negb (Commerce_HasStore service) then raise commerce_not_configured
      else
        lift (requireText intentID "checkout intent ID") ;;~
        lift (requireText subjectID "checkout subject ID") ;;~
        Do (ReadCheckoutIntent intentID subjectID) Done
  | None => raise commerce_not_configured
  end.

Definition GetCheckoutStatus s (intentID subjectID : string) : prog CheckoutStatusResult :=
  intent <~ GetCheckoutIntent s intentID subjectID ;;
  match intent, s with
  | Some intent, Some service =>
      status <~ resolveCheckoutStatus service intent subjectID ;;
      ret {| CheckoutStatusResult_IntentID := CheckoutIntent_ID intent; CheckoutStatusResult_Status := status |}
  | _, _ => raise (not_found "checkout intent was not found")
  end.

(** ** Creating a checkout *)

Notation outcome := (CreateCheckoutResult * option error)%type.

Definition checkout_result (intent : CheckoutIntent) (session : CheckoutSession) : CreateCheckoutResult :=
  {| CreateCheckoutResult_Intent := intent; CreateCheckoutResult_Session := session |}.

(** The intent beside an error. *)
Definition refuse (intent : CheckoutIntent) (err : error) : prog outcome :=
  ret (checkout_result intent no_session, Some err).

Definition checkout_conflict (message : string) (details : gmap string string) (intent : CheckoutIntent) : error :=
  NewError message (error_details ErrorCode.CheckoutConflict ErrorCategory.Conflict
                      (<["checkout_intent_id" := CheckoutIntent_ID intent]> details)).

Definition checkout_completed (intent : CheckoutIntent) : error :=
  NewError "checkout was already completed"
    (error_details ErrorCode.CheckoutCompleted ErrorCategory.Conflict
       {[ "checkout_intent_id" := CheckoutIntent_ID intent ]}).

(** A checkout whose request has been resolved. *)
Record resolved_checkout := {
  resolved_input : CreateCheckoutInput;
  resolved_subjectID : string;
  resolved_accountID : string;
  resolved_offer : CommerceOffer D;
  resolved_provider : Provider;
  resolved_productID : string;
  resolved_quantity : Z;
  resolved_customerID : string;
  resolved_metadata : gmap string string;
  resolved_key : string;
}.

Definition intent_create (r : resolved_checkout) (offerKey : string) (expiresAt : Time) (digest : string)
    : CheckoutIntentCreate :=
  {| CheckoutIntentCreate_SubjectID := resolved_subjectID r; CheckoutIntentCreate_AccountID := resolved_accountID r;
     CheckoutIntentCreate_Provider := Name (resolved_provider r);
     CheckoutIntentCreate_CheckoutKind := checkoutIntentKind (CommerceOffer_Type (resolved_offer r));
     CheckoutIntentCreate_ProductKey := offerKey; CheckoutIntentCreate_Quantity := resolved_quantity r;
     CheckoutIntentCreate_IdempotencyKey := resolved_key r; CheckoutIntentCreate_RequestDigest := digest;
     CheckoutIntentCreate_ExpiresAt := expiresAt; CheckoutIntentCreate_Region := CreateCheckoutInput_Region (resolved_input r);
     CheckoutIntentCreate_Metadata := resolved_metadata r |}.

(** Everything up to the durable intent. *)
Definition resolve_checkout s service (input : CreateCheckoutInput) : prog (resolved_checkout * string) :=
  subjectID <~ lift (requireText (CreateCheckoutInput_SubjectID input) "checkout subject ID") ;;
  accountID <~ lift (requireText (CreateCheckoutInput_AccountID input) "checkout account ID") ;;
  offerKey <~ lift (requireText (CreateCheckoutInput_OfferKey input) "checkout offer key") ;;
  idempotencyKey <~ lift (requireStableKey (CreateCheckoutInput_IdempotencyKey input) "checkout idempotency key") ;;
  if (TrimSpace (CreateCheckoutInput_SuccessURL input) =? "") || (TrimSpace (CreateCheckoutInput_CancelURL input) =? "")
  then raise (invalid_request "checkout success and cancel URLs are required")
  else
    config <~ catalog_config service ;;
    match CommerceConfig_Offers (BursarConfig_Commerce config) !! offerKey with
    | None => raise (unknown_offer "checkout offer was not found" offerKey ErrorCategory.NotFound)
    | Some offer =>
        lift (check_requested_type input offerKey offer) ;;~
        quantity <~ lift (checkoutQuantity offer (CreateCheckoutInput_Quantity input)) ;;
        account <~ account_customer service accountID ;;
        let '(currentProvider, customer) := account in
        check_blocking s accountID offer ;;~
        selected <~ checkout_provider service accountID (CreateCheckoutInput_Provider input) offer currentProvider customer ;;
        let '(p, customer) := selected in
        match CommerceOffer_Providers offer !! Name p with
        | None =>
            raise (NewError "selected provider has no offer reference"
                     (error_details ErrorCode.ProviderSelectionFailed ErrorCategory.InvalidRequest
                        {[ "provider" := Name p; "offer_key" := offerKey ]}))
        | Some reference =>
            let productID := providerProductID reference in
            if productID =? ""
            then raise (NewError "offer provider reference has no product identifier"
                          (error_details ErrorCode.UnknownOffer ErrorCategory.InvalidRequest
                             {[ "provider" := Name p; "offer_key" := offerKey ]}))
            else
              ret ({| resolved_input := input; resolved_subjectID := subjectID; resolved_accountID := accountID;
                      resolved_offer := offer; resolved_provider := p; resolved_productID := productID;
                      resolved_quantity := quantity;
                      resolved_customerID := checkout_customer service input customer;
                      resolved_metadata := checkout_metadata input accountID offer quantity;
                      resolved_key := idempotencyKey |}, offerKey)
        end
    end.

Definition session_request (r : resolved_checkout) (intentID : string) : CheckoutSessionRequest :=
  {| CheckoutSessionRequest_AccountID := resolved_accountID r; CheckoutSessionRequest_ProductID := resolved_productID r;
     CheckoutSessionRequest_Mode := checkoutMode (CommerceOffer_Type (resolved_offer r));
     CheckoutSessionRequest_Quantity := resolved_quantity r;
     CheckoutSessionRequest_SuccessURL := replaceCheckoutIntentURL (CreateCheckoutInput_SuccessURL (resolved_input r)) intentID;
     CheckoutSessionRequest_CancelURL := replaceCheckoutIntentURL (CreateCheckoutInput_CancelURL (resolved_input r)) intentID;
     CheckoutSessionRequest_CustomerID := resolved_customerID r;
     CheckoutSessionRequest_CustomerEmail := CreateCheckoutInput_CustomerEmail (resolved_input r);
     CheckoutSessionRequest_Metadata := <["checkout_intent_id" := intentID]> (resolved_metadata r);
     CheckoutSessionRequest_IdempotencyKey := resolved_key r |}.

(** The customer a provider attached is kept, where a store can. *)
Definition keep_customer service (r : resolved_checkout) (session : CheckoutSession) : prog unit :=
  let customerID := TrimSpace (CheckoutSession_CustomerID session) in
  if (customerID =? "") || negb (Commerce_StateWritesCustomers service || Commerce_StoreWritesCustomers service)
  then ret tt
  else
    Do (UpsertBillingCustomer
          {| BillingCustomerRecord_Provider := Name (resolved_provider r);
             BillingCustomerRecord_ProviderCustomerID := customerID;
             BillingCustomerRecord_AccountID := resolved_accountID r;
             BillingCustomerRecord_Email := TrimSpace (CreateCheckoutInput_CustomerEmail (resolved_input r)) |}) Done.

(** A session for an intent without one. *)
Definition open_session service (r : resolved_checkout) (intent : CheckoutIntent) : prog outcome :=
  Do (ProviderCreateCheckoutSession (resolved_provider r) (session_request r (CheckoutIntent_ID intent))) (fun created =>
    match created with
    | Err err => refuse intent err
    | Ok session =>
        pcatch (keep_customer service r session ;;~
                updateIntent (CheckoutIntent_ID intent) (resolved_subjectID r)
                  {| CheckoutIntentUpdate_ProviderSessionID := CheckoutSession_ID session;
                     CheckoutIntentUpdate_ProviderURL := CheckoutSession_URL session;
                     CheckoutIntentUpdate_CustomerID := CheckoutSession_CustomerID session;
                     CheckoutIntentUpdate_Status := "open" |})
          (fun updated =>
             match updated with
             | Err err => ret (checkout_result intent session, Some err)
             | Ok _ =>
                 ret (checkout_result (with_status intent (CheckoutSession_ID session) (CheckoutSession_URL session) "open")
                        session, None)
             end)
    end).

(** The session an intent already has, while it is active. *)
Definition resume_session service (r : resolved_checkout) (intent : CheckoutIntent) : prog outcome :=
  pcatch (resolveCheckoutStatus service intent (resolved_subjectID r)) (fun resolved =>
    match resolved with
    | Err err => refuse intent err
    | Ok status =>
        if status =? CheckoutStatusSucceeded then refuse intent (checkout_completed intent)
        else if (status =? CheckoutStatusFailed) || (status =? CheckoutStatusExpired)
        then refuse intent (checkout_conflict "checkout operation is no longer active; use a new idempotency key"
                              {[ "status" := status ]} intent)
        else
          ret (checkout_result intent
                 {| CheckoutSession_ID := CheckoutIntent_ProviderSessionID intent;
                    CheckoutSession_URL := CheckoutIntent_ProviderURL intent; CheckoutSession_CustomerID := "" |}, None)
    end).

(** From the durable intent on. *)
Definition continue_checkout service (r : resolved_checkout) (digest : string) (intent : CheckoutIntent) : prog outcome :=
  if (CheckoutIntent_RequestDigest intent =? "") || negb (EqualFold (CheckoutIntent_RequestDigest intent) digest)
  then refuse intent (checkout_conflict "checkout idempotency key is already bound to a different request" ∅ intent)
  else if CheckoutIntent_Status intent =? "completed" then refuse intent (checkout_completed intent)
  else if negb (CheckoutIntent_Status intent =? "open")
  then refuse intent (checkout_conflict "checkout operation is terminal; use a new idempotency key"
                        {[ "status" := CheckoutIntent_Status intent ]} intent)
  else
    late <~ expired intent ;;
    if late : bool then
      pcatch (updateIntent (CheckoutIntent_ID intent) (resolved_subjectID r) (status_update "expired")) (fun updated =>
        match updated with
        | Err err => refuse intent err
        | Ok _ =>
            refuse (with_status intent (CheckoutIntent_ProviderSessionID intent) (CheckoutIntent_ProviderURL intent) "expired")
              (checkout_conflict "checkout operation expired; use a new idempotency key" ∅ intent)
        end)
    else if negb (CheckoutIntent_ProviderSessionID intent =? "") && negb (CheckoutIntent_ProviderURL intent =? "")
    then resume_session service r intent
    else open_session service r intent.

Definition CreateCheckout s (input : CreateCheckoutInput) : prog outcome :=
  match s with
  | Some service =>
      if negb (Commerce_HasStore service) || negb (Commerce_HasProviders service) then raise commerce_not_configured
      else
        resolved <~ resolve_checkout s service input ;;
        let '(r, offerKey) := resolved in
        now <~ commerce_now ;;
        let expiresAt := time_Add (ToUTC now) (Commerce_checkoutIntentTTL service) in
        let digest := checkoutRequestDigest (intent_create r offerKey expiresAt "") in
        intent <~ Do (CreateOrGetCheckoutIntent (intent_create r offerKey expiresAt digest)) Done ;;
        continue_checkout service r digest intent
  | None => raise commerce_not_configured
  end.
End checkout.
Arguments resolved_checkout : clear implicits.
