(* ===== verification/CommerceSamples.v ===== *)
(** * A sample commerce service, its stores and its provider

    A catalog with two plans and two offers, an account that subscribes to the
    smaller plan, and a provider that does what it is asked, for the concrete
    runs of the theorems about commerce. *)

From S2P Require Export PlanChange CommerceCheckout CreditsFacts ProviderRegistryFacts.
From S2P Require Import ConfigIntegrity ConfigPricingFacts.
Local Open Scope Z_scope.
Local Open Scope go_scope.

Definition sample_offer (kind price : string) (rest : list (string * any Ref.dec)) : any Ref.dec :=
  obj ([("type", AString kind); ("display_name", AString "Offer");
        ("price", obj [("amount_minor", ANumber "500"); ("currency", AString "EUR")]);
        ("providers", obj [("mock", obj [("type", AString "stripe_price"); ("price_id", AString price)])])] ++ rest)%list.

Definition sample_plan (rank : string) : any Ref.dec :=
  obj [("display_name", AString "Plan"); ("rank", ANumber rank)].

Definition sample_monthly (plan price : string) : any Ref.dec :=
  sample_offer "subscription" price
    [("plan", AString plan); ("billing_interval", obj [("unit", AString "month"); ("count", ANumber "1")])].

Definition sample_commerce_catalog : gmap string (any Ref.dec) :=
  list_to_map
    [("version", ANumber "1");
     ("credits", obj [("buckets", obj [("main", obj [("priority", ANumber "10")])]); ("default_bucket", AString "main")]);
     ("catalog", obj [("default_plan", AString "basic")]);
     ("plans", obj [("basic", sample_plan "1"); ("pro", sample_plan "2")]);
     ("commerce", obj
        [("providers", obj [("mock", obj [("type", AString "stripe")])]);
         ("offers", obj [("basic_monthly", sample_monthly "basic" "price_1");
                         ("pro_monthly", sample_monthly "pro" "price_2");
                         ("credits", sample_offer "topup" "price_3"
                            [("credits_per_unit", AString "100"); ("bucket", AString "main");
                             ("quantity", obj [("minimum", ANumber "1"); ("maximum", ANumber "10");
                                               ("default", ANumber "2")])])]);
         ("subscription_changes", obj
            [("upgrade", obj [("effective", AString "immediate"); ("proration", AString "full")])])])].

Definition sample_commerce : CommerceService Ref.dec :=
  {| Commerce_HasBilling := true;
     Commerce_catalog := Some {| CatalogService_HasStore := true; CatalogService_cacheTTL := defaultCatalogCacheTTL |};
     Commerce_credits := Some sample_credits; Commerce_HasStore := true; Commerce_HasState := true;
     Commerce_StoreWritesCustomers := false; Commerce_StateWritesCustomers := true; Commerce_HasAutoRecharge := false;
     Commerce_HasProviders := true; Commerce_defaultProvider := "mock"; Commerce_checkoutIntentTTL := 24 * Hour;
     Commerce_preferenceDefaults :=
       {| PreferencePatch_AutoRecharge := None; PreferencePatch_OverageProtection := None;
          PreferencePatch_EmailNotifications := None; PreferencePatch_UsageAlerts := None;
          PreferencePatch_InvoiceReminders := None |} |}.

(** The subscription of [account_1], cancelled at the end of its period. *)
Definition sample_subscription (status : string) : CommerceSubscription Ref.dec :=
  {| CommerceSubscription_ID := "1"; CommerceSubscription_CatalogRevisionID := ""; CommerceSubscription_Provider := "mock";
     CommerceSubscription_ProviderSubscriptionID := "sub_1"; CommerceSubscription_AccountID := "account_1";
     CommerceSubscription_ProviderCustomerID := "cus_1"; CommerceSubscription_OfferID := "offer_1";
     CommerceSubscription_OfferKey := "basic_monthly"; CommerceSubscription_PlanID := "plan_1";
     CommerceSubscription_PlanKey := "basic"; CommerceSubscription_Status := status;
     CommerceSubscription_Interval := "month"; CommerceSubscription_IntervalCount := 1;
     CommerceSubscription_CurrentPeriodStart := None; CommerceSubscription_CurrentPeriodEnd := None;
     CommerceSubscription_TrialEnd := None; CommerceSubscription_CancelAt := None; CommerceSubscription_EndedAt := None;
     CommerceSubscription_CancelAtPeriodEnd := (status =? "active"); CommerceSubscription_GraceEndsAt := None;
     CommerceSubscription_GraceExpiredAt := None; CommerceSubscription_ProviderUpdatedAt := zero_time;
     CommerceSubscription_Metadata := ∅ |}.

Definition sample_moment : Time := {| instant := 1786363200 * Second; location := UTC |}.

Definition sample_quote : PlanChangePreview Ref.dec :=
  {| PlanChangePreview_TotalAmount := lit "12.50"; PlanChangePreview_SettlementAmount := lit "12.50";
     PlanChangePreview_Currency := "eur"; PlanChangePreview_LineItems := [];
     PlanChangePreview_EffectiveAt := sample_moment; PlanChangePreview_RecurringAmount := None;
     PlanChangePreview_RecurringCurrency := ""; PlanChangePreview_NextBillingDate := None;
     PlanChangePreview_TaxAmount := None; PlanChangePreview_CustomerCredits := None |}.

(** What the stores keep: the account's subscription, whether a change is
    open and the checkout intent. *)
Record sample_world := {
  world_subscription : option (CommerceSubscription Ref.dec);
  world_change : option BillingSubscriptionChange;
  world_intent : option CheckoutIntent;
}.

Definition stored_change (create : BillingSubscriptionChangeCreate) : BillingSubscriptionChange :=
  {| BillingSubscriptionChange_ID := "change_1";
     BillingSubscriptionChange_Provider := BillingSubscriptionChangeCreate_Provider create;
     BillingSubscriptionChange_SubscriptionID := BillingSubscriptionChangeCreate_ProviderSubscriptionID create;
     BillingSubscriptionChange_ToOfferID := BillingSubscriptionChangeCreate_ToOfferID create;
     BillingSubscriptionChange_ToOfferKey := BillingSubscriptionChangeCreate_ToOfferKey create;
     BillingSubscriptionChange_ToPlanKey := BillingSubscriptionChangeCreate_ToPlanKey create;
     BillingSubscriptionChange_ToInterval := BillingSubscriptionChangeCreate_ToInterval create;
     BillingSubscriptionChange_Effective := BillingSubscriptionChangeCreate_Effective create;
     BillingSubscriptionChange_EffectiveAt := BillingSubscriptionChangeCreate_EffectiveAt create;
     BillingSubscriptionChange_ProrationBehavior := BillingSubscriptionChangeCreate_ProrationBehavior create;
     BillingSubscriptionChange_State := "pending"; BillingSubscriptionChange_ProviderOperationID := "";
     BillingSubscriptionChange_ErrorMessage := ""; BillingSubscriptionChange_CreatedAt := sample_moment;
     BillingSubscriptionChange_UpdatedAt := sample_moment |}.

Definition stored_intent (create : CheckoutIntentCreate) : CheckoutIntent :=
  {| CheckoutIntent_ID := "intent_1"; CheckoutIntent_SubjectID := CheckoutIntentCreate_SubjectID create;
     CheckoutIntent_OfferKey := CheckoutIntentCreate_ProductKey create;
     CheckoutIntent_Provider := CheckoutIntentCreate_Provider create;
     CheckoutIntent_CheckoutKind := CheckoutIntentCreate_CheckoutKind create;
     CheckoutIntent_ProductKey := CheckoutIntentCreate_ProductKey create; CheckoutIntent_ProviderSessionID := "";
     CheckoutIntent_ProviderURL := ""; CheckoutIntent_Status := "open";
     CheckoutIntent_IdempotencyKey := CheckoutIntentCreate_IdempotencyKey create;
     CheckoutIntent_RequestDigest := CheckoutIntentCreate_RequestDigest create;
     CheckoutIntent_ExpiresAt := CheckoutIntentCreate_ExpiresAt create; CheckoutIntent_CreatedAt := sample_moment;
     CheckoutIntent_UpdatedAt := sample_moment |}.

Definition sample_billing_offer (priceID : string) : BillingOffer Ref.dec :=
  {| BillingOffer_ID := "offer_2"; BillingOffer_Provider := "mock"; BillingOffer_OfferKey := "pro_monthly";
     BillingOffer_PlanID := "plan_2"; BillingOffer_PlanKey := "pro"; BillingOffer_ProductID := "";
     BillingOffer_PriceID := priceID; BillingOffer_LookupKey := ""; BillingOffer_Interval := "month";
     BillingOffer_IntervalCnt := 1; BillingOffer_Grant := None |}.

Definition credit_callee (c : credit_call Ref.dec) : credit_answer c :=
  match c with
  | StoreGetActiveCatalog =>
      Ok (Some {| CatalogRevision_ID := "revision_1"; CatalogRevision_Config := Some sample_commerce_catalog;
                  CatalogRevision_Version := 1 |})
  | StoreGetUserPlan _ =>
      Ok {| GetUserPlanResult_PlanKey := "basic"; GetUserPlanResult_RateCard := "";
            GetUserPlanResult_CatalogVersion := None; GetUserPlanResult_PlanAssignedAt := None |}
  | Now => sample_moment
  | c => no_answer c
  end.

Definition registry_callee (c : registry_call) : registry_answer c :=
  match c with
  | LookupProvider _ => Cached sample_payment_provider
  | AwaitLoad _ _ => Ok sample_payment_provider
  | RunFactory _ _ => Built (Ok (Some sample_payment_provider))
  | FinishLoad _ _ _ | ClearSection => tt
  | ConfiguredNames => ["mock"]
  end.

(** [changing]: what the provider answers to a plan change. *)
Definition commerce_callee (changing : result ProviderPlanChangeResult) (c : commerce_call Ref.dec) (w : sample_world)
    : commerce_answer c * sample_world :=
  match c with
  | Credit c => (credit_callee c, w)
  | Providers c => (registry_callee c, w)
  | CreateOrGetCheckoutIntent create =>
      match world_intent w with
      | Some intent => (Ok intent, w)
      | None => (Ok (stored_intent create),
                 {| world_subscription := world_subscription w; world_change := world_change w;
                    world_intent := Some (stored_intent create) |})
      end
  | UpdateCheckoutIntent _ _ u =>
      (Ok tt,
       {| world_subscription := world_subscription w; world_change := world_change w;
          world_intent :=
            (fun intent => with_status intent (CheckoutIntentUpdate_ProviderSessionID u)
                             (CheckoutIntentUpdate_ProviderURL u) (CheckoutIntentUpdate_Status u)) <$> world_intent w |})
  | ReadCheckoutIntent _ _ => (Ok (world_intent w), w)
  | GetBillingCustomer accountID provider =>
      (Ok (Some {| BillingCustomerRecord_Provider := "mock"; BillingCustomerRecord_ProviderCustomerID := "cus_1";
                   BillingCustomerRecord_AccountID := accountID; BillingCustomerRecord_Email := "" |}), w)
  | GetBillingSubscription _ statuses =>
      (Ok match world_subscription w with
          | Some x => if bool_decide (statuses = []) || containsText statuses (CommerceSubscription_Status x)
                      then Some x else None
          | None => None
          end, w)
  | ListBillingSubscriptions _ => (Ok (option_list (world_subscription w)), w)
  | ResolveBillingOffer _ _ priceID _ => (Ok (Some (sample_billing_offer priceID)), w)
  | CreateBillingSubscriptionChange create =>
      (Ok (stored_change create),
       {| world_subscription := world_subscription w; world_change := Some (stored_change create);
          world_intent := world_intent w |})
  | GetOpenBillingSubscriptionChange _ _ => (Ok (world_change w), w)
  | UpdateBillingSubscriptionChange _ _ =>
      (Ok tt, {| world_subscription := world_subscription w; world_change := None; world_intent := world_intent w |})
  | GetBillingPreferences _ => (Ok None, w)
  | UpsertBillingPreferences _ | UpsertBillingCustomer _ => (Ok tt, w)
  | ListBillingInvoices _ => (Ok [], w)
  | ReadLedgerEntry _ _ => (Ok None, w)
  | ProviderCreateCheckoutSession _ _ =>
      (Ok {| CheckoutSession_ID := "session_1"; CheckoutSession_URL := "https://mock/session_1";
             CheckoutSession_CustomerID := "" |}, w)
  | ProviderCheckoutStatus _ _ => (Ok "open", w)
  | ProviderPortal _ _ _ | ProviderUpdatePaymentMethod _ _ _ _ | ProviderSetUpPaymentMethod _ _ _ _
  | ProviderInvoiceURL _ _ => (Ok "https://mock/portal", w)
  | ProviderCancelSubscription _ _ _ | ProviderReactivateSubscription _ _ _ | ProviderCancelScheduledChange _ _ _ _ =>
      (Ok tt, w)
  | ProviderPreviewPlanChange _ _ => (Ok sample_quote, w)
  | ProviderChangePlan _ _ => (changing, w)
  end.

Definition subscribed (status : string) : sample_world :=
  {| world_subscription := Some (sample_subscription status); world_change := None; world_intent := None |}.

Definition change_made : result ProviderPlanChangeResult := Ok {| ProviderPlanChangeResult_ProviderOperationID := "op_1" |}.
Definition change_refused : result ProviderPlanChangeResult := Err (ExternalError "card declined").

Example sample_catalog_loads :
  match LoadConfigFromMap (Some sample_commerce_catalog) with
  | Ok config => CommerceConfig_Offers (BursarConfig_Commerce config) !! "pro_monthly" <> None
  | Err _ => False
  end.
Proof. vm_compute. discriminate. Qed.

(** Confirming the change with the fingerprint of the provider's quote. *)
Definition sample_confirmation : ConfirmPlanChangeInput :=
  {| ConfirmPlanChangeInput_AccountID := "account_1"; ConfirmPlanChangeInput_OfferKey := "pro_monthly";
     ConfirmPlanChangeInput_QuoteFingerprint := planChangeQuoteFingerprint sample_quote;
     ConfirmPlanChangeInput_OperationKey := "change_1" |}.
