(* ===== verification/PlanChangeFacts.v ===== *)
(** * A plan is changed once, for the quote that was shown

    [confirmation]: what a run of [ConfirmPlanChange] asks of the state store
    and the provider, as the sequence of those calls, and what it returns. *)

From S2P Require Export PlanChange.
From S2P Require Import CommerceSamples.
Local Open Scope Z_scope.
Local Open Scope go_scope.

Section confirming.
Context {D : Type} `{DecimalOps D} `{RangeOrder} `{TimeZones} `{Regexps} `{Schema D}.
Implicit Types (s : option (CommerceService D)) (accountID : string) (c : commercePlanChangeContext D).

Notation prog := (prog (@commerce_answer D)).
Notation event := (event (@commerce_answer D)).
Notation obeys := (obeys (fun _ => True) (fun _ _ => True)).
Notation "c ↦ x" := (existT c x : event) (at level 60).

(** ** The calls about a change *)

(** Those that only read, and those that change something. *)
Definition reads (c : commerce_call D) : bool :=
  match c with
  | GetBillingSubscription _ _ | GetOpenBillingSubscriptionChange _ _ | ProviderPreviewPlanChange _ _ => true
  | _ => false
  end.

Definition changes (c : commerce_call D) : bool :=
  match c with
  | CreateBillingSubscriptionChange _ | UpdateBillingSubscriptionChange _ _ | ProviderChangePlan _ _
  | ProviderCancelSubscription _ _ _ | ProviderReactivateSubscription _ _ _ | ProviderCancelScheduledChange _ _ _ _ => true
  | _ => false
  end.

Definition about_change (c : commerce_call D) : bool := reads c || changes c.

Notation change_events := (seen about_change).

Definition only_reads (t : list event) : Prop := Forall (fun e => reads (projT1 e) = true) t.

(** ** An attempt at a durable change *)

Section attempt.
Context (c : commercePlanChangeContext D) (operationKey : string) (effectiveAt : Time) (changeID : string).

Let p := context_provider c.
Let subscriptionID := CommerceSubscription_ProviderSubscriptionID (context_subscription c).

(** The change is marked as failed, whatever the store says to it. *)
Definition marked (failure : error) (e : event) : Prop :=
  exists x, e = (UpdateBillingSubscriptionChange changeID
                   {| BillingSubscriptionChangeUpdate_State := Some "failed";
                      BillingSubscriptionChangeUpdate_ProviderOperationID := None;
                      BillingSubscriptionChangeUpdate_ErrorMessage := Some (error_message failure) |} ↦ x).

(** A cancellation that was asked for is lifted first; the flag says so. *)
Inductive kept : list event -> bool -> Prop :=
  | kept_running : CommerceSubscription_CancelAtPeriodEnd (context_subscription c) = false -> kept [] false
  | kept_lifted key :
      CommerceSubscription_CancelAtPeriodEnd (context_subscription c) = true ->
      commerceScopedKey operationKey "keep-cancellation" = Ok key ->
      kept [ProviderReactivateSubscription p subscriptionID key ↦ Ok tt] true.

Inductive not_kept : list event -> error -> Prop :=
  | not_kept_unable err :
      CommerceSubscription_CancelAtPeriodEnd (context_subscription c) = true ->
      Provider_ReactivatesSubscription p = false \/ commerceScopedKey operationKey "keep-cancellation" = Err err ->
      not_kept [] err
  | not_kept_refused key err :
      CommerceSubscription_CancelAtPeriodEnd (context_subscription c) = true ->
      not_kept [ProviderReactivateSubscription p subscriptionID key ↦ Err err] err.

(** After a refusal the cancellation that was lifted is asked for again, by a
    provider that can. *)
Inductive restored (refusal : error) : bool -> list event -> error -> Prop :=
  | restored_nothing : restored refusal false [] refusal
  | restored_unable :
      Provider_CancelsSubscription p = false \/
      (exists err, commerceScopedKey operationKey "restore-cancellation" = Err err) ->
      restored refusal true [] refusal
  | restored_asked key x failure :
      Provider_CancelsSubscription p = true ->
      commerceScopedKey operationKey "restore-cancellation" = Ok key ->
      match x with Ok _ => failure = refusal | Err _ => exists text, failure = WrappedError text refusal end ->
      restored refusal true [ProviderCancelSubscription p subscriptionID key ↦ x] failure.

Inductive attempt : list event -> result ConfirmPlanChangeResult -> Prop :=
  | attempt_made k lifted x :
      kept k lifted ->
      attempt (k ++ [ProviderChangePlan p (providerRequest c operationKey) ↦ Ok x])
        (Ok (confirmed c false (Some effectiveAt)))
  | attempt_not_kept k failure mark :
      not_kept k failure -> marked failure mark -> attempt (k ++ [mark]) (Err failure)
  | attempt_refused k lifted refusal u failure mark :
      kept k lifted -> restored refusal lifted u failure -> marked failure mark ->
      attempt (k ++ (ProviderChangePlan p (providerRequest c operationKey) ↦ Err refusal) :: u ++ [mark]) (Err failure).

Definition making (pre : list event) (h : list event) (r : result ConfirmPlanChangeResult) : Prop :=
  exists t, change_events h = pre ++ t /\ attempt t r.
End attempt.

Lemma change_events_last (h : list event) (c : commerce_call D) (x : commerce_answer c) :
  change_events (h ++ [c ↦ x]) = if about_change c then change_events h ++ [existT c x] else change_events h.
Proof. apply seen_last. Qed.

Lemma fail_change_obeys {A} h changeID failure (Q : list event -> result A -> Prop) :
  (forall h' mark, marked changeID failure mark -> change_events h' = change_events h ++ [mark] -> Q h' (Err failure)) ->
  obeys Q h (fail_change changeID failure).
Proof.
  intros Hq. split; [done|]. intros x _. eapply Hq; [by exists x|]. by rewrite change_events_last.
Qed.

Lemma keep_subscription_obeys h c operationKey changeID :
  obeys (fun h' r =>
    match r with
    | Ok lifted => exists k, change_events h' = change_events h ++ k /\ kept c operationKey k lifted
    | Err failure => exists k mark, change_events h' = change_events h ++ k ++ [mark] /\
                       not_kept c operationKey k failure /\ marked changeID failure mark
    end) h (keep_subscription c operationKey changeID).
Proof.
  unfold keep_subscription. destruct (CommerceSubscription_CancelAtPeriodEnd _) eqn:Hcancel; cbn [negb].
  2: { exists []. rewrite app_nil_r. split; [done|by constructor]. }
  destruct (Provider_ReactivatesSubscription _) eqn:Hable; cbn [negb].
  2: { apply fail_change_obeys. intros h' mark Hm ->. exists [], mark. split_and!; [done| |done].
       constructor; [done|by left]. }
  destruct (commerceScopedKey _ _) as [key|err] eqn:Hkey.
  2: { apply fail_change_obeys. intros h' mark Hm ->. exists [], mark. split_and!; [done| |done].
       constructor; [done|by right]. }
  split; [done|]. intros [[]|err] _.
  - eexists. rewrite change_events_last. split; [done|by constructor].
  - apply fail_change_obeys. intros h' mark Hm ->. rewrite change_events_last. cbn [about_change changes reads orb].
    rewrite <- app_assoc. eexists _, mark. split_and!; [done|by constructor|done].
Qed.

Lemma restore_obeys h c operationKey lifted refusal :
  obeys (fun h' r => exists u failure, r = Ok failure /\ change_events h' = change_events h ++ u /\
                       restored c operationKey refusal lifted u failure)
    h (restore_cancellation c operationKey lifted refusal).
Proof.
  unfold restore_cancellation.
  assert (forall lifted', restored c operationKey refusal lifted' [] refusal ->
    exists u failure, Ok refusal = Ok failure /\ change_events h = change_events h ++ u /\
      restored c operationKey refusal lifted' u failure) as Hnone.
  { intros lifted' Hr. exists [], refusal. by rewrite app_nil_r. }
  destruct lifted; [|apply Hnone; constructor].
  destruct (Provider_CancelsSubscription _) eqn:Hable; [|apply Hnone; econstructor; by left]. cbn [andb].
  destruct (commerceScopedKey _ _) as [key|err] eqn:Hkey; [|apply Hnone; econstructor; right; by eexists].
  split; [done|]. intros x _. eexists _, _. rewrite change_events_last.
  split_and!; [done..|]. econstructor; [done..|]. destruct x; [done|by eexists].
Qed.

Lemma make_change_obeys h c operationKey effectiveAt change :
  obeys (making c operationKey effectiveAt (BillingSubscriptionChange_ID change) (change_events h))
    h (make_change c operationKey effectiveAt change).
Proof.
  unfold make_change, making. eapply obeys_then; [apply keep_subscription_obeys| |].
  - intros t failure (k & mark & -> & Hk & Hm). eexists. split; [done|by econstructor].
  - intros t lifted (k & Hh & Hk). split; [done|]. intros [x|refusal] _.
    + eexists. rewrite change_events_last, Hh. cbn [about_change changes reads orb]. rewrite <- app_assoc. split; [done|by econstructor].
    + eapply obeys_then; [apply restore_obeys|by intros t' e (u & failure & [=] & _)|].
      intros t' failure' (u & failure & [= <-] & Hh' & Hu). apply fail_change_obeys. intros h'' mark Hm ->.
      rewrite Hh', change_events_last, Hh. cbn [about_change changes reads orb]. rewrite <- !app_assoc.
      eexists. split; [done|]. by econstructor.
Qed.

(** ** The whole confirmation *)

(** What the catalog and the account's plan make of a target offer. *)
Definition planned (offerKey : string) c : Prop :=
  exists (config : BursarConfig D) currentPlan (offer : CommerceOffer D) interval,
    CommerceConfig_Offers (BursarConfig_Commerce config) !! offerKey = Some offer /\
    subscription_target (Some offer) = Some (offer, context_targetPlan c, interval) /\
    context_targetInterval c = BillingInterval_Unit interval /\
    is_Some (CommerceOffer_Providers offer !! Name (context_provider c)) /\
    currentPlan <> "" /\
    classifyPlanChange config currentPlan (CommerceSubscription_Interval (context_subscription c))
      (context_targetPlan c) (context_targetInterval c) = Ok (context_classification c) /\
    change_policy config (context_classification c) = Ok (context_policy c).

(** The account's own subscription, as the state store answered it. *)
Definition found accountID (subscription : CommerceSubscription D) : event :=
  GetBillingSubscription accountID currentSubscriptionStatuses ↦ Ok (Some subscription).

Inductive confirmation (input : ConfirmPlanChangeInput)
  : list event -> result ConfirmPlanChangeResult -> Prop :=
  | confirmation_refused t err : only_reads t -> confirmation input t (Err err)
  | confirmation_unchanged c :
      planned (TrimSpace (ConfirmPlanChangeInput_OfferKey input)) c ->
      context_classification c = PlanChangeUnchanged ->
      confirmation input [found (TrimSpace (ConfirmPlanChangeInput_AccountID input)) (context_subscription c)] (Ok (confirmed c true None))
  | confirmation_attempted c preview effectiveAt created t r :
      planned (TrimSpace (ConfirmPlanChangeInput_OfferKey input)) c ->
      context_classification c <> PlanChangeUnchanged ->
      TrimSpace (ConfirmPlanChangeInput_QuoteFingerprint input) <> "" ->
      EqualFold (ConfirmPlanChangeInput_QuoteFingerprint input) (planChangeQuoteFingerprint preview) = true ->
      effective_date c preview = Ok effectiveAt ->
      match created with
      | Ok change => attempt c (TrimSpace (ConfirmPlanChangeInput_OperationKey input)) effectiveAt
                       (BillingSubscriptionChange_ID change) t r
      | Err err => t = [] /\ r = Err err
      end ->
      confirmation input
        ([found (TrimSpace (ConfirmPlanChangeInput_AccountID input)) (context_subscription c);
          ProviderPreviewPlanChange (context_provider c) (providerRequest c "") ↦ Ok preview;
          GetOpenBillingSubscriptionChange (CommerceSubscription_Provider (context_subscription c))
            (CommerceSubscription_ProviderSubscriptionID (context_subscription c)) ↦ Ok None;
          CreateBillingSubscriptionChange
            (change_create c (ConfirmPlanChangeInput_OfferKey input)
               (TrimSpace (ConfirmPlanChangeInput_OperationKey input)) effectiveAt) ↦ created] ++ t) r.

(** ** The context of a change *)

Definition context_post accountID (offerKey : string) (h h' : list event) (r : result (commercePlanChangeContext D)) : Prop :=
  match r with
  | Ok c => change_events h' = change_events h ++ [found accountID (context_subscription c)] /\ planned offerKey c
  | Err _ => exists t, change_events h' = change_events h ++ t /\ only_reads t
  end.

Lemma subscription_target_Some (target : option (CommerceOffer D)) offer plan interval :
  subscription_target target = Some (offer, plan, interval) -> target = Some offer.
Proof.
  unfold subscription_target. destruct target as [offer'|]; [|done].
  destruct (_ =? _), (CommerceOffer_Plan offer'), (CommerceOffer_BillingInterval offer'); naive_solver.
Qed.

Lemma planChangeContext_obeys h s input :
  obeys (context_post (TrimSpace (PreviewPlanChangeInput_AccountID input))
           (TrimSpace (PreviewPlanChangeInput_OfferKey input)) h) h (planChangeContext s input).
Proof.
  assert (exists t, change_events h = change_events h ++ t /\ only_reads t) as Hnothing.
  { exists []. rewrite app_nil_r. split; [done|by constructor]. }
  unfold planChangeContext.
  destruct (requireText _ "account ID") as [accountID|err] eqn:Haccount; [|done]. cbn [lift pbind].
  destruct (requireText _ "target offer key") as [offerKey|err] eqn:Hoffer; [|done]. cbn [lift pbind].
  apply requireText_Ok in Haccount as [-> _], Hoffer as [-> _].
  unfold requireState. destruct s as [service|]; [|done]. destruct (Commerce_HasState service); [|done]. cbn [ret pbind].
  split; [done|]. intros answer _.
  set (E := change_events (h ++ [existT (GetBillingSubscription _ currentSubscriptionStatuses) answer])).
  assert (forall h' err, change_events h' = E ->
    context_post (TrimSpace (PreviewPlanChangeInput_AccountID input))
      (TrimSpace (PreviewPlanChangeInput_OfferKey input)) h h' (Err err)) as Hread.
  { intros h' err Hh'. unfold context_post. rewrite Hh'. unfold E. rewrite change_events_last. eexists. split; [done|by repeat constructor]. }
  destruct answer as [[subscription|]|err]; cbn [pbind]; [|by apply Hread..].
  destruct (_ =? ""); cbn [pbind ret raise]; [by apply Hread|].
  apply (unseen_credit about_change ltac:(done) E); [done|done|]. intros h1 config Hh1.
  destruct (subscription_target _) as [[[offer plan] interval]|] eqn:Htarget; [|by apply Hread].
  apply (unseen_registry about_change ltac:(done) E); [done|done|]. intros h2 p Hh2.
  destruct (CommerceOffer_Providers offer !! Name p) as [reference|] eqn:Hreference; [|by apply Hread].
  destruct (providerReferenceIDs reference) as [[productID priceID] lookupKey].
  apply (unseen_do about_change E); [done..|]. intros h3 [[resolved|]|err] Hh3; cbn [pbind]; [|by apply Hread..].
  apply (unseen_credit about_change ltac:(done) E); [done|done|]. intros h4 entitlement Hh4.
  destruct (String.eqb_spec (firstNonEmpty [GetUserPlanResult_PlanKey entitlement; CommerceSubscription_PlanKey subscription]) "")
    as [|Hplan]; [by apply Hread|].
  destruct (classifyPlanChange _ _ _ _ _) as [classification|err] eqn:Hclassify; [|by apply Hread].
  cbn [lift pbind]. destruct (change_policy _ _) as [policy|err] eqn:Hpolicy; [|by apply Hread].
  split; cbn; [by rewrite Hh4; unfold E; rewrite change_events_last|].
  exists config, (firstNonEmpty [GetUserPlanResult_PlanKey entitlement; CommerceSubscription_PlanKey subscription]), offer, interval.
  rewrite <- (subscription_target_Some _ _ _ _ Htarget). by split_and!.
Qed.

Lemma quote_accepted_spec (given fingerprint : string) :
  quote_accepted given fingerprint = true <-> TrimSpace given <> "" /\ EqualFold given fingerprint = true.
Proof. unfold quote_accepted. by rewrite andb_true_iff, negb_true_iff, String.eqb_neq. Qed.

Lemma ConfirmPlanChange_obeys s input :
  obeys (fun h r => confirmation input (change_events h) r) [] (ConfirmPlanChange s input).
Proof.
  unfold ConfirmPlanChange. destruct (requireStableKey _ _) as [key|err] eqn:Hkey; [|by repeat constructor].
  apply requireStableKey_Ok in Hkey as [-> _]. cbn [lift pbind].
  eapply obeys_then; [apply planChangeContext_obeys| |]; cbn [context_post PreviewPlanChangeInput_AccountID
    PreviewPlanChangeInput_OfferKey app].
  { intros h err (t & -> & Ht). by constructor. }
  intros h c [Hh Hplanned]. destruct (String.eqb_spec (context_classification c) PlanChangeUnchanged) as [Hsame|Hchange].
  { cbn. rewrite Hh. by constructor. }
  set (account := TrimSpace (ConfirmPlanChangeInput_AccountID input)) in *.
  assert (forall h' t err, change_events h' = found account (context_subscription c) :: t -> only_reads t ->
    confirmation input (change_events h') (Err err)) as Hrefuse.
  { intros h' t err -> Ht. constructor. by constructor. }
  unfold quote, capable. destruct (Provider_PreviewsPlanChange _); [|by eapply Hrefuse; [apply Hh|constructor]]. cbn [ret pbind].
  apply (seen_do about_change _ _ _ _ _ Hh); [done|]. intros h1 [preview|err] Hh1; cbn [pbind];
    [|by eapply Hrefuse; [apply Hh1|repeat constructor]].
  destruct (quote_accepted _ _) eqn:Hquote; cbn [negb]; [|by eapply Hrefuse; [apply Hh1|repeat constructor]].
  apply quote_accepted_spec in Hquote as [Hgiven Hsame].
  destruct (requireState_cases s) as [(service & -> & _ & ->)| ->]; [|by eapply Hrefuse; [apply Hh1|repeat constructor]].
  apply (seen_do about_change _ _ _ _ _ Hh1); [done|]. intros h2 [[change|]|err] Hh2; cbn [pbind ret];
    [by eapply Hrefuse; [apply Hh2|repeat constructor]| |by eapply Hrefuse; [apply Hh2|repeat constructor]].
  destruct (effective_date c preview) as [effectiveAt|err] eqn:Heffective;
    [|by eapply Hrefuse; [apply Hh2|repeat constructor]].
  cbn [lift pbind]. destruct (Provider_ChangesPlan _); [|by eapply Hrefuse; [apply Hh2|repeat constructor]]. cbn [ret pbind].
  apply (seen_do about_change _ _ _ _ _ Hh2); [done|]. intros h3 created Hh3.
  assert (forall t r, match created with
                      | Ok change => attempt c (TrimSpace (ConfirmPlanChangeInput_OperationKey input)) effectiveAt
                                       (BillingSubscriptionChange_ID change) t r
                      | Err err => t = [] /\ r = Err err
                      end -> confirmation input (change_events h3 ++ t) r) as Hattempted.
  { intros t r Ht. rewrite Hh3. by apply (confirmation_attempted input c preview effectiveAt created). }
  destruct created as [change|err]; cbn [pbind].
  - eapply obeys_mono; [apply make_change_obeys|]. intros t' r (t & Ht & Hattempt). rewrite Ht. by apply Hattempted.
  - specialize (Hattempted [] (Err err)). rewrite app_nil_r in Hattempted. by apply Hattempted.
Qed.
End confirming.

(** C30: Whatever the state store and the provider answer, a confirmed plan
    change asks the provider for a change at most once: for the account's own
    current subscription, after the quote it gave in this call was the one the
    caller had accepted, with no other change open, under the operation key of
    a durable change that was stored first.  The confirmation succeeds exactly
    when the provider accepted; otherwise the change is marked as failed and a
    cancellation that had been lifted is asked for again, if the provider can. *)
Theorem ConfirmPlanChange_confirms {D : Type} `{DecimalOps D} `{RangeOrder} `{TimeZones} `{Regexps} `{Schema D}
    (s : option (CommerceService D)) (input : ConfirmPlanChangeInput) (t : list (event (@commerce_answer D)))
    (r : result ConfirmPlanChangeResult) :
  runs (ConfirmPlanChange s input) t r -> confirmation input (seen about_change t) r.
Proof.
  intros Hr. eapply (obeys_runs _ _ _ [] _ _ _ (ConfirmPlanChange_obeys s input)) in Hr as [Hq _]; [done|].
  by apply Forall_true.
Qed.

(** ** Sample: an upgrade the card is declined for *)

Definition sample_upgrade (changing : result ProviderPlanChangeResult) :=
  run (commerce_callee changing) (subscribed "active") (ConfirmPlanChange (Some sample_commerce) sample_confirmation).

Example sample_upgrade_succeeds : exists result, (sample_upgrade change_made).1.2 = Ok result.
Proof. eexists. vm_compute. reflexivity. Qed.

(** The cancellation is lifted, the change refused, the cancellation restored
    and the change marked as failed. *)
Lemma ConfirmPlanChange_confirms_witness :
  map (fun e => changes (projT1 e)) (seen about_change (sample_upgrade change_refused).1.1) =
    [false; false; false; true; true; true; true; true] /\
  (sample_upgrade change_refused).1.2 = Err (ExternalError "card declined") /\
  confirmation sample_confirmation (seen about_change (sample_upgrade change_refused).1.1)
    (sample_upgrade change_refused).1.2.
Proof.
  split; [vm_compute; reflexivity|]. split; [vm_compute; reflexivity|].
  apply (ConfirmPlanChange_confirms (Some sample_commerce)).
  exact (run_runs (commerce_callee change_refused) (ConfirmPlanChange _ _) (subscribed "active")).
Defined.

(** ** What the model found *)

Definition with_key (key : string) : ConfirmPlanChangeInput :=
  {| ConfirmPlanChangeInput_AccountID := ConfirmPlanChangeInput_AccountID sample_confirmation;
     ConfirmPlanChangeInput_OfferKey := ConfirmPlanChangeInput_OfferKey sample_confirmation;
     ConfirmPlanChangeInput_QuoteFingerprint := ConfirmPlanChangeInput_QuoteFingerprint sample_confirmation;
     ConfirmPlanChangeInput_OperationKey := key |}.

(** An operation key of 240 bytes is accepted, the durable change is stored,
    and only then the key derived from it turns out to be too long. *)
Example long_operation_key_fails_late :
  let key := string_of_list_ascii (repeat "k"%char 240) in
  let '(t, r, _) := run (commerce_callee change_made) (subscribed "active")
                      (ConfirmPlanChange (Some sample_commerce) (with_key key)) in
  requireStableKey key "plan change operation key" = Ok key /\
  map (fun e => changes (projT1 e)) (seen about_change t) = [false; false; false; true; true] /\
  exists err, r = Err err.
Proof. vm_compute. split; [reflexivity|]. split; [reflexivity|by eexists]. Qed.

(** A confirmation whose change was stored and is still open is refused when
    it is retried under the same operation key. *)
Example interrupted_confirmation_is_refused :
  let '(_, _, world) := run (commerce_callee change_made) (subscribed "active")
                          (ConfirmPlanChange (Some sample_commerce) sample_confirmation) in
  let '(_, r, _) := run (commerce_callee change_made) world
                      (ConfirmPlanChange (Some sample_commerce) sample_confirmation) in
  match r with
  | Err (BursarError _ code _ _ _ _ _) => code = ErrorCode.CheckoutConflict
  | _ => False
  end.
Proof. vm_compute. reflexivity. Qed.
