(* ===== verification/CommerceCheckoutFacts.v ===== *)
(** * A checkout opens one session for one request

    [checkout]: what a run of [CreateCheckout] asks of the intent store and the
    provider, as the sequence of those calls, and what it returns. *)

From S2P Require Export CommerceCheckout.
From S2P Require Import CommerceSamples.
Local Open Scope Z_scope.
Local Open Scope go_scope.

Section checkout.
Context {D : Type} `{DecimalOps D} `{RangeOrder} `{TimeZones} `{Regexps} `{Schema D}.
Implicit Types (s : option (CommerceService D)) (service : CommerceService D) (accountID : string).

Notation prog := (prog (@commerce_answer D)).
Notation event := (event (@commerce_answer D)).
Notation obeys := (obeys (fun _ => True) (fun _ _ => True)).
Notation outcome := (CreateCheckoutResult * option error)%type.
Notation "c ↦ x" := (existT c x : event) (at level 60).

(** ** The calls about a checkout *)

Definition about_checkout (c : commerce_call D) : bool :=
  match c with
  | CreateOrGetCheckoutIntent _ | UpdateCheckoutIntent _ _ _ | ProviderCreateCheckoutSession _ _
  | ProviderCheckoutStatus _ _ | UpsertBillingCustomer _ => true
  | GetBillingSubscription _ statuses => bool_decide (statuses = blockingSubscriptionStatuses)
  | _ => false
  end.

Notation seen := (seen about_checkout).

(** ** The status of an intent *)

Section intent.
Context (intent : CheckoutIntent) (subjectID : string).

Definition update (u : CheckoutIntentUpdate) (x : result unit) : event :=
  UpdateCheckoutIntent (CheckoutIntent_ID intent) subjectID u ↦ x.

(** What an update of the status comes to. *)
Definition settled (x : result unit) (status : string) : result string :=
  match x with Ok _ => Ok status | Err err => Err err end.

(** A durable status that is final. *)
Definition final_status (status : string) : option string :=
  if status =? "completed" then Some CheckoutStatusSucceeded
  else if status =? "expired" then Some CheckoutStatusExpired
  else if (status =? "open") || (status =? "") then None
  else Some CheckoutStatusFailed.

(** [polled]: how the status is found.  A durable status is final; an open
    intent expires, or asks the provider for its session. *)
Inductive polled : list event -> result string -> Prop :=
  | polled_final status :
      final_status (ToLower (TrimSpace (CheckoutIntent_Status intent))) = Some status -> polled [] (Ok status)
  | polled_expired x :
      IsZeroTime (CheckoutIntent_ExpiresAt intent) = false ->
      polled [update (status_update "expired") x] (settled x CheckoutStatusExpired)
  | polled_pending : polled [] (Ok CheckoutStatusPending)
  | polled_lost err : polled [] (Err err)
  | polled_unknown p x :
      match x with Ok status => provider_status (ToLower (TrimSpace status)) = None | Err _ => True end ->
      polled [ProviderCheckoutStatus p (CheckoutIntent_ProviderSessionID intent) ↦ x]
        (settled (match x with Ok _ => Ok tt | Err err => Err err end) CheckoutStatusPending)
  | polled_known p answer durable status x :
      provider_status (ToLower (TrimSpace answer)) = Some (durable, status) ->
      polled [ProviderCheckoutStatus p (CheckoutIntent_ProviderSessionID intent) ↦ Ok answer;
              update (status_update durable) x] (settled x status).

Definition polling (pre h : list event) (r : result string) : Prop := exists t, seen h = pre ++ t /\ polled t r.

Lemma polling_nothing pre h r : seen h = pre -> polled [] r -> polling pre h r.
Proof. intros <- Hp. exists []. by rewrite app_nil_r. Qed.

Lemma update_obeys E h u (status : string) :
  seen h = E ->
  obeys (fun h' r => exists x, seen h' = E ++ [update u x] /\ r = settled x status) h
    (pbind (updateIntent (CheckoutIntent_ID intent) subjectID u) (fun _ => ret status)).
Proof.
  intros Hh. apply (seen_do about_checkout _ _ _ _ _ Hh); [done|]. intros h' x Hx.
  destruct x as [[]|err]; cbn; by eexists.
Qed.

Lemma expired_obeys {A} E (Q : list event -> result A -> Prop) h f :
  seen h = E -> (forall h' late, seen h' = E -> (late = true -> IsZeroTime (CheckoutIntent_ExpiresAt intent) = false) ->
                 obeys Q h' (f late)) ->
  obeys Q h (pbind (expired intent) f).
Proof.
  intros Hh Hf. unfold expired. destruct (IsZeroTime _) eqn:Hz; [by apply Hf|].
  unfold commerce_now, now, of_credit. cbn [embed pbind ret]. apply (unseen_do about_checkout E); [done..|].
  intros h' t Hh'. by apply Hf.
Qed.

Lemma reconcile_obeys E h service :
  seen h = E -> obeys (polling E) h (reconcile service intent subjectID).
Proof.
  intros Hh. unfold reconcile. destruct (_ || _); [by apply polling_nothing; [|constructor]|].
  apply (unseen_registry about_checkout ltac:(done) E); [done|intros; by apply polling_nothing; [|constructor]|].
  intros h1 p Hh1. destruct (negb _); [by apply polling_nothing; [|constructor]|].
  apply (seen_do about_checkout _ _ _ _ _ Hh1); [done|]. intros h2 [answer|err] Hh2; cbn [pbind].
  2: { eexists. split; [exact Hh2|]. by apply (polled_unknown p (Err err)). }
  destruct (provider_status _) as [[durable status]|] eqn:Hstatus.
  - eapply obeys_mono; [by apply update_obeys|]. intros t r (x & Hx & ->). eexists.
    rewrite Hx, <- app_assoc. split; [done|]. by eapply polled_known.
  - eexists. split; [exact Hh2|]. by apply (polled_unknown p (Ok answer)).
Qed.

Lemma resolve_obeys E h service :
  seen h = E -> obeys (polling E) h (resolveCheckoutStatus service intent subjectID).
Proof.
  intros Hh. unfold resolveCheckoutStatus. cbn zeta.
  set (text := ToLower (TrimSpace (CheckoutIntent_Status intent))).
  assert (forall status, final_status text = Some status -> obeys (polling E) h (ret status)) as Hfinal.
  { intros status Hs. apply polling_nothing; [done|]. by apply polled_final. }
  unfold final_status in Hfinal. destruct (String.eqb_spec text "completed") as [Hs|_]; [by apply Hfinal|].
  destruct (containsText _ text) eqn:Hc.
  { apply Hfinal. unfold containsText in Hc. cbn [existsb] in Hc.
    destruct (String.eqb_spec text "failed") as [->|_]; [done|]. destruct (String.eqb_spec text "cancelled") as [->|_]; [done|].
    by destruct (String.eqb_spec text "canceled") as [->|_]. }
  destruct (String.eqb_spec text "expired") as [Hs|_]; [by apply Hfinal|].
  destruct ((text =? "open") || (text =? "")); cbn [negb]; [|by apply Hfinal].
  apply (expired_obeys E); [done|]; intros h1 [] Hh1 Hlate; [|by apply reconcile_obeys];
    eapply obeys_mono; [by apply update_obeys|]; intros t r (x & Hx & ->); eexists; split; [exact Hx|];
    apply polled_expired; by apply Hlate.
Qed.
(** One of the four statuses. *)
Lemma polled_status t status :
  polled t (Ok status) ->
  status = CheckoutStatusSucceeded \/ status = CheckoutStatusFailed \/ status = CheckoutStatusExpired \/
  status = CheckoutStatusPending.
Proof.
  intros Hp. remember (Ok status) as r eqn:Hr. destruct Hp as [status' Hf|[]| | |p []|p answer durable status' [] Hk];
    cbn in Hr; simplify_eq; eauto.
  - unfold final_status in Hf. repeat (destruct (_ =? _) in Hf; cbn in Hf); naive_solver.
  - unfold provider_status in Hk. destruct (containsText _ _); [naive_solver|].
    destruct (_ =? _); [naive_solver|]. destruct (containsText _ _); naive_solver.
Qed.
End intent.

(** ** From the durable intent on *)

Section continued.
Context (r : resolved_checkout D) (digest : string) (intent : CheckoutIntent).

Definition has_session : bool :=
  negb (CheckoutIntent_ProviderSessionID intent =? "") && negb (CheckoutIntent_ProviderURL intent =? "").

(** The intent is this request's, and still open. *)
Definition usable : Prop :=
  CheckoutIntent_RequestDigest intent <> "" /\ EqualFold (CheckoutIntent_RequestDigest intent) digest = true /\
  CheckoutIntent_Status intent = "open".

Definition create_session (x : result CheckoutSession) : event :=
  ProviderCreateCheckoutSession (resolved_provider r) (session_request r (CheckoutIntent_ID intent)) ↦ x.

(** The customer a provider attached to the account is kept. *)
Inductive customer_kept (session : CheckoutSession) : list event -> result unit -> Prop :=
  | customer_none : customer_kept session [] (Ok tt)
  | customer_attached x :
      TrimSpace (CheckoutSession_CustomerID session) <> "" ->
      customer_kept session
        [UpsertBillingCustomer
           {| BillingCustomerRecord_Provider := Name (resolved_provider r);
              BillingCustomerRecord_ProviderCustomerID := TrimSpace (CheckoutSession_CustomerID session);
              BillingCustomerRecord_AccountID := resolved_accountID r;
              BillingCustomerRecord_Email := TrimSpace (CreateCheckoutInput_CustomerEmail (resolved_input r)) |} ↦ x] x.

Definition open_update (session : CheckoutSession) : CheckoutIntentUpdate :=
  {| CheckoutIntentUpdate_ProviderSessionID := CheckoutSession_ID session;
     CheckoutIntentUpdate_ProviderURL := CheckoutSession_URL session;
     CheckoutIntentUpdate_CustomerID := CheckoutSession_CustomerID session; CheckoutIntentUpdate_Status := "open" |}.

(** The intent without a session, beside an error. *)
Definition refused_outcome (o : outcome) : Prop :=
  CreateCheckoutResult_Session o.1 = no_session /\ o.2 <> None.

Inductive continued : list event -> outcome -> Prop :=
  | continued_unusable o : ~ usable -> refused_outcome o -> continued [] o
  | continued_expired x o :
      usable -> IsZeroTime (CheckoutIntent_ExpiresAt intent) = false -> refused_outcome o ->
      continued [update intent (resolved_subjectID r) (status_update "expired") x] o
  | continued_finished t status o :
      usable -> has_session = true -> polled intent (resolved_subjectID r) t status ->
      status <> Ok CheckoutStatusPending -> refused_outcome o -> continued t o
  | continued_resumed t :
      usable -> has_session = true -> polled intent (resolved_subjectID r) t (Ok CheckoutStatusPending) ->
      continued t
        (checkout_result intent
           {| CheckoutSession_ID := CheckoutIntent_ProviderSessionID intent;
              CheckoutSession_URL := CheckoutIntent_ProviderURL intent; CheckoutSession_CustomerID := "" |}, None)
  | continued_failed err o :
      usable -> has_session = false -> refused_outcome o -> continued [create_session (Err err)] o
  | continued_unkept session k err :
      usable -> has_session = false -> customer_kept session k (Err err) ->
      continued (create_session (Ok session) :: k) (checkout_result intent session, Some err)
  | continued_unsaved session k err :
      usable -> has_session = false -> customer_kept session k (Ok tt) ->
      continued (create_session (Ok session) :: k ++ [update intent (resolved_subjectID r) (open_update session) (Err err)])
        (checkout_result intent session, Some err)
  | continued_opened session k :
      usable -> has_session = false -> customer_kept session k (Ok tt) ->
      continued (create_session (Ok session) :: k ++ [update intent (resolved_subjectID r) (open_update session) (Ok tt)])
        (checkout_result (with_status intent (CheckoutSession_ID session) (CheckoutSession_URL session) "open") session, None).

Definition continuing (pre h : list event) (x : result outcome) : Prop :=
  exists t o, seen h = pre ++ t /\ x = Ok o /\ continued t o.

Lemma refuse_refused at_intent err : refused_outcome (checkout_result at_intent no_session, Some err).
Proof. done. Qed.

Lemma keep_customer_obeys E h service session :
  seen h = E ->
  obeys (fun h' x => exists k, seen h' = E ++ k /\ customer_kept session k x) h (keep_customer service r session).
Proof.
  intros Hh. unfold keep_customer. destruct (String.eqb_spec (TrimSpace (CheckoutSession_CustomerID session)) "") as [|Hne];
    cbn [orb]; [|destruct (negb _)].
  1, 2: exists []; rewrite app_nil_r; split; [done|constructor].
  apply (seen_do about_checkout _ _ _ _ _ Hh); [done|]. intros h' x Hx. eexists. split; [exact Hx|by constructor].
Qed.

Lemma open_session_obeys E h service :
  seen h = E -> usable -> has_session = false -> obeys (continuing E) h (open_session service r intent).
Proof.
  intros Hh Hu Hs. unfold open_session. apply (seen_do about_checkout _ _ _ _ _ Hh); [done|].
  intros h1 [session|err] Hh1.
  2: { eexists _, _. split; [exact Hh1|]. split; [done|]. by eapply continued_failed. }
  apply obeys_catch, obeys_bind. eapply obeys_mono; [apply (keep_customer_obeys _ h1 service session Hh1)|].
  intros t1 [[]|err] (k & Hk & Hkept).
  - apply (seen_do about_checkout _ _ _ _ _ Hk); [done|]. intros h2 x Hh2. rewrite <- !app_assoc in Hh2.
    destruct x as [[]|err]; eexists _, _; (split; [exact Hh2|]); (split; [done|]); by constructor.
  - eexists _, _. rewrite <- app_assoc in Hk. split; [exact Hk|]. split; [done|]. by constructor.
Qed.

Lemma resume_session_obeys E h service :
  seen h = E -> usable -> has_session = true -> obeys (continuing E) h (resume_session service r intent).
Proof.
  intros Hh Hu Hs. unfold resume_session. apply obeys_catch.
  eapply obeys_mono; [by apply (resolve_obeys intent (resolved_subjectID r) E)|].
  intros t status (u & Hu' & Hp). 
  assert (forall o, status <> Ok CheckoutStatusPending -> refused_outcome o ->
    obeys (continuing E) (h ++ t) (ret o)) as Hrefuse.
  { intros o Hne Ho. exists u, o. split_and!; [done..|]. by eapply continued_finished. }
  destruct status as [status|err]; [|by apply Hrefuse].
  destruct (String.eqb_spec status CheckoutStatusSucceeded) as [->|?]; [by apply Hrefuse|].
  destruct (String.eqb_spec status CheckoutStatusFailed) as [->|?]; [by apply Hrefuse|].
  destruct (String.eqb_spec status CheckoutStatusExpired) as [->|?]; [by apply Hrefuse|]. cbn [orb].
  eexists _, _. split; [exact Hu'|]. split; [done|]. apply continued_resumed; [done..|].
  by destruct (polled_status _ _ _ _ Hp) as [?|[?|[?| ->]]].
Qed.

Lemma continue_obeys E h service : seen h = E -> obeys (continuing E) h (continue_checkout service r digest intent).
Proof.
  intros Hh. unfold continue_checkout.
  assert (forall o, ~ usable -> refused_outcome o -> obeys (continuing E) h (ret o)) as Hunusable.
  { intros o Hu Ho. exists [], o. rewrite app_nil_r. split_and!; [done..|]. by constructor. }
  destruct (String.eqb_spec (CheckoutIntent_RequestDigest intent) "") as [Hd|Hd]; [apply Hunusable; [|done]; by intros [? _]|].
  cbn [orb]. destruct (EqualFold _ _) eqn:Hfold; cbn [negb]; [|by apply Hunusable; [intros (_ & ? & _); congruence|]].
  destruct (String.eqb_spec (CheckoutIntent_Status intent) "completed") as [Hs|_];
    [by apply Hunusable; [intros (_ & _ & ?); congruence|]|].
  destruct (String.eqb_spec (CheckoutIntent_Status intent) "open") as [Hopen|Hs]; cbn [negb];
    [|by apply Hunusable; [intros (_ & _ & ?); congruence|]].
  assert usable as Hu by done. apply (expired_obeys intent E); [done|]. intros h1 [] Hh1 Hlate.
  - apply obeys_catch. apply (seen_do about_checkout _ _ _ _ _ Hh1); [done|]. intros h2 x Hh2.
    assert (forall o, refused_outcome o -> obeys (continuing E) h2 (ret o)) as Hexpired.
    { intros o Ho. eexists _, o. split; [exact Hh2|]. split; [done|]. apply continued_expired; [done|by apply Hlate|done]. }
    destruct x as [[]|err]; by apply Hexpired.
  - destruct (negb (CheckoutIntent_ProviderSessionID intent =? "") && negb (CheckoutIntent_ProviderURL intent =? "")) eqn:Hs.
    + by apply resume_session_obeys.
    + by apply open_session_obeys.
Qed.
End continued.

(** ** The whole checkout *)

(** What a request was resolved to. *)
Record resolved (input : CreateCheckoutInput) (r : resolved_checkout D) (offerKey : string) : Prop := {
  resolved_from : resolved_input r = input;
  resolved_subject : requireText (CreateCheckoutInput_SubjectID input) "checkout subject ID" = Ok (resolved_subjectID r);
  resolved_account : requireText (CreateCheckoutInput_AccountID input) "checkout account ID" = Ok (resolved_accountID r);
  resolved_request_key :
    requireStableKey (CreateCheckoutInput_IdempotencyKey input) "checkout idempotency key" = Ok (resolved_key r);
  resolved_in_catalog : exists config : BursarConfig D,
    CommerceConfig_Offers (BursarConfig_Commerce config) !! offerKey = Some (resolved_offer r);
  resolved_units : checkoutQuantity (resolved_offer r) (CreateCheckoutInput_Quantity input) = Ok (resolved_quantity r);
  resolved_sold : is_Some (CommerceOffer_Providers (resolved_offer r) !! Name (resolved_provider r));
  resolved_for_account : resolved_metadata r !! "bursar_account_id" = Some (resolved_accountID r);
}.

(** A subscription is sold to an account without one. *)
Definition unblocked accountID (offer : CommerceOffer D) : list event :=
  if CommerceOffer_Type offer =? "subscription"
  then [GetBillingSubscription accountID blockingSubscriptionStatuses ↦ Ok None] else [].

Definition intent_request (r : resolved_checkout D) (offerKey : string) (expiresAt : Time) : CheckoutIntentCreate :=
  intent_create r offerKey expiresAt (checkoutRequestDigest (intent_create r offerKey expiresAt "")).

Inductive checkout (input : CreateCheckoutInput) : list event -> result outcome -> Prop :=
  | checkout_refused t err :
      Forall (fun e => exists accountID statuses, projT1 e = GetBillingSubscription accountID statuses) t ->
      checkout input t (Err err)
  | checkout_unstored r offerKey expiresAt err :
      resolved input r offerKey ->
      checkout input
        (unblocked (resolved_accountID r) (resolved_offer r)
           ++ [CreateOrGetCheckoutIntent (intent_request r offerKey expiresAt) ↦ Err err]) (Err err)
  | checkout_continued r offerKey expiresAt intent t o :
      resolved input r offerKey ->
      continued r (CheckoutIntentCreate_RequestDigest (intent_request r offerKey expiresAt)) intent t o ->
      checkout input
        (unblocked (resolved_accountID r) (resolved_offer r)
           ++ (CreateOrGetCheckoutIntent (intent_request r offerKey expiresAt) ↦ Ok intent) :: t) (Ok o).

Lemma checkout_metadata_account input accountID (offer : CommerceOffer D) quantity :
  checkout_metadata input accountID offer quantity !! "bursar_account_id" = Some accountID.
Proof.
  unfold checkout_metadata. destruct (_ =? "subscription").
  - destruct (CommerceOffer_BillingInterval offer), (CommerceOffer_Plan offer);
      rewrite ?(lookup_insert_ne _ "billing_interval"), ?(lookup_insert_ne _ "plan_slug") by done; apply lookup_insert_eq.
  - destruct (CommerceOffer_CreditsPerUnit offer);
      rewrite ?(lookup_insert_ne _ "quantity"), ?(lookup_insert_ne _ "credits") by done; apply lookup_insert_eq.
Qed.

Definition resolution input (h : list event) (x : result (resolved_checkout D * string)) : Prop :=
  match x with
  | Ok (r, offerKey) => seen h = unblocked (resolved_accountID r) (resolved_offer r) /\ resolved input r offerKey
  | Err _ => Forall (fun e => exists accountID statuses, projT1 e = GetBillingSubscription accountID statuses) (seen h)
  end.

Lemma account_customer_obeys {A} E (Q : list event -> result A -> Prop) h service accountID f :
  seen h = E -> (forall h' e, seen h' = E -> Q h' (Err e)) -> (forall h' a, seen h' = E -> obeys Q h' (f a)) ->
  obeys Q h (pbind (account_customer service accountID) f).
Proof.
  intros Hh He Hf. unfold account_customer. destruct (negb _); [by apply Hf|].
  apply (unseen_do about_checkout E); [done..|]. intros h1 [x|err] Hh1; cbn [pbind]; [|by apply He].
  apply (unseen_do about_checkout E); [done..|]. intros h2 [y|err] Hh2; cbn [pbind]; [by apply Hf|by apply He].
Qed.

Lemma checkout_provider_obeys {A} E (Q : list event -> result A -> Prop) h service accountID requested offer current customer f :
  seen h = E -> (forall h' e, seen h' = E -> Q h' (Err e)) -> (forall h' a, seen h' = E -> obeys Q h' (f a)) ->
  obeys Q h (pbind (checkout_provider service accountID requested offer current customer) f).
Proof.
  intros Hh He Hf. unfold checkout_provider. cbn zeta. apply obeys_bind.
  apply (unseen_registry about_checkout ltac:(done) E); [done|done|]. intros h1 p Hh1.
  destruct (_ && _); cbn [pbind ret]; [|by apply Hf].
  apply (unseen_do about_checkout E); [done..|]. intros h2 [y|err] Hh2; cbn [pbind ret]; [by apply Hf|by apply He].
Qed.

Lemma check_blocking_obeys s accountID (offer : CommerceOffer D) h :
  seen h = [] ->
  obeys (fun h' x => match x with
                     | Ok _ => seen h' = unblocked accountID offer
                     | Err _ => Forall (fun e => exists accountID statuses,
                                          projT1 e = GetBillingSubscription accountID statuses) (seen h')
                     end) h (check_blocking s accountID offer).
Proof.
  intros Hh. unfold check_blocking, unblocked. destruct (_ =? "subscription"); cbn [negb]; [|done].
  destruct (requireState_cases s) as [(service & -> & _ & ->)| ->]; cbn [pbind ret raise]; 
    [|by cbn; rewrite Hh; constructor].
  apply (seen_do about_checkout [] _ _ _ _ Hh); [done|]. intros h1 [[x|]|err] Hh1; cbn; rewrite Hh1; [|done|];
    (constructor; [by eexists _, _|constructor]).
Qed.

Lemma resolve_checkout_obeys s service input : obeys (resolution input) [] (resolve_checkout s service input).
Proof.
  unfold resolve_checkout. destruct (requireText _ "checkout subject ID") as [subjectID|err] eqn:Hsubject; [|by constructor].
  destruct (requireText _ "checkout account ID") as [accountID|err] eqn:Haccount; [|by constructor].
  destruct (requireText _ "checkout offer key") as [offerKey|err] eqn:Hoffer; [|by constructor].
  destruct (requireStableKey _ _) as [key|err] eqn:Hkey; [|by constructor]. cbn [lift pbind].
  assert (forall h err, seen h = [] -> resolution input h (Err err)) as Hnothing by (intros h err Hh; cbn; by rewrite Hh).
  destruct (_ || _); [by apply Hnothing|].
  apply (unseen_credit about_checkout ltac:(done) []); [done|done|]. intros h1 config Hh1.
  destruct (_ !! offerKey) as [offer|] eqn:Hfound; [|by apply Hnothing].
  destruct (check_requested_type _ _ _) as [[]|err]; [|by apply Hnothing]. cbn [lift pbind].
  destruct (checkoutQuantity _ _) as [quantity|err] eqn:Hquantity; [|by apply Hnothing]. cbn [lift pbind].
  apply (account_customer_obeys []); [done|done|]. intros h2 [currentProvider customer] Hh2.
  eapply obeys_then; [by apply check_blocking_obeys|done|]. intros t [] Hblock.
  assert (forall h err, seen h = unblocked accountID offer -> resolution input h (Err err)) as Hblocked.
  { intros h err Hh. cbn. rewrite Hh. unfold unblocked. destruct (_ =? _); [|constructor].
    constructor; [by eexists _, _|constructor]. }
  apply (checkout_provider_obeys (unblocked accountID offer)); [done|done|]. intros h3 [p found] Hh3.
  destruct (_ !! Name p) as [reference|] eqn:Hreference; [|by apply Hblocked]. cbn zeta.
  destruct (_ =? ""); [by apply Hblocked|]. split; [done|].
  constructor; cbn; try done; [by exists config|apply checkout_metadata_account].
Qed.

Lemma CreateCheckout_obeys s input : obeys (fun h x => checkout input (seen h) x) [] (CreateCheckout s input).
Proof.
  unfold CreateCheckout. destruct s as [service|]; [|by repeat constructor]. destruct (_ || _); [by repeat constructor|].
  eapply obeys_then; [apply resolve_checkout_obeys|intros t err; apply checkout_refused|].
  intros h [r offerKey] [Hh Hresolved]. cbn [app] in Hh |- *.
  unfold commerce_now, now, of_credit. cbn [embed pbind ret]. apply (unseen_do about_checkout _ _ _ _ _ Hh); [done|].
  intros h1 instant Hh1. cbn zeta. set (expiresAt := time_Add _ _). fold (intent_request r offerKey expiresAt).
  apply (seen_do about_checkout _ _ _ _ _ Hh1); [done|]. intros h2 [intent|err] Hh2; cbn [pbind].
  - eapply obeys_mono; [by apply (continue_obeys r _ intent _ _ service Hh2)|].
    intros t x (u & o & Hu & -> & Hc). rewrite Hu, <- app_assoc. by eapply checkout_continued.
  - cbn. rewrite Hh2. by apply checkout_unstored.
Qed.

(** ** No session for an intent that has expired *)

Definition unexpired (intent : CheckoutIntent) (h : list event) : Prop :=
  IsZeroTime (CheckoutIntent_ExpiresAt intent) = true \/
  exists instant, (Credit Now ↦ instant) ∈ h /\ After (CheckoutIntent_ExpiresAt intent) (ToUTC instant) = true.

Definition in_time (h : list event) (c : commerce_call D) : Prop :=
  match c with
  | ProviderCreateCheckoutSession _ _ =>
      exists create intent, (CreateOrGetCheckoutIntent create ↦ Ok intent) ∈ h /\ unexpired intent h
  | _ => True
  end.

Definition sessionless (c : commerce_call D) : Prop :=
  match c with ProviderCreateCheckoutSession _ _ => False | _ => True end.

Notation abides := (abides (fun _ => True) in_time).

Lemma sessionless_abides {A} h (p : prog A) : calls_only sessionless p -> abides h p.
Proof. intros Hp. eapply abides_of, calls_only_obeys; [|exact Hp]. by intros t []. Qed.

Ltac sessionless_walk :=
  repeat progress (only_walk; try match goal with
                                  | |- calls_only _ (of_registry _) => by apply embed_any
                                  | |- calls_only _ (of_credit _) => by apply embed_any
                                  | |- sessionless _ => exact I
                                  | |- calls_only _ (refuse _ _) => exact I
                                  end).

Lemma resolve_sessionless s service input : calls_only sessionless (resolve_checkout s service input).
Proof.
  unfold resolve_checkout, account_customer, check_blocking, checkout_provider, requireState, catalog_config,
    getBillingSubscription, getBillingCustomer. sessionless_walk.
Qed.

Lemma continue_in_time service r digest intent create h :
  (CreateOrGetCheckoutIntent create ↦ Ok intent) ∈ h -> abides h (continue_checkout service r digest intent).
Proof.
  intros Hin. unfold continue_checkout.
  do 3 (match goal with |- context [if ?b then refuse _ _ else _] => destruct b; [done|] end).
  apply obeys_bind.
  assert (Protocols.obeys (fun _ => True) in_time
            (fun h' late => exists t, h' = h ++ t /\ (late = Ok false -> unexpired intent h')) h (expired intent)) as Hexpired.
  { unfold expired. destruct (IsZeroTime _) eqn:Hz.
    - exists []. rewrite app_nil_r. split; [done|]. intros _. by left.
    - split; [done|]. intros instant _. eexists. split; [done|]. intros [= Hafter]. right. exists instant.
      split; [apply elem_of_app; right; by left|]. by destruct (After _ _). }
  eapply obeys_mono; [exact Hexpired|]. intros t [[]|err] (t' & -> & Hfresh); [| |done].
  { apply sessionless_abides. unfold updateIntent. sessionless_walk. }
  destruct (_ && _).
  { apply sessionless_abides. unfold resume_session, resolveCheckoutStatus, expired, reconcile, get_provider,
      commerce_now, updateIntent. sessionless_walk. }
  split; [|intros created _; apply sessionless_abides; unfold keep_customer, updateIntent; sessionless_walk].
  exists create, intent. split; [apply elem_of_app; by left|by apply Hfresh].
Qed.

Lemma CreateCheckout_in_time s input : abides [] (CreateCheckout s input).
Proof.
  unfold CreateCheckout. destruct s as [service|]; [|done]. destruct (_ || _); [done|].
  apply abides_bind; [apply sessionless_abides, resolve_sessionless|]. intros t [r offerKey].
  split; [done|]. intros instant _. split; [done|]. intros [intent|err] _; [|done]. cbn [pbind].
  eapply continue_in_time. apply elem_of_app. right. by left.
Qed.
End checkout.

(** C31: Whatever the intent store and the provider answer, a checkout asks
    the provider for a session at most once: after a durable intent was stored
    for the resolved request, when that intent carries the digest of this very
    request, is open and has no session, after the clock showed that it had not
    expired, and under the request's own idempotency key, for its own account.  An intent that has a
    session gets no second one: the checkout answers the session it has while
    the provider says it is pending, and is refused once the intent is settled.
    A checkout succeeds only with a session: the one it resumed, or a new one
    that was stored with the intent. *)
Theorem CreateCheckout_opens_one_session {D : Type} `{DecimalOps D} `{RangeOrder} `{TimeZones} `{Regexps} `{Schema D}
    (s : option (CommerceService D)) (input : CreateCheckoutInput) (t : list (event (@commerce_answer D)))
    (r : result (CreateCheckoutResult * option error)) :
  runs (CreateCheckout s input) t r -> checkout input (seen about_checkout t) r /\
  forall t1 p request x t2, t = t1 ++ existT (ProviderCreateCheckoutSession p request) x :: t2 ->
    exists create intent, existT (CreateOrGetCheckoutIntent create) (Ok intent) ∈ t1 /\ unexpired intent t1.
Proof.
  intros Hr. assert (Forall (fun _ => True) t) as Ht by (by apply Forall_true). split.
  - by destruct (obeys_runs _ _ _ [] _ _ _ (CreateCheckout_obeys s input) Hr Ht).
  - intros t1 p request x t2 Heq.
    by destruct (proj2 (obeys_runs _ _ _ [] _ _ _ (CreateCheckout_in_time s input) Hr Ht) _ _ _ _ Heq) as (? & ? & ?); eauto.
Qed.

(** ** Sample: a checkout and its retry *)

Definition sample_request : CreateCheckoutInput :=
  {| CreateCheckoutInput_SubjectID := "subject_1"; CreateCheckoutInput_AccountID := "account_1";
     CreateCheckoutInput_OfferKey := "credits"; CreateCheckoutInput_Type := "credit_pack";
     CreateCheckoutInput_Quantity := Some 3; CreateCheckoutInput_Region := ""; CreateCheckoutInput_Provider := "";
     CreateCheckoutInput_SuccessURL := "https://app/ok?intent={intentId}"; CreateCheckoutInput_CancelURL := "https://app/no";
     CreateCheckoutInput_CustomerID := ""; CreateCheckoutInput_CustomerEmail := "";
     CreateCheckoutInput_IdempotencyKey := "checkout_1"; CreateCheckoutInput_Metadata := ∅ |}.

Definition sample_checkout (world : sample_world) :=
  run (commerce_callee change_made) world (CreateCheckout (Some sample_commerce) sample_request).

(** The first run opens the session; the retry finds it again. *)
Example sample_checkout_resumes :
  let '(first, r1, world) := sample_checkout (subscribed "active") in
  let '(second, r2, _) := sample_checkout world in
  length (seen about_checkout first) = 3%nat /\ length (seen about_checkout second) = 2%nat /\
  match r1, r2 with
  | Ok (one, None), Ok (two, None) =>
      CheckoutSession_URL (CreateCheckoutResult_Session one) = "https://mock/session_1" /\
      CheckoutSession_URL (CreateCheckoutResult_Session two) = "https://mock/session_1"
  | _, _ => False
  end.
Proof. vm_compute. repeat split. Qed.

Lemma CreateCheckout_opens_one_session_witness :
  (exists result, (sample_checkout (subscribed "active")).1.2 = Ok (result, None)) /\
  checkout sample_request (seen about_checkout (sample_checkout (subscribed "active")).1.1)
    (sample_checkout (subscribed "active")).1.2.
Proof.
  split; [eexists; vm_compute; reflexivity|].
  apply (CreateCheckout_opens_one_session (Some sample_commerce)).
  exact (run_runs (commerce_callee change_made) (CreateCheckout _ _) (subscribed "active")).
Defined.

(** What [checkoutQuantity] accepts. *)
Definition quantity_allowed {D} (offer : CommerceOffer D) (requested : option Z) (quantity : Z) : Prop :=
  if CommerceOffer_Type offer =? "subscription" then quantity = 1 /\ default 1 requested = 1
  else
    1 <= quantity /\
    match CommerceOffer_Quantity offer with
    | Some q =>
        quantity = default (if 0 <? OfferQuantity_Default q then OfferQuantity_Default q else 1) requested /\
        (0 < OfferQuantity_Minimum q -> OfferQuantity_Minimum q <= quantity) /\
        (0 < OfferQuantity_Maximum q -> quantity <= OfferQuantity_Maximum q)
    | None => quantity = default 1 requested
    end.

(** A checkout's quantity is the one asked for, or the offer's default:
    one for a subscription, and otherwise at least one and within the offer's
    bounds; any other is refused. *)
Theorem checkoutQuantity_bounds {D} (offer : CommerceOffer D) (requested : option Z) :
  match checkoutQuantity offer requested with
  | Ok quantity => quantity_allowed offer requested quantity
  | Err _ => forall quantity, ~ quantity_allowed offer requested quantity
  end.
Proof.
  unfold checkoutQuantity, quantity_allowed. destruct (CommerceOffer_Type offer =? "subscription").
  { destruct requested as [n|]; cbn; [|done]. destruct (Z.eqb_spec n 1); cbn; lia. }
  cbn zeta. destruct (CommerceOffer_Quantity offer) as [q|].
  - set (quantity := default _ requested). destruct (Z.ltb_spec quantity 1); [lia|].
    destruct (Z.ltb_spec 0 (OfferQuantity_Minimum q)), (Z.ltb_spec quantity (OfferQuantity_Minimum q)); cbn; try lia;
      destruct (Z.ltb_spec 0 (OfferQuantity_Maximum q)), (Z.ltb_spec (OfferQuantity_Maximum q) quantity); cbn; lia.
  - destruct (Z.ltb_spec (default 1 requested) 1); lia.
Qed.
