(* ===== verification/CommerceScopeFacts.v ===== *)
(** * A commerce method touches only its account

    [scoped]: which calls a method for an account may make, given the calls
    before it.  The stores are asked about that account, and a provider only
    about subscriptions, customers and documents the stores answered for it. *)

From S2P Require Export PlanChange CommerceCheckout.
From S2P Require Import CommerceSamples.
Local Open Scope Z_scope.
Local Open Scope go_scope.

Section scope.
Context {D : Type} `{DecimalOps D} `{RangeOrder} `{TimeZones} `{Regexps} `{Schema D}.
Context (accountID : string).
Implicit Types (s : option (CommerceService D)) (service : CommerceService D).

Notation prog := (prog (@commerce_answer D)).
Notation event := (event (@commerce_answer D)).
Notation "c ↦ x" := (existT c x : event) (at level 60).

(** ** What belongs to the account *)

(** The registry gave [p] under that name. *)
Definition given (h : list event) (name : string) (p : Provider) : Prop :=
  let name := TrimSpace name in
  (Providers (LookupProvider name) ↦ Cached p) ∈ h \/
  (exists load, (Providers (AwaitLoad name load) ↦ Ok p) ∈ h) \/
  (exists load, (Providers (FinishLoad name load (Ok p)) ↦ tt) ∈ h).

(** A subscription the state store answered for the account. *)
Definition own_subscription (h : list event) (x : CommerceSubscription D) : Prop :=
  (exists statuses, (GetBillingSubscription accountID statuses ↦ Ok (Some x)) ∈ h) \/
  (exists l, (ListBillingSubscriptions accountID ↦ Ok l) ∈ h /\ x ∈ l).

(** ... named to the provider it is with. *)
Definition own_at (h : list event) (p : Provider) (subscriptionID : string) : Prop :=
  exists x, own_subscription h x /\ CommerceSubscription_ProviderSubscriptionID x = subscriptionID /\
            given h (CommerceSubscription_Provider x) p.

Definition own_customer (h : list event) (c : BillingCustomerRecord) : Prop :=
  exists provider, (GetBillingCustomer accountID provider ↦ Ok (Some c)) ∈ h.

Definition customer_at (h : list event) (p : Provider) (customerID : string) : Prop :=
  exists c, own_customer h c /\ BillingCustomerRecord_ProviderCustomerID c = customerID /\
            given h (BillingCustomerRecord_Provider c) p.

Definition own_document_at (h : list event) (p : Provider) (documentID : string) : Prop :=
  (exists l invoice, (ListBillingInvoices accountID ↦ Ok l) ∈ h /\ invoice ∈ l /\
     BillingInvoice_ID invoice = documentID /\ given h (BillingInvoice_Provider invoice) p) \/
  (exists entryID entry, (ReadLedgerEntry accountID entryID ↦ Ok (Some entry)) ∈ h /\
     documentID ∈ (metadataText (LedgerEntry_Metadata entry) <$>
                     ["provider_document_id"; "provider_invoice_id"; "provider_payment_id"]) /\
     given h (metadataText (LedgerEntry_Metadata entry) "provider") p).

(** A change the state store made for the account, or found open. *)
Definition own_change (h : list event) (changeID : string) : Prop :=
  exists change, BillingSubscriptionChange_ID change = changeID /\
    ((exists create, (CreateBillingSubscriptionChange create ↦ Ok change) ∈ h) \/
     (exists provider subscriptionID,
        (GetOpenBillingSubscriptionChange provider subscriptionID ↦ Ok (Some change)) ∈ h)).

(** The intent a checkout continues. *)
Definition own_intent (h : list event) (intent : CheckoutIntent) : Prop :=
  exists create, (CreateOrGetCheckoutIntent create ↦ Ok intent) ∈ h.

Definition credit_scoped (c : credit_call D) : Prop :=
  match c with
  | StoreGetUserPlan userID => userID = accountID
  | StoreGetActiveCatalog | Now => True
  | _ => False
  end.

Definition scoped (h : list event) (c : commerce_call D) : Prop :=
  match c with
  | Credit c => credit_scoped c
  | Providers _ | ResolveBillingOffer _ _ _ _ => True
  | GetBillingCustomer a _ | GetBillingSubscription a _ | ListBillingSubscriptions a | GetBillingPreferences a
  | ListBillingInvoices a | ReadLedgerEntry a _ => a = accountID
  | UpsertBillingPreferences preferences => BillingPreferences_AccountID preferences = accountID
  | UpsertBillingCustomer customer => BillingCustomerRecord_AccountID customer = accountID
  | CreateOrGetCheckoutIntent create => CheckoutIntentCreate_AccountID create = accountID
  | UpdateCheckoutIntent intentID _ _ => exists intent, own_intent h intent /\ CheckoutIntent_ID intent = intentID
  | ReadCheckoutIntent _ _ => False
  | GetOpenBillingSubscriptionChange provider subscriptionID =>
      exists x, own_subscription h x /\ CommerceSubscription_Provider x = provider /\
                CommerceSubscription_ProviderSubscriptionID x = subscriptionID
  | CreateBillingSubscriptionChange create =>
      exists x, own_subscription h x /\ CommerceSubscription_Provider x = BillingSubscriptionChangeCreate_Provider create /\
                CommerceSubscription_ProviderSubscriptionID x =
                  BillingSubscriptionChangeCreate_ProviderSubscriptionID create
  | UpdateBillingSubscriptionChange changeID _ => own_change h changeID
  | ProviderCreateCheckoutSession p request =>
      CheckoutSessionRequest_AccountID request = accountID /\
      (CheckoutSessionRequest_CustomerID request = "" \/
       exists c, own_customer h c /\ TrimSpace (BillingCustomerRecord_ProviderCustomerID c) =
                                       CheckoutSessionRequest_CustomerID request)
  | ProviderCheckoutStatus p sessionID =>
      exists intent, own_intent h intent /\ CheckoutIntent_ProviderSessionID intent = sessionID /\
                     given h (CheckoutIntent_Provider intent) p
  | ProviderPortal p customerID _ | ProviderSetUpPaymentMethod p customerID _ _ => customer_at h p customerID
  | ProviderUpdatePaymentMethod p customerID subscriptionID _ =>
      customer_at h p customerID /\
      exists x, own_subscription h x /\ CommerceSubscription_ProviderSubscriptionID x = subscriptionID
  | ProviderCancelSubscription p subscriptionID _ | ProviderReactivateSubscription p subscriptionID _
  | ProviderCancelScheduledChange p subscriptionID _ _ => own_at h p subscriptionID
  | ProviderInvoiceURL p documentID => own_document_at h p documentID
  | ProviderPreviewPlanChange p request | ProviderChangePlan p request =>
      own_at h p (ProviderPlanChangeRequest_ProviderSubscriptionID request)
  end.

(** What was answered stays answered. *)
Lemma given_app h t name p : given h name p -> given (h ++ t) name p.
Proof. unfold given. setoid_rewrite elem_of_app. naive_solver. Qed.
Lemma own_subscription_app h t x : own_subscription h x -> own_subscription (h ++ t) x.
Proof. unfold own_subscription. setoid_rewrite elem_of_app. naive_solver. Qed.
Lemma own_customer_app h t c : own_customer h c -> own_customer (h ++ t) c.
Proof. unfold own_customer. setoid_rewrite elem_of_app. naive_solver. Qed.
Lemma own_intent_app h t intent : own_intent h intent -> own_intent (h ++ t) intent.
Proof. unfold own_intent. setoid_rewrite elem_of_app. naive_solver. Qed.
Lemma last_in h (e : event) : e ∈ h ++ [e].
Proof. apply elem_of_app. right. by left. Qed.
Lemma in_app h t (e : event) : e ∈ h -> e ∈ h ++ t.
Proof. intros He. apply elem_of_app. by left. Qed.

Hint Resolve given_app own_subscription_app own_customer_app own_intent_app last_in in_app : scope.

Notation obeys := (obeys (fun _ => True) scoped).
Notation abides := (abides (fun _ => True) scoped).

(** ** The parts of the methods *)

Lemma get_provider_scoped h service name :
  obeys (fun h' r => match r with Ok p => given h' name p | Err _ => True end) h (get_provider service name).
Proof.
  unfold get_provider, Get, of_registry. destruct (negb _); [done|]. cbn zeta. destruct (_ =? ""); [done|].
  split; [done|]. intros [p|load| |load] _; cbn; try done.
  - left. apply last_in.
  - split; [done|]. intros [p|err] _; [|done]. right. left. exists load. apply last_in.
  - split; [done|]. intros [answer|text] _; [|done]. cbn. split; [done|]. intros [] _. cbn.
    destruct (built _ answer) as [p|err] eqn:Hb; [|done]. right. right. exists load. apply last_in.
Qed.

Lemma credit_scoped_abides {A} h (p : Effects.prog (@credit_answer D) A) :
  calls_only credit_scoped p -> abides h (of_credit p).
Proof.
  intros Hp. eapply abides_of, (calls_only_obeys _ _ (fun c => match c with Credit c => credit_scoped c | _ => False end)).
  - by intros t [].
  - by apply embed_calls_only.
Qed.

Lemma registry_abides {A} h (p : rprog A) : abides h (of_registry p).
Proof.
  eapply abides_of, (calls_only_obeys _ _ (fun c => match c with Providers _ => True | _ => False end)).
  - by intros t [].
  - by apply embed_any.
Qed.

Lemma catalog_abides h service : abides h (catalog_config service).
Proof.
  apply credit_scoped_abides. unfold GetConfig, GetActive, with_store, getActiveCatalog. by only_walk.
Qed.

Lemma getBillingSubscription_scoped h statuses :
  obeys (fun h' r => match r with Ok (Some x) => own_subscription h' x | _ => True end) h
    (getBillingSubscription accountID statuses).
Proof. split; [done|]. intros [[x|]|err] _; [|done..]. left. exists statuses. apply last_in. Qed.

Lemma getBillingCustomer_scoped h provider :
  obeys (fun h' r => match r with Ok (Some c) => own_customer h' c | _ => True end) h
    (getBillingCustomer accountID provider).
Proof. split; [done|]. intros [[x|]|err] _; [|done..]. exists provider. apply last_in. Qed.

Lemma listBillingSubscriptions_scoped h :
  obeys (fun h' r => match r with Ok l => forall x, x ∈ l -> own_subscription h' x | _ => True end) h
    (listBillingSubscriptions accountID).
Proof. split; [done|]. intros [l|err] _; [|done]. intros x Hx. right. exists l. split; [apply last_in|done]. Qed.

(** A capability check, and a step whose error ends the method. *)
Lemma capable_abides {A} h p has capability (f : unit -> prog A) :
  (has p = true -> abides h (f tt)) -> abides h (pbind (capable p has capability) f).
Proof. unfold capable. destruct (has p); [|done]. intros Hf. by apply Hf. Qed.

Lemma require_abides {A} h s (f : CommerceService D -> prog A) :
  (forall service, s = Some service -> Commerce_HasState service = true -> abides h (f service)) ->
  abides h (pbind (requireState s) f).
Proof.
  intros Hf. destruct (requireState_cases s) as [(service & -> & Hs & ->)| ->]; [|done]. by apply Hf.
Qed.

Lemma account_abides {A} h value field (f : string -> prog A) :
  TrimSpace value = accountID -> abides h (f accountID) -> abides h (pbind (lift (requireText value field)) f).
Proof.
  intros Hv Hf. destruct (requireText value field) as [a|err] eqn:Ha; [|done]. apply requireText_Ok in Ha as [-> _].
  cbn [lift pbind]. by rewrite Hv.
Qed.

Lemma lift_abides {A B} h (r : result A) (f : A -> prog B) :
  (forall a, r = Ok a -> abides h (f a)) -> abides h (pbind (lift r) f).
Proof. intros Hf. destruct r as [a|err]; [by apply Hf|done]. Qed.

(** The last call of a method. *)
Lemma call_abides {A} h c (k : commerce_answer c -> prog A) :
  scoped h c -> (forall x, abides (h ++ [c ↦ x]) (k x)) -> abides h (Do c k).
Proof. intros Hc Hk. split; [done|]. intros x _. apply Hk. Qed.

Lemma subscriptionForCommand_scoped h s subscriptionID statuses :
  obeys (fun h' r => match r with Ok (Some x) => own_subscription h' x | _ => True end) h
    (subscriptionForCommand s accountID subscriptionID statuses).
Proof.
  unfold subscriptionForCommand. destruct (requireState_cases s) as [(service & -> & _ & ->)| ->]; [|done].
  cbn [ret pbind]. destruct (_ =? ""); [apply getBillingSubscription_scoped|].
  eapply obeys_then; [apply listBillingSubscriptions_scoped|done|]. intros t l Hl. cbn.
  destruct (filter _ l) as [|x l'] eqn:Hx; cbn; [done|]. apply Hl.
  apply (list_elem_of_filter (fun y => selects subscriptionID statuses y = true)). rewrite Hx. by left.
Qed.

(** The provider of an owned subscription. *)
Lemma provider_of_subscription {A} h service x (f : Provider -> prog A) :
  own_subscription h x ->
  (forall h' p, own_subscription h' x -> own_at h' p (CommerceSubscription_ProviderSubscriptionID x) -> abides h' (f p)) ->
  abides h (pbind (get_provider service (CommerceSubscription_Provider x)) f).
Proof.
  intros Hx Hf. eapply obeys_then; [apply get_provider_scoped|done|]. intros t p Hp.
  apply Hf; [by apply own_subscription_app|]. exists x. split_and!; [by apply own_subscription_app|done|done].
Qed.

(** ** The methods *)

Lemma validate_account input account key :
  validateSubscriptionCommand input = Ok (account, key) ->
  account = TrimSpace (SubscriptionCommandInput_AccountID input).
Proof.
  unfold validateSubscriptionCommand. intros (a & [-> _]%requireText_Ok & (k & _ & [= <- _])%bind_Ok)%bind_Ok. done.
Qed.

Lemma CancelSubscription_abides h s input :
  TrimSpace (SubscriptionCommandInput_AccountID input) = accountID -> abides h (CancelSubscription s input).
Proof.
  intros Ha. unfold CancelSubscription. apply lift_abides. intros [account key] ->%validate_account. rewrite Ha.
  apply require_abides. intros service _ _. eapply obeys_then; [apply subscriptionForCommand_scoped|done|].
  intros t [x|] Hx; [|done]. destruct (negb _); [done|]. apply provider_of_subscription; [done|].
  intros h' p _ Hp. apply capable_abides. intros _. apply call_abides; [exact Hp|]. by intros [[]|err].
Qed.

Lemma ReactivateSubscription_abides h s input :
  TrimSpace (SubscriptionCommandInput_AccountID input) = accountID -> abides h (ReactivateSubscription s input).
Proof.
  intros Ha. unfold ReactivateSubscription. apply lift_abides. intros [account key] ->%validate_account. rewrite Ha.
  apply require_abides. intros service _ _. eapply obeys_then; [apply subscriptionForCommand_scoped|done|].
  intros t [x|] Hx; [|done]. destruct (_ && _); [done|]. apply provider_of_subscription; [done|].
  intros h' p _ Hp. apply capable_abides. intros _. apply call_abides; [exact Hp|]. by intros [[]|err].
Qed.

Lemma cancel_each_abides h s operationKey result subscriptions :
  TrimSpace accountID = accountID -> abides h (cancel_each s accountID operationKey result subscriptions).
Proof.
  intros Ha. revert h result. induction subscriptions as [|x l IH]; intros h result; cbn [cancel_each]; [done|].
  destruct (negb _); [apply IH|]. destruct (commerceScopedKey _ _) as [key|err]; [|done].
  apply abides_catch; [by apply CancelSubscription_abides|]. intros t outcome. apply IH.
Qed.

Lemma CancelAllSubscriptions_abides h s account operationKey :
  TrimSpace account = accountID -> abides h (CancelAllSubscriptions s account operationKey).
Proof.
  intros Ha. assert (TrimSpace accountID = accountID) as Htrim by (rewrite <- Ha; apply TrimSpace_idem).
  unfold CancelAllSubscriptions. apply account_abides; [done|]. apply lift_abides. intros key _.
  apply require_abides. intros service _ _. eapply obeys_then; [apply listBillingSubscriptions_scoped|done|].
  intros t l _. apply abides_bind; [by apply cancel_each_abides|]. by intros t' [result [err|]].
Qed.

Lemma plan_abides h credits : abides h (of_credit (CreditsMethods.GetUserPlan credits accountID)).
Proof.
  apply credit_scoped_abides. unfold CreditsMethods.GetUserPlan, with_credits, getUserPlan.
  destruct credits as [c|]; [|done]. by destruct (Credits_HasStore c).
Qed.

Lemma open_change_scoped h x :
  own_subscription h x ->
  obeys (fun h' r => match r with Ok (Some change) => own_change h' (BillingSubscriptionChange_ID change) | _ => True end) h
    (getOpenChange (CommerceSubscription_Provider x) (CommerceSubscription_ProviderSubscriptionID x)).
Proof.
  intros Hx. split; [by exists x|]. intros [[change|]|err] _; [|done..]. exists change. split; [done|].
  right. eexists _, _. apply last_in.
Qed.

Lemma GetAccountSubscriptionSummary_abides h s account :
  TrimSpace account = accountID -> abides h (GetAccountSubscriptionSummary s account).
Proof.
  intros Ha. unfold GetAccountSubscriptionSummary. apply account_abides; [done|]. apply require_abides.
  intros service _ _. eapply obeys_then; [apply getBillingSubscription_scoped|done|]. intros t x Hx.
  apply abides_bind; [apply plan_abides|]. intros t' plan. apply abides_bind.
  - destruct x as [x|]; [|done]. destruct (_ =? ""); [done|]. eapply abides_of, open_change_scoped.
    by apply own_subscription_app.
  - intros t'' change. apply abides_bind; [|done]. unfold in_grace. destruct x as [x|]; [|done].
    destruct (CommerceSubscription_GraceEndsAt x); [|done]. destruct (_ =? "past_due"); [|done].
    apply abides_bind; [|done]. apply credit_scoped_abides. by only_walk.
Qed.

Lemma CreatePortalSession_abides h s input :
  TrimSpace (PortalSessionInput_AccountID input) = accountID -> abides h (CreatePortalSession s input).
Proof.
  intros Ha. unfold CreatePortalSession. apply account_abides; [done|]. destruct (_ =? ""); [done|].
  apply require_abides. intros service _ _. eapply obeys_then; [apply getBillingSubscription_scoped|done|].
  intros t x Hx. cbn zeta. eapply obeys_then; [apply getBillingCustomer_scoped|done|]. intros t' [c|] Hc; [|done].
  destruct (_ =? ""); [done|]. eapply obeys_then; [apply get_provider_scoped|done|]. intros t'' p Hp.
  assert (customer_at (((h ++ t) ++ t') ++ t'') p (BillingCustomerRecord_ProviderCustomerID c)) as Hcustomer.
  { exists c. split_and!; [by apply own_customer_app|done|done]. }
  unfold portal_session. cbn zeta. destruct (_ =? PortalPurposePaymentMethod).
  - destruct (negb _) eqn:Hnamed.
    + apply capable_abides. intros _. apply call_abides; [|done]. split; [done|].
      destruct x as [x|]; [|done]. exists x. split; [by do 2 apply own_subscription_app|done].
    + apply capable_abides. intros _. by apply call_abides.
  - destruct (negb _); [done|]. apply capable_abides. intros _. by apply call_abides.
Qed.

Lemma UpdatePreferences_abides h s account patch :
  TrimSpace account = accountID -> abides h (UpdatePreferences s account patch).
Proof.
  intros Ha. unfold UpdatePreferences. apply account_abides; [done|]. apply require_abides. intros service _ _.
  apply call_abides; [done|]. intros [current|err]; [|done]. cbn [pbind]. apply call_abides; [by destruct current|].
  by intros [[]|err].
Qed.

Lemma firstNonEmpty_in values : firstNonEmpty values = "" \/ firstNonEmpty values ∈ values.
Proof.
  induction values as [|v values IH]; cbn; [by left|]. destruct (_ =? ""); [|right; by left].
  destruct IH as [IH|IH]; [by left|right; by right].
Qed.

(** A document the account's locator stands for. *)
Definition document_of (h : list event) (name documentID : string) : Prop :=
  documentID = "" \/ forall h'' p, given (h ++ h'') name p -> own_document_at (h ++ h'') p documentID.

Lemma owned_document_scoped h s document :
  obeys (fun h' r => match r with Ok (name, documentID) => document_of h' name documentID | Err _ => True end) h
    (owned_document s accountID document).
Proof.
  unfold owned_document. destruct (_ =? "provider_invoice"); [|destruct (_ =? "ledger_entry"); [|done]].
  - destruct (requireState_cases s) as [(service & -> & _ & ->)| ->]; [|done]. cbn [ret pbind].
    split; [done|]. intros [l|err] _; [|done]. cbn.
    match goal with |- context [filter ?P l] => set (Q := P) end.
    destruct (filter Q l) as [|invoice rest] eqn:Hl; [by left|].
    right. intros h'' p Hp. left. exists l, invoice. split_and!; [apply in_app, last_in| |done|done].
    apply (list_elem_of_filter Q). rewrite Hl. by left.
  - destruct s as [service|]; [|done]. cbn [ret pbind]. unfold GetLedgerEntry.
    destruct (Commerce_credits service) as [c|]; [|done]. destruct (Credits_HasStore c); [|done].
    split; [done|]. intros [[entry|]|err] _; cbn [pbind ret]; [|by left|done].
    destruct (firstNonEmpty_in (metadataText (LedgerEntry_Metadata entry) <$>
      ["provider_document_id"; "provider_invoice_id"; "provider_payment_id"])) as [He|Hin]; [by left|right].
    intros h'' p Hp. right. eexists _, entry. split_and!; [apply in_app, last_in|exact Hin|done].
Qed.

Lemma GetInvoiceLink_abides h s input :
  TrimSpace (GetInvoiceLinkInput_AccountID input) = accountID -> abides h (GetInvoiceLink s input).
Proof.
  intros Ha. unfold GetInvoiceLink. apply account_abides; [done|].
  eapply obeys_then; [apply owned_document_scoped|done|]. intros t [name documentID] Hd.
  destruct (String.eqb_spec (TrimSpace documentID) "") as [|Hne]; [by rewrite orb_true_r|].
  destruct (_ =? ""); [done|]. cbn [orb]. destruct Hd as [->|Hd]; [done|].
  eapply (obeys_then _ _ (fun h' r => match r with Ok p => given h' name p | Err _ => True end)); [|done|].
  { destruct s as [service|]; [apply (get_provider_scoped _ service)|done]. }
  intros t' p Hp. apply capable_abides. intros _. apply call_abides; [by apply Hd|].
  intros [url|err]; [|done]. cbn [pbind]. by destruct (_ =? "").
Qed.

(** *** Changing plans *)

(** A context whose subscription is the account's, with its own provider. *)
Definition own_context (h : list event) (c : commercePlanChangeContext D) : Prop :=
  own_subscription h (context_subscription c) /\
  own_at h (context_provider c) (CommerceSubscription_ProviderSubscriptionID (context_subscription c)).

Lemma own_at_app h t p subscriptionID : own_at h p subscriptionID -> own_at (h ++ t) p subscriptionID.
Proof.
  intros (x & Hx & Hs & Hp). exists x. split_and!; [by apply own_subscription_app|done|by apply given_app].
Qed.

Lemma own_context_app h t c : own_context h c -> own_context (h ++ t) c.
Proof. intros [Hx Hp]. split; [by apply own_subscription_app|by apply own_at_app]. Qed.

Lemma planChangeContext_scoped h s input :
  TrimSpace (PreviewPlanChangeInput_AccountID input) = accountID ->
  obeys (fun h' r => match r with Ok c => own_context h' c | Err _ => True end) h (planChangeContext s input).
Proof.
  intros Ha. unfold planChangeContext.
  destruct (requireText _ "account ID") as [account|err] eqn:Haccount; [|done]. cbn [lift pbind].
  apply requireText_Ok in Haccount as [-> _]. rewrite Ha.
  destruct (requireText _ "target offer key") as [offerKey|err]; [|done]. cbn [lift pbind].
  destruct (requireState_cases s) as [(service & -> & _ & ->)| ->]; [|done]. cbn [ret pbind].
  eapply obeys_then; [apply getBillingSubscription_scoped|done|]. intros t [x|] Hx; [|done].
  destruct (_ =? ""); [done|]. cbn [ret pbind]. eapply obeys_then; [apply catalog_abides|done|]. intros t' config _.
  destruct (subscription_target _) as [[[offer plan] interval]|]; [|done].
  eapply obeys_then; [apply get_provider_scoped|done|]. intros t'' p Hp.
  destruct (CommerceOffer_Providers offer !! Name p) as [reference|]; [|done].
  destruct (providerReferenceIDs reference) as [[productID priceID] lookupKey].
  split; [done|]. intros [[resolved|]|err] _; cbn [pbind]; [|done..].
  eapply obeys_then; [apply plan_abides|done|]. intros t3 entitlement _. cbn zeta. destruct (_ =? ""); [done|].
  destruct (classifyPlanChange _ _ _ _ _) as [classification|err]; [|done]. cbn [lift pbind].
  destruct (change_policy _ _) as [policy|err]; [|done]. cbn.
  assert (own_subscription ((h ++ t) ++ t') x) as Hx' by (by apply own_subscription_app).
  split; cbn; [by do 3 apply own_subscription_app|]. do 2 apply own_at_app.
  exists x. split_and!; [by apply own_subscription_app|done|done].
Qed.

Lemma quote_abides {A} h c (f : PlanChangePreview D -> prog A) :
  own_context h c -> (forall t preview, abides (h ++ t) (f preview)) -> abides h (pbind (quote c) f).
Proof.
  intros Hc Hf. unfold quote. apply abides_bind; [|done]. apply capable_abides. intros _.
  by apply call_abides; [apply Hc|].
Qed.

Lemma PreviewPlanChange_abides h s input :
  TrimSpace (PreviewPlanChangeInput_AccountID input) = accountID -> abides h (PreviewPlanChange s input).
Proof.
  intros Ha. unfold PreviewPlanChange. eapply obeys_then; [by apply planChangeContext_scoped|done|]. intros t c Hc.
  destruct (_ =? _); [done|]. by apply quote_abides.
Qed.

Lemma fail_change_abides {A} h changeID failure :
  own_change h changeID -> abides h (fail_change changeID failure : prog A).
Proof. intros Hc. by apply call_abides. Qed.

Lemma own_change_app h t changeID : own_change h changeID -> own_change (h ++ t) changeID.
Proof.
  intros (change & Hid & Hc). exists change. split; [done|]. setoid_rewrite elem_of_app. naive_solver.
Qed.

Lemma make_change_abides h c operationKey effectiveAt change :
  own_context h c -> own_change h (BillingSubscriptionChange_ID change) ->
  abides h (make_change c operationKey effectiveAt change).
Proof.
  intros Hc Hchange. unfold make_change. apply abides_bind.
  - unfold keep_subscription. destruct (negb _); [done|]. destruct (negb _); [by apply fail_change_abides|].
    destruct (commerceScopedKey _ _); [|by apply fail_change_abides]. apply call_abides; [apply Hc|].
    intros [[]|err]; [done|]. by apply fail_change_abides, own_change_app.
  - intros t lifted. apply call_abides; [by apply own_at_app, Hc|]. intros [x|refusal]; [done|]. apply abides_bind.
    + unfold restore_cancellation. destruct (_ && _); [|done]. destruct (commerceScopedKey _ _); [|done].
      apply call_abides; [by do 2 apply own_at_app; apply Hc|done].
    + intros t' failure. by apply fail_change_abides; do 3 apply own_change_app.
Qed.

Lemma ConfirmPlanChange_abides h s input :
  TrimSpace (ConfirmPlanChangeInput_AccountID input) = accountID -> abides h (ConfirmPlanChange s input).
Proof.
  intros Ha. unfold ConfirmPlanChange. apply lift_abides. intros key _.
  eapply obeys_then; [by apply planChangeContext_scoped|done|]. intros t c Hc. destruct (_ =? _); [done|].
  apply quote_abides; [done|]. intros t' preview. cbn zeta. destruct (negb _); [done|].
  apply require_abides. intros service _ _. apply (own_context_app _ t') in Hc.
  eapply obeys_then; [by apply open_change_scoped, Hc|done|]. intros t'' [change|] _; [done|].
  apply lift_abides. intros effectiveAt _. apply capable_abides. intros _.
  apply (own_context_app _ t'') in Hc. apply call_abides.
  - exists (context_subscription c). by split_and!; [apply Hc|..].
  - intros [change|err]; [|done]. cbn [pbind]. apply make_change_abides; [by apply own_context_app|].
    exists change. split; [done|]. left. eexists. apply last_in.
Qed.

Lemma CancelScheduledPlanChange_abides h s account operationKey :
  TrimSpace account = accountID -> abides h (CancelScheduledPlanChange s account operationKey).
Proof.
  intros Ha. unfold CancelScheduledPlanChange. apply account_abides; [done|]. apply lift_abides. intros key _.
  apply require_abides. intros service _ _. eapply obeys_then; [apply subscriptionForCommand_scoped|done|].
  intros t [x|] Hx; [|done]. eapply obeys_then; [by apply open_change_scoped|done|].
  intros t' [change|] Hchange; [|done]. destruct (_ && _); [|done].
  eapply obeys_then; [apply get_provider_scoped|done|]. intros t'' p Hp. apply capable_abides. intros _.
  apply call_abides.
  - exists x. split_and!; [by do 2 apply own_subscription_app|done|done].
  - intros [[]|err]; [|done]. cbn [pbind]. by apply call_abides; [do 2 apply own_change_app|].
Qed.

(** *** Checkout *)

Lemma ProviderForAccount_abides h s account offerKey :
  TrimSpace account = accountID -> abides h (ProviderForAccount s account offerKey).
Proof.
  intros Ha. unfold ProviderForAccount. destruct s as [service|]; [|done]. destruct (negb _); [done|].
  apply account_abides; [done|]. destruct (_ <? _); [done|]. apply abides_bind.
  { destruct (negb _); [done|]. apply call_abides; [done|]. intros [x|err]; [|done]. cbn [pbind].
    apply call_abides; [done|]. by intros [y|err]. }
  intros t current. apply abides_bind; [apply registry_abides|]. intros t' configured. apply abides_bind.
  { destruct offerKey as [|key rest]; [done|]. destruct (_ =? ""); [done|]. apply abides_bind; [apply catalog_abides|].
    intros t'' config. by destruct (_ !! _). }
  intros t'' compatible. apply registry_abides.
Qed.

(** The customer a checkout names: none, or the account's. *)
Definition named_customer (h : list event) (customerID : string) : Prop :=
  customerID = "" \/
  exists c, own_customer h c /\ TrimSpace (BillingCustomerRecord_ProviderCustomerID c) = customerID.

Lemma named_customer_app h t customerID : named_customer h customerID -> named_customer (h ++ t) customerID.
Proof. intros [->|(c & Hc & He)]; [by left|right]. exists c. split; [by apply own_customer_app|done]. Qed.

Definition optional_customer (h : list event) (customer : option BillingCustomerRecord) : Prop :=
  match customer with Some c => own_customer h c | None => True end.

Lemma optional_customer_app h t customer : optional_customer h customer -> optional_customer (h ++ t) customer.
Proof. destruct customer; [apply own_customer_app|done]. Qed.

Lemma account_customer_scoped h service :
  Commerce_HasState service = true ->
  obeys (fun h' r => match r with Ok (_, customer) => optional_customer h' customer | Err _ => True end) h
    (account_customer service accountID).
Proof.
  intros Hs. unfold account_customer. rewrite Hs. cbn [negb].
  split; [done|]. intros [x|err] _; [|done]. cbn [pbind]. cbn zeta.
  eapply obeys_then; [apply getBillingCustomer_scoped|done|]. by intros t [c|] Hc.
Qed.

Lemma checkout_provider_scoped h service requested offer current customer :
  optional_customer h customer ->
  obeys (fun h' r => match r with Ok (_, found) => optional_customer h' found | Err _ => True end) h
    (checkout_provider service accountID requested offer current customer).
Proof.
  intros Hc. unfold checkout_provider. cbn zeta. eapply obeys_then; [apply registry_abides|done|]. intros t p _.
  eapply (obeys_then _ _ (fun h' r => match r with Ok found => optional_customer h' found | Err _ => True end));
    [|done|by intros t' found Hf].
  destruct (_ && _); [|by apply optional_customer_app].
  eapply obeys_mono; [apply getBillingCustomer_scoped|]. by intros t' [[c|]|err].
Qed.

Lemma checkout_customer_named h service input customer :
  Commerce_HasState service = true -> optional_customer h customer ->
  named_customer h (checkout_customer service input customer).
Proof.
  intros Hs Hc. unfold checkout_customer. rewrite Hs. cbn zeta. destruct customer as [c|]; [|by left].
  destruct (_ =? ""); [by left|]. right. by exists c.
Qed.

Lemma check_blocking_abides h s offer : abides h (check_blocking s accountID offer).
Proof.
  unfold check_blocking. destruct (negb _); [done|]. apply require_abides. intros service _ _.
  apply call_abides; [done|]. by intros [[x|]|err].
Qed.

Definition checkout_ready (h : list event) (r : resolved_checkout D) : Prop :=
  resolved_accountID r = accountID /\ named_customer h (resolved_customerID r).

Lemma resolve_checkout_scoped h s service input :
  TrimSpace (CreateCheckoutInput_AccountID input) = accountID -> Commerce_HasState service = true ->
  obeys (fun h' x => match x with Ok (r, _) => checkout_ready h' r | Err _ => True end) h (resolve_checkout s service input).
Proof.
  intros Ha Hs. unfold resolve_checkout. destruct (requireText _ "checkout subject ID") as [subject|]; [|done].
  destruct (requireText _ "checkout account ID") as [account|] eqn:Haccount; [|done].
  apply requireText_Ok in Haccount as [-> _]. rewrite Ha.
  destruct (requireText _ "checkout offer key") as [offerKey|]; [|done].
  destruct (requireStableKey _ _) as [key|]; [|done]. cbn [lift pbind]. destruct (_ || _); [done|].
  eapply obeys_then; [apply catalog_abides|done|]. intros t config _. destruct (_ !! offerKey) as [offer|]; [|done].
  destruct (check_requested_type _ _ _) as [[]|]; [|done]. cbn [lift pbind].
  destruct (checkoutQuantity _ _) as [quantity|]; [|done]. cbn [lift pbind].
  eapply obeys_then; [by apply account_customer_scoped|done|]. intros t' [current customer] Hc.
  eapply obeys_then; [apply check_blocking_abides|done|]. intros t'' [] _.
  eapply obeys_then; [by apply checkout_provider_scoped, optional_customer_app|done|]. intros t3 [p found] Hf.
  destruct (_ !! Name p) as [reference|]; [|done]. cbn zeta. destruct (_ =? ""); [done|].
  split; [done|]. by apply checkout_customer_named.
Qed.

Lemma expired_abides h intent : abides h (expired intent).
Proof. unfold expired. destruct (IsZeroTime _); [done|]. by apply call_abides. Qed.

Lemma update_abides h intent subjectID u :
  own_intent h intent -> abides h (updateIntent (CheckoutIntent_ID intent) subjectID u).
Proof. intros Hi. apply call_abides; [by exists intent|done]. Qed.

Lemma resolveCheckoutStatus_abides h service intent subjectID :
  own_intent h intent -> abides h (resolveCheckoutStatus service intent subjectID).
Proof.
  intros Hi. unfold resolveCheckoutStatus. cbn zeta. do 4 (destruct (_ : bool); [done|]).
  apply abides_bind; [apply expired_abides|]. intros t late. apply (own_intent_app _ t) in Hi. destruct late.
  - apply abides_bind; [by apply update_abides|done].
  - unfold reconcile. destruct (_ || _); [done|]. eapply obeys_then; [apply get_provider_scoped|done|].
    intros t' p Hp. destruct (negb _); [done|]. apply (own_intent_app _ t') in Hi. apply call_abides; [by exists intent|].
    intros [answer|err]; [|done]. cbn [pbind]. destruct (provider_status _) as [[durable status]|]; [|done].
    apply abides_bind; [by apply update_abides, own_intent_app|done].
Qed.

Lemma open_session_abides h service r intent :
  checkout_ready h r -> own_intent h intent -> abides h (open_session service r intent).
Proof.
  intros [Ha Hc] Hi. unfold open_session. apply call_abides; [by split|]. intros [session|err]; [|done].
  apply abides_catch; [|by intros t [|]].
  apply abides_bind; [|intros t []; by apply update_abides; do 2 apply own_intent_app].
  unfold keep_customer. destruct (_ || _); [done|]. by apply call_abides.
Qed.

Lemma continue_abides h service r digest intent :
  checkout_ready h r -> own_intent h intent -> abides h (continue_checkout service r digest intent).
Proof.
  intros [Ha Hc] Hi. unfold continue_checkout. do 3 (destruct (_ : bool); [done|]).
  apply abides_bind; [apply expired_abides|]. intros t late. apply (own_intent_app _ t) in Hi. destruct late.
  - apply abides_catch; [by apply update_abides|by intros t' [|]].
  - destruct (_ && _).
    + unfold resume_session. apply abides_catch; [by apply resolveCheckoutStatus_abides|]. intros t' [status|err]; [|done].
      destruct (_ =? _); [done|]. by destruct (_ || _).
    + apply open_session_abides; [split; [done|by apply named_customer_app]|done].
Qed.

Lemma CreateCheckout_abides h service input :
  TrimSpace (CreateCheckoutInput_AccountID input) = accountID -> Commerce_HasState service = true ->
  abides h (CreateCheckout (Some service) input).
Proof.
  intros Ha Hs. unfold CreateCheckout. destruct (_ || _); [done|].
  eapply obeys_then; [by apply (resolve_checkout_scoped _ (Some service))|done|]. intros t [r offerKey] [Hr Hc].
  apply abides_bind; [apply credit_scoped_abides; by only_walk|]. intros t' instant. cbn zeta.
  apply call_abides; [exact Hr|]. intros [intent|err]; [|done]. cbn [pbind]. apply continue_abides.
  - split; [done|]. by do 2 apply named_customer_app.
  - eexists. apply last_in.
Qed.

(** ** Every method for the account *)

(** The methods that are given an account, each on an input that names it; a
    checkout is of a service with a state store. *)
Inductive account_method : forall A : Type, prog A -> Prop :=
  | scoped_cancel s input :
      TrimSpace (SubscriptionCommandInput_AccountID input) = accountID -> account_method _ (CancelSubscription s input)
  | scoped_reactivate s input :
      TrimSpace (SubscriptionCommandInput_AccountID input) = accountID -> account_method _ (ReactivateSubscription s input)
  | scoped_cancel_all s account key :
      TrimSpace account = accountID -> account_method _ (CancelAllSubscriptions s account key)
  | scoped_summary s account : TrimSpace account = accountID -> account_method _ (GetAccountSubscriptionSummary s account)
  | scoped_portal s input :
      TrimSpace (PortalSessionInput_AccountID input) = accountID -> account_method _ (CreatePortalSession s input)
  | scoped_preferences s account patch :
      TrimSpace account = accountID -> account_method _ (UpdatePreferences s account patch)
  | scoped_invoice s input :
      TrimSpace (GetInvoiceLinkInput_AccountID input) = accountID -> account_method _ (GetInvoiceLink s input)
  | scoped_preview s input :
      TrimSpace (PreviewPlanChangeInput_AccountID input) = accountID -> account_method _ (PreviewPlanChange s input)
  | scoped_confirm s input :
      TrimSpace (ConfirmPlanChangeInput_AccountID input) = accountID -> account_method _ (ConfirmPlanChange s input)
  | scoped_cancel_change s account key :
      TrimSpace account = accountID -> account_method _ (CancelScheduledPlanChange s account key)
  | scoped_provider s account offerKey :
      TrimSpace account = accountID -> account_method _ (ProviderForAccount s account offerKey)
  | scoped_checkout service input :
      TrimSpace (CreateCheckoutInput_AccountID input) = accountID -> Commerce_HasState service = true ->
      account_method _ (CreateCheckout (Some service) input).

Lemma account_method_abides A (p : prog A) : account_method A p -> abides [] p.
Proof.
  intros []; [by apply CancelSubscription_abides|by apply ReactivateSubscription_abides|
    by apply CancelAllSubscriptions_abides|by apply GetAccountSubscriptionSummary_abides|
    by apply CreatePortalSession_abides|by apply UpdatePreferences_abides|by apply GetInvoiceLink_abides|
    by apply PreviewPlanChange_abides|by apply ConfirmPlanChange_abides|by apply CancelScheduledPlanChange_abides|
    by apply ProviderForAccount_abides|by apply CreateCheckout_abides].
Qed.

End scope.

(** ** Sample: cancelling a subscription of another account

    The caller names [sub_2]; the account has only [sub_1]. *)

Definition sample_cancel (subscriptionID : string) : SubscriptionCommandInput :=
  {| SubscriptionCommandInput_AccountID := "account_1"; SubscriptionCommandInput_SubscriptionID := subscriptionID;
     SubscriptionCommandInput_OperationKey := "cancel_1" |}.

Definition sample_cancellation (subscriptionID : string) :=
  run (commerce_callee change_made) (subscribed "past_due")
    (CancelSubscription (Some sample_commerce) (sample_cancel subscriptionID)).

Example foreign_subscription_is_refused :
  exists err, (sample_cancellation "sub_2").1.2 = Err err /\ length (sample_cancellation "sub_2").1.1 = 1%nat.
Proof. eexists. vm_compute. split; reflexivity. Qed.


(** ** What the model found *)

(** An unpaid subscription counts as cancellable, but cancelling every
    subscription of the account does not reach its provider and fails. *)
Example unpaid_subscription_is_never_cancelled :
  let '(t, r, _) := run (commerce_callee change_made) (subscribed "unpaid")
                      (CancelAllSubscriptions (Some sample_commerce) "account_1" "cancel_all_1") in
  cancellable (sample_subscription "unpaid") = true /\
  Forall (fun e => match projT1 e with ProviderCancelSubscription _ _ _ => False | _ => True end) t /\
  match r with
  | Ok (result, Some _) => CancelAllSubscriptionsResult_CanceledCount result = 0
  | _ => False
  end.
Proof. vm_compute. repeat constructor. Qed.
