(* ===== verification/Billing.v ===== *)
(** * billing.go, billing_lifecycle.go, billing_management.go: billing events

    A verified provider event is checked, claimed from the store, handled by
    the application or by the store's own processor, and completed or failed
    under the token of its claim.  The methods that only ask the store are at
    the end.  What the PostgreSQL store does with an event is in
    BillingLifecycle.v. *)

From S2P Require Export Protocols GoEncoding CommerceTypes Outbox.
Local Open Scope Z_scope.
Local Open Scope go_scope.

(** ** The vocabulary of events *)

Definition billing_event_types : list string :=
  ["customer.created"; "customer.updated"; "customer.deleted"; "checkout.completed"; "checkout.expired";
   "subscription.created"; "subscription.updated"; "subscription.activated"; "subscription.renewed";
   "subscription.plan_changed"; "subscription.cancellation_scheduled"; "subscription.cancellation_unscheduled";
   "subscription.canceled"; "subscription.expired"; "subscription.paused"; "subscription.resumed";
   "subscription.trial_will_end"; "invoice.created"; "invoice.updated"; "invoice.finalized";
   "invoice.finalization_failed"; "invoice.upcoming"; "invoice.paid"; "invoice.payment_failed";
   "invoice.payment_action_required"; "invoice.voided"; "payment.succeeded"; "payment.failed";
   "payment_method.attached"; "payment_method.updated"; "payment_method.detached"; "refund.created";
   "refund.updated"; "refund.failed"; "dispute.created"; "dispute.updated"; "dispute.closed"].

Definition oneOf (value : string) (allowed : list string) : bool := existsb (String.eqb value) allowed.

Definition IsBillingLifecycleEventType (eventType : string) : bool := oneOf eventType billing_event_types.

Section events.
Context {D : Type}.

Record BillingCustomer := {
  BillingCustomer_ProviderCustomerID : string;
  BillingCustomer_ID : string;
  BillingCustomer_AccountID : string;
  BillingCustomer_Email : string;
  BillingCustomer_Metadata : gmap string (any D);
}.

Record ProviderRef := {
  ProviderRef_ProductID : string;
  ProviderRef_PriceID : string;
  ProviderRef_VariantID : string;
  ProviderRef_LookupKey : string;
}.

Record BillingSubscription := {
  BillingSubscription_ProviderSubscriptionID : string;
  BillingSubscription_ID : string;
  BillingSubscription_Provider : string;
  BillingSubscription_AccountID : string;
  BillingSubscription_CustomerID : string;
  BillingSubscription_Plan : string;
  BillingSubscription_Status : string;
  BillingSubscription_Interval : string;
  BillingSubscription_IntervalCount : Z;
  BillingSubscription_CurrentPeriodStart : option Time;
  BillingSubscription_CurrentPeriodEnd : option Time;
  BillingSubscription_PeriodStart : option Time;
  BillingSubscription_PeriodEnd : option Time;
  BillingSubscription_TrialEnd : option Time;
  BillingSubscription_CancelAt : option Time;
  BillingSubscription_EndedAt : option Time;
  BillingSubscription_CancelAtPeriodEnd : bool;
  BillingSubscription_CanceledAt : option Time;
  BillingSubscription_Refs : option ProviderRef;
  BillingSubscription_Metadata : gmap string (any D);
}.

Record BillingPayment := {
  BillingPayment_ProviderPaymentID : string;
  BillingPayment_ID : string;
  BillingPayment_Provider : string;
  BillingPayment_AccountID : string;
  BillingPayment_CustomerID : string;
  BillingPayment_SubscriptionID : string;
  BillingPayment_InvoiceID : string;
  BillingPayment_Status : string;
  BillingPayment_Currency : string;
  BillingPayment_AmountMinor : Z;
  BillingPayment_TaxMinor : Z;
  BillingPayment_Purpose : string;
  BillingPayment_Refs : option ProviderRef;
  BillingPayment_Metadata : gmap string (any D);
}.

Record BillingRefund := {
  BillingRefund_ProviderRefundID : string;
  BillingRefund_ProviderPaymentID : string;
  BillingRefund_ID : string;
  BillingRefund_Provider : string;
  BillingRefund_PaymentID : string;
  BillingRefund_Status : string;
  BillingRefund_Currency : string;
  BillingRefund_AmountMinor : Z;
  BillingRefund_Reason : string;
  BillingRefund_Metadata : gmap string (any D);
}.

Record BillingDispute := {
  BillingDispute_ProviderDisputeID : string;
  BillingDispute_ProviderPaymentID : string;
  BillingDispute_ID : string;
  BillingDispute_Provider : string;
  BillingDispute_PaymentID : string;
  BillingDispute_Status : string;
  BillingDispute_Reason : string;
  BillingDispute_Metadata : gmap string (any D);
}.

(** The raw payload is never read.  A nil [Metadata] is [None]. *)
Record BillingEvent := {
  BillingEvent_EventID : string;
  BillingEvent_ID : string;
  BillingEvent_Provider : string;
  BillingEvent_Type : string;
  BillingEvent_OccurredAt : Time;
  BillingEvent_AccountID : string;
  BillingEvent_BillingEventID : string;
  BillingEvent_Customer : option BillingCustomer;
  BillingEvent_Subscription : option BillingSubscription;
  BillingEvent_Invoice : option (BillingInvoice D);
  BillingEvent_Payment : option BillingPayment;
  BillingEvent_Refund : option BillingRefund;
  BillingEvent_Dispute : option BillingDispute;
  BillingEvent_Metadata : option (gmap string (any D));
}.

Implicit Types event : BillingEvent.

(** ** Canonical identifiers *)

Definition first_trimmed (preferred alias : string) : string :=
  if TrimSpace preferred =? "" then TrimSpace alias else TrimSpace preferred.

Definition canonicalEventID event : string := first_trimmed (BillingEvent_EventID event) (BillingEvent_ID event).
Definition canonicalProviderCustomerID (c : BillingCustomer) : string :=
  first_trimmed (BillingCustomer_ProviderCustomerID c) (BillingCustomer_ID c).
Definition canonicalProviderSubscriptionID (s : BillingSubscription) : string :=
  first_trimmed (BillingSubscription_ProviderSubscriptionID s) (BillingSubscription_ID s).
Definition canonicalProviderInvoiceID (i : BillingInvoice D) : string :=
  first_trimmed (BillingInvoice_ProviderInvoiceID i) (BillingInvoice_ID i).
Definition canonicalProviderPaymentID (p : BillingPayment) : string :=
  first_trimmed (BillingPayment_ProviderPaymentID p) (BillingPayment_ID p).
Definition canonicalProviderRefundID (r : BillingRefund) : string :=
  first_trimmed (BillingRefund_ProviderRefundID r) (BillingRefund_ID r).
Definition Refund_canonicalProviderPaymentID (r : BillingRefund) : string :=
  first_trimmed (BillingRefund_ProviderPaymentID r) (BillingRefund_PaymentID r).
Definition canonicalProviderDisputeID (d : BillingDispute) : string :=
  first_trimmed (BillingDispute_ProviderDisputeID d) (BillingDispute_ID d).
Definition Dispute_canonicalProviderPaymentID (d : BillingDispute) : string :=
  first_trimmed (BillingDispute_ProviderPaymentID d) (BillingDispute_PaymentID d).

(** ** Validation *)

Definition billingSubscriptionStatus (value : string) : bool :=
  oneOf value ["incomplete"; "incomplete_expired"; "trialing"; "active"; "past_due"; "canceled"; "unpaid"; "paused"; "expired"].
Definition billingPaymentStatus (value : string) : bool := oneOf value ["pending"; "succeeded"; "failed"; "canceled"].
Definition billingInterval (value : string) : bool := oneOf value ["day"; "week"; "month"; "year"].
Definition billingCurrency (value : string) : bool :=
  (String.length value =? 3)%nat && all_chars (between "A" "Z") value.

(** [if refused { return err }] *)
Definition unless (refused : bool) (message : string) : result unit :=
  if refused then Err (ExternalError message) else Ok tt.

(** [if err := ...; err != nil { return fmt.Errorf("...: %w", err) }]; a panic
    is not caught. *)
Definition wrapped {A} (message : string) (r : result A) : result A :=
  match r with
  | Err (GoPanic _) | Ok _ => r
  | Err err => Err (WrappedError (message +:+ ": " +:+ error_message err) err)
  end.

Definition validateProviderRef (reference : option ProviderRef) : result unit :=
  match reference with
  | None => Ok tt
  | Some r =>
      unless ((TrimSpace (ProviderRef_ProductID r) =? "") && (TrimSpace (ProviderRef_PriceID r) =? "")
              && (TrimSpace (ProviderRef_VariantID r) =? "") && (TrimSpace (ProviderRef_LookupKey r) =? ""))
        "must contain a provider identifier"
  end.

Definition validateBillingInstants (values : list (option Time)) : result unit :=
  for_each (fun value =>
    unless match value with Some t => IsZeroTime t | None => false end "timestamps must be valid instants") values.

(** The parts of [Validate], on a part that is present. *)
Definition validate_part {A} (part : option A) (check : A -> result unit) : result unit :=
  match part with Some x => check x | None => Ok tt end.

Definition required_data event : result unit :=
  let eventType := BillingEvent_Type event in
  let requires data := Err (ExternalError ("bursar: billing event " +:+ Quote eventType +:+ " requires " +:+ data +:+ " data")) in
  let about prefix missing := HasPrefix eventType prefix && missing in
  if about "customer." (negb (is_some (BillingEvent_Customer event))) then requires "customer"
  else if about "subscription." (negb (is_some (BillingEvent_Subscription event))) then requires "subscription"
  else if about "invoice." (negb (is_some (BillingEvent_Invoice event))) then requires "invoice"
  else if about "payment." (negb (is_some (BillingEvent_Payment event))) then requires "payment"
  else if about "refund." (negb (is_some (BillingEvent_Refund event))) then requires "refund"
  else if about "dispute." (negb (is_some (BillingEvent_Dispute event))) then requires "dispute"
  else Ok tt.

Section parts.
Context (prefix : string).

Definition validate_customer (c : BillingCustomer) : result unit :=
  unless ((canonicalProviderCustomerID c =? "") && (TrimSpace (BillingCustomer_Email c) =? ""))
    (prefix +:+ "customer requires a provider customer ID or email").

Definition validate_subscription (s : BillingSubscription) : result unit :=
  unless (canonicalProviderSubscriptionID s =? "") (prefix +:+ "subscription provider ID is required") ;;;
  unless (negb (BillingSubscription_Status s =? "") && negb (billingSubscriptionStatus (BillingSubscription_Status s)))
    (prefix +:+ "subscription status " +:+ Quote (BillingSubscription_Status s) +:+ " is unsupported") ;;;
  unless (negb (BillingSubscription_Interval s =? "") && negb (billingInterval (BillingSubscription_Interval s)))
    (prefix +:+ "subscription interval " +:+ Quote (BillingSubscription_Interval s) +:+ " is unsupported") ;;;
  unless ((BillingSubscription_IntervalCount s <? 0)
          || (negb (BillingSubscription_Interval s =? "") && (BillingSubscription_IntervalCount s =? 0)%Z))
    (prefix +:+ "subscription interval count must be positive") ;;;
  wrapped (prefix +:+ "subscription reference") (validateProviderRef (BillingSubscription_Refs s)) ;;;
  wrapped (prefix +:+ "subscription")
    (validateBillingInstants [BillingSubscription_PeriodStart s; BillingSubscription_PeriodEnd s;
       BillingSubscription_TrialEnd s; BillingSubscription_CancelAt s; BillingSubscription_EndedAt s]).

Definition validate_invoice (i : BillingInvoice D) : result unit :=
  unless (canonicalProviderInvoiceID i =? "") (prefix +:+ "invoice provider ID is required") ;;;
  unless (negb (oneOf (BillingInvoice_Status i) ["draft"; "open"; "paid"; "void"; "uncollectible"]))
    (prefix +:+ "invoice status " +:+ Quote (BillingInvoice_Status i) +:+ " is unsupported") ;;;
  unless ((BillingInvoice_AmountPaidMinor i <? 0) || (BillingInvoice_AmountDueMinor i <? 0))
    (prefix +:+ "invoice amounts must be non-negative minor units") ;;;
  unless (negb (billingCurrency (BillingInvoice_Currency i)))
    (prefix +:+ "invoice currency must be an uppercase three-letter code") ;;;
  wrapped (prefix +:+ "invoice")
    (validateBillingInstants [BillingInvoice_PeriodStart i; BillingInvoice_PeriodEnd i]).

Definition validate_payment (p : BillingPayment) : result unit :=
  unless (canonicalProviderPaymentID p =? "") (prefix +:+ "payment provider ID is required") ;;;
  unless ((BillingPayment_AmountMinor p <? 0) || (BillingPayment_TaxMinor p <? 0))
    (prefix +:+ "payment amounts must be non-negative minor units") ;;;
  unless (negb (billingCurrency (BillingPayment_Currency p)))
    (prefix +:+ "payment currency must be an uppercase three-letter code") ;;;
  unless (negb (oneOf (BillingPayment_Purpose p) ["subscription"; "credit_topup"]))
    (prefix +:+ "payment purpose " +:+ Quote (BillingPayment_Purpose p) +:+ " is unsupported") ;;;
  unless (negb (billingPaymentStatus (BillingPayment_Status p)))
    (prefix +:+ "payment status " +:+ Quote (BillingPayment_Status p) +:+ " is unsupported") ;;;
  wrapped (prefix +:+ "payment reference") (validateProviderRef (BillingPayment_Refs p)).

Definition validate_refund (r : BillingRefund) : result unit :=
  unless ((canonicalProviderRefundID r =? "") || (Refund_canonicalProviderPaymentID r =? ""))
    (prefix +:+ "refund provider refund and payment IDs are required") ;;;
  unless (BillingRefund_AmountMinor r <=? 0) (prefix +:+ "refund amount must be positive minor units") ;;;
  unless (negb (billingCurrency (BillingRefund_Currency r)))
    (prefix +:+ "refund currency must be an uppercase three-letter code") ;;;
  unless (negb (billingPaymentStatus (BillingRefund_Status r)))
    (prefix +:+ "refund status " +:+ Quote (BillingRefund_Status r) +:+ " is unsupported").

Definition validate_dispute (d : BillingDispute) : result unit :=
  unless ((canonicalProviderDisputeID d =? "") || (Dispute_canonicalProviderPaymentID d =? ""))
    (prefix +:+ "dispute provider dispute and payment IDs are required") ;;;
  unless (negb (oneOf (BillingDispute_Status d) ["needs_response"; "under_review"; "won"; "lost"; "closed"]))
    (prefix +:+ "dispute status " +:+ Quote (BillingDispute_Status d) +:+ " is unsupported").
End parts.

Definition Validate event : result unit :=
  unless (TrimSpace (canonicalEventID event) =? "") "bursar: billing event id is required" ;;;
  unless (TrimSpace (BillingEvent_Provider event) =? "") "bursar: billing event provider is required" ;;;
  unless (TrimSpace (BillingEvent_Type event) =? "") "bursar: billing event type is required" ;;;
  unless (IsZeroTime (BillingEvent_OccurredAt event)) "bursar: billing event occurrence time is required" ;;;
  unless (negb (IsBillingLifecycleEventType (BillingEvent_Type event)))
    ("bursar: unsupported billing event type " +:+ Quote (BillingEvent_Type event)) ;;;
  required_data event ;;;
  let prefix := "bursar: billing event " +:+ Quote (BillingEvent_Type event) +:+ " " in
  validate_part (BillingEvent_Customer event) (validate_customer prefix) ;;;
  validate_part (BillingEvent_Subscription event) (validate_subscription prefix) ;;;
  validate_part (BillingEvent_Invoice event) (validate_invoice prefix) ;;;
  validate_part (BillingEvent_Payment event) (validate_payment prefix) ;;;
  validate_part (BillingEvent_Refund event) (validate_refund prefix) ;;;
  validate_part (BillingEvent_Dispute event) (validate_dispute prefix).
End events.
Arguments BillingCustomer : clear implicits.
Arguments BillingSubscription : clear implicits.
Arguments BillingPayment : clear implicits.
Arguments BillingRefund : clear implicits.
Arguments BillingDispute : clear implicits.
Arguments BillingEvent : clear implicits.

(** ** The envelope a claim is fingerprinted by *)

Section envelope.
Context {D : Type}.
Notation document := (gmap string (any D)).
Implicit Types (event : BillingEvent D) (target : document).

Definition setBillingEnvelopeText target (key value : string) : document :=
  if TrimSpace value =? "" then target else <[key := AString (TrimSpace value)]> target.

Definition setBillingEnvelopeTime target (key : string) (value : option Time) : document :=
  match value with Some t => <[key := AString (FormatRFC3339Nano t)]> target | None => target end.

Definition billingProviderRefEnvelope (reference : ProviderRef) : document :=
  let result := setBillingEnvelopeText ∅ "productId" (ProviderRef_ProductID reference) in
  let result := setBillingEnvelopeText result "priceId" (ProviderRef_PriceID reference) in
  let result := setBillingEnvelopeText result "variantId" (ProviderRef_VariantID reference) in
  setBillingEnvelopeText result "lookupKey" (ProviderRef_LookupKey reference).

Definition set_refs target (reference : option ProviderRef) : document :=
  match reference with Some r => <["refs" := AMap (billingProviderRefEnvelope r)]> target | None => target end.

Definition or_else {A} (x y : option A) : option A := match x with Some _ => x | None => y end.

Definition customer_envelope (c : BillingCustomer D) : document :=
  let customer := if canonicalProviderCustomerID c =? "" then ∅
                  else {[ "providerCustomerId" := AString (canonicalProviderCustomerID c) ]} in
  setBillingEnvelopeText customer "email" (BillingCustomer_Email c).

Definition subscription_envelope (s : BillingSubscription D) : document :=
  let e : document := {[ "providerSubscriptionId" := AString (canonicalProviderSubscriptionID s);
                         "cancelAtPeriodEnd" := ABool (BillingSubscription_CancelAtPeriodEnd s) ]} in
  let e := setBillingEnvelopeText e "status" (BillingSubscription_Status s) in
  let e := setBillingEnvelopeTime e "periodStart"
             (or_else (BillingSubscription_PeriodStart s) (BillingSubscription_CurrentPeriodStart s)) in
  let e := setBillingEnvelopeTime e "periodEnd"
             (or_else (BillingSubscription_PeriodEnd s) (BillingSubscription_CurrentPeriodEnd s)) in
  let e := setBillingEnvelopeTime e "trialEnd" (BillingSubscription_TrialEnd s) in
  let e := setBillingEnvelopeTime e "cancelAt" (BillingSubscription_CancelAt s) in
  let e := setBillingEnvelopeTime e "endedAt" (BillingSubscription_EndedAt s) in
  let e := set_refs e (BillingSubscription_Refs s) in
  let e := setBillingEnvelopeText e "interval" (BillingSubscription_Interval s) in
  if (BillingSubscription_IntervalCount s =? 0)%Z then e
  else <["intervalCount" := AInt KInt (BillingSubscription_IntervalCount s)]> e.

Definition invoice_envelope (i : BillingInvoice D) : document :=
  let e : document := {[ "providerInvoiceId" := AString (canonicalProviderInvoiceID i);
                         "status" := AString (BillingInvoice_Status i);
                         "amountPaidMinor" := AInt KInt64 (BillingInvoice_AmountPaidMinor i);
                         "amountDueMinor" := AInt KInt64 (BillingInvoice_AmountDueMinor i);
                         "currency" := AString (BillingInvoice_Currency i) ]} in
  let e := setBillingEnvelopeTime e "periodStart" (BillingInvoice_PeriodStart i) in
  setBillingEnvelopeTime e "periodEnd" (BillingInvoice_PeriodEnd i).

Definition payment_envelope (p : BillingPayment D) : document :=
  set_refs {[ "providerPaymentId" := AString (canonicalProviderPaymentID p);
              "amountMinor" := AInt KInt64 (BillingPayment_AmountMinor p);
              "taxMinor" := AInt KInt64 (BillingPayment_TaxMinor p);
              "currency" := AString (BillingPayment_Currency p);
              "purpose" := AString (BillingPayment_Purpose p);
              "status" := AString (BillingPayment_Status p) ]} (BillingPayment_Refs p).

Definition refund_envelope (r : BillingRefund D) : document :=
  setBillingEnvelopeText
    {[ "providerRefundId" := AString (canonicalProviderRefundID r);
       "providerPaymentId" := AString (Refund_canonicalProviderPaymentID r);
       "amountMinor" := AInt KInt64 (BillingRefund_AmountMinor r);
       "currency" := AString (BillingRefund_Currency r);
       "status" := AString (BillingRefund_Status r) ]} "reason" (BillingRefund_Reason r).

Definition dispute_envelope (d : BillingDispute D) : document :=
  setBillingEnvelopeText
    {[ "providerDisputeId" := AString (canonicalProviderDisputeID d);
       "providerPaymentId" := AString (Dispute_canonicalProviderPaymentID d);
       "status" := AString (BillingDispute_Status d) ]} "reason" (BillingDispute_Reason d).

(** [if event.Part != nil { envelope[key] = ... }] *)
Definition set_part {A} (key : string) (part : option A) (envelope : A -> document) target : document :=
  match part with Some x => <[key := AMap (envelope x)]> target | None => target end.

Definition billingEventClaimEnvelope event : document :=
  let e : document := {[ "eventId" := AString (canonicalEventID event);
                         "provider" := AString (TrimSpace (BillingEvent_Provider event));
                         "eventType" := AString (BillingEvent_Type event) ]} in
  let e := setBillingEnvelopeText e "accountId" (BillingEvent_AccountID event) in
  let e := set_part "customer" (BillingEvent_Customer event) customer_envelope e in
  let e := set_part "subscription" (BillingEvent_Subscription event) subscription_envelope e in
  let e := set_part "invoice" (BillingEvent_Invoice event) invoice_envelope e in
  let e := set_part "payment" (BillingEvent_Payment event) payment_envelope e in
  let e := set_part "refund" (BillingEvent_Refund event) refund_envelope e in
  let e := set_part "dispute" (BillingEvent_Dispute event) dispute_envelope e in
  match BillingEvent_Metadata event with Some metadata => <["metadata" := AMap metadata]> e | None => e end.

Definition billingMetadataString (metadata : CreditMetadata D) (key : string) : string :=
  match metadata with
  | Some metadata => match metadata !! key with Some (AString value) => TrimSpace value | _ => "" end
  | None => ""
  end.
End envelope.

(** ** Claims, stores and services *)

Definition BillingEventClaimed := "claimed".
Definition BillingEventDuplicate := "duplicate".
Definition BillingEventBusy := "busy".
Definition BillingEventRejected := "rejected".

Record BillingEventClaim := {
  BillingEventClaim_State : string;
  BillingEventClaim_ClaimToken : string;
  BillingEventClaim_BillingEventID : string;
  BillingEventClaim_Attempts : Z;
  BillingEventClaim_Reason : string;
}.

Record BillingEventResult := {
  BillingEventResult_Handled : bool;
  BillingEventResult_Duplicate : bool;
  BillingEventResult_Ignored : bool;
  BillingEventResult_Retryable : bool;
  BillingEventResult_AccountID : string;
  BillingEventResult_Action : string;
  BillingEventResult_Error : string;
  BillingEventResult_SubscriptionID : string;
}.

(** [BillingEventResult{Handled: handled, ...}] *)
Definition event_result (handled duplicate ignored retryable : bool) (accountID : string) : BillingEventResult :=
  {| BillingEventResult_Handled := handled; BillingEventResult_Duplicate := duplicate;
     BillingEventResult_Ignored := ignored; BillingEventResult_Retryable := retryable;
     BillingEventResult_AccountID := accountID; BillingEventResult_Action := ""; BillingEventResult_Error := "";
     BillingEventResult_SubscriptionID := "" |}.

(** A [BillingStore]: its environment, and which of the optional interfaces it
    implements. *)
Record BillingStore := {
  Store_ProviderEnvironment : string;
  Store_ResolvesAccounts : bool;
  Store_ProcessesConfigured : bool;
  Store_ProcessesEvents : bool;
  Store_UpdatesCheckoutIntents : bool;
  Store_IsCommerceStore : bool;
  Store_IsStateStore : bool;
  Store_IsAutoRechargeStore : bool;
  Store_UpdatesProviderPayments : bool;
  Store_RecordsConflicts : bool;
  Store_WritesSubscriptions : bool;
  Store_WritesCustomers : bool;
  Store_HasActiveCatalog : bool;
  Store_ResolvesTopups : bool;
  Store_Pseudonymizes : bool;
  Store_ListsGrace : bool;
  Store_ExpiresGrace : bool;
}.

(** What the configured processor is given of the service. *)
Record LifecycleOptions := {
  Lifecycle_HasProvisioning : bool;
  Lifecycle_autoSelectEntitlementSource : bool;
  Lifecycle_pastDueGracePeriod : Z;
  Lifecycle_terminalPlanKey : string;
}.

(** [BillingService]; a handler or a callback is named by a number. *)
Record BillingService := {
  Billing_store : option BillingStore;
  Billing_handlers : gmap string Z;
  Billing_eventHandlers : gmap string Z;
  Billing_defaultHandler : option Z;
  Billing_lifecycle : LifecycleOptions;
}.

Record BillingServiceOptions := {
  BillingServiceOptions_Handlers : gmap string (option Z);
  BillingServiceOptions_DefaultHandler : option Z;
  BillingServiceOptions_EventHandlers : gmap string (option Z);
  BillingServiceOptions_HasProvisioning : bool;
  BillingServiceOptions_AutoSelectEntitlementSource : option bool;
  BillingServiceOptions_PastDueGracePeriod : option Z;
  BillingServiceOptions_TerminalPlanKey : string;
}.

(** The methods that register; [handler] is nil when it is [None]. *)
Definition On (s : option BillingService) (eventType : string) (handler : option Z) : result BillingService :=
  match s, handler with
  | Some s, Some handler =>
      if TrimSpace eventType =? "" then Err (ExternalError "bursar: billing event type and handler are required")
      else Ok {| Billing_store := Billing_store s; Billing_handlers := <[eventType := handler]> (Billing_handlers s);
                 Billing_eventHandlers := Billing_eventHandlers s; Billing_defaultHandler := Billing_defaultHandler s;
                 Billing_lifecycle := Billing_lifecycle s |}
  | _, _ => Err (ExternalError "bursar: billing event type and handler are required")
  end.

Definition SetDefaultHandler (s : BillingService) (handler : option Z) : BillingService :=
  {| Billing_store := Billing_store s; Billing_handlers := Billing_handlers s;
     Billing_eventHandlers := Billing_eventHandlers s; Billing_defaultHandler := handler;
     Billing_lifecycle := Billing_lifecycle s |}.

Definition OnEvent (s : option BillingService) (eventType : string) (callback : option Z) : result BillingService :=
  match s, callback with
  | Some s, Some callback =>
      if TrimSpace eventType =? "" then Err (ExternalError "bursar: billing event type and callback are required")
      else Ok {| Billing_store := Billing_store s; Billing_handlers := Billing_handlers s;
                 Billing_eventHandlers := <[eventType := callback]> (Billing_eventHandlers s);
                 Billing_defaultHandler := Billing_defaultHandler s; Billing_lifecycle := Billing_lifecycle s |}
  | _, _ => Err (ExternalError "bursar: billing event type and callback are required")
  end.

(** A map of handlers, registered in the order of its keys. *)
Definition register_all (register : option BillingService -> string -> option Z -> result BillingService)
    (s : BillingService) (entries : gmap string (option Z)) : result BillingService :=
  fold_result (fun s key => register (Some s) key (default None (entries !! key))) s (sort_strings (elements (dom entries))).

Definition applyBillingOptions (service : BillingService) (options : BillingServiceOptions) : result BillingService :=
  service <- register_all On service (BillingServiceOptions_Handlers options) ;;
  let service := SetDefaultHandler service (BillingServiceOptions_DefaultHandler options) in
  service <- register_all OnEvent service (BillingServiceOptions_EventHandlers options) ;;
  let lifecycle := Billing_lifecycle service in
  match BillingServiceOptions_PastDueGracePeriod options with
  | Some period =>
      if period <? 0
      then Err (errorf ErrorCode.Config ErrorCategory.InvalidRequest "billing past-due grace period must be non-negative")
      else Ok tt
  | None => Ok tt
  end ;;;
  Ok {| Billing_store := Billing_store service; Billing_handlers := Billing_handlers service;
        Billing_eventHandlers := Billing_eventHandlers service; Billing_defaultHandler := Billing_defaultHandler service;
        Billing_lifecycle :=
          {| Lifecycle_HasProvisioning :=
               BillingServiceOptions_HasProvisioning options || Lifecycle_HasProvisioning lifecycle;
             Lifecycle_autoSelectEntitlementSource :=
               default true (BillingServiceOptions_AutoSelectEntitlementSource options);
             Lifecycle_pastDueGracePeriod :=
               default (Lifecycle_pastDueGracePeriod lifecycle) (BillingServiceOptions_PastDueGracePeriod options);
             Lifecycle_terminalPlanKey := BillingServiceOptions_TerminalPlanKey options |} |}.

(** [options] has at most one element. *)
Definition NewBillingService (store : option BillingStore) (options : list BillingServiceOptions) : result BillingService :=
  match store with
  | None => Err (ExternalError "bursar: billing store is required")
  | Some store =>
      if 1 <? Z.of_nat (length options)
      then Err (ExternalError "bursar: billing service accepts at most one options value")
      else
        ProviderRegistry.Validate (Store_ProviderEnvironment store) ;;;
        let service :=
          {| Billing_store := Some store; Billing_handlers := ∅; Billing_eventHandlers := ∅; Billing_defaultHandler := None;
             Billing_lifecycle :=
               {| Lifecycle_HasProvisioning := false; Lifecycle_autoSelectEntitlementSource := true;
                  Lifecycle_pastDueGracePeriod := 7 * 24 * Hour; Lifecycle_terminalPlanKey := "" |} |} in
        match options with
        | options :: _ => applyBillingOptions service options
        | [] => Ok service
        end
  end.

(** ** What the billing service calls *)

Record BillingTopupResult {D : Type} := {
  BillingTopupResult_TopupID : string;
  BillingTopupResult_TopupKey : string;
  BillingTopupResult_CreditsPerUnit : D;
  BillingTopupResult_DepositTo : string;
  BillingTopupResult_AmountMinor : Z;
  BillingTopupResult_Currency : string;
  BillingTopupResult_MinQuantity : Z;
  BillingTopupResult_MaxQuantity : Z;
  BillingTopupResult_DefaultQuantity : Z;
  BillingTopupResult_MinAmountMinor : Z;
  BillingTopupResult_MaxAmountMinor : Z;
}.
Arguments BillingTopupResult : clear implicits.

Record BillingSubscriptionConflictCreate {D : Type} := {
  ConflictCreate_AccountID : string;
  ConflictCreate_Provider : string;
  ConflictCreate_DuplicateProviderSubscriptionID : string;
  ConflictCreate_ExistingProviderSubscriptionID : string;
  ConflictCreate_ProviderEventID : string;
  ConflictCreate_Metadata : CreditMetadata D;
}.
Arguments BillingSubscriptionConflictCreate : clear implicits.

Record AutoRechargeProviderPaymentUpdate := {
  ProviderPaymentUpdate_Provider : string;
  ProviderPaymentUpdate_ProviderPaymentID : string;
  ProviderPaymentUpdate_State : string;
  ProviderPaymentUpdate_FailureCode : string;
  ProviderPaymentUpdate_FailureMessage : string;
}.

Section calls.
Context {D : Type}.

Inductive billing_call :=
  (* BillingStore, BillingAccountResolver and the processors *)
  | ClaimBillingEvent (event : BillingEvent D) (envelope : gmap string (any D))
  | CompleteBillingEvent (provider eventID claimToken : string)
  | FailBillingEvent (provider eventID claimToken diagnostic : string)
  | ResolveBillingEventAccount (event : BillingEvent D)
  | ProcessBillingEvent (configured : option LifecycleOptions) (event : BillingEvent D) (accountID : string)
  (* the application's handlers and callbacks *)
  | RunHandler (handler : Z) (event : BillingEvent D) (accountID : string)
  | RunCallback (callback : Z) (event : BillingEvent D) (accountID : string)
  | TimeNow
  (* CommerceStore and CommerceStateStore *)
  | CreateOrGetIntent (create : CheckoutIntentCreate)
  | UpdateIntent (intentID subjectID : string) (update : CheckoutIntentUpdate)
  | GetIntent (intentID subjectID : string)
  | StoreGetCustomer (accountID provider : string)
  | StoreGetSubscription (accountID : string) (statuses : list string)
  | StoreListSubscriptions (accountID : string)
  | StoreResolveOffer (provider productID priceID lookupKey : string)
  | StoreCreateChange (create : BillingSubscriptionChangeCreate)
  | StoreGetOpenChange (provider providerSubscriptionID : string)
  | StoreUpdateChange (id : string) (update : BillingSubscriptionChangeUpdate)
  | StoreGetPreferences (accountID : string)
  | StoreUpsertPreferences (preferences : BillingPreferences)
  | StoreListInvoices (accountID : string)
  (* the optional interfaces of a billing store *)
  | StoreUpsertCustomer (record : BillingCustomerRecord)
  | StoreGetActiveCatalog
  | StoreRecordConflict (input : BillingSubscriptionConflictCreate D)
  | StoreUpsertSubscription (state : CommerceSubscription D)
  | StoreResolveTopup (provider productID priceID lookupKey : string)
  | StorePseudonymize (accountID : string)
  | StoreListExpiredGrace (asOf : Time) (limit : Z)
  | StoreExpireGrace (candidate : CommerceSubscription D) (expiredAt : Time) (terminalPlanKey : string)
  (* AutoRechargeStore *)
  | StoreGetProfile (accountID : string)
  | StoreUpsertProfile (profile : AutoRechargeProfile D) (options : AutoRechargeProfileUpsertOptions)
  | StoreClaimAttempt (claim : AutoRechargeAttemptClaim)
  | StoreUpdateAttempt (update : AutoRechargeAttemptUpdate D)
  | StoreUpdateProviderPayment (update : AutoRechargeProviderPaymentUpdate)
  | StoreCountAttempts (accountID : string) (since : Time).

(** A processor also answers the subscription its event points to, as it
    leaves it; what it and the handlers do to the rest of the event is not
    visible to the service. *)
Definition billing_answer (c : billing_call) : Type :=
  match c with
  | ClaimBillingEvent _ _ => result BillingEventClaim
  | CompleteBillingEvent _ _ _ | FailBillingEvent _ _ _ _ => result bool
  | ResolveBillingEventAccount _ => result string
  | ProcessBillingEvent _ _ _ => result BillingEventResult * option (BillingSubscription D)
  | RunHandler _ _ _ => result unit
  | RunCallback _ _ _ => unit
  | TimeNow => Time
  | CreateOrGetIntent _ => result CheckoutIntent
  | UpdateIntent _ _ _ => result unit
  | GetIntent _ _ => result (option CheckoutIntent)
  | StoreGetCustomer _ _ => result (option BillingCustomerRecord)
  | StoreGetSubscription _ _ => result (option (CommerceSubscription D))
  | StoreListSubscriptions _ | StoreListExpiredGrace _ _ => result (list (CommerceSubscription D))
  | StoreResolveOffer _ _ _ _ => result (option (BillingOffer D))
  | StoreCreateChange _ => result BillingSubscriptionChange
  | StoreGetOpenChange _ _ => result (option BillingSubscriptionChange)
  | StoreUpdateChange _ _ | StoreUpsertPreferences _ | StoreUpsertCustomer _ | StoreRecordConflict _
  | StoreUpsertProfile _ _ | StoreUpdateAttempt _ | StoreUpdateProviderPayment _ => result unit
  | StoreGetPreferences _ => result (option BillingPreferences)
  | StoreListInvoices _ => result (list (BillingInvoice D))
  | StoreGetActiveCatalog => result (option (CatalogRevision D))
  | StoreUpsertSubscription _ => result string
  | StoreResolveTopup _ _ _ _ => result (option (BillingTopupResult D))
  | StorePseudonymize _ | StoreExpireGrace _ _ _ => result bool
  | StoreGetProfile _ => result (option (AutoRechargeProfile D))
  | StoreClaimAttempt _ => result (option (AutoRechargeAttempt D))
  | StoreCountAttempts _ _ => result Z
  end.
End calls.
Arguments billing_call : clear implicits.

(** ** Ingestion *)

Section ingest.
Context {D : Type}.
Notation prog := (prog (@billing_answer D)).
Implicit Types (s : BillingService) (event : BillingEvent D).

(** [if err != nil { return fmt.Errorf("message: %w", err) }] *)
Definition do_wrapped {A} (message : string) (r : result A) : prog A := lift (wrapped message r).

(** [s.fail].  A panic of what was called is no error: it passes through. *)
Definition fail_event {A} event (claimToken : string) (cause : error) : prog A :=
  match cause with
  | GoPanic _ => raise cause
  | _ =>
      let message := persistedDiagnosticSummary (Some cause) "billing_event_failed" in
      failed <~ Do (FailBillingEvent (BillingEvent_Provider event) (canonicalEventID event) claimToken message)
                  (do_wrapped ("bursar: fail billing event after handler error " +:+ Quote message)) ;;
      if negb failed
      then raise (WrappedError ("bursar: billing event " +:+ canonicalEventID event +:+ " failure claim was lost: "
                                +:+ error_message cause) cause)
      else raise cause
  end.

Definition fireEventHandler (s : option BillingService) event (accountID : string) : prog unit :=
  match s with
  | Some s =>
      if TrimSpace accountID =? "" then ret tt
      else match Billing_eventHandlers s !! BillingEvent_Type event with
           | Some callback => Do (RunCallback callback event accountID) (fun _ => ret tt)
           | None => ret tt
           end
  | None => ret tt
  end.

(** The event once it is claimed. *)
Definition claimed_event event (claim : BillingEventClaim) : BillingEvent D :=
  {| BillingEvent_EventID := canonicalEventID event; BillingEvent_ID := canonicalEventID event;
     BillingEvent_Provider := BillingEvent_Provider event; BillingEvent_Type := BillingEvent_Type event;
     BillingEvent_OccurredAt := BillingEvent_OccurredAt event; BillingEvent_AccountID := BillingEvent_AccountID event;
     BillingEvent_BillingEventID := BillingEventClaim_BillingEventID claim;
     BillingEvent_Customer := BillingEvent_Customer event; BillingEvent_Subscription := BillingEvent_Subscription event;
     BillingEvent_Invoice := BillingEvent_Invoice event; BillingEvent_Payment := BillingEvent_Payment event;
     BillingEvent_Refund := BillingEvent_Refund event; BillingEvent_Dispute := BillingEvent_Dispute event;
     BillingEvent_Metadata := BillingEvent_Metadata event |}.

(** The event whose subscription has become [subscription]. *)
Definition with_subscription event (subscription : option (BillingSubscription D)) : BillingEvent D :=
  {| BillingEvent_EventID := BillingEvent_EventID event; BillingEvent_ID := BillingEvent_ID event;
     BillingEvent_Provider := BillingEvent_Provider event; BillingEvent_Type := BillingEvent_Type event;
     BillingEvent_OccurredAt := BillingEvent_OccurredAt event; BillingEvent_AccountID := BillingEvent_AccountID event;
     BillingEvent_BillingEventID := BillingEvent_BillingEventID event;
     BillingEvent_Customer := BillingEvent_Customer event; BillingEvent_Subscription := subscription;
     BillingEvent_Invoice := BillingEvent_Invoice event; BillingEvent_Payment := BillingEvent_Payment event;
     BillingEvent_Refund := BillingEvent_Refund event; BillingEvent_Dispute := BillingEvent_Dispute event;
     BillingEvent_Metadata := BillingEvent_Metadata event |}.

(** The completion of a claim that was handled, and what follows it. *)
Definition complete_event s event (claimToken : string) (notified : BillingEvent D) (notify : bool) (r : BillingEventResult)
    : prog BillingEventResult :=
  completed <~ Do (CompleteBillingEvent (BillingEvent_Provider event) (canonicalEventID event) claimToken)
                 (do_wrapped "bursar: complete billing event") ;;
  if negb completed
  then raise (ExternalError ("bursar: billing event " +:+ canonicalEventID event +:+ " completion claim was lost"))
  else
    (if notify then fireEventHandler (Some s) notified (BillingEventResult_AccountID r) else ret tt) ;;~
    ret r.

(** An event with neither handler nor processor. *)
Definition unhandled_event (store : BillingStore) event (claimToken accountID : string) : prog BillingEventResult :=
  let eventType := BillingEvent_Type event in
  if (eventType =? "checkout.expired") || (eventType =? "invoice.upcoming") then
    let intentID := billingMetadataString (BillingEvent_Metadata event) "checkout_intent_id" in
    pcatch
      (if (eventType =? "checkout.expired") && negb (intentID =? "") && Store_UpdatesCheckoutIntents store
       then Do (UpdateIntent intentID accountID
                  {| CheckoutIntentUpdate_ProviderSessionID := ""; CheckoutIntentUpdate_ProviderURL := "";
                     CheckoutIntentUpdate_CustomerID := ""; CheckoutIntentUpdate_Status := "expired" |}) Done
       else ret tt)
      (fun updated =>
         match updated with
         | Err err => fail_event event claimToken err
         | Ok _ =>
             Do (CompleteBillingEvent (BillingEvent_Provider event) (canonicalEventID event) claimToken)
               (do_wrapped "bursar: complete ignored billing event") ;;~
             ret (event_result true false true false accountID)
         end)
  else fail_event event claimToken (ExternalError ("no handler for billing event " +:+ Quote eventType)).

Definition with_account (r : BillingEventResult) (accountID : string) : BillingEventResult :=
  {| BillingEventResult_Handled := BillingEventResult_Handled r; BillingEventResult_Duplicate := BillingEventResult_Duplicate r;
     BillingEventResult_Ignored := BillingEventResult_Ignored r; BillingEventResult_Retryable := BillingEventResult_Retryable r;
     BillingEventResult_AccountID := accountID; BillingEventResult_Action := BillingEventResult_Action r;
     BillingEventResult_Error := BillingEventResult_Error r;
     BillingEventResult_SubscriptionID := BillingEventResult_SubscriptionID r |}.

(** What a processor made of the event. *)
Definition processed_event s event (claimToken accountID : string)
    (processed : result BillingEventResult * option (BillingSubscription D)) : prog BillingEventResult :=
  match processed.1 with
  | Err err => fail_event event claimToken err
  | Ok r =>
      if negb (BillingEventResult_Handled r)
      then fail_event event claimToken
             (ExternalError ("billing lifecycle processor did not handle event " +:+ Quote (BillingEvent_Type event)))
      else
        let r := if BillingEventResult_AccountID r =? "" then with_account r accountID else r in
        complete_event s event claimToken (with_subscription event processed.2) (negb (BillingEventResult_Ignored r)) r
  end.

(** The processor of the store: whether it takes the service's options. *)
Definition processor_for s (store : BillingStore) (eventType : string) : option (option LifecycleOptions) :=
  if negb (IsBillingLifecycleEventType eventType) then None
  else if Store_ProcessesConfigured store then Some (Some (Billing_lifecycle s))
  else if Store_ProcessesEvents store then Some None
  else None.

(** From a claim to its completion or failure. *)
Definition handle_claimed s (store : BillingStore) event (claimToken : string) : prog BillingEventResult :=
  pcatch (if Store_ResolvesAccounts store then Do (ResolveBillingEventAccount event) Done else ret "") (fun resolved =>
    match resolved with
    | Err err => fail_event event claimToken err
    | Ok accountID =>
        match or_else (Billing_handlers s !! BillingEvent_Type event) (Billing_defaultHandler s) with
        | Some handler =>
            Do (RunHandler handler event accountID) (fun handled =>
              match handled with
              | Err err => fail_event event claimToken err
              | Ok _ => complete_event s event claimToken event true (event_result true false false false accountID)
              end)
        | None =>
            match processor_for s store (BillingEvent_Type event) with
            | Some configured =>
                Do (ProcessBillingEvent configured event accountID) (processed_event s event claimToken accountID)
            | None => unhandled_event store event claimToken accountID
            end
        end
    end).

Definition Ingest (s : option BillingService) event : prog BillingEventResult :=
  match s with
  | None => raise (ExternalError "bursar: billing service is not configured")
  | Some s =>
      lift (Validate event) ;;~
      match Billing_store s with
      | None => raise (GoPanic "nil billing store")
      | Some store =>
          claim <~ Do (ClaimBillingEvent event (billingEventClaimEnvelope event)) (do_wrapped "bursar: claim billing event") ;;
          let state := BillingEventClaim_State claim in
          if state =? BillingEventDuplicate then ret (event_result true true false false "")
          else if state =? BillingEventBusy then ret (event_result false false false true "")
          else if state =? BillingEventRejected
          then raise (ExternalError ("bursar: billing event " +:+ canonicalEventID event +:+ " was rejected: "
                                     +:+ BillingEventClaim_Reason claim))
          else if state =? BillingEventClaimed then
            if TrimSpace (BillingEventClaim_ClaimToken claim) =? ""
            then raise (ExternalError "bursar: claimed billing event has no claim token")
            else handle_claimed s store (claimed_event event claim) (BillingEventClaim_ClaimToken claim)
          else raise (ExternalError ("bursar: unknown billing event claim state " +:+ Quote state))
      end
  end.
End ingest.

(** ** The methods that ask the store *)

Section management.
Context {D : Type}.
Notation prog := (prog (@billing_answer D)).
Implicit Types (s : option BillingService) (accountID provider : string) (subscription : CommerceSubscription D).

Definition capability_missing (message : string) : error :=
  errorf ErrorCode.CapabilityNotConfigured ErrorCategory.Unavailable message.
Definition recharge_missing (message : string) : error :=
  errorf ErrorCode.AutoRechargeNotConfigured ErrorCategory.Unavailable message.

(** [s.store.(Interface)], with the error of a service without a store and of
    a store without the interface. *)
Definition store_with s (has : BillingStore -> bool) (unconfigured missing : error) : prog BillingStore :=
  match s ≫= Billing_store with
  | Some store => if has store then ret store else raise missing
  | None => raise unconfigured
  end.

(** An optional interface and the one error of its absence; a nil store has no
    interface. *)
Definition optional_store s (has : BillingStore -> bool) (missing : error) : prog BillingStore :=
  store_with s has missing missing.

Definition commerceStore s : prog BillingStore :=
  store_with s Store_IsCommerceStore (capability_missing "billing service is not configured")
    (capability_missing "billing checkout persistence is not configured").
Definition stateStore s : prog BillingStore :=
  store_with s Store_IsStateStore (capability_missing "billing service is not configured")
    (capability_missing "billing state persistence is not configured").
Definition autoRechargeStore s : prog BillingStore :=
  store_with s Store_IsAutoRechargeStore (recharge_missing "billing service is not configured")
    (recharge_missing "billing auto-recharge persistence is not configured").

Definition HasProvisioning s : bool :=
  match s with Some s => Lifecycle_HasProvisioning (Billing_lifecycle s) | None => false end.

Definition CreateOrGetCheckoutIntent s (input : CheckoutIntentCreate) : prog CheckoutIntent :=
  commerceStore s ;;~ Do (CreateOrGetIntent input) Done.
Definition UpdateCheckoutIntent s (intentID subjectID : string) (update : CheckoutIntentUpdate) : prog unit :=
  commerceStore s ;;~ Do (UpdateIntent intentID subjectID update) Done.
Definition GetCheckoutIntent s (intentID subjectID : string) : prog (option CheckoutIntent) :=
  commerceStore s ;;~ Do (GetIntent intentID subjectID) Done.

(** [copy := *subscription; copy.GraceExpiredAt = &value] *)
Definition with_grace_expired subscription (at_ : Time) : CommerceSubscription D :=
  {| CommerceSubscription_ID := CommerceSubscription_ID subscription;
     CommerceSubscription_CatalogRevisionID := CommerceSubscription_CatalogRevisionID subscription;
     CommerceSubscription_Provider := CommerceSubscription_Provider subscription;
     CommerceSubscription_ProviderSubscriptionID := CommerceSubscription_ProviderSubscriptionID subscription;
     CommerceSubscription_AccountID := CommerceSubscription_AccountID subscription;
     CommerceSubscription_ProviderCustomerID := CommerceSubscription_ProviderCustomerID subscription;
     CommerceSubscription_OfferID := CommerceSubscription_OfferID subscription;
     CommerceSubscription_OfferKey := CommerceSubscription_OfferKey subscription;
     CommerceSubscription_PlanID := CommerceSubscription_PlanID subscription;
     CommerceSubscription_PlanKey := CommerceSubscription_PlanKey subscription;
     CommerceSubscription_Status := CommerceSubscription_Status subscription;
     CommerceSubscription_Interval := CommerceSubscription_Interval subscription;
     CommerceSubscription_IntervalCount := CommerceSubscription_IntervalCount subscription;
     CommerceSubscription_CurrentPeriodStart := CommerceSubscription_CurrentPeriodStart subscription;
     CommerceSubscription_CurrentPeriodEnd := CommerceSubscription_CurrentPeriodEnd subscription;
     CommerceSubscription_TrialEnd := CommerceSubscription_TrialEnd subscription;
     CommerceSubscription_CancelAt := CommerceSubscription_CancelAt subscription;
     CommerceSubscription_EndedAt := CommerceSubscription_EndedAt subscription;
     CommerceSubscription_CancelAtPeriodEnd := CommerceSubscription_CancelAtPeriodEnd subscription;
     CommerceSubscription_GraceEndsAt := CommerceSubscription_GraceEndsAt subscription;
     CommerceSubscription_GraceExpiredAt := Some at_;
     CommerceSubscription_ProviderUpdatedAt := CommerceSubscription_ProviderUpdatedAt subscription;
     CommerceSubscription_Metadata := CommerceSubscription_Metadata subscription |}.

(** The service selects entitlements itself, for an application that
    provisions plans. *)
Definition entitles s : bool :=
  match s with
  | Some s => Lifecycle_HasProvisioning (Billing_lifecycle s)
              && Lifecycle_autoSelectEntitlementSource (Billing_lifecycle s)
  | None => false
  end.

Definition terminal_plan s : string :=
  match s with Some s => Lifecycle_terminalPlanKey (Billing_lifecycle s) | None => "" end.

(** The grace period of a subscription has run out and is not yet marked. *)
Definition grace_over subscription (now : Time) : bool :=
  (CommerceSubscription_Status subscription =? "past_due")
  && negb (is_some (CommerceSubscription_GraceExpiredAt subscription))
  && match CommerceSubscription_GraceEndsAt subscription with Some ends => negb (After ends now) | None => false end
  && negb (CommerceSubscription_ID subscription =? "").

Definition expireGraceIfNeeded s (subscription : option (CommerceSubscription D)) (now : Time)
    : prog (option (CommerceSubscription D)) :=
  match subscription with
  | Some x =>
      if negb (entitles s && grace_over x now) then ret subscription
      else
        optional_store s Store_ExpiresGrace
          (capability_missing "atomic billing grace-period expiry is not configured") ;;~
        marked <~ Do (StoreExpireGrace x now (terminal_plan s)) Done ;;
        if negb marked then ret subscription else ret (Some (with_grace_expired x (ToUTC now)))
  | None => ret None
  end.

(** [GetUserSubscription] and [GetBlockingSubscription] *)
Definition subscription_in s accountID (statuses : list string) : prog (option (CommerceSubscription D)) :=
  stateStore s ;;~
  subscription <~ Do (StoreGetSubscription accountID statuses) Done ;;
  Do TimeNow (fun now => expireGraceIfNeeded s subscription (ToUTC now)).

Definition GetUserSubscription s accountID : prog (option (CommerceSubscription D)) :=
  subscription_in s accountID ["active"; "trialing"; "canceled"; "past_due"; "incomplete"].
Definition GetBlockingSubscription s accountID : prog (option (CommerceSubscription D)) :=
  subscription_in s accountID ["active"; "trialing"; "past_due"; "incomplete"].
Definition GetActiveSubscription s accountID : prog (option (CommerceSubscription D)) :=
  stateStore s ;;~ Do (StoreGetSubscription accountID ["active"; "trialing"]) Done.

Definition ListCancellableSubscriptions s accountID : prog (list (CommerceSubscription D)) :=
  stateStore s ;;~
  all <~ Do (StoreListSubscriptions accountID) Done ;;
  ret (List.filter (fun x =>
         oneOf (CommerceSubscription_Status x) ["active"; "trialing"; "past_due"; "incomplete"; "unpaid"; "paused"]
         && negb (CommerceSubscription_ProviderSubscriptionID x =? "")) all).

Definition ListCancellableProviderSubscriptionIDs s accountID : prog (list string) :=
  subscriptions <~ ListCancellableSubscriptions s accountID ;;
  ret (map CommerceSubscription_ProviderSubscriptionID subscriptions).

Definition GetUserPreferences s accountID : prog (option BillingPreferences) :=
  stateStore s ;;~ Do (StoreGetPreferences accountID) Done.
Definition UpdateUserPreferences s (preferences : BillingPreferences) : prog unit :=
  stateStore s ;;~ Do (StoreUpsertPreferences preferences) Done.
Definition ListBillingInvoices s accountID : prog (list (BillingInvoice D)) :=
  stateStore s ;;~ Do (StoreListInvoices accountID) Done.
Definition CreateBillingSubscriptionChange s (input : BillingSubscriptionChangeCreate) : prog BillingSubscriptionChange :=
  stateStore s ;;~ Do (StoreCreateChange input) Done.
Definition GetOpenBillingSubscriptionChange s provider (providerSubscriptionID : string)
    : prog (option BillingSubscriptionChange) :=
  stateStore s ;;~ Do (StoreGetOpenChange provider providerSubscriptionID) Done.
Definition UpdateBillingSubscriptionChange s (id : string) (update : BillingSubscriptionChangeUpdate) : prog unit :=
  stateStore s ;;~ Do (StoreUpdateChange id update) Done.
Definition GetCustomerByUserID s accountID provider : prog (option BillingCustomerRecord) :=
  stateStore s ;;~ Do (StoreGetCustomer accountID provider) Done.
Definition ResolveOffer s provider (productID priceID : string) : prog (option (BillingOffer D)) :=
  stateStore s ;;~ Do (StoreResolveOffer provider productID priceID "") Done.
Definition ResolveOfferByLookup s provider (lookupKey : string) : prog (option (BillingOffer D)) :=
  stateStore s ;;~ Do (StoreResolveOffer provider "" "" lookupKey) Done.
Definition UpsertCustomer s provider (providerCustomerID accountID email : string) : prog unit :=
  store <~ stateStore s ;;
  if Store_WritesCustomers store
  then Do (StoreUpsertCustomer {| BillingCustomerRecord_Provider := provider;
                                  BillingCustomerRecord_ProviderCustomerID := providerCustomerID;
                                  BillingCustomerRecord_AccountID := accountID; BillingCustomerRecord_Email := email |}) Done
  else raise (capability_missing "billing customer persistence is not configured").

Definition GetActiveCatalogDocument s : prog (option (gmap string (any D))) :=
  optional_store s Store_HasActiveCatalog (capability_missing "billing catalog access is not configured") ;;~
  revision <~ Do StoreGetActiveCatalog Done ;;
  ret match revision with Some revision => CatalogRevision_Config revision | None => None end.
Definition RecordSubscriptionConflict s (input : BillingSubscriptionConflictCreate D) : prog unit :=
  optional_store s Store_RecordsConflicts
    (capability_missing "billing subscription-conflict persistence is not configured") ;;~
  Do (StoreRecordConflict input) Done.
Definition UpsertBillingSubscription s (state : CommerceSubscription D) : prog string :=
  optional_store s Store_WritesSubscriptions
    (capability_missing "billing subscription persistence is not configured") ;;~
  Do (StoreUpsertSubscription state) Done.
Definition ResolveTopup s provider (productID priceID : string) : prog (option (BillingTopupResult D)) :=
  optional_store s Store_ResolvesTopups (capability_missing "billing top-up resolution is not configured") ;;~
  Do (StoreResolveTopup provider productID priceID "") Done.
Definition ResolveTopupByLookup s provider (lookupKey : string) : prog (option (BillingTopupResult D)) :=
  optional_store s Store_ResolvesTopups (capability_missing "billing top-up resolution is not configured") ;;~
  Do (StoreResolveTopup provider "" "" lookupKey) Done.
Definition PseudonymizeFinancialSubject s accountID : prog unit :=
  optional_store s Store_Pseudonymizes (capability_missing "billing subject pseudonymization is not configured") ;;~
  changed <~ Do (StorePseudonymize accountID) Done ;;
  if negb changed
  then raise (errorf ErrorCode.CommerceResourceNotFound ErrorCategory.NotFound "billing subject was not found")
  else ret tt.

Definition GetAutoRechargeProfile s accountID : prog (option (AutoRechargeProfile D)) :=
  autoRechargeStore s ;;~ Do (StoreGetProfile accountID) Done.
Definition UpsertAutoRechargeProfile s (profile : AutoRechargeProfile D) (options : AutoRechargeProfileUpsertOptions) : prog unit :=
  autoRechargeStore s ;;~ Do (StoreUpsertProfile profile options) Done.
Definition ClaimAutoRechargeAttempt s (claim : AutoRechargeAttemptClaim) : prog (option (AutoRechargeAttempt D)) :=
  autoRechargeStore s ;;~ Do (StoreClaimAttempt claim) Done.
Definition UpdateAutoRechargeAttempt s (update : AutoRechargeAttemptUpdate D) : prog unit :=
  autoRechargeStore s ;;~ Do (StoreUpdateAttempt update) Done.
Definition UpdateAutoRechargeAttemptByProviderPayment s (update : AutoRechargeProviderPaymentUpdate) : prog unit :=
  optional_store s Store_UpdatesProviderPayments
    (recharge_missing "billing auto-recharge provider reconciliation is not configured") ;;~
  Do (StoreUpdateProviderPayment update) Done.
Definition CountAutoRechargeAttempts s accountID (since : Time) : prog Z :=
  autoRechargeStore s ;;~ Do (StoreCountAttempts accountID since) Done.

(** ** The end of grace periods *)

Definition expiry_candidate (candidate : CommerceSubscription D) : bool :=
  negb ((CommerceSubscription_ID candidate =? "") || negb (is_some (CommerceSubscription_GraceEndsAt candidate))
        || negb (CommerceSubscription_Status candidate =? "past_due")
        || is_some (CommerceSubscription_GraceExpiredAt candidate)).

(** The loop over the candidates; an error of the store ends it and is answered
    with the count so far. *)
Fixpoint expire_candidates (now : Time) (terminalPlanKey : string) (expired : Z) (candidates : list (CommerceSubscription D))
    : prog (Z * option error) :=
  match candidates with
  | [] => ret (expired, None)
  | candidate :: rest =>
      if negb (expiry_candidate candidate) then expire_candidates now terminalPlanKey expired rest
      else
        Do (StoreExpireGrace candidate now terminalPlanKey) (fun marked : result bool =>
          match marked with
          | Ok marked => expire_candidates now terminalPlanKey (if marked then expired + 1 else expired) rest
          | Err (GoPanic text) => raise (GoPanic text)
          | Err err => ret (expired, Some err)
          end)
  end.

(** An error that is raised comes with a count of zero. *)
Definition ExpirePastDueGracePeriods s (now : Time) (limit : Z) : prog (Z * option error) :=
  if negb (entitles s) then ret (0, None)
  else
    optional_store s Store_ListsGrace (capability_missing "billing grace-period maintenance is not configured") ;;~
    now <~ (if IsZeroTime now then Do TimeNow (fun now => ret (ToUTC now)) else ret now) ;;
    let limit := if (limit =? 0)%Z then 100 else limit in
    if (limit <? 1) || (1000 <? limit)
    then raise (errorf ErrorCode.Config ErrorCategory.InvalidRequest "billing grace-period limit must be between 1 and 1000")
    else
      candidates <~ Do (StoreListExpiredGrace now limit) Done ;;
      optional_store s Store_ExpiresGrace
        (capability_missing "atomic billing grace-period expiry is not configured") ;;~
      expire_candidates now (terminal_plan s) 0 candidates.
End management.
