(* ===== verification/BillingLifecycle.v ===== *)
(** * postgres_billing_lifecycle.go: what the PostgreSQL store does with an event

    [process] as a program over the store's methods and the provisioning port.
    It changes the subscription its event points to in place, so it also
    answers that subscription as it leaves it. *)

From S2P Require Export Billing.
Local Open Scope Z_scope.
Local Open Scope go_scope.

(** [pgtype.UUID.Scan] of a text: its sixteen bytes. *)
Class Uuids := { scanUUID : string -> result string }.

(** ** The calls of the lifecycle *)

Section records.
Context {D : Type}.

Record BillingPaymentRecord := {
  BillingPaymentRecord_ID : string;
  BillingPaymentRecord_Provider : string;
  BillingPaymentRecord_ProviderPaymentID : string;
  BillingPaymentRecord_ProviderInvoiceID : string;
  BillingPaymentRecord_AccountID : string;
  BillingPaymentRecord_AmountMinor : Z;
  BillingPaymentRecord_TaxMinor : Z;
  BillingPaymentRecord_Currency : string;
  BillingPaymentRecord_Purpose : string;
  BillingPaymentRecord_Status : string;
  BillingPaymentRecord_ProviderUpdatedAt : Time;
  BillingPaymentRecord_Metadata : CreditMetadata D;
}.

Record BillingCreditPostingResult := {
  BillingCreditPostingResult_LedgerEntryID : string;
  BillingCreditPostingResult_BalanceAfter : option D;
  BillingCreditPostingResult_Replayed : bool;
  BillingCreditPostingResult_ErrorCode : string;
}.

Record BillingPaymentUpsert := {
  PaymentUpsert_Provider : string;
  PaymentUpsert_ProviderPaymentID : string;
  PaymentUpsert_ProviderInvoiceID : string;
  PaymentUpsert_AccountID : string;
  PaymentUpsert_AmountMinor : Z;
  PaymentUpsert_TaxMinor : Z;
  PaymentUpsert_Currency : string;
  PaymentUpsert_Purpose : string;
  PaymentUpsert_Status : string;
  PaymentUpsert_ProviderUpdatedAt : Time;
  PaymentUpsert_Metadata : CreditMetadata D;
}.

Record BillingCreditGrantCreate := {
  GrantCreate_PaymentID : string;
  GrantCreate_SubscriptionID : string;
  GrantCreate_TopupID : string;
  GrantCreate_Credits : D;
  GrantCreate_Quantity : Z;
  GrantCreate_BillingEventID : string;
}.

Record BillingRefundUpsert := {
  RefundUpsert_Provider : string;
  RefundUpsert_ProviderRefundID : string;
  RefundUpsert_ProviderPaymentID : string;
  RefundUpsert_AccountID : string;
  RefundUpsert_AmountMinor : Z;
  RefundUpsert_Currency : string;
  RefundUpsert_Reason : string;
  RefundUpsert_Status : string;
  RefundUpsert_ProviderUpdatedAt : Time;
  RefundUpsert_Metadata : CreditMetadata D;
}.

Record BillingInvoiceUpsert := {
  InvoiceUpsert_Provider : string;
  InvoiceUpsert_ProviderInvoiceID : string;
  InvoiceUpsert_ProviderSubscriptionID : string;
  InvoiceUpsert_AccountID : string;
  InvoiceUpsert_Status : string;
  InvoiceUpsert_AmountPaidMinor : Z;
  InvoiceUpsert_AmountDueMinor : Z;
  InvoiceUpsert_Currency : string;
  InvoiceUpsert_PeriodStart : option Time;
  InvoiceUpsert_PeriodEnd : option Time;
  InvoiceUpsert_ProviderUpdatedAt : Time;
  InvoiceUpsert_Metadata : CreditMetadata D;
}.

Record BillingDisputeUpsert := {
  DisputeUpsert_Provider : string;
  DisputeUpsert_ProviderDisputeID : string;
  DisputeUpsert_ProviderPaymentID : string;
  DisputeUpsert_Status : string;
  DisputeUpsert_Reason : string;
  DisputeUpsert_ProviderUpdatedAt : Time;
  DisputeUpsert_Metadata : CreditMetadata D;
}.

(** The methods of the store and of the provisioning port that [process]
    calls.  [AdvanceCheckoutIntent] is the transaction of
    [updateCheckoutFromEvent]. *)
Inductive lifecycle_call :=
  | LifecycleNow
  | ProvisionedPlan (accountID : string)
  | GetBillingCustomerByProvider (provider providerCustomerID : string)
  | GetBillingSubscriptionByProvider (provider providerSubscriptionID : string)
  | GetBillingPaymentByProvider (provider providerPaymentID : string)
  | ListBillingSubscriptions (accountID : string)
  | ResolveBillingOffer (provider productID priceID lookupKey : string)
  | ResolveBillingTopup (provider productID priceID lookupKey : string)
  | GetBillingCreditGrantByPayment (paymentID : string)
  | UpsertBillingCustomer (record : BillingCustomerRecord)
  | UpsertBillingSubscriptionState (state : CommerceSubscription D)
  | UpsertBillingPaymentState (payment : BillingPaymentUpsert)
  | UpsertBillingRefundState (refund : BillingRefundUpsert)
  | UpsertBillingInvoiceState (invoice : BillingInvoiceUpsert)
  | UpsertBillingDisputeState (dispute : BillingDisputeUpsert)
  | RecordConflict (conflict : BillingSubscriptionConflictCreate D)
  | reconcileSubscriptionEntitlement (accountID subscriptionID billingEventID status : string) (updatedAt : Time)
      (assignedAt : option Time) (applyEntitlement : bool) (terminalPlanKey reason : string)
  | applyOpenBillingSubscriptionChange (provider providerSubscriptionID offerID : string)
  | expirePastDueGracePeriod (candidate : CommerceSubscription D) (expiredAt : Time) (terminalPlanKey : string)
  | AdvanceCheckoutIntent (intentID status : string)
  | CreateBillingCreditGrant (grant : BillingCreditGrantCreate)
  | GrantBillingCredit (grantID idempotencyKey : string)
  | PostBillingRefund (refundID grantID : string) (amountMinor : Z) (idempotencyKey : string)
  | UpdateAttemptByProviderPayment (update : AutoRechargeProviderPaymentUpdate).

Definition lifecycle_answer (c : lifecycle_call) : Type :=
  match c with
  | LifecycleNow => Time
  | ProvisionedPlan _ => result GetUserPlanResult
  | GetBillingCustomerByProvider _ _ => result (option BillingCustomerRecord)
  | GetBillingSubscriptionByProvider _ _ => result (option (CommerceSubscription D))
  | GetBillingPaymentByProvider _ _ => result (option BillingPaymentRecord)
  | ListBillingSubscriptions _ => result (list (CommerceSubscription D))
  | ResolveBillingOffer _ _ _ _ => result (option (BillingOffer D))
  | ResolveBillingTopup _ _ _ _ => result (option (BillingTopupResult D))
  | UpsertBillingSubscriptionState _ | UpsertBillingPaymentState _ | UpsertBillingRefundState _
  | GetBillingCreditGrantByPayment _ | CreateBillingCreditGrant _
  | reconcileSubscriptionEntitlement _ _ _ _ _ _ _ _ _ => result string
  | UpsertBillingCustomer _ | UpsertBillingInvoiceState _ | UpsertBillingDisputeState _ | RecordConflict _
  | applyOpenBillingSubscriptionChange _ _ _ | UpdateAttemptByProviderPayment _ => result unit
  | expirePastDueGracePeriod _ _ _ | AdvanceCheckoutIntent _ _ => result bool
  | GrantBillingCredit _ _ | PostBillingRefund _ _ _ _ => result BillingCreditPostingResult
  end.
End records.
Arguments BillingPaymentRecord : clear implicits.
Arguments BillingCreditPostingResult : clear implicits.
Arguments BillingPaymentUpsert : clear implicits.
Arguments BillingCreditGrantCreate : clear implicits.
Arguments BillingRefundUpsert : clear implicits.
Arguments BillingInvoiceUpsert : clear implicits.
Arguments BillingDisputeUpsert : clear implicits.
Arguments lifecycle_call : clear implicits.

(** ** Outcomes *)

Definition subscriptionEntitlementApplied := "applied".
Definition subscriptionEntitlementRevoked := "revoked".
Definition subscriptionEntitlementPreserved := "preserved".
Definition subscriptionEntitlementStale := "stale".

(** The statuses that grant, that keep and that take an entitlement. *)
Definition validateSubscriptionEntitlementOutcome (status outcome : string) (applyEntitlement : bool) : result unit :=
  let preserved := outcome =? subscriptionEntitlementPreserved in
  let valid :=
    if oneOf status ["active"; "trialing"]
    then (applyEntitlement && (outcome =? subscriptionEntitlementApplied)) || (negb applyEntitlement && preserved)
    else if oneOf status ["incomplete"; "past_due"] then preserved
    else if oneOf status ["incomplete_expired"; "paused"; "canceled"; "unpaid"; "expired"]
    then (outcome =? subscriptionEntitlementRevoked) || preserved
    else false in
  if valid then Ok tt
  else Err (NewStoreError "subscription entitlement reconciliation outcome does not match subscription status"
              (error_details "" "" {[ "status" := status; "outcome" := outcome ]})).

Definition handledBilling (eventType accountID subscriptionID : string) : BillingEventResult :=
  {| BillingEventResult_Handled := true; BillingEventResult_Duplicate := false; BillingEventResult_Ignored := false;
     BillingEventResult_Retryable := false; BillingEventResult_AccountID := accountID;
     BillingEventResult_Action := ReplaceAll eventType "." "_"; BillingEventResult_Error := "";
     BillingEventResult_SubscriptionID := subscriptionID |}.

(** [result.Action = action; result.Ignored = ignored] *)
Definition with_action (r : BillingEventResult) (action : string) (ignored : bool) : BillingEventResult :=
  {| BillingEventResult_Handled := BillingEventResult_Handled r; BillingEventResult_Duplicate := BillingEventResult_Duplicate r;
     BillingEventResult_Ignored := ignored; BillingEventResult_Retryable := BillingEventResult_Retryable r;
     BillingEventResult_AccountID := BillingEventResult_AccountID r; BillingEventResult_Action := action;
     BillingEventResult_Error := BillingEventResult_Error r;
     BillingEventResult_SubscriptionID := BillingEventResult_SubscriptionID r |}.

Definition ignoredSubscriptionBilling (eventType accountID subscriptionID action : string) : BillingEventResult :=
  with_action (handledBilling eventType accountID subscriptionID) action true.

Definition nil_dereference : error := GoPanic "invalid memory address or nil pointer dereference".

(** [NewStoreError(message, ErrorOptions{Retryable: true, Details: details})] *)
Definition retryable_store_error (message : string) (details : gmap string string) : error :=
  NewStoreError message {| opt_Code := ""; opt_Category := ""; opt_Retryable := true; opt_Indeterminate := false;
                           opt_Details := details; opt_Cause := None |}.

Definition billing_error (message category : string) : error := errorf ErrorCode.Billing category message.

(** The first time that is set, in UTC. *)
Definition firstTime (values : list (option Time)) : option Time := ToUTC <$> foldr or_else None values.

Fixpoint firstPositive (values : list Z) : Z :=
  match values with
  | [] => 1
  | value :: rest => if 0 <? value then value else firstPositive rest
  end.

Section lifecycle.
Context {D : Type} `{DecimalOps D} `{Uuids}.
Notation prog := (prog (@lifecycle_answer D)).
Implicit Types (options : LifecycleOptions) (event : BillingEvent D) (accountID : string).
Implicit Types (subscription : BillingSubscription D) (existing : option (CommerceSubscription D)).

Definition billingLifecyclePostingError (operation : string) (posting : BillingCreditPostingResult D) : result unit :=
  let code := BillingCreditPostingResult_ErrorCode posting in
  if code =? "" then Ok tt
  else Err (NewStoreError (operation +:+ " was rejected: " +:+ code) (error_details "" "" {[ "error_code" := code ]})).

Definition postgresUUID (value label : string) : result string :=
  match scanUUID (TrimSpace value) with
  | Ok id => Ok id
  | Err err => Err (NewError (label +:+ " must be a UUID")
                      (error_options ErrorCode.Config ErrorCategory.InvalidRequest (Some err)))
  end.

Definition subscriptionEventID event : string :=
  match BillingEvent_Subscription event with Some s => canonicalProviderSubscriptionID s | None => "" end.

Definition customerProviderID (customer : option (BillingCustomer D)) : string :=
  match customer with Some c => canonicalProviderCustomerID c | None => "" end.

(** [existingText] and [existingTime] *)
Definition existingText existing (getter : CommerceSubscription D -> string) : string :=
  match existing with Some x => getter x | None => "" end.
Definition existingTime existing (getter : CommerceSubscription D -> option Time) : option Time :=
  match existing with Some x => getter x | None => None end.

(** Later maps win. *)
Definition mergedBillingMetadata existing (maps : list (gmap string (any D))) : gmap string (any D) :=
  fold_left (fun result values => values ∪ result) maps
    match existing with Some x => CommerceSubscription_Metadata x | None => ∅ end.

(** [value, exists := metadata[key]] *)
Definition metadata_value (metadata : CreditMetadata D) (key : string) : option (any D) :=
  match metadata with Some m => m !! key | None => None end.

Definition validateBillingLifecycleMetadata (metadata : CreditMetadata D) : result unit :=
  match metadata_value metadata "checkout_intent_id" with
  | None => Ok tt
  | Some (AString intentID) =>
      if TrimSpace intentID =? ""
      then Err (billing_error "billing checkout intent ID is invalid" ErrorCategory.InvalidRequest)
      else postgresUUID (TrimSpace intentID) "checkout intent ID" ;;; Ok tt
  | Some _ => Err (billing_error "billing checkout intent ID is invalid" ErrorCategory.InvalidRequest)
  end.

(** ** Accounts, customers, offers, invoices and checkouts *)

(** What a lookup of the account answers when it finds nothing. *)
Definition account_or {A} (found : option A) (account : A -> string) (next : prog string) : prog string :=
  match found with Some x => ret (account x) | None => next end.

(** The account the event's customer, subscription or payment is known under. *)
Definition known_account event : prog string :=
  let provider := BillingEvent_Provider event in
  let paymentID :=
    match BillingEvent_Payment event, BillingEvent_Refund event, BillingEvent_Dispute event with
    | Some p, _, _ => canonicalProviderPaymentID p
    | None, Some r, _ => Refund_canonicalProviderPaymentID r
    | None, None, Some d => Dispute_canonicalProviderPaymentID d
    | None, None, None => ""
    end in
  let by_payment :=
    if paymentID =? "" then ret ""
    else payment <~ Do (GetBillingPaymentByProvider provider paymentID) Done ;;
         account_or payment BillingPaymentRecord_AccountID (ret "") in
  let by_subscription :=
    if subscriptionEventID event =? "" then by_payment
    else subscription <~ Do (GetBillingSubscriptionByProvider provider (subscriptionEventID event)) Done ;;
         account_or subscription CommerceSubscription_AccountID by_payment in
  if customerProviderID (BillingEvent_Customer event) =? "" then by_subscription
  else customer <~ Do (GetBillingCustomerByProvider provider (customerProviderID (BillingEvent_Customer event))) Done ;;
       account_or customer BillingCustomerRecord_AccountID by_subscription.

Definition resolveAccount event accountID : prog string :=
  let value := TrimSpace (firstNonEmpty [accountID; BillingEvent_AccountID event]) in
  if negb (value =? "") then ret value else known_account event.

Definition upsert_customer event accountID : prog unit :=
  match BillingEvent_Customer event with
  | Some customer =>
      if (accountID =? "") || (canonicalProviderCustomerID customer =? "") then ret tt
      else Do (UpsertBillingCustomer
                 {| BillingCustomerRecord_Provider := BillingEvent_Provider event;
                    BillingCustomerRecord_ProviderCustomerID := canonicalProviderCustomerID customer;
                    BillingCustomerRecord_AccountID := accountID;
                    BillingCustomerRecord_Email := BillingCustomer_Email customer |}) Done
  | None => ret tt
  end.

Definition offerForEvent event : prog (option (BillingOffer D)) :=
  match BillingEvent_Subscription event ≫= BillingSubscription_Refs with
  | Some refs => Do (ResolveBillingOffer (BillingEvent_Provider event) (ProviderRef_ProductID refs)
                       (ProviderRef_PriceID refs) (ProviderRef_LookupKey refs)) Done
  | None => ret None
  end.

Definition persistInvoice event accountID : prog unit :=
  match BillingEvent_Invoice event with
  | None => ret tt
  | Some invoice =>
      Do (UpsertBillingInvoiceState
            {| InvoiceUpsert_Provider := BillingEvent_Provider event;
               InvoiceUpsert_ProviderInvoiceID := canonicalProviderInvoiceID invoice;
               InvoiceUpsert_ProviderSubscriptionID := subscriptionEventID event; InvoiceUpsert_AccountID := accountID;
               InvoiceUpsert_Status := BillingInvoice_Status invoice;
               InvoiceUpsert_AmountPaidMinor := BillingInvoice_AmountPaidMinor invoice;
               InvoiceUpsert_AmountDueMinor := BillingInvoice_AmountDueMinor invoice;
               InvoiceUpsert_Currency := BillingInvoice_Currency invoice;
               InvoiceUpsert_PeriodStart := BillingInvoice_PeriodStart invoice;
               InvoiceUpsert_PeriodEnd := BillingInvoice_PeriodEnd invoice;
               InvoiceUpsert_ProviderUpdatedAt := BillingEvent_OccurredAt event;
               InvoiceUpsert_Metadata := BillingEvent_Metadata event |}) Done
  end.

Definition updateCheckoutFromEvent event (status : string) : prog unit :=
  match metadata_value (BillingEvent_Metadata event) "checkout_intent_id" with
  | Some (AString value) =>
      if TrimSpace value =? "" then ret tt
      else
        typedIntentID <~ lift (postgresUUID (TrimSpace value) "checkout intent ID") ;;
        advanced <~ Do (AdvanceCheckoutIntent typedIntentID status) Done ;;
        if (advanced : bool) then ret tt
        else raise (NewStoreError "billing checkout intent transition was rejected"
                      (error_details "" "" {[ "checkout_intent_id" := TrimSpace value; "status" := status ]}))
  | _ => ret tt
  end.

(** ** Subscriptions *)

(** Another subscription of the account that is current with the provider. *)
Definition conflicting event (subscriptionID : string) (other : CommerceSubscription D) : bool :=
  (CommerceSubscription_Provider other =? BillingEvent_Provider event)
  && negb (CommerceSubscription_ProviderSubscriptionID other =? subscriptionID)
  && oneOf (CommerceSubscription_Status other) ["active"; "trialing"; "past_due"; "incomplete"].

(** The loop over the subscriptions of the account. *)
Definition record_conflict event accountID (subscriptionID : string) (all : list (CommerceSubscription D)) : prog unit :=
  match List.find (conflicting event subscriptionID) all with
  | Some other =>
      Do (RecordConflict
            {| ConflictCreate_AccountID := accountID; ConflictCreate_Provider := BillingEvent_Provider event;
               ConflictCreate_DuplicateProviderSubscriptionID := subscriptionID;
               ConflictCreate_ExistingProviderSubscriptionID := CommerceSubscription_ProviderSubscriptionID other;
               ConflictCreate_ProviderEventID := canonicalEventID event;
               ConflictCreate_Metadata := BillingEvent_Metadata event |}) Done ;;~
      raise (billing_error "billing subscription conflicts with an existing current subscription" ErrorCategory.Conflict)
  | None => ret tt
  end.

(** The offer of a known subscription, whose grant is not stored with it. *)
Definition existing_offer (x : CommerceSubscription D) : BillingOffer D :=
  {| BillingOffer_ID := CommerceSubscription_OfferID x; BillingOffer_Provider := "";
     BillingOffer_OfferKey := CommerceSubscription_OfferKey x; BillingOffer_PlanID := CommerceSubscription_PlanID x;
     BillingOffer_PlanKey := CommerceSubscription_PlanKey x; BillingOffer_ProductID := ""; BillingOffer_PriceID := "";
     BillingOffer_LookupKey := ""; BillingOffer_Interval := CommerceSubscription_Interval x;
     BillingOffer_IntervalCnt := CommerceSubscription_IntervalCount x; BillingOffer_Grant := None |}.

Definition subscription_status subscription existing : string :=
  let status := BillingSubscription_Status subscription in
  let status := if status =? "" then existingText existing CommerceSubscription_Status else status in
  if status =? "" then "incomplete" else status.

Definition ended_at subscription existing (status : string) : option Time :=
  match firstTime [BillingSubscription_EndedAt subscription; BillingSubscription_CanceledAt subscription] with
  | Some t => Some t
  | None => if oneOf status ["canceled"; "expired"; "incomplete_expired"]
            then existingTime existing CommerceSubscription_EndedAt else None
  end.

Definition grace_ends (pastDueGracePeriod : Z) event existing (status : string) : option Time :=
  if status =? "past_due" then
    match existingTime existing CommerceSubscription_GraceEndsAt with
    | Some ends => Some (ToUTC ends)
    | None => Some (time_Add (ToUTC (BillingEvent_OccurredAt event)) pastDueGracePeriod)
    end
  else None.

Definition cancel_at_period_end subscription existing (action : string) : bool :=
  match existing with
  | Some x =>
      if negb (action =? "cancellation_scheduled") && negb (action =? "cancellation_unscheduled")
         && negb (BillingSubscription_CancelAtPeriodEnd subscription)
      then CommerceSubscription_CancelAtPeriodEnd x
      else BillingSubscription_CancelAtPeriodEnd subscription
  | None => BillingSubscription_CancelAtPeriodEnd subscription
  end.

(** The state that is stored for the subscription of an event. *)
Definition subscription_state (pastDueGracePeriod : Z) event accountID subscription existing (offer : BillingOffer D)
    (action : string) : CommerceSubscription D :=
  let status := subscription_status subscription existing in
  let s := subscription in
  {| CommerceSubscription_ID := ""; CommerceSubscription_CatalogRevisionID := "";
     CommerceSubscription_Provider := BillingEvent_Provider event;
     CommerceSubscription_ProviderSubscriptionID := canonicalProviderSubscriptionID s;
     CommerceSubscription_AccountID := accountID;
     CommerceSubscription_ProviderCustomerID :=
       firstNonEmpty [customerProviderID (BillingEvent_Customer event); BillingSubscription_CustomerID s;
                      existingText existing CommerceSubscription_ProviderCustomerID];
     CommerceSubscription_OfferID := BillingOffer_ID offer; CommerceSubscription_OfferKey := BillingOffer_OfferKey offer;
     CommerceSubscription_PlanID := BillingOffer_PlanID offer; CommerceSubscription_PlanKey := BillingOffer_PlanKey offer;
     CommerceSubscription_Status := status;
     CommerceSubscription_Interval := firstNonEmpty [BillingSubscription_Interval s; BillingOffer_Interval offer];
     CommerceSubscription_IntervalCount := firstPositive [BillingSubscription_IntervalCount s; BillingOffer_IntervalCnt offer];
     CommerceSubscription_CurrentPeriodStart :=
       firstTime [BillingSubscription_PeriodStart s; BillingSubscription_CurrentPeriodStart s;
                  existingTime existing CommerceSubscription_CurrentPeriodStart];
     CommerceSubscription_CurrentPeriodEnd :=
       firstTime [BillingSubscription_PeriodEnd s; BillingSubscription_CurrentPeriodEnd s;
                  existingTime existing CommerceSubscription_CurrentPeriodEnd];
     CommerceSubscription_TrialEnd := firstTime [BillingSubscription_TrialEnd s; existingTime existing CommerceSubscription_TrialEnd];
     CommerceSubscription_CancelAt := firstTime [BillingSubscription_CancelAt s; existingTime existing CommerceSubscription_CancelAt];
     CommerceSubscription_EndedAt := ended_at s existing status;
     CommerceSubscription_CancelAtPeriodEnd := cancel_at_period_end s existing action;
     CommerceSubscription_GraceEndsAt := grace_ends pastDueGracePeriod event existing status;
     CommerceSubscription_GraceExpiredAt := None; CommerceSubscription_ProviderUpdatedAt := BillingEvent_OccurredAt event;
     CommerceSubscription_Metadata :=
       mergedBillingMetadata existing [default ∅ (BillingEvent_Metadata event); BillingSubscription_Metadata s] |}.

(** [state.ID = subscriptionID] *)
Definition with_id (x : CommerceSubscription D) (id : string) : CommerceSubscription D :=
  {| CommerceSubscription_ID := id; CommerceSubscription_CatalogRevisionID := CommerceSubscription_CatalogRevisionID x;
     CommerceSubscription_Provider := CommerceSubscription_Provider x;
     CommerceSubscription_ProviderSubscriptionID := CommerceSubscription_ProviderSubscriptionID x;
     CommerceSubscription_AccountID := CommerceSubscription_AccountID x;
     CommerceSubscription_ProviderCustomerID := CommerceSubscription_ProviderCustomerID x;
     CommerceSubscription_OfferID := CommerceSubscription_OfferID x;
     CommerceSubscription_OfferKey := CommerceSubscription_OfferKey x;
     CommerceSubscription_PlanID := CommerceSubscription_PlanID x;
     CommerceSubscription_PlanKey := CommerceSubscription_PlanKey x;
     CommerceSubscription_Status := CommerceSubscription_Status x;
     CommerceSubscription_Interval := CommerceSubscription_Interval x;
     CommerceSubscription_IntervalCount := CommerceSubscription_IntervalCount x;
     CommerceSubscription_CurrentPeriodStart := CommerceSubscription_CurrentPeriodStart x;
     CommerceSubscription_CurrentPeriodEnd := CommerceSubscription_CurrentPeriodEnd x;
     CommerceSubscription_TrialEnd := CommerceSubscription_TrialEnd x;
     CommerceSubscription_CancelAt := CommerceSubscription_CancelAt x;
     CommerceSubscription_EndedAt := CommerceSubscription_EndedAt x;
     CommerceSubscription_CancelAtPeriodEnd := CommerceSubscription_CancelAtPeriodEnd x;
     CommerceSubscription_GraceEndsAt := CommerceSubscription_GraceEndsAt x;
     CommerceSubscription_GraceExpiredAt := CommerceSubscription_GraceExpiredAt x;
     CommerceSubscription_ProviderUpdatedAt := CommerceSubscription_ProviderUpdatedAt x;
     CommerceSubscription_Metadata := CommerceSubscription_Metadata x |}.

(** ** An event about a subscription *)

(** The start of the allowance of a plan that is changed. *)
Definition preserved_anchor options accountID (action : string) : prog (option Time) :=
  if (action =? "subscription_plan_changed") && Lifecycle_HasProvisioning options then
    currentPlan <~ Do (ProvisionedPlan accountID) Done ;;
    match GetUserPlanResult_PlanAssignedAt currentPlan with
    | Some assigned =>
        Do LifecycleNow (fun now => ret (if After assigned (ToUTC now) then None else firstTime [Some assigned]))
    | None => ret None
    end
  else ret None.

(** [UpsertBillingSubscriptionState], and the second look for a conflict when
    it refuses a new subscription. *)
Definition upsert_subscription event accountID (subscriptionID action : string) (state : CommerceSubscription D) : prog string :=
  Do (UpsertBillingSubscriptionState state) (fun stored =>
    match stored with
    | Ok id => ret id
    | Err err =>
        if action =? "subscription_created" then
          Do (ListBillingSubscriptions accountID) (fun listed =>
            match listed with
            | Ok all => record_conflict event accountID subscriptionID all ;;~ raise err
            | Err _ => raise err
            end)
        else raise err
    end).

(** A grant is created and posted to the ledger under its key. *)
Definition post_grant (grant : BillingCreditGrantCreate D) (idempotencyKey operation : string) : prog unit :=
  grantID <~ Do (CreateBillingCreditGrant grant) Done ;;
  posting <~ Do (GrantBillingCredit grantID idempotencyKey) Done ;;
  lift (billingLifecyclePostingError operation posting).

(** The credits of a cycle, when the offer grants them on renewal. *)
Definition grant_cycle event (subscriptionID action : string) (offer : BillingOffer D) : prog unit :=
  match BillingOffer_Grant offer with
  | Some grant =>
      if (action =? "subscription_renewed") && (BillingGrantResult_Mode grant =? "cycle_grant")
         && negb (BillingEvent_BillingEventID event =? "") then
        post_grant {| GrantCreate_PaymentID := ""; GrantCreate_SubscriptionID := subscriptionID; GrantCreate_TopupID := "";
                      GrantCreate_Credits := BillingGrantResult_Credits grant; GrantCreate_Quantity := 1;
                      GrantCreate_BillingEventID := BillingEvent_BillingEventID event |}
          ("billing:" +:+ canonicalEventID event +:+ ":subscription-cycle") "billing subscription grant"
      else ret tt
  | None => ret tt
  end.

(** [automaticEntitlement] *)
Definition automatic options : bool :=
  Lifecycle_HasProvisioning options && Lifecycle_autoSelectEntitlementSource options.

(** [graceExpired] *)
Definition grace_expired existing (state : CommerceSubscription D) (processedAt : Time) : bool :=
  (CommerceSubscription_Status state =? "past_due")
  && (is_some (existingTime existing CommerceSubscription_GraceExpiredAt)
      || match CommerceSubscription_GraceEndsAt state with Some ends => negb (After ends processedAt) | None => false end).

(** [assignedAt] *)
Definition assigned_at event (state : CommerceSubscription D) (anchor : option Time) (action : string) : option Time :=
  if action =? "subscription_plan_changed" then or_else anchor (firstTime [Some (BillingEvent_OccurredAt event)])
  else CommerceSubscription_CurrentPeriodStart state.

(** From the stored subscription on. *)
Definition reconcile_subscription options event accountID existing (offer : BillingOffer D) (state : CommerceSubscription D)
    (anchor : option Time) (subscriptionID action : string) : prog BillingEventResult :=
  let status := CommerceSubscription_Status state in
  let providerSubscriptionID := CommerceSubscription_ProviderSubscriptionID state in
  Do LifecycleNow (fun now =>
    let processedAt := ToUTC now in
    outcome <~ Do (reconcileSubscriptionEntitlement accountID subscriptionID (BillingEvent_BillingEventID event) status
                     (CommerceSubscription_ProviderUpdatedAt state) (assigned_at event state anchor action)
                     (automatic options) (Lifecycle_terminalPlanKey options) action) Done ;;
    if outcome =? subscriptionEntitlementStale
    then ret (ignoredSubscriptionBilling (BillingEvent_Type event) accountID providerSubscriptionID action)
    else
      lift (validateSubscriptionEntitlementOutcome status outcome (automatic options)) ;;~
      (if action =? "subscription_plan_changed"
       then Do (applyOpenBillingSubscriptionChange (CommerceSubscription_Provider state) providerSubscriptionID
                  (CommerceSubscription_OfferID state)) Done
       else ret tt) ;;~
      (if automatic options && grace_expired existing state processedAt && is_some (CommerceSubscription_GraceEndsAt state)
       then Do (expirePastDueGracePeriod (with_id state subscriptionID) processedAt (Lifecycle_terminalPlanKey options)) Done ;;~
            ret tt
       else ret tt) ;;~
      (if oneOf status ["active"; "trialing"] then updateCheckoutFromEvent event "completed" else ret tt) ;;~
      grant_cycle event subscriptionID action offer ;;~
      ret (with_action (handledBilling (BillingEvent_Type event) accountID providerSubscriptionID) action false)).

(** The known subscription and the offer of an event. *)
Definition subscription_context event (subscriptionID : string)
    : prog (option (CommerceSubscription D) * BillingOffer D) :=
  existing <~ Do (GetBillingSubscriptionByProvider (BillingEvent_Provider event) subscriptionID) Done ;;
  offer <~ offerForEvent event ;;
  match offer, existing with
  | Some offer, _ => ret (existing, offer)
  | None, Some x => ret (existing, existing_offer x)
  | None, None =>
      raise (retryable_store_error "billing subscription offer could not be resolved"
               {[ "provider" := BillingEvent_Provider event; "provider_subscription_id" := subscriptionID ]})
  end.

Definition applySubscription options event accountID (action : string) : prog BillingEventResult :=
  if accountID =? "" then raise (retryable_store_error "billing subscription account could not be resolved" ∅)
  else
    match BillingEvent_Subscription event with
    | None => raise nil_dereference
    | Some subscription =>
        let subscriptionID := canonicalProviderSubscriptionID subscription in
        upsert_customer event accountID ;;~
        known <~ subscription_context event subscriptionID ;;
        (if action =? "subscription_created"
         then all <~ Do (ListBillingSubscriptions accountID) Done ;; record_conflict event accountID subscriptionID all
         else ret tt) ;;~
        let state := subscription_state (Lifecycle_pastDueGracePeriod options) event accountID subscription known.1 known.2 action in
        anchor <~ preserved_anchor options accountID action ;;
        id <~ upsert_subscription event accountID subscriptionID action state ;;
        reconcile_subscription options event accountID known.1 known.2 state anchor id action
    end.

(** ** Payments and refunds *)

(** [event.Subscription.Status = status] and [.CancelAtPeriodEnd = cancel]. *)
Definition set_subscription (status : option string) (cancel : option bool) subscription : BillingSubscription D :=
  {| BillingSubscription_ProviderSubscriptionID := BillingSubscription_ProviderSubscriptionID subscription;
     BillingSubscription_ID := BillingSubscription_ID subscription;
     BillingSubscription_Provider := BillingSubscription_Provider subscription;
     BillingSubscription_AccountID := BillingSubscription_AccountID subscription;
     BillingSubscription_CustomerID := BillingSubscription_CustomerID subscription;
     BillingSubscription_Plan := BillingSubscription_Plan subscription;
     BillingSubscription_Status := default (BillingSubscription_Status subscription) status;
     BillingSubscription_Interval := BillingSubscription_Interval subscription;
     BillingSubscription_IntervalCount := BillingSubscription_IntervalCount subscription;
     BillingSubscription_CurrentPeriodStart := BillingSubscription_CurrentPeriodStart subscription;
     BillingSubscription_CurrentPeriodEnd := BillingSubscription_CurrentPeriodEnd subscription;
     BillingSubscription_PeriodStart := BillingSubscription_PeriodStart subscription;
     BillingSubscription_PeriodEnd := BillingSubscription_PeriodEnd subscription;
     BillingSubscription_TrialEnd := BillingSubscription_TrialEnd subscription;
     BillingSubscription_CancelAt := BillingSubscription_CancelAt subscription;
     BillingSubscription_EndedAt := BillingSubscription_EndedAt subscription;
     BillingSubscription_CancelAtPeriodEnd := default (BillingSubscription_CancelAtPeriodEnd subscription) cancel;
     BillingSubscription_CanceledAt := BillingSubscription_CanceledAt subscription;
     BillingSubscription_Refs := BillingSubscription_Refs subscription;
     BillingSubscription_Metadata := BillingSubscription_Metadata subscription |}.

(** What a branch answers: its result and the subscription as it leaves it. *)
Notation processed := (BillingEventResult * option (BillingSubscription D))%type.

Definition leaves event (r : BillingEventResult) : processed := (r, BillingEvent_Subscription event).

(** The subscription of the event gets a status before it is applied; the rest
    runs unless the subscription turns out to be stale. *)
Definition apply_first options event accountID (applies : bool) (status action : string)
    (rest : BillingEvent D -> prog processed) : prog processed :=
  match BillingEvent_Subscription event with
  | Some subscription =>
      if negb applies then rest event
      else
        let event := with_subscription event (Some (set_subscription (Some status) None subscription)) in
        r <~ applySubscription options event accountID action ;;
        if BillingEventResult_Ignored r then ret (leaves event r) else rest event
  | None => rest event
  end.

Definition payment_upsert event accountID (payment : BillingPayment D) (metadata : CreditMetadata D) : BillingPaymentUpsert D :=
  {| PaymentUpsert_Provider := BillingEvent_Provider event;
     PaymentUpsert_ProviderPaymentID := canonicalProviderPaymentID payment;
     PaymentUpsert_ProviderInvoiceID := BillingPayment_InvoiceID payment; PaymentUpsert_AccountID := accountID;
     PaymentUpsert_AmountMinor := BillingPayment_AmountMinor payment; PaymentUpsert_TaxMinor := BillingPayment_TaxMinor payment;
     PaymentUpsert_Currency := BillingPayment_Currency payment; PaymentUpsert_Purpose := BillingPayment_Purpose payment;
     PaymentUpsert_Status := BillingPayment_Status payment; PaymentUpsert_ProviderUpdatedAt := BillingEvent_OccurredAt event;
     PaymentUpsert_Metadata := metadata |}.

Definition payment_update event (payment : BillingPayment D) (state failureCode : string) : AutoRechargeProviderPaymentUpdate :=
  {| ProviderPaymentUpdate_Provider := BillingEvent_Provider event;
     ProviderPaymentUpdate_ProviderPaymentID := canonicalProviderPaymentID payment; ProviderPaymentUpdate_State := state;
     ProviderPaymentUpdate_FailureCode := failureCode; ProviderPaymentUpdate_FailureMessage := "" |}.

(** The amount is not one of whole units of the top-up within its bounds. *)
Definition out_of_bounds (topup : BillingTopupResult D) (amountMinor : Z) : bool :=
  (amountMinor <? BillingTopupResult_MinAmountMinor topup) || (BillingTopupResult_MaxAmountMinor topup <? amountMinor)
  || (BillingTopupResult_AmountMinor topup <=? 0)
  || negb (Z.rem amountMinor (BillingTopupResult_AmountMinor topup) =? 0)%Z.

(** The credits a top-up payment buys; [false] when its amount buys none. *)
Definition grant_topup event (payment : BillingPayment D) (paymentID : string) (topup : BillingTopupResult D) : prog bool :=
  if out_of_bounds topup (BillingPayment_AmountMinor payment) then ret false
  else
    let quantity := BillingPayment_AmountMinor payment ÷ BillingTopupResult_AmountMinor topup in
    if 2 ^ 63 - 1 <? quantity
    then raise (NewStoreError "billing top-up quantity overflows this platform" (error_options "" "" None))
    else
      post_grant {| GrantCreate_PaymentID := paymentID; GrantCreate_SubscriptionID := "";
                    GrantCreate_TopupID := BillingTopupResult_TopupID topup;
                    GrantCreate_Credits := BillingTopupResult_CreditsPerUnit topup; GrantCreate_Quantity := quantity;
                    GrantCreate_BillingEventID := BillingEvent_BillingEventID event |}
        ("billing:" +:+ canonicalEventID event +:+ ":topup") "billing top-up grant" ;;~
      Do (UpdateAttemptByProviderPayment (payment_update event payment AttemptState.Succeeded "")) Done ;;~
      ret true.

(** The top-up the payment refers to. *)
Definition topup_for event (payment : BillingPayment D) : prog (option (BillingTopupResult D)) :=
  match BillingPayment_Refs payment with
  | Some refs =>
      if BillingPayment_Purpose payment =? "credit_topup"
      then Do (ResolveBillingTopup (BillingEvent_Provider event) (ProviderRef_ProductID refs) (ProviderRef_PriceID refs)
                 (ProviderRef_LookupKey refs)) Done
      else ret None
  | None => ret None
  end.

(** The invoice of a subscription payment. *)
Definition payment_invoice event (payment : BillingPayment D) subscription : BillingInvoice D :=
  {| BillingInvoice_ProviderInvoiceID := firstNonEmpty [BillingPayment_InvoiceID payment; canonicalProviderPaymentID payment];
     BillingInvoice_ID := ""; BillingInvoice_Provider := BillingEvent_Provider event; BillingInvoice_AccountID := "";
     BillingInvoice_SubscriptionID := ""; BillingInvoice_CustomerID := ""; BillingInvoice_Status := "paid";
     BillingInvoice_Currency := BillingPayment_Currency payment;
     BillingInvoice_AmountPaidMinor := BillingPayment_AmountMinor payment;
     BillingInvoice_AmountDueMinor := BillingPayment_AmountMinor payment;
     BillingInvoice_PeriodStart := BillingSubscription_PeriodStart subscription;
     BillingInvoice_PeriodEnd := BillingSubscription_PeriodEnd subscription; BillingInvoice_HostedInvoiceURL := "";
     BillingInvoice_Metadata := ∅ |}.

Definition with_invoice event (invoice : BillingInvoice D) : BillingEvent D :=
  {| BillingEvent_EventID := BillingEvent_EventID event; BillingEvent_ID := BillingEvent_ID event;
     BillingEvent_Provider := BillingEvent_Provider event; BillingEvent_Type := BillingEvent_Type event;
     BillingEvent_OccurredAt := BillingEvent_OccurredAt event; BillingEvent_AccountID := BillingEvent_AccountID event;
     BillingEvent_BillingEventID := BillingEvent_BillingEventID event; BillingEvent_Customer := BillingEvent_Customer event;
     BillingEvent_Subscription := BillingEvent_Subscription event; BillingEvent_Invoice := Some invoice;
     BillingEvent_Payment := BillingEvent_Payment event; BillingEvent_Refund := BillingEvent_Refund event;
     BillingEvent_Dispute := BillingEvent_Dispute event; BillingEvent_Metadata := BillingEvent_Metadata event |}.

(** From the payment's record on. *)
Definition settle_payment event accountID (payment : BillingPayment D) (topup : option (BillingTopupResult D))
    (paymentID : string) : prog processed :=
  let finish action subscriptionID :=
    ret (leaves event (with_action (handledBilling (BillingEvent_Type event) accountID subscriptionID) action false)) in
  let finish_paid :=
    updateCheckoutFromEvent event "completed" ;;~ finish "payment_succeeded" (subscriptionEventID event) in
  if BillingPayment_Purpose payment =? "credit_topup" then
    match topup with
    | None => raise (retryable_store_error "billing top-up reference could not be resolved" ∅)
    | Some topup =>
        granted <~ grant_topup event payment paymentID topup ;;
        if (granted : bool) then finish_paid else finish "payment_succeeded_out_of_bounds" ""
    end
  else
    match BillingEvent_Subscription event with
    | Some subscription =>
        if BillingPayment_Purpose payment =? "subscription"
        then persistInvoice (with_invoice event (payment_invoice event payment subscription)) accountID ;;~ finish_paid
        else finish_paid
    | None => finish_paid
    end.

Definition paymentSucceeded options event accountID : prog processed :=
  if accountID =? "" then raise (retryable_store_error "billing payment account could not be resolved" ∅)
  else
    match BillingEvent_Payment event with
    | None => raise nil_dereference
    | Some payment =>
        apply_first options event accountID (BillingPayment_Purpose payment =? "subscription") "active" "subscription_renewed"
          (fun event =>
             topup <~ topup_for event payment ;;
             let metadata :=
               match topup with
               | Some topup => Some (<["credits_per_unit" := AString (dec_string (BillingTopupResult_CreditsPerUnit topup))]>
                                       (default ∅ (BillingEvent_Metadata event)))
               | None => BillingEvent_Metadata event
               end in
             paymentID <~ Do (UpsertBillingPaymentState (payment_upsert event accountID payment metadata)) Done ;;
             settle_payment event accountID payment topup paymentID)
    end.

Definition paymentFailed options event accountID : prog processed :=
  apply_first options event accountID (negb (accountID =? "")) "past_due" "payment_failed_recorded" (fun event =>
    match BillingEvent_Payment event with
    | None => raise nil_dereference
    | Some payment =>
        (if accountID =? "" then ret tt
         else Do (UpsertBillingPaymentState (payment_upsert event accountID payment (BillingEvent_Metadata event))) Done ;;~
              ret tt) ;;~
        Do (UpdateAttemptByProviderPayment
              (payment_update event payment AttemptState.Failed "provider_payment_failed")) Done ;;~
        updateCheckoutFromEvent event "failed" ;;~
        ret (leaves event (with_action (handledBilling (BillingEvent_Type event) accountID (subscriptionEventID event))
                             "payment_failed_recorded" false))
    end).

(** A succeeded refund of a top-up takes the credits back. *)
Definition claw_back event (refund : BillingRefund D) (refundID : string) (recorded : BillingEventResult)
    : prog BillingEventResult :=
  payment <~ Do (GetBillingPaymentByProvider (BillingEvent_Provider event) (Refund_canonicalProviderPaymentID refund)) Done ;;
  match payment with
  | Some payment =>
      if negb (BillingPaymentRecord_Purpose payment =? "credit_topup") then ret recorded
      else
        grantID <~ Do (GetBillingCreditGrantByPayment (BillingPaymentRecord_ID payment)) Done ;;
        if grantID =? "" then ret recorded
        else
          posting <~ Do (PostBillingRefund refundID grantID (BillingRefund_AmountMinor refund)
                           ("billing:" +:+ canonicalEventID event +:+ ":refund")) Done ;;
          lift (billingLifecyclePostingError "billing refund" posting) ;;~
          ret (with_action recorded "refund_clawback" false)
  | None => ret recorded
  end.

Definition refund_event event accountID : prog BillingEventResult :=
  if accountID =? "" then raise (retryable_store_error "billing refund account could not be resolved" ∅)
  else
    match BillingEvent_Refund event with
    | None => raise nil_dereference
    | Some refund =>
        refundID <~ Do (UpsertBillingRefundState
          {| RefundUpsert_Provider := BillingEvent_Provider event;
             RefundUpsert_ProviderRefundID := canonicalProviderRefundID refund;
             RefundUpsert_ProviderPaymentID := Refund_canonicalProviderPaymentID refund; RefundUpsert_AccountID := accountID;
             RefundUpsert_AmountMinor := BillingRefund_AmountMinor refund; RefundUpsert_Currency := BillingRefund_Currency refund;
             RefundUpsert_Reason := BillingRefund_Reason refund; RefundUpsert_Status := BillingRefund_Status refund;
             RefundUpsert_ProviderUpdatedAt := BillingEvent_OccurredAt event;
             RefundUpsert_Metadata := BillingEvent_Metadata event |}) Done ;;
        let recorded := with_action (handledBilling (BillingEvent_Type event) accountID "") "refund_recorded" false in
        if negb (BillingRefund_Status refund =? "succeeded") then ret recorded
        else claw_back event refund refundID recorded
    end.

(** ** The dispatch *)

(** What an event about a subscription changes in it, and the name of the
    action. *)
Definition subscription_actions : list (string * (option string * option bool * string)) :=
  [("subscription.created", (None, None, "subscription_created"));
   ("subscription.updated", (None, None, "subscription_updated"));
   ("subscription.activated", (Some "active", None, "subscription_activated"));
   ("subscription.renewed", (Some "active", None, "subscription_renewed"));
   ("subscription.plan_changed", (None, None, "subscription_plan_changed"));
   ("subscription.cancellation_scheduled", (None, Some true, "cancellation_scheduled"));
   ("subscription.cancellation_unscheduled", (None, Some false, "cancellation_unscheduled"));
   ("subscription.canceled", (Some "canceled", Some true, "subscription_canceled"));
   ("subscription.expired", (Some "expired", None, "subscription_expired"));
   ("subscription.paused", (Some "paused", None, "subscription_paused"));
   ("subscription.resumed", (Some "active", Some false, "subscription_resumed"))].

Definition action_of (eventType : string) : option (option string * option bool * string) :=
  snd <$> List.find (fun entry => fst entry =? eventType) subscription_actions.

(** A change of a subscription that is nil panics; without one, the account is
    looked at first. *)
Definition subscription_event options event accountID (status : option string) (cancel : option bool) (action : string)
    : prog processed :=
  match BillingEvent_Subscription event with
  | None =>
      if is_some status || is_some cancel then raise nil_dereference
      else r <~ applySubscription options event accountID action ;; ret (leaves event r)
  | Some subscription =>
      let event := with_subscription event (Some (set_subscription status cancel subscription)) in
      r <~ applySubscription options event accountID action ;; ret (leaves event r)
  end.

Definition invoice_recorded : list string :=
  ["invoice.created"; "invoice.updated"; "invoice.finalized"; "invoice.finalization_failed"; "invoice.payment_failed";
   "invoice.payment_action_required"; "invoice.voided"].

Definition checkout_completed event options accountID : prog processed :=
  upsert_customer event accountID ;;~
  match BillingEvent_Subscription event with
  | Some _ => r <~ applySubscription options event accountID "subscription_created" ;; ret (leaves event r)
  | None =>
      updateCheckoutFromEvent event "completed" ;;~
      ret (leaves event (handledBilling (BillingEvent_Type event) accountID ""))
  end.

Definition invoice_paid options event accountID : prog processed :=
  apply_first options event accountID true "active" "subscription_renewed" (fun event =>
    persistInvoice event accountID ;;~
    ret (leaves event (handledBilling (BillingEvent_Type event) accountID (subscriptionEventID event)))).

Definition dispute_event event accountID : prog BillingEventResult :=
  match BillingEvent_Dispute event with
  | None => raise nil_dereference
  | Some dispute =>
      Do (UpsertBillingDisputeState
            {| DisputeUpsert_Provider := BillingEvent_Provider event;
               DisputeUpsert_ProviderDisputeID := canonicalProviderDisputeID dispute;
               DisputeUpsert_ProviderPaymentID := Dispute_canonicalProviderPaymentID dispute;
               DisputeUpsert_Status := BillingDispute_Status dispute; DisputeUpsert_Reason := BillingDispute_Reason dispute;
               DisputeUpsert_ProviderUpdatedAt := BillingEvent_OccurredAt event;
               DisputeUpsert_Metadata := BillingEvent_Metadata event |}) Done ;;~
      ret (handledBilling (BillingEvent_Type event) accountID "")
  end.

(** The switch on the event's type, those about a subscription first. *)
Definition process_resolved options event accountID : prog processed :=
  let eventType := BillingEvent_Type event in
  let handled := handledBilling eventType accountID in
  let left (p : prog BillingEventResult) : prog processed := r <~ p ;; ret (leaves event r) in
  match action_of eventType with
  | Some (status, cancel, action) => subscription_event options event accountID status cancel action
  | None =>
      if oneOf eventType ["customer.created"; "customer.updated"]
      then left (upsert_customer event accountID ;;~ ret (handled ""))
      else if eventType =? "customer.deleted" then left (ret (handled ""))
      else if eventType =? "checkout.completed" then checkout_completed event options accountID
      else if eventType =? "checkout.expired"
      then left (updateCheckoutFromEvent event "expired" ;;~
                 ret (with_action (handled "") (BillingEventResult_Action (handled "")) true))
      else if eventType =? "subscription.trial_will_end" then
        match BillingEvent_Subscription event with
        | Some s => left (ret (with_action (handled (canonicalProviderSubscriptionID s)) "trial_will_end_notified" false))
        | None => raise nil_dereference
        end
      else if eventType =? "invoice.paid" then invoice_paid options event accountID
      else if oneOf eventType invoice_recorded
      then left ((if accountID =? "" then ret tt else persistInvoice event accountID) ;;~
                 ret (handled (subscriptionEventID event)))
      else if eventType =? "invoice.upcoming"
      then left (let r := handled (subscriptionEventID event) in ret (with_action r (BillingEventResult_Action r) true))
      else if eventType =? "payment.succeeded" then paymentSucceeded options event accountID
      else if eventType =? "payment.failed" then paymentFailed options event accountID
      else if oneOf eventType ["refund.created"; "refund.updated"; "refund.failed"] then left (refund_event event accountID)
      else if oneOf eventType ["dispute.created"; "dispute.updated"; "dispute.closed"] then left (dispute_event event accountID)
      else if oneOf eventType ["payment_method.attached"; "payment_method.updated"; "payment_method.detached"]
      then left (ret (handled ""))
      else raise (NewError "unsupported billing lifecycle event"
                    (error_details ErrorCode.Billing ErrorCategory.InvalidRequest {[ "event_type" := eventType ]}))
  end.

Definition process options event accountID : prog processed :=
  lift (validateBillingLifecycleMetadata (BillingEvent_Metadata event)) ;;~
  resolved <~ resolveAccount event accountID ;;
  process_resolved options event resolved.

(** [ResolveBillingEventAccount], of postgres_billing.go: the account the event
    or its metadata names, and else the one its customer, subscription or
    payment is known under. *)
Definition metadata_account (metadata : gmap string (any D)) : option string :=
  let text key := billingMetadataString (Some metadata) key in
  if negb (text "bursar_account_id" =? "") then Some (text "bursar_account_id")
  else if negb (text "account_id" =? "") then Some (text "account_id")
  else None.

Definition named_account event : option string :=
  let some_text text := if TrimSpace text =? "" then None else Some (TrimSpace text) in
  foldr or_else None
    [some_text (BillingEvent_AccountID event);
     BillingEvent_Metadata event ≫= metadata_account;
     BillingEvent_Customer event ≫= (fun c => metadata_account (BillingCustomer_Metadata c));
     BillingEvent_Subscription event ≫= (fun s => metadata_account (BillingSubscription_Metadata s));
     BillingEvent_Invoice event ≫= (fun i => metadata_account (BillingInvoice_Metadata i));
     BillingEvent_Payment event ≫= (fun p => metadata_account (BillingPayment_Metadata p));
     BillingEvent_Customer event ≫= (fun c => some_text (BillingCustomer_AccountID c));
     BillingEvent_Subscription event ≫= (fun s => some_text (BillingSubscription_AccountID s))].

Definition resolveBillingEventAccount event : prog string :=
  match named_account event with
  | Some account => ret account
  | None => known_account event
  end.

(** The store's direct entry, which ingests the event itself with the store as
    its provisioning port. *)
Definition direct_options : BillingServiceOptions :=
  {| BillingServiceOptions_Handlers := ∅; BillingServiceOptions_DefaultHandler := None;
     BillingServiceOptions_EventHandlers := ∅; BillingServiceOptions_HasProvisioning := true;
     BillingServiceOptions_AutoSelectEntitlementSource := None; BillingServiceOptions_PastDueGracePeriod := None;
     BillingServiceOptions_TerminalPlanKey := "" |}.

Definition with_event_account event accountID : BillingEvent D :=
  {| BillingEvent_EventID := BillingEvent_EventID event; BillingEvent_ID := BillingEvent_ID event;
     BillingEvent_Provider := BillingEvent_Provider event; BillingEvent_Type := BillingEvent_Type event;
     BillingEvent_OccurredAt := BillingEvent_OccurredAt event; BillingEvent_AccountID := accountID;
     BillingEvent_BillingEventID := BillingEvent_BillingEventID event; BillingEvent_Customer := BillingEvent_Customer event;
     BillingEvent_Subscription := BillingEvent_Subscription event; BillingEvent_Invoice := BillingEvent_Invoice event;
     BillingEvent_Payment := BillingEvent_Payment event; BillingEvent_Refund := BillingEvent_Refund event;
     BillingEvent_Dispute := BillingEvent_Dispute event; BillingEvent_Metadata := BillingEvent_Metadata event |}.

Definition process_directly (store : BillingStore) event accountID : Effects.prog (@billing_answer D) BillingEventResult :=
  if negb (TrimSpace (BillingEvent_BillingEventID event) =? "")
  then raise (billing_error "billing event claim identifiers are internal" ErrorCategory.InvalidRequest)
  else
    let event := if TrimSpace (BillingEvent_AccountID event) =? ""
                 then with_event_account event (TrimSpace accountID) else event in
    service <~ lift (NewBillingService (Some store) [direct_options]) ;;
    Ingest (Some service) event.
End lifecycle.
