(* ===== verification/BillingFacts.v ===== *)
(** * What billing does with an event

    [ingestion]: the calls of [Ingest] and what it returns.  Then the end of
    grace periods. *)

From S2P Require Export Billing.
Local Open Scope Z_scope.
Local Open Scope go_scope.

(** ** An event is claimed before it is handled, and settled once *)

Section ingestion.
Context {D : Type}.
Notation prog := (prog (@billing_answer D)).
Notation event := (event (@billing_answer D)).
Notation obeys := (obeys (fun _ => True) (fun _ _ => True)).
Notation "c ↦ x" := (existT c x : event) (at level 60).
Implicit Types (s : BillingService) (e : BillingEvent D) (w : list event) (token : string).

(** What is done for a claimed event: its account is looked up, and one
    handler, processor or checkout is asked. *)
Inductive step_for s (store : BillingStore) e : event -> Prop :=
  | step_handler handler accountID x :
      or_else (Billing_handlers s !! BillingEvent_Type e) (Billing_defaultHandler s) = Some handler ->
      step_for s store e (RunHandler handler e accountID ↦ x)
  | step_processor configured accountID x :
      or_else (Billing_handlers s !! BillingEvent_Type e) (Billing_defaultHandler s) = None ->
      processor_for s store (BillingEvent_Type e) = Some configured ->
      step_for s store e (ProcessBillingEvent configured e accountID ↦ x)
  | step_checkout accountID update x :
      BillingEvent_Type e = "checkout.expired" -> CheckoutIntentUpdate_Status update = "expired" ->
      step_for s store e
        (UpdateIntent (billingMetadataString (BillingEvent_Metadata e) "checkout_intent_id") accountID update ↦ x).

Inductive work_for s store e : list event -> Prop :=
  | work_none : work_for s store e []
  | work_account x : work_for s store e [ResolveBillingEventAccount e ↦ x]
  | work_step step : step_for s store e step -> work_for s store e [step]
  | work_account_step accountID step :
      step_for s store e step -> work_for s store e [ResolveBillingEventAccount e ↦ Ok accountID; step].

(** How a call of the work failed. *)
Definition failure_of (ev : event) : option error :=
  match ev with
  | existT (ResolveBillingEventAccount _) (Err err) => Some err
  | existT (RunHandler _ _ _) (Err err) => Some err
  | existT (UpdateIntent _ _ _) (Err err) => Some err
  | existT (ProcessBillingEvent _ e _) (Err err, _) => Some err
  | existT (ProcessBillingEvent _ e _) (Ok r, _) =>
      if BillingEventResult_Handled r then None
      else Some (ExternalError ("billing lifecycle processor did not handle event " +:+ Quote (BillingEvent_Type e)))
  | _ => None
  end.

Definition handles (ev : event) : bool :=
  match projT1 ev with RunHandler _ _ _ | ProcessBillingEvent _ _ _ => true | _ => false end.

(** The work is done, without a failure; or it failed last, or nothing could
    handle the event. *)
Definition succeeded w : Prop := Forall (fun ev => failure_of ev = None) w.
Definition failed_with e w (cause : error) : Prop :=
  (exists w' ev, w = w' ++ [ev] /\ succeeded w' /\ failure_of ev = Some cause) \/
  (succeeded w /\ Forall (fun ev => handles ev = false) w /\
   cause = ExternalError ("no handler for billing event " +:+ Quote (BillingEvent_Type e))).

(** Provider events whose state has no effect yet. *)
Definition acknowledged_type (eventType : string) : Prop := eventType = "checkout.expired" \/ eventType = "invoice.upcoming".

(** From the work to the end of the claim: one completion, one failure, or
    none when something panicked. *)
Inductive settled e token w : list event -> result BillingEventResult -> Prop :=
  | settled_completed r notified :
      succeeded w -> Exists (fun ev => handles ev = true) w -> BillingEventResult_Handled r = true ->
      (notified = [] \/ exists callback e' accountID, notified = [RunCallback callback e' accountID ↦ tt]) ->
      settled e token w
        ((CompleteBillingEvent (BillingEvent_Provider e) (BillingEvent_EventID e) token ↦ Ok true) :: notified) (Ok r)
  | settled_acknowledged accountID completed :
      succeeded w -> Forall (fun ev => handles ev = false) w -> acknowledged_type (BillingEvent_Type e) ->
      settled e token w [CompleteBillingEvent (BillingEvent_Provider e) (BillingEvent_EventID e) token ↦ Ok completed]
        (Ok (event_result true false true false accountID))
  | settled_lost x err :
      succeeded w -> x <> Ok true ->
      settled e token w [CompleteBillingEvent (BillingEvent_Provider e) (BillingEvent_EventID e) token ↦ x] (Err err)
  | settled_failed cause x err :
      failed_with e w cause -> (x = Ok true -> err = cause) ->
      settled e token w
        [FailBillingEvent (BillingEvent_Provider e) (BillingEvent_EventID e) token
           (persistedDiagnosticSummary (Some cause) "billing_event_failed") ↦ x] (Err err)
  | settled_panicked text : failed_with e w (GoPanic text) -> settled e token w [] (Err (GoPanic text)).

(** The calls of an ingestion, in order, and what it returns. *)
Inductive ingestion s (store : BillingStore) e : list event -> result BillingEventResult -> Prop :=
  | ingestion_invalid err : Validate e = Err err -> ingestion s store e [] (Err err)
  | ingestion_unclaimed x r :
      Validate e = Ok tt ->
      match x with
      | Ok claim =>
          if BillingEventClaim_State claim =? BillingEventDuplicate then r = Ok (event_result true true false false "")
          else if BillingEventClaim_State claim =? BillingEventBusy then r = Ok (event_result false false false true "")
          else is_Ok r = false /\ (BillingEventClaim_State claim <> BillingEventClaimed \/
                                   TrimSpace (BillingEventClaim_ClaimToken claim) = "")
      | Err _ => is_Ok r = false
      end ->
      ingestion s store e [ClaimBillingEvent e (billingEventClaimEnvelope e) ↦ x] r
  | ingestion_claimed claim w t r :
      Validate e = Ok tt -> BillingEventClaim_State claim = BillingEventClaimed ->
      TrimSpace (BillingEventClaim_ClaimToken claim) <> "" ->
      work_for s store (claimed_event e claim) w ->
      settled (claimed_event e claim) (BillingEventClaim_ClaimToken claim) w t r ->
      ingestion s store e ((ClaimBillingEvent e (billingEventClaimEnvelope e) ↦ Ok claim) :: w ++ t) r.

Lemma wrapped_Ok {A} message (r : result A) a : wrapped message r = Ok a <-> r = Ok a.
Proof. destruct r as [|[]]; cbn; naive_solver. Qed.

Lemma wrapped_Err {A} message (r : result A) err : wrapped message r = Err err -> forall a, r <> Ok a.
Proof. by destruct r. Qed.

Lemma runs_wrapped {A} message (r : result A) t r' : runs (do_wrapped (D:=D) message r) t r' <-> t = [] /\ r' = wrapped message r.
Proof. done. Qed.

Section settling.
Context (s : BillingService) (store : BillingStore) (e : BillingEvent D) (token : string).
Hypothesis canonical : canonicalEventID e = BillingEvent_EventID e.

Lemma fail_runs w cause t r :
  failed_with e w cause -> runs (fail_event e token cause) t r -> settled e token w t r.
Proof.
  intros Hw Hr. unfold fail_event in Hr. rewrite canonical in Hr.
  assert ((exists text, cause = GoPanic text /\ t = [] /\ r = Err cause) \/
          exists x, t = [FailBillingEvent (BillingEvent_Provider e) (BillingEvent_EventID e) token
                           (persistedDiagnosticSummary (Some cause) "billing_event_failed") ↦ x] /\
                    exists err, r = Err err /\ (x = Ok true -> err = cause)) as [(text & -> & -> & ->)|(x & -> & err & -> & Hx)].
  { destruct cause; first [right; destruct Hr as (x & t' & -> & Hr)|left; destruct Hr as [-> ->]; by eexists].
    all: exists x; destruct x as [[]|[]]; cbn in Hr; destruct Hr as [-> ->]; (split; [done|]); eexists; by split. }
  - by apply settled_panicked.
  - by apply settled_failed.
Qed.

Lemma complete_runs w notified notify res t r :
  succeeded w -> Exists (fun ev => handles ev = true) w -> BillingEventResult_Handled res = true ->
  runs (complete_event s e token notified notify res) t r -> settled e token w t r.
Proof.
  intros Hw Hhandled Hres (x & t' & -> & Hr). rewrite canonical.
  destruct x as [[]|err].
  - cbn in Hr. assert (r = Ok res /\ (t' = [] \/ exists callback e' accountID, t' = [RunCallback callback e' accountID ↦ tt]))
      as [-> Hnotified]; [|by apply settled_completed].
    destruct notify; [|destruct Hr as [-> ->]; auto]. unfold fireEventHandler in Hr.
    destruct (TrimSpace _ =? ""); [destruct Hr as [-> ->]; auto|].
    destruct (Billing_eventHandlers s !! _) as [callback|]; [|destruct Hr as [-> ->]; auto].
    destruct Hr as ([] & t'' & -> & [-> ->]). split; [done|]. right. by eexists _, _, _.
  - cbn in Hr. destruct Hr as [-> ->]. by apply settled_lost.
  - destruct err; cbn in Hr; destruct Hr as [-> ->]; by apply settled_lost.
Qed.

(** A work whose last event failed. *)
Lemma failed_last w ev cause : succeeded w -> failure_of ev = Some cause -> failed_with e (w ++ [ev]) cause.
Proof. intros Hw Hev. left. by exists w, ev. Qed.

(** The work after the account is known: [w] is the lookup, if any. *)
Definition worked w t r : Prop :=
  exists w2 t', t = w2 ++ t' /\ (w2 = [] \/ exists ev, w2 = [ev] /\ step_for s store e ev) /\ settled e token (w ++ w2) t' r.

Lemma worked_nothing w t r : settled e token w t r -> worked w t r.
Proof. intros Ht. exists [], t. rewrite app_nil_r. auto. Qed.

Lemma worked_step w ev t r : step_for s store e ev -> settled e token (w ++ [ev]) t r -> worked w (ev :: t) r.
Proof. intros Hev Ht. exists [ev], t. split_and!; [done|right; by exists ev|done]. Qed.

Lemma worked_failed w ev cause t r :
  succeeded w -> step_for s store e ev -> failure_of ev = Some cause ->
  runs (fail_event e token cause) t r -> worked w (ev :: t) r.
Proof. intros Hw Hev Hcause Hr. apply worked_step; [done|]. eapply fail_runs; [|exact Hr]. by apply failed_last. Qed.

Context (w : list event).
Hypothesis quiet : succeeded w /\ Forall (fun ev => handles ev = false) w.

Lemma step_succeeded ev : failure_of ev = None -> succeeded (w ++ [ev]).
Proof. intros Hev. apply Forall_app. split; [apply quiet|by repeat constructor]. Qed.

Lemma step_handled ev : handles ev = true -> Exists (fun ev => handles ev = true) (w ++ [ev]).
Proof. intros Hev. apply Exists_app. right. by constructor. Qed.

Lemma unhandled_runs accountID t r : runs (unhandled_event store e token accountID) t r -> worked w t r.
Proof.
  unfold unhandled_event.
  destruct (BillingEvent_Type e =? "checkout.expired") eqn:Hexpired;
    destruct (BillingEvent_Type e =? "invoice.upcoming") eqn:Hupcoming; cbn [orb andb].
  4: { intros Hr. apply worked_nothing. eapply fail_runs; [|exact Hr]. right. by destruct quiet. }
  all: assert (acknowledged_type (BillingEvent_Type e)) as Htype
      by (first [left; by apply String.eqb_eq|right; by apply String.eqb_eq]).
  all: assert (forall w' t r, succeeded w' -> Forall (fun ev => handles ev = false) w' ->
      runs (Do (CompleteBillingEvent (BillingEvent_Provider e) (canonicalEventID e) token)
              (do_wrapped "bursar: complete ignored billing event") ;;~ ret (event_result true false true false accountID)) t r ->
      settled e token w' t r) as Hcomplete
      by (intros w' t' r' Hw' Hquiet (x & t'' & -> & Hr); rewrite canonical;
          destruct x as [completed|[]]; cbn in Hr; destruct Hr as [-> ->]; by constructor).
  3: { intros Hr. apply worked_nothing. by apply Hcomplete; [apply quiet..|]. }
  all: destruct (negb _ && _); [|intros Hr; apply worked_nothing; by apply Hcomplete; [apply quiet..|]].
  all: intros (x & t' & -> & Hr).
  all: assert (step_for s store e (UpdateIntent (billingMetadataString (BillingEvent_Metadata e) "checkout_intent_id") accountID
         {| CheckoutIntentUpdate_ProviderSessionID := ""; CheckoutIntentUpdate_ProviderURL := "";
            CheckoutIntentUpdate_CustomerID := ""; CheckoutIntentUpdate_Status := "expired" |} ↦ x)) as Hstep
      by (apply step_checkout; [by apply String.eqb_eq|done]).
  all: destruct x as [[]|err]; cbn [pcatch] in Hr; [|by eapply worked_failed; [apply quiet|exact Hstep|reflexivity|]].
  all: apply worked_step; [done|]; apply Hcomplete; [by apply step_succeeded| |done].
  all: apply Forall_app; split; [apply quiet|by repeat constructor].
Qed.

Lemma processed_runs configured accountID x t r :
  step_for s store e (ProcessBillingEvent configured e accountID ↦ x) ->
  runs (processed_event s e token accountID x) t r -> worked w ((ProcessBillingEvent configured e accountID ↦ x) :: t) r.
Proof.
  intros Hstep. unfold processed_event. destruct x as [[res|err] left]; cbn [fst snd]; intros Hr.
  2: { by eapply worked_failed; [apply quiet|exact Hstep|reflexivity|]. }
  destruct (BillingEventResult_Handled res) eqn:Hhandled; cbn [negb] in Hr.
  - apply worked_step; [done|]. eapply complete_runs; [| | |exact Hr].
    + apply step_succeeded. cbn. by rewrite Hhandled.
    + by apply step_handled.
    + by destruct (_ =? "").
  - eapply worked_failed; [apply quiet|exact Hstep| |exact Hr]. cbn. by rewrite Hhandled.
Qed.

(** What follows the lookup of the account. *)
Lemma handled_runs accountID t r :
  runs (match or_else (Billing_handlers s !! BillingEvent_Type e) (Billing_defaultHandler s) with
        | Some handler =>
            Do (RunHandler handler e accountID) (fun handled =>
              match handled with
              | Err err => fail_event e token err
              | Ok _ => complete_event s e token e true (event_result true false false false accountID)
              end)
        | None =>
            match processor_for s store (BillingEvent_Type e) with
            | Some configured => Do (ProcessBillingEvent configured e accountID) (processed_event s e token accountID)
            | None => unhandled_event store e token accountID
            end
        end) t r -> worked w t r.
Proof.
  destruct (or_else _ _) as [handler|] eqn:Hhandler.
  - intros (x & t' & -> & Hr). pose proof (step_handler s store e handler accountID x Hhandler) as Hstep.
    destruct x as [[]|err]; [|by eapply worked_failed; [apply quiet|exact Hstep|reflexivity|exact Hr]].
    apply worked_step; [done|]. eapply complete_runs; [| | |exact Hr]; [by apply step_succeeded|by apply step_handled|done].
  - destruct (processor_for _ _ _) as [configured|] eqn:Hprocessor; [|apply unhandled_runs].
    intros (x & t' & -> & Hr). by apply processed_runs; [apply step_processor|].
Qed.
End settling.

Lemma handle_claimed_runs s store e token t r :
  canonicalEventID e = BillingEvent_EventID e -> runs (handle_claimed s store e token) t r ->
  exists w t', t = w ++ t' /\ work_for s store e w /\ settled e token w t' r.
Proof.
  intros Hid Hr. unfold handle_claimed in Hr.
  assert (forall w t r, (w = [] \/ exists a, w = [ResolveBillingEventAccount e ↦ Ok a]) -> worked s store e token w t r ->
    exists w' t', w ++ t = w' ++ t' /\ work_for s store e w' /\ settled e token w' t' r) as Hfinish.
  { intros w t0 r0 Hw (w2 & t' & -> & Hw2 & Ht'). exists (w ++ w2), t'. split; [by rewrite app_assoc|]. split; [|done].
    destruct Hw as [-> |(a & ->)], Hw2 as [-> |(ev & -> & Hev)]; by constructor. }
  destruct (Store_ResolvesAccounts store); cbn [pcatch ret] in Hr.
  - destruct Hr as (x & t' & -> & Hr). destruct x as [accountID|err].
    + apply (Hfinish [ResolveBillingEventAccount e ↦ Ok accountID]); [by right; eexists|].
      eapply handled_runs; [exact Hid| |exact Hr]. by split; repeat constructor.
    + exists [ResolveBillingEventAccount e ↦ Err err], t'. split; [done|]. split; [constructor|].
      eapply fail_runs; [exact Hid| |exact Hr]. apply (failed_last e []); [by constructor|done].
  - apply (Hfinish []); [by left|]. eapply handled_runs; [exact Hid| |exact Hr]. by split; constructor.
Qed.

Lemma claimed_canonical e claim : canonicalEventID (claimed_event e claim) = BillingEvent_EventID (claimed_event e claim).
Proof.
  change (first_trimmed (canonicalEventID e) (canonicalEventID e) = canonicalEventID e). unfold first_trimmed.
  assert (TrimSpace (canonicalEventID e) = canonicalEventID e) as Htrim.
  { unfold canonicalEventID, first_trimmed. destruct (_ =? ""); apply TrimSpace_idem. }
  rewrite Htrim. by destruct (_ =? "").
Qed.

Lemma Ingest_runs s store e t r :
  Billing_store s = Some store -> runs (Ingest (Some s) e) t r -> ingestion s store e t r.
Proof.
  intros Hstore Hr. unfold Ingest in Hr. destruct (Validate e) as [[]|err] eqn:Hvalid; cbn [lift pbind] in Hr.
  2: { destruct Hr as [-> ->]. by constructor. }
  rewrite Hstore in Hr. destruct Hr as (x & t' & -> & Hr).
  destruct x as [claim|err].
  2: { destruct err; cbn in Hr; destruct Hr as [-> ->]; by constructor. }
  cbn [do_wrapped wrapped lift pbind] in Hr.
  destruct (BillingEventClaim_State claim =? BillingEventDuplicate) eqn:Hduplicate.
  { destruct Hr as [-> ->]. constructor; [done|]. by rewrite Hduplicate. }
  destruct (BillingEventClaim_State claim =? BillingEventBusy) eqn:Hbusy.
  { destruct Hr as [-> ->]. constructor; [done|]. by rewrite Hduplicate, Hbusy. }
  destruct (String.eqb_spec (BillingEventClaim_State claim) BillingEventRejected) as [Hrejected|_].
  { destruct Hr as [-> ->]. constructor; [done|]. rewrite Hduplicate, Hbusy, Hrejected. split; [done|by left]. }
  destruct (String.eqb_spec (BillingEventClaim_State claim) BillingEventClaimed) as [Hclaimed|Hother].
  2: { destruct Hr as [-> ->]. constructor; [done|]. rewrite Hduplicate, Hbusy. split; [done|by left]. }
  destruct (String.eqb_spec (TrimSpace (BillingEventClaim_ClaimToken claim)) "") as [Htoken|Htoken].
  { destruct Hr as [-> ->]. constructor; [done|]. rewrite Hduplicate, Hbusy. split; [done|by right]. }
  apply handle_claimed_runs in Hr as (w & t1 & -> & Hw & Ht1); [|by apply claimed_canonical].
  by eapply ingestion_claimed.
Qed.
End ingestion.

(** ** Grace periods end only where they have run out *)

Section grace.
Context {D : Type}.
Notation prog := (prog (@billing_answer D)).
Notation event := (event (@billing_answer D)).
Notation "c ↦ x" := (existT c x : event) (at level 60).
Implicit Types (s : option BillingService) (x : CommerceSubscription D) (h t : list event).

(** The methods that end grace periods: the two that read a subscription, and
    the sweep. *)
Inductive grace_method s : forall A : Type, prog A -> Prop :=
  | grace_user accountID : grace_method s _ (GetUserSubscription s accountID)
  | grace_blocking accountID : grace_method s _ (GetBlockingSubscription s accountID)
  | grace_sweep now limit : grace_method s _ (ExpirePastDueGracePeriods s now limit).

(** The store answered this subscription in the same call: as one whose grace
    period had run out by [at_], or as one whose grace period has. *)
Definition known_expired h x (at_ : Time) : Prop :=
  (exists limit candidates, (StoreListExpiredGrace at_ limit ↦ Ok candidates) ∈ h /\ x ∈ candidates /\ 1 <= limit <= 1000) \/
  (exists accountID statuses ends, (StoreGetSubscription accountID statuses ↦ Ok (Some x)) ∈ h /\
     CommerceSubscription_GraceEndsAt x = Some ends /\ instant ends <= instant at_).

Definition grace_justified s h x (at_ : Time) (plan : string) : Prop :=
  entitles s = true /\ plan = terminal_plan s /\ CommerceSubscription_ID x <> "" /\
  CommerceSubscription_Status x = "past_due" /\ CommerceSubscription_GraceExpiredAt x = None /\
  CommerceSubscription_GraceEndsAt x <> None /\ known_expired h x at_.

Definition grace_allowed s h (c : billing_call D) : Prop :=
  match c with StoreExpireGrace x at_ plan => grace_justified s h x at_ plan | _ => True end.
Notation abides s := (abides (fun _ => True) (grace_allowed s)).

Lemma store_with_abides {A} s s' has unconfigured missing h (k : BillingStore -> prog A) :
  (forall store, abides s h (k store)) -> abides s h (pbind (store_with s' has unconfigured missing) k).
Proof.
  intros Hk. unfold store_with. destruct (s' ≫= _) as [store|]; [|done]. destruct (has store); [apply Hk|done].
Qed.

Lemma expiry_candidate_true x :
  expiry_candidate x = true <->
  CommerceSubscription_ID x <> "" /\ CommerceSubscription_Status x = "past_due" /\
  CommerceSubscription_GraceExpiredAt x = None /\ CommerceSubscription_GraceEndsAt x <> None.
Proof.
  unfold expiry_candidate. rewrite negb_true_iff, !orb_false_iff, negb_false_iff, negb_false_iff, String.eqb_neq, String.eqb_eq.
  destruct (CommerceSubscription_GraceEndsAt x), (CommerceSubscription_GraceExpiredAt x); naive_solver.
Qed.

Lemma grace_over_true x now :
  grace_over x now = true <->
  CommerceSubscription_ID x <> "" /\ CommerceSubscription_Status x = "past_due" /\
  CommerceSubscription_GraceExpiredAt x = None /\
  exists ends, CommerceSubscription_GraceEndsAt x = Some ends /\ instant ends <= instant now.
Proof.
  unfold grace_over. rewrite !andb_true_iff, !negb_true_iff, String.eqb_neq, String.eqb_eq.
  destruct (CommerceSubscription_GraceEndsAt x) as [ends|], (CommerceSubscription_GraceExpiredAt x); cbn;
    try rewrite negb_true_iff; unfold After; rewrite ?Z.ltb_ge; naive_solver.
Qed.

Lemma expire_candidates_abides s h now limit all candidates expired :
  entitles s = true -> 1 <= limit <= 1000 ->
  (StoreListExpiredGrace now limit ↦ Ok all) ∈ h -> (forall x, x ∈ candidates -> x ∈ all) ->
  abides s h (expire_candidates now (terminal_plan s) expired candidates).
Proof.
  intros Hs Hlimit. revert h expired. induction candidates as [|x candidates IH]; intros h expired Hin Hall; [done|].
  cbn [expire_candidates]. destruct (expiry_candidate x) eqn:Hx; cbn [negb].
  - apply expiry_candidate_true in Hx as (Hid & Hstatus & Hmark & Hends). split.
    + repeat split; [done..|]. left. exists limit, all. split_and!; [done|apply Hall; left|lia..].
    + intros [marked|[]] _; [|done..]. apply IH; [apply elem_of_app; by left|]. intros y Hy. apply Hall. by right.
  - apply IH; [done|]. intros y Hy. apply Hall. by right.
Qed.

Lemma subscription_in_abides s accountID statuses : abides s [] (subscription_in s accountID statuses).
Proof.
  unfold subscription_in. apply store_with_abides. intros _. split; [done|]. intros [[x|]|err] _; [|done..]. cbn [pbind].
  split; [done|]. intros now _. cbn [expireGraceIfNeeded].
  destruct (entitles s) eqn:Hs; [|done]. destruct (grace_over x (ToUTC now)) eqn:Hover; [|done]. cbn [andb negb].
  apply store_with_abides. intros _. apply grace_over_true in Hover as (Hid & Hstatus & Hmark & ends & Hends & Hpast).
  split; [|by intros [[]|] _]. repeat split; [done..|congruence|]. right. exists accountID, statuses, ends.
  split; [apply elem_of_app; left; left|done].
Qed.

Lemma grace_method_abides s A (p : prog A) : grace_method s A p -> abides s [] p.
Proof.
  destruct 1 as [accountID|accountID|now limit]; [apply subscription_in_abides..|].
  unfold ExpirePastDueGracePeriods. destruct (entitles s) eqn:Hs; [|done]. apply store_with_abides. intros _.
  apply abides_bind; [by destruct (IsZeroTime now)|]. intros t now'. cbv zeta.
  set (limit' := if (limit =? 0)%Z then 100 else limit).
  destruct ((limit' <? 1) || (1000 <? limit')) eqn:Hlimit; [done|].
  apply orb_false_iff in Hlimit as [Hlow%Z.ltb_ge Hhigh%Z.ltb_ge]. split; [done|]. intros [candidates|err] _; [|done]. cbn [pbind].
  apply store_with_abides. intros _. eapply expire_candidates_abides; [done| |apply elem_of_app; right; left|]; [lia|done].
Qed.
End grace.

(** ** The properties *)

(** C34: Whatever the store and the application answer, an event is handled only
    after it was validated and claimed with a token, by one handler or
    processor, chosen by the type-specific handler first, then the default one,
    then the store.  The claim is then settled once, under its own token: it is
    completed exactly when the work succeeded, and the call reports success
    only after the store confirmed that; when the work fails the claim is failed
    with a diagnostic that carries no more than the error's code, and its error
    is returned.  A callback is notified last, of a completed event only; a
    duplicate or busy claim has no effect.  Only a checkout that expired or an
    upcoming invoice nobody handles is acknowledged whatever its completion
    answers, and only a panic leaves a claim unsettled. *)
Theorem Ingest_settles_claim {D : Type} (s : BillingService) (store : BillingStore) (e : BillingEvent D)
    (t : list (event (@billing_answer D))) (r : result BillingEventResult) :
  Billing_store s = Some store -> runs (Ingest (Some s) e) t r -> ingestion s store e t r.
Proof. apply Ingest_runs. Qed.

(** A grace period is ended only when the service selects entitlements for
    an application that provisions plans, for a past-due subscription not yet
    marked, that the store answered in the same call as one whose grace period
    has run out, and with the configured terminal plan. *)
Theorem grace_expiry_justified {D : Type} (s : option BillingService) A (p : prog (@billing_answer D) A)
    (t1 t2 : list (event (@billing_answer D))) (x : CommerceSubscription D) (at_ : Time) (plan : string)
    (marked : result bool) (r : result A) :
  grace_method s A p -> runs p (t1 ++ existT (StoreExpireGrace x at_ plan) marked :: t2) r ->
  grace_justified s t1 x at_ plan.
Proof.
  intros Hp Hr. eapply obeys_runs in Hr as [_ Hall]; [|by apply grace_method_abides|by apply Forall_true].
  exact (Hall t1 (StoreExpireGrace x at_ plan) marked t2 eq_refl).
Qed.

(** ** Samples *)

Definition sample_customer {D} : BillingCustomer D :=
  {| BillingCustomer_ProviderCustomerID := "cus_1"; BillingCustomer_ID := ""; BillingCustomer_AccountID := "";
     BillingCustomer_Email := ""; BillingCustomer_Metadata := ∅ |}.

Definition sample_paid {D} : BillingPayment D :=
  {| BillingPayment_ProviderPaymentID := "pay_1"; BillingPayment_ID := ""; BillingPayment_Provider := "stripe";
     BillingPayment_AccountID := ""; BillingPayment_CustomerID := "cus_1"; BillingPayment_SubscriptionID := "";
     BillingPayment_InvoiceID := ""; BillingPayment_Status := "succeeded"; BillingPayment_Currency := "EUR";
     BillingPayment_AmountMinor := 1500; BillingPayment_TaxMinor := 0; BillingPayment_Purpose := "credit_topup";
     BillingPayment_Refs := Some {| ProviderRef_ProductID := ""; ProviderRef_PriceID := "price_3";
                                    ProviderRef_VariantID := ""; ProviderRef_LookupKey := "" |};
     BillingPayment_Metadata := ∅ |}.

(** A top-up of three units that was paid, and an invoice to come. *)
Definition sample_event {D} (eventType : string) (invoice : option (BillingInvoice D)) : BillingEvent D :=
  {| BillingEvent_EventID := " evt_1 "; BillingEvent_ID := ""; BillingEvent_Provider := "stripe";
     BillingEvent_Type := eventType; BillingEvent_OccurredAt := {| instant := 1709202600000000000; location := UTC |};
     BillingEvent_AccountID := "account_1"; BillingEvent_BillingEventID := ""; BillingEvent_Customer := Some sample_customer;
     BillingEvent_Subscription := None; BillingEvent_Invoice := invoice; BillingEvent_Payment := Some sample_paid;
     BillingEvent_Refund := None; BillingEvent_Dispute := None; BillingEvent_Metadata := None |}.

Definition paid_event {D} : BillingEvent D := sample_event "payment.succeeded" None.
Definition upcoming_event {D} : BillingEvent D :=
  sample_event "invoice.upcoming"
    (Some {| BillingInvoice_ProviderInvoiceID := "in_1"; BillingInvoice_ID := ""; BillingInvoice_Provider := "stripe";
             BillingInvoice_AccountID := ""; BillingInvoice_SubscriptionID := ""; BillingInvoice_CustomerID := "";
             BillingInvoice_Status := "draft"; BillingInvoice_Currency := "EUR"; BillingInvoice_AmountPaidMinor := 0;
             BillingInvoice_AmountDueMinor := 900; BillingInvoice_PeriodStart := None; BillingInvoice_PeriodEnd := None;
             BillingInvoice_HostedInvoiceURL := ""; BillingInvoice_Metadata := ∅ |}).

Example sample_events_valid :
  Validate (D:=unit) paid_event = Ok tt /\ Validate (D:=unit) upcoming_event = Ok tt /\
  is_Ok (Validate (D:=unit) (sample_event "invoice.paid" None)) = false.
Proof. by vm_compute. Qed.

(** A store with every capability but a processor of its own, unless it is
    [configured]. *)
Definition sample_billing_store (configured : bool) : BillingStore :=
  {| Store_ProviderEnvironment := "test"; Store_ResolvesAccounts := true; Store_ProcessesConfigured := configured;
     Store_ProcessesEvents := false; Store_UpdatesCheckoutIntents := true; Store_IsCommerceStore := true;
     Store_IsStateStore := true; Store_IsAutoRechargeStore := true; Store_UpdatesProviderPayments := true;
     Store_RecordsConflicts := true; Store_WritesSubscriptions := true; Store_WritesCustomers := true;
     Store_HasActiveCatalog := true; Store_ResolvesTopups := true; Store_Pseudonymizes := true;
     Store_ListsGrace := true; Store_ExpiresGrace := true |}.

Definition sample_billing_options (handlers : gmap string (option Z)) : BillingServiceOptions :=
  {| BillingServiceOptions_Handlers := handlers; BillingServiceOptions_DefaultHandler := None;
     BillingServiceOptions_EventHandlers := {[ "payment.succeeded" := Some 7 ]};
     BillingServiceOptions_HasProvisioning := true; BillingServiceOptions_AutoSelectEntitlementSource := None;
     BillingServiceOptions_PastDueGracePeriod := Some (3 * 24 * Hour); BillingServiceOptions_TerminalPlanKey := "free" |}.

Definition sample_billing (configured : bool) (handlers : gmap string (option Z)) : BillingService :=
  match NewBillingService (Some (sample_billing_store configured)) [sample_billing_options handlers] with
  | Ok s => s
  | Err _ => {| Billing_store := None; Billing_handlers := ∅; Billing_eventHandlers := ∅; Billing_defaultHandler := None;
                Billing_lifecycle := {| Lifecycle_HasProvisioning := false; Lifecycle_autoSelectEntitlementSource := false;
                                        Lifecycle_pastDueGracePeriod := 0; Lifecycle_terminalPlanKey := "" |} |}
  end.

Definition sample_billing_handled : BillingService := sample_billing false {[ "payment.succeeded" := Some 1 ]}.

Definition sample_claim : BillingEventClaim :=
  {| BillingEventClaim_State := BillingEventClaimed; BillingEventClaim_ClaimToken := "token_1";
     BillingEventClaim_BillingEventID := "row_1"; BillingEventClaim_Attempts := 1; BillingEventClaim_Reason := "" |}.

(** An account whose grace period ran out, as the store lists it. *)
Definition lapsed {D} : CommerceSubscription D :=
  {| CommerceSubscription_ID := "row_2"; CommerceSubscription_CatalogRevisionID := ""; CommerceSubscription_Provider := "stripe";
     CommerceSubscription_ProviderSubscriptionID := "sub_1"; CommerceSubscription_AccountID := "account_1";
     CommerceSubscription_ProviderCustomerID := "cus_1"; CommerceSubscription_OfferID := "offer_1";
     CommerceSubscription_OfferKey := "basic"; CommerceSubscription_PlanID := "plan_1"; CommerceSubscription_PlanKey := "basic";
     CommerceSubscription_Status := "past_due"; CommerceSubscription_Interval := "month";
     CommerceSubscription_IntervalCount := 1; CommerceSubscription_CurrentPeriodStart := None;
     CommerceSubscription_CurrentPeriodEnd := None; CommerceSubscription_TrialEnd := None;
     CommerceSubscription_CancelAt := None; CommerceSubscription_EndedAt := None;
     CommerceSubscription_CancelAtPeriodEnd := true;
     CommerceSubscription_GraceEndsAt := Some {| instant := 1709000000000000000; location := UTC |};
     CommerceSubscription_GraceExpiredAt := None;
     CommerceSubscription_ProviderUpdatedAt := {| instant := 1708000000000000000; location := UTC |};
     CommerceSubscription_Metadata := ∅ |}.

Definition sample_now : Time := {| instant := 1709202600000000000; location := UTC |}.

(** A store that grants every claim and answers [completed] to its completion,
    and an application whose handler answers [handled]. *)
Definition billing_store_answers {D} (handled : result unit) (completed : bool) (c : billing_call D) : billing_answer c :=
  match c with
  | ClaimBillingEvent _ _ => Ok sample_claim
  | CompleteBillingEvent _ _ _ => Ok completed
  | FailBillingEvent _ _ _ _ => Ok true
  | ResolveBillingEventAccount e => Ok (BillingEvent_AccountID e)
  | ProcessBillingEvent _ e _ => (Err (ExternalError "no processor"), BillingEvent_Subscription e)
  | RunHandler _ _ _ => handled
  | RunCallback _ _ _ => tt
  | TimeNow => sample_now
  | StoreListSubscriptions _ | StoreListExpiredGrace _ _ => Ok [lapsed]
  | StoreGetSubscription _ _ => Ok (Some lapsed)
  | StorePseudonymize _ | StoreExpireGrace _ _ _ => Ok true
  | StoreUpdateChange _ _ | StoreUpsertPreferences _ | StoreUpsertCustomer _ | StoreRecordConflict _
  | StoreUpsertProfile _ _ | StoreUpdateAttempt _ | StoreUpdateProviderPayment _ | UpdateIntent _ _ _ => Ok tt
  | StoreCreateChange _ | CreateOrGetIntent _ => Err (ExternalError "not available")
  | StoreUpsertSubscription _ => Ok "row_2"
  | StoreCountAttempts _ _ => Ok 0
  | StoreListInvoices _ => Ok []
  | GetIntent _ _ | StoreGetCustomer _ _ | StoreResolveOffer _ _ _ _ | StoreGetOpenChange _ _ | StoreGetPreferences _
  | StoreGetActiveCatalog | StoreResolveTopup _ _ _ _ | StoreGetProfile _ | StoreClaimAttempt _ => Ok None
  end.

Definition sample_ingest (s : BillingService) (handled : result unit) (completed : bool) (e : BillingEvent unit) :=
  run (fun c (_ : unit) => (billing_store_answers handled completed c, tt)) tt (Ingest (Some s) e).

(** The handler fails: the claim is failed under its token, and the error
    returned. *)
Lemma Ingest_settles_claim_witness :
  (sample_ingest sample_billing_handled (Err (NewStoreTimeoutError "timeout" None)) true paid_event).1.2
    = Err (NewStoreTimeoutError "timeout" None) /\
  last (sample_ingest sample_billing_handled (Err (NewStoreTimeoutError "timeout" None)) true paid_event).1.1
    = Some (existT (FailBillingEvent "stripe" "evt_1" "token_1" "billing_event_failed:STORE_TIMEOUT") (Ok true)) /\
  ingestion sample_billing_handled (sample_billing_store false) paid_event
    (sample_ingest sample_billing_handled (Err (NewStoreTimeoutError "timeout" None)) true paid_event).1.1
    (sample_ingest sample_billing_handled (Err (NewStoreTimeoutError "timeout" None)) true paid_event).1.2.
Proof.
  split; [vm_compute; reflexivity|]. split; [vm_compute; reflexivity|].
  apply (Ingest_settles_claim sample_billing_handled); [vm_compute; reflexivity|].
  exact (run_runs (fun c (_ : unit) => (billing_store_answers _ _ c, tt)) (Ingest _ _) tt).
Defined.

(** The callback is notified after the completion. *)
Example handled_event_notifies :
  map (fun ev => match projT1 ev with CompleteBillingEvent _ _ _ => 1 | RunCallback n _ _ => n | _ => 0 end)
    (sample_ingest sample_billing_handled (Ok tt) true paid_event).1.1 = [0; 0; 0; 1; 7].
Proof. vm_compute. reflexivity. Qed.

(** An upcoming invoice nobody handles is acknowledged although its claim was
    lost. *)
Example lost_claim_is_acknowledged :
  (sample_ingest (sample_billing false ∅) (Ok tt) false upcoming_event).1.2
    = Ok (event_result true false true false "account_1").
Proof. vm_compute. reflexivity. Qed.

Definition sample_sweep :=
  run (fun c (_ : unit) => (billing_store_answers (D:=unit) (Ok tt) true c, tt)) tt
    (ExpirePastDueGracePeriods (Some (sample_billing false ∅)) sample_now 0).

Lemma grace_expiry_justified_witness :
  sample_sweep.1.2 = Ok (1, None) /\
  grace_justified (Some (sample_billing false ∅))
    [existT (StoreListExpiredGrace sample_now 100) (Ok [lapsed]) : event (@billing_answer unit)] lapsed sample_now "free".
Proof.
  split; [vm_compute; reflexivity|].
  apply (grace_expiry_justified (Some (sample_billing false ∅)) (Z * option error)
           (ExpirePastDueGracePeriods (Some (sample_billing false ∅)) sample_now 0)
           [existT (StoreListExpiredGrace sample_now 100) (Ok [lapsed])] [] lapsed sample_now "free" (Ok true) (Ok (1, None))).
  - constructor.
  - exact (run_runs (fun c (_ : unit) => (billing_store_answers (Ok tt) true c, tt))
             (ExpirePastDueGracePeriods (Some (sample_billing false ∅)) sample_now 0) tt).
Defined.
