(* ===== verification/BillingLifecycleFacts.v ===== *)
(** * What the PostgreSQL store does with an event

    A validated event is processed without a panic.  [posted]: what an event
    posts to the ledger, and on which answers of the store. *)

From S2P Require Export BillingLifecycle BillingFacts.
From S2P Require Import DecimalRef.
Local Open Scope Z_scope.
Local Open Scope go_scope.

(** ** A validated event is processed without a panic *)

Section calm.
Context {D : Type} `{DecimalOps D} `{Uuids}.
Notation prog := (prog (@lifecycle_answer D)).
Notation event := (event (@lifecycle_answer D)).
Notation "c ↦ x" := (existT c x : event) (at level 60).
Implicit Types (e : BillingEvent D) (options : LifecycleOptions).

Definition panics {A} (r : result A) : Prop := exists text, r = Err (GoPanic text).

(** No method of the store panics. *)
Definition calm_answer (ev : event) : Prop :=
  match ev with
  | existT c x =>
      match c return lifecycle_answer c -> Prop with
      | LifecycleNow => fun _ => True
      | ProvisionedPlan _ | GetBillingCustomerByProvider _ _ | GetBillingSubscriptionByProvider _ _
      | GetBillingPaymentByProvider _ _ | ListBillingSubscriptions _ | ResolveBillingOffer _ _ _ _
      | ResolveBillingTopup _ _ _ _ | UpsertBillingSubscriptionState _ | UpsertBillingPaymentState _
      | UpsertBillingRefundState _ | GetBillingCreditGrantByPayment _ | CreateBillingCreditGrant _
      | reconcileSubscriptionEntitlement _ _ _ _ _ _ _ _ _ | UpsertBillingCustomer _ | UpsertBillingInvoiceState _
      | UpsertBillingDisputeState _ | RecordConflict _ | applyOpenBillingSubscriptionChange _ _ _
      | UpdateAttemptByProviderPayment _ | expirePastDueGracePeriod _ _ _ | AdvanceCheckoutIntent _ _
      | GrantBillingCredit _ _ | PostBillingRefund _ _ _ _ => fun x => ~ panics x
      end x
  end.

Definition calm {A} (p : prog A) : Prop :=
  forall h, obeys calm_answer (fun _ _ => True) (fun _ r => ~ panics r) h p.

Lemma calm_ret {A} (a : A) : calm (ret a).
Proof. intros h [text [=]]. Qed.
Lemma calm_raise {A} err : (forall text, err <> GoPanic text) -> calm (raise err : prog A).
Proof. intros Herr h [text [= ?]]. by eapply Herr. Qed.
Lemma calm_lift {A} (r : result A) : ~ panics r -> calm (lift r).
Proof. intros Hr h. exact Hr. Qed.
Lemma calm_do {A} c (k : lifecycle_answer c -> prog A) : (forall x, calm_answer (c ↦ x) -> calm (k x)) -> calm (Do c k).
Proof. intros Hk h. split; [done|]. intros x Hx. by apply Hk. Qed.
Lemma calm_bind {A B} (p : prog A) (f : A -> prog B) : calm p -> (forall a, calm (f a)) -> calm (pbind p f).
Proof.
  intros Hp Hf h. eapply obeys_then; [apply Hp| |].
  - intros t err Herr [text [= ->]]. apply Herr. by eexists.
  - intros t a _. apply Hf.
Qed.
Lemma calm_done {A} (r : result A) : ~ panics r -> calm (Done r).
Proof. intros Hr h. exact Hr. Qed.
End calm.
Create HintDb calm.
#[export] Hint Resolve calm_ret calm_lift calm_done : calm.

(** Takes a program apart down to its answers and its errors. *)
Ltac calm_walk :=
  repeat (cbv zeta;
    match goal with
    | |- calm (pbind _ _) => apply calm_bind; [|intros ?]
    | |- calm (Do _ _) => let x := fresh "x" in let Hx := fresh "Hx" in apply calm_do; intros x Hx; cbn [calm_answer] in Hx
    | |- calm (ret _) => apply calm_ret
    | |- calm (Done _) => apply calm_done; assumption
    | |- calm (raise _) => apply calm_raise; [done]
    | H : ~ panics (Err ?err) |- calm (raise ?err) =>
        apply calm_raise; intros text ->; apply H; by eexists
    | |- calm (match ?x with _ => _ end) => destruct x eqn:?
    | |- calm _ => solve [auto with calm]
    end).

Section processing.
Context {D : Type} `{DecimalOps D} `{Uuids}.
Notation prog := (prog (@lifecycle_answer D)).
Implicit Types (e : BillingEvent D) (options : LifecycleOptions).

Lemma postgresUUID_calm value label : ~ panics (postgresUUID value label).
Proof. unfold postgresUUID. destruct (scanUUID _); by intros [? [=]]. Qed.

Lemma posting_calm operation (posting : BillingCreditPostingResult D) : ~ panics (billingLifecyclePostingError operation posting).
Proof. unfold billingLifecyclePostingError. destruct (_ =? ""); by intros [? [=]]. Qed.

Lemma entitlement_calm status outcome apply_ : ~ panics (validateSubscriptionEntitlementOutcome status outcome apply_).
Proof. unfold validateSubscriptionEntitlementOutcome. repeat case_match; by intros [? [=]]. Qed.

Lemma metadata_calm (metadata : CreditMetadata D) : ~ panics (validateBillingLifecycleMetadata metadata).
Proof.
  unfold validateBillingLifecycleMetadata. destruct (metadata_value _ _) as [[]|]; try by intros [? [=]].
  destruct (_ =? ""); [by intros [? [=]]|]. pose proof (postgresUUID_calm (TrimSpace s) "checkout intent ID") as Hcalm.
  destruct (postgresUUID _ _) as [|err]; cbn; [by intros [? [=]]|]. intros [text [= ->]]. apply Hcalm. by eexists.
Qed.
#[local] Hint Resolve postgresUUID_calm posting_calm entitlement_calm metadata_calm : calm.

Lemma known_account_calm e : calm (known_account e).
Proof. unfold known_account, account_or. calm_walk. Qed.
Lemma resolveAccount_calm e accountID : calm (resolveAccount e accountID).
Proof. unfold resolveAccount. destruct (negb _); [apply calm_ret|apply known_account_calm]. Qed.
Lemma upsert_customer_calm e accountID : calm (upsert_customer e accountID).
Proof. unfold upsert_customer. calm_walk. Qed.
Lemma offerForEvent_calm e : calm (offerForEvent e).
Proof. unfold offerForEvent. calm_walk. Qed.
Lemma persistInvoice_calm e accountID : calm (persistInvoice e accountID).
Proof. unfold persistInvoice. calm_walk. Qed.
Lemma updateCheckoutFromEvent_calm e status : calm (updateCheckoutFromEvent e status).
Proof. unfold updateCheckoutFromEvent. calm_walk. Qed.
Lemma record_conflict_calm e accountID subscriptionID all : calm (record_conflict e accountID subscriptionID all).
Proof. unfold record_conflict. calm_walk. Qed.
#[local] Hint Resolve resolveAccount_calm upsert_customer_calm offerForEvent_calm persistInvoice_calm
  updateCheckoutFromEvent_calm record_conflict_calm : calm.

Lemma preserved_anchor_calm options accountID action : calm (preserved_anchor options accountID action : prog _).
Proof. unfold preserved_anchor. calm_walk. Qed.
Lemma upsert_subscription_calm e accountID subscriptionID action state : calm (upsert_subscription e accountID subscriptionID action state).
Proof. unfold upsert_subscription. calm_walk. Qed.
Lemma post_grant_calm grant key operation : calm (post_grant grant key operation : prog _).
Proof. unfold post_grant. calm_walk. Qed.
#[local] Hint Resolve post_grant_calm : calm.
Lemma grant_cycle_calm e subscriptionID action offer : calm (grant_cycle e subscriptionID action offer).
Proof. unfold grant_cycle. calm_walk. Qed.
Lemma subscription_context_calm e subscriptionID : calm (subscription_context e subscriptionID).
Proof. unfold subscription_context. calm_walk. Qed.
#[local] Hint Resolve preserved_anchor_calm upsert_subscription_calm grant_cycle_calm subscription_context_calm : calm.

Lemma reconcile_calm options e accountID existing offer state anchor subscriptionID action :
  calm (reconcile_subscription options e accountID existing offer state anchor subscriptionID action).
Proof. unfold reconcile_subscription. calm_walk. Qed.
#[local] Hint Resolve reconcile_calm : calm.

Lemma applySubscription_calm options e accountID action :
  BillingEvent_Subscription e <> None -> calm (applySubscription options e accountID action).
Proof. intros He. unfold applySubscription. calm_walk. Qed.

Lemma apply_first_calm options e accountID applies status action rest :
  (forall e', BillingEvent_Payment e' = BillingEvent_Payment e -> calm (rest e')) ->
  calm (apply_first options e accountID applies status action rest).
Proof.
  intros Hrest. unfold apply_first. destruct (BillingEvent_Subscription e) as [subscription|]; [|by apply Hrest].
  destruct applies; cbn [negb]; [|by apply Hrest].
  apply calm_bind; [by apply applySubscription_calm|]. intros r. destruct (BillingEventResult_Ignored r); [apply calm_ret|by apply Hrest].
Qed.

Lemma grant_topup_calm e payment paymentID topup : calm (grant_topup e payment paymentID topup).
Proof. unfold grant_topup. calm_walk. Qed.
Lemma topup_for_calm e payment : calm (topup_for e payment).
Proof. unfold topup_for. calm_walk. Qed.
#[local] Hint Resolve grant_topup_calm topup_for_calm : calm.

Lemma settle_payment_calm e accountID payment topup paymentID : calm (settle_payment e accountID payment topup paymentID).
Proof. unfold settle_payment. calm_walk. Qed.
#[local] Hint Resolve settle_payment_calm : calm.

Lemma paymentSucceeded_calm options e accountID :
  BillingEvent_Payment e <> None -> calm (paymentSucceeded options e accountID).
Proof.
  intros He. unfold paymentSucceeded. destruct (accountID =? ""); [by apply calm_raise|].
  destruct (BillingEvent_Payment e); [|done]. apply apply_first_calm. intros e' _. calm_walk.
Qed.

Lemma paymentFailed_calm options e accountID :
  BillingEvent_Payment e <> None -> calm (paymentFailed options e accountID).
Proof.
  intros He. unfold paymentFailed. apply apply_first_calm. intros e' He'. rewrite He'.
  destruct (BillingEvent_Payment e); [|done]. calm_walk.
Qed.

Lemma refund_event_calm e accountID : BillingEvent_Refund e <> None -> calm (refund_event e accountID).
Proof. intros He. unfold refund_event, claw_back. calm_walk. Qed.
Lemma dispute_event_calm e accountID : BillingEvent_Dispute e <> None -> calm (dispute_event e accountID).
Proof. intros He. unfold dispute_event. calm_walk. Qed.

(** The parts an event's type needs. *)
Definition has_parts e : Prop :=
  (HasPrefix (BillingEvent_Type e) "subscription." = true -> BillingEvent_Subscription e <> None) /\
  (HasPrefix (BillingEvent_Type e) "payment." = true -> BillingEvent_Payment e <> None) /\
  (HasPrefix (BillingEvent_Type e) "refund." = true -> BillingEvent_Refund e <> None) /\
  (HasPrefix (BillingEvent_Type e) "dispute." = true -> BillingEvent_Dispute e <> None).

Lemma unless_Ok refused message : unless refused message = Ok tt <-> refused = false.
Proof. by destruct refused. Qed.

Lemma Validate_parts e : Validate e = Ok tt -> has_parts e.
Proof.
  unfold Validate. intros Hv. do 5 (apply bind_Ok in Hv as (? & _ & Hv)). apply bind_Ok in Hv as ([] & Hv & _).
  unfold required_data in Hv. cbv zeta in Hv. unfold has_parts.
  destruct (HasPrefix _ "customer." && _); [done|].
  destruct (BillingEvent_Subscription e), (BillingEvent_Invoice e), (BillingEvent_Payment e), (BillingEvent_Refund e),
    (BillingEvent_Dispute e); cbn [is_some negb] in Hv; rewrite ?andb_false_r, ?andb_true_r in Hv;
    repeat match type of Hv with context [if ?b then _ else _] => destruct b; [done|] end; by split_and!.
Qed.

Lemma action_of_subscription eventType status cancel action :
  action_of eventType = Some (status, cancel, action) -> HasPrefix eventType "subscription." = true.
Proof.
  unfold action_of. destruct (List.find _ _) as [[name entry]|] eqn:Hfind; [|done]. intros _.
  apply List.find_some in Hfind as [Hin Heq]. apply String.eqb_eq in Heq. cbn in Heq. subst name.
  cbn in Hin. repeat (destruct Hin as [[= <- _]|Hin]; [done|]). done.
Qed.

Lemma oneOf_prefix value allowed prefix :
  oneOf value allowed = true -> forallb (fun name => HasPrefix name prefix) allowed = true -> HasPrefix value prefix = true.
Proof.
  unfold oneOf. intros (name & Hin & ->%String.eqb_eq)%existsb_exists Hall.
  by apply (proj1 (forallb_forall _ _) Hall).
Qed.

Lemma process_calm options e accountID : has_parts e -> calm (process options e accountID).
Proof.
  intros (Hsubscription & Hpayment & Hrefund & Hdispute). unfold process.
  apply calm_bind; [auto with calm|]. intros _. apply calm_bind; [auto with calm|]. intros resolved.
  unfold process_resolved. destruct (action_of _) as [[[status cancel] action]|] eqn:Haction.
  { apply action_of_subscription, Hsubscription in Haction. unfold subscription_event.
    destruct (BillingEvent_Subscription e); [|done]. cbv zeta. apply calm_bind; [by apply applySubscription_calm|].
    intros r. apply calm_ret. }
  destruct (oneOf _ _); [calm_walk|]. destruct (_ =? "customer.deleted"); [calm_walk|].
  destruct (_ =? "checkout.completed"); [unfold checkout_completed; apply calm_bind; [auto with calm|]; intros _|].
  { destruct (BillingEvent_Subscription e) eqn:He; [|calm_walk]. apply calm_bind; [|intros ?; apply calm_ret].
    apply applySubscription_calm. congruence. }
  destruct (_ =? "checkout.expired"); [calm_walk|].
  destruct (String.eqb_spec (BillingEvent_Type e) "subscription.trial_will_end") as [Htype|_].
  { rewrite Htype in Hsubscription. destruct (BillingEvent_Subscription e); [calm_walk|by destruct Hsubscription]. }
  destruct (_ =? "invoice.paid"); [apply apply_first_calm; intros e' _; calm_walk|].
  destruct (oneOf _ invoice_recorded); [calm_walk|]. destruct (_ =? "invoice.upcoming"); [calm_walk|].
  destruct (String.eqb_spec (BillingEvent_Type e) "payment.succeeded") as [Htype|_].
  { apply paymentSucceeded_calm, Hpayment. by rewrite Htype. }
  destruct (String.eqb_spec (BillingEvent_Type e) "payment.failed") as [Htype|_].
  { apply paymentFailed_calm, Hpayment. by rewrite Htype. }
  destruct (oneOf _ ["refund.created"; _; _]) eqn:Htype.
  { apply calm_bind; [|intros ?; apply calm_ret]. apply refund_event_calm, Hrefund. by eapply oneOf_prefix. }
  clear Htype. destruct (oneOf _ ["dispute.created"; _; _]) eqn:Htype.
  { apply calm_bind; [|intros ?; apply calm_ret]. apply dispute_event_calm, Hdispute. by eapply oneOf_prefix. }
  calm_walk.
Qed.
End processing.

(** ** What an event posts to the ledger *)

Section posting.
Context {D : Type} `{DecimalOps D} `{Uuids}.
Notation prog := (prog (@lifecycle_answer D)).
Notation event := (event (@lifecycle_answer D)).
Notation obeys := (obeys (fun _ => True) (fun _ _ => True)).
Notation "c ↦ x" := (existT c x : event) (at level 60).
Implicit Types (e : BillingEvent D) (options : LifecycleOptions) (h t : list event).

Definition posts (c : lifecycle_call D) : bool :=
  match c with
  | CreateBillingCreditGrant _ | GrantBillingCredit _ _ | PostBillingRefund _ _ _ _ => true
  | _ => false
  end.
Notation postings := (seen posts).

Definition accepted (ev : event) : Prop :=
  match ev with
  | existT (CreateBillingCreditGrant _) x => is_Ok x = true
  | existT (GrantBillingCredit _ _) x | existT (PostBillingRefund _ _ _ _) x =>
      exists posting, x = Ok posting /\ BillingCreditPostingResult_ErrorCode posting = ""
  | _ => True
  end.

(** A grant is created and posted under its key, once. *)
Inductive granted (grant : BillingCreditGrantCreate D) (key : string) : list event -> Prop :=
  | granted_refused err : granted grant key [CreateBillingCreditGrant grant ↦ Err err]
  | granted_posted grantID x :
      granted grant key [CreateBillingCreditGrant grant ↦ Ok grantID; GrantBillingCredit grantID key ↦ x].

Definition ledger_key e (kind : string) : string := "billing:" +:+ canonicalEventID e +:+ ":" +:+ kind.

(** The postings [t] of an event, and the answers of [h] they rest on. *)
Inductive posted e h : list event -> Prop :=
  | posted_nothing : posted e h []
  | posted_topup payment refs topup upsert paymentID quantity t :
      BillingEvent_Payment e = Some payment -> BillingPayment_Purpose payment = "credit_topup" ->
      BillingPayment_Refs payment = Some refs ->
      (ResolveBillingTopup (BillingEvent_Provider e) (ProviderRef_ProductID refs) (ProviderRef_PriceID refs)
         (ProviderRef_LookupKey refs) ↦ Ok (Some topup)) ∈ h ->
      PaymentUpsert_ProviderPaymentID upsert = canonicalProviderPaymentID payment ->
      PaymentUpsert_AmountMinor upsert = BillingPayment_AmountMinor payment ->
      (UpsertBillingPaymentState upsert ↦ Ok paymentID) ∈ h ->
      BillingTopupResult_MinAmountMinor topup <= BillingPayment_AmountMinor payment <= BillingTopupResult_MaxAmountMinor topup ->
      0 < BillingTopupResult_AmountMinor topup ->
      quantity * BillingTopupResult_AmountMinor topup = BillingPayment_AmountMinor payment -> quantity <= 2 ^ 63 - 1 ->
      granted {| GrantCreate_PaymentID := paymentID; GrantCreate_SubscriptionID := "";
                 GrantCreate_TopupID := BillingTopupResult_TopupID topup;
                 GrantCreate_Credits := BillingTopupResult_CreditsPerUnit topup; GrantCreate_Quantity := quantity;
                 GrantCreate_BillingEventID := BillingEvent_BillingEventID e |} (ledger_key e "topup") t ->
      posted e h t
  | posted_cycle refs offer grant state subscriptionID t :
      BillingEvent_Subscription e ≫= BillingSubscription_Refs = Some refs ->
      (ResolveBillingOffer (BillingEvent_Provider e) (ProviderRef_ProductID refs) (ProviderRef_PriceID refs)
         (ProviderRef_LookupKey refs) ↦ Ok (Some offer)) ∈ h ->
      BillingOffer_Grant offer = Some grant -> BillingGrantResult_Mode grant = "cycle_grant" ->
      CommerceSubscription_OfferID state = BillingOffer_ID offer ->
      CommerceSubscription_ProviderSubscriptionID state = subscriptionEventID e ->
      (UpsertBillingSubscriptionState state ↦ Ok subscriptionID) ∈ h ->
      BillingEvent_BillingEventID e <> "" ->
      granted {| GrantCreate_PaymentID := ""; GrantCreate_SubscriptionID := subscriptionID; GrantCreate_TopupID := "";
                 GrantCreate_Credits := BillingGrantResult_Credits grant; GrantCreate_Quantity := 1;
                 GrantCreate_BillingEventID := BillingEvent_BillingEventID e |} (ledger_key e "subscription-cycle") t ->
      posted e h t
  | posted_refund refund upsert refundID payment grantID x :
      BillingEvent_Refund e = Some refund -> BillingRefund_Status refund = "succeeded" ->
      RefundUpsert_ProviderRefundID upsert = canonicalProviderRefundID refund ->
      (UpsertBillingRefundState upsert ↦ Ok refundID) ∈ h ->
      (GetBillingPaymentByProvider (BillingEvent_Provider e) (Refund_canonicalProviderPaymentID refund) ↦ Ok (Some payment)) ∈ h ->
      BillingPaymentRecord_Purpose payment = "credit_topup" ->
      (GetBillingCreditGrantByPayment (BillingPaymentRecord_ID payment) ↦ Ok grantID) ∈ h -> grantID <> "" ->
      posted e h [PostBillingRefund refundID grantID (BillingRefund_AmountMinor refund) (ledger_key e "refund") ↦ x].

(** A run that posts what its event warrants, and succeeds only when all of it
    was accepted. *)
Definition warranted {A} e h (r : result A) : Prop :=
  posted e h (postings h) /\ (is_Ok r = true -> Forall accepted (postings h)).

Lemma posted_more e h h' t : posted e h t -> posted e (h ++ h') t.
Proof. destruct 1; econstructor; eauto; apply elem_of_app; by left. Qed.

(** What an event's processing changes in its subscription leaves its postings
    as they are. *)
Lemma posted_changed e status cancel subscription h t :
  BillingEvent_Subscription e = Some subscription ->
  posted (with_subscription e (Some (set_subscription status cancel subscription))) h t -> posted e h t.
Proof.
  intros He Hposted.
  destruct Hposted as [| |refs offer grant state subscriptionID t Hrefs Hoffer Hgrant Hmode Hid Hstate Hin Hevent Ht
    |refund upsert refundID payment grantID x].
  - constructor.
  - by eapply posted_topup.
  - eapply posted_cycle; [by rewrite He|exact Hoffer|exact Hgrant|exact Hmode|exact Hid| |exact Hin|exact Hevent|exact Ht].
    rewrite Hstate. unfold subscriptionEventID. by rewrite He.
  - by apply (posted_refund e h refund upsert refundID payment grantID x).
Qed.

Lemma warranted_changed {A} e status cancel subscription h (r : result A) :
  BillingEvent_Subscription e = Some subscription ->
  warranted (with_subscription e (Some (set_subscription status cancel subscription))) h r -> warranted e h r.
Proof. intros He [Hposted Haccepted]. split; [by eapply posted_changed|done]. Qed.

(** Calls that post nothing change neither. *)
Lemma postings_quiet h t : Forall (fun ev : event => posts (projT1 ev) = false) t -> postings (h ++ t) = postings h.
Proof. apply seen_nothing. Qed.

Lemma quiet_then {A B} (Q : list event -> result B -> Prop) h (p : prog A) f :
  calls_only (fun c => posts c = false) p ->
  (forall t err, postings (h ++ t) = postings h -> Q (h ++ t) (Err err)) ->
  (forall t a, postings (h ++ t) = postings h -> runs p t (Ok a) -> obeys Q (h ++ t) (f a)) ->
  obeys Q h (pbind p f).
Proof.
  intros Hp Herr Hk. eapply obeys_then.
  - apply obeys_traced, (calls_only_obeys _ _ (fun c => posts c = false) h p); [done|exact Hp].
  - intros t err [(t' & Heq & Ht) _]. apply Herr. rewrite Heq. by apply postings_quiet.
  - intros t a [(t' & Heq & Ht) (t'' & Heq' & Hr)]. apply Hk; [rewrite Heq; by apply postings_quiet|].
    by apply app_inv_head in Heq' as ->.
Qed.

Lemma warranted_nothing {A} e h (r : result A) : postings h = [] -> warranted e h r.
Proof. intros Hh. split; rewrite Hh; constructor. Qed.

Lemma quiet_warranted {A} e h (p : prog A) :
  calls_only (fun c => posts c = false) p -> warranted e h (Ok tt) ->
  obeys (fun h' r => warranted e h' r) h p.
Proof.
  intros Hp [Hposted Haccepted]. eapply obeys_mono; [by apply (calls_only_obeys _ _ (fun c => posts c = false))|].
  intros t r (t' & Heq & Ht). apply app_inv_head in Heq as ->. split; rewrite (postings_quiet _ _ Ht); [by apply posted_more|].
  intros _. by apply Haccepted.
Qed.

(** A grant, created and posted; the rest posts nothing. *)
Lemma granting {A} e h grant key operation (k : prog A) :
  postings h = [] -> calls_only (fun c => posts c = false) k ->
  (forall t, granted grant key t -> posted e h t) ->
  obeys (fun h' r => warranted e h' r) h
    (post_grant grant key operation ;;~ k).
Proof.
  intros Hh Hk Hgranted. unfold post_grant. cbn. split; [done|]. intros [grantID|err] _; cbn.
  2: { split; rewrite seen_last, Hh; cbn; [apply posted_more, Hgranted; constructor|done]. }
  split; [done|]. intros x _.
  assert (forall h2, h2 = (h ++ [CreateBillingCreditGrant grant ↦ Ok grantID]) ++ [GrantBillingCredit grantID key ↦ x] ->
            obeys (fun h' r => warranted e h' r) h2
              (pbind (pbind (Done x) (fun posting => lift (billingLifecyclePostingError operation posting))) (fun _ => k)))
    as Hposting;
    [|by apply Hposting].
  intros h2 Hh2.
  assert (postings h2 = [CreateBillingCreditGrant grant ↦ Ok grantID; GrantBillingCredit grantID key ↦ x]) as Hseen.
  { rewrite Hh2, !seen_last. cbn. by rewrite Hh. }
  assert (posted e h2 (postings h2)) as Hposted.
  { rewrite Hseen, Hh2, <- app_assoc. apply posted_more, Hgranted. constructor. }
  destruct x as [posting|err]; cbn [pbind lift]; [|by split].
  unfold billingLifecyclePostingError. destruct (String.eqb_spec (BillingCreditPostingResult_ErrorCode posting) "") as [Hcode|]; cbn [pbind].
  - apply quiet_warranted; [done|]. split; [done|]. intros _. rewrite Hseen. repeat constructor. by exists posting.
  - by split.
Qed.

(** Where the credits of a cycle come from. *)
Definition cycle_source e (offer : BillingOffer D) (subscriptionID : string) h : Prop :=
  forall grant, BillingOffer_Grant offer = Some grant ->
  exists refs state,
    BillingEvent_Subscription e ≫= BillingSubscription_Refs = Some refs /\
    (ResolveBillingOffer (BillingEvent_Provider e) (ProviderRef_ProductID refs) (ProviderRef_PriceID refs)
       (ProviderRef_LookupKey refs) ↦ Ok (Some offer)) ∈ h /\
    CommerceSubscription_OfferID state = BillingOffer_ID offer /\
    CommerceSubscription_ProviderSubscriptionID state = subscriptionEventID e /\
    (UpsertBillingSubscriptionState state ↦ Ok subscriptionID) ∈ h.

Lemma cycle_source_more e offer subscriptionID h t : cycle_source e offer subscriptionID h -> cycle_source e offer subscriptionID (h ++ t).
Proof.
  intros Hsource grant (refs & state & ? & ? & ? & ? & ?)%Hsource. exists refs, state.
  split_and!; try done; apply elem_of_app; by left.
Qed.

Lemma grant_cycle_posts {A} e h subscriptionID action offer (k : prog A) :
  postings h = [] -> cycle_source e offer subscriptionID h -> calls_only (fun c => posts c = false) k ->
  obeys (fun h' r => warranted e h' r) h (grant_cycle e subscriptionID action offer ;;~ k).
Proof.
  intros Hh Hsource Hk. unfold grant_cycle.
  destruct (BillingOffer_Grant offer) as [grant|] eqn:Hgrant; [|by apply quiet_warranted, warranted_nothing].
  destruct (_ && _ && _) eqn:Hgrants; [|by apply quiet_warranted, warranted_nothing].
  apply andb_true_iff in Hgrants as [[_ Hmode%String.eqb_eq]%andb_true_iff Hevent%negb_true_iff%String.eqb_neq].
  destruct (Hsource grant Hgrant) as (refs & state & Hrefs & Hoffer & Hid & Hstate & Hin).
  apply granting; [done..|]. intros t Ht. by eapply posted_cycle.
Qed.

(** A first part that posts nothing, whose failure posts nothing either. *)
Lemma quiet_first {A B} e h (p : prog A) (f : A -> prog B) :
  postings h = [] -> calls_only (fun c => posts c = false) p ->
  (forall t a, postings (h ++ t) = [] -> runs p t (Ok a) -> obeys (fun h' r => warranted e h' r) (h ++ t) (f a)) ->
  obeys (fun h' r => warranted e h' r) h (pbind p f).
Proof.
  intros Hh Hp Hf. apply quiet_then; [done| |].
  - intros t err Ht. apply warranted_nothing. congruence.
  - intros t a Ht Hr. apply Hf; [congruence|done].
Qed.

Lemma updateCheckout_quiet e status : calls_only (fun c => posts c = false) (updateCheckoutFromEvent e status).
Proof. unfold updateCheckoutFromEvent. only_walk; done. Qed.

Lemma reconcile_posts options e h accountID existing offer state anchor subscriptionID action :
  postings h = [] -> cycle_source e offer subscriptionID h ->
  obeys (fun h' r => warranted e h' r) h
    (reconcile_subscription options e accountID existing offer state anchor subscriptionID action).
Proof.
  intros Hh Hsource. unfold reconcile_subscription. split; [done|]. intros now _.
  assert (postings (h ++ [LifecycleNow ↦ now]) = []) as Hh1 by by rewrite seen_last.
  apply (cycle_source_more _ _ _ _ [LifecycleNow ↦ now]) in Hsource. cbv zeta.
  apply quiet_first; [done|by split|]. intros t outcome Ht _. apply (cycle_source_more _ _ _ _ t) in Hsource.
  destruct (outcome =? _); [by apply warranted_nothing|].
  do 4 (apply quiet_first; [done|only_walk; try done; apply updateCheckout_quiet|];
        let t' := fresh "t" in let Ht' := fresh "Ht" in intros t' [] Ht' _; clear Ht; rename Ht' into Ht;
        apply (cycle_source_more _ _ _ _ t') in Hsource).
  by apply grant_cycle_posts.
Qed.

(** What the steps before a subscription is stored leave behind. *)
Lemma subscription_context_runs e subscriptionID t known grant :
  runs (subscription_context e subscriptionID) t (Ok known) -> BillingOffer_Grant known.2 = Some grant ->
  exists refs, BillingEvent_Subscription e ≫= BillingSubscription_Refs = Some refs /\
    (ResolveBillingOffer (BillingEvent_Provider e) (ProviderRef_ProductID refs) (ProviderRef_PriceID refs)
       (ProviderRef_LookupKey refs) ↦ Ok (Some known.2)) ∈ t.
Proof.
  intros (x & t1 & -> & Hr) Hgrant. destruct x as [existing|]; [|by destruct Hr]. cbn in Hr. unfold offerForEvent in Hr.
  destruct (_ ≫= _) as [refs|]; cbn [pbind ret] in Hr.
  - destruct Hr as (y & t2 & -> & Hr). destruct y as [[offer|]|]; cbn in Hr; [| |by destruct Hr].
    + destruct Hr as [-> [= ->]]. exists refs. split; [done|]. cbn. right. left.
    + destruct existing; [|by destruct Hr]. by destruct Hr as [-> [= ->]].
  - destruct existing; [|by destruct Hr]. by destruct Hr as [-> [= ->]].
Qed.

Lemma upsert_subscription_runs e accountID subscriptionID action state t id :
  runs (upsert_subscription e accountID subscriptionID action state) t (Ok id) ->
  (UpsertBillingSubscriptionState state ↦ Ok id) ∈ t.
Proof.
  intros (x & t1 & -> & Hr). destruct x as [id'|err]; [destruct Hr as [-> [= ->]]; left|].
  destruct (action =? _); [|by destruct Hr]. destruct Hr as (all & t2 & -> & Hr).
  destruct all as [all|]; [|by destruct Hr]. unfold record_conflict in Hr. destruct (List.find _ _); cbn in Hr; [|by destruct Hr].
  destruct Hr as (y & t3 & -> & Hr). destruct y; by destruct Hr.
Qed.

Lemma subscription_context_quiet e subscriptionID : calls_only (fun c => posts c = false) (subscription_context e subscriptionID).
Proof. unfold subscription_context, offerForEvent. only_walk; done. Qed.
Lemma record_conflict_quiet e accountID subscriptionID all :
  calls_only (fun c => posts c = false) (record_conflict e accountID subscriptionID all).
Proof. unfold record_conflict. only_walk; done. Qed.
Lemma upsert_subscription_quiet e accountID subscriptionID action state :
  calls_only (fun c => posts c = false) (upsert_subscription e accountID subscriptionID action state).
Proof. unfold upsert_subscription. only_walk; try done; apply record_conflict_quiet. Qed.

Lemma applySubscription_posts options e h accountID action :
  postings h = [] -> obeys (fun h' r => warranted e h' r) h (applySubscription options e accountID action).
Proof.
  intros Hh. unfold applySubscription. destruct (accountID =? ""); [by apply warranted_nothing|].
  destruct (BillingEvent_Subscription e) as [subscription|] eqn:He; [|by apply warranted_nothing]. cbv zeta.
  apply quiet_first; [done|unfold upsert_customer; only_walk; done|]. intros t1 [] Ht1 _.
  apply quiet_first; [done|apply subscription_context_quiet|]. intros t2 known Ht2 Hcontext.
  apply quiet_first; [done|only_walk; try done; apply record_conflict_quiet|]. intros t3 [] Ht3 _.
  apply quiet_first; [done|unfold preserved_anchor; only_walk; done|]. intros t4 anchor Ht4 _.
  apply quiet_first; [done|apply upsert_subscription_quiet|]. intros t5 id Ht5 Hid%upsert_subscription_runs.
  apply reconcile_posts; [done|]. intros grant Hgrant.
  destruct (subscription_context_runs _ _ _ _ _ Hcontext Hgrant) as (refs & Hrefs & Hoffer).
  eexists refs, _. split_and!; [done| | | |apply elem_of_app; right; exact Hid].
  - rewrite <- !app_assoc. apply elem_of_app; right. apply elem_of_app; right. apply elem_of_app; by left.
  - done.
  - cbn. unfold subscriptionEventID. by rewrite He.
Qed.

Lemma apply_first_posts options e h accountID applies status action rest :
  postings h = [] ->
  (applies = true -> forall e', calls_only (fun c => posts c = false) (rest e')) ->
  (forall h', postings h' = [] -> obeys (fun h' r => warranted e h' r) h' (rest e)) ->
  obeys (fun h' r => warranted e h' r) h (apply_first options e accountID applies status action rest).
Proof.
  intros Hh Hquiet Hrest. unfold apply_first.
  destruct (BillingEvent_Subscription e) as [subscription|] eqn:He; [|by apply Hrest].
  destruct applies; cbn [negb]; [|by apply Hrest]. cbv zeta.
  eapply obeys_then; [by apply applySubscription_posts| |].
  - intros t err Ht. eapply warranted_changed; [exact He|exact Ht].
  - intros t r Ht. eapply warranted_changed in Ht; [|exact He]. destruct Ht as [Hposted Haccepted].
    destruct (BillingEventResult_Ignored r); [by split|]. apply quiet_warranted; [by apply Hquiet|by split].
Qed.

Lemma settle_payment_quiet e accountID payment topup paymentID :
  BillingPayment_Purpose payment <> "credit_topup" ->
  calls_only (fun c => posts c = false) (settle_payment e accountID payment topup paymentID).
Proof.
  intros Hpurpose. unfold settle_payment, persistInvoice.
  destruct (String.eqb_spec (BillingPayment_Purpose payment) "credit_topup"); [done|].
  only_walk; try done; apply updateCheckout_quiet.
Qed.

Lemma topup_for_runs e payment t topup :
  runs (topup_for e payment) t (Ok (Some topup)) ->
  exists refs, BillingPayment_Refs payment = Some refs /\
    (ResolveBillingTopup (BillingEvent_Provider e) (ProviderRef_ProductID refs) (ProviderRef_PriceID refs)
       (ProviderRef_LookupKey refs) ↦ Ok (Some topup)) ∈ t.
Proof.
  unfold topup_for. destruct (BillingPayment_Refs payment) as [refs|]; [|by intros [_ [=]]].
  destruct (_ =? _); [|by intros [_ [=]]]. intros (x & t1 & -> & [-> <-]). exists refs. split; [done|left].
Qed.

Lemma out_of_bounds_false (topup : BillingTopupResult D) amount :
  out_of_bounds topup amount = false <->
  (BillingTopupResult_MinAmountMinor topup <= amount <= BillingTopupResult_MaxAmountMinor topup /\
   0 < BillingTopupResult_AmountMinor topup /\
   (amount ÷ BillingTopupResult_AmountMinor topup) * BillingTopupResult_AmountMinor topup = amount).
Proof.
  unfold out_of_bounds. rewrite !orb_false_iff, !Z.ltb_ge, Z.leb_gt, negb_false_iff, Z.eqb_eq.
  pose proof (Z.quot_rem' amount (BillingTopupResult_AmountMinor topup)). lia.
Qed.

(** The payment of a top-up, from its record on. *)
Lemma settle_topup_posts e h accountID payment refs topup upsert paymentID :
  postings h = [] -> BillingEvent_Payment e = Some payment -> BillingPayment_Purpose payment = "credit_topup" ->
  BillingPayment_Refs payment = Some refs ->
  (ResolveBillingTopup (BillingEvent_Provider e) (ProviderRef_ProductID refs) (ProviderRef_PriceID refs)
     (ProviderRef_LookupKey refs) ↦ Ok (Some topup)) ∈ h ->
  PaymentUpsert_ProviderPaymentID upsert = canonicalProviderPaymentID payment ->
  PaymentUpsert_AmountMinor upsert = BillingPayment_AmountMinor payment ->
  (UpsertBillingPaymentState upsert ↦ Ok paymentID) ∈ h ->
  obeys (fun h' r => warranted e h' r) h (settle_payment e accountID payment (Some topup) paymentID).
Proof.
  intros Hh Hpayment Hpurpose Hrefs Htopup Hid Hamount Hin. unfold settle_payment. rewrite Hpurpose. cbn [String.eqb Ascii.eqb Bool.eqb].
  unfold grant_topup. destruct (out_of_bounds _ _) eqn:Hbounds; [by apply warranted_nothing|].
  apply out_of_bounds_false in Hbounds as (Hrange & Hprice & Hquantity). cbv zeta.
  destruct (Z.ltb_spec (2 ^ 63 - 1) (BillingPayment_AmountMinor payment ÷ BillingTopupResult_AmountMinor topup)); [by apply warranted_nothing|].
  apply obeys_assoc, granting; [done| |].
  - only_walk; try done; apply updateCheckout_quiet.
  - intros t Ht. by eapply posted_topup.
Qed.

Lemma paymentSucceeded_posts options e h accountID :
  postings h = [] -> obeys (fun h' r => warranted e h' r) h (paymentSucceeded options e accountID).
Proof.
  intros Hh. unfold paymentSucceeded. destruct (accountID =? ""); [by apply warranted_nothing|].
  destruct (BillingEvent_Payment e) as [payment|] eqn:Hpayment; [|by apply warranted_nothing].
  assert (forall e', calls_only (fun c => posts c = false) (topup_for e' payment)) as Htopup_quiet.
  { intros e'. unfold topup_for. only_walk; done. }
  apply apply_first_posts; [done| |].
  - intros Hpurpose%String.eqb_eq e'. apply calls_only_bind; [done|]. intros topup. cbv zeta.
    split; [done|]. intros [paymentID|err]; [|done]. apply settle_payment_quiet. by rewrite Hpurpose.
  - clear h Hh. intros h Hh. apply quiet_first; [done|done|]. intros t1 topup Ht1 Htopup. cbv zeta. cbn [pbind].
    split; [done|]. intros [paymentID|err] _; cbn [pbind]; [|apply warranted_nothing; by rewrite seen_last].
    destruct (String.eqb_spec (BillingPayment_Purpose payment) "credit_topup") as [Hpurpose|Hpurpose].
    2: { apply quiet_warranted; [by apply settle_payment_quiet|apply warranted_nothing; by rewrite seen_last]. }
    destruct topup as [topup|].
    + destruct (topup_for_runs _ _ _ _ Htopup) as (refs & Hrefs & Hresolved).
      eapply settle_topup_posts; [by rewrite seen_last|done|done|done| | | |apply elem_of_app; right; left]; [|done..].
      apply elem_of_app; left. apply elem_of_app; by right.
    + unfold settle_payment. rewrite Hpurpose. apply warranted_nothing. by rewrite seen_last.
Qed.

Lemma paymentFailed_posts options e h accountID :
  postings h = [] -> obeys (fun h' r => warranted e h' r) h (paymentFailed options e accountID).
Proof.
  intros Hh. assert (forall e', calls_only (fun c => posts c = false)
    (updateCheckoutFromEvent e' "failed")) as Hcheckout by (intros; apply updateCheckout_quiet).
  unfold paymentFailed. apply apply_first_posts; [done|intros _ e'; only_walk; done|].
  intros h' Hh'. apply quiet_warranted; [only_walk; done|by apply warranted_nothing].
Qed.

Lemma refunding {A} e h refundID grantID amount key operation (a : A) :
  postings h = [] -> (forall x, posted e h [PostBillingRefund refundID grantID amount key ↦ x]) ->
  obeys (fun h' r => warranted e h' r) h
    (posting <~ Do (PostBillingRefund refundID grantID amount key) Done ;;
     lift (billingLifecyclePostingError operation posting) ;;~ ret a).
Proof.
  intros Hh Hposted. split; [done|]. intros x _.
  assert (forall h1, h1 = h ++ [PostBillingRefund refundID grantID amount key ↦ x] ->
            obeys (fun h' r => warranted e h' r) h1
              (pbind (Done x) (fun posting => lift (billingLifecyclePostingError operation posting) ;;~ ret a))) as Hposting;
    [|by apply Hposting].
  intros h1 Hh1.
  assert (postings h1 = [PostBillingRefund refundID grantID amount key ↦ x]) as Hseen
    by (rewrite Hh1, seen_last; cbn; by rewrite Hh).
  assert (posted e h1 (postings h1)) as Hafter by (rewrite Hseen, Hh1; by apply posted_more).
  destruct x as [posting|err]; cbn [pbind lift]; [|by split]. unfold billingLifecyclePostingError.
  destruct (String.eqb_spec (BillingCreditPostingResult_ErrorCode posting) "") as [Hcode|]; cbn [pbind]; [|by split].
  split; [done|]. intros _. rewrite Hseen. repeat constructor. by exists posting.
Qed.

(** Takes back the credits of a payment: the store's answers along the way. *)
Lemma claw_back_posts e h refund upsert refundID recorded :
  postings h = [] -> BillingEvent_Refund e = Some refund -> BillingRefund_Status refund = "succeeded" ->
  RefundUpsert_ProviderRefundID upsert = canonicalProviderRefundID refund ->
  (UpsertBillingRefundState upsert ↦ Ok refundID) ∈ h ->
  obeys (fun h' r => warranted e h' r) h (claw_back e refund refundID recorded).
Proof.
  intros Hh Hrefund Hstatus Hid Hin. unfold claw_back. split; [done|]. intros payment _.
  destruct payment as [[payment|]|err]; cbn [pbind]; [|apply warranted_nothing; by rewrite seen_last..].
  destruct (String.eqb_spec (BillingPaymentRecord_Purpose payment) "credit_topup") as [Hpurpose|]; cbn [negb];
    [|apply warranted_nothing; by rewrite seen_last].
  split; [done|]. intros grantID _.
  destruct grantID as [grantID|err]; cbn [pbind]; [|apply warranted_nothing; by rewrite !seen_last].
  destruct (String.eqb_spec grantID "") as [|Hgrant]; [apply warranted_nothing; by rewrite !seen_last|].
  apply refunding; [by rewrite !seen_last|]. intros x.
  apply (posted_refund e _ refund upsert refundID payment grantID x); try done; rewrite !elem_of_app.
  - by left; left.
  - left; right. by apply list_elem_of_singleton.
  - right. by apply list_elem_of_singleton.
Qed.

Lemma refund_event_posts e h accountID :
  postings h = [] -> obeys (fun h' r => warranted e h' r) h (refund_event e accountID).
Proof.
  intros Hh. unfold refund_event. destruct (accountID =? ""); [by apply warranted_nothing|].
  destruct (BillingEvent_Refund e) as [refund|] eqn:Hrefund; [|by apply warranted_nothing]. split; [done|].
  intros [refundID|err] _; cbn [pbind]; [|apply warranted_nothing; by rewrite seen_last].
  destruct (String.eqb_spec (BillingRefund_Status refund) "succeeded") as [Hstatus|]; cbn [negb];
    [|apply warranted_nothing; by rewrite seen_last].
  eapply claw_back_posts; [by rewrite seen_last|done|done| |apply elem_of_app; right; left]. done.
Qed.

(** What is returned does not matter. *)
Lemma warranted_same {A B} e h (r : result A) (r' : result B) : is_Ok r = is_Ok r' -> warranted e h r -> warranted e h r'.
Proof. unfold warranted. by intros ->. Qed.

Lemma leaving_posts {A B} e e' h (p : prog A) (f : A -> B) :
  (forall h' (r : result A), warranted e' h' r -> warranted e h' r) ->
  obeys (fun h' r => warranted e' h' r) h p -> obeys (fun h' r => warranted e h' r) h (r <~ p ;; ret (f r)).
Proof.
  intros He Hp. eapply obeys_then; [exact Hp| |].
  - intros t err Ht%He. by apply (warranted_same e _ (Err err : result A)).
  - intros t a Ht%He. by apply (warranted_same e _ (Ok a : result A)).
Qed.

Lemma subscription_event_posts options e h accountID status cancel action :
  postings h = [] -> obeys (fun h' r => warranted e h' r) h (subscription_event options e accountID status cancel action).
Proof.
  intros Hh. unfold subscription_event. destruct (BillingEvent_Subscription e) as [subscription|] eqn:He.
  - cbv zeta. eapply leaving_posts; [|by apply applySubscription_posts]. intros h' r Hr. by eapply warranted_changed.
  - destruct (_ || _); [by apply warranted_nothing|]. by eapply leaving_posts; [|apply applySubscription_posts].
Qed.

Lemma process_resolved_posts options e h accountID :
  postings h = [] -> obeys (fun h' r => warranted e h' r) h (process_resolved options e accountID).
Proof.
  intros Hh. assert (forall (p : prog (BillingEventResult * option (BillingSubscription D))),
    calls_only (fun c => posts c = false) p -> obeys (fun h' r => warranted e h' r) h p) as Hquiet.
  { intros p Hp. by apply quiet_warranted, warranted_nothing. }
  unfold process_resolved. cbv zeta.
  destruct (action_of _) as [[[status cancel] action]|]; [by apply subscription_event_posts|].
  destruct (oneOf _ ["customer.created"; _]); [apply Hquiet; unfold upsert_customer; only_walk; done|].
  destruct (_ =? "customer.deleted"); [by apply warranted_nothing|].
  destruct (_ =? "checkout.completed").
  { unfold checkout_completed. apply quiet_first; [done|unfold upsert_customer; only_walk; done|]. intros t [] Ht _.
    destruct (BillingEvent_Subscription e); [by eapply leaving_posts; [|apply applySubscription_posts]|].
    apply quiet_warranted; [only_walk; try done; apply updateCheckout_quiet|by apply warranted_nothing]. }
  destruct (_ =? "checkout.expired"); [apply Hquiet; only_walk; try done; apply updateCheckout_quiet|].
  destruct (_ =? "subscription.trial_will_end"); [by destruct (BillingEvent_Subscription e); apply warranted_nothing|].
  destruct (_ =? "invoice.paid").
  { apply apply_first_posts; [done|intros _ e'; unfold persistInvoice; only_walk; done|].
    intros h' Hh'. apply quiet_warranted; [unfold persistInvoice; only_walk; done|by apply warranted_nothing]. }
  destruct (oneOf _ invoice_recorded); [apply Hquiet; unfold persistInvoice; only_walk; done|].
  destruct (_ =? "invoice.upcoming"); [by apply warranted_nothing|].
  destruct (_ =? "payment.succeeded"); [by apply paymentSucceeded_posts|].
  destruct (_ =? "payment.failed"); [by apply paymentFailed_posts|].
  destruct (oneOf _ ["refund.created"; _; _]); [by eapply leaving_posts; [|apply refund_event_posts]|].
  destruct (oneOf _ ["dispute.created"; _; _]); [apply Hquiet; unfold dispute_event; only_walk; done|].
  by destruct (oneOf _ _); apply warranted_nothing.
Qed.

Lemma process_posts options e accountID :
  obeys (fun h r => warranted e h r) [] (process options e accountID).
Proof.
  unfold process. apply quiet_first; [done|done|]. intros t1 [] Ht1 _.
  apply quiet_first; [done| |].
  { unfold resolveAccount, known_account, account_or. only_walk; done. }
  intros t2 resolved Ht2 _. by apply process_resolved_posts.
Qed.
End posting.

(** ** The properties *)



(** ** Samples *)

#[local] Instance any_uuid : Uuids := { scanUUID := fun s => Ok s }.

Definition sample_topup : BillingTopupResult Ref.dec :=
  {| BillingTopupResult_TopupID := "topup_1"; BillingTopupResult_TopupKey := "credits";
     BillingTopupResult_CreditsPerUnit := lit "100"; BillingTopupResult_DepositTo := "main";
     BillingTopupResult_AmountMinor := 500; BillingTopupResult_Currency := "EUR"; BillingTopupResult_MinQuantity := 1;
     BillingTopupResult_MaxQuantity := 10; BillingTopupResult_DefaultQuantity := 1;
     BillingTopupResult_MinAmountMinor := 500; BillingTopupResult_MaxAmountMinor := 5000 |}.

(** A ledger that answers every posting with [code]. *)
Definition lifecycle_store_answers (code : string) (c : lifecycle_call Ref.dec) : lifecycle_answer c :=
  let posting := {| BillingCreditPostingResult_LedgerEntryID := "entry_1";
                    BillingCreditPostingResult_BalanceAfter := None; BillingCreditPostingResult_Replayed := false;
                    BillingCreditPostingResult_ErrorCode := code |} in
  match c with
  | LifecycleNow => sample_now
  | ProvisionedPlan _ =>
      Ok {| GetUserPlanResult_PlanKey := "basic"; GetUserPlanResult_RateCard := "";
            GetUserPlanResult_CatalogVersion := None; GetUserPlanResult_PlanAssignedAt := None |}
  | GetBillingCustomerByProvider _ _ | GetBillingPaymentByProvider _ _ | ResolveBillingOffer _ _ _ _ => Ok None
  | GetBillingSubscriptionByProvider _ _ => Ok (Some lapsed)
  | ListBillingSubscriptions _ => Ok [lapsed]
  | ResolveBillingTopup _ _ _ _ => Ok (Some sample_topup)
  | UpsertBillingPaymentState _ => Ok "payment_row"
  | UpsertBillingSubscriptionState _ | UpsertBillingRefundState _ => Ok "row_2"
  | GetBillingCreditGrantByPayment _ | CreateBillingCreditGrant _ => Ok "grant_1"
  | reconcileSubscriptionEntitlement _ _ _ _ _ _ _ _ _ => Ok subscriptionEntitlementApplied
  | UpsertBillingCustomer _ | UpsertBillingInvoiceState _ | UpsertBillingDisputeState _ | RecordConflict _
  | applyOpenBillingSubscriptionChange _ _ _ | UpdateAttemptByProviderPayment _ => Ok tt
  | expirePastDueGracePeriod _ _ _ | AdvanceCheckoutIntent _ _ => Ok true
  | GrantBillingCredit _ _ | PostBillingRefund _ _ _ _ => Ok posting
  end.

Definition sample_lifecycle : LifecycleOptions := Billing_lifecycle (sample_billing true ∅).

Definition sample_process (code : string) (e : BillingEvent Ref.dec) :=
  run (fun c (_ : unit) => (lifecycle_store_answers code c, tt)) tt (process sample_lifecycle e "").


(** A ledger that refuses fails the event. *)
Example refused_posting_fails : is_Ok (sample_process "bucket_missing" paid_event).1.2 = false.
Proof. vm_compute. reflexivity. Qed.


(** Without the check an activation without its subscription panics. *)
Example unchecked_event_panics :
  (sample_process "" (with_subscription (sample_event "subscription.activated" None) None)).1.2 = Err nil_dereference.
Proof. vm_compute. reflexivity. Qed.

(** ** A resumed subscription stays marked as ending *)

Definition sample_resumed (cancel : bool) : BillingSubscription Ref.dec :=
  {| BillingSubscription_ProviderSubscriptionID := "sub_1"; BillingSubscription_ID := ""; BillingSubscription_Provider := "stripe";
     BillingSubscription_AccountID := ""; BillingSubscription_CustomerID := ""; BillingSubscription_Plan := "";
     BillingSubscription_Status := "active"; BillingSubscription_Interval := ""; BillingSubscription_IntervalCount := 0;
     BillingSubscription_CurrentPeriodStart := None; BillingSubscription_CurrentPeriodEnd := None;
     BillingSubscription_PeriodStart := None; BillingSubscription_PeriodEnd := None; BillingSubscription_TrialEnd := None;
     BillingSubscription_CancelAt := None; BillingSubscription_EndedAt := None;
     BillingSubscription_CancelAtPeriodEnd := cancel; BillingSubscription_CanceledAt := None;
     BillingSubscription_Refs := None; BillingSubscription_Metadata := ∅ |}.

Definition stored_flags (t : list (event (@lifecycle_answer Ref.dec))) : list bool :=
  omap (fun ev => match projT1 ev with
                  | UpsertBillingSubscriptionState state => Some (CommerceSubscription_CancelAtPeriodEnd state)
                  | _ => None
                  end) t.

(** The event clears the flag and the stored one wins; so it does for an update
    that says the subscription is to go on. *)
Example resumed_subscription_still_ends :
  (fun eventType => stored_flags
     (sample_process "" (with_subscription (sample_event eventType None) (Some (sample_resumed false)))).1.1)
    <$> ["subscription.resumed"; "subscription.updated"; "subscription.cancellation_unscheduled"] = [[true]; [true]; [false]].
Proof. vm_compute. reflexivity. Qed.
