(* ===== verification/StripeEvents.v ===== *)
(** * providers/stripe/event_mapper.go: Stripe webhooks as billing events

    The adapter verifies a webhook and decodes its object with stripe-go; what
    follows turns the object into a normalized event, asking Stripe for the
    session's line items and for the subscription where the object only names
    them.  The objects of stripe-go are records of the fields the mapper reads;
    a pointer of which only the ID is read is that ID.  Their decoding is the
    class [StripeObjects]. *)

From S2P Require Export Billing.
Local Open Scope Z_scope.
Local Open Scope go_scope.

(** ** The objects of stripe-go *)

Record StripeCustomer := {
  Customer_ID : string;
  Customer_Deleted : bool;
  Customer_Email : string;
}.

Record StripeRecurring := {
  Recurring_Interval : string;
  Recurring_IntervalCount : Z;
}.

Record StripePrice := {
  Price_ID : string;
  Price_Product : option string;
  Price_Recurring : option StripeRecurring;
}.

Record StripeSubscriptionItem := {
  Item_CurrentPeriodStart : Z;
  Item_CurrentPeriodEnd : Z;
  Item_Price : option StripePrice;
}.

(** [Items] and [LineItems] hold pointers: an element is [None] when it is
    nil. *)
Record StripeSubscription := {
  Subscription_ID : string;
  Subscription_Status : string;
  Subscription_Metadata : gmap string string;
  Subscription_Customer : option StripeCustomer;
  Subscription_CancelAtPeriodEnd : bool;
  Subscription_TrialEnd : Z;
  Subscription_CancelAt : Z;
  Subscription_CanceledAt : Z;
  Subscription_EndedAt : Z;
  Subscription_Items : option (list (option StripeSubscriptionItem));
}.

(** A line item is its price. *)
Record StripeCheckoutSession := {
  Session_ID : string;
  Session_PaymentStatus : string;
  Session_Mode : string;
  Session_ClientReferenceID : string;
  Session_Metadata : gmap string string;
  Session_Customer : option StripeCustomer;
  Session_CustomerDetailsEmail : option string;
  Session_Subscription : option string;
  Session_PaymentIntent : option string;
  Session_TotalDetailsAmountTax : option Z;
  Session_AmountSubtotal : Z;
  Session_AmountTotal : Z;
  Session_Currency : string;
  Session_LineItems : option (list (option (option StripePrice)));
}.

Record StripePaymentIntent := {
  Intent_ID : string;
  Intent_Amount : Z;
  Intent_Currency : string;
  Intent_Metadata : gmap string string;
  Intent_Customer : option StripeCustomer;
}.

Record StripeDispute := {
  Dispute_ID : string;
  Dispute_PaymentIntent : option string;
  Dispute_Charge : option string;
  Dispute_Status : string;
  Dispute_Reason : string;
  Dispute_Metadata : gmap string string;
}.

(** [Parent.SubscriptionDetails]: the subscription and its metadata; a payment
    of the invoice is its payment intent. *)
Record StripeInvoice := {
  Invoice_ID : string;
  Invoice_Parent : option (option (option string * gmap string string));
  Invoice_Metadata : gmap string string;
  Invoice_Customer : option StripeCustomer;
  Invoice_Currency : string;
  Invoice_AmountPaid : Z;
  Invoice_AmountDue : Z;
  Invoice_Subtotal : Z;
  Invoice_TotalTaxes : list (option Z);
  Invoice_PeriodStart : Z;
  Invoice_PeriodEnd : Z;
  Invoice_HostedInvoiceURL : string;
  Invoice_Payments : option (list (option (option (option string))));
}.

Record StripeRefund := {
  Refund_ID : string;
  Refund_PaymentIntent : option string;
  Refund_Amount : Z;
  Refund_Currency : string;
  Refund_Status : string;
  Refund_Reason : string;
  Refund_Metadata : gmap string string;
}.

(** [Data.Raw] of an event, [None] when [Data] is nil. *)
Record StripeEvent := {
  StripeEvent_ID : string;
  StripeEvent_Type : string;
  StripeEvent_Created : Z;
  StripeEvent_Raw : option string;
}.

(** [json.Unmarshal] into an object of stripe-go. *)
Class StripeObject (A : Type) := { Unmarshal : string -> result A }.
Class StripeObjects := {
  StripeSessions :: StripeObject StripeCheckoutSession;
  StripeSubscriptions :: StripeObject StripeSubscription;
  StripePaymentIntents :: StripeObject StripePaymentIntent;
  StripeDisputes :: StripeObject StripeDispute;
  StripeInvoices :: StripeObject StripeInvoice;
  StripeRefunds :: StripeObject StripeRefund;
}.

(** What the mapper asks Stripe: [stripeWebhookResources]. *)
Inductive stripe_call :=
  | RetrieveCheckout (id : string)
  | RetrieveSubscription (id : string).

Definition stripe_answer (c : stripe_call) : Type :=
  match c with
  | RetrieveCheckout _ => result (option StripeCheckoutSession)
  | RetrieveSubscription _ => result (option StripeSubscription)
  end.

(** ** Errors, texts, times and amounts *)

Definition stripeWebhookMappingError (message : string) : error :=
  NewError message (error_options ErrorCode.ProviderResponseInvalid ErrorCategory.InvalidRequest None).
Definition stripeWebhookMappingCause (message : string) (cause : error) : error :=
  NewError message (error_options ErrorCode.ProviderResponseInvalid ErrorCategory.InvalidRequest (Some cause)).
Definition stripeWebhookResourceError (message : string) (cause : error) : error :=
  NewError message {| opt_Code := ErrorCode.ProviderResponseInvalid; opt_Category := ErrorCategory.Unavailable;
                      opt_Retryable := true; opt_Indeterminate := false; opt_Details := ∅; opt_Cause := Some cause |}.

Definition stripeUninitializedError : error :=
  NewError "Stripe provider is not initialized"
    (error_options ErrorCode.ProviderResponseInvalid ErrorCategory.Internal None).

(** [time.Unix(sec, 0).UTC()]: the seconds since year 1 are an [int64]. *)
Definition unix_to_internal : Z := 62135596800.
Definition Unix (sec : Z) : Time :=
  {| instant := (wrap64 (sec + unix_to_internal) - unix_to_internal) * Second; location := UTC |}.

Definition stripeUnixPointer (value : Z) : option Time := if value <=? 0 then None else Some (Unix value).

(** [id] of a pointer, trimmed. *)
Definition pointer_id (id : option string) : string := match id with Some id => TrimSpace id | None => "" end.
Definition stripeCustomerID (customer : option StripeCustomer) : string := pointer_id (Customer_ID <$> customer).
Definition stripeSubscriptionID (subscription : option string) : string := pointer_id subscription.
Definition stripePaymentIntentID (intent : option string) : string := pointer_id intent.
Definition stripeChargeID (charge : option string) : string := pointer_id charge.

Definition stripeRequiredWebhookText (value field : string) : result string :=
  if TrimSpace value =? "" then Err (stripeWebhookMappingError (field +:+ " must be a non-empty string"))
  else Ok (TrimSpace value).

Definition stripeMinorUnits (value : Z) (field : string) (positive : bool) : result Z :=
  if value <? (if positive then 1 else 0)
  then Err (stripeWebhookMappingError (field +:+ " must be a " +:+ (if positive then "positive" else "non-negative")
                                       +:+ " integer"))
  else Ok value.

Definition stripeCurrency (value field : string) : result string :=
  if negb (three_letters value)
  then Err (stripeWebhookMappingError (field +:+ " must be a three-letter currency code"))
  else Ok (upper_ascii value).

Definition stripeDisputeStatus (status : string) : result string :=
  if oneOf status ["needs_response"; "warning_needs_response"] then Ok "needs_response"
  else if oneOf status ["under_review"; "warning_under_review"] then Ok "under_review"
  else if oneOf status ["won"; "prevented"] then Ok "won"
  else if status =? "lost" then Ok "lost"
  else if status =? "warning_closed" then Ok "closed"
  else Err (stripeWebhookMappingError ("unsupported Stripe dispute status: " +:+ status)).

(** The loop over the taxes: the total stays an [int64]. *)
Fixpoint stripeInvoiceTaxMinor (total : Z) (taxes : list (option Z)) : result Z :=
  match taxes with
  | [] => Ok total
  | tax :: taxes =>
      let amount := default 0 tax in
      if negb (is_some tax) || (amount <? 0) || (2 ^ 63 - 1 - total <? amount)
      then Err (stripeWebhookMappingError "Stripe invoice.total_taxes must contain non-negative safe integers")
      else stripeInvoiceTaxMinor (total + amount) taxes
  end.

(** ** The parts of an event *)

Section mapper.
Context {D : Type} `{StripeObjects}.
Notation prog := (prog stripe_answer).
Implicit Types (event : StripeEvent) (metadata : gmap string string) (accountID : string).

Definition stripe_name := "stripe".

(** nil for no metadata; a nil map is read as the empty one. *)
Definition stripeMetadataAny metadata : CreditMetadata D :=
  if decide (metadata = ∅) then None else Some (AString <$> metadata).
Definition metadata_any metadata : gmap string (any D) := default ∅ (stripeMetadataAny metadata).

(** [strings.TrimSpace(metadata[key])] *)
Definition metadata_text metadata (key : string) : string := TrimSpace (default "" (metadata !! key)).

Definition stripeCustomerInfo (customerID email : string) accountID metadata : option (BillingCustomer D) :=
  if (customerID =? "") && (email =? "") then None
  else Some {| BillingCustomer_ProviderCustomerID := customerID; BillingCustomer_ID := customerID;
               BillingCustomer_AccountID := accountID; BillingCustomer_Email := email;
               BillingCustomer_Metadata := metadata_any metadata |}.

Definition stripeCheckoutCustomer (session : StripeCheckoutSession) accountID metadata : option (BillingCustomer D) :=
  let email :=
    match Session_Customer session with
    | Some customer => if Customer_Deleted customer then "" else TrimSpace (Customer_Email customer)
    | None => ""
    end in
  let email := if email =? "" then pointer_id (Session_CustomerDetailsEmail session) else email in
  stripeCustomerInfo (stripeCustomerID (Session_Customer session)) email accountID metadata.

(** The reference to a price and its product. *)
Definition price_refs (price : StripePrice) : ProviderRef :=
  {| ProviderRef_ProductID := pointer_id (Price_Product price); ProviderRef_PriceID := TrimSpace (Price_ID price);
     ProviderRef_VariantID := ""; ProviderRef_LookupKey := "" |}.

(** The first element of a list of pointers, when it is not nil. *)
Definition first_item {A} (items : option (list (option A))) : option A :=
  match items with Some (item :: _) => item | _ => None end.

(** The tax of a session and its amount without it. *)
Definition checkout_tax (session : StripeCheckoutSession) : Z := default 0 (Session_TotalDetailsAmountTax session).
Definition checkout_amount (session : StripeCheckoutSession) : Z :=
  if (Session_AmountSubtotal session =? 0)%Z && (checkout_tax session <? Session_AmountTotal session)
  then Session_AmountTotal session - checkout_tax session
  else Session_AmountSubtotal session.

Definition stripeCheckoutPayment (session expanded : StripeCheckoutSession) (status : string) accountID metadata
    : result (BillingPayment D) :=
  let paymentID := stripePaymentIntentID (Session_PaymentIntent session) in
  let paymentID := if paymentID =? "" then TrimSpace (Session_ID session) else paymentID in
  paymentID <- stripeRequiredWebhookText paymentID "Stripe checkout session payment identifier" ;;
  let tax := checkout_tax session in
  stripeMinorUnits tax "Stripe checkout session.total_details.amount_tax" false ;;;
  let amount := checkout_amount session in
  stripeMinorUnits amount "Stripe checkout session.amount_subtotal" false ;;;
  currency <- stripeCurrency (Session_Currency session) "Stripe checkout session.currency" ;;
  Ok {| BillingPayment_ProviderPaymentID := paymentID; BillingPayment_ID := paymentID;
        BillingPayment_Provider := stripe_name; BillingPayment_AccountID := accountID;
        BillingPayment_CustomerID := stripeCustomerID (Session_Customer session);
        BillingPayment_SubscriptionID := stripeSubscriptionID (Session_Subscription session);
        BillingPayment_InvoiceID := ""; BillingPayment_Status := status; BillingPayment_Currency := currency;
        BillingPayment_AmountMinor := amount; BillingPayment_TaxMinor := tax;
        BillingPayment_Purpose := if Session_Mode session =? "subscription" then "subscription" else "credit_topup";
        BillingPayment_Refs := price_refs <$> mjoin (first_item (Session_LineItems expanded));
        BillingPayment_Metadata := metadata_any metadata |}.

(** What the first item of a subscription says of its price. *)
Definition item_interval (item : StripeSubscriptionItem) : string * Z :=
  match Item_Price item ≫= Price_Recurring with
  | Some recurring =>
      (Recurring_Interval recurring,
       if (0 <? Recurring_IntervalCount recurring) && (Recurring_IntervalCount recurring <=? 2 ^ 63 - 1)
       then Recurring_IntervalCount recurring else 0)
  | None => ("", 0)
  end.

Definition stripeSubscriptionInfo (subscription : option StripeSubscription) accountID (overrideRefs : option ProviderRef)
    : result (BillingSubscription D) :=
  match subscription with
  | None => Err (stripeWebhookMappingError "Stripe subscription is required")
  | Some subscription =>
      subscriptionID <- stripeRequiredWebhookText (Subscription_ID subscription) "Stripe subscription.id" ;;
      status <- stripeRequiredWebhookText (Subscription_Status subscription) "Stripe subscription.status" ;;
      let accountID :=
        if accountID =? "" then metadata_text (Subscription_Metadata subscription) "bursar_account_id" else accountID in
      let item := first_item (Subscription_Items subscription) in
      let interval := default ("", 0) (item_interval <$> item) in
      let start := item ≫= (fun item => stripeUnixPointer (Item_CurrentPeriodStart item)) in
      let end_ := item ≫= (fun item => stripeUnixPointer (Item_CurrentPeriodEnd item)) in
      Ok {| BillingSubscription_ProviderSubscriptionID := subscriptionID; BillingSubscription_ID := subscriptionID;
            BillingSubscription_Provider := stripe_name; BillingSubscription_AccountID := accountID;
            BillingSubscription_CustomerID := stripeCustomerID (Subscription_Customer subscription);
            BillingSubscription_Plan := ""; BillingSubscription_Status := status;
            BillingSubscription_Interval := interval.1; BillingSubscription_IntervalCount := interval.2;
            BillingSubscription_CurrentPeriodStart := start; BillingSubscription_CurrentPeriodEnd := end_;
            BillingSubscription_PeriodStart := start; BillingSubscription_PeriodEnd := end_;
            BillingSubscription_TrialEnd := stripeUnixPointer (Subscription_TrialEnd subscription);
            BillingSubscription_CancelAt := stripeUnixPointer (Subscription_CancelAt subscription);
            BillingSubscription_EndedAt := stripeUnixPointer (Subscription_EndedAt subscription);
            BillingSubscription_CancelAtPeriodEnd := Subscription_CancelAtPeriodEnd subscription;
            BillingSubscription_CanceledAt := stripeUnixPointer (Subscription_CanceledAt subscription);
            BillingSubscription_Refs :=
              match overrideRefs with
              | Some refs => Some refs
              | None => price_refs <$> (item ≫= Item_Price)
              end;
            BillingSubscription_Metadata := metadata_any (Subscription_Metadata subscription) |}
  end.

Definition invoice_details (invoice : StripeInvoice) : option (option string * gmap string string) :=
  mjoin (Invoice_Parent invoice).

Definition stripeInvoiceSubscriptionID (invoice : StripeInvoice) : string :=
  stripeSubscriptionID (invoice_details invoice ≫= fst).

(** The invoice's own metadata wins. *)
Definition stripeInvoiceMetadata (invoice : StripeInvoice) : gmap string string :=
  Invoice_Metadata invoice ∪ default ∅ (snd <$> invoice_details invoice).

Definition stripeInvoicePeriods (invoice : StripeInvoice) (subscription : BillingSubscription D) : option Time * option Time :=
  (or_else (BillingSubscription_PeriodStart subscription) (stripeUnixPointer (Invoice_PeriodStart invoice)),
   or_else (BillingSubscription_PeriodEnd subscription) (stripeUnixPointer (Invoice_PeriodEnd invoice))).

(** The first payment of the invoice with a payment intent, and else the
    invoice itself. *)
Definition stripeInvoicePaymentID (invoice : StripeInvoice) : string :=
  let intents := (fun payment => stripePaymentIntentID (mjoin (mjoin payment))) <$> default [] (Invoice_Payments invoice) in
  default (TrimSpace (Invoice_ID invoice)) (List.find (fun id => negb (id =? "")) intents).

(** ** The events *)

Definition stripeDecodeEventObject {A} `{StripeObject A} event : result A :=
  match StripeEvent_Raw event with
  | Some raw =>
      if raw =? "" then Err (stripeWebhookMappingError "Stripe webhook has no event object")
      else match Unmarshal raw with
           | Ok object => Ok object
           | Err (GoPanic text) => Err (GoPanic text)
           | Err err => Err (stripeWebhookMappingCause "decode Stripe webhook event object" err)
           end
  | None => Err (stripeWebhookMappingError "Stripe webhook has no event object")
  end.

(** The parts of an event, all nil. *)
Record event_parts := {
  part_customer : option (BillingCustomer D);
  part_subscription : option (BillingSubscription D);
  part_invoice : option (BillingInvoice D);
  part_payment : option (BillingPayment D);
  part_refund : option (BillingRefund D);
  part_dispute : option (BillingDispute D);
}.

Definition stripeFinalizeEvent event (eventType : string) accountID (parts : event_parts) metadata
    : result (option (BillingEvent D)) :=
  let result :=
    {| BillingEvent_EventID := StripeEvent_ID event; BillingEvent_ID := StripeEvent_ID event;
       BillingEvent_Provider := stripe_name; BillingEvent_Type := eventType;
       BillingEvent_OccurredAt := Unix (StripeEvent_Created event); BillingEvent_AccountID := accountID;
       BillingEvent_BillingEventID := StripeEvent_ID event; BillingEvent_Customer := part_customer parts;
       BillingEvent_Subscription := part_subscription parts; BillingEvent_Invoice := part_invoice parts;
       BillingEvent_Payment := part_payment parts; BillingEvent_Refund := part_refund parts;
       BillingEvent_Dispute := part_dispute parts; BillingEvent_Metadata := stripeMetadataAny metadata |} in
  match Validate result with
  | Ok _ => Ok (Some result)
  | Err err => Err (stripeWebhookMappingCause "invalid normalized Stripe webhook" err)
  end.

Definition parts_of customer subscription invoice payment refund dispute : event_parts :=
  {| part_customer := customer; part_subscription := subscription; part_invoice := invoice; part_payment := payment;
     part_refund := refund; part_dispute := dispute |}.

(** What Stripe answers to a retrieval. *)
Definition resource {A} (message : string) (r : result A) : prog A :=
  match r with
  | Ok a => ret a
  | Err (GoPanic text) => raise (GoPanic text)
  | Err err => raise (stripeWebhookResourceError message err)
  end.

Definition session_account (session : StripeCheckoutSession) : string :=
  let reference := TrimSpace (Session_ClientReferenceID session) in
  if reference =? "" then metadata_text (Session_Metadata session) "bursar_account_id" else reference.

(** The subscription of a session, retrieved; none when the session has none. *)
Definition checkout_subscription (session : StripeCheckoutSession) (refs : option ProviderRef)
    : prog (option (BillingSubscription D)) :=
  let subscriptionID := stripeSubscriptionID (Session_Subscription session) in
  if subscriptionID =? "" then ret None
  else
    subscription <~ Do (RetrieveSubscription subscriptionID) (resource "retrieve Stripe checkout subscription") ;;
    info <~ lift (stripeSubscriptionInfo subscription (session_account session) refs) ;;
    ret (Some info).

(** A session that is completed, or whose payment failed. *)
Definition checkout_event (resources : bool) event : prog (option (BillingEvent D)) :=
  session <~ lift (stripeDecodeEventObject event) ;;
  if (StripeEvent_Type event =? "checkout.session.completed") && (Session_PaymentStatus session =? "unpaid") then ret None
  else if negb resources then raise (stripeWebhookMappingError "Stripe webhook resources are required for checkout events")
  else
    sessionID <~ lift (stripeRequiredWebhookText (Session_ID session) "Stripe checkout session.id") ;;
    expanded <~ Do (RetrieveCheckout sessionID) (resource "retrieve Stripe checkout session") ;;
    match expanded with
    | None => raise (stripeWebhookMappingError "Stripe returned no checkout session")
    | Some expanded =>
        let metadata := Session_Metadata session in
        let accountID := session_account session in
        let customer := stripeCheckoutCustomer session accountID metadata in
        let finalize eventType subscription payment :=
          lift (stripeFinalizeEvent event eventType accountID (parts_of customer subscription None payment None None) metadata) in
        let succeeded :=
          payment <~ lift (stripeCheckoutPayment session expanded "succeeded" accountID metadata) ;;
          finalize "payment.succeeded" None (Some payment) in
        if StripeEvent_Type event =? "checkout.session.async_payment_failed" then
          payment <~ lift (stripeCheckoutPayment session expanded "failed" accountID metadata) ;;
          subscription <~ checkout_subscription session None ;;
          finalize "payment.failed" subscription (Some payment)
        else if Session_Mode session =? "subscription" then
          let planSlug := metadata_text metadata "plan_slug" in
          let refs := if planSlug =? "" then None
                      else Some {| ProviderRef_ProductID := ""; ProviderRef_PriceID := ""; ProviderRef_VariantID := "";
                                   ProviderRef_LookupKey := planSlug |} in
          subscription <~ checkout_subscription session refs ;;
          match subscription with
          | Some subscription => finalize "checkout.completed" (Some subscription) None
          | None => succeeded
          end
        else succeeded
    end.

Definition checkout_expired event : result (option (BillingEvent D)) :=
  session <- stripeDecodeEventObject event ;;
  let accountID := session_account session in
  stripeFinalizeEvent event "checkout.expired" accountID
    (parts_of (stripeCheckoutCustomer session accountID (Session_Metadata session)) None None None None None)
    (Session_Metadata session).

(** The type of event a subscription webhook stands for. *)
Definition subscription_event_type (eventType : string) (subscription : StripeSubscription) : string :=
  if eventType =? "customer.subscription.created" then "subscription.created"
  else if eventType =? "customer.subscription.paused" then "subscription.paused"
  else if eventType =? "customer.subscription.resumed" then "subscription.resumed"
  else if eventType =? "customer.subscription.trial_will_end" then "subscription.trial_will_end"
  else if eventType =? "customer.subscription.updated" then
    if Subscription_Status subscription =? "canceled" then "subscription.canceled"
    else if Subscription_CancelAtPeriodEnd subscription then "subscription.cancellation_scheduled"
    else "subscription.updated"
  else if eventType =? "customer.subscription.deleted" then "subscription.canceled"
  else "subscription.updated".

(** The subscription with another status, end and period. *)
Definition change_subscription (info : BillingSubscription D) (status : string) (ended start end_ : option Time)
    : BillingSubscription D :=
  {| BillingSubscription_ProviderSubscriptionID := BillingSubscription_ProviderSubscriptionID info;
     BillingSubscription_ID := BillingSubscription_ID info; BillingSubscription_Provider := BillingSubscription_Provider info;
     BillingSubscription_AccountID := BillingSubscription_AccountID info;
     BillingSubscription_CustomerID := BillingSubscription_CustomerID info;
     BillingSubscription_Plan := BillingSubscription_Plan info; BillingSubscription_Status := status;
     BillingSubscription_Interval := BillingSubscription_Interval info;
     BillingSubscription_IntervalCount := BillingSubscription_IntervalCount info;
     BillingSubscription_CurrentPeriodStart := start; BillingSubscription_CurrentPeriodEnd := end_;
     BillingSubscription_PeriodStart := start; BillingSubscription_PeriodEnd := end_;
     BillingSubscription_TrialEnd := BillingSubscription_TrialEnd info;
     BillingSubscription_CancelAt := BillingSubscription_CancelAt info; BillingSubscription_EndedAt := ended;
     BillingSubscription_CancelAtPeriodEnd := BillingSubscription_CancelAtPeriodEnd info;
     BillingSubscription_CanceledAt := BillingSubscription_CanceledAt info;
     BillingSubscription_Refs := BillingSubscription_Refs info; BillingSubscription_Metadata := BillingSubscription_Metadata info |}.

Definition subscription_webhook event : result (option (BillingEvent D)) :=
  subscription <- stripeDecodeEventObject event ;;
  let metadata := Subscription_Metadata subscription in
  let accountID := metadata_text metadata "bursar_account_id" in
  info <- stripeSubscriptionInfo (Some subscription) accountID None ;;
  let info :=
    if StripeEvent_Type event =? "customer.subscription.deleted"
    then change_subscription info "canceled"
           (or_else (BillingSubscription_EndedAt info) (Some (Unix (StripeEvent_Created event))))
           (BillingSubscription_PeriodStart info) (BillingSubscription_PeriodEnd info)
    else info in
  let customer := stripeCustomerInfo (stripeCustomerID (Subscription_Customer subscription)) "" accountID metadata in
  stripeFinalizeEvent event (subscription_event_type (StripeEvent_Type event) subscription) accountID
    (parts_of customer (Some info) None None None None) metadata.

(** Only the payment intents of automatic recharges are reported; those of a
    checkout are by its session. *)
Definition intent_event event : result (option (BillingEvent D)) :=
  intent <- stripeDecodeEventObject event ;;
  let metadata := Intent_Metadata intent in
  if metadata_text metadata "auto_recharge_attempt_id" =? "" then Ok None
  else
    paymentID <- stripeRequiredWebhookText (Intent_ID intent) "Stripe payment intent.id" ;;
    amount <- stripeMinorUnits (Intent_Amount intent) "Stripe payment intent.amount" false ;;
    currency <- stripeCurrency (Intent_Currency intent) "Stripe payment intent.currency" ;;
    let succeeded := StripeEvent_Type event =? "payment_intent.succeeded" in
    let accountID := metadata_text metadata "bursar_account_id" in
    let payment :=
      {| BillingPayment_ProviderPaymentID := paymentID; BillingPayment_ID := paymentID;
         BillingPayment_Provider := stripe_name; BillingPayment_AccountID := accountID;
         BillingPayment_CustomerID := stripeCustomerID (Intent_Customer intent); BillingPayment_SubscriptionID := "";
         BillingPayment_InvoiceID := "";
         BillingPayment_Status :=
           if succeeded then "succeeded"
           else if StripeEvent_Type event =? "payment_intent.canceled" then "canceled" else "failed";
         BillingPayment_Currency := currency; BillingPayment_AmountMinor := amount; BillingPayment_TaxMinor := 0;
         BillingPayment_Purpose := "credit_topup";
         BillingPayment_Refs :=
           Some {| ProviderRef_ProductID := metadata_text metadata "product_id";
                   ProviderRef_PriceID := metadata_text metadata "price_id"; ProviderRef_VariantID := "";
                   ProviderRef_LookupKey := "" |};
         BillingPayment_Metadata := metadata_any metadata |} in
    stripeFinalizeEvent event (if succeeded then "payment.succeeded" else "payment.failed") accountID
      (parts_of None None None (Some payment) None None) metadata.

Definition dispute_webhook event : result (option (BillingEvent D)) :=
  dispute <- stripeDecodeEventObject event ;;
  disputeID <- stripeRequiredWebhookText (Dispute_ID dispute) "Stripe dispute.id" ;;
  let paymentID := stripePaymentIntentID (Dispute_PaymentIntent dispute) in
  let paymentID := if paymentID =? "" then stripeChargeID (Dispute_Charge dispute) else paymentID in
  paymentID <- stripeRequiredWebhookText paymentID "Stripe dispute payment identifier" ;;
  status <- stripeDisputeStatus (Dispute_Status dispute) ;;
  let metadata := Dispute_Metadata dispute in
  let info :=
    {| BillingDispute_ProviderDisputeID := disputeID; BillingDispute_ProviderPaymentID := paymentID;
       BillingDispute_ID := disputeID; BillingDispute_Provider := stripe_name; BillingDispute_PaymentID := paymentID;
       BillingDispute_Status := status; BillingDispute_Reason := Dispute_Reason dispute;
       BillingDispute_Metadata := metadata_any metadata |} in
  stripeFinalizeEvent event
    (if StripeEvent_Type event =? "charge.dispute.closed" then "dispute.closed" else "dispute.created")
    (metadata_text metadata "bursar_account_id") (parts_of None None None None None (Some info)) metadata.

(** The invoice of a subscription that was paid. *)
Definition invoice_paid_event event (invoice : StripeInvoice) accountID (subscription : BillingSubscription D)
    : result (option (BillingEvent D)) :=
  let metadata := stripeInvoiceMetadata invoice in
  let customer := stripeCustomerInfo (stripeCustomerID (Invoice_Customer invoice)) "" accountID metadata in
  invoiceID <- stripeRequiredWebhookText (Invoice_ID invoice) "Stripe invoice.id" ;;
  amountPaid <- stripeMinorUnits (Invoice_AmountPaid invoice) "Stripe invoice.amount_paid" false ;;
  amountDue <- stripeMinorUnits (Invoice_AmountDue invoice) "Stripe invoice.amount_due" false ;;
  currency <- stripeCurrency (Invoice_Currency invoice) "Stripe invoice.currency" ;;
  let '(periodStart, periodEnd) := stripeInvoicePeriods invoice subscription in
  let subscription := change_subscription subscription (BillingSubscription_Status subscription)
                        (BillingSubscription_EndedAt subscription) periodStart periodEnd in
  let info :=
    {| BillingInvoice_ProviderInvoiceID := invoiceID; BillingInvoice_ID := invoiceID;
       BillingInvoice_Provider := stripe_name; BillingInvoice_AccountID := accountID;
       BillingInvoice_SubscriptionID := stripeInvoiceSubscriptionID invoice;
       BillingInvoice_CustomerID := stripeCustomerID (Invoice_Customer invoice); BillingInvoice_Status := "paid";
       BillingInvoice_Currency := currency; BillingInvoice_AmountPaidMinor := amountPaid;
       BillingInvoice_AmountDueMinor := amountDue; BillingInvoice_PeriodStart := periodStart;
       BillingInvoice_PeriodEnd := periodEnd; BillingInvoice_HostedInvoiceURL := TrimSpace (Invoice_HostedInvoiceURL invoice);
       BillingInvoice_Metadata := metadata_any metadata |} in
  stripeFinalizeEvent event "invoice.paid" accountID (parts_of customer (Some subscription) (Some info) None None None)
    metadata.

(** The payment of a subscription's invoice that failed. *)
Definition invoice_failed_event event (invoice : StripeInvoice) accountID (subscription : BillingSubscription D)
    : result (option (BillingEvent D)) :=
  let metadata := stripeInvoiceMetadata invoice in
  let customer := stripeCustomerInfo (stripeCustomerID (Invoice_Customer invoice)) "" accountID metadata in
  let paymentID := stripeInvoicePaymentID invoice in
  amount <- stripeMinorUnits (Invoice_Subtotal invoice) "Stripe invoice.subtotal" false ;;
  tax <- stripeInvoiceTaxMinor 0 (Invoice_TotalTaxes invoice) ;;
  currency <- stripeCurrency (Invoice_Currency invoice) "Stripe invoice.currency" ;;
  let payment :=
    {| BillingPayment_ProviderPaymentID := paymentID; BillingPayment_ID := paymentID;
       BillingPayment_Provider := stripe_name; BillingPayment_AccountID := accountID;
       BillingPayment_CustomerID := stripeCustomerID (Invoice_Customer invoice);
       BillingPayment_SubscriptionID := stripeInvoiceSubscriptionID invoice;
       BillingPayment_InvoiceID := TrimSpace (Invoice_ID invoice); BillingPayment_Status := "failed";
       BillingPayment_Currency := currency; BillingPayment_AmountMinor := amount; BillingPayment_TaxMinor := tax;
       BillingPayment_Purpose := "subscription"; BillingPayment_Refs := BillingSubscription_Refs subscription;
       BillingPayment_Metadata := metadata_any metadata |} in
  stripeFinalizeEvent event "payment.failed" accountID (parts_of customer (Some subscription) None (Some payment) None None)
    metadata.

Definition invoice_event (resources : bool) event : prog (option (BillingEvent D)) :=
  invoice <~ lift (stripeDecodeEventObject event) ;;
  let subscriptionID := stripeInvoiceSubscriptionID invoice in
  if subscriptionID =? "" then ret None
  else if negb resources then raise (stripeWebhookMappingError "Stripe webhook resources are required for invoice events")
  else
    providerSubscription <~ Do (RetrieveSubscription subscriptionID) (resource "retrieve Stripe invoice subscription") ;;
    let accountID := metadata_text (stripeInvoiceMetadata invoice) "bursar_account_id" in
    let accountID :=
      if accountID =? ""
      then metadata_text (default ∅ (Subscription_Metadata <$> providerSubscription)) "bursar_account_id" else accountID in
    subscription <~ lift (stripeSubscriptionInfo providerSubscription accountID None) ;;
    lift (if StripeEvent_Type event =? "invoice.paid" then invoice_paid_event event invoice accountID subscription
          else invoice_failed_event event invoice accountID subscription).

Definition refund_webhook event : result (option (BillingEvent D)) :=
  refund <- stripeDecodeEventObject event ;;
  refundID <- stripeRequiredWebhookText (Refund_ID refund) "Stripe refund.id" ;;
  paymentID <- stripeRequiredWebhookText (stripePaymentIntentID (Refund_PaymentIntent refund)) "Stripe refund.payment_intent" ;;
  amount <- stripeMinorUnits (Refund_Amount refund) "Stripe refund.amount" true ;;
  currency <- stripeCurrency (Refund_Currency refund) "Stripe refund.currency" ;;
  let status := if oneOf (Refund_Status refund) ["succeeded"; "failed"; "canceled"] then Refund_Status refund else "pending" in
  let metadata := Refund_Metadata refund in
  let eventType := StripeEvent_Type event in
  let info :=
    {| BillingRefund_ProviderRefundID := refundID; BillingRefund_ProviderPaymentID := paymentID; BillingRefund_ID := refundID;
       BillingRefund_Provider := stripe_name; BillingRefund_PaymentID := paymentID;
       BillingRefund_Status := if eventType =? "refund.failed" then "failed" else status; BillingRefund_Currency := currency;
       BillingRefund_AmountMinor := amount; BillingRefund_Reason := Refund_Reason refund;
       BillingRefund_Metadata := metadata_any metadata |} in
  stripeFinalizeEvent event
    (if eventType =? "refund.updated" then "refund.updated"
     else if eventType =? "refund.failed" then "refund.failed" else "refund.created")
    (metadata_text metadata "bursar_account_id") (parts_of None None None None (Some info) None) metadata.

(** [mapStripeEvent]; [None] for a webhook that says nothing of billing. *)
Definition mapStripeEvent (resources : bool) event : prog (option (BillingEvent D)) :=
  let eventType := StripeEvent_Type event in
  if TrimSpace (StripeEvent_ID event) =? "" then raise (stripeWebhookMappingError "Stripe webhook event ID is required")
  else if StripeEvent_Created event <? 0
  then raise (stripeWebhookMappingError "Stripe event.created must be a non-negative Unix timestamp")
  else if oneOf eventType ["checkout.session.completed"; "checkout.session.async_payment_succeeded";
                           "checkout.session.async_payment_failed"] then checkout_event resources event
  else if eventType =? "checkout.session.expired" then lift (checkout_expired event)
  else if oneOf eventType ["customer.subscription.created"; "customer.subscription.paused"; "customer.subscription.resumed";
                           "customer.subscription.trial_will_end"; "customer.subscription.updated";
                           "customer.subscription.deleted"] then lift (subscription_webhook event)
  else if oneOf eventType ["payment_intent.succeeded"; "payment_intent.payment_failed"; "payment_intent.canceled"]
  then lift (intent_event event)
  else if oneOf eventType ["charge.dispute.created"; "charge.dispute.updated"; "charge.dispute.closed"]
  then lift (dispute_webhook event)
  else if oneOf eventType ["invoice.paid"; "invoice.payment_failed"] then invoice_event resources event
  else if oneOf eventType ["refund.created"; "refund.updated"; "refund.failed"] then lift (refund_webhook event)
  else ret None.

(** The method of a provider, whose client is the webhook's resources. *)
Definition Provider_mapStripeEvent (initialized : bool) event : prog (option (BillingEvent D)) :=
  if negb initialized then raise stripeUninitializedError else mapStripeEvent true event.
End mapper.
