(* ===== verification/DodoEvents.v ===== *)
(** * providers/dodo/event_mapper.go: Dodo webhooks as billing events

    A webhook is its type, its time and the members of its data, decoded with
    json.Decoder and UseNumber.  Dodo sends no event identifiers: an event is
    identified by its type, its object and its time to the millisecond. *)

From S2P Require Export Billing ConfigScalars.
Local Open Scope Z_scope.
Local Open Scope parse_scope.
Local Open Scope go_scope.

(** ** Texts, numbers and times *)

Definition dodoWebhookMappingError (message : string) : error :=
  NewError message (error_options ErrorCode.ProviderResponseInvalid ErrorCategory.InvalidRequest None).
Definition dodoWebhookMappingCause (message : string) (cause : error) : error :=
  NewError message (error_options ErrorCode.ProviderResponseInvalid ErrorCategory.InvalidRequest (Some cause)).
Definition refused {A} (message : string) : result A := Err (dodoWebhookMappingError message).

(** The text before the first [sub]; all of it when there is none. *)
Fixpoint before (sub s : string) : string :=
  match s with
  | String c rest => if HasPrefix s sub then "" else String c (before sub rest)
  | EmptyString => ""
  end.

(** A signed [hhmm], in seconds. *)
Definition take_numeric_offset (s : string) : option Z :=
  match s with
  | String c rest =>
      if Ascii.eqb c "+" || Ascii.eqb c "-" then
        let? (hours, s) := take_digits 2 0 rest in
        let? (minutes, s) := take_digits 2 0 s in
        if (24 <? hours) || (60 <? minutes) || negb (s =? "") then None
        else Some ((if Ascii.eqb c "-" then -1 else 1) * (hours * 60 + minutes) * 60)
      else None
  | EmptyString => None
  end.

(** A space of a layout: any number of spaces, none only at the end. *)
Fixpoint drop_spaces (s : string) : string :=
  match s with String c rest => if Ascii.eqb c " " then drop_spaces rest else s | EmptyString => s end.
Definition skip_space (s : string) : option string :=
  match s with
  | String c _ => if Ascii.eqb c " " then Some (drop_spaces s) else None
  | EmptyString => Some s
  end.

(** One of the names of a table, whatever its case; its index. *)
Fixpoint take_name (index : Z) (names : list string) (s : string) : option (Z * string) :=
  match names with
  | [] => None
  | name :: names =>
      if HasPrefix (lower_ascii s) (lower_ascii name)
      then Some (index, substring (String.length name) (String.length s - String.length name) s)
      else take_name (index + 1) names s
  end.

Definition shortDayNames := ["Sun"; "Mon"; "Tue"; "Wed"; "Thu"; "Fri"; "Sat"].
Definition shortMonthNames := ["Jan"; "Feb"; "Mar"; "Apr"; "May"; "Jun"; "Jul"; "Aug"; "Sep"; "Oct"; "Nov"; "Dec"].

(** The layout "Mon Jan 02 2006 15:04:05 GMT-0700" *)
Definition parse_date_string (s : string) : option Z :=
  let? (_, s) := take_name 0 shortDayNames s in
  let? s := skip_space s in
  let? (month, s) := take_name 1 shortMonthNames s in
  let? s := skip_space s in
  let? (day, s) := take_digits 2 0 s in
  let? s := skip_space s in
  let? (year, s) := take_digits 4 0 s in
  let? s := skip_space s in
  let? (c, s) := take_clock s in
  let? s := skip_space s in
  let? s := expect "G" s in
  let? s := expect "M" s in
  let? s := expect "T" s in
  let? offset := take_numeric_offset s in
  instant_of year month day c offset.

(** The three layouts, tried in turn; the last two without a comment. *)
Definition parse_dodo_time (text : string) : option Z :=
  foldr or_else None
    [ParseRFC3339 text; parse_instant take_numeric_offset (before " (" text); parse_date_string (before " (" text)].

(** A JSON number: an integer and a power of ten. *)
Definition take_sign (c : ascii) (s : string) : bool * string :=
  match s with String d rest => if Ascii.eqb c d then (true, rest) else (false, s) | EmptyString => (false, s) end.

Definition take_exponent (s : string) : option Z :=
  match s with
  | EmptyString => Some 0
  | String c rest =>
      if Ascii.eqb c "e" || Ascii.eqb c "E" then
        let '(negative, rest) := take_sign "-" rest in
        let rest := if (negative : bool) then rest else snd (take_sign "+" rest) in
        let '(digits, after) := span is_digit rest in
        if (digits =? "") || negb (after =? "") then None
        else Some (if negative then - digits_value 0 digits else digits_value 0 digits)
      else None
  end.

Definition json_number (text : string) : option (Z * Z) :=
  let '(negative, s) := take_sign "-" text in
  let '(whole, s) := span is_digit s in
  let '(dot, s) := take_sign "." s in
  let '(fraction, s) := if dot then span is_digit s else ("", s) in
  if (whole =? "") || (dot && (fraction =? "")) then None
  else
    let? e := take_exponent s in
    let n := digits_value 0 (whole +:+ fraction) in
    Some (if negative then - n else n, e - Z.of_nat (String.length fraction)).

(** [strconv.ParseFloat] of a JSON number: out of range from halfway between
    the largest float64 and two to the 1024th. *)
Definition float_overflow : Z := 2 ^ 1024 - 2 ^ 970.
Definition ParseFloat_ok (text : string) : bool :=
  match json_number text with
  | Some (n, e) => if e <? 0 then Z.abs n <? float_overflow * 10 ^ (- e) else Z.abs n * 10 ^ e <? float_overflow
  | None => false
  end.

Section values.
Context {D : Type}.
Implicit Types value : any D.

Definition dodoRequiredText value (field : string) : result string :=
  match value with
  | AString text => if TrimSpace text =? "" then refused (field +:+ " must be a non-empty string") else Ok (TrimSpace text)
  | _ => refused (field +:+ " must be a non-empty string")
  end.

Definition dodoOptionalText value (field : string) : result string :=
  match value with ANil => Ok "" | _ => dodoRequiredText value field end.

Fixpoint dodoFirstRequiredText (field : string) (values : list (any D)) : result string :=
  match values with
  | [] => refused (field +:+ " must be a non-empty string")
  | ANil :: values => dodoFirstRequiredText field values
  | value :: _ => dodoRequiredText value field
  end.

Definition dodoOptionalObject value (field : string) : result (option (gmap string (any D))) :=
  match value with
  | ANil => Ok None
  | AMap object => Ok (Some object)
  | _ => refused (field +:+ " must be an object")
  end.

Definition dodoOptionalBool value (field : string) : result (option bool) :=
  match value with
  | ANil => Ok None
  | ABool b => Ok (Some b)
  | _ => refused (field +:+ " must be a boolean")
  end.

(** The integer a value holds, when it does. *)
Definition minor_units value : option Z :=
  match value with
  | ANumber text => ParseInt text
  | AInt KInt64 z | AInt KInt z => Some z
  | AString text => if (text =? "") || negb (all_chars is_digit text) then None else ParseInt text
  | _ => None
  end.

Definition dodoMinorUnits value (field : string) (positive : bool) : result Z :=
  match minor_units value with
  | Some parsed =>
      if parsed <? (if positive then 1 else 0)
      then refused (field +:+ " must be a " +:+ (if positive then "positive" else "non-negative") +:+ " integer")
      else Ok parsed
  | None => refused (field +:+ " must be a " +:+ (if positive then "positive" else "non-negative") +:+ " integer")
  end.

Definition dodoCurrency value (field : string) : result string :=
  match value with
  | AString text =>
      if three_letters text then Ok (upper_ascii text) else refused (field +:+ " must be a three-letter currency code")
  | _ => refused (field +:+ " must be a three-letter currency code")
  end.

Definition dodoOptionalTime value (field : string) : result (option Time) :=
  match value with
  | ANil => Ok None
  | AString text =>
      if TrimSpace text =? "" then refused (field +:+ " must be a valid instant")
      else match parse_dodo_time (TrimSpace text) with
           | Some t => Ok (Some {| instant := t; location := UTC |})
           | None => refused (field +:+ " must be a valid instant")
           end
  | _ => refused (field +:+ " must be a valid instant")
  end.
End values.

Example parse_dodo_times :
  parse_dodo_time <$> ["2026-02-03T04:05:06.5Z"; "2026-02-03T05:05:06.500000000+0100";
                       "tue Feb 03 2026 05:05:06.5 GMT+0100 (CET)"; "2026-02-30T04:05:06Z"]
  = [Some 1770091506500000000; Some 1770091506500000000; Some 1770091506500000000; None].
Proof. vm_compute. reflexivity. Qed.

Example parse_float_range :
  ParseFloat_ok <$> ["0.5"; "-12e3"; "179769313486231580793e288"; "1e309"; "01x"] = [true; true; true; false; false].
Proof. vm_compute. reflexivity. Qed.

(** ** The parts of an event *)

Section mapper.
Context {D : Type} `{RangeOrder}.
Implicit Types (data : gmap string (any D)) (metadata : gmap string string) (accountID : string).

Definition dodo_name := "dodo".

Definition dodoBursarMetadataKeys : list string :=
  ["bursar_account_id"; "plan_slug"; "billing_interval"; "credits"; "checkout_intent_id"].

Definition float_text (f : float64) : string :=
  match f with FNaN => "NaN" | FInf negative => if negative then "-Inf" else "+Inf" | FFinite _ text => text end.

(** The text of a scalar; one of Bursar's keys holds a string. *)
Definition metadata_scalar (key : string) (value : any D) : result string :=
  let not_scalar := refused ("Dodo webhook metadata." +:+ key +:+ " must be a scalar value") in
  text <- match value with
          | AString text => Ok text
          | ABool b => Ok (if b then "true" else "false")
          | ANumber text => if ParseFloat_ok text then Ok text else not_scalar
          | AFloat f => Ok (float_text f)
          | _ => not_scalar
          end ;;
  match value with
  | AString _ => Ok text
  | _ => if oneOf key dodoBursarMetadataKeys
         then refused ("Dodo webhook metadata." +:+ key +:+ " must be a string") else Ok text
  end.

Definition add_metadata metadata (entry : string * any D) : result (gmap string string) :=
  text <- metadata_scalar entry.1 entry.2 ;; Ok (<[entry.1 := text]> metadata).

Definition dodoWebhookMetadata (value : any D) : result (gmap string string) :=
  match value with
  | ANil => Ok ∅
  | AMap object => fold_result add_metadata ∅ (range object)
  | _ => refused "Dodo webhook metadata must be an object"
  end.

Definition metadataAny metadata : CreditMetadata D := if decide (metadata = ∅) then None else Some (AString <$> metadata).
Definition metadata_map metadata : gmap string (any D) := default ∅ (metadataAny metadata).

Definition dodoCustomer data accountID metadata : result (option (BillingCustomer D)) :=
  customerObject <- dodoOptionalObject (field data "customer") "Dodo customer" ;;
  let member key := match customerObject with Some object => field object key | None => ANil end in
  customerID <- dodoOptionalText (field data "customer_id") "Dodo customer_id" ;;
  customerID <- (if customerID =? "" then dodoOptionalText (member "customer_id") "Dodo customer.customer_id" else Ok customerID) ;;
  email <- dodoOptionalText (member "email") "Dodo customer.email" ;;
  if (customerID =? "") && (email =? "") then Ok None
  else Ok (Some {| BillingCustomer_ProviderCustomerID := customerID; BillingCustomer_ID := customerID;
                   BillingCustomer_AccountID := accountID; BillingCustomer_Email := email;
                   BillingCustomer_Metadata := metadata_map metadata |}).

(** The product the data names, and else the first its cart does. *)
Fixpoint cart_product (items : list (any D)) : result string :=
  match items with
  | [] => Ok ""
  | AMap object :: items =>
      productID <- dodoOptionalText (field object "product_id") "Dodo product_cart item.product_id" ;;
      if productID =? "" then cart_product items else Ok productID
  | _ :: _ => refused "Dodo product_cart item must be an object"
  end.

Definition dodoProductID data : result string :=
  direct <- dodoOptionalText (field data "product_id") "Dodo product_id" ;;
  if negb (direct =? "") then Ok direct
  else match field data "product_cart" with
       | ANil => Ok ""
       | ASlice items => cart_product items
       | _ => refused "Dodo product_cart must be an array"
       end.

(** The first interval that is given. *)
Fixpoint first_interval (candidates : list (any D * string)) : result string :=
  match candidates with
  | [] => Ok ""
  | (value, name) :: candidates =>
      value <- dodoOptionalText value name ;;
      if value =? "" then first_interval candidates
      else if oneOf (ToLower value) ["day"; "week"; "month"; "year"] then Ok (ToLower value)
      else refused (name +:+ " must be day, week, month, or year")
  end.

Definition dodoSubscriptionInterval data metadata : result string :=
  first_interval
    ([(field data "payment_frequency_interval", "Dodo subscription.payment_frequency_interval");
      (field data "subscription_period_interval", "Dodo subscription.subscription_period_interval")]
     ++ match metadata !! "billing_interval" with
        | Some interval => [(AString interval, "Dodo metadata.billing_interval")]
        | None => []
        end).

(** [data[key]], and [data[other]] when it is nil *)
Definition field_or data (key other : string) : any D :=
  match field data key with ANil => field data other | value => value end.

Definition dodoSubscriptionIntervalCount data (interval : string) : result Z :=
  match field_or data "payment_frequency_count" "subscription_period_count" with
  | ANil => Ok (if interval =? "" then 0 else 1)
  | value =>
      if interval =? "" then refused "Dodo subscription interval count requires an interval"
      else
        parsed <- dodoMinorUnits value "Dodo subscription interval count" true ;;
        if 2 ^ 63 - 1 <? parsed then refused "Dodo subscription interval count is too large" else Ok parsed
  end.

Definition product_ref (productID lookupKey : string) : ProviderRef :=
  {| ProviderRef_ProductID := productID; ProviderRef_PriceID := ""; ProviderRef_VariantID := ""; ProviderRef_LookupKey := lookupKey |}.

Definition dodoSubscriptionRefs data metadata : result (option ProviderRef) :=
  productID <- dodoProductID data ;;
  let lookupKey := TrimSpace (default "" (metadata !! "plan_slug")) in
  Ok (if negb (productID =? "") then Some (product_ref productID "")
      else if negb (lookupKey =? "") then Some (product_ref "" lookupKey) else None).

(** A status the vocabulary does not know is left out. *)
Definition dodoSubscriptionStatus (value : any D) : result string :=
  status <- dodoRequiredText value "Dodo subscription.status" ;;
  Ok (if status =? "pending" then "incomplete"
      else if oneOf status ["trialing"; "active"; "paused"; "expired"] then status
      else if oneOf status ["on_hold"; "failed"] then "past_due"
      else if status =? "cancelled" then "canceled" else "").

(** [status], unless the member is there and says otherwise. *)
Definition status_or data (key status : string) : result string :=
  match field data key with ANil => Ok status | value => dodoSubscriptionStatus value end.

(** A subscription with everything a webhook says of it. *)
Definition make_subscription (subscriptionID : string) accountID (status interval : string) (intervalCount : Z)
    (start end_ : option Time) (cancel : bool) (refs : option ProviderRef) metadata : BillingSubscription D :=
  {| BillingSubscription_ProviderSubscriptionID := subscriptionID; BillingSubscription_ID := subscriptionID;
     BillingSubscription_Provider := dodo_name; BillingSubscription_AccountID := accountID;
     BillingSubscription_CustomerID := ""; BillingSubscription_Plan := ""; BillingSubscription_Status := status;
     BillingSubscription_Interval := interval; BillingSubscription_IntervalCount := intervalCount;
     BillingSubscription_CurrentPeriodStart := start; BillingSubscription_CurrentPeriodEnd := end_;
     BillingSubscription_PeriodStart := start; BillingSubscription_PeriodEnd := end_; BillingSubscription_TrialEnd := None;
     BillingSubscription_CancelAt := None; BillingSubscription_EndedAt := None;
     BillingSubscription_CancelAtPeriodEnd := cancel; BillingSubscription_CanceledAt := None;
     BillingSubscription_Refs := refs; BillingSubscription_Metadata := metadata_map metadata |}.

Definition dodoSubscription data metadata accountID (subscriptionID status : string) : result (BillingSubscription D) :=
  interval <- dodoSubscriptionInterval data metadata ;;
  intervalCount <- dodoSubscriptionIntervalCount data interval ;;
  periodStart <- dodoOptionalTime (field data "previous_billing_date") "Dodo subscription.previous_billing_date" ;;
  periodEnd <- dodoOptionalTime (field data "next_billing_date") "Dodo subscription.next_billing_date" ;;
  cancelAtPeriodEnd <- dodoOptionalBool (field data "cancel_at_next_billing_date")
                         "Dodo subscription.cancel_at_next_billing_date" ;;
  refs <- dodoSubscriptionRefs data metadata ;;
  Ok (make_subscription subscriptionID accountID status interval intervalCount periodStart periodEnd
        (default false cancelAtPeriodEnd) refs metadata).

(** The subscription a payment is for. *)
Definition payment_subscription data metadata accountID (subscriptionID : string) (succeeded : bool)
    : result (option (BillingSubscription D)) :=
  if subscriptionID =? "" then Ok None
  else if succeeded then
    status <- status_or data "subscription_status" "active" ;;
    periodStart <- dodoOptionalTime (field data "previous_billing_date") "Dodo payment.previous_billing_date" ;;
    periodEnd <- dodoOptionalTime (field data "next_billing_date") "Dodo payment.next_billing_date" ;;
    Ok (Some (make_subscription subscriptionID accountID status "" 0 periodStart periodEnd false None metadata))
  else Ok (Some (make_subscription subscriptionID accountID "" "" 0 None None false None metadata)).

(** What was settled for a payment that succeeded, what was asked for one that
    did not. *)
Definition dodoPayment data metadata accountID (succeeded canceled : bool)
    : result (string * BillingPayment D * option (BillingSubscription D)) :=
  paymentID <- dodoRequiredText (field data "payment_id") "Dodo payment.payment_id" ;;
  subscriptionID <- dodoOptionalText (field data "subscription_id") "Dodo payment.subscription_id" ;;
  let '(amountField, currencyField, taxField) :=
    if succeeded then ("settlement_amount", "settlement_currency", "settlement_tax")
    else ("total_amount", "currency", "tax") in
  amount <- dodoMinorUnits (field data amountField) ("Dodo payment." +:+ amountField) false ;;
  let taxValue := match field data taxField with ANil => ANumber "0" | value => value end in
  tax <- dodoMinorUnits taxValue ("Dodo payment." +:+ taxField) false ;;
  currency <- dodoCurrency (field data currencyField) ("Dodo payment." +:+ currencyField) ;;
  productID <- dodoProductID data ;;
  let payment :=
    {| BillingPayment_ProviderPaymentID := paymentID; BillingPayment_ID := paymentID; BillingPayment_Provider := dodo_name;
       BillingPayment_AccountID := accountID; BillingPayment_CustomerID := "";
       BillingPayment_SubscriptionID := subscriptionID; BillingPayment_InvoiceID := "";
       BillingPayment_Status := if succeeded then "succeeded" else if canceled then "canceled" else "failed";
       BillingPayment_Currency := currency; BillingPayment_AmountMinor := amount; BillingPayment_TaxMinor := tax;
       BillingPayment_Purpose := if subscriptionID =? "" then "credit_topup" else "subscription";
       BillingPayment_Refs := if productID =? "" then None else Some (product_ref productID "");
       BillingPayment_Metadata := metadata_map metadata |} in
  subscription <- payment_subscription data metadata accountID subscriptionID succeeded ;;
  Ok (paymentID, payment, subscription).

Definition dodoRefund data metadata (succeeded : bool) : result (string * BillingRefund D) :=
  refundID <- dodoFirstRequiredText "Dodo refund.refund_id" [field data "refund_id"; field data "id"] ;;
  paymentID <- dodoRequiredText (field data "payment_id") "Dodo refund.payment_id" ;;
  amount <- dodoMinorUnits (field_or data "refund_amount" "amount") "Dodo refund.amount" true ;;
  currency <- dodoCurrency (field data "currency") "Dodo refund.currency" ;;
  reason <- dodoOptionalText (field data "reason") "Dodo refund.reason" ;;
  Ok (refundID,
      {| BillingRefund_ProviderRefundID := refundID; BillingRefund_ProviderPaymentID := paymentID;
         BillingRefund_ID := refundID; BillingRefund_Provider := dodo_name; BillingRefund_PaymentID := paymentID;
         BillingRefund_Status := if succeeded then "succeeded" else "failed"; BillingRefund_Currency := currency;
         BillingRefund_AmountMinor := amount; BillingRefund_Reason := reason;
         BillingRefund_Metadata := metadata_map metadata |}).

Definition dodoDispute data metadata (providerType : string) : result (string * BillingDispute D) :=
  disputeID <- dodoFirstRequiredText "Dodo dispute.dispute_id" [field data "dispute_id"; field data "id"] ;;
  paymentID <- dodoRequiredText (field data "payment_id") "Dodo dispute.payment_id" ;;
  reason <- dodoOptionalText (field data "reason") "Dodo dispute.reason" ;;
  Ok (disputeID,
      {| BillingDispute_ProviderDisputeID := disputeID; BillingDispute_ProviderPaymentID := paymentID;
         BillingDispute_ID := disputeID; BillingDispute_Provider := dodo_name; BillingDispute_PaymentID := paymentID;
         BillingDispute_Status :=
           if providerType =? "dispute.opened" then "needs_response"
           else if providerType =? "dispute.challenged" then "under_review"
           else if providerType =? "dispute.won" then "won"
           else if oneOf providerType ["dispute.lost"; "dispute.accepted"] then "lost" else "closed";
         BillingDispute_Reason := reason; BillingDispute_Metadata := metadata_map metadata |}).

(** ** The events *)

Definition dodoCanonicalEventID (providerType resourceID : string) (occurredAt : Time) : string :=
  "dodo:" +:+ providerType +:+ ":" +:+ resourceID +:+ ":" +:+ FormatMillis occurredAt.

Definition dodoEventResourceID (providerType : string) data : result string :=
  let required := dodoRequiredText (D := D) in
  let identifier := "Dodo webhook object identifier" in
  if HasPrefix providerType "payment." then required (field data "payment_id") identifier
  else if HasPrefix providerType "subscription." then required (field data "subscription_id") identifier
  else if HasPrefix providerType "refund." then dodoFirstRequiredText identifier [field data "refund_id"; field data "id"]
  else if HasPrefix providerType "dispute." then dodoFirstRequiredText identifier [field data "dispute_id"; field data "id"]
  else required (field data "id") identifier.

(** The type of event each subscription webhook stands for, its status, and
    whether the data may say another. *)
Definition dodo_subscription_types : list (string * (string * string * bool)) :=
  [("subscription.active", ("subscription.created", "active", true));
   ("subscription.renewed", ("subscription.renewed", "active", false));
   ("subscription.cancelled", ("subscription.canceled", "canceled", false));
   ("subscription.expired", ("subscription.expired", "expired", false));
   ("subscription.failed", ("subscription.updated", "past_due", false));
   ("subscription.on_hold", ("subscription.updated", "past_due", false));
   ("subscription.paused", ("subscription.paused", "paused", false));
   ("subscription.updated", ("subscription.updated", "", true));
   ("subscription.plan_changed", ("subscription.plan_changed", "active", false))].

Definition dodo_dispute_types : list string :=
  ["dispute.opened"; "dispute.challenged"; "dispute.won"; "dispute.lost"; "dispute.accepted"; "dispute.cancelled";
   "dispute.expired"].

(** What a webhook says: the type of its event, its object and the part of the
    event the object is. *)
Record webhook_object := {
  object_type : string;
  object_id : string;
  object_subscription : option (BillingSubscription D);
  object_payment : option (BillingPayment D);
  object_refund : option (BillingRefund D);
  object_dispute : option (BillingDispute D);
}.

Definition dodo_object (providerType : string) data metadata accountID : result (option webhook_object) :=
  let object eventType id subscription payment refund dispute :=
    Ok (Some {| object_type := eventType; object_id := id; object_subscription := subscription; object_payment := payment;
                object_refund := refund; object_dispute := dispute |}) in
  match snd <$> List.find (fun entry => fst entry =? providerType) dodo_subscription_types with
  | Some (eventType, status, may_differ) =>
      subscriptionID <- dodoRequiredText (field data "subscription_id") "Dodo subscription.subscription_id" ;;
      status <- (if (may_differ : bool) then status_or data "status" status else Ok status) ;;
      subscription <- dodoSubscription data metadata accountID subscriptionID status ;;
      object eventType subscriptionID (Some subscription) None None None
  | None =>
      if providerType =? "payment.succeeded" then
        '(id, payment, subscription) <- dodoPayment data metadata accountID true false ;;
        object "payment.succeeded" id subscription (Some payment) None None
      else if oneOf providerType ["payment.failed"; "payment.cancelled"] then
        '(id, payment, subscription) <- dodoPayment data metadata accountID false (providerType =? "payment.cancelled") ;;
        object "payment.failed" id subscription (Some payment) None None
      else if oneOf providerType ["refund.succeeded"; "refund.failed"] then
        let succeeded := providerType =? "refund.succeeded" in
        '(id, refund) <- dodoRefund data metadata succeeded ;;
        object (if succeeded then "refund.created" else "refund.failed") id None None (Some refund) None
      else if oneOf providerType dodo_dispute_types then
        '(id, dispute) <- dodoDispute data metadata providerType ;;
        object (if oneOf providerType ["dispute.opened"; "dispute.challenged"] then "dispute.created" else "dispute.closed")
          id None None None (Some dispute)
      else Ok None
  end.

(** [data] is nil when it is [None]; [None] for a webhook that says nothing of
    billing. *)
Definition mapDodoEvent (providerType : string) (occurredAt : Time) (data : option (gmap string (any D)))
    : result (option (BillingEvent D)) :=
  match data with
  | None => refused "Dodo webhook data must be an object"
  | Some data =>
      if IsZeroTime occurredAt then refused "Dodo webhook timestamp must be a valid instant"
      else
        metadata <- dodoWebhookMetadata (field data "metadata") ;;
        let accountID := default "" (metadata !! "bursar_account_id") in
        customer <- dodoCustomer data accountID metadata ;;
        object <- dodo_object providerType data metadata accountID ;;
        match object with
        | None => Ok None
        | Some object =>
            let id := dodoCanonicalEventID providerType (object_id object) occurredAt in
            let event :=
              {| BillingEvent_EventID := id; BillingEvent_ID := id; BillingEvent_Provider := dodo_name;
                 BillingEvent_Type := object_type object; BillingEvent_OccurredAt := ToUTC occurredAt;
                 BillingEvent_AccountID := accountID; BillingEvent_BillingEventID := id; BillingEvent_Customer := customer;
                 BillingEvent_Subscription := object_subscription object; BillingEvent_Invoice := None;
                 BillingEvent_Payment := object_payment object; BillingEvent_Refund := object_refund object;
                 BillingEvent_Dispute := object_dispute object; BillingEvent_Metadata := metadataAny metadata |} in
            match Validate event with
            | Ok _ => Ok (Some event)
            | Err err => Err (dodoWebhookMappingCause "invalid normalized Dodo webhook" err)
            end
        end
  end.
End mapper.
