(* ===== verification/Webhooks.v ===== *)
(** * Webhooks: from a raw request to the event that is ingested

    HandleWebhook of providers/stripe/stripe.go and providers/dodo/dodo.go, and
    of the commerce service, which asks the provider and ingests the event it
    answers.  Verifying a signature and decoding JSON into a struct are the
    providers' libraries. *)

From S2P Require Export Commerce StripeEvents DodoEvents.
Local Open Scope Z_scope.
Local Open Scope go_scope.

(** [Header] is the function [Header.Get]. *)
Record WebhookRequest := {
  WebhookRequest_RawBody : string;
  WebhookRequest_Header : string -> string;
}.

Record WebhookResult {D : Type} := {
  WebhookResult_Received : bool;
  WebhookResult_Retryable : bool;
  WebhookResult_Provider : string;
  WebhookResult_EventID : string;
  WebhookResult_EventType : string;
  WebhookResult_Event : option (BillingEvent D);
}.
Arguments WebhookResult : clear implicits.

(** [WebhookResult{Received: true, ...}] *)
Definition received {D} (provider eventID eventType : string) (event : option (BillingEvent D)) : WebhookResult D :=
  {| WebhookResult_Received := true; WebhookResult_Retryable := false; WebhookResult_Provider := provider;
     WebhookResult_EventID := eventID; WebhookResult_EventType := eventType; WebhookResult_Event := event |}.

Definition webhook_error (message code category : string) (cause : option error) : error :=
  NewError message (error_options code category cause).
Definition webhook_refused (message : string) (cause : option error) : error :=
  webhook_error message ErrorCode.ProviderResponseInvalid ErrorCategory.InvalidRequest cause.

(** ** Stripe *)

(** [ConstructEvent] answers the event and its [Livemode]. *)
Inductive stripe_webhook_call :=
  | ConstructEvent (rawBody signature secret : string)
  | StripeResource (c : stripe_call).

Definition stripe_webhook_answer (c : stripe_webhook_call) : Type :=
  match c with
  | ConstructEvent _ _ _ => result (StripeEvent * bool)
  | StripeResource c => stripe_answer c
  end.

Record StripeProvider := {
  Stripe_HasClient : bool;
  Stripe_webhookSecret : string;
  Stripe_environment : string;
}.

Section stripe.
Context {D : Type} `{StripeObjects}.

(** What a library answered, its error wrapped. *)
Definition verified {call} {answer : call -> Type} {A} (message : string) (r : result A) : prog answer A :=
  match r with
  | Ok a => ret a
  | Err (GoPanic text) => raise (GoPanic text)
  | Err err => raise (webhook_refused message (Some err))
  end.

Definition Stripe_HandleWebhook (p : option StripeProvider) (request : WebhookRequest)
    : prog stripe_webhook_answer (WebhookResult D) :=
  let uninitialized := webhook_error "Stripe provider is not initialized" ErrorCode.ProviderResponseInvalid "" None in
  let bad_request message := webhook_error message ErrorCode.Config ErrorCategory.InvalidRequest None in
  match p with
  | None => raise uninitialized
  | Some p =>
      if Stripe_webhookSecret p =? "" then raise uninitialized
      else if WebhookRequest_RawBody request =? "" then raise (bad_request "Stripe webhook body is required")
      else
        let signature := WebhookRequest_Header request "Stripe-Signature" in
        if TrimSpace signature =? "" then raise (bad_request "Stripe-Signature header is required")
        else
          constructed <~ Do (ConstructEvent (WebhookRequest_RawBody request) signature (Stripe_webhookSecret p) : stripe_webhook_call)
                           (verified "verify Stripe webhook") ;;
          let '(event, livemode) := constructed in
          if negb (Bool.eqb (Stripe_environment p =? "live") livemode)
          then raise (webhook_refused "Stripe webhook environment does not match provider configuration" None)
          else if default "" (StripeEvent_Raw event) =? "" then raise (webhook_refused "Stripe webhook has no event data" None)
          else if StripeEvent_Created event <? 0 then raise (webhook_refused "Stripe webhook has an invalid timestamp" None)
          else
            normalized <~ embed StripeResource (fun _ x => x) (Provider_mapStripeEvent (Stripe_HasClient p) event) ;;
            ret (received stripe_name (StripeEvent_ID event) (StripeEvent_Type event) normalized)
  end.
End stripe.

(** ** Dodo *)

(** [Unwrap] answers the type and the time of the event it verified. *)
Inductive dodo_call := Unwrap (rawBody : string) (header : string -> string).
Definition dodo_answer (c : dodo_call) : Type := result (option (string * Time)).

(** [json.Decode] of a payload's type and raw data, and of the data into a
    map, which [null] makes nil. *)
Class DodoPayloads (D : Type) := {
  DecodeEnvelope : string -> result (string * string);
  DecodeObject : string -> result (option (gmap string (any D)));
}.

Section dodo.
Context {D : Type} `{RangeOrder} `{DodoPayloads D}.

Definition decodeWebhookPayload (payload : string) : result (string * option (gmap string (any D))) :=
  let wrapped {A} message (r : result A) :=
    match r with Err (GoPanic _) | Ok _ => r | Err err => Err (webhook_refused message (Some err)) end in
  '(type, data) <- wrapped "decode verified Dodo webhook" (DecodeEnvelope payload) ;;
  if data =? "" then Err (webhook_refused "Dodo webhook data is required" None)
  else
    object <- wrapped "decode verified Dodo webhook data" (DecodeObject data) ;;
    Ok (TrimSpace type, object).

Definition Dodo_HandleWebhook (initialized : bool) (request : WebhookRequest) : prog dodo_answer (WebhookResult D) :=
  if negb initialized
  then raise (webhook_error "Dodo provider is not initialized" ErrorCode.ProviderResponseInvalid "" None)
  else if WebhookRequest_RawBody request =? ""
  then raise (webhook_error "Dodo webhook body is required" ErrorCode.Config ErrorCategory.InvalidRequest None)
  else
    unwrapped <~ Do (Unwrap (WebhookRequest_RawBody request) (WebhookRequest_Header request) : dodo_call)
                   (verified "verify Dodo webhook") ;;
    match unwrapped with
    | None => raise (webhook_refused "Dodo returned no verified webhook event" None)
    | Some (type, timestamp) =>
        decoded <~ lift (decodeWebhookPayload (WebhookRequest_RawBody request)) ;;
        let '(payload_type, data) := decoded in
        if negb (payload_type =? "") && negb (payload_type =? type)
        then raise (webhook_refused "Dodo verified webhook type does not match its payload" None)
        else
          normalized <~ lift (mapDodoEvent type timestamp data) ;;
          eventID <~ match normalized with
                     | Some event => ret (BillingEvent_EventID event)
                     | None => resourceID <~ lift (dodoEventResourceID type (default ∅ data)) ;;
                               ret (dodoCanonicalEventID type resourceID timestamp)
                     end ;;
          ret (received dodo_name eventID type normalized)
    end.
End dodo.

(** ** The commerce service *)

(** The calls of a provider's [HandleWebhook] are those of its adapter. *)
Section commerce.
Context {D : Type} {adapter_call : Type} {adapter_answer : adapter_call -> Type}.

Inductive webhook_call :=
  | CommerceCall (c : commerce_call D)
  | AdapterCall (c : adapter_call)
  | BillingCall (c : billing_call D).

Definition webhook_answer (c : webhook_call) : Type :=
  match c with
  | CommerceCall c => commerce_answer c
  | AdapterCall c => adapter_answer c
  | BillingCall c => billing_answer c
  end.

Definition of_commerce {A} (p : prog (@commerce_answer D) A) : prog webhook_answer A := embed CommerceCall (fun _ x => x) p.
Definition of_adapter {A} (p : prog adapter_answer A) : prog webhook_answer A := embed AdapterCall (fun _ x => x) p.
Definition of_billing {A} (p : prog (@billing_answer D) A) : prog webhook_answer A := embed BillingCall (fun _ x => x) p.

(** The error of the ingestion is answered beside the webhook. *)
Definition HandleWebhook (adapter : Provider -> WebhookRequest -> prog adapter_answer (WebhookResult D))
    (s : option (CommerceService D)) (billing : BillingService) (providerName : string) (request : WebhookRequest)
    : prog webhook_answer (WebhookResult D * result BillingEventResult) :=
  let configured := match s with Some s => Commerce_HasProviders s && Commerce_HasBilling s | None => false end in
  if negb configured
  then raise (webhook_error "commerce is not configured" ErrorCode.CommerceNotConfigured ErrorCategory.Internal None)
  else
    providerName <~ (if TrimSpace providerName =? "" then
                       configured <~ of_commerce (of_registry (Configured true)) ;;
                       match configured with
                       | [name] => ret name
                       | _ => raise (webhook_error "webhook provider selection is ambiguous" ErrorCode.ProviderSelectionFailed
                                       ErrorCategory.InvalidRequest None)
                       end
                     else ret (TrimSpace providerName)) ;;
    provider <~ of_commerce (of_registry (Get true providerName)) ;;
    webhook <~ of_adapter (adapter provider request) ;;
    match WebhookResult_Event webhook with
    | None => raise (webhook_refused "provider accepted webhook without a normalized event" None)
    | Some event =>
        pcatch (of_billing (Ingest (Some billing) event)) (fun ingested =>
          match ingested with
          | Err (GoPanic text) => raise (GoPanic text)
          | _ => ret (webhook, ingested)
          end)
    end.
End commerce.
