(* ===== verification/WebhookFacts.v ===== *)
(** * What a webhook becomes

    [Normalizes]: what a provider's adapter promises of the event it answers.
    Both adapters keep it, and the commerce service's webhook handling is
    proved against it alone.  Then what the Stripe mapper reports as paid and
    when Stripe is asked to deliver again, and the identity of Dodo's events. *)

From S2P Require Import CommerceSamples.
From S2P Require Export Webhooks BillingFacts.
From Stdlib Require Import Eqdep_dec.
Local Open Scope Z_scope.
Local Open Scope go_scope.

(** ** The promise of an adapter *)

Section normalizing.
Context {D : Type}.

Definition normalized (w : WebhookResult D) : Prop :=
  WebhookResult_Received w = true /\
  forall e, WebhookResult_Event w = Some e ->
    Validate e = Ok tt /\ BillingEvent_Provider e = WebhookResult_Provider w /\
    canonicalEventID e = TrimSpace (WebhookResult_EventID w).

Class Normalizes {call} {answer : call -> Type} (webhook : WebhookRequest -> prog answer (WebhookResult D)) : Prop :=
  normalizes : forall request t w, runs (webhook request) t (Ok w) -> normalized w.

Lemma first_trimmed_same s : first_trimmed s s = TrimSpace s.
Proof. unfold first_trimmed. by destruct (_ =? ""). Qed.

Lemma normalized_received provider eventID eventType (event : option (BillingEvent D)) :
  (forall e, event = Some e -> Validate e = Ok tt /\ BillingEvent_Provider e = provider /\
     BillingEvent_EventID e = eventID /\ BillingEvent_ID e = eventID) ->
  normalized (received provider eventID eventType event).
Proof.
  intros Hevent. split; [done|]. cbn. intros e (Hv & Hp & Hid & Hid')%Hevent. split_and!; [done..|].
  unfold canonicalEventID. by rewrite Hid, Hid', first_trimmed_same.
Qed.
End normalizing.

(** *** Stripe *)

Section stripe.
Context {D : Type} `{StripeObjects}.
Notation prog := (prog stripe_answer).
Implicit Types (event : StripeEvent) (e : BillingEvent D).

(** An event that was finalized for this webhook. *)
Definition stripe_finalized event e : Prop :=
  Validate e = Ok tt /\ BillingEvent_Provider e = stripe_name /\ BillingEvent_EventID e = StripeEvent_ID event /\
  BillingEvent_ID e = StripeEvent_ID event /\ BillingEvent_OccurredAt e = Unix (StripeEvent_Created event).

Lemma stripeFinalizeEvent_Ok event eventType accountID parts metadata r :
  stripeFinalizeEvent (D:=D) event eventType accountID parts metadata = Ok r ->
  exists e, r = Some e /\ stripe_finalized event e /\ BillingEvent_Type e = eventType /\
    BillingEvent_AccountID e = accountID /\ BillingEvent_Payment e = part_payment parts.
Proof.
  unfold stripeFinalizeEvent. destruct (Validate _) as [[]|] eqn:Hv; [|done]. intros [= <-]. eexists. split; [done|]. done.
Qed.

(** What fails a mapping, a panic of the decoder apart: an object that is not
    what it should be, or a retrieval that failed last. *)
Definition refused_webhook (err : error) : Prop :=
  (exists message cause,
     err = NewError message (error_options ErrorCode.ProviderResponseInvalid ErrorCategory.InvalidRequest cause)) \/
  (exists text, err = GoPanic text).

Definition retrieval_error (ev : event stripe_answer) : option error :=
  match ev with
  | existT (RetrieveCheckout _) (Err err) => Some err
  | existT (RetrieveSubscription _) (Err err) => Some err
  | _ => None
  end.

Definition unretrieved (h : list (Effects.event stripe_answer)) (err : error) : Prop :=
  exists h' ev cause message,
    h = h' ++ [ev] /\ retrieval_error ev = Some cause /\
    (err = stripeWebhookResourceError message cause \/ exists text, cause = GoPanic text /\ err = cause).

Lemma mapping_refused message : refused_webhook (stripeWebhookMappingError message).
Proof. left. by eexists _, _. Qed.
Lemma mapping_cause_refused message cause : refused_webhook (stripeWebhookMappingCause message cause).
Proof. left. by eexists _, _. Qed.
Local Hint Resolve mapping_refused mapping_cause_refused : core.

Lemma required_refused value name : fails_only refused_webhook (stripeRequiredWebhookText value name).
Proof. unfold stripeRequiredWebhookText. destruct (_ =? ""); cbn; auto. Qed.
Lemma minor_refused value name positive : fails_only refused_webhook (stripeMinorUnits value name positive).
Proof. unfold stripeMinorUnits. destruct (_ <? _); cbn; auto. Qed.
Lemma currency_refused value name : fails_only refused_webhook (stripeCurrency value name).
Proof. unfold stripeCurrency. destruct (negb _); cbn; auto. Qed.
Lemma dispute_refused status : fails_only refused_webhook (stripeDisputeStatus status).
Proof. unfold stripeDisputeStatus. by repeat destruct (oneOf _ _) || destruct (_ =? _); cbn; auto. Qed.
Lemma tax_refused total taxes : fails_only refused_webhook (stripeInvoiceTaxMinor total taxes).
Proof. revert total. induction taxes as [|tax taxes IH]; intros total; cbn; [done|]. destruct (_ || _); cbn; auto. Qed.
Lemma decode_refused {A} `{StripeObject A} event : fails_only refused_webhook (stripeDecodeEventObject (A:=A) event).
Proof.
  unfold stripeDecodeEventObject. destruct (StripeEvent_Raw event) as [raw|]; cbn; [|auto].
  destruct (raw =? ""); cbn; [auto|]. destruct (Unmarshal raw) as [|[]]; cbn; auto. right. by eexists.
Qed.
Lemma finalize_refused event eventType accountID parts metadata :
  fails_only refused_webhook (stripeFinalizeEvent (D:=D) event eventType accountID parts metadata).
Proof. unfold stripeFinalizeEvent. destruct (Validate _); cbn; auto. Qed.
Lemma info_refused subscription accountID refs :
  fails_only refused_webhook (stripeSubscriptionInfo (D:=D) subscription accountID refs).
Proof.
  destruct subscription as [x|]; cbn; [|auto].
  apply fails_only_bind; [apply required_refused|]. intros id _.
  apply fails_only_bind; [apply required_refused|]. done.
Qed.
Lemma payment_refused session expanded status accountID metadata :
  fails_only refused_webhook (stripeCheckoutPayment (D:=D) session expanded status accountID metadata).
Proof.
  unfold stripeCheckoutPayment. cbv zeta. apply fails_only_bind; [apply required_refused|]. intros id _.
  apply fails_only_bind; [apply minor_refused|]. intros _ _. apply fails_only_bind; [apply minor_refused|]. intros _ _.
  apply fails_only_bind; [apply currency_refused|]. done.
Qed.

Notation event' := (Effects.event stripe_answer).
Notation "c ↦ x" := (existT c x : event') (at level 60).

(** The object of the event. *)
Definition object_of {A} `{StripeObject A} event (object : A) : Prop :=
  exists raw, StripeEvent_Raw event = Some raw /\ Unmarshal raw = Ok object.

(** The payment of a session, by what the session says; its price is the first
    one Stripe answered for that session. *)
Record session_paid (session expanded : StripeCheckoutSession) (payment : BillingPayment D) : Prop := {
  session_paid_id :
    BillingPayment_ProviderPaymentID payment =
      (if stripePaymentIntentID (Session_PaymentIntent session) =? "" then TrimSpace (Session_ID session)
       else stripePaymentIntentID (Session_PaymentIntent session));
  session_paid_amount : BillingPayment_AmountMinor payment = checkout_amount session;
  session_paid_tax : BillingPayment_TaxMinor payment = checkout_tax session;
  session_paid_bounds : 0 <= BillingPayment_AmountMinor payment /\ 0 <= BillingPayment_TaxMinor payment;
  session_paid_status : BillingPayment_Status payment = "succeeded";
  session_paid_purpose :
    BillingPayment_Purpose payment = if Session_Mode session =? "subscription" then "subscription" else "credit_topup";
  session_paid_refs : BillingPayment_Refs payment = price_refs <$> mjoin (first_item (Session_LineItems expanded));
}.

(** Why a payment is reported as succeeded: the session it is for was paid, or
    the payment intent of an automatic recharge was. *)
Inductive paid event (h : list (Effects.event stripe_answer)) e : Prop :=
  | paid_session session expanded payment :
      object_of event session ->
      StripeEvent_Type event = "checkout.session.completed" /\ Session_PaymentStatus session <> "unpaid" \/
      StripeEvent_Type event = "checkout.session.async_payment_succeeded" ->
      (RetrieveCheckout (TrimSpace (Session_ID session)) ↦ Ok (Some expanded)) ∈ h ->
      BillingEvent_Payment e = Some payment -> session_paid session expanded payment ->
      BillingEvent_AccountID e = session_account session -> paid event h e
  | paid_intent intent payment :
      object_of event intent -> StripeEvent_Type event = "payment_intent.succeeded" ->
      metadata_text (Intent_Metadata intent) "auto_recharge_attempt_id" <> "" ->
      BillingEvent_Payment e = Some payment ->
      BillingPayment_ProviderPaymentID payment = TrimSpace (Intent_ID intent) ->
      BillingPayment_AmountMinor payment = Intent_Amount intent -> 0 <= Intent_Amount intent ->
      BillingPayment_Status payment = "succeeded" -> BillingPayment_Purpose payment = "credit_topup" ->
      BillingEvent_AccountID e = metadata_text (Intent_Metadata intent) "bursar_account_id" -> paid event h e.

(** What a mapping returns after the retrievals [h]. *)
Definition mapped event (h : list (Effects.event stripe_answer)) (r : result (option (BillingEvent D))) : Prop :=
  match r with
  | Ok (Some e) => stripe_finalized event e /\ (BillingEvent_Type e = "payment.succeeded" -> paid event h e)
  | Ok None => True
  | Err err => refused_webhook err \/ unretrieved h err
  end.
Notation mapping event h p := (obeys (fun _ => True) (fun _ _ => True) (mapped event) h p).

Lemma mapping_lift {A} event h (r : result A) (k : A -> prog (option (BillingEvent D))) :
  fails_only refused_webhook r -> (forall a, r = Ok a -> mapping event h (k a)) -> mapping event h (pbind (lift r) k).
Proof. intros Hr Hk. destruct r as [a|err]; cbn; [by apply Hk|]. by left. Qed.

Lemma mapping_resource {A} event h message (r : result A) (ev : Effects.event stripe_answer) k :
  (forall err, r = Err err -> retrieval_error ev = Some err) ->
  (forall a, r = Ok a -> mapping event (h ++ [ev]) (k a)) ->
  mapping event (h ++ [ev]) (pbind (resource message r) k).
Proof.
  intros Herr Hok. destruct r as [a|err]; cbn; [by apply Hok|]. specialize (Herr _ eq_refl).
  destruct err; cbn; right; eexists h, ev, _, message; (split; [done|split; [exact Herr|]]); eauto.
Qed.

(** An event whose type is not that of a payment needs no more. *)
Lemma mapped_finalized event h eventType accountID parts metadata :
  (forall e, stripe_finalized event e -> BillingEvent_Type e = eventType -> BillingEvent_AccountID e = accountID ->
     BillingEvent_Payment e = part_payment parts -> eventType = "payment.succeeded" -> paid event h e) ->
  mapped event h (stripeFinalizeEvent event eventType accountID parts metadata).
Proof.
  intros Hpaid. destruct (stripeFinalizeEvent _ _ _ _ _) as [r|err] eqn:Hr; cbn.
  - apply stripeFinalizeEvent_Ok in Hr as (e & -> & He & Htype & Haccount & Hpayment). split; [done|].
    intros Hp. apply Hpaid; congruence.
  - left. pose proof (finalize_refused event eventType accountID parts metadata) as Hf. by rewrite Hr in Hf.
Qed.

Lemma mapped_bind {A} event h (r : result A) (k : A -> result (option (BillingEvent D))) :
  fails_only refused_webhook r -> (forall a, r = Ok a -> mapped event h (k a)) -> mapped event h (bind r k).
Proof. intros Hr Hk. destruct r as [a|err]; cbn; [by apply Hk|]. by left. Qed.

Lemma decoded {A} `{StripeObject A} event object : stripeDecodeEventObject event = Ok object -> object_of (A:=A) event object.
Proof.
  unfold stripeDecodeEventObject, object_of. destruct (StripeEvent_Raw event) as [raw|]; [|done].
  destruct (raw =? ""); [done|]. destruct (Unmarshal raw) as [|[]] eqn:Hr; [|done..]. intros [= <-]. eauto.
Qed.

Lemma required_Ok value name text : stripeRequiredWebhookText value name = Ok text -> text = TrimSpace value.
Proof. unfold stripeRequiredWebhookText. destruct (_ =? ""); [done|]. congruence. Qed.
Lemma minor_Ok value name z : stripeMinorUnits value name false = Ok z -> z = value /\ 0 <= value.
Proof. unfold stripeMinorUnits. destruct (Z.ltb_spec value 0); [done|]. intros [= <-]. lia. Qed.

Lemma checkout_payment_paid session expanded accountID metadata payment :
  stripeCheckoutPayment (D:=D) session expanded "succeeded" accountID metadata = Ok payment ->
  session_paid session expanded payment.
Proof.
  unfold stripeCheckoutPayment. cbv zeta. intros Hp. inv_bind. subst.
  apply required_Ok in Ha. apply minor_Ok in Ha0 as [_ Htax], Ha1 as [_ Hamount]. subst a. split; cbn; try done.
  destruct (_ =? "") eqn:Hid; [by rewrite TrimSpace_idem|].
  unfold stripePaymentIntentID, pointer_id in *. destruct (Session_PaymentIntent session); [apply TrimSpace_idem|done].
Qed.

Local Hint Resolve required_refused minor_refused currency_refused dispute_refused tax_refused decode_refused
  info_refused payment_refused : core.

(** The steps of a mapping that can only fail or go on. *)
Ltac step_mapped :=
  repeat first
    [ apply mapped_bind; [solve [eauto]|intros ? ?]
    | apply mapping_lift; [solve [eauto]|intros ? ?] ].

Lemma subscription_event_type_unpaid eventType subscription :
  subscription_event_type eventType subscription <> "payment.succeeded".
Proof. unfold subscription_event_type. by repeat case_match. Qed.

Lemma subscription_webhook_mapped event h : mapped event h (subscription_webhook event).
Proof.
  unfold subscription_webhook. step_mapped. cbv zeta. apply mapped_finalized. intros e _ _ _ _ Ht.
  by apply subscription_event_type_unpaid in Ht.
Qed.

Lemma checkout_expired_mapped event h : mapped event h (checkout_expired event).
Proof. unfold checkout_expired. step_mapped. cbv zeta. by apply mapped_finalized. Qed.

Lemma dispute_webhook_mapped event h : mapped event h (dispute_webhook event).
Proof.
  unfold dispute_webhook. step_mapped. cbv zeta. step_mapped. apply mapped_finalized. intros e _ _ _ _.
  by destruct (_ =? "charge.dispute.closed").
Qed.

Lemma refund_webhook_mapped event h : mapped event h (refund_webhook event).
Proof.
  unfold refund_webhook. step_mapped. cbv zeta. apply mapped_finalized. intros e _ _ _ _.
  by repeat case_match.
Qed.

Lemma intent_event_mapped event h : mapped event h (intent_event event).
Proof.
  unfold intent_event. apply mapped_bind; [auto|]. intros intent Hintent%decoded. cbv zeta.
  destruct (String.eqb_spec (metadata_text (Intent_Metadata intent) "auto_recharge_attempt_id") ""); [done|].
  apply mapped_bind; [auto|]. intros id Hid%required_Ok. apply mapped_bind; [auto|]. intros amount [-> Hamount]%minor_Ok.
  step_mapped. apply mapped_finalized. cbn. intros e _ _ Haccount Hpayment Htype.
  destruct (String.eqb_spec (StripeEvent_Type event) "payment_intent.succeeded"); [|done]. by eapply paid_intent.
Qed.

Lemma invoice_paid_event_mapped event h invoice accountID subscription :
  mapped event h (invoice_paid_event event invoice accountID subscription).
Proof.
  unfold invoice_paid_event. cbv zeta. step_mapped. destruct (stripeInvoicePeriods _ _). by apply mapped_finalized.
Qed.

Lemma invoice_failed_event_mapped event h invoice accountID subscription :
  mapped event h (invoice_failed_event event invoice accountID subscription).
Proof. unfold invoice_failed_event. cbv zeta. step_mapped. by apply mapped_finalized. Qed.

Lemma invoice_event_mapping resources event h : mapping event h (invoice_event resources event).
Proof.
  unfold invoice_event. apply mapping_lift; [auto|]. intros invoice _. cbv zeta. destruct (_ =? ""); [done|].
  destruct resources; cbn [negb]; [|by left; left; eexists _, _]. split; [done|]. intros r _.
  apply mapping_resource; [by intros err ->|]. intros subscription _. step_mapped.
  destruct (_ =? "invoice.paid"); [apply invoice_paid_event_mapped|apply invoice_failed_event_mapped].
Qed.

Lemma checkout_subscription_mapping event session refs h (k : option (BillingSubscription D) -> prog (option (BillingEvent D))) :
  (forall h' x, mapping event (h ++ h') (k x)) -> mapping event h (pbind (checkout_subscription session refs) k).
Proof.
  intros Hk. unfold checkout_subscription. cbv zeta. destruct (_ =? ""); [cbn; rewrite <- (app_nil_r h); apply Hk|].
  split; [done|]. intros r _. apply obeys_assoc, mapping_resource; [by intros err ->|]. intros subscription _.
  apply obeys_assoc, mapping_lift; [auto|]. intros info _. cbn. apply Hk.
Qed.

Lemma checkout_event_mapping resources event h :
  oneOf (StripeEvent_Type event) ["checkout.session.completed"; "checkout.session.async_payment_succeeded";
                                  "checkout.session.async_payment_failed"] = true ->
  mapping event h (checkout_event resources event).
Proof.
  intros Htype. unfold checkout_event. apply mapping_lift; [auto|]. intros session Hsession%decoded.
  destruct (_ && _) eqn:Hunpaid; [done|]. destruct resources; cbn [negb]; [|by left; left; eexists _, _].
  apply mapping_lift; [auto|]. intros id ->%required_Ok. split; [done|]. intros r _.
  apply mapping_resource; [by intros err ->|]. intros [expanded|] ->; [|by left; left; eexists _, _]. cbv zeta.
  set (h1 := h ++ _). assert ((RetrieveCheckout (TrimSpace (Session_ID session)) ↦ Ok (Some expanded)) ∈ h1) as Hin
    by (apply elem_of_app; right; left). clearbody h1.
  destruct (String.eqb_spec (StripeEvent_Type event) "checkout.session.async_payment_failed") as [Hfailed|Hnot].
  { apply mapping_lift; [auto|]. intros payment _. apply checkout_subscription_mapping. intros h' x. by apply mapped_finalized. }
  assert (forall h', mapping event (h1 ++ h')
    (payment <~ lift (stripeCheckoutPayment session expanded "succeeded" (session_account session) (Session_Metadata session)) ;;
     lift (stripeFinalizeEvent event "payment.succeeded" (session_account session)
             (parts_of (stripeCheckoutCustomer session (session_account session) (Session_Metadata session)) None None
                (Some payment) None None) (Session_Metadata session)))) as Hsucceeded.
  { intros h'. apply mapping_lift; [auto|]. intros payment Hp%checkout_payment_paid. apply mapped_finalized.
    intros e _ _ Haccount Hpayment _. apply (paid_session _ _ _ session expanded payment); try done; [|by apply elem_of_app; left].
    apply andb_false_iff in Hunpaid. unfold oneOf in Htype. cbn [existsb] in Htype.
    repeat (apply orb_true_iff in Htype as [Htype%String.eqb_eq|Htype]); [|by right|done|done].
    left. split; [done|]. destruct Hunpaid as [Hunpaid|Hunpaid]; [by rewrite Htype in Hunpaid|by apply String.eqb_neq]. }
  destruct (_ =? "subscription"); [|rewrite <- (app_nil_r h1); apply Hsucceeded].
  apply checkout_subscription_mapping. intros h' [subscription|]; [by apply mapped_finalized|apply Hsucceeded].
Qed.

Lemma mapStripeEvent_mapping resources event : mapping event [] (mapStripeEvent resources event).
Proof.
  unfold mapStripeEvent. cbv zeta. destruct (_ =? ""); [by left; left; eexists _, _|].
  destruct (_ <? 0); [by left; left; eexists _, _|].
  destruct (oneOf _ ["checkout.session.completed"; _; _]) eqn:Ht; [by apply checkout_event_mapping|].
  destruct (_ =? "checkout.session.expired"); [apply checkout_expired_mapped|].
  destruct (oneOf _ ["customer.subscription.created"; _; _; _; _; _]); [apply subscription_webhook_mapped|].
  destruct (oneOf _ ["payment_intent.succeeded"; _; _]); [apply intent_event_mapped|].
  destruct (oneOf _ ["charge.dispute.created"; _; _]); [apply dispute_webhook_mapped|].
  destruct (oneOf _ ["invoice.paid"; _]); [apply invoice_event_mapping|].
  by destruct (oneOf _ ["refund.created"; _; _]); [apply refund_webhook_mapped|].
Qed.

Lemma mapStripeEvent_runs resources event t r : runs (mapStripeEvent resources event) t r -> mapped event t r.
Proof.
  intros Hr. eapply (obeys_runs _ _ _ []) in Hr as [Hq _]; [exact Hq|apply mapStripeEvent_mapping|by apply Forall_true].
Qed.

Lemma runs_verified {call} {answer : call -> Type} {A B} message (r : result A) (k : A -> Effects.prog answer B) t b :
  runs (pbind (verified message r) k) t (Ok b) -> exists a, r = Ok a /\ runs (k a) t (Ok b).
Proof. destruct r as [a|[]]; cbn; [eauto|by intros [_ ?]..]. Qed.

#[export] Instance stripe_normalizes (p : option StripeProvider) : Normalizes (Stripe_HandleWebhook (D:=D) p).
Proof.
  intros request t w. unfold Stripe_HandleWebhook. cbv zeta. destruct p as [p|]; [|by intros [_ ?]].
  destruct (_ =? ""); [by intros [_ ?]|]. destruct (_ =? ""); [by intros [_ ?]|]. destruct (_ =? ""); [by intros [_ ?]|].
  intros (x & t' & -> & Hr). apply runs_verified in Hr as ([event livemode] & -> & Hr).
  destruct (negb _); [by destruct Hr|]. destruct (_ =? ""); [by destruct Hr|]. destruct (_ <? 0); [by destruct Hr|].
  apply runs_bind in Hr as [(t1 & mapping & t2 & Ht & Hmap & [_ [= ->]])|(err & _ & [=])]. subst.
  apply normalized_received. intros e ->. eapply embed_runs in Hmap as (t'' & _ & Hmap); [|by intros c y; exact eq_refl].
  unfold Provider_mapStripeEvent in Hmap. destruct (negb _); [by destruct Hmap|].
  by apply mapStripeEvent_runs in Hmap as [(Hv & Hp & Hid & Hid' & _) _].
Qed.
End stripe.

(** *** Dodo *)

Section dodo.
Context {D : Type} `{RangeOrder}.
Implicit Types (data : gmap string (any D)) (e : BillingEvent D).

(** A mapped event: its identity is that of the webhook. *)
Record dodo_mapped (providerType : string) (occurredAt : Time) data e : Prop := {
  dodo_valid : Validate e = Ok tt;
  dodo_provider : BillingEvent_Provider e = dodo_name;
  dodo_ids : BillingEvent_ID e = BillingEvent_EventID e;
  dodo_object_of :
    exists metadata customer object,
      dodoWebhookMetadata (field data "metadata") = Ok metadata /\
      dodoCustomer data (default "" (metadata !! "bursar_account_id")) metadata = Ok customer /\
      dodo_object providerType data metadata (default "" (metadata !! "bursar_account_id")) = Ok (Some object) /\
      BillingEvent_Type e = object_type object /\
      BillingEvent_EventID e = dodoCanonicalEventID providerType (object_id object) occurredAt;
}.

Lemma mapDodoEvent_Ok providerType occurredAt object e :
  mapDodoEvent providerType occurredAt object = Ok (Some e) ->
  exists data, object = Some data /\ dodo_mapped providerType occurredAt data e.
Proof.
  unfold mapDodoEvent. destruct object as [data|]; [|done]. destruct (IsZeroTime _); [done|]. cbv zeta. intros Hm. inv_bind.
  destruct a1 as [object|]; [|done]. destruct (Validate _) as [[]|] eqn:Hv; [|done]. injection Hm as <-.
  eexists. split; [done|]. split; try done. by eexists _, _, _.
Qed.

#[export] Instance dodo_normalizes `{DodoPayloads D} (initialized : bool) : Normalizes (Dodo_HandleWebhook (D:=D) initialized).
Proof.
  intros request t w. unfold Dodo_HandleWebhook. destruct initialized; [|by intros [_ ?]]. cbn [negb].
  destruct (_ =? ""); [by intros [_ ?]|]. intros (x & t' & -> & Hr).
  apply runs_verified in Hr as ([[type timestamp]|] & -> & Hr); [|by destruct Hr].
  destruct (decodeWebhookPayload _) as [[payload_type data]|]; [|by destruct Hr]. cbn [lift pbind] in Hr.
  destruct (_ && _); [by destruct Hr|]. destruct (mapDodoEvent _ _ _) as [event|] eqn:Hevent; [|by destruct Hr].
  cbn [lift pbind] in Hr. destruct event as [e|].
  - destruct Hr as [_ [= ->]]. apply normalized_received. intros ? [= <-].
    apply mapDodoEvent_Ok in Hevent as (object & _ & [Hv Hp Hid _]). done.
  - destruct (dodoEventResourceID _ _); [|by destruct Hr]. destruct Hr as [_ [= ->]]. by apply normalized_received.
Qed.
End dodo.

(** The object of a mapped webhook is the one [dodoEventResourceID] finds, and
    its type holds no colon. *)
Section identity.
Context {D : Type} `{RangeOrder}.
Implicit Types (data : gmap string (any D)).

Lemma required_text_name (value : any D) f1 f2 text : dodoRequiredText value f1 = Ok text -> dodoRequiredText value f2 = Ok text.
Proof. unfold dodoRequiredText. destruct value; try done. by destruct (_ =? ""). Qed.
Lemma first_text_name f1 f2 (values : list (any D)) text :
  dodoFirstRequiredText f1 values = Ok text -> dodoFirstRequiredText f2 values = Ok text.
Proof. induction values as [|[] values IH]; cbn; try done; try apply IH. by destruct (_ =? ""). Qed.

Definition dodo_types : list string :=
  (fst <$> dodo_subscription_types)
  ++ ["payment.succeeded"; "payment.failed"; "payment.cancelled"; "refund.succeeded"; "refund.failed"] ++ dodo_dispute_types.

Lemma oneOf_In s texts : oneOf s texts = true -> In s texts.
Proof. unfold oneOf. rewrite existsb_exists. by intros (x & Hx & ->%String.eqb_eq). Qed.

Lemma subscription_type_found providerType found :
  List.find (fun entry => fst entry =? providerType) dodo_subscription_types = Some found ->
  In providerType (fst <$> dodo_subscription_types).
Proof. intros [Hin Heq]%List.find_some. apply String.eqb_eq in Heq as <-. apply in_map, Hin. Qed.

Lemma dodoPayment_id data metadata accountID succeeded canceled id payment subscription :
  dodoPayment data metadata accountID succeeded canceled = Ok (id, payment, subscription) ->
  forall f, dodoRequiredText (field data "payment_id") f = Ok id.
Proof.
  unfold dodoPayment. destruct succeeded; cbv zeta; intros Hp f; inv_bind; subst; by eapply required_text_name.
Qed.
Lemma dodoRefund_id data metadata succeeded id refund :
  dodoRefund data metadata succeeded = Ok (id, refund) ->
  forall f, dodoFirstRequiredText f [field data "refund_id"; field data "id"] = Ok id.
Proof. unfold dodoRefund. intros Hp f. inv_bind. subst. by eapply first_text_name. Qed.
Lemma dodoDispute_id data metadata providerType id dispute :
  dodoDispute data metadata providerType = Ok (id, dispute) ->
  forall f, dodoFirstRequiredText f [field data "dispute_id"; field data "id"] = Ok id.
Proof. unfold dodoDispute. intros Hp f. inv_bind. subst. by eapply first_text_name. Qed.

Lemma dodo_object_known providerType data metadata accountID object :
  dodo_object providerType data metadata accountID = Ok (Some object) ->
  In providerType dodo_types /\ dodoEventResourceID providerType data = Ok (object_id object).
Proof.
  unfold dodo_object, dodo_types. rewrite !in_app_iff.
  destruct (List.find _ _) as [[type [[eventType status] differ]]|] eqn:Hfind; cbn [fmap option_fmap option_map snd].
  - apply subscription_type_found in Hfind. intros Ho. inv_bind. subst. split; [by left|]. cbn [object_id].
    repeat (destruct Hfind as [<-|Hfind]; [by eapply required_text_name|]); done.
  - clear Hfind. destruct (String.eqb_spec providerType "payment.succeeded") as [->|_].
    { intros Ho. inv_bind. destruct a as [[id payment] subscription]. inv_bind. subst. split; [cbn; tauto|].
      by eapply dodoPayment_id. }
    destruct (oneOf providerType ["payment.failed"; _]) eqn:Hpayment.
    { intros Ho. inv_bind. destruct a as [[id payment] subscription]. inv_bind. subst.
      apply oneOf_In in Hpayment as [<-|[<-|[]]]; (split; [cbn; tauto|]); by eapply dodoPayment_id. }
    destruct (oneOf providerType ["refund.succeeded"; _]) eqn:Hrefund.
    { intros Ho. inv_bind. destruct a as [id refund]. inv_bind. subst.
      apply oneOf_In in Hrefund as [<-|[<-|[]]]; (split; [cbn; tauto|]); by eapply dodoRefund_id. }
    destruct (oneOf providerType dodo_dispute_types) eqn:Hdispute; [|done].
    intros Ho. inv_bind. destruct a as [id dispute]. inv_bind. subst.
    apply oneOf_In in Hdispute. split; [by right; right|]. cbn [object_id].
    by repeat (destruct Hdispute as [<-|Hdispute]; [by eapply dodoDispute_id|]).
Qed.

(** An identity splits at its first colon and 24 characters before its end. *)
Definition no_colon (s : string) : bool := all_chars (fun c => negb (Ascii.eqb c ":")) s.

Lemma dodo_types_no_colon providerType : In providerType dodo_types -> no_colon providerType = true.
Proof. intros Hin. assert (forallb no_colon dodo_types = true) as Hall by done. rewrite forallb_forall in Hall. by apply Hall. Qed.

Lemma before_colon_inj p1 p2 r1 r2 :
  no_colon p1 = true -> no_colon p2 = true -> p1 +:+ ":" +:+ r1 = p2 +:+ ":" +:+ r2 -> p1 = p2 /\ r1 = r2.
Proof.
  unfold no_colon. revert p2. induction p1 as [|c p1 IH]; intros [|d p2] H1 H2; rewrite ?append_cons; cbn in H1, H2.
  - intros [= Heq]. by split.
  - intros [= <- _]. done.
  - intros [= -> _]. done.
  - apply andb_true_iff in H1 as [_ H1], H2 as [_ H2]. intros [= -> Heq]. by destruct (IH p2 H1 H2 Heq) as [-> ->].
Qed.

Lemma append_suffix_inj a1 a2 b1 b2 :
  String.length b1 = String.length b2 -> a1 +:+ b1 = a2 +:+ b2 -> a1 = a2 /\ b1 = b2.
Proof.
  intros Hlen. revert a2. induction a1 as [|c a1 IH]; intros [|d a2]; rewrite ?append_cons.
  - done.
  - intros Heq. change (b1 = String d (a2 +:+ b2)) in Heq. subst b1. cbn in Hlen. rewrite length_append in Hlen. lia.
  - intros Heq. change (String c (a1 +:+ b1) = b2) in Heq. subst b2. cbn in Hlen. rewrite length_append in Hlen. lia.
  - intros [= -> Heq]. by destruct (IH a2 Heq) as [-> ->].
Qed.

Lemma dodoCanonicalEventID_inj p1 p2 id1 id2 t1 t2 :
  In p1 dodo_types -> In p2 dodo_types -> four_digit_year t1 -> four_digit_year t2 ->
  dodoCanonicalEventID p1 id1 t1 = dodoCanonicalEventID p2 id2 t2 <->
  p1 = p2 /\ id1 = id2 /\ instant t1 / 1000000 = instant t2 / 1000000.
Proof.
  intros Hp1%dodo_types_no_colon Hp2%dodo_types_no_colon Ht1 Ht2. unfold dodoCanonicalEventID. split.
  - intros Heq%(inj (String.append "dodo:")). apply before_colon_inj in Heq as [-> Heq]; [|done..].
    apply append_suffix_inj in Heq as [-> Heq%(inj (String.append ":"))]; [|by rewrite !length_append, !FormatMillis_length].
    split_and!; [done..|]. apply (f_equal ParseRFC3339) in Heq. rewrite !FormatMillis_parses in Heq by done.
    injection Heq as Heq. lia.
  - intros (-> & -> & Heq). by rewrite (FormatMillis_same t1 t2).
Qed.
End identity.

(** ** From a request to the event that is ingested *)

Section handling.
Context {D : Type} {adapter_call : Type} {adapter_answer : adapter_call -> Type}.
Notation event := (event (@webhook_answer D adapter_call adapter_answer)).
Notation "c ↦ x" := (existT c x : event) (at level 60).
Implicit Types (w : WebhookResult D) (e : BillingEvent D) (t : list event).

Definition commerce_event : Effects.event (@commerce_answer D) -> event := up_event CommerceCall (fun _ x => x).
Definition adapter_event : Effects.event adapter_answer -> event := up_event AdapterCall (fun _ x => x).
Definition billing_event : Effects.event (@billing_answer D) -> event := up_event BillingCall (fun _ x => x).

Definition no_billing (ev : event) : Prop := match projT1 ev with BillingCall _ => False | _ => True end.

(** The provider a request is for: the one it names, or the only one that is
    configured when it names none. *)
Inductive selects (providerName : string) : list event -> Provider -> Prop :=
  | selects_named t provider :
      TrimSpace providerName <> "" -> runs (of_commerce (of_registry (Get true (TrimSpace providerName)))) t (Ok provider) ->
      selects providerName t provider
  | selects_only name t provider :
      TrimSpace providerName = "" -> runs (of_commerce (of_registry (Get true name))) t (Ok provider) ->
      selects providerName ((CommerceCall (Providers ConfiguredNames) ↦ [name]) :: t) provider.

(** What the handling of a webhook calls, in order, and answers.  Billing is
    called for one event alone, the one the selected provider's adapter answered
    for this request. *)
Inductive delivery (adapter : Provider -> WebhookRequest -> prog adapter_answer (WebhookResult D)) (billing : BillingService)
    (store : BillingStore) (providerName : string) (request : WebhookRequest)
    : list event -> result (WebhookResult D * result BillingEventResult) -> Prop :=
  | delivery_refused t err :
      Forall no_billing t -> delivery adapter billing store providerName request t (Err err)
  | delivery_ingested provider t1 (t2 : list (Effects.event adapter_answer)) (t3 : list (Effects.event billing_answer)) w e b r :
      selects providerName t1 provider -> runs (adapter provider request) t2 (Ok w) ->
      WebhookResult_Event w = Some e -> normalized w ->
      ingestion billing store e t3 b ->
      r = match b with Err (GoPanic text) => Err (GoPanic text) | _ => Ok (w, b) end ->
      delivery adapter billing store providerName request (t1 ++ (adapter_event <$> t2) ++ (billing_event <$> t3)) r.

Section delivering.
Context (adapter : Provider -> WebhookRequest -> prog adapter_answer (WebhookResult D)) (billing : BillingService)
  (store : BillingStore) (providerName : string) (request : WebhookRequest).
Hypothesis Hadapter : forall p, Normalizes (adapter p).
Hypothesis Hstore : Billing_store billing = Some store.
Notation delivery := (delivery adapter billing store providerName request).

Lemma commerce_no_billing {A} (p : prog (@commerce_answer D) A) t r :
  runs (of_commerce (adapter_answer:=adapter_answer) p) t r -> Forall no_billing t.
Proof.
  intros Hr. unfold of_commerce in Hr. eapply embed_runs in Hr as (t' & -> & _); [|by intros c x; exact eq_refl].
  apply Forall_fmap, Forall_true. done.
Qed.
Lemma adapter_no_billing (t : list (Effects.event adapter_answer)) : Forall no_billing (adapter_event <$> t).
Proof. apply Forall_fmap, Forall_true. done. Qed.

(** What follows once a provider was selected. *)
Lemma selected_delivery provider t1 t r :
  selects providerName t1 provider -> Forall no_billing t1 ->
  runs (webhook <~ of_adapter (adapter provider request) ;;
        match WebhookResult_Event webhook with
        | None => raise (webhook_refused "provider accepted webhook without a normalized event" None)
        | Some event =>
            pcatch (of_billing (Ingest (Some billing) event)) (fun ingested =>
              match ingested with
              | Err (GoPanic text) => raise (GoPanic text)
              | _ => ret (webhook, ingested)
              end)
        end) t r -> delivery (t1 ++ t) r.
Proof.
  intros Hselects Ht1 [(t2 & w & t3 & -> & Hw & Hr)|(err & Hw & ->)]%runs_bind;
    (eapply embed_runs in Hw as (t2' & -> & Hw); [|by intros c y; exact eq_refl]).
  2: { constructor. apply Forall_app. split; [done|]. apply adapter_no_billing. }
  destruct (WebhookResult_Event w) as [e|] eqn:He.
  2: { destruct Hr as [-> ->]. rewrite app_nil_r. constructor. apply Forall_app. split; [done|]. apply adapter_no_billing. }
  apply runs_catch in Hr as (t4 & b & t5 & -> & Hb & Hr).
  eapply embed_runs in Hb as (t4' & -> & Hb); [|by intros c y; exact eq_refl].
  assert (t5 = [] /\ r = match b with Err (GoPanic text) => Err (GoPanic text) | _ => Ok (w, b) end) as [-> Hr'].
  { destruct b as [|[]]; exact Hr. }
  rewrite app_nil_r. eapply delivery_ingested; [done..|by eapply Hadapter|by eapply Ingest_runs|done].
Qed.

Lemma HandleWebhook_runs s t r :
  runs (HandleWebhook adapter s billing providerName request) t r -> delivery t r.
Proof.
  unfold HandleWebhook. cbv zeta. destruct (negb _); [intros [-> ->]; by constructor|].
  destruct (String.eqb_spec (TrimSpace providerName) "") as [Hname|Hname].
  - intros Hr. cbn [Configured of_registry of_commerce embed pbind] in Hr. destruct Hr as (names & t' & -> & Hr).
    cbn [lift ret embed pbind] in Hr.
    destruct (sort_strings names) as [|name []] eqn:Hsort; [by destruct Hr as [-> ->]; do 2 constructor| |
      by destruct Hr as [-> ->]; do 2 constructor].
    cbn [ret pbind] in Hr. assert (names = [name]) as ->. { apply Permutation_singleton_r. by rewrite <- Hsort, sort_strings_perm. }
    apply runs_bind in Hr as [(t1 & provider & t2 & -> & Hp & Hr)|(err & Hp & ->)].
    + eapply (selected_delivery provider (_ :: t1)); [by apply selects_only| |done].
      by constructor; [|eapply commerce_no_billing].
    + do 2 constructor; [done|by eapply commerce_no_billing].
  - cbn [ret pbind]. intros [(t1 & provider & t2 & -> & Hp & Hr)|(err & Hp & ->)]%runs_bind.
    + eapply selected_delivery; [by apply selects_named| |done]. by eapply commerce_no_billing.
    + constructor. by eapply commerce_no_billing.
Qed.
End delivering.
End handling.

(** ** The properties *)

(** C37: Handling a webhook calls billing only for the event that the adapter of
    the provider the request is for answered for this very request: valid, of
    that provider and with the identity of the webhook.  What billing does is
    then exactly an ingestion of that event, and its outcome is what is
    answered beside the webhook; in every other case the handling fails without
    a call to billing. *)
Theorem HandleWebhook_ingests {D adapter_call : Type} {adapter_answer : adapter_call -> Type}
    (adapter : Provider -> WebhookRequest -> prog adapter_answer (WebhookResult D)) (s : option (CommerceService D))
    (billing : BillingService) (store : BillingStore) (providerName : string) (request : WebhookRequest)
    (t : list (event webhook_answer)) (r : result (WebhookResult D * result BillingEventResult)) :
  (forall p, Normalizes (adapter p)) -> Billing_store billing = Some store ->
  runs (HandleWebhook adapter s billing providerName request) t r ->
  delivery adapter billing store providerName request t r.
Proof. intros Hadapter Hstore. by apply HandleWebhook_runs. Qed.


(** When Stripe cannot be asked, the webhook fails in a way that has Stripe
    deliver it again (503, retryable), the failed retrieval being the last call
    that was made; an object that is not what it should be is the request's
    fault (400, not retryable). *)
Theorem stripe_errors_retry {D : Type} `{StripeObjects} (resources : bool) (ev : StripeEvent)
    (t : list (event stripe_answer)) (err : error) :
  runs (mapStripeEvent (D:=D) resources ev) t (Err err) -> (forall text, err <> GoPanic text) ->
  (ErrorHTTPStatus err = 503 /\ IsRetryableError err = true /\
     exists t' retrieval cause message, t = t' ++ [retrieval] /\ retrieval_error retrieval = Some cause /\
       err = stripeWebhookResourceError message cause) \/
  (ErrorHTTPStatus err = 400 /\ IsRetryableError err = false).
Proof.
  intros Hr%mapStripeEvent_runs Hpanic.
  destruct Hr as [[(message & cause & ->)|[text ->]]|(t' & retrieval & cause & message & -> & Hfailed & [->|(text & -> & ->)])].
  - by right.
  - by destruct (Hpanic text).
  - left. split_and!; [done..|]. by exists t', retrieval, cause, message.
  - by destruct (Hpanic text).
Qed.

(** C39: Two Dodo webhooks that are mapped have the same identity, and so are
    claimed as one event, exactly when they have the same type, are about the
    same object and are of the same millisecond. *)
Theorem mapDodoEvent_identity {D : Type} `{RangeOrder} (type1 type2 : string) (t1 t2 : Time)
    (data1 data2 : gmap string (any D)) (e1 e2 : BillingEvent D) :
  mapDodoEvent type1 t1 (Some data1) = Ok (Some e1) -> mapDodoEvent type2 t2 (Some data2) = Ok (Some e2) ->
  four_digit_year t1 -> four_digit_year t2 ->
  BillingEvent_EventID e1 = BillingEvent_EventID e2 <->
  type1 = type2 /\ dodoEventResourceID type1 data1 = dodoEventResourceID type2 data2 /\
  instant t1 / 1000000 = instant t2 / 1000000.
Proof.
  intros (? & [= <-] & [_ _ _ (m1 & c1 & o1 & _ & _ & Ho1 & _ & ->)])%mapDodoEvent_Ok
         (? & [= <-] & [_ _ _ (m2 & c2 & o2 & _ & _ & Ho2 & _ & ->)])%mapDodoEvent_Ok Ht1 Ht2.
  apply dodo_object_known in Ho1 as [Hin1 ->], Ho2 as [Hin2 ->].
  rewrite dodoCanonicalEventID_inj by done. split; [by intros (-> & -> & ->)|by intros (-> & [= ->] & ->)].
Qed.

(** ** Samples *)

(** A session of which everything but its payment is given. *)
Definition sample_session (status : string) : StripeCheckoutSession :=
  {| Session_ID := "cs_1"; Session_PaymentStatus := status; Session_Mode := "payment";
     Session_ClientReferenceID := "account_1"; Session_Metadata := ∅;
     Session_Customer := Some {| Customer_ID := "cus_1"; Customer_Deleted := false; Customer_Email := "" |};
     Session_CustomerDetailsEmail := None; Session_Subscription := None; Session_PaymentIntent := Some "pi_1";
     Session_TotalDetailsAmountTax := Some 200; Session_AmountSubtotal := 1000; Session_AmountTotal := 1200;
     Session_Currency := "eur";
     Session_LineItems :=
       Some [Some (Some {| Price_ID := "price_3"; Price_Product := Some "prod_3"; Price_Recurring := None |})] |}.

Definition no_object {A} : StripeObject A := {| Unmarshal := fun _ => Err (ExternalError "not a sample") |}.

(** The raw object of a session is its payment status. *)
Definition sample_objects : StripeObjects :=
  {| StripeSessions := {| Unmarshal := fun raw => Ok (sample_session raw) |}; StripeSubscriptions := no_object;
     StripePaymentIntents := no_object; StripeDisputes := no_object; StripeInvoices := no_object;
     StripeRefunds := no_object |}.
#[local] Existing Instances sample_objects canonical_range.

Definition sample_stripe_event (status : string) : StripeEvent :=
  {| StripeEvent_ID := "evt_1"; StripeEvent_Type := "checkout.session.completed"; StripeEvent_Created := 1709202600;
     StripeEvent_Raw := Some status |}.

(** Stripe answers its retrievals with [session]. *)
Definition stripe_answers (session : result (option StripeCheckoutSession)) (c : stripe_call) (_ : unit)
    : stripe_answer c * unit :=
  match c return stripe_answer c * unit with
  | RetrieveCheckout _ => (session, tt)
  | RetrieveSubscription _ => (Err (ExternalError "no subscription"), tt)
  end.

Definition sample_mapping (status : string) (session : result (option StripeCheckoutSession)) :=
  run (stripe_answers session) tt (mapStripeEvent (D:=Ref.dec) true (sample_stripe_event status)).

Definition sample_paid_event : option (BillingEvent Ref.dec) :=
  match (sample_mapping "paid" (Ok (Some (sample_session "paid")))).1.2 with Ok e => e | Err _ => None end.


(** An unpaid session says nothing. *)
Example unpaid_session_ignored : sample_mapping "unpaid" (Ok None) = ([], Ok None, tt).
Proof. reflexivity. Qed.

Definition stripe_unreachable : error := NewStoreUnavailableError "stripe" None.

Lemma stripe_errors_retry_witness :
  exists err, (sample_mapping "paid" (Err stripe_unreachable)).1.2 = Err err /\
  ((ErrorHTTPStatus err = 503 /\ IsRetryableError err = true /\
     exists t' retrieval cause message, (sample_mapping "paid" (Err stripe_unreachable)).1.1 = t' ++ [retrieval] /\
       retrieval_error retrieval = Some cause /\ err = stripeWebhookResourceError message cause) \/
  (ErrorHTTPStatus err = 400 /\ IsRetryableError err = false)).
Proof.
  eexists. split; [vm_compute; reflexivity|].
  eapply (stripe_errors_retry true (sample_stripe_event "paid"));
    [exact (run_runs (stripe_answers (Err stripe_unreachable)) (mapStripeEvent (D:=Ref.dec) true (sample_stripe_event "paid")) tt)|done].
Defined.

(** A refund as Dodo sends it; [millis] after the sample's second. *)
Definition sample_refund_data : gmap string (any Ref.dec) :=
  list_to_map [("refund_id", AString "ref_1"); ("payment_id", AString "pay_1"); ("amount", ANumber "500");
               ("currency", AString "eur")].
Definition sample_at (millis : Z) : Time := {| instant := 1709202600000000000 + millis * 1000000; location := UTC |}.

Lemma mapDodoEvent_identity_witness :
  exists e1 e2, mapDodoEvent "refund.succeeded" (sample_at 0) (Some sample_refund_data) = Ok (Some e1) /\
    mapDodoEvent "refund.succeeded" (sample_at 7) (Some sample_refund_data) = Ok (Some e2) /\
    BillingEvent_EventID e1 = "dodo:refund.succeeded:ref_1:2024-02-29T10:30:00.000Z" /\
    BillingEvent_EventID e1 <> BillingEvent_EventID e2.
Proof.
  destruct (mapDodoEvent "refund.succeeded" (sample_at 0) (Some sample_refund_data)) as [[e1|]|] eqn:H1;
    [|vm_compute in H1; discriminate H1..].
  destruct (mapDodoEvent "refund.succeeded" (sample_at 7) (Some sample_refund_data)) as [[e2|]|] eqn:H2;
    [|vm_compute in H2; discriminate H2..].
  exists e1, e2. split; [reflexivity|]. split; [reflexivity|].
  split; [vm_compute in H1; by injection H1 as <-|].
  intros (_ & _ & Hmillis)%(mapDodoEvent_identity _ _ _ _ _ _ _ _ H1 H2);
    [vm_compute in Hmillis; discriminate Hmillis|split; vm_compute; congruence..].
Defined.

Definition sample_adapter (_ : Provider) : WebhookRequest -> prog stripe_webhook_answer (WebhookResult Ref.dec) :=
  Stripe_HandleWebhook
    (Some {| Stripe_HasClient := true; Stripe_webhookSecret := "whsec"; Stripe_environment := "live" |}).

Definition sample_request : WebhookRequest :=
  {| WebhookRequest_RawBody := "{}"; WebhookRequest_Header := fun _ => "signature" |}.

Definition webhook_callee (status : string) (claim : BillingEventClaim) (c : webhook_call) (w : sample_world)
    : webhook_answer (D:=Ref.dec) (adapter_answer:=stripe_webhook_answer) c * sample_world :=
  match c with
  | CommerceCall c => commerce_callee change_made c w
  | AdapterCall (ConstructEvent _ _ _) => (Ok (sample_stripe_event status, true), w)
  | AdapterCall (StripeResource c) => ((stripe_answers (Ok (Some (sample_session status))) c tt).1, w)
  | BillingCall (ClaimBillingEvent _ _) => (Ok claim, w)
  | BillingCall c => (billing_store_answers (Ok tt) true c, w)
  end.

(** A request, for an event of [status] that the store claims with [claim]. *)
Definition sample_handling (status : string) (claim : BillingEventClaim) :=
  run (webhook_callee status claim) (subscribed "active")
    (HandleWebhook sample_adapter (Some sample_commerce) sample_billing_handled " mock " sample_request).

Definition duplicate_claim : BillingEventClaim :=
  {| BillingEventClaim_State := BillingEventDuplicate; BillingEventClaim_ClaimToken := "";
     BillingEventClaim_BillingEventID := ""; BillingEventClaim_Attempts := 1; BillingEventClaim_Reason := "" |}.

(** A paid session, first seen and then delivered again. *)
Lemma HandleWebhook_ingests_witness :
  (handled <- (sample_handling "paid" sample_claim).1.2 ;; handled.2) = Ok (event_result true false false false "account_1") /\
  (handled <- (sample_handling "paid" duplicate_claim).1.2 ;; handled.2) = Ok (event_result true true false false "") /\
  delivery sample_adapter sample_billing_handled (sample_billing_store false) " mock " sample_request
    (sample_handling "paid" sample_claim).1.1 (sample_handling "paid" sample_claim).1.2.
Proof.
  split; [vm_compute; reflexivity|]. split; [vm_compute; reflexivity|].
  refine (HandleWebhook_ingests sample_adapter (Some sample_commerce) sample_billing_handled (sample_billing_store false)
            " mock " sample_request (sample_handling "paid" sample_claim).1.1 (sample_handling "paid" sample_claim).1.2 _ _ _).
  - vm_compute. reflexivity.
  - exact (run_runs (webhook_callee "paid" sample_claim) _ (subscribed "active")).
Defined.

(** A webhook the mapper has nothing to say of is refused, although the
    provider accepted it. *)
Example ignored_webhook_is_refused :
  (sample_handling "unpaid" sample_claim).1.2
    = Err (webhook_refused "provider accepted webhook without a normalized event" None).
Proof. vm_compute. reflexivity. Qed.
