(* ===== verification/CommerceRecharge.v ===== *)
(** * commerce_auto_recharge.go: automatic recharge for an account

    The account-scoped surface of the commerce service: it finds the provider
    that bills the account, reads the account's balance, and hands both to the
    service of AutoRechargeService.v. *)

From S2P Require Import ConfigIntegrity CatalogServiceFacts CommerceSamples.
From S2P Require Export RechargeFacts.
From S2P Require Export CommerceManagement.
Local Open Scope Z_scope.
Local Open Scope go_scope.

(** The calls of the two services it is made of. *)
Section calls.
Context {D : Type}.

Inductive facade_call :=
  | CommerceSide (c : commerce_call D)
  | RechargeSide (c : AutoRechargeService.call D).

Definition facade_answer (c : facade_call) : Type :=
  match c with
  | CommerceSide c => commerce_answer c
  | RechargeSide c => AutoRechargeService.answer c
  end.

Definition by_commerce {A} (p : prog (@commerce_answer D) A) : prog facade_answer A := embed CommerceSide (fun _ x => x) p.
Definition by_recharge {A} (p : prog (@AutoRechargeService.answer D) A) : prog facade_answer A :=
  embed RechargeSide (fun _ x => x) p.
End calls.
Arguments facade_call : clear implicits.

Record AutoRechargeInput := {
  AutoRechargeInput_AccountID : string;
  AutoRechargeInput_ReturnURL : string;
}.

Section facade.
Context {D : Type} `{DecimalOps D} `{RangeOrder} `{TimeZones} `{Zones} `{Regexps} `{Schema D}.
Notation prog := (prog (@facade_answer D)).
Implicit Types (accountID : string) (input : AutoRechargeInput).

(** A pointer to each service, when it is set. *)
Record CommerceAutoRecharge := {
  Facade_commerce : option (CommerceService D);
  Facade_service : option AutoRechargeService;
}.
Implicit Types a : option CommerceAutoRecharge.

Definition recharge_unconfigured (message : string) : error :=
  commerce_error message ErrorCode.AutoRechargeNotConfigured ErrorCategory.Unavailable.

Definition require_ a : prog (CommerceService D * AutoRechargeService) :=
  match a with
  | Some {| Facade_commerce := Some commerce; Facade_service := Some service |} => ret (commerce, service)
  | _ => raise (recharge_unconfigured "auto-recharge is not configured")
  end.

(** The first provider that is named, when it is not blank. *)
Definition named_provider (name : option string) : option string :=
  match name with Some name => if TrimSpace name =? "" then None else Some name | None => None end.

(** The provider the state store knows of: that of the account's subscription,
    and else of its customer. *)
Definition state_provider (service : CommerceService D) accountID : prog (option string) :=
  if negb (Commerce_HasState service) then ret None
  else
    subscription <~ by_commerce (getBillingSubscription accountID currentSubscriptionStatuses) ;;
    match named_provider (CommerceSubscription_Provider <$> subscription) with
    | Some name => ret (Some name)
    | None =>
        customer <~ by_commerce (getBillingCustomer accountID "") ;;
        ret (named_provider (BillingCustomerRecord_Provider <$> customer))
    end.

(** The providers of the first eligible top-up. *)
Definition eligible_providers (config : BursarConfig D) : result (list string) :=
  match AutoRechargeGuardrails_EligibleTopups <$> CommerceConfig_AutoRecharge (BursarConfig_Commerce config) with
  | Some (topup :: _) =>
      match CommerceConfig_Offers (BursarConfig_Commerce config) !! topup with
      | Some offer =>
          if CommerceOffer_Type offer =? "topup" then
            match sortedProviderKeys (CommerceOffer_Providers offer) with
            | [] => Err (recharge_unconfigured "auto-recharge offer has no providers")
            | providers => Ok providers
            end
          else Err (recharge_unconfigured "auto-recharge has no eligible top-up offer")
      | None => Err (recharge_unconfigured "auto-recharge has no eligible top-up offer")
      end
  | _ => Err (recharge_unconfigured "auto-recharge is not configured for this catalog")
  end.

Definition autoRechargeProvider (service : CommerceService D) accountID (autoRecharge : AutoRechargeService) : prog Provider :=
  if negb (Commerce_HasProviders service)
  then raise (recharge_unconfigured "commerce providers are not configured")
  else
    profile <~ by_recharge (GetProfile (Some autoRecharge) accountID) ;;
    match named_provider (AutoRechargeProfile_Provider <$> profile) with
    | Some name => by_commerce (get_provider service name)
    | None =>
        known <~ state_provider service accountID ;;
        match known with
        | Some name => by_commerce (get_provider service name)
        | None =>
            config <~ by_commerce (catalog_config service) ;;
            providers <~ lift (eligible_providers config) ;;
            by_commerce (of_registry (Select true "" (Commerce_defaultProvider service) providers))
        end
    end.

(** The account, its provider and its balance. *)
Definition account_provider a accountID : prog (CommerceService D * AutoRechargeService * string * Provider) :=
  required <~ require_ a ;;
  let '(commerce, service) := required in
  accountID <~ lift (requireText accountID "account ID") ;;
  provider <~ autoRechargeProvider commerce accountID service ;;
  ret (commerce, service, accountID, provider).

(** [service.method(ctx, provider, AutoRechargeProcessInput{...})] with the
    balance the credit service reads. *)
Definition with_balance {A} a input
    (method : option AutoRechargeService -> option PaymentProvider -> AutoRechargeProcessInput D ->
              Effects.prog (@AutoRechargeService.answer D) A) : prog A :=
  found <~ account_provider a (AutoRechargeInput_AccountID input) ;;
  let '(commerce, service, accountID, provider) := found in
  balance <~ by_commerce (of_credit (GetBalance (Commerce_credits commerce) accountID)) ;;
  by_recharge (method (Some service) (Some (Provider_Base provider))
    {| ProcessInput_UserID := accountID; ProcessInput_Balance := BalanceResult_Balance balance;
       ProcessInput_ReturnURL := AutoRechargeInput_ReturnURL input |}).

Definition Facade_GetStatus a accountID : prog (option (AutoRechargeStatus D)) :=
  found <~ account_provider a accountID ;;
  let '(_, service, accountID, provider) := found in
  by_recharge (GetStatus (Some service) accountID (Some (Provider_Base provider))).

Definition Facade_Enable a input : prog (option (AutoRechargeStatus D)) := with_balance a input Enable.

Definition Facade_Disable a accountID : prog unit :=
  required <~ require_ a ;;
  by_recharge (Disable (Some (snd required)) accountID).

Definition Facade_Retry a input : prog processed := with_balance a input Retry.
Definition Facade_ProcessIfNeeded a input : prog processed := with_balance a input ProcessIfNeeded.
End facade.
Arguments CommerceAutoRecharge : clear implicits.

(** ** What the facade may charge *)

Section facts.
Context {D : Type} `{DecimalOps D} `{RangeOrder} `{TimeZones} `{Zones} `{Regexps} `{Schema D}.
Notation event := (event (@facade_answer D)).
Notation "c ↦ x" := (existT c x : event) (at level 60).
Implicit Types (a : option (CommerceAutoRecharge D)) (input : AutoRechargeInput).

Definition commerce_side : Effects.event (@commerce_answer D) -> event := up_event CommerceSide (fun _ x => x).
Definition recharge_side : Effects.event (@AutoRechargeService.answer D) -> event := up_event RechargeSide (fun _ x => x).

(** The calls a run makes to the recharge service's ports. *)
Definition recharge_call_of (ev : event) : option (Effects.event (@AutoRechargeService.answer D)) :=
  match ev with
  | existT (RechargeSide c) x => Some (existT c x)
  | _ => None
  end.
Definition recharge_calls (t : list event) : list (Effects.event (@AutoRechargeService.answer D)) := omap recharge_call_of t.

Lemma recharge_calls_app t1 t2 : recharge_calls (t1 ++ t2) = recharge_calls t1 ++ recharge_calls t2.
Proof. apply omap_app. Qed.
Lemma recharge_calls_recharge t : recharge_calls (recharge_side <$> t) = t.
Proof. induction t as [|[c x] t IH]; cbn; [done|]. by rewrite <- IH at 2. Qed.
Lemma recharge_calls_commerce t : recharge_calls (commerce_side <$> t) = [].
Proof. by induction t as [|[c x] t IH]. Qed.

Lemma by_commerce_runs {A} (p : Effects.prog (@commerce_answer D) A) t r :
  runs (by_commerce p) t r -> exists t', t = commerce_side <$> t' /\ runs p t' r.
Proof. intros Hr. eapply embed_runs in Hr; [exact Hr|by intros c x]. Qed.
Definition credit_side : Effects.event (@credit_answer D) -> Effects.event (@commerce_answer D) :=
  up_event (answer1:=@credit_answer D) Credit (fun _ x => x).
Lemma of_credit_runs {A} (p : Effects.prog (@credit_answer D) A) t r :
  runs (of_credit p) t r -> exists t', t = credit_side <$> t' /\ runs p t' r.
Proof. intros Hr. unfold of_credit in Hr. eapply embed_runs in Hr; [exact Hr|by intros c x]. Qed.
Lemma by_recharge_runs {A} (p : Effects.prog (@AutoRechargeService.answer D) A) t r :
  runs (by_recharge p) t r -> exists t', t = recharge_side <$> t' /\ runs p t' r.
Proof. intros Hr. eapply embed_runs in Hr; [exact Hr|by intros c x]. Qed.

(** The methods that may charge. *)
Inductive charging_method a input : forall A, prog (@facade_answer D) A -> Prop :=
  | charging_enable : charging_method a input _ (Facade_Enable a input)
  | charging_retry : charging_method a input _ (Facade_Retry a input)
  | charging_process : charging_method a input _ (Facade_ProcessIfNeeded a input).

(** A call that is not a write or a charge of the recharge service. *)
Definition reading (ev : event) : Prop := match recharge_call_of ev with Some e => quiet e | None => True end.

Lemma reading_quiet t : Forall reading t -> Forall quiet (recharge_calls t).
Proof.
  induction 1 as [|ev t Hev _ IH]; [constructor|]. unfold recharge_calls. cbn. unfold reading in Hev.
  destruct (recharge_call_of ev); [by constructor|done].
Qed.

Lemma only_reads_commerce {A} (p : Effects.prog (@commerce_answer D) A) : only reading (by_commerce p).
Proof. intros t r (t' & -> & _)%by_commerce_runs. apply Forall_fmap, Forall_true. by intros [c x]. Qed.
Lemma only_reads_recharge {A} (p : Effects.prog (@AutoRechargeService.answer D) A) : only quiet p -> only reading (by_recharge p).
Proof.
  intros Hp t r (t' & -> & Hr)%by_recharge_runs. apply Forall_fmap. eapply Forall_impl; [by eapply Hp|]. by intros [c x].
Qed.

Ltac only_reading :=
  repeat match goal with
  | |- only _ (by_commerce _) => apply only_reads_commerce
  | |- only _ (by_recharge _) => apply only_reads_recharge
  | |- only _ (lift _) => apply only_done
  | |- only _ (ret _) => apply only_done
  | |- only _ (raise _) => apply only_done
  | |- only _ (pbind _ _) => apply only_bind; [|intros ?]
  | |- only _ (if ?b then _ else _) => destruct b
  | |- only _ (match ?x with _ => _ end) => destruct x
  end.

Lemma account_provider_reads a accountID : only reading (account_provider a accountID).
Proof.
  unfold account_provider, require_, autoRechargeProvider, state_provider. cbv zeta. only_reading. apply GetProfile_quiet.
Qed.

(** Reads a balance before the recharge service is asked. *)
Lemma GetBalance_runs service userID t (balance : BalanceResult D) :
  runs (GetBalance service userID) t (Ok balance) -> (existT (StoreGetBalance userID) (Ok balance)) ∈ t.
Proof.
  unfold GetBalance, with_credits. destruct service as [s|]; [|by intros [_ ?]]. destruct (Credits_HasStore s); [|by intros [_ ?]].
  intros [(t1 & x & t2 & -> & _ & (y & t3 & -> & -> & ->))|(err & _ & [=])]%runs_bind.
  apply elem_of_app. right. by left.
Qed.

(** The recharge service's calls of a run that charged: everything before and
    after the charge only reads or records, and the charge is authorised by
    what was read for the account and the balance. *)
Definition spends (process : AutoRechargeProcessInput D) (t : list (Effects.event (@AutoRechargeService.answer D))) : Prop :=
  charges t = [] \/
  exists t1 prefix t' t2 policy payment name r,
    t = t1 ++ prefix ++ t' ++ t2 /\ charges t = charges t' /\ length (charges t') = 1%nat /\
    authorised process (TrimSpace (ProcessInput_UserID process)) name policy prefix /\
    charged (TrimSpace (ProcessInput_UserID process)) name (ProcessInput_ReturnURL process) policy payment t' r.

Lemma ProcessIfNeeded_spends s provider process t r :
  runs (ProcessIfNeeded s provider process) t r -> spends process t.
Proof.
  intros [[Hnone _]|(prefix & t' & policy & payment & name & -> & Hq & Ha & Hc & Hone)]%ProcessIfNeeded_charging; [by left|].
  pose proof (quiet_charges prefix Hq) as [Hcq _]. rewrite charges_app, Hcq in Hone. right.
  exists [], prefix, t', [], policy, payment, name, r. rewrite app_nil_r, charges_app, Hcq. split_and!; done.
Qed.

Lemma spends_around process t1 t2 t3 : charges t1 = [] -> charges t3 = [] -> spends process t2 -> spends process (t1 ++ t2 ++ t3).
Proof.
  intros Hc1 Hc3 [Hnone|(u1 & prefix & t' & u2 & policy & payment & name & r & -> & Hc & Hone & Ha & Hcharged)].
  - left. by rewrite !charges_app, Hc1, Hc3, Hnone.
  - right. exists (t1 ++ u1), prefix, t', (u2 ++ t3), policy, payment, name, r.
    split_and!; [by rewrite <- !app_assoc| |done..]. rewrite !(charges_app t1), !(charges_app _ t3), Hc1, Hc3, Hc.
    by rewrite app_nil_r.
Qed.

Lemma spends_app process t1 t2 : charges t1 = [] -> spends process t2 -> spends process (t1 ++ t2).
Proof. intros Hc Hs. apply (spends_around _ _ _ [] Hc eq_refl) in Hs. by rewrite app_nil_r in Hs. Qed.
Lemma spends_cons process ev t : charge_of ev = None -> spends process t -> spends process (ev :: t).
Proof. intros Hev. apply (spends_app _ [ev]). unfold charges. cbn. by rewrite Hev. Qed.

Lemma spends_input userID balance url process t :
  ProcessInput_UserID process = userID -> ProcessInput_Balance process = balance -> ProcessInput_ReturnURL process = url ->
  spends {| ProcessInput_UserID := TrimSpace userID; ProcessInput_Balance := balance; ProcessInput_ReturnURL := url |} t ->
  spends process t.
Proof. intros <- <- <-. unfold spends, authorised. cbn [ProcessInput_UserID ProcessInput_Balance ProcessInput_ReturnURL].
  by rewrite TrimSpace_idem. Qed.

Lemma Retry_spends s provider process t r : runs (Retry s provider process) t r -> spends process t.
Proof.
  unfold Retry. intros Hr%runs_lift_bind. destruct (autoRechargeUserID _) as [user|e] eqn:Hu; [|left; by destruct Hr as [-> _]].
  apply requireText_Ok in Hu as [-> _].
  apply runs_bind in Hr as [(t1 & profile & t2 & -> & Hrun1 & Hr)|(e & Hrun1 & _)];
    apply GetProfile_quiet, quiet_charges in Hrun1 as [Hc1 _]; [|by left].
  assert (charges t2 = [] -> spends process (t1 ++ t2)) as Hend by (intros Hc; left; by rewrite charges_app, Hc1).
  destruct profile as [p|]; [|destruct Hr as [-> _]; by apply Hend].
  destruct (AutoRechargeProfile_Enabled p); [|destruct Hr as [-> _]; by apply Hend].
  apply runs_lift_bind in Hr. destruct (autoRechargeProviderName provider) as [name|e]; [|destruct Hr as [-> _]; by apply Hend].
  apply runs_lift_bind in Hr. destruct (autoRechargeProfileProviderMatches _ name) as [[]|e]; [|destruct Hr as [-> _]; by apply Hend].
  destruct Hr as (x & t3 & -> & Hr). destruct x as [[]|e]; [|destruct Hr as [-> _]; by apply Hend].
  apply ProcessIfNeeded_spends in Hr. eapply spends_input in Hr; [|reflexivity..].
  apply spends_app; [done|]. by apply spends_cons.
Qed.

Lemma process_checked_runs s provider process t r :
  runs (process_checked s provider process) t r -> exists r', runs (ProcessIfNeeded s provider process) t r'.
Proof.
  intros [(t1 & x & t2 & -> & Hx & Hy)|(e & Hx & _)]%runs_bind; [|by eexists].
  destruct x as [x [e|]]; destruct Hy as [-> _]; rewrite app_nil_r; by eexists.
Qed.

Lemma Enable_spends s provider process t r : runs (Enable s provider process) t r -> spends process t.
Proof.
  unfold Enable. intros Hr%runs_lift_bind. destruct (autoRechargeUserID _) as [user|e] eqn:Hu; [|left; by destruct Hr as [-> _]].
  apply requireText_Ok in Hu as [-> _].
  apply runs_bind in Hr as [(t1 & policy & t2 & -> & Hrun1 & Hr)|(e & Hrun1 & _)];
    apply ResolvePolicy_quiet, quiet_charges in Hrun1 as [Hc1 _]; [|by left].
  assert (charges t2 = [] -> spends process (t1 ++ t2)) as Hend by (intros Hc; left; by rewrite charges_app, Hc1).
  destruct policy as [policy|]; [|destruct Hr as [-> _]; by apply Hend].
  apply runs_bind in Hr as [(t3 & payment & t4 & -> & Hrun2 & Hr)|(e & Hrun2 & _)];
    apply paymentMethod_quiet, quiet_charges in Hrun2 as [Hc2 _]; [|by apply Hend].
  rewrite charges_app, Hc2 in Hend. destruct payment as [payment|]; [|destruct Hr as [-> _]; by apply Hend].
  apply runs_lift_bind in Hr. destruct (autoRechargeProviderName provider) as [name|e]; [|destruct Hr as [-> _]; by apply Hend].
  destruct Hr as (x & t5 & -> & Hr). destruct x as [[]|e]; cbn [pbind] in Hr; [|destruct Hr as [-> _]; by apply Hend].
  assert (exists t6 t7 r', t5 = t6 ++ t7 /\ charges t7 = [] /\ runs (ProcessIfNeeded s provider
    {| ProcessInput_UserID := TrimSpace (ProcessInput_UserID process); ProcessInput_Balance := ProcessInput_Balance process;
       ProcessInput_ReturnURL := ProcessInput_ReturnURL process |}) t6 r') as (t6 & t7 & r' & -> & Hc7 & Hp).
  { apply runs_bind in Hr as [(t6 & checked & t7 & -> & [r' Hp]%process_checked_runs & Hs)|(e & [r' Hp]%process_checked_runs & _)].
    - apply GetStatus_quiet, quiet_charges in Hs as [Hc7 _]. by exists t6, t7, r'.
    - exists t5, [], r'. by rewrite app_nil_r. }
  apply ProcessIfNeeded_spends in Hp. eapply spends_input in Hp; [|reflexivity..].
  apply spends_app; [done|]. apply spends_app; [done|]. apply spends_cons; [done|].
  by apply (spends_around _ [] _ t7).
Qed.

Lemma account_provider_account a accountID t found :
  runs (account_provider a accountID) t (Ok found) -> found.1.2 = TrimSpace accountID.
Proof.
  unfold account_provider. intros [(t1 & required & t2 & -> & _ & Hr)|(e & _ & [=])]%runs_bind.
  destruct required as [commerce service]. destruct (requireText accountID _) as [text|e] eqn:Ht; [|by destruct Hr].
  apply requireText_Ok in Ht as [-> _]. cbn [lift pbind] in Hr.
  apply runs_bind in Hr as [(t3 & provider & t4 & -> & _ & [_ [= ->]])|(e & _ & [=])]. done.
Qed.

(** A charging method reads the account's provider and balance, and then only
    the recharge service is called. *)
Lemma with_balance_runs {A} a input method t (r : result A) :
  (forall s provider process t r, runs (method s provider process) t r -> spends process t) ->
  runs (with_balance a input method) t r ->
  charges (recharge_calls t) = [] \/
  exists t1 t2 balance process,
    t = t1 ++ (recharge_side <$> t2) /\ Forall reading t1 /\
    commerce_side (existT (Credit (StoreGetBalance (TrimSpace (AutoRechargeInput_AccountID input)))) (Ok balance)) ∈ t1 /\
    process = {| ProcessInput_UserID := TrimSpace (AutoRechargeInput_AccountID input);
                 ProcessInput_Balance := BalanceResult_Balance balance;
                 ProcessInput_ReturnURL := AutoRechargeInput_ReturnURL input |} /\
    spends process t2.
Proof.
  intros Hmethod Hr. unfold with_balance in Hr.
  apply runs_bind in Hr as [(t1 & found & t2 & -> & Hrun1 & Hr)|(e & Hrun1 & _)].
  2: { left. apply account_provider_reads, reading_quiet, quiet_charges in Hrun1. apply Hrun1. }
  pose proof (account_provider_reads _ _ _ _ Hrun1) as Hread1. apply account_provider_account in Hrun1.
  destruct found as [[[commerce service] accountID] provider]. cbn in Hrun1. subst accountID.
  apply runs_bind in Hr as [(t3 & balance & t4 & -> & Hrun2 & Hr)|(e & Hrun2 & _)];
    pose proof (only_reads_commerce _ _ _ Hrun2) as Hread2.
  2: { left. eapply quiet_charges, reading_quiet, Forall_app. done. }
  right. apply by_commerce_runs in Hrun2 as (t3' & -> & Hrun2).
  apply of_credit_runs in Hrun2 as (t3'' & -> & Hbalance%GetBalance_runs).
  apply by_recharge_runs in Hr as (t4' & -> & Hr).
  exists (t1 ++ (commerce_side <$> (credit_side <$> t3''))), t4', balance. eexists. split_and!.
  - by rewrite <- app_assoc.
  - apply Forall_app. split; [exact Hread1|exact Hread2].
  - apply elem_of_app. right. apply (list_elem_of_fmap_2 credit_side), (list_elem_of_fmap_2 commerce_side) in Hbalance. exact Hbalance.
  - reflexivity.
  - by eapply Hmethod.
Qed.
(** The methods in terms of the service's. *)
Lemma charging_method_spends a input A (p : prog (@facade_answer D) A) :
  charging_method a input A p ->
  exists method, p = with_balance a input method /\
    forall s provider process t r, runs (method s provider process) t r -> spends process t.
Proof.
  destruct 1; (eexists; split; [reflexivity|]); intros s provider process t r Hr;
    [by eapply Enable_spends|by eapply Retry_spends|by eapply ProcessIfNeeded_spends].
Qed.
End facts.

(** C40: Enabling, retrying or processing a recharge through the commerce
    service charges at most once, and only after the credit service's store
    answered the account's balance in the same call: the charge is one
    [ProcessIfNeeded] would make for that account and that balance, of a
    profile that is enabled, active and of the charged provider, below the
    catalog's threshold.  Finding the account's provider writes nothing and
    charges nothing. *)
Theorem facade_charges_account {D : Type} `{DecimalOps D} `{RangeOrder} `{TimeZones} `{Zones} `{Regexps} `{Schema D}
    (a : option (CommerceAutoRecharge D)) (input : AutoRechargeInput) A (p : prog (@facade_answer D) A)
    (t : list (event facade_answer)) (r : result A) :
  charging_method a input A p -> runs p t r ->
  charges (recharge_calls t) = [] \/
  exists t1 t2 balance process,
    t = t1 ++ (recharge_side <$> t2) /\ Forall reading t1 /\
    commerce_side (existT (Credit (StoreGetBalance (TrimSpace (AutoRechargeInput_AccountID input)))) (Ok balance)) ∈ t1 /\
    process = {| ProcessInput_UserID := TrimSpace (AutoRechargeInput_AccountID input);
                 ProcessInput_Balance := BalanceResult_Balance balance;
                 ProcessInput_ReturnURL := AutoRechargeInput_ReturnURL input |} /\
    spends process t2.
Proof. intros (method & -> & Hmethod)%charging_method_spends Hr. by eapply with_balance_runs. Qed.

(** ** Sample: an account with a balance of 3, through the facade *)

#[local] Existing Instances canonical_range utc_only any_pattern any_document RechargeFacts.no_zones.

Definition sample_facade : option (CommerceAutoRecharge Ref.dec) :=
  Some {| Facade_commerce := Some sample_commerce;
          Facade_service := Some {| Service_HasCatalog := true; Service_HasStore := true |} |}.
Definition sample_recharge_input : AutoRechargeInput :=
  {| AutoRechargeInput_AccountID := " user_1 "; AutoRechargeInput_ReturnURL := "" |}.

Definition stripe_provider : Provider :=
  {| Provider_Base := {| Provider_Name := "stripe"; Provider_ListsPaymentMethods := true; Provider_Previews := false;
                         Provider_Charges := true |};
     Provider_ReportsCheckoutStatus := false; Provider_HasPortal := false; Provider_UpdatesPaymentMethod := false;
     Provider_SetsUpPaymentMethod := false; Provider_CancelsSubscription := false;
     Provider_ReactivatesSubscription := false; Provider_LinksInvoices := false; Provider_PreviewsPlanChange := false;
     Provider_ChangesPlan := false; Provider_CancelsScheduledChange := false |}.

Definition facade_callee (c : facade_call Ref.dec) (w : sample_world) : facade_answer c * sample_world :=
  match c with
  | CommerceSide (Credit (StoreGetBalance userID)) =>
      (Ok {| BalanceResult_UserID := userID; BalanceResult_Balance := Ref.of_int 3;
             BalanceResult_LifetimePurchased := Ref.of_int 3 |}, w)
  | CommerceSide (Providers (LookupProvider _)) => (Cached stripe_provider, w)
  | CommerceSide c => commerce_callee change_made c w
  | RechargeSide c => ((RechargeFacts.sample_callee c tt).1, w)
  end.

Definition sample_facade_run := run facade_callee (subscribed "active") (Facade_ProcessIfNeeded sample_facade sample_recharge_input).

Lemma facade_charges_account_witness :
  SavedPaymentChargeParams_IdempotencyKey <$> charges (recharge_calls sample_facade_run.1.1) = ["key_1"] /\
  exists t1 t2 balance process,
    sample_facade_run.1.1 = t1 ++ (recharge_side <$> t2) /\
    commerce_side (existT (Credit (StoreGetBalance "user_1")) (Ok balance)) ∈ t1 /\
    ProcessInput_Balance process = BalanceResult_Balance balance /\ spends process t2.
Proof.
  split; [vm_compute; reflexivity|].
  destruct (facade_charges_account sample_facade sample_recharge_input processed
              (Facade_ProcessIfNeeded sample_facade sample_recharge_input) sample_facade_run.1.1 sample_facade_run.1.2)
    as [Hnone|(t1 & t2 & balance & process & Ht & _ & Hbalance & Hprocess & Hspends)].
  - constructor.
  - exact (run_runs facade_callee _ (subscribed "active")).
  - vm_compute in Hnone. discriminate Hnone.
  - exists t1, t2, balance, process. split; [exact Ht|]. split; [exact Hbalance|]. split; [by rewrite Hprocess|exact Hspends].
Defined.
