(* ===== verification/Json.v ===== *)
(** * encoding/json: decoding with UseNumber

    [decodeJSONUseNumber] of postgres_store.go and what it uses of package
    encoding/json: the grammar, the escapes and the replacement of bytes that
    are not UTF-8, the limit on nesting, and numbers kept as their text.  The
    texts of the decoder's own errors are not modelled.  Decoding what
    [Marshal] wrote gives back what was written. *)

From S2P Require Export Value GoEncoding.
Local Open Scope Z_scope.
Local Open Scope go_scope.

Definition json_error : error := ExternalError "invalid JSON".

(** ** Strings *)

Definition json_space (c : ascii) : bool :=
  (byte_of c =? 32)%Z || (byte_of c =? 9)%Z || (byte_of c =? 10)%Z || (byte_of c =? 13)%Z.

Fixpoint skip_space (s : string) : string :=
  match s with
  | String c rest => if json_space c then skip_space rest else s
  | EmptyString => s
  end.

Definition hex_value (c : ascii) : option Z :=
  let b := byte_of c in
  if (48 <=? b) && (b <=? 57) then Some (b - 48)
  else if (97 <=? b) && (b <=? 102) then Some (b - 87)
  else if (65 <=? b) && (b <=? 70) then Some (b - 55)
  else None.

(** [getu4], after the backslash and the letter: four hexadecimal digits. *)
Definition take_hex4 (s : string) : option (Z * string) :=
  match s with
  | String a (String b (String c (String d rest))) =>
      match hex_value a, hex_value b, hex_value c, hex_value d with
      | Some a, Some b, Some c, Some d => Some (((a * 16 + b) * 16 + c) * 16 + d, rest)
      | _, _, _, _ => None
      end
  | _ => None
  end.

Definition chars (codes : list Z) : string :=
  string_of_list_ascii (map (fun b => ascii_of_N (Z.to_N b)) codes).

(** [utf8.AppendRune], for a code below 0x110000 that is no surrogate. *)
Definition EncodeRune (code : Z) : string :=
  if code <? 128 then chars [code]
  else if code <? 2048 then chars [192 + code / 64; 128 + code mod 64]
  else if code <? 65536 then chars [224 + code / 4096; 128 + code / 64 mod 64; 128 + code mod 64]
  else chars [240 + code / 262144; 128 + code / 4096 mod 64; 128 + code / 64 mod 64; 128 + code mod 64].

Definition ReplacementChar : Z := 65533.

(** A code that was escaped: a surrogate takes the low surrogate escaped after
    it, and alone it is replaced. *)
Definition escaped_rune (code : Z) (rest : string) : string * string :=
  if (55296 <=? code) && (code <=? 57343) then
    match rest with
    | String "\" (String "u" after) =>
        match take_hex4 after with
        | Some (low, after) =>
            if (code <=? 56319) && (56320 <=? low) && (low <=? 57343)
            then (EncodeRune (65536 + (code - 55296) * 1024 + (low - 56320)), after)
            else (EncodeRune ReplacementChar, rest)
        | None => (EncodeRune ReplacementChar, rest)
        end
    | _ => (EncodeRune ReplacementChar, rest)
    end
  else (EncodeRune code, rest).

(** What a letter after a backslash stands for. *)
Definition escape_letter (c : ascii) : option string :=
  let b := byte_of c in
  if (b =? 34)%Z || (b =? 92)%Z || (b =? 47)%Z then Some (String c "")
  else if (b =? 98)%Z then Some (chars [8])
  else if (b =? 102)%Z then Some (chars [12])
  else if (b =? 110)%Z then Some (chars [10])
  else if (b =? 114)%Z then Some (chars [13])
  else if (b =? 116)%Z then Some (chars [9])
  else None.

Definition prepend (text : string) (r : result (string * string)) : result (string * string) :=
  '(body, rest) <- r ;; Ok (text +:+ body, rest).

(** The rest of a string up to its closing quote. *)
Fixpoint unquote (fuel : nat) (s : string) : result (string * string) :=
  match fuel with
  | O => Err FuelExhausted
  | S fuel =>
      match s with
      | EmptyString => Err json_error
      | String c rest =>
          if (byte_of c =? 34)%Z then Ok ("", rest)
          else if (byte_of c =? 92)%Z then
            match rest with
            | EmptyString => Err json_error
            | String letter rest =>
                if (byte_of letter =? 117)%Z then
                  match take_hex4 rest with
                  | None => Err json_error
                  | Some (code, rest) =>
                      let '(text, rest) := escaped_rune code rest in prepend text (unquote fuel rest)
                  end
                else match escape_letter letter with
                     | Some text => prepend text (unquote fuel rest)
                     | None => Err json_error
                     end
            end
          else if byte_of c <? 32 then Err json_error
          else prepend (String c "") (unquote fuel rest)
      end
  end.

(** A byte that belongs to no rune is replaced. *)
Definition valid_rune (rune : list ascii) : list ascii :=
  match rune with
  | [c] => if byte_of c <? 128 then [c] else list_ascii_of_string (EncodeRune ReplacementChar)
  | _ => rune
  end.
Definition ToValidUTF8 (s : string) : string := string_of_list_ascii (concat (map valid_rune (runes s))).

(** ** Values *)

Definition take_digits1 (s : string) : option (string * string) :=
  match span is_digit s with
  | ("", _) => None
  | found => Some found
  end.

Definition take_exponent (s : string) : option (string * string) :=
  match s with
  | String e rest =>
      if (byte_of e =? 101)%Z || (byte_of e =? 69)%Z then
        let '(sign, rest) :=
          match rest with
          | String c after => if (byte_of c =? 43)%Z || (byte_of c =? 45)%Z then (String c "", after) else ("", rest)
          | EmptyString => ("", rest)
          end in
        match take_digits1 rest with
        | Some (digits, rest) => Some (String e (sign +:+ digits), rest)
        | None => None
        end
      else Some ("", s)
  | EmptyString => Some ("", s)
  end.

Definition take_decimals (s : string) : option (string * string) :=
  match s with
  | String c rest =>
      if Ascii.eqb c "." then
        match take_digits1 rest with
        | Some (digits, rest) => Some ("." +:+ digits, rest)
        | None => None
        end
      else Some ("", s)
  | EmptyString => Some ("", s)
  end.

(** An integer has no leading zero. *)
Definition take_whole (s : string) : string * string :=
  match s with
  | String c rest => if Ascii.eqb c "0" then ("0", rest) else span is_digit s
  | EmptyString => ("", "")
  end.

Definition take_unsigned (sign s : string) : option (string * string) :=
  let '(whole, s) := take_whole s in
  if whole =? "" then None
  else match take_decimals s with
       | Some (decimals, s) =>
           match take_exponent s with
           | Some (exponent, s) => Some (sign +:+ whole +:+ decimals +:+ exponent, s)
           | None => None
           end
       | None => None
       end.

(** A number's text: a sign, an integer, decimals and an exponent. *)
Definition take_number (s : string) : option (string * string) :=
  match s with
  | String c rest => if Ascii.eqb c "-" then take_unsigned "-" rest else take_unsigned "" s
  | EmptyString => None
  end.

Fixpoint take_prefix (prefix s : string) : option string :=
  match prefix, s with
  | EmptyString, _ => Some s
  | String a prefix, String b s => if Ascii.eqb a b then take_prefix prefix s else None
  | _, EmptyString => None
  end.

(** [maxNestingDepth] of encoding/json. *)
Definition maxNestingDepth : nat := Z.to_nat 10000.

Section decode.
Context {D : Type}.

Definition literal (word : string) (value : any D) (s : string) : result (any D * string) :=
  match take_prefix word s with Some rest => Ok (value, rest) | None => Err json_error end.

(** One value; the items of an array; the members of an object.  [depth] is
    how many more arrays and objects may be opened. *)
Fixpoint decode_value (fuel depth : nat) (s : string) : result (any D * string) :=
  match fuel with
  | O => Err FuelExhausted
  | S fuel =>
      match skip_space s with
      | EmptyString => Err json_error
      | String c rest =>
          let b := byte_of c in
          if (b =? 34)%Z then
            '(text, rest) <- unquote fuel rest ;;
            Ok (AString (ToValidUTF8 text), rest)
          else if (b =? 91)%Z || (b =? 123)%Z then
            match depth with
            | O => Err json_error
            | S depth =>
                match skip_space rest with
                | EmptyString => Err json_error
                | String c rest' =>
                    if (b =? 91)%Z then
                      if (byte_of c =? 93)%Z then Ok (ASlice [], rest')
                      else
                        '(items, rest) <- decode_items fuel depth rest ;;
                        Ok (ASlice items, rest)
                    else if (byte_of c =? 125)%Z then Ok (AMap ∅, rest')
                    else
                      '(members, rest) <- decode_members fuel depth ∅ rest ;;
                      Ok (AMap members, rest)
                end
            end
          else if (b =? 110)%Z then literal "null" ANil (String c rest)
          else if (b =? 116)%Z then literal "true" (ABool true) (String c rest)
          else if (b =? 102)%Z then literal "false" (ABool false) (String c rest)
          else match take_number (String c rest) with
               | Some (text, rest) => Ok (ANumber text, rest)
               | None => Err json_error
               end
      end
  end
with decode_items (fuel depth : nat) (s : string) : result (list (any D) * string) :=
  match fuel with
  | O => Err FuelExhausted
  | S fuel =>
      '(item, s) <- decode_value fuel depth s ;;
      match skip_space s with
      | EmptyString => Err json_error
      | String c rest =>
          if (byte_of c =? 44)%Z then
            '(items, rest) <- decode_items fuel depth rest ;;
            Ok (item :: items, rest)
          else if (byte_of c =? 93)%Z then Ok ([item], rest)
          else Err json_error
      end
  end
with decode_members (fuel depth : nat) (members : gmap string (any D)) (s : string) : result (gmap string (any D) * string) :=
  match fuel with
  | O => Err FuelExhausted
  | S fuel =>
      match skip_space s with
      | EmptyString => Err json_error
      | String c rest =>
          if negb (byte_of c =? 34)%Z then Err json_error
          else
            '(key, rest) <- unquote fuel rest ;;
            match skip_space rest with
            | EmptyString => Err json_error
            | String c rest =>
                if negb (byte_of c =? 58)%Z then Err json_error
                else
                  '(value, rest) <- decode_value fuel depth rest ;;
                  let members := <[ToValidUTF8 key := value]> members in
                  match skip_space rest with
                  | EmptyString => Err json_error
                  | String c rest =>
                      if (byte_of c =? 44)%Z then decode_members fuel depth members rest
                      else if (byte_of c =? 125)%Z then Ok (members, rest)
                      else Err json_error
                  end
            end
      end
  end.

(** The document is one value and white space. *)
Definition decodeJSONUseNumber (data : string) : result (any D) :=
  '(value, rest) <- decode_value (S (2 * String.length data)) maxNestingDepth data ;;
  if skip_space rest =? "" then Ok value
  else
    decode_value (S (2 * String.length rest)) maxNestingDepth rest ;;;
    Err (ExternalError "JSON contains multiple values").
End decode.

Example decode_sample :
  (decodeJSONUseNumber (Marshal sample_json) : result (any Z)) =
  Ok (AMap (<["quantity" := ANumber "2"]> (<["accountId" := AString "user <1>"]> (<["none" := ANil]>
       (<["lines" := ASlice [ANumber "1"]]> ∅))))).
Proof. vm_compute. reflexivity. Qed.

Example decode_escapes :
  (decodeJSONUseNumber (chars [32; 34; 92; 117; 68; 56; 51; 68; 92; 117; 68; 69; 48; 48; 255; 34; 10]) : result (any Z)) =
  Ok (AString (chars [240; 159; 152; 128; 239; 191; 189])).
Proof. vm_compute. reflexivity. Qed.

(** ** Decoding ends *)

(** What is left is shorter, and no failure is one of fuel. *)
Definition advances {A} (s : string) (r : result (A * string)) : Prop :=
  match r with
  | Ok (_, rest) => (String.length rest < String.length s)%nat
  | Err err => err <> FuelExhausted
  end.

Lemma skip_space_length s : (String.length (skip_space s) <= String.length s)%nat.
Proof. induction s as [|c s IH]; cbn; [done|]. destruct (json_space c); cbn; lia. Qed.

Lemma take_hex4_length s code rest : take_hex4 s = Some (code, rest) -> String.length s = (4 + String.length rest)%nat.
Proof. do 4 (destruct s as [|? s]; [done|]). cbn. repeat case_match; try done. by intros [= _ ->]. Qed.

Lemma escaped_rune_length code rest : (String.length (escaped_rune code rest).2 <= String.length rest)%nat.
Proof.
  unfold escaped_rune. repeat case_match; subst; cbn; try lia.
  match goal with Hx : take_hex4 _ = _ |- _ => apply take_hex4_length in Hx end. cbn in *. lia.
Qed.

Lemma prepend_advances text s rest r :
  advances rest r -> (String.length rest <= String.length s)%nat -> advances s (prepend text r).
Proof. destruct r as [[body rest']|err]; cbn; [lia|done]. Qed.

Lemma advances_weaken {A} s s' (r : result (A * string)) :
  advances s r -> (String.length s <= String.length s')%nat -> advances s' r.
Proof. destruct r as [[x rest]|err]; cbn; [lia|done]. Qed.

Lemma unquote_advances fuel s : (String.length s < fuel)%nat -> advances s (unquote fuel s).
Proof.
  revert s. induction fuel as [|fuel IH]; intros s Hf; [lia|]. cbn [unquote].
  destruct s as [|c rest]; [done|]. cbn [String.length] in Hf.
  destruct (byte_of c =? 34)%Z; [cbn; lia|].
  destruct (byte_of c =? 92)%Z; [destruct rest as [|letter rest]; [done|]; cbn [String.length] in Hf|].
  - destruct (byte_of letter =? 117)%Z.
    + destruct (take_hex4 rest) as [[code rest']|] eqn:Hh; [|done]. apply take_hex4_length in Hh.
      pose proof (escaped_rune_length code rest') as Hl. destruct (escaped_rune code rest') as [text rest2]. cbn in Hl.
      eapply prepend_advances; [apply IH; lia|cbn; lia].
    + destruct (escape_letter letter); [|done]. eapply prepend_advances; [apply IH; lia|cbn; lia].
  - destruct (byte_of c <? 32); [done|]. eapply prepend_advances; [apply IH; lia|cbn; lia].
Qed.

Lemma unquote_enough fuel1 fuel2 s :
  (String.length s < fuel1)%nat -> (String.length s < fuel2)%nat -> unquote fuel1 s = unquote fuel2 s.
Proof.
  revert fuel2 s. induction fuel1 as [|fuel1 IH]; intros [|fuel2] s H1 H2; try lia. cbn [unquote].
  destruct s as [|c rest]; [done|]. cbn [String.length] in *.
  destruct (byte_of c =? 34)%Z; [done|].
  destruct (byte_of c =? 92)%Z; [destruct rest as [|letter rest]; [done|]; cbn [String.length] in *|].
  - destruct (byte_of letter =? 117)%Z.
    + destruct (take_hex4 rest) as [[code rest']|] eqn:Hh; [|done]. apply take_hex4_length in Hh.
      pose proof (escaped_rune_length code rest') as Hl. destruct (escaped_rune code rest') as [text rest2]. cbn in Hl.
      rewrite (IH fuel2) by lia. done.
    + destruct (escape_letter letter); [|done]. rewrite (IH fuel2) by lia. done.
  - destruct (byte_of c <? 32); [done|]. rewrite (IH fuel2) by lia. done.
Qed.

Lemma span_shorter p s : (String.length (span p s).2 <= String.length s)%nat.
Proof. rewrite (span_length p s). lia. Qed.

Lemma take_digits1_length s digits rest : take_digits1 s = Some (digits, rest) -> (String.length rest < String.length s)%nat.
Proof.
  unfold take_digits1. rewrite (span_length is_digit s). destruct (span is_digit s) as [[|c ds] r]; [done|].
  intros [= <- ->]. cbn. lia.
Qed.

Lemma take_decimals_length s decimals rest : take_decimals s = Some (decimals, rest) -> (String.length rest <= String.length s)%nat.
Proof.
  unfold take_decimals. intros Ht. repeat case_match; simplify_eq; try done.
  match goal with Hd : take_digits1 _ = _ |- _ => apply take_digits1_length in Hd end. cbn. lia.
Qed.

Lemma take_exponent_length s exponent rest : take_exponent s = Some (exponent, rest) -> (String.length rest <= String.length s)%nat.
Proof.
  unfold take_exponent. intros Ht. repeat case_match; simplify_eq; try done.
  all: match goal with Hd : take_digits1 _ = _ |- _ => apply take_digits1_length in Hd end; cbn in *; lia.
Qed.

Lemma take_whole_length s : (take_whole s).1 <> "" -> (String.length (take_whole s).2 < String.length s)%nat.
Proof.
  destruct s as [|c s]; [done|]. unfold take_whole. destruct (Ascii.eqb c "0"); [cbn; lia|].
  rewrite (span_length is_digit (String c s)). destruct (span is_digit (String c s)) as [[|d ds] r]; [done|]. cbn. lia.
Qed.

Lemma take_unsigned_length sign s text rest : take_unsigned sign s = Some (text, rest) -> (String.length rest < String.length s)%nat.
Proof.
  unfold take_unsigned. pose proof (take_whole_length s) as Hw. destruct (take_whole s) as [whole s2]. cbn in Hw.
  destruct (String.eqb_spec whole ""); [done|]. specialize (Hw ltac:(done)).
  destruct (take_decimals s2) as [[decimals s3]|] eqn:H3; [|done]. apply take_decimals_length in H3.
  destruct (take_exponent s3) as [[exponent s4]|] eqn:H4; [|done]. apply take_exponent_length in H4.
  intros [= _ <-]. lia.
Qed.

Lemma take_number_length s text rest : take_number s = Some (text, rest) -> (String.length rest < String.length s)%nat.
Proof.
  unfold take_number. destruct s as [|c s]; [done|]. destruct (Ascii.eqb c "-"); [|apply take_unsigned_length].
  intros Ht%take_unsigned_length. cbn. lia.
Qed.

Lemma take_prefix_length prefix s rest : take_prefix prefix s = Some rest -> String.length s = (String.length prefix + String.length rest)%nat.
Proof.
  revert s. induction prefix as [|a prefix IH]; intros s; cbn; [by intros [= ->]|].
  destruct s as [|b s]; [done|]. destruct (Ascii.eqb a b); [|done]. intros Ht%IH. cbn. lia.
Qed.

Section decode_facts.
Context {D : Type}.
Implicit Types v : any D.

Lemma literal_advances word v s : word <> "" -> advances s (literal word v s).
Proof.
  intros Hw. unfold literal. destruct (take_prefix word s) as [rest|] eqn:Ht; [|done].
  apply take_prefix_length in Ht. destruct word; [done|]. cbn in *. lia.
Qed.

Lemma advances_bind {A B} s s' (r : result (A * string)) (f : A * string -> result (B * string)) :
  advances s r -> (forall x rest, (String.length rest < String.length s)%nat -> advances s' (f (x, rest))) ->
  advances s' (bind r f).
Proof. destruct r as [[x rest]|err]; cbn; [|done]. intros Hl Hf. by apply Hf. Qed.

Lemma number_advances s :
  advances s match take_number s with Some (text, rest) => Ok (@ANumber D text, rest) | None => Err json_error end.
Proof. destruct (take_number s) as [[text rest]|] eqn:Hn; [|done]. apply take_number_length in Hn. done. Qed.

(** Every part of the decoder stops within its fuel. *)
Lemma decode_advances fuel :
  (forall depth s, (2 * String.length s + 1 <= fuel)%nat -> advances s (@decode_value D fuel depth s)) /\
  (forall depth s, (2 * String.length s + 2 <= fuel)%nat -> advances s (@decode_items D fuel depth s)) /\
  (forall depth members s, (2 * String.length s + 2 <= fuel)%nat -> advances s (@decode_members D fuel depth members s)).
Proof.
  induction fuel as [|fuel (IHv & IHi & IHm)]; [repeat split; intros; lia|].
  split_and!; intros depth; [intros s Hf|intros s Hf|intros members s Hf].
  - cbn [decode_value]. pose proof (skip_space_length s) as Hs.
    destruct (skip_space s) as [|c rest]; [done|]. cbn [String.length] in Hs. apply (advances_weaken (String c rest)); [|done].
    destruct (byte_of c =? 34)%Z.
    { eapply advances_bind; [apply unquote_advances; lia|]. intros x rest' Hl. cbn. lia. }
    destruct (_ || _).
    + destruct depth as [|depth]; [done|]. pose proof (skip_space_length rest) as Hs'.
      destruct (skip_space rest) as [|c' rest']; [done|]. cbn [String.length] in Hs'.
      destruct (byte_of c =? 91)%Z; [destruct (byte_of c' =? 93)%Z|destruct (byte_of c' =? 125)%Z]; try (cbn; lia).
      * eapply advances_bind; [apply IHi; lia|]. intros x rest2 Hl. cbn in *. lia.
      * eapply advances_bind; [apply IHm; lia|]. intros x rest2 Hl. cbn in *. lia.
    + destruct (byte_of c =? 110)%Z; [by apply literal_advances|]. destruct (byte_of c =? 116)%Z; [by apply literal_advances|].
      destruct (byte_of c =? 102)%Z; [by apply literal_advances|]. apply number_advances.
  - cbn [decode_items]. eapply advances_bind; [apply IHv; lia|]. intros x rest Hl. pose proof (skip_space_length rest) as Hs.
    destruct (skip_space rest) as [|c rest']; [done|]. cbn [String.length] in Hs.
    destruct (byte_of c =? 44)%Z; [|destruct (byte_of c =? 93)%Z; [cbn; lia|done]].
    eapply advances_bind; [apply IHi; lia|]. intros xs rest2 Hl2. cbn. lia.
  - cbn [decode_members]. pose proof (skip_space_length s) as Hs.
    destruct (skip_space s) as [|c rest]; [done|]. cbn [String.length] in Hs. destruct (negb _); [done|].
    eapply advances_bind; [apply unquote_advances; lia|]. intros key rest1 Hl1. pose proof (skip_space_length rest1) as Hs1.
    destruct (skip_space rest1) as [|c1 rest2]; [done|]. cbn [String.length] in Hs1. destruct (negb _); [done|].
    eapply advances_bind; [apply IHv; lia|]. intros value rest3 Hl3. pose proof (skip_space_length rest3) as Hs3.
    destruct (skip_space rest3) as [|c3 rest4]; [done|]. cbn [String.length] in Hs3.
    destruct (byte_of c3 =? 44)%Z; [|destruct (byte_of c3 =? 125)%Z; [cbn; lia|done]].
    eapply advances_weaken; [apply IHm; lia|lia].
Qed.

Lemma decodeJSONUseNumber_total (data : string) : @decodeJSONUseNumber D data <> Err FuelExhausted.
Proof.
  unfold decodeJSONUseNumber.
  pose proof (proj1 (decode_advances (S (2 * String.length data))) maxNestingDepth data ltac:(lia)) as Ha.
  destruct (decode_value _ _ _) as [[v rest]|err]; cbn [bind].
  - destruct (skip_space rest =? ""); [done|].
    pose proof (proj1 (decode_advances (S (2 * String.length rest))) maxNestingDepth rest ltac:(lia)) as Hr.
    destruct (decode_value _ _ rest) as [[v' rest']|err]; cbn [bind]; [done|]. intros [= ->]. by apply Hr.
  - intros [= ->]. by apply Ha.
Qed.
End decode_facts.

(** ** Decoding what [Marshal] wrote *)

Lemma prepend_prepend a b r : prepend a (prepend b r) = prepend (a +:+ b) r.
Proof. destruct r as [[body rest]|err]; cbn; [|done]. by rewrite string_app_assoc. Qed.

Lemma string_of_app l1 l2 : string_of_list_ascii (l1 ++ l2) = string_of_list_ascii l1 +:+ string_of_list_ascii l2.
Proof. induction l1 as [|c l1 IH]; [done|]. cbn. by rewrite IH. Qed.

Lemma concat_empty_cons x l : String.concat "" (x :: l) = x +:+ String.concat "" l.
Proof. destruct l; cbn; [by rewrite string_app_nil|done]. Qed.

(** The rest of a string from here on, with enough fuel. *)
Definition unquote_rest (s : string) : result (string * string) := unquote (S (String.length s)) s.

Lemma unquote_any fuel s : (String.length s < fuel)%nat -> unquote fuel s = unquote_rest s.
Proof. intros Hf. apply unquote_enough; lia. Qed.

Lemma unquote_raw c s :
  128 <= byte_of c -> unquote_rest (String c s) = prepend (String c "") (unquote_rest s).
Proof.
  intros Hc. unfold unquote_rest at 1. cbn [unquote]. rewrite unquote_any by (cbn; lia).
  destruct (Z.eqb_spec (byte_of c) 34); [lia|]. destruct (Z.eqb_spec (byte_of c) 92); [lia|].
  by destruct (Z.ltb_spec (byte_of c) 32); [lia|].
Qed.

Lemma unquote_raws l s :
  Forall (fun c => 128 <= byte_of c) l ->
  unquote_rest (string_of_list_ascii l +:+ s) = prepend (string_of_list_ascii l) (unquote_rest s).
Proof.
  induction 1 as [|c l Hc _ IH]; [cbn [string_of_list_ascii]; rewrite append_nil; by destruct (unquote_rest s) as [[? ?]|?]|]. cbn [string_of_list_ascii]. rewrite append_cons.
  rewrite unquote_raw, IH by done. by rewrite prepend_prepend.
Qed.

Lemma unquote_escaped text value s :
  text <> "" -> (forall fuel, unquote (S fuel) (text +:+ s) = prepend value (unquote fuel s)) ->
  unquote_rest (text +:+ s) = prepend value (unquote_rest s).
Proof.
  intros Hne Ht. unfold unquote_rest at 1. rewrite Ht. rewrite unquote_any; [done|].
  destruct text; [done|]. rewrite append_cons. cbn. rewrite length_append. lia.
Qed.

Lemma unquote_byte c s : byte_of c < 128 -> unquote_rest (escape_byte c +:+ s) = prepend (String c "") (unquote_rest s).
Proof.
  intros Hc. apply unquote_escaped; destruct c as [[] [] [] [] [] [] [] []]; try done; exfalso; by cbn in Hc.
Qed.

(** A rune is one byte, or bytes that are none of them ASCII. *)
Definition rune_shape (rune : list ascii) : Prop :=
  (exists c, rune = [c]) \/ (2 <= length rune)%nat /\ Forall (fun c => 128 <= byte_of c) rune.

Lemma utf8_first_high b lo hi more : utf8_first b = Some (lo, hi, more) -> 128 <= b /\ 128 <= lo.
Proof. unfold utf8_first. intros Hu. repeat case_match; simplify_eq; lia. Qed.

Lemma continues_high lo hi c : 128 <= lo -> continues lo hi c = true -> 128 <= byte_of c.
Proof. unfold continues. intros Hlo [Hc _]%andb_true_iff. apply Z.leb_le in Hc. lia. Qed.

Lemma first_rune_shape c l : rune_shape (firstn (rune_width (c :: l)) (c :: l)).
Proof.
  cbn [rune_width]. destruct (utf8_first (byte_of c)) as [[[lo hi] more]|] eqn:Hu; [|left; by exists c].
  destruct l as [|second rest]; [left; by exists c|]. apply utf8_first_high in Hu as [Hc Hlo].
  destruct (continues lo hi second) eqn:Hsecond; [|left; by exists c].
  destruct (forallb _ _) eqn:Hrest; [|left; by exists c]. destruct (_ <=? _)%nat eqn:Hmore; [|left; by exists c].
  right. cbn [andb firstn Nat.add]. split; [cbn [length]; lia|].
  constructor; [done|]. constructor; [by eapply continues_high|].
  rewrite forallb_forall in Hrest. apply Forall_forall. intros x Hx.
  eapply (continues_high 128 191); [done|]. apply Hrest. by apply list_elem_of_In.
Qed.

Lemma runes_shape s : Forall rune_shape (runes s).
Proof.
  unfold runes. generalize (length (list_ascii_of_string s)) as fuel. generalize (list_ascii_of_string s) as l. intros l fuel.
  revert l. induction fuel as [|fuel IH]; intros l; [constructor|]. destruct l as [|c l]; [constructor|].
  constructor; [apply first_rune_shape|apply IH].
Qed.

Lemma hex4_replacement : hex4 65533 = "\ufffd".
Proof. reflexivity. Qed.
Lemma hex4_line_separator : hex4 8232 = "\u2028".
Proof. reflexivity. Qed.
Lemma hex4_paragraph_separator : hex4 8233 = "\u2029".
Proof. reflexivity. Qed.

Lemma byte_of_inj c d : byte_of c = byte_of d -> c = d.
Proof.
  unfold byte_of. intros Hb. rewrite <- (ascii_nat_embedding c), <- (ascii_nat_embedding d). f_equal. lia.
Qed.

Lemma bytes_of_inj l1 l2 : map byte_of l1 = map byte_of l2 -> l1 = l2.
Proof.
  revert l2. induction l1 as [|c l1 IH]; intros [|d l2]; try done. cbn. intros [= Hc Hl].
  f_equal; [by apply byte_of_inj|by apply IH].
Qed.

Lemma unquote_rune rune s :
  rune_shape rune ->
  unquote_rest (escape_rune rune +:+ s) = prepend (string_of_list_ascii (valid_rune rune)) (unquote_rest s).
Proof.
  intros [[c ->]|[Hl Hb]].
  - cbn [escape_rune valid_rune]. destruct (Z.ltb_spec (byte_of c) 128); [by apply unquote_byte|].
    rewrite hex4_replacement. by apply unquote_escaped.
  - destruct rune as [|c [|d rest]]; cbn [length] in Hl; [lia|lia|]. cbn [escape_rune valid_rune].
    case_bool_decide as H1; [|case_bool_decide as H2].
    + rewrite (bytes_of_inj (c :: d :: rest) (map (fun b => ascii_of_N (Z.to_N b)) [226; 128; 168])) by done.
      rewrite hex4_line_separator. by apply unquote_escaped.
    + rewrite (bytes_of_inj (c :: d :: rest) (map (fun b => ascii_of_N (Z.to_N b)) [226; 128; 169])) by done.
      rewrite hex4_paragraph_separator. by apply unquote_escaped.
    + by apply unquote_raws.
Qed.

Lemma unquote_runes rs s :
  Forall rune_shape rs ->
  unquote_rest (String.concat "" (map escape_rune rs) +:+ String "034" s) =
  Ok (string_of_list_ascii (concat (map valid_rune rs)), s).
Proof.
  induction 1 as [|r rs Hr _ IH]; [done|]. cbn [map concat]. rewrite concat_empty_cons, string_app_assoc.
  rewrite unquote_rune, IH by done. cbn. by rewrite string_of_app.
Qed.

Lemma quoted_app s rest :
  quoted s +:+ rest = String "034" (String.concat "" (map escape_rune (runes s)) +:+ String "034" rest).
Proof. unfold quoted. by rewrite append_cons, string_app_assoc. Qed.

Lemma unquote_quoted fuel s rest :
  (String.length (quoted s +:+ rest) <= fuel)%nat ->
  unquote fuel (String.concat "" (map escape_rune (runes s)) +:+ String "034" rest) = Ok (ToValidUTF8 s, rest).
Proof.
  rewrite quoted_app. intros Hf. rewrite unquote_any by (cbn [String.length] in Hf; lia). apply unquote_runes, runes_shape.
Qed.

(** *** Numbers *)

(** The text after a number does not go on with it. *)
Definition ends_number (rest : string) : Prop :=
  match rest with
  | String c _ => is_digit c = false /\ c <> "."%char /\ byte_of c <> 101 /\ byte_of c <> 69
  | EmptyString => True
  end.

Lemma take_decimals_none rest : ends_number rest -> take_decimals rest = Some ("", rest).
Proof.
  destruct rest as [|c rest]; [done|]. intros (_ & Hdot & _). unfold take_decimals.
  by destruct (Ascii.eqb_spec c ".").
Qed.

Lemma take_exponent_none rest : ends_number rest -> take_exponent rest = Some ("", rest).
Proof.
  destruct rest as [|c rest]; [done|]. intros (_ & _ & H1 & H2). cbn [take_exponent].
  by rewrite !(proj2 (Z.eqb_neq _ _)).
Qed.

Lemma take_whole_natural n rest : 0 <= n -> ends_number rest -> take_whole (itoa n +:+ rest) = (itoa n, rest).
Proof.
  intros Hn Hrest. destruct (itoa_digits n Hn) as (c & ds & -> & Hc & Hds & Hzero & _). rewrite append_cons.
  unfold take_whole. destruct (Ascii.eqb_spec c "0") as [->|Hne]; [by rewrite Hzero|].
  rewrite <- append_cons. apply span_exact; [cbn; by rewrite Hc|]. destruct rest; [done|]. apply Hrest.
Qed.

Lemma take_unsigned_natural sign n rest :
  0 <= n -> ends_number rest -> take_unsigned sign (itoa n +:+ rest) = Some (sign +:+ itoa n, rest).
Proof.
  intros Hn Hrest. unfold take_unsigned. rewrite take_whole_natural by done.
  destruct (itoa_digits n Hn) as (c & ds & -> & _). cbn [String.eqb].
  by rewrite take_decimals_none, take_exponent_none, !string_app_nil by done.
Qed.

Lemma take_number_itoa z rest : ends_number rest -> take_number (itoa z +:+ rest) = Some (itoa z, rest).
Proof.
  intros Hrest. destruct (Z.lt_ge_cases z 0) as [Hz|Hz].
  - rewrite (itoa_negative z Hz). apply take_unsigned_natural; [lia|done].
  - pose proof (take_unsigned_natural "" z rest Hz Hrest) as Ht.
    destruct (itoa_digits z Hz) as (c & ds & Heq & Hc & _). rewrite Heq in *. rewrite append_cons in *.
    cbn [take_number]. destruct (Ascii.eqb_spec c "-") as [->|_]; [done|]. exact Ht.
Qed.

(** *** Documents *)

Section json_nested.
Variable P : json -> Prop.
Hypothesis Hnull : P JNull.
Hypothesis Hstring : forall s, P (JString s).
Hypothesis Hint : forall z, P (JInt z).
Hypothesis Harray : forall items, Forall P items -> P (JArray items).
Hypothesis Hobject : forall members, Forall (fun m => P m.2) members -> P (JObject members).

Fixpoint json_nested_ind (v : json) : P v :=
  match v with
  | JNull => Hnull
  | JString s => Hstring s
  | JInt z => Hint z
  | JArray items =>
      Harray items ((fix each l : Forall P l :=
        match l with [] => List.Forall_nil _ | x :: l => List.Forall_cons _ _ _ (json_nested_ind x) (each l) end) items)
  | JObject members =>
      Hobject members ((fix each l : Forall (fun m => P m.2) l :=
        match l with [] => List.Forall_nil _ | m :: l => List.Forall_cons _ _ _ (json_nested_ind m.2) (each l) end) members)
  end.
End json_nested.

(** How deep arrays and objects are nested. *)
Fixpoint nesting (v : json) : nat :=
  match v with
  | JArray items => S (foldr (fun x n => Nat.max (nesting x) n) 0%nat items)
  | JObject members => S (foldr (fun m n => Nat.max (nesting m.2) n) 0%nat members)
  | _ => 0%nat
  end.

(** Texts are UTF-8 and the keys of an object are distinct. *)
Fixpoint readable (v : json) : Prop :=
  match v with
  | JString s => ToValidUTF8 s = s
  | JArray items => foldr (fun x P => readable x /\ P) True items
  | JObject members =>
      NoDup members.*1 /\ foldr (fun m P => (ToValidUTF8 m.1 = m.1 /\ readable m.2) /\ P) True members
  | _ => True
  end.

Section roundtrip.
Context {D : Type}.

(** The dynamic value a document is read as. *)
Fixpoint json_any (v : json) : any D :=
  match v with
  | JNull => ANil
  | JString s => AString s
  | JInt z => ANumber (itoa z)
  | JArray items => ASlice (map json_any items)
  | JObject members => AMap (list_to_map (map (fun m => (m.1, json_any m.2)) members))
  end.

Definition reads (v : json) : Prop :=
  forall fuel depth rest,
    (2 * String.length (Marshal v +:+ rest) + 1 <= fuel)%nat -> (nesting v <= depth)%nat -> ends_number rest ->
    decode_value fuel depth (Marshal v +:+ rest) = Ok (json_any v, rest).

Lemma itoa_head z : exists c s, itoa z = String c s /\ (is_digit c = true \/ c = "-"%char).
Proof.
  destruct (Z.lt_ge_cases z 0) as [Hz|Hz].
  - rewrite (itoa_negative z Hz). exists "-"%char, (itoa (- z)). by split; [|right].
  - destruct (itoa_digits z Hz) as (c & ds & -> & Hc & _). exists c, ds. by split; [|left].
Qed.

Lemma reads_int z : reads (JInt z).
Proof.
  intros fuel depth rest Hf _ Hrest. destruct fuel as [|fuel]; [lia|]. cbn [Marshal decode_value].
  pose proof (take_number_itoa z rest Hrest) as Hn. destruct (itoa_head z) as (c & s & Heq & Hc).
  rewrite Heq in *. rewrite append_cons in *.
  assert (json_space c = false /\ 45 <= byte_of c <= 57) as [Hs Hb].
  { destruct Hc as [Hc| ->]; [|by split]. unfold is_digit, between in Hc. apply andb_true_iff in Hc as [H1 H2].
    apply Z.leb_le in H1, H2. change (byte_of "0") with 48 in H1. change (byte_of "9") with 57 in H2.
    split; [|lia]. unfold json_space. by rewrite !(proj2 (Z.eqb_neq _ _)) by lia. }
  cbn [skip_space]. rewrite Hs. cbv zeta. rewrite !(proj2 (Z.eqb_neq _ _)) by lia. cbn [orb]. rewrite Hn. cbn [json_any]. by rewrite Heq.
Qed.

Lemma reads_string s : ToValidUTF8 s = s -> reads (JString s).
Proof.
  intros Hs fuel depth rest Hf _ _. destruct fuel as [|fuel]; [lia|]. cbn [Marshal] in *.
  pose proof (unquote_quoted fuel s rest ltac:(lia)) as Hu. rewrite quoted_app.
  cbn [decode_value skip_space]. change (json_space "034") with false. cbv iota zeta. change (byte_of "034" =? 34)%Z with true.
  cbv iota. rewrite Hu. cbn [bind]. by rewrite !Hs.
Qed.

(** A text that starts with something else than white space. *)
Definition starts (s : string) : Prop := match s with String c _ => json_space c = false | EmptyString => False end.

Lemma skip_starts s rest : starts s -> skip_space (s +:+ rest) = s +:+ rest.
Proof. destruct s as [|c s]; [done|]. rewrite append_cons. cbn. by intros ->. Qed.

Lemma Marshal_head v : exists c s, Marshal v = String c s /\ json_space c = false /\ byte_of c <> 93.
Proof.
  destruct v as [|s|z|items|members]; cbn [Marshal].
  - by exists "n"%char, "ull".
  - eexists "034"%char, _. split; [reflexivity|done].
  - destruct (itoa_head z) as (c & s & -> & Hc). exists c, s. split; [done|].
    destruct Hc as [Hc| ->]; [|done]. destruct c as [[] [] [] [] [] [] [] []]; done.
  - by eexists "["%char, _.
  - by eexists "{"%char, _.
Qed.

Lemma concat_comma x y l : String.concat "," (x :: y :: l) = x +:+ "," +:+ String.concat "," (y :: l).
Proof. done. Qed.

Lemma decode_items_step fuel depth text (item : any D) rest :
  decode_value fuel depth text = Ok (item, rest) ->
  decode_items (S fuel) depth text =
  match skip_space rest with
  | EmptyString => Err json_error
  | String c rest =>
      if (byte_of c =? 44)%Z then '(items, rest) <- decode_items fuel depth rest ;; Ok (item :: items, rest)
      else if (byte_of c =? 93)%Z then Ok ([item], rest)
      else Err json_error
  end.
Proof. intros Hv. cbn [decode_items]. by rewrite Hv. Qed.

Lemma reads_items items fuel depth rest :
  Forall reads items -> items <> [] -> Forall (fun v => (nesting v <= depth)%nat) items ->
  (2 * String.length (String.concat "," (map Marshal items) +:+ String "]" rest) + 2 <= fuel)%nat ->
  decode_items fuel depth (String.concat "," (map Marshal items) +:+ String "]" rest) = Ok (map json_any items, rest).
Proof.
  intros Hreads Hne Hdepth. revert fuel. induction Hreads as [|v items Hv Hitems IH]; intros fuel Hf; [done|].
  destruct fuel as [|fuel]; [lia|]. apply Forall_cons in Hdepth as [Hd Hdepth]. destruct items as [|v2 items].
  - cbn [map String.concat] in *. by erewrite decode_items_step by (apply Hv; [lia|done|done]).
  - cbn [map] in *. rewrite concat_comma, !string_app_assoc in *.
    erewrite decode_items_step by (apply Hv; [lia|done|done]).
    rewrite append_cons, append_nil. cbn [skip_space]. change (json_space ",") with false. cbv iota.
    change (byte_of "," =? 44)%Z with true. cbv iota.
    change (Marshal v2 :: map Marshal items) with (map Marshal (v2 :: items)) in *.
    rewrite IH; [done|done|done|]. rewrite !length_append in *. cbn [String.length] in *. lia.
Qed.

Lemma max_depth {A} (f : A -> nat) l depth :
  (foldr (fun x n => Nat.max (f x) n) 0%nat l <= depth)%nat -> Forall (fun x => (f x <= depth)%nat) l.
Proof. induction l as [|x l IH]; cbn; [constructor|]. intros Hl. constructor; [lia|]. apply IH. lia. Qed.

Lemma reads_array items : Forall reads items -> reads (JArray items).
Proof.
  intros Hitems fuel depth rest Hf Hd Hrest. cbn [nesting] in Hd. destruct depth as [|depth]; [lia|]. destruct fuel as [|fuel]; [lia|].
  cbn [Marshal] in *. rewrite !string_app_assoc, append_cons, append_nil in *.
  change ("]" +:+ rest) with (String "]" rest) in *.
  cbn [decode_value skip_space]. change (json_space "[") with false. cbv iota zeta.
  change (byte_of "[" =? 34)%Z with false. change (byte_of "[" =? 91)%Z with true. cbn [orb]. cbv iota.
  destruct items as [|v items]; [done|].
  pose proof (reads_items (v :: items) fuel depth rest Hitems ltac:(done) (max_depth nesting (v :: items) depth ltac:(lia))) as Hread.
  destruct (Marshal_head v) as (c & s & Hv & Hspace & Hc).
  assert (exists tail, String.concat "," (map Marshal (v :: items)) +:+ String "]" rest = String c tail) as [tail Htail].
  { cbn [map]. rewrite Hv. destruct items; [|cbn [map]; rewrite concat_comma]; cbn [map String.concat];
      rewrite append_cons; by eexists. }
  rewrite Htail in *. cbn [skip_space]. rewrite Hspace. cbv iota.
  rewrite (proj2 (Z.eqb_neq (byte_of c) 93)) by done. rewrite Hread; [done|]. cbn [String.length] in *. lia.
Qed.

Definition member_text (m : string * json) : string := quoted m.1 +:+ ":" +:+ Marshal m.2.

Lemma decode_members_step fuel depth members key text (value : any D) rest :
  ToValidUTF8 key = key -> (String.length (quoted key +:+ String ":" text) <= fuel)%nat ->
  decode_value fuel depth text = Ok (value, rest) ->
  decode_members (S fuel) depth members (quoted key +:+ String ":" text) =
  match skip_space rest with
  | EmptyString => Err json_error
  | String c rest =>
      if (byte_of c =? 44)%Z then decode_members fuel depth (<[key := value]> members) rest
      else if (byte_of c =? 125)%Z then Ok (<[key := value]> members, rest)
      else Err json_error
  end.
Proof.
  intros Hkey Hf Hv. pose proof (unquote_quoted fuel key (String ":" text) Hf) as Hu. rewrite quoted_app.
  cbn [decode_members skip_space]. change (json_space "034") with false. cbv iota.
  change (byte_of "034" =? 34)%Z with true. cbn [negb]. cbv iota. rewrite Hu. cbn [bind skip_space].
  change (json_space ":") with false. cbv iota. change (byte_of ":" =? 58)%Z with true. cbn [negb]. cbv iota.
  rewrite Hv. cbn [bind].
  by rewrite !Hkey.
Qed.

Definition insert_members : gmap string (any D) -> list (string * json) -> gmap string (any D) :=
  foldl (fun members m => <[m.1 := json_any m.2]> members).

Ltac text_lengths :=
  rewrite ?length_append in *; cbn [String.length] in *; rewrite ?length_append in *; cbn [String.length] in *; lia.
Ltac member_side Hv := first [apply Hv; [text_lengths|done|done] | text_lengths | done].

Lemma reads_members ms fuel depth members rest :
  Forall (fun m => ToValidUTF8 m.1 = m.1 /\ reads m.2) ms -> ms <> [] -> Forall (fun m => (nesting m.2 <= depth)%nat) ms ->
  (2 * String.length (String.concat "," (map member_text ms) +:+ String "}" rest) + 2 <= fuel)%nat ->
  decode_members fuel depth members (String.concat "," (map member_text ms) +:+ String "}" rest) =
  Ok (insert_members members ms, rest).
Proof.
  intros Hreads Hne Hdepth. revert fuel members. induction Hreads as [|[k v] ms [Hk Hv] Hms IH]; intros fuel members Hf; [done|].
  destruct fuel as [|fuel]; [lia|]. apply Forall_cons in Hdepth as [Hd Hdepth]. destruct ms as [|m2 ms].
  - cbn [map String.concat] in *. unfold member_text in *. cbn [fst snd] in *. rewrite !string_app_assoc, append_cons, append_nil in *.
    rewrite !length_append in Hf. cbn [String.length] in Hf. rewrite !length_append in Hf.
    change (":" +:+ ?x) with (String ":" x). by erewrite decode_members_step by member_side Hv.
  - cbn [map] in *. rewrite concat_comma, !string_app_assoc in *.
    change (member_text m2 :: map member_text ms) with (map member_text (m2 :: ms)) in *.
    unfold member_text at 1 in Hf. unfold member_text at 1. cbn [fst snd] in *. rewrite !string_app_assoc in *.
    change (":" +:+ ?x) with (String ":" x) in *. change ("," +:+ ?x) with (String "," x) in *.
    set (tail := String.concat "," (map member_text (m2 :: ms)) +:+ String "}" rest) in *.
    rewrite !length_append in Hf. cbn [String.length] in Hf. rewrite !length_append in Hf. cbn [String.length] in Hf.
    erewrite decode_members_step by member_side Hv.
    cbn [skip_space]. change (json_space ",") with false. cbv iota. change (byte_of "," =? 44)%Z with true. cbv iota.
    rewrite IH by (done || lia). done.
Qed.

(** The members as they are written: some order of the object's. *)
Lemma object_text_members members :
  exists ordered, ordered ≡ₚ members /\
    Marshal (JObject members) = "{" +:+ String.concat "," (map member_text ordered) +:+ "}".
Proof.
  cbn [Marshal]. unfold object_text.
  destruct (Permutation_map_inv (fun m : string * json => (m.1, Marshal m.2)) members
    (l1:=merge_sort key_le (map (fun m => (m.1, Marshal m.2)) members))) as (ordered & Heq & Hperm).
  { apply merge_sort_Permutation. }
  exists ordered. split; [by symmetry|]. rewrite Heq, map_map. done.
Qed.

Lemma insert_members_lookup ms members :
  NoDup ms.*1 -> insert_members members ms = list_to_map (map (fun m => (m.1, json_any m.2)) ms) ∪ members.
Proof.
  revert members. induction ms as [|[k v] ms IH]; intros members Hnd; cbn [insert_members foldl map list_to_map foldr].
  - by rewrite (left_id_L ∅ (∪)).
  - apply NoDup_cons in Hnd as [Hk Hnd]. change (foldl _ ?m ms) with (insert_members m ms). rewrite IH by done.
    cbn [fst snd]. rewrite <- insert_union_l, insert_union_r; [done|].
    apply not_elem_of_list_to_map_1. intros Hin. apply Hk.
    change (map ?f ms) with (f <$> ms) in Hin. by rewrite <- list_fmap_compose in Hin.
Qed.

Lemma reads_object members :
  NoDup members.*1 -> Forall (fun m => ToValidUTF8 m.1 = m.1 /\ reads m.2) members -> reads (JObject members).
Proof.
  intros Hnd Hms fuel depth rest Hf Hd Hrest. destruct depth as [|depth]; [cbn in Hd; lia|].
  assert (Forall (fun m => (nesting m.2 <= depth)%nat) members) as Hdepth
    by (apply (max_depth (fun m => nesting m.2)); cbn [nesting] in Hd; lia).
  destruct fuel as [|fuel]; [lia|]. destruct (object_text_members members) as (ordered & Hperm & Htext). rewrite Htext in *.
  rewrite <- Hperm in Hms, Hdepth.
  assert (insert_members ∅ ordered = list_to_map (map (fun m => (m.1, json_any m.2)) members)) as Hmap.
  { rewrite insert_members_lookup by (by rewrite Hperm). rewrite (right_id_L ∅ (∪)).
    apply list_to_map_proper; [|by apply Permutation_map].
    change (map ?f ordered) with (f <$> ordered). rewrite <- list_fmap_compose. cbn. by rewrite Hperm. }
  rewrite !string_app_assoc, append_cons, append_nil in *. change ("}" +:+ rest) with (String "}" rest) in *.
  cbn [decode_value skip_space]. change (json_space "{") with false. cbv iota zeta.
  change (byte_of "{" =? 34)%Z with false. change (byte_of "{" =? 91)%Z with false.
  change (byte_of "{" =? 123)%Z with true. cbn [orb]. cbv iota. cbn [json_any]. rewrite <- Hmap.
  destruct ordered as [|m ms]; [done|].
  pose proof (reads_members (m :: ms) fuel depth ∅ rest Hms ltac:(done) Hdepth) as Hread.
  assert (exists tail, String.concat "," (map member_text (m :: ms)) +:+ String "}" rest = String "034" tail) as [tail Htail].
  { cbn [map]. unfold member_text at 1, quoted. destruct ms; [|cbn [map]; rewrite concat_comma]; cbn [map String.concat];
      rewrite !append_cons; by eexists. }
  rewrite Htail in *. cbn [skip_space]. change (json_space "034") with false. cbv iota.
  change (byte_of "034" =? 125)%Z with false. cbv iota. rewrite Hread; [done|]. cbn [String.length] in *. lia.
Qed.

Lemma readable_reads v : readable v -> reads v.
Proof.
  induction v as [|s|z|items IH|members IH] using json_nested_ind; cbn [readable].
  - intros _ fuel depth rest Hf _ _. destruct fuel as [|fuel]; [lia|]. done.
  - apply reads_string.
  - intros _. apply reads_int.
  - intros Hr. apply reads_array. induction IH as [|x items Hx _ IH']; [constructor|]. destruct Hr as [Hr Hrs].
    constructor; [by apply Hx|by apply IH'].
  - intros [Hnd Hr]. apply reads_object; [done|]. clear Hnd. induction IH as [|m members Hm _ IH']; [constructor|].
    destruct Hr as [[Hk Hr] Hrs]. constructor; [split; [done|by apply Hm]|by apply IH'].
Qed.
End roundtrip.

(** C7: [json.Marshal] and [decodeJSONUseNumber] are inverse on documents
    whose texts are UTF-8, whose objects repeat no key and that nest no deeper
    than the decoder allows: every string with its escapes, every integer as
    its digits, and every member whatever order the keys were written in. *)
Theorem decodeJSONUseNumber_Marshal {D} (v : json) :
  readable v -> (nesting v <= maxNestingDepth)%nat -> decodeJSONUseNumber (Marshal v) = Ok (@json_any D v).
Proof.
  intros Hv Hd. unfold decodeJSONUseNumber.
  pose proof (@readable_reads D v Hv (S (2 * String.length (Marshal v))) maxNestingDepth "") as Hr.
  rewrite string_app_nil in Hr. rewrite Hr; [done|lia|done|done].
Qed.

(** A quote, a bracket, a line feed, a letter and a separator beyond ASCII. *)
Definition sample_document : json :=
  JObject [("b", JString (chars [34; 60; 10; 195; 169; 226; 128; 168])); ("a", JArray [JInt (-12); JNull; JObject []])].

Lemma decodeJSONUseNumber_Marshal_witness : @decodeJSONUseNumber Z (Marshal sample_document) = Ok (json_any sample_document).
Proof.
  apply decodeJSONUseNumber_Marshal.
  - cbn. split; [repeat constructor; set_solver|]. split_and!; try done; try constructor; vm_compute; reflexivity.
  - cbn. unfold maxNestingDepth. lia.
Defined.
