(* ===== verification/PostgresClient.v ===== *)
(** * postgres_client.go: transactions of the PostgreSQL client

    The client's options and construction, [WithTx] with its deferred release
    and rollback, the configuration of a transaction, [Call] and [Query], and
    the classification of the driver's failures.  What pgx does (acquire,
    begin, execute, query, commit, roll back) is a call, and a failure of the
    driver is what [errors.Is] and [errors.As] can tell of it. *)

From S2P Require Export Protocols Json ProviderRegistry.
Local Open Scope Z_scope.
Local Open Scope go_scope.

Record driver_failure := {
  Failure_Text : string;
  Failure_DeadlineExceeded : bool;           (* errors.Is(err, context.DeadlineExceeded) *)
  Failure_Canceled : bool;                   (* errors.Is(err, context.Canceled) *)
  Failure_Code : option string;              (* errors.As to a pgconn.PgError: its SQLSTATE *)
  Failure_TxClosed : bool;                   (* errors.Is(err, pgx.ErrTxClosed) *)
}.

(** An error a transaction meets: the driver's, or one of Go code. *)
Inductive pg_error := Driver (failure : driver_failure) | GoError (err : error).

(** [pgtype.Numeric]: [Int * 10^Exp] when it is a finite number. *)
Record Numeric := {
  Numeric_Int : option Z;
  Numeric_Exp : Z;
  Numeric_NaN : bool;
  Numeric_Finite : bool;
  Numeric_Valid : bool;
}.

Section client.
Context {D : Type}.

(** What pgx scans into an [any]: a plain value, or one of the types the code
    tells apart.  [Other] is any other value, with the text fmt.Sprint (or its
    String method) gives; a time carries the text of its String method. *)
Inductive cell :=
  | Value (v : any D)
  | Bytes (text : string)
  | UUIDValue (valid : bool) (bytes : list Z)
  | Bytes16 (bytes : list Z)
  | NumericValue (n : Numeric) (text : string)
  | TimeValue (t : Time) (text : string)
  | Other (text : string).

Definition row : Type := gmap string cell.

(** An argument of a query: values, and documents pgx encodes as JSON. *)
Inductive argument :=
  | ArgNil
  | ArgText (s : string)
  | ArgTexts (texts : option (list string))  (* a nil slice is NULL *)
  | ArgInt (z : Z)
  | ArgBool (b : bool)
  | ArgTime (t : Time)
  | ArgJSON (document : any D).

(** What a query answers: the fields, with whether their type is json or
    jsonb, and the values of each row. *)
Record query_rows := {
  Rows_Fields : list (string * bool);
  Rows_Values : list (list cell);
}.

Inductive tx_call := TxQuery (sql : string) (arguments : list argument).
Definition tx_answer (c : tx_call) : Type := (driver_failure + query_rows)%type.

Inductive pg_call :=
  | ClientOpen                               (* the pool is there and not closed *)
  | PoolAcquire
  | OnPoolError (err : error)
  | BeginTx
  | Exec (sql : string) (arguments : list string)
  | InTx (c : tx_call)
  | Commit
  | Rollback
  | CloseConnection
  | Release.

Definition pg_answer (c : pg_call) : Type :=
  match c with
  | ClientOpen => bool
  | PoolAcquire | BeginTx | Exec _ _ | Commit | Rollback => option driver_failure
  | OnPoolError _ | CloseConnection | Release => unit
  | InTx c => tx_answer c
  end.
End client.
Arguments cell : clear implicits.
Arguments row : clear implicits.
Arguments argument : clear implicits.
Arguments query_rows : clear implicits.
Arguments tx_call : clear implicits.
Arguments pg_call : clear implicits.

(** ** Options *)

Definition PostgresAccessRoleClient := "bursar_client".
Definition PostgresAccessRoleOperator := "bursar_operator".
Definition usageBackendPostgres := "postgres".
Definition usageBackendClickHouse := "clickhouse".
Definition payloadBackendPostgres := "postgres".
Definition payloadBackendS3 := "s3".

Record PostgresClientOptions := {
  Options_TenantID : string;
  Options_AccessRole : string;
  Options_UsageBackend : string;
  Options_BillingPayloadBackend : string;
  Options_ProviderEnvironment : string;
  Options_ConnectionTimeout : Z;
  Options_StatementTimeout : Z;
  Options_IdleTransactionTimeout : Z;
  Options_MaxConnections : Z;
  Options_ApplicationName : string;
  Options_HasOnPoolError : bool;
}.

Definition option_error (message : string) : error := errorf ErrorCode.Config ErrorCategory.InvalidRequest message.

(** The loop over the characters of a tenant ID. *)
Fixpoint tenant_characters (index : nat) (l : list ascii) : bool :=
  match l with
  | [] => true
  | c :: rest =>
      (if (index =? 8)%nat || (index =? 13)%nat || (index =? 18)%nat || (index =? 23)%nat then Ascii.eqb c "-"
       else is_digit c || between "a" "f" c) && tenant_characters (S index) rest
  end.

Definition normalizeTenantID (value : string) : result string :=
  let value := ToLower (TrimSpace value) in
  if (String.length value =? 36)%nat && tenant_characters 0 (list_ascii_of_string value) then Ok value
  else Err (option_error "tenant ID must be a UUID").

(** [if value == zero { value = fallback }] *)
Definition or_text (value fallback : string) : string := if value =? "" then fallback else value.
Definition or_number (value fallback : Z) : Z := if (value =? 0)%Z then fallback else value.

Definition one_of_two (field value first second : string) : result unit :=
  if (value =? first) || (value =? second) then Ok tt
  else Err (option_error (field +:+ " must be " +:+ Quote first +:+ " or " +:+ Quote second)).

Definition not_negative (setting : string * Z) : result unit :=
  if snd setting <? 0 then Err (option_error (fst setting +:+ " must not be negative")) else Ok tt.

Definition normalized (o : PostgresClientOptions) : result PostgresClientOptions :=
  tenantID <- (if Options_TenantID o =? "" then Ok "" else normalizeTenantID (Options_TenantID o)) ;;
  let accessRole :=
    if (Options_AccessRole o =? "") && negb (tenantID =? "") then PostgresAccessRoleClient else Options_AccessRole o in
  (if accessRole =? "" then Ok tt
   else one_of_two "access role" accessRole PostgresAccessRoleClient PostgresAccessRoleOperator) ;;;
  let usageBackend := or_text (Options_UsageBackend o) usageBackendPostgres in
  one_of_two "usage backend" usageBackend usageBackendPostgres usageBackendClickHouse ;;;
  let billingPayloadBackend := or_text (Options_BillingPayloadBackend o) payloadBackendPostgres in
  one_of_two "billing payload backend" billingPayloadBackend payloadBackendPostgres payloadBackendS3 ;;;
  let environment := or_text (Options_ProviderEnvironment o) ProviderEnvironmentLive in
  match ProviderRegistry.Validate environment with
  | Err err =>
      Err (NewError "invalid provider environment"
             (error_options ErrorCode.Config ErrorCategory.InvalidRequest (Some err)))
  | Ok _ =>
      let connectionTimeout := or_number (Options_ConnectionTimeout o) (10 * Second) in
      let statementTimeout := or_number (Options_StatementTimeout o) (30 * Second) in
      let idleTransactionTimeout := or_number (Options_IdleTransactionTimeout o) (30 * Second) in
      for_each not_negative
        [("connection timeout", connectionTimeout); ("statement timeout", statementTimeout);
         ("idle transaction timeout", idleTransactionTimeout)] ;;;
      let maxConnections := or_number (Options_MaxConnections o) 20 in
      if maxConnections <? 1 then Err (option_error "max connections must be positive")
      else
        let applicationName := or_text (TrimSpace (Options_ApplicationName o)) "bursar-go" in
        if Contains applicationName (String "000" "")
        then Err (option_error "application name must not contain a null byte")
        else Ok {| Options_TenantID := tenantID; Options_AccessRole := accessRole; Options_UsageBackend := usageBackend;
                   Options_BillingPayloadBackend := billingPayloadBackend; Options_ProviderEnvironment := environment;
                   Options_ConnectionTimeout := connectionTimeout; Options_StatementTimeout := statementTimeout;
                   Options_IdleTransactionTimeout := idleTransactionTimeout; Options_MaxConnections := maxConnections;
                   Options_ApplicationName := applicationName; Options_HasOnPoolError := Options_HasOnPoolError o |}
  end.

(** A client over a pool of its own or a borrowed one; the pool and whether it
    was closed are state, read by [ClientOpen]. *)
Record PostgresClient := {
  Client_Options : PostgresClientOptions;
  Client_Owned : bool;
}.

Definition NewPostgresClientFromPool (pool : bool) (options : PostgresClientOptions) : result PostgresClient :=
  if negb pool then Err (option_error "PostgreSQL pool is required")
  else
    options <- normalized options ;;
    Ok {| Client_Options := options; Client_Owned := false |}.

Definition TenantID (c : option PostgresClient) : string :=
  match c with None => "" | Some c => Options_TenantID (Client_Options c) end.
Definition OwnsPool (c : option PostgresClient) : bool :=
  match c with None => false | Some c => Client_Owned c end.

(** ** Failures *)

(** [ErrorOptions{Code: code}] for NewStoreError *)
Definition store_code (code : string) : ErrorOptions :=
  {| opt_Code := code; opt_Category := ""; opt_Retryable := false; opt_Indeterminate := false;
     opt_Details := ∅; opt_Cause := None |}.

(** The failure a structured store error becomes once the transaction may have
    had an effect. *)
Definition indeterminate_error (err : error) : error :=
  match err with
  | BursarError message code category retryable _ details _ =>
      NewStoreError message
        {| opt_Code := code; opt_Category := category; opt_Retryable := retryable; opt_Indeterminate := true;
           opt_Details := details; opt_Cause := Some err |}
  | _ => err
  end.

Definition error_indeterminate (err : error) : bool :=
  match err with BursarError _ _ _ _ indeterminate _ _ => indeterminate | _ => false end.

Definition connection_code (code : string) : bool :=
  HasPrefix code "08" || (code =? "57P01") || (code =? "57P02") || (code =? "57P03").

Definition failed_options (indeterminate : bool) (details : gmap string string) (cause : error) : ErrorOptions :=
  {| opt_Code := ""; opt_Category := ""; opt_Retryable := false; opt_Indeterminate := indeterminate;
     opt_Details := details; opt_Cause := Some cause |}.

Definition normalizePostgresError (err : pg_error) (operation : string) (indeterminate : bool) : error :=
  match err with
  | GoError err =>
      match AsBursarError err with
      | Some bursarErr =>
          if indeterminate && (error_code bursarErr =? ErrorCode.Store) && negb (error_indeterminate bursarErr)
          then indeterminate_error bursarErr
          else bursarErr
      | None => NewStoreError (operation +:+ " failed") (failed_options indeterminate ∅ err)
      end
  | Driver failure =>
      let cause := ExternalError (Failure_Text failure) in
      if Failure_DeadlineExceeded failure then NewStoreTimeoutError (operation +:+ " timed out") (Some cause)
      else if Failure_Canceled failure then
        NewError (operation +:+ " canceled") (error_options ErrorCode.Store ErrorCategory.Unavailable (Some cause))
      else
        match Failure_Code failure with
        | Some code =>
            if code =? "57014" then NewStoreTimeoutError (operation +:+ " timed out") (Some cause)
            else if connection_code code then NewStoreUnavailableError (operation +:+ " is unavailable") (Some cause)
            else NewStoreError (operation +:+ " failed") (failed_options indeterminate {["postgres_code" := code]} cause)
        | None => NewStoreError (operation +:+ " failed") (failed_options indeterminate ∅ cause)
        end
  end.

(** ** Transactions *)

Section transactions.
Context {D : Type}.
Notation prog := (prog (@pg_answer D)).
Notation tx_prog := (Effects.prog (@tx_answer D)).
Implicit Types (client : option PostgresClient) (c : PostgresClient).

(** A JSON column is read into a byte slice of its own, NULL into an empty
    one that is not nil. *)
Definition column_value (is_json : bool) (v : cell D) : cell D :=
  if is_json then match v with Bytes text => Bytes text | _ => Bytes "" end else v.

(** The columns of a row, the last one of a name for that name. *)
Definition collect_row (fields : list (string * bool)) (values : list (cell D)) : row D :=
  foldl (fun r '((name, is_json), v) => <[name := column_value is_json v]> r) ∅ (zip fields values).

Definition collectPostgresRows (rows : query_rows D) : list (row D) :=
  map (collect_row (Rows_Fields rows)) (Rows_Values rows).

(** The text of a function's call: a placeholder per argument. *)
Definition rpc_query (name : string) (arguments : list (argument D)) : string :=
  "SELECT * FROM " +:+ name +:+ "(" +:+
  String.concat ", " (imap (fun index _ => "$" +:+ itoa (Z.of_nat index + 1)) arguments) +:+ ")".

(** [tx.query] and [tx.call]: the rows, or an error not yet classified. *)
Definition tx_query (sql : string) (arguments : list (argument D)) : tx_prog (pg_error + list (row D)) :=
  Do (TxQuery sql arguments) (fun answered =>
    ret match answered with
        | inl failure => inl (Driver failure)
        | inr rows => inr (collectPostgresRows rows)
        end).

Definition tx_rpc (name : string) (arguments : list (argument D)) : tx_prog (pg_error + list (row D)) :=
  if negb (is_identifier name)
  then ret (inl (GoError (option_error "invalid PostgreSQL RPC name")))
  else tx_query (rpc_query name arguments) arguments.

Definition classified {A} (operation : string) (p : tx_prog (pg_error + A)) : tx_prog A :=
  outcome <~ p ;;
  match outcome with
  | inl err => raise (normalizePostgresError err operation true)
  | inr a => ret a
  end.

(** [tx.Call] and [tx.Query] *)
Definition Call (name : string) (arguments : list (argument D)) : tx_prog (list (row D)) :=
  classified "execute PostgreSQL RPC" (tx_rpc name arguments).
Definition Query (sql : string) (arguments : list (argument D)) : tx_prog (list (row D)) :=
  classified "execute PostgreSQL query" (tx_query sql arguments).

(** A call of the driver that answers an error or nil. *)
Definition exec (c : pg_call D) (failed : pg_answer c -> option driver_failure) (operation : string) (indeterminate : bool) : prog unit :=
  Do c (fun answered =>
    match failed answered with
    | None => ret tt
    | Some failure => raise (normalizePostgresError (Driver failure) operation indeterminate)
    end).

Definition notifyPoolError c (err : error) : prog unit :=
  if Options_HasOnPoolError (Client_Options c) then Do (OnPoolError err) (fun _ => ret tt) else ret tt.

(** [acquire] *)
Definition acquire client : prog PostgresClient :=
  match client with
  | None => raise (NewStoreError "PostgreSQL client is nil" (store_code ErrorCode.StoreClosed))
  | Some c =>
      Do ClientOpen (fun open : bool =>
        if negb open then
          raise (NewError "PostgreSQL client has been closed"
                   (error_options ErrorCode.StoreClosed ErrorCategory.Unavailable None))
        else
          Do PoolAcquire (fun failed : option driver_failure =>
            match failed with
            | None => ret c
            | Some failure =>
                let classified := normalizePostgresError (Driver failure) "acquire PostgreSQL connection" false in
                notifyPoolError c classified ;;~ raise classified
            end))
  end.

Definition postgresTimeout (value : Z) : string := itoa (Z.quot value 1000000).

Definition timeouts_sql : string :=
  "SELECT set_config('statement_timeout', $1, true), set_config('idle_in_transaction_session_timeout', $2, true)".
Definition tenant_sql : string :=
  "SELECT set_config('bursar.tenant_id', $1, true), set_config('bursar.usage_backend', $2, true), set_config('bursar.billing_payload_backend', $3, true), set_config('bursar.provider_environment', $4, true)".
Definition path_sql : string := "SET LOCAL search_path TO bursar, public".

(** The statements of [configure], in order. *)
Definition settings (o : PostgresClientOptions) : list (string * list string) :=
  (if Options_AccessRole o =? "" then [] else [("SET LOCAL ROLE " +:+ Options_AccessRole o, [])]) ++
  [(timeouts_sql, [postgresTimeout (Options_StatementTimeout o); postgresTimeout (Options_IdleTransactionTimeout o)])] ++
  (if Options_TenantID o =? "" then []
   else [(tenant_sql, [Options_TenantID o; Options_UsageBackend o; Options_BillingPayloadBackend o;
                       Options_ProviderEnvironment o])]) ++
  [(path_sql, [])].

Fixpoint configure (statements : list (string * list string)) : prog unit :=
  match statements with
  | [] => ret tt
  | (sql, arguments) :: rest =>
      exec (Exec sql arguments) id "configure PostgreSQL transaction" false ;;~ configure rest
  end.

(** A program of queries, in the client's transaction. *)
Definition in_tx {A} (p : tx_prog A) : prog A := embed InTx (fun _ x => x) p.

(** The callback, its error classified; a panic goes on. *)
Definition callback_result {A} (callback : tx_prog (pg_error + A)) : prog A :=
  pcatch (in_tx callback) (fun outcome =>
    match outcome with
    | Ok (inr a) => ret a
    | Ok (inl err) => raise (normalizePostgresError err "execute PostgreSQL transaction" true)
    | Err (GoPanic message) => raise (GoPanic message)
    | Err err => raise (normalizePostgresError (GoError err) "execute PostgreSQL transaction" true)
    end).

(** The deferred rollback, when the transaction was not committed: a
    connection that cannot be rolled back is closed. *)
Definition rolled_back {A} (err : error) : prog A :=
  Do Rollback (fun failed : option driver_failure =>
    match failed with
    | Some failure =>
        if Failure_TxClosed failure then raise err else Do CloseConnection (fun _ => raise err)
    | None => raise err
    end).

Definition transaction {A} c (callback : tx_prog (pg_error + A)) : prog A :=
  exec BeginTx id "begin PostgreSQL transaction" false ;;~
  pcatch
    (configure (settings (Client_Options c)) ;;~
     a <~ callback_result callback ;;
     exec Commit id "commit PostgreSQL transaction" true ;;~
     ret a)
    (fun outcome => match outcome with Ok a => ret a | Err err => rolled_back err end).

(** [WithTx], with the release it defers *)
Definition WithTx {A} client (callback : option (tx_prog (pg_error + A))) : prog A :=
  match callback with
  | None => raise (option_error "PostgreSQL transaction callback is required")
  | Some callback =>
      c <~ acquire client ;;
      pcatch (transaction c callback) (fun outcome => Do Release (fun _ => Done outcome))
  end.

(** [PostgresClient.Call] and [Query]: one statement in a transaction *)
Definition Client_Call client (name : string) (arguments : list (argument D)) : prog (list (row D)) :=
  WithTx client (Some (tx_rpc name arguments)).
Definition Client_Query client (sql : string) (arguments : list (argument D)) : prog (list (row D)) :=
  WithTx client (Some (tx_query sql arguments)).
End transactions.

(** ** What a transaction does *)

Section transaction_facts.
Context {D : Type}.
Notation event := (event (@pg_answer D)).
Notation tx_event := (Effects.event (@tx_answer D)).
Notation "c ↦ x" := (existT c x : event) (at level 60).

(** A query of the callback, as a call of the client. *)
Definition in_tx_event : tx_event -> event := up_event InTx (fun _ x => x).

Lemma in_tx_runs {A} (p : prog (@tx_answer D) A) t r :
  runs (in_tx p) t r -> exists t', t = in_tx_event <$> t' /\ runs p t' r.
Proof. intros Hr. eapply embed_runs in Hr; [exact Hr|by intros c x]. Qed.

(** The statements that configure the transaction, done. *)
Definition executed (statement : string * list string) : event := Exec statement.1 statement.2 ↦ None.

(** The calls that open a transaction and configure it. *)
Definition opening (c : PostgresClient) : list event :=
  [ClientOpen ↦ true; PoolAcquire ↦ None; BeginTx ↦ None] ++ (executed <$> settings (Client_Options c)).

(** A rollback; where it fails, but for a transaction already closed, the
    connection is closed. *)
Definition rolls_back (t : list event) : Prop :=
  t = [Rollback ↦ None] \/
  exists failure, t = (Rollback ↦ Some failure) :: if Failure_TxClosed failure then [] else [CloseConnection ↦ tt].

(** The error a callback that did not succeed ends the transaction with. *)
Definition callback_error {A} (outcome : result (pg_error + A)) (err : error) : Prop :=
  match outcome with
  | Ok (inr _) => False
  | Ok (inl failed) => err = normalizePostgresError failed "execute PostgreSQL transaction" true
  | Err (GoPanic message) => err = GoPanic message
  | Err failed => err = normalizePostgresError (GoError failed) "execute PostgreSQL transaction" true
  end.

(** A call before or after the work of a transaction. *)
Definition aside (ev : event) : Prop := match projT1 ev with InTx _ | Commit => False | _ => True end.

Definition acquired (ev : event) : Prop := match ev with existT PoolAcquire None => True | _ => False end.
Definition begun (ev : event) : Prop := match ev with existT BeginTx None => True | _ => False end.

(** A run that never got to the callback: no query and no commit; what was
    begun is rolled back, and what was acquired is released. *)
Definition unopened (t : list event) : Prop :=
  Forall aside t /\
  (Exists acquired t -> last t = Some (Release ↦ tt)) /\
  (Exists begun t -> exists before after, t = before ++ after ++ [Release ↦ tt] /\ rolls_back after).

Lemma exec_runs (c : pg_call D) failed operation indeterminate t r :
  runs (exec c failed operation indeterminate) t r ->
  exists x, t = [c ↦ x] /\
    match failed x with
    | None => r = Ok tt
    | Some failure => r = Err (normalizePostgresError (Driver failure) operation indeterminate)
    end.
Proof. intros (x & t' & -> & Hr). exists x. destruct (failed x); by destruct Hr as [-> ->]. Qed.

Lemma configure_runs statements t r :
  runs (@configure D statements) t r ->
  (t = executed <$> statements /\ r = Ok tt) \/ (Forall aside t /\ ~ Exists begun t /\ exists err, r = Err err).
Proof.
  revert t r. induction statements as [|[sql arguments] rest IH]; intros t r; [by intros [-> ->]; left|].
  intros [(t1 & [] & t2 & -> & (x & -> & Hx)%exec_runs & Hr)|(err & (x & -> & Hx)%exec_runs & ->)]%runs_bind.
  - cbn in x, Hx. destruct x as [failure|]; [done|]. destruct (IH _ _ Hr) as [[-> ->]|(Ha & Hb & err & ->)]; [by left|].
    right. split_and!; [by constructor| |by eexists]. by intros [[]|]%Exists_cons.
  - right. split_and!; [by repeat constructor| |by eexists]. by intros [[]|[]%Exists_nil]%Exists_cons.
Qed.

Lemma rolled_back_runs {A} err t (r : result A) :
  runs (@rolled_back D A err) t r -> rolls_back t /\ r = Err err.
Proof.
  intros (x & t' & -> & Hr). destruct x as [failure|]; [|destruct Hr as [-> ->]; split; [by left|done]].
  unfold rolls_back. destruct (Failure_TxClosed failure) eqn:Hc.
  - destruct Hr as [-> ->]. split; [right; exists failure; by rewrite Hc|done].
  - destruct Hr as ([] & t2 & -> & -> & ->). split; [right; exists failure; by rewrite Hc|done].
Qed.

Lemma rolls_back_aside t : rolls_back t -> Forall aside t.
Proof. intros [->|[failure ->]]; [by repeat constructor|]. destruct (Failure_TxClosed _); by repeat constructor. Qed.

(** The end of a transaction whose callback answered [outcome]. *)
Definition ends {A} (outcome : result (pg_error + A)) (t : list event) (r : result A) : Prop :=
  match outcome with
  | Ok (inr a) =>
      (t = [Commit ↦ None] /\ r = Ok a) \/
      exists failure after, t = (Commit ↦ Some failure) :: after /\ rolls_back after /\
        r = Err (normalizePostgresError (Driver failure) "commit PostgreSQL transaction" true)
  | _ => rolls_back t /\ exists err, callback_error outcome err /\ r = Err err
  end.

Lemma callback_result_runs {A} (callback : prog (@tx_answer D) (pg_error + A)) t r :
  runs (callback_result callback) t r ->
  exists queries outcome, t = in_tx_event <$> queries /\ runs callback queries outcome /\
    match outcome with
    | Ok (inr a) => r = Ok a
    | _ => exists err, callback_error outcome err /\ r = Err err
    end.
Proof.
  intros (t1 & outcome & t2 & -> & (queries & -> & Hq)%in_tx_runs & Hr)%runs_catch.
  exists queries, outcome. destruct outcome as [[err|a]|[]]; destruct Hr as [-> ->]; rewrite app_nil_r;
    (split; [done|split; [done|]]); try done; by eexists.
Qed.

(** After the configuration: the queries, and the end. *)
Lemma committed_runs {A} (callback : prog (@tx_answer D) (pg_error + A)) t (r : result A) :
  runs (pcatch (a <~ callback_result callback ;; exec Commit id "commit PostgreSQL transaction" true ;;~ ret a)
          (fun outcome => match outcome with Ok a => ret a | Err err => rolled_back err end)) t r ->
  exists queries outcome after, t = (in_tx_event <$> queries) ++ after /\ runs callback queries outcome /\ ends outcome after r.
Proof.
  intros (t1 & x & t2 & -> & Hx & Hr)%runs_catch.
  apply runs_bind in Hx as [(t3 & a & t4 & -> & (queries & outcome & -> & Hq & Ho)%callback_result_runs & Hc)
                           |(err & (queries & outcome & -> & Hq & Ho)%callback_result_runs & ->)].
  - destruct outcome as [[failed|a']|failed]; [by destruct Ho as (err & _ & [=])| |by destruct Ho as (err & _ & [=])].
    injection Ho as <-. exists queries, (Ok (inr a)).
    apply runs_bind in Hc as [(t5 & [] & t6 & -> & (f & -> & Hf)%exec_runs & [-> ->])|(err & (f & -> & Hf)%exec_runs & ->)];
      cbn in f, Hf; destruct f as [failure|]; try done.
    + destruct Hr as [-> ->]. exists [Commit ↦ None]. rewrite !app_nil_r. split; [done|]. split; [done|by left].
    + injection Hf as ->. apply rolled_back_runs in Hr as [Hrb ->]. exists ((Commit ↦ Some failure) :: t2).
      rewrite <- app_assoc. split; [done|]. split; [done|]. right. by exists failure, t2.
  - apply rolled_back_runs in Hr as [Hrb ->]. exists queries, outcome, t2. split; [done|]. split; [done|].
    destruct outcome as [[failed|a]|failed]; [|by inversion Ho|]; (split; [done|]; destruct Ho as (e & He & [= ->]); by eexists).
Qed.

Lemma unopened_released t : Forall aside t -> ~ Exists begun t -> unopened (t ++ [Release ↦ tt]).
Proof.
  intros Ha Hb. split_and!; [apply Forall_app; by repeat constructor| |].
  - intros _. by rewrite last_snoc.
  - by intros [Hin|[[]|[]%Exists_nil]%Exists_cons]%Exists_app.
Qed.

Lemma unacquired t : Forall aside t -> ~ Exists acquired t -> ~ Exists begun t -> unopened t.
Proof. by intros Ha Hp Hb. Qed.

(** Of a list of calls of the opening, none began or acquired. *)
Ltac no_event := rewrite ?Exists_cons, ?Exists_nil; cbn; tauto.

Lemma acquire_runs client t r :
  runs (@acquire D client) t r ->
  (exists c, client = Some c /\ t = [ClientOpen ↦ true; PoolAcquire ↦ None] /\ r = Ok c) \/ (unopened t /\ exists err, r = Err err).
Proof.
  destruct client as [c|]; [|intros [-> ->]; right; split; [apply unacquired; [constructor|no_event..]|by eexists]].
  intros (open & t1 & -> & Hr). destruct open; cbn in Hr.
  - destruct Hr as (x & t2 & -> & Hr). destruct x as [failure|]; [|destruct Hr as [-> ->]; left; by exists c].
    right. unfold notifyPoolError in Hr. destruct (Options_HasOnPoolError _); cbn in Hr.
    + destruct Hr as ([] & t3 & -> & -> & ->). split; [|by eexists]. apply unacquired; [by repeat constructor|no_event..].
    + destruct Hr as [-> ->]. split; [|by eexists]. apply unacquired; [by repeat constructor|no_event..].
  - destruct Hr as [-> ->]. right. split; [|by eexists]. apply unacquired; [by repeat constructor|no_event..].
Qed.

Lemma not_configured_runs {A} t1 t2 err (r : result A) :
  Forall aside t1 -> runs (rolled_back err) t2 r ->
  unopened ([ClientOpen ↦ true; PoolAcquire ↦ None; BeginTx ↦ None] ++ (t1 ++ t2) ++ [Release ↦ tt]) /\ r = Err err.
Proof.
  intros Ha [Hrb ->]%rolled_back_runs. split; [|done]. split_and!.
  - rewrite !Forall_app. split_and!; [by repeat constructor|done|by apply rolls_back_aside|by repeat constructor].
  - intros _. by rewrite app_assoc, last_snoc.
  - intros _. exists ([ClientOpen ↦ true; PoolAcquire ↦ None; BeginTx ↦ None] ++ t1), t2. split; [|done]. by rewrite <- !app_assoc.
Qed.

(** A transaction that is acquired: begun, configured, run and ended. *)
Lemma transaction_runs {A} c (callback : prog (@tx_answer D) (pg_error + A)) t (r : result A) :
  runs (transaction c callback) t r ->
  (unopened ([ClientOpen ↦ true; PoolAcquire ↦ None] ++ t ++ [Release ↦ tt]) /\ exists err, r = Err err) \/
  exists queries outcome after,
    t = (BeginTx ↦ None) :: (executed <$> settings (Client_Options c)) ++ (in_tx_event <$> queries) ++ after /\
    runs callback queries outcome /\ ends outcome after r.
Proof.
  unfold transaction. intros [(t1 & [] & t2 & -> & (x & -> & Hx)%exec_runs & Hr)|(err & (x & -> & Hx)%exec_runs & ->)]%runs_bind;
    cbn in x, Hx; destruct x as [failure|]; try done.
  - apply runs_catch in Hr as (t3 & outcome & t4 & -> & Ho & Hr).
    apply runs_bind in Ho as [(t5 & [] & t6 & -> & Hcfg & Ho)|(err & Hcfg & ->)].
    + apply configure_runs in Hcfg as [[-> _]|(_ & _ & err & [=])]. right.
      destruct (committed_runs callback (t6 ++ t4) r) as (queries & out & after & Heq & Hq & Hends).
      { apply runs_catch. by exists t6, outcome, t4. }
      exists queries, out, after. split; [|done]. cbn. by rewrite <- app_assoc, Heq.
    + apply configure_runs in Hcfg as [[_ [=]]|(Ha & _ & err' & [= <-])]. left.
      destruct (not_configured_runs t3 t4 err r Ha Hr) as (Hun & ->). split; [exact Hun|by eexists].
  - left. split; [|by eexists]. apply (unopened_released [ClientOpen ↦ true; PoolAcquire ↦ None; BeginTx ↦ Some failure]); [by repeat constructor|no_event].
Qed.
Lemma WithTx_runs {A} (client : option PostgresClient) (callback : prog (@tx_answer D) (pg_error + A))
    (t : list event) (r : result A) :
  runs (WithTx client (Some callback)) t r ->
  (unopened t /\ exists err, r = Err err) \/
  exists c queries outcome after,
    client = Some c /\
    t = opening c ++ (in_tx_event <$> queries) ++ after ++ [existT Release tt] /\
    runs callback queries outcome /\ ends outcome after r.
Proof.
  intros [(t1 & c & t2 & -> & Ha & Hr)|(err & Ha & ->)]%runs_bind;
    apply acquire_runs in Ha as [(c' & -> & -> & Hok)|[Hun [err' Herr]]]; try done; [|by left; split; [|eexists]].
  injection Hok as ->. apply runs_catch in Hr as (t3 & x & t4 & -> & Hx & ([] & t5 & -> & -> & ->)).
  apply transaction_runs in Hx as [[Hun [err ->]]|(queries & outcome & after & -> & Hq & Hends)].
  - left. split; [exact Hun|by eexists].
  - right. exists c', queries, outcome, after. split_and!; [done| |done|done]. unfold opening. cbn. by rewrite <- !app_assoc.
Qed.
End transaction_facts.

(** C23: [WithTx] is a transaction.  Whatever the driver answers, either the
    callback is never started: nothing is queried or committed, what was begun
    is rolled back and what was acquired is released; or the connection is
    acquired, the transaction is begun and configured with the client's role,
    timeouts, tenant and search path before the callback's first query, the
    queries are exactly the callback's, and then: it is committed exactly when
    the callback succeeded and the commit did, which is when WithTx succeeds;
    a failed commit or callback is rolled back, a connection that cannot be
    rolled back is closed, and the connection is released last. *)
Theorem WithTx_transaction {D A} (client : option PostgresClient) (callback : prog (@tx_answer D) (pg_error + A))
    (t : list (event (@pg_answer D))) (r : result A) :
  runs (WithTx client (Some callback)) t r ->
  (unopened t /\ exists err, r = Err err) \/
  exists c queries outcome after,
    client = Some c /\
    t = opening c ++ (in_tx_event <$> queries) ++ after ++ [existT Release tt] /\
    runs callback queries outcome /\ ends outcome after r.
Proof. apply WithTx_runs. Qed.

(** ** Samples, and what the model found *)

Definition sample_options : PostgresClientOptions :=
  {| Options_TenantID := " A0EEBC99-9C0B-4EF8-BB6D-6BB9BD380A11 "; Options_AccessRole := ""; Options_UsageBackend := "";
     Options_BillingPayloadBackend := ""; Options_ProviderEnvironment := ""; Options_ConnectionTimeout := 0;
     Options_StatementTimeout := 5 * Second; Options_IdleTransactionTimeout := 0; Options_MaxConnections := 0;
     Options_ApplicationName := ""; Options_HasOnPoolError := true |}.

Definition sample_client : option PostgresClient :=
  match NewPostgresClientFromPool true sample_options with Ok c => Some c | Err _ => None end.

Example sample_client_tenant : TenantID sample_client = "a0eebc99-9c0b-4ef8-bb6d-6bb9bd380a11".
Proof. vm_compute. reflexivity. Qed.

Example sample_client_settings :
  map snd (settings (match sample_client with Some c => Client_Options c | None => sample_options end)) =
  [[]; ["5000"; "30000"]; ["a0eebc99-9c0b-4ef8-bb6d-6bb9bd380a11"; "postgres"; "postgres"; "live"]; []].
Proof. vm_compute. reflexivity. Qed.

Definition one_row : query_rows Z :=
  {| Rows_Fields := [("n", false); ("doc", true)]; Rows_Values := [[Value (AInt KInt64 7); Value ANil]] |}.

(** A driver that does what it is asked, up to [commit]'s answer. *)
Definition sample_driver (commit : option driver_failure) (c : pg_call Z) (s : unit) : pg_answer c * unit :=
  match c with
  | ClientOpen => (true, s)
  | PoolAcquire | BeginTx | Exec _ _ | Rollback => (None, s)
  | Commit => (commit, s)
  | InTx _ => (inr one_row, s)
  | OnPoolError _ | CloseConnection | Release => (tt, s)
  end.

Definition sample_run (commit : option driver_failure) :=
  run (sample_driver commit) tt (Client_Call sample_client "active_catalog_revision" [@ArgNil Z]).

Lemma WithTx_transaction_witness :
  (sample_run None).1.2 = Ok [<["n" := Value (AInt KInt64 7)]> (<["doc" := Bytes ""]> ∅)] /\
  exists c queries outcome after,
    sample_client = Some c /\
    (sample_run None).1.1 = opening c ++ (in_tx_event <$> queries) ++ after ++ [existT Release tt] /\
    runs (@tx_rpc Z "active_catalog_revision" [ArgNil]) queries outcome /\ ends outcome after (sample_run None).1.2.
Proof.
  split; [vm_compute; reflexivity|].
  destruct (WithTx_transaction sample_client (tx_rpc "active_catalog_revision" [@ArgNil Z]) (sample_run None).1.1
              (sample_run None).1.2) as [[_ [err Herr]]|Ht].
  - exact (run_runs (sample_driver None) _ tt).
  - vm_compute in Herr. discriminate Herr.
  - exact Ht.
Defined.

(** A commit whose answer is lost to a timeout, a cancellation or a broken
    connection is reported as determinate, although the database may have
    committed; an error the callback itself reported is rolled back before
    anything is committed, and is reported as indeterminate. *)
Theorem indeterminate_inverted (failure : driver_failure) (message : string) (details : gmap string string) :
  (Failure_DeadlineExceeded failure = true \/ Failure_Canceled failure = true \/
   exists code, Failure_Code failure = Some code /\ connection_code code = true) ->
  error_indeterminate (normalizePostgresError (Driver failure) "commit PostgreSQL transaction" true) = false /\
  error_indeterminate
    (normalizePostgresError (GoError (NewStoreError message (error_details "" "" details))) "execute PostgreSQL transaction" true) = true.
Proof.
  intros Hlost. split; [|done]. cbn [normalizePostgresError].
  destruct (Failure_DeadlineExceeded failure); [done|]. destruct (Failure_Canceled failure); [done|].
  destruct Hlost as [|[|(code & -> & Hcode)]]; [done..|]. destruct (code =? "57014"); [done|]. by rewrite Hcode.
Qed.

Definition connection_lost : driver_failure :=
  {| Failure_Text := "unexpected EOF"; Failure_DeadlineExceeded := false; Failure_Canceled := false;
     Failure_Code := Some "08006"; Failure_TxClosed := true |}.

Lemma indeterminate_inverted_witness :
  match (sample_run (Some connection_lost)).1.2 with Err err => error_indeterminate err = false | Ok _ => False end /\
  error_indeterminate (normalizePostgresError (Driver connection_lost) "commit PostgreSQL transaction" true) = false.
Proof.
  split; [vm_compute; reflexivity|].
  apply (indeterminate_inverted connection_lost "" ∅). right. right. exists "08006". split; reflexivity.
Defined.
