(* ===== verification/PostgresRows.v ===== *)
(** * postgres_store.go, lines 174-725: reading rows and writing arguments

    A row maps the output columns of a function to what pgx scanned.  A column
    that is missing reads like NULL.  What fmt.Sprint prints of a slice, a map
    or a value of another package, and whether encoding/json encodes the
    latter, is the parameter [Printed]. *)

From S2P Require Export PostgresClient CreditTypes.
From S2P Require Import DecimalRef.
Local Open Scope Z_scope.
Local Open Scope go_scope.

Class Printed (D : Type) := {
  Sprint : any D -> string;
  Encodes : string -> bool;                  (* of a value of another type *)
}.

(** [NewStoreError(message, ErrorOptions{})] *)
Definition row_error (message : string) : error := NewStoreError message (store_code "").

(** [NewStoreError(message, ErrorOptions{Cause: err})] *)
Definition row_error_of (message : string) (cause : error) : error := NewStoreError message (failed_options false ∅ cause).

Definition invalid_column (operation key : string) : error := row_error (operation +:+ " returned an invalid " +:+ key).
Definition invalid_value (field : string) : error := row_error ("PostgreSQL returned an invalid " +:+ field).

(** ** Packages strconv and fmt *)

Definition ParseBool (s : string) : option bool :=
  if bool_decide (s ∈ ["1"; "t"; "T"; "TRUE"; "true"; "True"]) then Some true
  else if bool_decide (s ∈ ["0"; "f"; "F"; "FALSE"; "false"; "False"]) then Some false
  else None.

Definition maxInt : Z := 2 ^ 63 - 1.

(** [strconv.Atoi], of a 64-bit int *)
Definition Atoi (s : string) : option Z :=
  let '(negative, digits) :=
    match s with
    | String c rest => if Ascii.eqb c "-" then (true, rest) else if Ascii.eqb c "+" then (false, rest) else (false, s)
    | EmptyString => (false, s)
    end in
  if (digits =? "") || negb (all_chars is_digit digits) then None
  else
    let z := if negative : bool then - digits_value 0 digits else digits_value 0 digits in
    if (- 2 ^ 63 <=? z) && (z <=? maxInt) then Some z else None.

(** The first [n] bytes of a string, and the others. *)
Fixpoint split_at (n : nat) (s : string) : string * string :=
  match n, s with
  | S n, String c rest => let '(a, b) := split_at n rest in (String c a, b)
  | _, _ => ("", s)
  end.

(** Digits with the point after [point] of them, zeros where it is outside. *)
Definition place_point (digits : string) (point : Z) : string :=
  let length := string_length digits in
  if point <=? 0 then "0." +:+ zeros (Z.to_nat (- point)) +:+ digits
  else if point <? length then let '(whole, frac) := split_at (Z.to_nat point) digits in whole +:+ "." +:+ frac
  else digits +:+ zeros (Z.to_nat (point - length)).

(** [strconv.FormatFloat(f, 'f', -1, 64)]: the shortest digits, which the %g
    text has too, without an exponent. *)
Definition FormatFloat (f : float64) : string :=
  match f with
  | FNaN => "NaN"
  | FInf negative => if negative : bool then "-Inf" else "+Inf"
  | FFinite _ text =>
      let '(mantissa, exponent) := span (fun c => negb (Ascii.eqb c "e")) text in
      match exponent with
      | EmptyString => text
      | String _ exponent =>
          let negative := HasPrefix mantissa "-" in
          let '(whole, frac) := span is_digit (if negative then (split_at 1 mantissa).2 else mantissa) in
          let frac := match frac with String _ frac => frac | EmptyString => "" end in
          signed negative (place_point (whole +:+ frac) (string_length whole + default 0 (Atoi exponent)))
      end
  end.

(** ** Rows *)

Definition formatUUID (bytes : list Z) : string :=
  String.concat "-"
    (map EncodeToString [take 4 bytes; take 2 (drop 4 bytes); take 2 (drop 6 bytes); take 2 (drop 8 bytes); take 6 (drop 10 bytes)]).

(** Joins the sign, the digits and the exponent of a number. *)
Definition numericText (integer exponent : Z) : string :=
  let text := itoa integer in
  let negative := HasPrefix text "-" in
  let digits := if negative then (split_at 1 text).2 else text in
  if 0 <=? exponent then signed negative (digits +:+ zeros (Z.to_nat exponent))
  else
    let point := string_length digits + exponent in
    if 0 <? point
    then signed negative (let '(whole, frac) := split_at (Z.to_nat point) digits in whole +:+ "." +:+ frac)
    else signed negative ("0." +:+ zeros (Z.to_nat (- point)) +:+ digits).

Section rows.
Context {D : Type} `{DecimalOps D} `{RangeOrder} `{Printed D}.
Implicit Types (r : row D) (key operation field : string).

Definition rowRequired (rows : list (row D)) operation : result (row D) :=
  match rows with
  | r :: _ => Ok r
  | [] => Err (row_error (operation +:+ " returned no result"))
  end.

Definition is_null (c : cell D) : bool := match c with Value ANil => true | _ => false end.

Definition rowValue r key : cell D := default (Value ANil) (r !! key).

(** The first row, when one of its columns is not NULL. *)
Definition rowOptional (rows : list (row D)) : option (row D) :=
  match rows with
  | r :: _ => if existsb (fun column => negb (is_null column.2)) (range r) then Some r else None
  | [] => None
  end.

Definition firstScalar r operation : result (cell D) :=
  match range r with
  | [column] => Ok (snd column)
  | _ => Err (row_error (operation +:+ " returned an invalid scalar result"))
  end.

Definition textValue (value : cell D) : option string :=
  match value with
  | Value ANil => None
  | Value (AString s) => Some s
  | Bytes text => Some text
  | UUIDValue valid bytes => if valid then Some (formatUUID bytes) else None
  | Bytes16 bytes => Some (formatUUID bytes)
  | Value (ABool b) => Some (if b then "true" else "false")
  | Value (AInt _ z) => Some (itoa z)
  | Value (AFloat FNaN) => Some "NaN"
  | Value (AFloat (FInf negative)) => Some (if negative then "-Inf" else "+Inf")
  | Value (AFloat (FFinite _ text)) => Some text
  | Value (ANumber text) => Some text
  | Value (ADecimal d) => Some (dec_string d)
  | Value v => Some (Sprint v)
  | NumericValue _ text | TimeValue _ text | Other text => Some text
  end.

Definition requiredRowText r key operation : result string :=
  match textValue (rowValue r key) with
  | Some text => if TrimSpace text =? "" then Err (invalid_column operation key) else Ok text
  | None => Err (invalid_column operation key)
  end.

Definition optionalRowText r key : string := default "" (textValue (rowValue r key)).

Definition or_invalid {A} (x : option A) operation key : result A :=
  match x with Some a => Ok a | None => Err (invalid_column operation key) end.

Definition rowBool r key operation : result bool :=
  or_invalid
    match rowValue r key with
    | Value (ABool b) => Some b
    | Value (AString s) | Bytes s => ParseBool s
    | _ => None
    end operation key.

Definition scalarBool (value : cell D) operation : result bool := rowBool {["value" := value]} "value" operation.

(** The integers of the [case int, int8, ...] list: there is no uint8 and no
    uint16, and an unsigned one must fit an int. *)
Definition row_integer (kind : int_kind) (z : Z) : option Z :=
  match kind with
  | KInt | KInt8 | KInt16 | KInt32 | KInt64 | KUint32 => Some z
  | KUint | KUint64 => if z <=? maxInt then Some z else None
  | KUint8 | KUint16 => None
  end.

Definition rowInt r key operation : result Z :=
  or_invalid
    match rowValue r key with
    | Value (AInt kind z) => row_integer kind z
    | Value (AString s) | Value (ANumber s) | Bytes s => Atoi s
    | _ => None
    end operation key.

Definition scalarInt (value : cell D) operation : result Z := rowInt {["value" := value]} "value" operation.

Definition null_value field : error := row_error ("PostgreSQL returned a null " +:+ field).

(** The decimal text of what is no amount yet. *)
Definition amount_text (value : cell D) field : result string :=
  match value with
  | Value ANil => Err (null_value field)
  | Value (AString s) | Value (ANumber s) | Bytes s => Ok s
  | Value (AFloat f) => Ok (FormatFloat f)
  | NumericValue n _ =>
      match Numeric_Int n with
      | Some integer =>
          if negb (Numeric_Valid n) || Numeric_NaN n || negb (Numeric_Finite n) then Err (null_value field)
          else Ok (numericText integer (Numeric_Exp n))
      | None => Err (null_value field)
      end
  | Value (AInt _ z) => Ok (itoa z)
  | _ => Err (invalid_value field)
  end.

Definition parseAmount (value : cell D) field : result D :=
  match value with
  | Value (ADecimal amount) => Ok amount
  | _ =>
      text <- amount_text value field ;;
      match NewAmount text with
      | Ok amount => Ok amount
      | Err err => Err (row_error_of ("PostgreSQL returned an invalid " +:+ field) err)
      end
  end.

Definition rowAmount r key operation : result D := parseAmount (rowValue r key) (operation +:+ "." +:+ key).

(** A column that is read unless it is NULL. *)
Definition optional {A} r key (read : result A) : result (option A) :=
  if is_null (rowValue r key) then Ok None else a <- read ;; Ok (Some a).

Definition optionalRowAmount r key operation : result (option D) := optional r key (rowAmount r key operation).

Definition parsed_time (text : string) : option Time :=
  (fun instant => {| instant := instant; location := UTC |}) <$> ParseRFC3339 text.

Definition rowTime r key operation : result Time :=
  or_invalid
    match rowValue r key with
    | TimeValue t _ => Some (ToUTC t)
    | Value (AString s) | Bytes s => parsed_time s
    | _ => None
    end operation key.

Definition optionalRowTime r key operation : result (option Time) := optional r key (rowTime r key operation).
Definition optionalRowInt r key operation : result (option Z) := optional r key (rowInt r key operation).

Definition invalid_json field (cause : error) : error :=
  row_error_of ("PostgreSQL returned invalid JSON for " +:+ field) cause.

(** [decodeJSONUseNumber] into a [map[string]any]: null leaves it nil. *)
Definition decode_map (data : string) : result (option (gmap string (any D))) :=
  value <- decodeJSONUseNumber data ;;
  match value with
  | AMap mapped => Ok (Some mapped)
  | ANil => Ok None
  | _ => Err (ExternalError "json: cannot unmarshal into a map")
  end.

Definition jsonMap (value : cell D) field : result (option (gmap string (any D))) :=
  match value with
  | Value ANil => Ok None
  | Value (AMap mapped) => Ok (Some mapped)
  | Bytes data | Value (AString data) =>
      match decode_map data with
      | Ok mapped => Ok mapped
      | Err err => Err (invalid_json field err)
      end
  | _ => Err (invalid_value field)
  end.

Definition jsonValue (value : cell D) field : result (cell D) :=
  match value with
  | Bytes data | Value (AString data) =>
      match decodeJSONUseNumber data with
      | Ok decoded => Ok (Value decoded)
      | Err err => Err (invalid_json field err)
      end
  | _ => Ok value
  end.

Definition amountMap (value : cell D) field : result (option (gmap string D)) :=
  mapped <- jsonMap value field ;;
  match mapped with
  | None => Ok None
  | Some mapped =>
      amounts <- fold_result (fun acc '(key, raw) =>
        amount <- parseAmount (Value raw) (field +:+ "." +:+ key) ;;
        Ok (<[key := amount]> acc)) ∅ (range mapped) ;;
      Ok (Some amounts)
  end.

(** [json.Unmarshal] into a []string: a null item leaves an empty string. *)
Definition string_items (document : any D) : option (list string) :=
  match document with
  | ASlice items => mapM (fun item => match item with AString s => Some s | ANil => Some "" | _ => None end) items
  | ANil => Some []
  | _ => None
  end.

Definition stringSlice (value : cell D) field : result (list string) :=
  match value with
  | Value ANil => Ok []
  | Value (ATypedSlice items) =>
      match mapM (fun item => match item with AString s => Some s | _ => None end) items with
      | Some texts => Ok texts
      | None => Err (invalid_value field)
      end
  | Value (ASlice items) =>
      match mapM (fun item => textValue (Value item)) items with
      | Some texts => Ok texts
      | None => Err (invalid_value field)
      end
  | Bytes data | Value (AString data) =>
      match decodeJSONUseNumber data with
      | Ok document =>
          match string_items document with Some texts => Ok texts | None => Err (invalid_value field) end
      | Err _ => Err (invalid_value field)
      end
  | _ => Err (invalid_value field)
  end.

(** ** Arguments *)

(** [json.Marshal] succeeds: no float that is no number, no invalid
    json.Number, and nothing of a type it does not encode. *)
Fixpoint encodable (v : any D) : bool :=
  match v with
  | AFloat f => match f with FFinite _ _ => true | _ => false end
  | ANumber text =>
      (text =? "") || match take_number text with Some (_, rest) => rest =? "" | None => false end
  | ASlice items | ATypedSlice items => forallb encodable items
  | AMap m | ATypedMap m => map_fold (fun _ x b => encodable x && b) true m
  | AOther type_name => Encodes type_name
  | _ => true
  end.

(** [json.Marshal] of a map, as the argument that carries it. *)
Definition marshal (what : string) (document : gmap string (any D)) : result (argument D) :=
  if encodable (AMap document) then Ok (ArgJSON (AMap document))
  else Err (NewError (what +:+ " must be JSON serializable")
             (error_options ErrorCode.Config ErrorCategory.InvalidRequest (Some (ExternalError "json: unsupported value")))).

Definition marshalMetadata (metadata : CreditMetadata D) : result (argument D) := marshal "credit metadata" (Clone metadata).
Definition marshalMeasures (measures : gmap string D) : result (argument D) := marshal "credit measures" (ADecimal <$> measures).
Definition marshalDimensions (dimensions : gmap string (any D)) : result (argument D) := marshal "credit dimensions" dimensions.

(** A dimension the options name beside the map, when the map has none. *)
Definition default_dimension (key value : string) (dimensions : gmap string (any D)) : gmap string (any D) :=
  if (value =? "") || is_some (dimensions !! key) then dimensions else <[key := AString value]> dimensions.

(** The metadata, the measures and the dimensions of an operation. *)
Definition operationPayload (options : OperationUsageOptions D) (metadata : CreditMetadata D)
    : result (argument D * argument D * argument D) :=
  let dimensions :=
    default_dimension "region" (OperationUsageOptions_Region options)
      (default_dimension "model" (OperationUsageOptions_Model options) (OperationUsageOptions_Dimensions options)) in
  metadataJSON <- marshalMetadata metadata ;;
  measuresJSON <- marshalMeasures (OperationUsageOptions_Measures options) ;;
  dimensionsJSON <- marshalDimensions dimensions ;;
  Ok (metadataJSON, measuresJSON, dimensionsJSON).

Definition amountArgument (value : D) : string := StringFixed (QuantizeMoney value) MoneyDecimalPlaces.
Definition nullableText (value : string) : argument D := if TrimSpace value =? "" then ArgNil else ArgText value.
Definition nullableTime (value : option Time) : argument D :=
  match value with Some t => ArgTime (ToUTC t) | None => ArgNil end.
End rows.

(** ** Amounts cross the boundary exactly *)

Lemma split_at_app n s : (split_at n s).1 +:+ (split_at n s).2 = s.
Proof.
  revert s. induction n as [|n IH]; intros [|c s]; try done. cbn [split_at]. specialize (IH s).
  destruct (split_at n s) as [a b]. cbn in *. by rewrite append_cons, IH.
Qed.

Lemma split_at_length n s : (n <= String.length s)%nat -> String.length (split_at n s).1 = n.
Proof.
  revert s. induction n as [|n IH]; intros [|c s] Hl; cbn in Hl; try done; [lia|]. cbn [split_at].
  specialize (IH s ltac:(lia)). destruct (split_at n s) as [a b]. cbn in *. by rewrite IH.
Qed.

Lemma zeros_digits n : all_chars is_digit (zeros n) = true.
Proof. by induction n. Qed.

Lemma zeros_length n : String.length (zeros n) = n.
Proof. induction n as [|n IH]; [done|]. cbn. by rewrite IH. Qed.

Lemma zeros_value n acc : digits_value acc (zeros n) = acc * 10 ^ Z.of_nat n.
Proof.
  revert acc. induction n as [|n IH]; intros acc; [cbn; lia|]. cbn [zeros digits_value]. rewrite IH.
  change (byte_of "0" - 48) with 0. rewrite Nat2Z.inj_succ, Z.pow_succ_r by lia. lia.
Qed.

Lemma whole_number_itoa n : 0 <= n -> whole_number (itoa n).
Proof. intros Hn. destruct (itoa_digits n Hn) as (c & ds & -> & Hc & Hds & Hz & _). done. Qed.

Lemma whole_number_all s : whole_number s -> all_chars is_digit s = true.
Proof. destruct s as [|c s]; [done|]. intros (Hc & Hs & _). cbn. by rewrite Hc. Qed.

Lemma whole_number_app a b : whole_number a -> all_chars is_digit b = true -> a <> "0" \/ b = "" -> whole_number (a +:+ b).
Proof.
  destruct a as [|c a]; [done|]. intros (Hc & Ha & Hz) Hb Hne. rewrite append_cons. split; [done|]. rewrite all_chars_app, Ha.
  split; [done|]. intros ->. rewrite Hz in * by done. destruct Hne as [Hne| ->]; done.
Qed.

Lemma whole_number_prefix a b : whole_number (a +:+ b) -> a <> "" -> b <> "" -> whole_number a.
Proof.
  destruct a as [|c a]; [done|]. rewrite append_cons. intros (Hc & Ha & Hz) _ Hb. rewrite all_chars_app in Ha.
  apply andb_true_iff in Ha as [Ha _]. split_and!; [done..|]. intros ->. specialize (Hz eq_refl).
  destruct a; [done|]. by rewrite append_cons in Hz.
Qed.

Lemma ten_mul z n : 0 <= n -> (inject_Z (z * 10 ^ n) == inject_Z z * ten n)%Q.
Proof. intros Hn. rewrite inject_Z_mult. unfold ten. by rewrite Zpower_Qpower. Qed.

Lemma ten_div z n : (inject_Z z / ten n == inject_Z z * ten (- n))%Q.
Proof. unfold ten. by rewrite Qpower_opp. Qed.

(** The digits of a natural number with the point moved. *)
Definition pointed (digits : string) (exponent : Z) : string :=
  if 0 <=? exponent then digits +:+ zeros (Z.to_nat exponent)
  else
    let point := string_length digits + exponent in
    if 0 <? point then let '(whole, frac) := split_at (Z.to_nat point) digits in whole +:+ "." +:+ frac
    else "0." +:+ zeros (Z.to_nat (- point)) +:+ digits.

Lemma pointed_parts n exponent :
  0 <= n -> exponent <= 0 \/ n <> 0 ->
  exists whole frac, pointed (itoa n) exponent = whole +:+ decimals frac /\ whole_number whole /\ all_chars is_digit frac = true /\
    (inject_Z (digits_value 0 (whole +:+ frac)) / ten (Z.of_nat (String.length frac)) == inject_Z n * ten exponent)%Q.
Proof.
  intros Hn Hexp. pose proof (whole_number_itoa n Hn) as Hw. destruct (itoa_digits n Hn) as (_ & _ & _ & _ & _ & _ & Hv).
  unfold pointed. destruct (Z.leb_spec 0 exponent) as [He|He].
  - exists (itoa n +:+ zeros (Z.to_nat exponent)), "". split_and!; [by rewrite string_app_nil| |done|].
    + apply whole_number_app; [done|apply zeros_digits|]. destruct (decide (exponent = 0)) as [->|]; [by right|left].
      intros Hzero. rewrite Hzero in Hv. change (digits_value 0 "0") with 0 in Hv. lia.
    + rewrite string_app_nil, digits_value_app, Hv, zeros_value, Z2Nat.id, ten_mul by done.
      change (ten (Z.of_nat (String.length ""))) with 1%Q. field.
  - set (point := string_length (itoa n) + exponent). unfold string_length in point.
    destruct (Z.ltb_spec 0 point) as [Hp|Hp].
    + pose proof (split_at_app (Z.to_nat point) (itoa n)) as Happ.
      pose proof (split_at_length (Z.to_nat point) (itoa n) ltac:(lia)) as Hl.
      destruct (split_at (Z.to_nat point) (itoa n)) as [whole frac]. cbn [fst snd] in *. rewrite <- Happ in Hw, Hv.
      assert (String.length frac = Z.to_nat (- exponent)) as Hf.
      { apply (f_equal String.length) in Happ. rewrite length_append in Happ. unfold point in *. lia. }
      assert (frac <> "") as Hne by (intros ->; cbn in Hf; lia).
      exists whole, frac. split_and!.
      * unfold decimals. by destruct frac.
      * eapply whole_number_prefix; [exact Hw| |done]. intros ->. cbn in Hl. lia.
      * apply whole_number_all in Hw. rewrite all_chars_app in Hw. by apply andb_true_iff in Hw as [_ Hw].
      * rewrite Hv, Hf, Z2Nat.id, ten_div by lia. by rewrite Z.opp_involutive.
    + exists "0", (zeros (Z.to_nat (- point)) +:+ itoa n). split_and!.
      * unfold decimals. destruct (_ =? "") eqn:Hempty; [|done].
        apply String.eqb_eq in Hempty. apply (f_equal String.length) in Hempty. rewrite length_append in Hempty.
        destruct (itoa n); [done|]. cbn in Hempty. lia.
      * done.
      * rewrite all_chars_app, zeros_digits. by apply whole_number_all.
      * rewrite length_append, zeros_length, !digits_value_app, zeros_value.
        replace (digits_value 0 "0" * 10 ^ Z.of_nat (Z.to_nat (- point))) with 0 by (change (digits_value 0 "0") with 0; lia). rewrite Hv, ten_div.
        replace (- Z.of_nat (Z.to_nat (- point) + String.length (itoa n))) with exponent by (unfold point in *; lia).
        reflexivity.
Qed.

Lemma numericText_pointed integer exponent :
  numericText integer exponent = signed (integer <? 0) (pointed (itoa (Z.abs integer)) exponent).
Proof.
  unfold numericText, pointed. destruct (Z.ltb_spec integer 0) as [Hi|Hi].
  - rewrite (itoa_negative integer Hi), Z.abs_neq by lia. rewrite append_cons, append_nil.
    change (HasPrefix (String "-" ?x) "-") with true. cbn [split_at snd]. cbv zeta.
    destruct (0 <=? exponent); [done|]. by destruct (0 <? _).
  - rewrite Z.abs_eq by lia. destruct (itoa_digits integer Hi) as (c & ds & Heq & Hc & _).
    assert (HasPrefix (itoa integer) "-" = false) as ->.
    { rewrite Heq. destruct c as [[] [] [] [] [] [] [] []]; done. }
    cbv zeta iota. destruct (0 <=? exponent); [done|]. by destruct (0 <? _).
Qed.

(** [numericText] writes the canonical text of [integer * 10^exponent]; zero
    with a positive exponent is the one number it writes otherwise. *)
Lemma numericText_denotes integer exponent :
  exponent <= 0 \/ integer <> 0 ->
  matches_decimal (numericText integer exponent) = true /\
  (decimal_value (numericText integer exponent) == inject_Z integer * ten exponent)%Q.
Proof.
  intros Hexp. rewrite numericText_pointed.
  destruct (pointed_parts (Z.abs integer) exponent) as (whole & frac & -> & Hw & Hf & Hv); [lia|lia|].
  destruct (decimal_text (integer <? 0) whole frac Hw Hf) as [Hm Hd]. split; [done|].
  rewrite Hd, inject_Z_mult. transitivity (inject_Z (if integer <? 0 then -1 else 1) * (inject_Z (digits_value 0 (whole +:+ frac)) / ten (Z.of_nat (String.length frac))))%Q.
  - field. apply ten_nonzero.
  - rewrite Hv, Qmult_assoc, <- inject_Z_mult. replace ((if integer <? 0 then -1 else 1) * Z.abs integer) with integer; [reflexivity|].
    destruct (Z.ltb_spec integer 0); lia.
Qed.

Section exact.
Context {D : Type} `{DecimalLaws D}.

Lemma parseAmount_text (value : cell D) field text :
  (forall d, value <> Value (ADecimal d)) -> amount_text value field = Ok text -> matches_decimal text = true ->
  exists d, parseAmount value field = Ok d /\ (toQ d == decimal_value text)%Q.
Proof.
  intros Hne Ht Hm. destruct (NewFromString_canonical text Hm) as (d & Hd & Hv). exists d. split; [|done].
  assert (NewAmount text = Ok d) as Hn by (unfold NewAmount, ParseDecimalString; by rewrite Hm, Hd).
  destruct value as [v| | | | | | ]; [destruct v|..]; try (by destruct (Hne d0)); cbn [parseAmount]; by rewrite Ht; cbn [bind]; rewrite Hn.
Qed.

(** C8: amounts cross the boundary to PostgreSQL exactly.  What the store
    sends for an amount, read back, is that amount rounded once to six places;
    and a numeric column [integer * 10^exponent] is read as that number, whatever
    its sign and scale. *)
Theorem amounts_exact (amount : D) (integer exponent : Z) (text field : string) :
  exponent <= 0 \/ integer <> 0 ->
  (exists d, parseAmount (Value (AString (amountArgument amount))) field = Ok d /\ (toQ d == round_places (toQ amount) 6)%Q) /\
  exists d,
    parseAmount (NumericValue {| Numeric_Int := Some integer; Numeric_Exp := exponent; Numeric_NaN := false;
                                 Numeric_Finite := true; Numeric_Valid := true |} text) field = Ok d /\
    (toQ d == inject_Z integer * ten exponent)%Q.
Proof.
  intros Hexp. split.
  - destruct (StringFixed_canonical (QuantizeMoney amount) MoneyDecimalPlaces ltac:(unfold MoneyDecimalPlaces; lia)) as [Hm Hv].
    destruct (parseAmount_text (Value (AString (amountArgument amount))) field _ ltac:(done) eq_refl Hm) as (d & Hd & Hq).
    exists d. split; [done|]. rewrite Hq, Hv. rewrite <- toQ_round by (unfold MoneyDecimalPlaces; lia).
    change (dec_round ?x MoneyDecimalPlaces) with (QuantizeMoney x). rewrite QuantizeMoney_money by apply QuantizeMoney_is_money.
    apply toQ_quantize.
  - destruct (numericText_denotes integer exponent Hexp) as [Hm Hv].
    destruct (parseAmount_text (NumericValue {| Numeric_Int := Some integer; Numeric_Exp := exponent; Numeric_NaN := false;
      Numeric_Finite := true; Numeric_Valid := true |} text) field _ ltac:(done) eq_refl Hm) as (d & Hd & Hq).
    exists d. split; [done|]. by rewrite Hq.
Qed.
End exact.

Lemma amounts_exact_witness :
  numericText (-1234567) (-6) = "-1.234567" /\
  exists d, parseAmount (Value (AString (amountArgument (lit "0.1234567")))) "balance" = Ok d /\ (Ref.value d == 123457 # 1000000)%Q.
Proof.
  split; [reflexivity|].
  assert (-6 <= 0 \/ -1234567 <> 0) as Hexp by lia.
  destruct (amounts_exact (lit "0.1234567") (-1234567) (-6) "" "balance" Hexp) as [(d & Hd & Hq) _].
  exists d. split; [exact Hd|]. etransitivity; [exact Hq|]. vm_compute. reflexivity.
Defined.
