(* ===== verification/PostgresStore.v ===== *)
(** * postgres_store.go: the credit store over PostgreSQL

    Each method checks its arguments, runs the functions of the database in
    one transaction and maps their rows.  The accounting itself is SQL and is
    what the queries answer. *)

From S2P Require Export PostgresRows.
From S2P Require Import DecimalRef.
Local Open Scope parse_scope.
Local Open Scope Z_scope.
Local Open Scope go_scope.

Definition maxMaintenanceBatchSize : Z := 1000.

Record PostgresStore := { PostgresStore_Client : option PostgresClient }.

Section store.
Context {D : Type} `{DecimalOps D} `{RangeOrder} `{Printed D}.
Notation prog := (prog (@pg_answer D)).
Notation tx_prog := (Effects.prog (@tx_answer D)).
Implicit Types (s : option PostgresStore) (userID operation : string) (amount : D) (r details : row D).

Definition withTx {A} s (callback : tx_prog A) : prog A :=
  match s with
  | Some {| PostgresStore_Client := Some c |} => WithTx (Some c) (Some (a <~ callback ;; ret (inr a)))
  | _ => raise (NewError "PostgreSQL store is not initialized"
                  (error_options ErrorCode.StoreClosed ErrorCategory.Unavailable None))
  end.

(** The row a function must return. *)
Definition call_row name (arguments : list (argument D)) : tx_prog (row D) :=
  rows <~ Call name arguments ;; lift (rowRequired rows name).

(** ** Balances *)

Definition creditState userID : tx_prog (option (row D)) :=
  rows <~ Call "get_credit_state" [ArgText userID] ;; ret (rowOptional rows).

Definition balanceFromState userID (state : option (row D)) operation : result (BalanceResult D) :=
  match state with
  | None => Ok {| BalanceResult_UserID := userID; BalanceResult_Balance := dec_zero; BalanceResult_LifetimePurchased := dec_zero |}
  | Some state =>
      balance <- rowAmount state "balance" operation ;;
      lifetime <- rowAmount state "lifetime_purchased" operation ;;
      Ok {| BalanceResult_UserID := userID; BalanceResult_Balance := balance; BalanceResult_LifetimePurchased := lifetime |}
  end.

Definition availableFromState userID (state : option (row D)) operation : result (AvailableResult D) :=
  match state with
  | None => Ok {| AvailableResult_UserID := userID; AvailableResult_Balance := dec_zero; AvailableResult_Reserved := dec_zero;
                  AvailableResult_Available := dec_zero |}
  | Some state =>
      balance <- rowAmount state "balance" operation ;;
      reserved <- rowAmount state "reserved" operation ;;
      available <- rowAmount state "available" operation ;;
      Ok {| AvailableResult_UserID := userID; AvailableResult_Balance := balance; AvailableResult_Reserved := reserved;
            AvailableResult_Available := available |}
  end.

Definition GetBalance s userID : prog (BalanceResult D) :=
  userID <~ lift (requireText userID "user ID") ;;
  withTx s (state <~ creditState userID ;; lift (balanceFromState userID state "get_credit_state")).

Definition GetAvailable s userID : prog (AvailableResult D) :=
  userID <~ lift (requireText userID "user ID") ;;
  withTx s (state <~ creditState userID ;; lift (availableFromState userID state "get_credit_state")).

(** ** Grants and charges *)

(** A function that answered an error code instead of a result. *)
Definition failed_with name (code : string) : error :=
  NewStoreError (name +:+ " failed: " +:+ code) (error_details "" "" {["error_code" := code]}).

Definition addCreditsResultFromRows userID amount r (state grant : option (row D)) : result (AddCreditsResult D) :=
  if negb (optionalRowText r "error_code" =? "") then Err (failed_with "post_credit" (optionalRowText r "error_code"))
  else
    entryID <- requiredRowText r "entry_id" "post_credit" ;;
    newBalance <- rowAmount r "balance_after" "post_credit" ;;
    idempotent <- rowBool r "replayed" "post_credit" ;;
    balance <- balanceFromState userID state "get_credit_state" ;;
    let bucket :=
      match grant with
      | None => ""
      | Some grant =>
          if negb (optionalRowText grant "bucket_key" =? "") then optionalRowText grant "bucket_key"
          else match firstScalar grant "get_credit_grant_details" with
               | Ok scalar => default "" (textValue scalar)
               | Err _ => ""
               end
      end in
    Ok {| AddCreditsResult_EntryID := entryID; AddCreditsResult_UserID := userID;
          AddCreditsResult_Amount := QuantizeMoney amount; AddCreditsResult_NewBalance := newBalance;
          AddCreditsResult_LifetimePurchased := BalanceResult_LifetimePurchased balance;
          AddCreditsResult_Bucket := bucket; AddCreditsResult_Idempotent := idempotent |}.

Definition entry_type (options : AddCreditsOptions D) : string :=
  or_text (TrimSpace (AddCreditsOptions_Type options)) "adjustment".

Definition entry_kind amount (entryType : string) : string :=
  if IsNegative amount then "adjustment" else if entryType =? "purchase" then "purchase" else "grant".

Definition add_metadata (options : AddCreditsOptions D) : gmap string (any D) :=
  match AddCreditsOptions_ExpiresAt options with
  | Some t => <["expires_at" := AString (FormatRFC3339Nano t)]> (Clone (AddCreditsOptions_Metadata options))
  | None => Clone (AddCreditsOptions_Metadata options)
  end.

(** What follows a credit that was posted. *)
Definition credit_posted userID amount r : tx_prog (AddCreditsResult D) :=
  if negb (optionalRowText r "error_code" =? "") then lift (addCreditsResultFromRows userID amount r None None)
  else
    state <~ creditState userID ;;
    grant <~ (if GreaterThan amount dec_zero then
                entryID <~ lift (requiredRowText r "entry_id" "post_credit") ;;
                rows <~ Call "get_credit_grant_details" [ArgText userID; ArgText entryID] ;;
                ret (rowOptional rows)
              else ret None) ;;
    lift (addCreditsResultFromRows userID amount r state grant).

Definition AddCredits s userID amount (options : AddCreditsOptions D) : prog (AddCreditsResult D) :=
  userID <~ lift (requireText userID "user ID") ;;
  idempotencyKey <~ lift (requireStableKey (AddCreditsOptions_IdempotencyKey options) "add credits idempotency key") ;;
  metadataJSON <~ lift (marshalMetadata (Some (add_metadata options))) ;;
  withTx s
    (r <~ call_row "post_credit"
       [ArgText userID; ArgText (entry_kind amount (entry_type options)); ArgText (amountArgument amount);
        ArgText (entry_type options); ArgText idempotencyKey; metadataJSON; nullableText (AddCreditsOptions_Bucket options);
        ArgNil; nullableTime (AddCreditsOptions_ExpiresAt options); ArgText "0"] ;;
     credit_posted userID amount r).

Definition no_details : error := row_error "get_credit_operation_details returned no result".

Definition deductionResultFromRows userID r (details : option (row D)) : result (DeductionResult D) :=
  let name := "charge_usage_for_operation" in
  charged <- rowAmount r "charged" name ;;
  allowance <- rowAmount r "allowance_covered" name ;;
  let errorCode := optionalRowText r "error_code" in
  if negb (errorCode =? "") then
    Ok {| DeductionResult_EntryID := ""; DeductionResult_UsageChargeID := ""; DeductionResult_UserID := userID;
          DeductionResult_Amount := charged; DeductionResult_BalanceAfter := None;
          DeductionResult_AllowanceConsumed := allowance; DeductionResult_Idempotent := false;
          DeductionResult_ErrorCode := errorCode; DeductionResult_BucketBreakdown := None |}
  else
    entryID <- requiredRowText r "ledger_entry_id" name ;;
    chargeID <- requiredRowText r "charge_id" name ;;
    idempotent <- rowBool r "replayed" name ;;
    match details with
    | None => Err no_details
    | Some details =>
        balanceAfter <- rowAmount details "balance_after" "get_credit_operation_details" ;;
        breakdown <- amountMap (rowValue details "bucket_breakdown") "get_credit_operation_details.bucket_breakdown" ;;
        Ok {| DeductionResult_EntryID := entryID; DeductionResult_UsageChargeID := chargeID; DeductionResult_UserID := userID;
              DeductionResult_Amount := charged; DeductionResult_BalanceAfter := Some balanceAfter;
              DeductionResult_AllowanceConsumed := allowance; DeductionResult_Idempotent := idempotent;
              DeductionResult_ErrorCode := ""; DeductionResult_BucketBreakdown := breakdown |}
    end.

(** The details of an operation that was not refused, by its ledger entry. *)
Definition operation_details userID r name (idempotencyKey : string) : tx_prog (option (row D)) :=
  if optionalRowText r "error_code" =? "" then
    entryID <~ lift (requiredRowText r "ledger_entry_id" name) ;;
    details <~ call_row "get_credit_operation_details" [ArgText userID; ArgText entryID; ArgText idempotencyKey] ;;
    ret (Some details)
  else ret None.

Definition DeductWithAllowance s userID amount (options : DeductWithAllowanceOptions D) : prog (DeductionResult D) :=
  userID <~ lift (requireText userID "user ID") ;;
  lift (requireNonNegativeAmount amount "deduct") ;;~
  let operation := or_text (TrimSpace (DeductOptions_Operation options)) "usage" in
  let usage := DeductOptions_Usage options in
  idempotencyKey <~ lift (requireStableKey (DeductOptions_IdempotencyKey options) "deduct idempotency key") ;;
  payload <~ lift (operationPayload usage (DeductOptions_Metadata options)) ;;
  let '(metadataJSON, measuresJSON, dimensionsJSON) := payload in
  withTx s
    (r <~ call_row "charge_usage_for_operation"
       [ArgText userID; ArgText operation; ArgText (amountArgument amount); ArgText idempotencyKey;
        nullableText (OperationUsageOptions_Feature usage); nullableText (OperationUsageOptions_Model usage);
        nullableText (OperationUsageOptions_Region usage); metadataJSON; measuresJSON; dimensionsJSON] ;;
     details <~ operation_details userID r "charge_usage_for_operation" idempotencyKey ;;
     lift (deductionResultFromRows userID r details)).

Definition usageRecordFromRow userID r : result (UsageRecordResult D) :=
  requested <- rowAmount r "requested" "record_usage" ;;
  let errorCode := optionalRowText r "error_code" in
  if negb (errorCode =? "") then
    Ok {| UsageRecordResult_UsageID := ""; UsageRecordResult_UserID := userID; UsageRecordResult_Requested := requested;
          UsageRecordResult_Idempotent := false; UsageRecordResult_ErrorCode := errorCode |}
  else
    usageID <- requiredRowText r "charge_id" "record_usage" ;;
    idempotent <- rowBool r "replayed" "record_usage" ;;
    Ok {| UsageRecordResult_UsageID := usageID; UsageRecordResult_UserID := userID; UsageRecordResult_Requested := requested;
          UsageRecordResult_Idempotent := idempotent; UsageRecordResult_ErrorCode := "" |}.

Definition RecordUsage s userID operation requested (options : RecordUsageOptions D) : prog (UsageRecordResult D) :=
  userID <~ lift (requireText userID "user ID") ;;
  operation <~ lift (requireText operation "operation") ;;
  lift (requireNonNegativeAmount requested "record usage") ;;~
  let usage := RecordUsageOptions_Usage options in
  idempotencyKey <~ lift (requireStableKey (RecordUsageOptions_IdempotencyKey options) "record usage idempotency key") ;;
  payload <~ lift (operationPayload usage (RecordUsageOptions_Metadata options)) ;;
  let '(metadataJSON, measuresJSON, dimensionsJSON) := payload in
  withTx s
    (r <~ call_row "record_usage"
       [ArgText userID; ArgText operation; ArgText (amountArgument requested); ArgText idempotencyKey;
        nullableText (OperationUsageOptions_Feature usage); nullableText (OperationUsageOptions_Model usage);
        nullableText (OperationUsageOptions_Region usage); metadataJSON; measuresJSON; dimensionsJSON] ;;
     lift (usageRecordFromRow userID r)).

(** ** Leases *)

Definition lease_error (message : string) : error := errorf ErrorCode.Config ErrorCategory.InvalidRequest message.
Definition no_lease : error := row_error "get_credit_lease returned no result".

Definition lease_refused userID (reserved : option D) (available : AvailableResult D) (mode errorCode : string) : LeaseResult D :=
  {| LeaseResult_LeaseID := ""; LeaseResult_UserID := userID; LeaseResult_Amount := reserved;
     LeaseResult_Available := AvailableResult_Available available; LeaseResult_ReservedTotal := AvailableResult_Reserved available;
     LeaseResult_MinimumBalance := None; LeaseResult_BillingMode := mode; LeaseResult_ExpiresAt := None;
     LeaseResult_ErrorCode := errorCode |}.

(** The lease a row of get_credit_lease describes; both results read it. *)
Definition lease_held userID name r (available : AvailableResult D) (lease : option (row D)) : result (LeaseResult D) :=
  leaseID <- requiredRowText r "lease_id" name ;;
  reserved <- rowAmount r "reserved_amount" name ;;
  match lease with
  | None => Err no_lease
  | Some lease =>
      expiresAt <- rowTime lease "expires_at" "get_credit_lease" ;;
      minimumBalance <- rowAmount lease "minimum_balance" "get_credit_lease" ;;
      Ok {| LeaseResult_LeaseID := leaseID; LeaseResult_UserID := userID; LeaseResult_Amount := Some reserved;
            LeaseResult_Available := AvailableResult_Available available;
            LeaseResult_ReservedTotal := AvailableResult_Reserved available;
            LeaseResult_MinimumBalance := Some minimumBalance;
            LeaseResult_BillingMode := if IsNegative minimumBalance then BillingModeOverdraft else BillingModeStrict;
            LeaseResult_ExpiresAt := Some expiresAt; LeaseResult_ErrorCode := "" |}
  end.

Definition createLeaseResultFromRows userID (mode : string) r (available : AvailableResult D) (lease : option (row D))
    : result (LeaseResult D) :=
  let name := "create_lease_for_operation" in
  if negb (optionalRowText r "error_code" =? "") then
    reserved <- optionalRowAmount r "reserved_amount" name ;;
    Ok (lease_refused userID reserved available mode (optionalRowText r "error_code"))
  else lease_held userID name r available lease.

Definition renewedLeaseResultFromRows userID r (available : AvailableResult D) (lease : option (row D)) : result (LeaseResult D) :=
  if negb (optionalRowText r "error_code" =? "")
  then Ok (lease_refused userID None available "" (optionalRowText r "error_code"))
  else lease_held userID "renew_lease" r available lease.

(** What is read after a lease was created or renewed: the account's state,
    and the lease unless it was refused. *)
Definition lease_state userID name r : tx_prog (AvailableResult D * option (row D)) :=
  state <~ creditState userID ;;
  available <~ lift (availableFromState userID state "get_credit_state") ;;
  lease <~ (if optionalRowText r "error_code" =? "" then
              leaseID <~ lift (requiredRowText r "lease_id" name) ;;
              lease <~ call_row "get_credit_lease" [ArgText userID; ArgText leaseID] ;;
              ret (Some lease)
            else ret None) ;;
  ret (available, lease).

(** [fmt.Sprintf("%d seconds", int64(ttl/time.Second))] *)
Definition seconds_text (ttl : Z) : string := itoa (Z.quot ttl Second) +:+ " seconds".

Definition CreateLease s userID amount (operationType : string) (options : CreateLeaseOptions D) : prog (LeaseResult D) :=
  userID <~ lift (requireText userID "user ID") ;;
  operationType <~ lift (requireText operationType "operation type") ;;
  lift (requireNonNegativeAmount amount "reserve") ;;~
  idempotencyKey <~ lift (requireStableKey (CreateLeaseOptions_IdempotencyKey options) "reserve idempotency key") ;;
  mode <~ lift (requireBillingMode (CreateLeaseOptions_BillingMode options)) ;;
  ttl <~ lift (requirePositiveDuration (or_number (CreateLeaseOptions_TTL options) defaultLeaseTTL) "lease TTL") ;;
  if match CreateLeaseOptions_MaxConcurrent options with Some n => n <? 1 | None => false end
  then raise (lease_error "max concurrent leases must be positive")
  else if (mode =? BillingModeStrict) && IsNegative (CreateLeaseOptions_Floor options)
  then raise (lease_error "strict lease floor must not be negative")
  else if (mode =? BillingModeOverdraft) && GreaterThan (CreateLeaseOptions_Floor options) dec_zero
  then raise (lease_error "overdraft lease floor must not be positive")
  else
    payload <~ lift (operationPayload (CreateLeaseOptions_Usage options) (CreateLeaseOptions_Metadata options)) ;;
    let '(metadataJSON, measuresJSON, dimensionsJSON) := payload in
    withTx s
      (r <~ call_row "create_lease_for_operation"
         [ArgText userID; ArgText operationType; ArgText (amountArgument amount); ArgText idempotencyKey;
          ArgText (seconds_text ttl); metadataJSON; nullableText (OperationUsageOptions_Feature (CreateLeaseOptions_Usage options));
          measuresJSON; dimensionsJSON; ArgText (amountArgument (CreateLeaseOptions_Floor options));
          match CreateLeaseOptions_MaxConcurrent options with Some n => ArgInt n | None => ArgNil end] ;;
       found <~ lease_state userID "create_lease_for_operation" r ;;
       lift (createLeaseResultFromRows userID mode r found.1 found.2)).

Definition settlementResultFromRows userID r (details : option (row D)) : result (DeductionResult D) :=
  settled <- rowAmount r "settled_amount" "settle_lease" ;;
  let errorCode := optionalRowText r "error_code" in
  if negb (errorCode =? "") then
    balanceAfter <- optionalRowAmount r "balance_after" "settle_lease" ;;
    Ok {| DeductionResult_EntryID := ""; DeductionResult_UsageChargeID := ""; DeductionResult_UserID := userID;
          DeductionResult_Amount := settled; DeductionResult_BalanceAfter := balanceAfter;
          DeductionResult_AllowanceConsumed := dec_zero; DeductionResult_Idempotent := false;
          DeductionResult_ErrorCode := errorCode; DeductionResult_BucketBreakdown := None |}
  else
    entryID <- requiredRowText r "ledger_entry_id" "settle_lease" ;;
    chargeID <- requiredRowText r "charge_id" "settle_lease" ;;
    idempotent <- rowBool r "replayed" "settle_lease" ;;
    match details with
    | None => Err no_details
    | Some details =>
        balanceAfter <- rowAmount details "balance_after" "get_credit_operation_details" ;;
        allowance <- rowAmount details "allowance_covered" "get_credit_operation_details" ;;
        breakdown <- amountMap (rowValue details "bucket_breakdown") "get_credit_operation_details.bucket_breakdown" ;;
        Ok {| DeductionResult_EntryID := entryID; DeductionResult_UsageChargeID := chargeID; DeductionResult_UserID := userID;
              DeductionResult_Amount := settled; DeductionResult_BalanceAfter := Some balanceAfter;
              DeductionResult_AllowanceConsumed := allowance; DeductionResult_Idempotent := idempotent;
              DeductionResult_ErrorCode := ""; DeductionResult_BucketBreakdown := breakdown |}
    end.

Definition SettleLease s userID (leaseID : string) amount (options : SettleOptions D) : prog (DeductionResult D) :=
  userID <~ lift (requireText userID "user ID") ;;
  leaseID <~ lift (requireText leaseID "lease ID") ;;
  lift (requireNonNegativeAmount amount "settle") ;;~
  idempotencyKey <~ lift (requireStableKey
    (or_text (SettleOptions_IdempotencyKey options) ("lease:" +:+ leaseID +:+ ":settle")) "settle idempotency key") ;;
  let usage := SettleOptions_Usage options in
  payload <~ lift (operationPayload usage (SettleOptions_Metadata options)) ;;
  let '(metadataJSON, measuresJSON, dimensionsJSON) := payload in
  withTx s
    (r <~ call_row "settle_lease"
       [ArgText userID; ArgText leaseID; ArgText (amountArgument amount); ArgText idempotencyKey;
        nullableText (OperationUsageOptions_Feature usage); nullableText (OperationUsageOptions_Model usage);
        nullableText (OperationUsageOptions_Region usage); measuresJSON; dimensionsJSON; metadataJSON] ;;
     details <~ operation_details userID r "settle_lease" idempotencyKey ;;
     lift (settlementResultFromRows userID r details)).

Definition leasePricingContextFromRow r : result LeasePricingContext :=
  version <- rowInt r "catalog_revision_no" "get_credit_lease_pricing_context" ;;
  Ok {| LeasePricingContext_CatalogVersion := version; LeasePricingContext_PlanID := optionalRowText r "plan_id";
        LeasePricingContext_PlanKey := optionalRowText r "plan_key"; LeasePricingContext_RateCard := optionalRowText r "rate_card" |}.

(** A row that may be missing, read when it is there. *)
Definition call_optional {A} name (arguments : list (argument D)) (read : row D -> result A) : tx_prog (option A) :=
  rows <~ Call name arguments ;;
  match rowOptional rows with
  | None => ret None
  | Some r => a <~ lift (read r) ;; ret (Some a)
  end.

Definition GetLeasePricingContext s userID (leaseID : string) : prog (option LeasePricingContext) :=
  userID <~ lift (requireText userID "user ID") ;;
  leaseID <~ lift (requireText leaseID "lease ID") ;;
  withTx s (call_optional "get_credit_lease_pricing_context" [ArgText userID; ArgText leaseID] leasePricingContextFromRow).

Definition releaseResultFromRow userID (leaseID : string) r : result ReleaseResult :=
  value <- firstScalar r "release_lease" ;;
  match textValue value with
  | None => Err (row_error "release_lease returned an invalid lease status")
  | Some status =>
      Ok {| ReleaseResult_LeaseID := leaseID; ReleaseResult_UserID := userID; ReleaseResult_Released := status =? "released";
            ReleaseResult_Reason := if status =? "released" then "" else status |}
  end.

Definition ReleaseLease s userID (leaseID : string) : prog ReleaseResult :=
  userID <~ lift (requireText userID "user ID") ;;
  leaseID <~ lift (requireText leaseID "lease ID") ;;
  withTx s (r <~ call_row "release_lease" [ArgText userID; ArgText leaseID] ;; lift (releaseResultFromRow userID leaseID r)).

Definition RenewLease s userID (leaseID : string) (ttl : Z) : prog (LeaseResult D) :=
  userID <~ lift (requireText userID "user ID") ;;
  leaseID <~ lift (requireText leaseID "lease ID") ;;
  ttl <~ lift (requirePositiveDuration ttl "lease TTL") ;;
  withTx s
    (r <~ call_row "renew_lease" [ArgText userID; ArgText leaseID; ArgText (seconds_text ttl)] ;;
     found <~ lease_state userID "renew_lease" r ;;
     lift (renewedLeaseResultFromRows userID r found.1 found.2)).

(** A function that answers one value. *)
Definition call_scalar {A} name (arguments : list (argument D)) (read : cell D -> string -> result A) : tx_prog A :=
  r <~ call_row name arguments ;;
  value <~ lift (firstScalar r name) ;;
  lift (read value name).

Definition ExpireLeases s (limit : Z) : prog Z :=
  limit <~ lift (requireBoundedLimit limit 100 maxMaintenanceBatchSize "lease expiry limit") ;;
  withTx s (call_scalar "expire_leases" [ArgInt limit] scalarInt).

(** ** Buckets, grant programs, expiry, revocation and refunds *)

Record BucketBalance := {
  BucketBalance_BucketKey : string;
  BucketBalance_Label : string;
  BucketBalance_Priority : Z;
  BucketBalance_Expires : bool;
  BucketBalance_Balance : D;
}.

Record BucketBalancesResult := {
  BucketBalancesResult_UserID : string;
  BucketBalancesResult_Buckets : list BucketBalance;
  BucketBalancesResult_TotalBalance : D;
}.

Definition bucket_from_row r : result BucketBalance :=
  let name := "get_credit_bucket_balances" in
  bucketKey <- requiredRowText r "bucket_key" name ;;
  label <- requiredRowText r "label" name ;;
  priority <- rowInt r "priority" name ;;
  expires <- rowBool r "expires" name ;;
  balance <- rowAmount r "balance" name ;;
  Ok {| BucketBalance_BucketKey := bucketKey; BucketBalance_Label := label; BucketBalance_Priority := priority;
        BucketBalance_Expires := expires; BucketBalance_Balance := balance |}.

Definition bucketBalancesFromRows userID (rows : list (row D)) : result BucketBalancesResult :=
  buckets <- map_result bucket_from_row rows ;;
  Ok {| BucketBalancesResult_UserID := userID; BucketBalancesResult_Buckets := buckets;
        BucketBalancesResult_TotalBalance := foldl (fun total bucket => dec_add total (BucketBalance_Balance bucket)) dec_zero buckets |}.

(** All the rows of a function. *)
Definition call_rows {A} name (arguments : list (argument D)) (read : list (row D) -> result A) : tx_prog A :=
  rows <~ Call name arguments ;; lift (read rows).

Definition GetBucketBalances s userID : prog BucketBalancesResult :=
  userID <~ lift (requireText userID "user ID") ;;
  withTx s (call_rows "get_credit_bucket_balances" [ArgText userID] (bucketBalancesFromRows userID)).

Record ExecuteGrantProgramRequest := {
  Request_Trigger : string;
  Request_ProgramKey : string;
  Request_SubjectID : string;
  Request_EventKey : string;
  Request_ReferrerSubjectID : string;
  Request_Region : string;
  Request_Metadata : CreditMetadata D;
}.

Record GrantProgramAwardResult := {
  Award_GrantEventID : string;
  Award_GrantAwardID : string;
  Award_RecipientSubjectID : string;
  Award_LedgerEntryID : string;
  Award_Amount : D;
  Award_Idempotent : bool;
  Award_ErrorCode : string;
}.

Definition award_from_row r : result GrantProgramAwardResult :=
  let name := "execute_grant_program" in
  let errorCode := optionalRowText r "error_code" in
  amount <- (if negb (is_null (rowValue r "amount")) then rowAmount r "amount" name
             else if errorCode =? "" then Err (row_error "execute_grant_program returned no amount") else Ok dec_zero) ;;
  idempotent <- rowBool r "replayed" name ;;
  Ok {| Award_GrantEventID := optionalRowText r "grant_event_id"; Award_GrantAwardID := optionalRowText r "grant_award_id";
        Award_RecipientSubjectID := optionalRowText r "recipient_subject_id";
        Award_LedgerEntryID := optionalRowText r "ledger_entry_id"; Award_Amount := amount; Award_Idempotent := idempotent;
        Award_ErrorCode := errorCode |}.

Definition grantProgramAwardsFromRows : list (row D) -> result (list GrantProgramAwardResult) := map_result award_from_row.

Definition ExecuteGrantProgram s (request : ExecuteGrantProgramRequest) : prog (list GrantProgramAwardResult) :=
  trigger <~ lift (requireText (Request_Trigger request) "grant trigger") ;;
  programKey <~ lift (requireText (Request_ProgramKey request) "grant program key") ;;
  subjectID <~ lift (requireText (Request_SubjectID request) "grant subject ID") ;;
  eventKey <~ lift (requireStableKey (Request_EventKey request) "grant event key") ;;
  metadata <~ lift (marshalMetadata (Request_Metadata request)) ;;
  withTx s (call_rows "execute_grant_program"
    [ArgText trigger; ArgText programKey; ArgText subjectID; ArgText eventKey;
     nullableText (Request_ReferrerSubjectID request); nullableText (Request_Region request); metadata]
    grantProgramAwardsFromRows).

Definition sweepResultFromRow r (dryRun : bool) : result (SweepResult D) :=
  count <- rowInt r "expired_count" "sweep_expired_lots" ;;
  amount <- rowAmount r "expired_amount" "sweep_expired_lots" ;;
  byBucket <- amountMap (rowValue r "expired_by_bucket") "sweep_expired_lots.expired_by_bucket" ;;
  Ok {| SweepResult_ExpiredCount := count; SweepResult_ExpiredAmount := amount; SweepResult_DryRun := dryRun;
        SweepResult_ExpiredByBucket := default ∅ byBucket |}.

Definition SweepExpiredCredits s (dryRun : bool) userID (limit : Z) : prog (SweepResult D) :=
  limit <~ lift (requireBoundedLimit limit 100 maxMaintenanceBatchSize "credit expiry limit") ;;
  userID <~ (if userID =? "" then ret "" else lift (requireText userID "user ID")) ;;
  withTx s
    (r <~ call_row "sweep_expired_lots" [ArgInt limit; nullableText userID; ArgBool dryRun] ;;
     lift (sweepResultFromRow r dryRun)).

Definition revokeCreditsResultFromRow userID (entryType : string) r : result (RevokeCreditsResult D) :=
  let name := "revoke_subject_credits_by_operation" in
  if negb (optionalRowText r "error_code" =? "") then Err (failed_with name (optionalRowText r "error_code"))
  else
    revoked <- rowAmount r "revoked" name ;;
    balanceAfter <- rowAmount r "balance_after" name ;;
    Ok {| RevokeCreditsResult_UserID := userID; RevokeCreditsResult_EntryType := entryType;
          RevokeCreditsResult_Revoked := revoked; RevokeCreditsResult_BalanceAfter := balanceAfter |}.

Definition RevokeCreditsByEntryType s userID (entryType : string) : prog (RevokeCreditsResult D) :=
  userID <~ lift (requireText userID "user ID") ;;
  entryType <~ lift (requireText entryType "entry type") ;;
  withTx s
    (r <~ call_row "revoke_subject_credits_by_operation" [ArgText userID; ArgText entryType] ;;
     lift (revokeCreditsResultFromRow userID entryType r)).

Definition refundResultFromRow (originalEntryID : string) r : result (RefundResult D) :=
  let name := "refund_credit_by_entry" in
  refunded <- optionalRowAmount r "amount" name ;;
  balanceAfter <- optionalRowAmount r "balance_after" name ;;
  let errorCode := optionalRowText r "error_code" in
  Ok {| RefundResult_RefundEntryID := if negb (errorCode =? "") then "" else optionalRowText r "entry_id";
        RefundResult_OriginalEntryID := originalEntryID; RefundResult_UserID := optionalRowText r "subject_id";
        RefundResult_Amount := refunded; RefundResult_NewBalance := balanceAfter; RefundResult_ErrorCode := errorCode;
        RefundResult_BucketBreakdown := None |}.

Definition optional_amount (amount : option D) : argument D :=
  match amount with Some amount => ArgText (amountArgument amount) | None => ArgNil end.

Definition RefundCredits s (entryID : string) (amount : option D) (reason : string) (metadata : CreditMetadata D)
    (idempotencyKey : string) : prog (RefundResult D) :=
  entryID <~ lift (requireText entryID "ledger entry ID") ;;
  idempotencyKey <~ lift (requireStableKey idempotencyKey "refund idempotency key") ;;
  match amount with
  | Some amount => lift (requirePositiveAmount amount "refund") ;;~ ret tt
  | None => ret tt
  end ;;~
  metadataJSON <~ lift (marshalMetadata metadata) ;;
  withTx s
    (r <~ call_row "refund_credit_by_entry"
       [ArgText entryID; optional_amount amount; ArgText idempotencyKey; nullableText reason; metadataJSON] ;;
     lift (refundResultFromRow entryID r)).

(** ** Catalogs *)

Definition catalogRevisionFromRow r operation : result (CatalogRevision D) :=
  id <- requiredRowText r "id" operation ;;
  version <- rowInt r "revision_no" operation ;;
  config <- jsonMap (rowValue r "source_document") (operation +:+ ".source_document") ;;
  match config with
  | None => Err (row_error (operation +:+ " returned an empty catalog document"))
  | Some config =>
      Ok {| CatalogRevision_ID := id; CatalogRevision_Config := Some config; CatalogRevision_Version := version |}
  end.

Definition rollout_document (plans : gmap string (any D)) : any D := AMap {["plans" := AMap plans]}.
Definition defaultCatalogRollout (rollout : CatalogRollout) : any D :=
  rollout_document ((fun policy => AMap (<["effective" := AString (PlanRollout_Effective policy)]>
                       {["include_pinned" := ABool (PlanRollout_IncludePinned policy)]})) <$> CatalogRollout_Plans rollout).

Definition GetActiveCatalog s : prog (option (CatalogRevision D)) :=
  withTx s (call_optional "active_catalog_revision" [] (fun r => catalogRevisionFromRow r "active_catalog_revision")).

(** A configuration that can be sent. *)
Definition catalog_document (config : option (gmap string (any D))) : result (any D) :=
  match config with
  | None => Err (lease_error "catalog config is required")
  | Some config => marshal "catalog config" config ;;; Ok (AMap config)
  end.

(** [publish_and_activate_catalog], and the identifier of what it published. *)
Definition publish (document : any D) (label : string) (activate : bool) (rollout : any D) : tx_prog string :=
  published <~ call_row "publish_and_activate_catalog"
    [ArgInt 1; ArgJSON document; nullableText label; ArgBool activate; ArgJSON rollout] ;;
  version <~ lift (rowInt published "revision_no" "publish_and_activate_catalog") ;;
  r <~ call_row "catalog_revision_by_number" [ArgInt version] ;;
  revision <~ lift (catalogRevisionFromRow r "catalog_revision_by_number") ;;
  ret (CatalogRevision_ID revision).

(** The rollout always marshals: strings and booleans. *)
Definition PublishAndActivateCatalog s (config : option (gmap string (any D))) (label : string) (rollout : CatalogRollout) : prog string :=
  document <~ lift (catalog_document config) ;;
  withTx s (publish document label true (defaultCatalogRollout rollout)).

Definition PublishCatalogDraft s (config : option (gmap string (any D))) (label : string) : prog string :=
  document <~ lift (catalog_document config) ;;
  withTx s (publish document label false (rollout_document ∅)).

Record CatalogRevisionSummary := {
  Summary_ID : string;
  Summary_Version : Z;
  Summary_Label : string;
  Summary_Active : bool;
  Summary_CreatedAt : Time;
}.

Definition summary_from_row r : result CatalogRevisionSummary :=
  let name := "list_catalog_revisions" in
  id <- requiredRowText r "id" name ;;
  version <- rowInt r "revision_no" name ;;
  createdAt <- rowTime r "created_at" name ;;
  Ok {| Summary_ID := id; Summary_Version := version; Summary_Label := optionalRowText r "label";
        Summary_Active := optionalRowText r "status" =? "active"; Summary_CreatedAt := createdAt |}.

Definition catalogRevisionSummariesFromRows : list (row D) -> result (list CatalogRevisionSummary) := map_result summary_from_row.

Definition GetCatalogHistory s : prog (list CatalogRevisionSummary) :=
  withTx s (call_rows "list_catalog_revisions" [ArgInt 500] catalogRevisionSummariesFromRows).

Definition require_version (version : Z) : result unit :=
  if version <? 1 then Err (lease_error "catalog version must be positive") else Ok tt.

Definition GetCatalogRevision s (version : Z) : prog (option (CatalogRevision D)) :=
  lift (require_version version) ;;~
  withTx s (call_optional "catalog_revision_by_number" [ArgInt version]
    (fun r => catalogRevisionFromRow r "catalog_revision_by_number")).

Definition ActivateCatalogRevision s (version : Z) (rollout : CatalogRollout) : prog string :=
  lift (require_version version) ;;~
  withTx s
    (r <~ call_row "activate_catalog_revision" [ArgInt version; ArgJSON (defaultCatalogRollout rollout)] ;;
     revision <~ lift (catalogRevisionFromRow r "activate_catalog_revision") ;;
     ret (CatalogRevision_ID revision)).

(** ** Plans *)

Record Entitlement := { Entitlement_Value : any D }.

Record PlanAllowancePolicy := {
  PlanAllowancePolicy_Amount : D;
  PlanAllowancePolicy_Priority : Z;
  PlanAllowancePolicy_ResetUnit : string;
  PlanAllowancePolicy_ResetCount : Z;
  PlanAllowancePolicy_ResetAnchor : string;
  PlanAllowancePolicy_ResetTimezone : string;
}.

Record PlanCreditPolicy := {
  PlanCreditPolicy_Type : string;
  PlanCreditPolicy_CreditLimit : option D;
}.

Record PlanAdmissionOperation := { PlanAdmissionOperation_MaxInFlight : option Z }.

Record PlanAdmissionPolicy := {
  PlanAdmissionPolicy_MaxInFlight : option Z;
  PlanAdmissionPolicy_Operations : gmap string PlanAdmissionOperation;
}.

(** [GetUserPlanResult], whole; [plan_terms] is the part of it the services
    read. *)
Record UserPlan := {
  UserPlan_UserID : string;
  UserPlan_PlanID : string;
  UserPlan_PlanLabel : string;
  UserPlan_Allowance : option PlanAllowancePolicy;
  UserPlan_Entitlements : gmap string Entitlement;
  UserPlan_CreditPolicy : option PlanCreditPolicy;
  UserPlan_Admission : option PlanAdmissionPolicy;
  UserPlan_AllowedOperations : list string;
  UserPlan_PlanAssignmentEndsAt : option Time;
  UserPlan_AssignmentSourceType : string;
  UserPlan_AssignmentSourceID : string;
  UserPlan_CatalogRevisionPinned : bool;
  plan_terms : GetUserPlanResult;
}.

(** The document an entitlement or an admission limit is stored as. *)
Definition entitlement (operation feature : string) (raw : any D) : result Entitlement :=
  let of_document document := Ok {| Entitlement_Value := default ANil (document !! "value") |} in
  match raw with
  | AMap document => of_document document
  | _ =>
      match jsonMap (Value raw) (operation +:+ ".entitlements." +:+ feature) with
      | Ok (Some document) => of_document document
      | _ => Err (row_error (operation +:+ " returned an invalid entitlement"))
      end
  end.

Definition entitlementMap (value : cell D) operation : result (gmap string Entitlement) :=
  mapped <- jsonMap value (operation +:+ ".entitlements") ;;
  fold_result (fun acc '(feature, raw) =>
    found <- entitlement operation feature raw ;; Ok (<[feature := found]> acc)) ∅ (range (default ∅ mapped)).

Definition admission_operation operation (key : string) (raw : any D) : result PlanAdmissionOperation :=
  policy <- match raw with
            | AMap document => Ok (Some document)
            | _ => jsonMap (Value raw) (operation +:+ ".operation_admission." +:+ key)
            end ;;
  match policy with
  | None => Err (row_error (operation +:+ " returned an invalid admission policy"))
  | Some policy =>
      limit <- optionalRowInt (Value <$> policy : row D) "max_in_flight" operation ;;
      Ok {| PlanAdmissionOperation_MaxInFlight := limit |}
  end.

Definition admissionPolicy r operation : result (option PlanAdmissionPolicy) :=
  maxInFlight <- optionalRowInt r "admission_max_in_flight" operation ;;
  document <- jsonMap (rowValue r "operation_admission") (operation +:+ ".operation_admission") ;;
  let document := default ∅ document in
  if negb (is_some maxInFlight) && bool_decide (document = ∅) then Ok None
  else
    operations <- fold_result (fun acc '(key, raw) =>
      limit <- admission_operation operation key raw ;; Ok (<[key := limit]> acc)) ∅ (range document) ;;
    Ok (Some {| PlanAdmissionPolicy_MaxInFlight := maxInFlight; PlanAdmissionPolicy_Operations := operations |}).

Definition allowance_policy r (amount : option D) : result (option PlanAllowancePolicy) :=
  let name := "get_subject_plan" in
  match amount with
  | None => Ok None
  | Some amount =>
      priority <- rowInt r "credit_allowance_priority" name ;;
      resetCount <- rowInt r "credit_allowance_reset_count" name ;;
      resetUnit <- requiredRowText r "credit_allowance_reset_unit" name ;;
      resetAnchor <- requiredRowText r "credit_allowance_reset_anchor" name ;;
      resetTimezone <- requiredRowText r "credit_allowance_reset_timezone" name ;;
      Ok (Some {| PlanAllowancePolicy_Amount := amount; PlanAllowancePolicy_Priority := priority;
                  PlanAllowancePolicy_ResetUnit := resetUnit; PlanAllowancePolicy_ResetCount := resetCount;
                  PlanAllowancePolicy_ResetAnchor := resetAnchor; PlanAllowancePolicy_ResetTimezone := resetTimezone |})
  end.

Definition credit_policy r : result (option PlanCreditPolicy) :=
  let policyType := optionalRowText r "credit_policy_type" in
  if policyType =? "" then Ok None
  else
    limit <- optionalRowAmount r "credit_limit" "get_subject_plan" ;;
    Ok (Some {| PlanCreditPolicy_Type := policyType; PlanCreditPolicy_CreditLimit := limit |}).

Definition no_plan userID : UserPlan :=
  {| UserPlan_UserID := userID; UserPlan_PlanID := ""; UserPlan_PlanLabel := ""; UserPlan_Allowance := None;
     UserPlan_Entitlements := ∅; UserPlan_CreditPolicy := None; UserPlan_Admission := None;
     UserPlan_AllowedOperations := []; UserPlan_PlanAssignmentEndsAt := None; UserPlan_AssignmentSourceType := "";
     UserPlan_AssignmentSourceID := ""; UserPlan_CatalogRevisionPinned := false;
     plan_terms := {| GetUserPlanResult_PlanKey := ""; GetUserPlanResult_RateCard := "";
                      GetUserPlanResult_CatalogVersion := None; GetUserPlanResult_PlanAssignedAt := None |} |}.

Definition userPlanFromRow userID (found : option (row D)) : result UserPlan :=
  let name := "get_subject_plan" in
  match found with
  | None => Ok (no_plan userID)
  | Some r =>
      allowanceAmount <- optionalRowAmount r "credit_allowance_amount" name ;;
      allowance <- allowance_policy r allowanceAmount ;;
      entitlements <- entitlementMap (rowValue r "entitlements") name ;;
      operations <- stringSlice (rowValue r "allowed_operations") (name +:+ ".allowed_operations") ;;
      admission <- admissionPolicy r name ;;
      creditPolicy <- credit_policy r ;;
      planAssignedAt <- optionalRowTime r "plan_assigned_at" name ;;
      planEndsAt <- optionalRowTime r "plan_assignment_ends_at" name ;;
      pinned <- rowBool r "catalog_revision_pinned" name ;;
      version <- optionalRowInt r "catalog_revision_no" name ;;
      Ok {| UserPlan_UserID := optionalRowText r "user_id"; UserPlan_PlanID := optionalRowText r "plan_id";
            UserPlan_PlanLabel := optionalRowText r "plan_label"; UserPlan_Allowance := allowance;
            UserPlan_Entitlements := entitlements; UserPlan_CreditPolicy := creditPolicy; UserPlan_Admission := admission;
            UserPlan_AllowedOperations := operations; UserPlan_PlanAssignmentEndsAt := planEndsAt;
            UserPlan_AssignmentSourceType := optionalRowText r "assignment_source_type";
            UserPlan_AssignmentSourceID := optionalRowText r "assignment_source_id"; UserPlan_CatalogRevisionPinned := pinned;
            plan_terms := {| GetUserPlanResult_PlanKey := optionalRowText r "plan_key";
                             GetUserPlanResult_RateCard := optionalRowText r "rate_card";
                             GetUserPlanResult_CatalogVersion := version;
                             GetUserPlanResult_PlanAssignedAt := planAssignedAt |} |}
  end.

Definition with_user userID (plan : UserPlan) : UserPlan :=
  {| UserPlan_UserID := or_text (UserPlan_UserID plan) userID; UserPlan_PlanID := UserPlan_PlanID plan;
     UserPlan_PlanLabel := UserPlan_PlanLabel plan; UserPlan_Allowance := UserPlan_Allowance plan;
     UserPlan_Entitlements := UserPlan_Entitlements plan; UserPlan_CreditPolicy := UserPlan_CreditPolicy plan;
     UserPlan_Admission := UserPlan_Admission plan; UserPlan_AllowedOperations := UserPlan_AllowedOperations plan;
     UserPlan_PlanAssignmentEndsAt := UserPlan_PlanAssignmentEndsAt plan;
     UserPlan_AssignmentSourceType := UserPlan_AssignmentSourceType plan;
     UserPlan_AssignmentSourceID := UserPlan_AssignmentSourceID plan;
     UserPlan_CatalogRevisionPinned := UserPlan_CatalogRevisionPinned plan; plan_terms := plan_terms plan |}.

Definition GetUserPlan s userID : prog UserPlan :=
  userID <~ lift (requireText userID "user ID") ;;
  withTx s
    (rows <~ Call "get_subject_plan" [ArgText userID] ;;
     plan <~ lift (userPlanFromRow userID (rowOptional rows)) ;;
     ret (with_user userID plan)).

(** The result of [CheckFeature], and the value of the entitlement it found. *)
Definition feature_result userID (feature : string) (has : bool) (value : cell D) : CheckFeatureResult * cell D :=
  ({| CheckFeatureResult_UserID := userID; CheckFeatureResult_Feature := feature; CheckFeatureResult_HasFeature := has |}, value).

Definition is_false (value : cell D) : bool := match value with Value (ABool false) => true | _ => false end.

Definition feature_from_rows userID (feature : string) (rows : list (row D)) : result (CheckFeatureResult * cell D) :=
  match List.find (fun r => optionalRowText r "feature_key" =? feature) rows with
  | None => Ok (feature_result userID feature false (Value ANil))
  | Some r =>
      value <- jsonValue (rowValue r "feature_value") "get_subject_entitlements.feature_value" ;;
      Ok (feature_result userID feature (negb (is_null value || is_false value)) value)
  end.

Definition CheckFeature s userID (feature : string) : prog (CheckFeatureResult * cell D) :=
  userID <~ lift (requireText userID "user ID") ;;
  feature <~ lift (requireText feature "feature") ;;
  withTx s (call_rows "get_subject_entitlements" [ArgText userID] (feature_from_rows userID feature)).

Definition setUserPlanResultFromRow userID r : result SetUserPlanResult :=
  assignedAt <- rowTime r "plan_assigned_at" "set_subject_plan" ;;
  Ok {| SetUserPlanResult_UserID := userID; SetUserPlanResult_PlanID := optionalRowText r "plan_id";
        SetUserPlanResult_PlanKey := optionalRowText r "plan_key"; SetUserPlanResult_PlanAssignedAt := assignedAt;
        SetUserPlanResult_AssignmentState := optionalRowText r "assignment_state" |}.

Definition SetUserPlan s userID (planKey : string) (planAssignedAt : option Time) : prog SetUserPlanResult :=
  userID <~ lift (requireText userID "user ID") ;;
  planKey <~ lift (requireText planKey "plan key") ;;
  withTx s
    (r <~ call_row "set_subject_plan" [ArgText userID; ArgText planKey; nullableTime planAssignedAt] ;;
     lift (setUserPlanResultFromRow userID r)).

(** A function that must not answer false. *)
Definition must_hold (value : cell D) name : result unit :=
  held <- scalarBool value name ;;
  if held : bool then Ok tt else Err (row_error (name +:+ " returned false")).

(** The result is the user whose plan was removed. *)
Definition UnsetUserPlan s userID : prog string :=
  userID <~ lift (requireText userID "user ID") ;;
  withTx s (call_scalar "unassign_plan" [ArgText userID; ArgText "sdk_unassignment"] must_hold ;;~ ret userID).

Definition SetPlanRevisionPin s userID (pinned : bool) : prog bool :=
  userID <~ lift (requireText userID "user ID") ;;
  withTx s (call_scalar "set_plan_revision_pin" [ArgText userID; ArgBool pinned] scalarBool).

Definition ApplyDuePlanChanges s (limit : Z) : prog Z :=
  limit <~ lift (requireBoundedLimit limit 100 maxMaintenanceBatchSize "plan change limit") ;;
  withTx s (call_scalar "apply_due_plan_assignment_changes" [ArgInt limit] scalarInt).

(** The result is the identifier of the migration. *)
Definition planMigrationStartFromRow r : result string :=
  value <- firstScalar r "start_plan_migration" ;;
  let invalid := "start_plan_migration returned an invalid migration ID" in
  match textValue value with
  | None => Err (row_error invalid)
  | Some migrationID =>
      match normalizeTenantID migrationID with
      | Ok migrationID => Ok migrationID
      | Err err => Err (NewStoreError invalid (failed_options true ∅ err))
      end
  end.

Definition StartPlanMigration s (fromPlanID toPlanID : string) : prog string :=
  fromPlanID <~ (if fromPlanID =? "" then ret "" else lift (requireText fromPlanID "source plan ID")) ;;
  toPlanID <~ lift (requireText toPlanID "target plan ID") ;;
  withTx s
    (r <~ call_row "start_plan_migration" [nullableText fromPlanID; ArgText toPlanID] ;;
     lift (planMigrationStartFromRow r)).

Record PlanMigrationBatchResult := {
  PlanMigrationBatchResult_Migrated : Z;
  PlanMigrationBatchResult_Done : bool;
  PlanMigrationBatchResult_NextCursor : string;
}.

Definition planMigrationBatchFromRow r : result PlanMigrationBatchResult :=
  migrated <- rowInt r "migrated" "migrate_plan_batch" ;;
  done <- rowBool r "done" "migrate_plan_batch" ;;
  Ok {| PlanMigrationBatchResult_Migrated := migrated; PlanMigrationBatchResult_Done := done;
        PlanMigrationBatchResult_NextCursor := optionalRowText r "next_cursor" |}.

Definition MigratePlanBatch s (migrationID : string) (batchSize : Z) : prog PlanMigrationBatchResult :=
  migrationID <~ lift (requireText migrationID "migration ID") ;;
  batchSize <~ lift (requireBoundedLimit batchSize 100 maxMaintenanceBatchSize "migration batch size") ;;
  withTx s
    (r <~ call_row "migrate_plan_batch" [ArgText migrationID; ArgInt batchSize] ;;
     lift (planMigrationBatchFromRow r)).

Definition allowanceFromRow r : result (AllowanceResult D) :=
  let name := "get_subject_allowance" in
  remaining <- rowAmount r "allowance_remaining" name ;;
  periodStart <- rowTime r "period_start" name ;;
  periodEnd <- rowTime r "period_end" name ;;
  Ok {| AllowanceResult_PlanID := optionalRowText r "plan_id"; AllowanceResult_AllowanceRemaining := remaining;
        AllowanceResult_PeriodStart := periodStart; AllowanceResult_PeriodEnd := periodEnd |}.

Definition CheckAllowance s userID : prog (option (AllowanceResult D)) :=
  userID <~ lift (requireText userID "user ID") ;;
  withTx s (call_optional "get_subject_allowance" [ArgText userID] allowanceFromRow).

(** ** Reports *)

Definition maxPageSize : Z := 500.
Definition maxLedgerPageSize : Z := 200.
Definition defaultPageSize : Z := 50.

Definition Before (t u : Time) : bool := instant t <? instant u.

Definition requireTimeRange (start stop : Time) operation : result unit :=
  if IsZeroTime start || IsZeroTime stop then Err (lease_error (operation +:+ " requires start and end timestamps"))
  else if Before stop start then Err (lease_error (operation +:+ " end timestamp must not precede start"))
  else Ok tt.

Definition rowTextFallback r (primary fallback : string) : string :=
  let value := optionalRowText r primary in
  if (value =? "") && negb (fallback =? "") then optionalRowText r fallback else value.

(** [value, err := first(); if err != nil { value, err = second() }] *)
Definition or_else {A} (first second : result A) : result A := match first with Ok a => Ok a | Err _ => second end.

Definition entry_count r operation : result Z := or_else (rowInt r "charge_count" operation) (rowInt r "entry_count" operation).

(** A user's or a model's spend. *)
Record SpendRow := {
  SpendRow_Key : string;
  SpendRow_TotalSpend : D;
  SpendRow_EntryCount : Z;
}.

Definition spend_row operation (key : row D -> string) r : result SpendRow :=
  amount <- rowAmount r "total_spend" operation ;;
  count <- entry_count r operation ;;
  Ok {| SpendRow_Key := key r; SpendRow_TotalSpend := amount; SpendRow_EntryCount := count |}.

Definition spending_user r : string := rowTextFallback r "subject_id" "user_id".
Definition spendByUserFromRows : list (row D) -> result (list SpendRow) := map_result (spend_row "spend_by_user" spending_user).
Definition spendByModelFromRows : list (row D) -> result (list SpendRow) :=
  map_result (spend_row "spend_by_model" (fun r => optionalRowText r "model")).

(** The rows of a report over a range of time. *)
Definition report {A} s (what name : string) (start stop : Time) (read : list (row D) -> result A) : prog A :=
  lift (requireTimeRange start stop what) ;;~
  withTx s (call_rows name [ArgTime (ToUTC start); ArgTime (ToUTC stop)] read).

Definition SpendByUser s (start stop : Time) : prog (list SpendRow) :=
  report s "spend by user" "spend_by_user" start stop spendByUserFromRows.
Definition SpendByModel s (start stop : Time) : prog (list SpendRow) :=
  report s "spend by model" "spend_by_model" start stop spendByModelFromRows.

Definition top_user r : result (string * D) :=
  amount <- rowAmount r "total_spend" "spend_by_user" ;; Ok (spending_user r, amount).
Definition topUsersFromRows : list (row D) -> result (list (string * D)) := map_result top_user.

Definition TopUsers s (limit : Z) (start stop : Time) : prog (list (string * D)) :=
  lift (requireTimeRange start stop "top users") ;;~
  limit <~ lift (requireBoundedLimit limit defaultPageSize maxPageSize "top user limit") ;;
  withTx s (call_rows "spend_by_user" [ArgTime (ToUTC start); ArgTime (ToUTC stop)]
    (fun rows => topUsersFromRows (take (Z.to_nat limit) rows))).

(** [time.Parse("2006-01-02", text)] *)
Definition ParseDate (text : string) : option Time :=
  let? (year, rest) := take_digits 4 0 text in
  let? rest := expect "-" rest in
  let? (month, rest) := take_digits 2 0 rest in
  let? rest := expect "-" rest in
  let? (day, rest) := take_digits 2 0 rest in
  if rest =? "" then
    (fun instant => {| instant := instant; location := UTC |}) <$>
      instant_of year month day {| clock_hour := 0; clock_minute := 0; clock_second := 0; clock_nanos := 0 |} 0
  else None.

Definition rowCalendarDate `{Zones} r (key : string) operation : result Time :=
  match rowValue r key with
  | TimeValue t _ => Ok (time_Date (Year t) (Month t) (Day t) 0 0 0 0 UTC)
  | value =>
      match textValue value with
      | None => Err (invalid_column operation key)
      | Some text =>
          match ParseDate text with
          | Some date => Ok date
          | None => Err (row_error_of (operation +:+ " returned an invalid " +:+ key) (ExternalError ("parsing time " +:+ Quote text)))
          end
      end
  end.

Record DailySpendRow := {
  DailySpendRow_Date : Time;
  DailySpendRow_TotalSpend : D;
  DailySpendRow_EntryCount : Z;
}.

Definition daily_spend_row `{Zones} r : result DailySpendRow :=
  date <- or_else (rowCalendarDate r "day" "daily_spend") (rowCalendarDate r "date" "daily_spend") ;;
  amount <- rowAmount r "total_spend" "daily_spend" ;;
  count <- entry_count r "daily_spend" ;;
  Ok {| DailySpendRow_Date := date; DailySpendRow_TotalSpend := amount; DailySpendRow_EntryCount := count |}.

Definition dailySpendFromRows `{Zones} : list (row D) -> result (list DailySpendRow) := map_result daily_spend_row.
Definition DailySpend `{Zones} s (start stop : Time) : prog (list DailySpendRow) :=
  report s "daily spend" "daily_spend" start stop dailySpendFromRows.

Record AggregateStats := {
  AggregateStats_TotalCreditsConsumed : D;
  AggregateStats_ActiveUsers : Z;
  AggregateStats_AverageDailySpend : D;
  AggregateStats_TopModel : string;
  AggregateStats_TopUser : string;
}.

Definition aggregateStatsFromRow r : result AggregateStats :=
  let name := "aggregate_usage_stats" in
  consumed <- rowAmount r "total_credits_consumed" name ;;
  activeUsers <- rowInt r "active_users" name ;;
  average <- rowAmount r "avg_daily_spend" name ;;
  Ok {| AggregateStats_TotalCreditsConsumed := consumed; AggregateStats_ActiveUsers := activeUsers;
        AggregateStats_AverageDailySpend := average; AggregateStats_TopModel := optionalRowText r "top_model";
        AggregateStats_TopUser := optionalRowText r "top_user" |}.

Definition GetAggregateStats s (start stop : Time) : prog AggregateStats :=
  report s "aggregate usage stats" "aggregate_usage_stats" start stop
    (fun rows => r <- rowRequired rows "aggregate_usage_stats" ;; aggregateStatsFromRow r).

(** ** The ledger and the usage charges, by pages *)

Record LedgerEntry := {
  LedgerEntry_EntryID : string;
  LedgerEntry_AccountID : string;
  LedgerEntry_ActorUserID : string;
  LedgerEntry_Amount : D;
  LedgerEntry_EntryType : string;
  LedgerEntry_Operation : string;
  LedgerEntry_ReferenceEntryID : string;
  LedgerEntry_IdempotencyKey : string;
  LedgerEntry_Metadata : CreditMetadata D;
  LedgerEntry_CreatedAt : Time;
}.

Definition ledgerEntryFromRow r operation : result LedgerEntry :=
  entryID <- requiredRowText r "entry_id" operation ;;
  accountID <- requiredRowText r "account_id" operation ;;
  amount <- rowAmount r "amount" operation ;;
  createdAt <- rowTime r "created_at" operation ;;
  metadata <- jsonMap (rowValue r "metadata") (operation +:+ ".metadata") ;;
  Ok {| LedgerEntry_EntryID := entryID; LedgerEntry_AccountID := accountID;
        LedgerEntry_ActorUserID := optionalRowText r "actor_user_id"; LedgerEntry_Amount := amount;
        LedgerEntry_EntryType := optionalRowText r "entry_type"; LedgerEntry_Operation := optionalRowText r "operation";
        LedgerEntry_ReferenceEntryID := optionalRowText r "reference_entry_id";
        LedgerEntry_IdempotencyKey := optionalRowText r "idempotency_key"; LedgerEntry_Metadata := metadata;
        LedgerEntry_CreatedAt := createdAt |}.

(** [LedgerCursor] and [UsageChargeCursor]: the instant and the identifier of
    the last item of a page. *)
Record Cursor := {
  Cursor_At : Time;
  Cursor_ID : string;
}.

Record page {A : Type} := {
  Page_Items : list A;
  Page_NextCursor : option Cursor;
}.

(** The rows are one more than the page holds when there is a next one. *)
Definition page_from_rows {A} (limit : Z) (read : row D -> result A) (cursor : A -> Cursor) (rows : list (row D)) : result (@page A) :=
  let hasMore := limit <? Z.of_nat (length rows) in
  items <- map_result read (if hasMore then take (Z.to_nat limit) rows else rows) ;;
  Ok {| Page_Items := items; Page_NextCursor := if hasMore then cursor <$> last items else None |}.

Definition reversed (from to : option Time) : bool :=
  match to, from with Some to, Some from => Before to from | _, _ => false end.

(** The arguments a cursor is sent as. *)
Definition cursor_arguments (what id : string) (cursor : option Cursor) : result (list (argument D)) :=
  match cursor with
  | None => Ok [ArgNil; ArgNil]
  | Some cursor =>
      if IsZeroTime (Cursor_At cursor) then Err (lease_error (what +:+ " cursor timestamp is required"))
      else id <- requireText (Cursor_ID cursor) id ;; Ok [ArgTime (ToUTC (Cursor_At cursor)); ArgText id]
  end.

Record ListLedgerEntriesOptions := {
  ListLedger_EntryTypes : option (list string);
  ListLedger_From : option Time;
  ListLedger_To : option Time;
  ListLedger_Limit : Z;
  ListLedger_Cursor : option Cursor;
}.

Definition validateLedgerOptions (options : ListLedgerEntriesOptions) : result Z :=
  limit <- requireBoundedLimit (ListLedger_Limit options) defaultPageSize maxLedgerPageSize "ledger page limit" ;;
  if reversed (ListLedger_From options) (ListLedger_To options)
  then Err (lease_error "ledger end timestamp must not precede start")
  else Ok limit.

Definition ledger_cursor (entry : LedgerEntry) : Cursor :=
  {| Cursor_At := LedgerEntry_CreatedAt entry; Cursor_ID := LedgerEntry_EntryID entry |}.

Definition listLedger s userID (options : ListLedgerEntriesOptions) (usageOnly : bool) : prog (@page LedgerEntry) :=
  userID <~ lift (requireText userID "user ID") ;;
  limit <~ lift (validateLedgerOptions options) ;;
  let entryTypes := if usageOnly then Some ["usage"] else ListLedger_EntryTypes options in
  cursor <~ lift (cursor_arguments "ledger" "ledger cursor entry ID" (ListLedger_Cursor options)) ;;
  withTx s (call_rows "list_ledger"
    ([ArgText userID] ++ cursor ++
     [ArgInt (limit + 1); ArgTexts entryTypes; nullableTime (ListLedger_From options); nullableTime (ListLedger_To options);
      ArgBool usageOnly])
    (page_from_rows limit (fun r => ledgerEntryFromRow r "list_ledger") ledger_cursor)).

Definition ListLedgerEntries s userID options := listLedger s userID options false.
Definition ListUsageEntries s userID options := listLedger s userID options true.

Record UsageCharge := {
  UsageCharge_UsageID : string;
  UsageCharge_AccountID : string;
  UsageCharge_Operation : string;
  UsageCharge_Requested : D;
  UsageCharge_Charged : D;
  UsageCharge_AllowanceRequested : D;
  UsageCharge_AllowanceCovered : D;
  UsageCharge_BillingDisposition : string;
  UsageCharge_Feature : string;
  UsageCharge_Model : string;
  UsageCharge_Region : string;
  UsageCharge_EventAt : Time;
  UsageCharge_IdempotencyKey : string;
  UsageCharge_Metadata : CreditMetadata D;
  UsageCharge_CreatedAt : Time;
}.

Definition usageChargeFromRow r operation : result UsageCharge :=
  usageID <- requiredRowText r "usage_id" operation ;;
  accountID <- requiredRowText r "account_id" operation ;;
  requested <- rowAmount r "requested" operation ;;
  charged <- rowAmount r "charged" operation ;;
  allowanceRequested <- rowAmount r "allowance_requested" operation ;;
  allowanceCovered <- rowAmount r "allowance_covered" operation ;;
  eventAt <- rowTime r "event_at" operation ;;
  createdAt <- rowTime r "created_at" operation ;;
  metadata <- jsonMap (rowValue r "metadata") (operation +:+ ".metadata") ;;
  Ok {| UsageCharge_UsageID := usageID; UsageCharge_AccountID := accountID;
        UsageCharge_Operation := optionalRowText r "operation"; UsageCharge_Requested := requested;
        UsageCharge_Charged := charged; UsageCharge_AllowanceRequested := allowanceRequested;
        UsageCharge_AllowanceCovered := allowanceCovered;
        UsageCharge_BillingDisposition := optionalRowText r "billing_disposition";
        UsageCharge_Feature := optionalRowText r "feature"; UsageCharge_Model := optionalRowText r "model";
        UsageCharge_Region := optionalRowText r "region"; UsageCharge_EventAt := eventAt;
        UsageCharge_IdempotencyKey := optionalRowText r "idempotency_key"; UsageCharge_Metadata := metadata;
        UsageCharge_CreatedAt := createdAt |}.

Record ListUsageChargesOptions := {
  ListUsage_From : option Time;
  ListUsage_To : option Time;
  ListUsage_Limit : Z;
  ListUsage_Cursor : option Cursor;
  ListUsage_IncludeRecordOnly : option bool;
}.

Definition usage_cursor (charge : UsageCharge) : Cursor :=
  {| Cursor_At := UsageCharge_EventAt charge; Cursor_ID := UsageCharge_UsageID charge |}.

Definition ListUsageCharges s userID (options : ListUsageChargesOptions) : prog (@page UsageCharge) :=
  userID <~ lift (requireText userID "user ID") ;;
  limit <~ lift (requireBoundedLimit (ListUsage_Limit options) defaultPageSize maxLedgerPageSize "usage charge page limit") ;;
  if reversed (ListUsage_From options) (ListUsage_To options)
  then raise (lease_error "usage charge end timestamp must not precede start")
  else
    cursor <~ lift (cursor_arguments "usage charge" "usage charge cursor ID" (ListUsage_Cursor options)) ;;
    withTx s (call_rows "list_usage_charges"
      ([ArgText userID] ++ cursor ++
       [ArgInt (limit + 1); nullableTime (ListUsage_From options); nullableTime (ListUsage_To options);
        ArgBool (default true (ListUsage_IncludeRecordOnly options))])
      (page_from_rows limit (fun r => usageChargeFromRow r "list_usage_charges") usage_cursor)).

Definition GetLedgerEntry s userID (entryID : string) : prog (option LedgerEntry) :=
  userID <~ lift (requireText userID "user ID") ;;
  entryID <~ lift (requireText entryID "ledger entry ID") ;;
  withTx s (call_optional "get_ledger_entry" [ArgText userID; ArgText entryID] (fun r => ledgerEntryFromRow r "get_ledger_entry")).

(** ** Teams *)

Definition TeamRoleOwner := "owner".
Definition TeamRoleAdmin := "admin".
Definition TeamRoleMember := "member".
Definition is_role (role : string) : bool := (role =? TeamRoleOwner) || (role =? TeamRoleAdmin) || (role =? TeamRoleMember).

Record CreateTeamResult := {
  CreateTeamResult_TeamID : string;
  CreateTeamResult_Name : string;
  CreateTeamResult_Idempotent : bool;
}.

Definition createTeamResultFromRow r : result CreateTeamResult :=
  teamID <- requiredRowText r "team_id" "create_team" ;;
  name <- requiredRowText r "name" "create_team" ;;
  idempotent <- rowBool r "idempotent" "create_team" ;;
  Ok {| CreateTeamResult_TeamID := teamID; CreateTeamResult_Name := name; CreateTeamResult_Idempotent := idempotent |}.

Definition CreateTeam s (ownerUserID name idempotencyKey : string) (initialBalance : D) : prog CreateTeamResult :=
  ownerUserID <~ lift (requireText ownerUserID "team owner user ID") ;;
  name <~ lift (requireText name "team name") ;;
  idempotencyKey <~ lift (requireStableKey idempotencyKey "team creation idempotency key") ;;
  lift (requireNonNegativeAmount initialBalance "team initial balance") ;;~
  withTx s
    (r <~ call_row "create_team" [ArgText ownerUserID; ArgText name; ArgText idempotencyKey; ArgText (amountArgument initialBalance)] ;;
     lift (createTeamResultFromRow r)).

Definition teamBalanceFromRow r : result (TeamBalanceResult D) :=
  balance <- rowAmount r "balance" "get_team_balance" ;;
  memberCount <- rowInt r "member_count" "get_team_balance" ;;
  Ok {| TeamBalanceResult_TeamID := optionalRowText r "team_id"; TeamBalanceResult_Name := optionalRowText r "name";
        TeamBalanceResult_Balance := balance; TeamBalanceResult_MemberCount := memberCount |}.

Definition GetTeamBalance s (teamID : string) : prog (option (TeamBalanceResult D)) :=
  teamID <~ lift (requireText teamID "team ID") ;;
  withTx s (call_optional "get_team_balance" [ArgText teamID] teamBalanceFromRow).

(** The result is the role that was set. *)
Definition AddTeamMember s (teamID userID role : string) (spendCap : option D) : prog string :=
  teamID <~ lift (requireText teamID "team ID") ;;
  userID <~ lift (requireText userID "user ID") ;;
  let role := or_text role TeamRoleMember in
  if negb (is_role role) then raise (lease_error "team role is invalid")
  else if match spendCap with Some cap => IsNegative cap | None => false end
  then raise (lease_error "team spend cap must not be negative")
  else
    withTx s
      (call_scalar "set_team_member" [ArgText teamID; ArgText userID; ArgText role; optional_amount spendCap] must_hold ;;~ ret role).

Record TeamMember := {
  TeamMember_UserID : string;
  TeamMember_Role : string;
  TeamMember_SpendCap : option D;
  TeamMember_TotalSpent : D;
}.

Definition team_member r : result TeamMember :=
  spendCap <- optionalRowAmount r "spend_cap" "list_team_members" ;;
  totalSpent <- rowAmount r "total_spent" "list_team_members" ;;
  let role := optionalRowText r "role" in
  if negb (is_role role) then Err (row_error "list_team_members returned an invalid role")
  else Ok {| TeamMember_UserID := optionalRowText r "user_id"; TeamMember_Role := role; TeamMember_SpendCap := spendCap;
             TeamMember_TotalSpent := totalSpent |}.

Definition teamMembersFromRows : list (row D) -> result (list TeamMember) := map_result team_member.

Definition GetTeamMembers s (teamID : string) : prog (list TeamMember) :=
  teamID <~ lift (requireText teamID "team ID") ;;
  withTx s (call_rows "list_team_members" [ArgText teamID] teamMembersFromRows).

Definition RemoveTeamMember s (teamID userID : string) : prog bool :=
  teamID <~ lift (requireText teamID "team ID") ;;
  userID <~ lift (requireText userID "user ID") ;;
  withTx s (call_scalar "remove_team_member" [ArgText teamID; ArgText userID] scalarBool).

(** What the database committed must be what was asked for. *)
Definition teamDeductionResultFromRow (requested : D) r : result (TeamDeductionResult D) :=
  committed <- rowAmount r "amount" "deduct_team" ;;
  balanceAfter <- optionalRowAmount r "balance_after" "deduct_team" ;;
  idempotent <- rowBool r "replayed" "deduct_team" ;;
  let errorCode := optionalRowText r "error_code" in
  let requested := QuantizeMoney requested in
  if (errorCode =? "") && negb (dec_equal committed requested)
  then Err (NewStoreError "deduct_team committed amount differs from request"
              {| opt_Code := ""; opt_Category := ""; opt_Retryable := false; opt_Indeterminate := true; opt_Details := ∅;
                 opt_Cause := None |})
  else
    Ok {| TeamDeductionResult_EntryID := optionalRowText r "entry_id"; TeamDeductionResult_TeamID := optionalRowText r "team_id";
          TeamDeductionResult_UserID := optionalRowText r "subject_id"; TeamDeductionResult_Amount := requested;
          TeamDeductionResult_TeamBalanceAfter := balanceAfter; TeamDeductionResult_Idempotent := idempotent;
          TeamDeductionResult_ErrorCode := errorCode |}.

Definition DeductTeam s (teamID userID : string) amount (options : TeamDeductionOptions D) : prog (TeamDeductionResult D) :=
  teamID <~ lift (requireText teamID "team ID") ;;
  userID <~ lift (requireText userID "user ID") ;;
  lift (requirePositiveAmount amount "team deduct") ;;~
  idempotencyKey <~ lift (requireStableKey (TeamDeductionOptions_IdempotencyKey options) "team deduct idempotency key") ;;
  operation <~ lift (requireText (TeamDeductionOptions_Operation options) "team operation") ;;
  metadata <~ lift (marshalMetadata (TeamDeductionOptions_Metadata options)) ;;
  withTx s
    (r <~ call_row "deduct_team"
       [ArgText teamID; ArgText userID; ArgText (amountArgument amount); ArgText idempotencyKey; ArgText operation; metadata] ;;
     lift (teamDeductionResultFromRow amount r)).
End store.

(** ** Construction *)

(** [postgresStoreClientOptions]: the tenant and the environment are
    required here, and the tenant is the normalized one. *)
Definition postgresStoreClientOptions (options : PostgresClientOptions) : result PostgresClientOptions :=
  tenantID <- normalizeTenantID (Options_TenantID options) ;;
  if Options_ProviderEnvironment options =? "" then Err (option_error "provider environment is required for PostgresStore")
  else
    match ProviderRegistry.Validate (Options_ProviderEnvironment options) with
    | Err err =>
        Err (NewError "invalid provider environment" (error_options ErrorCode.Config ErrorCategory.InvalidRequest (Some err)))
    | Ok _ =>
        Ok {| Options_TenantID := tenantID; Options_AccessRole := Options_AccessRole options;
              Options_UsageBackend := Options_UsageBackend options;
              Options_BillingPayloadBackend := Options_BillingPayloadBackend options;
              Options_ProviderEnvironment := Options_ProviderEnvironment options;
              Options_ConnectionTimeout := Options_ConnectionTimeout options;
              Options_StatementTimeout := Options_StatementTimeout options;
              Options_IdleTransactionTimeout := Options_IdleTransactionTimeout options;
              Options_MaxConnections := Options_MaxConnections options;
              Options_ApplicationName := Options_ApplicationName options;
              Options_HasOnPoolError := Options_HasOnPoolError options |}
    end.

Definition NewPostgresStoreFromPool (pool : bool) (options : PostgresClientOptions) : result PostgresStore :=
  if negb pool then Err (option_error "PostgreSQL pool is required")
  else
    clientOptions <- postgresStoreClientOptions options ;;
    client <- NewPostgresClientFromPool pool clientOptions ;;
    Ok {| PostgresStore_Client := Some client |}.

(** ** What a method does to the database *)

Section store_facts.
Context {D : Type} `{DecimalOps D} `{RangeOrder} `{Printed D}.
Notation event := (event (@pg_answer D)).
Notation tx_event := (Effects.event (@tx_answer D)).
Notation prog := (prog (@pg_answer D)).
Notation tx_prog := (Effects.prog (@tx_answer D)).
Implicit Types (s : option PostgresStore) (arguments : list (argument D)).

(** The query that calls a function. *)
Definition function_call (name : string) arguments : tx_call D := TxQuery (rpc_query name arguments) arguments.

(** The functions a mutating method reads with, after it wrote. *)
Definition read_functions : list string :=
  ["get_credit_state"; "get_credit_grant_details"; "get_credit_operation_details"; "get_credit_lease"; "catalog_revision_by_number"].

Definition is_read (ev : tx_event) : Prop :=
  exists name arguments, name ∈ read_functions /\ projT1 ev = function_call name arguments.

(** The queries of a program that first calls [name], and only reads then. *)
Definition one_write (name : string) arguments (queries : list tx_event) : Prop :=
  exists answer reads, queries = existT (function_call name arguments) answer :: reads /\ Forall is_read reads.

Definition writes_first {A} name arguments (p : tx_prog A) : Prop :=
  forall t r, runs p t r -> one_write name arguments t.

Lemma Call_first name arguments : is_identifier name = true -> writes_first name arguments (@Call D name arguments).
Proof.
  intros Hname t r Hr. unfold Call, classified, tx_rpc in Hr. rewrite Hname in Hr. cbn in Hr.
  destruct Hr as (x & t' & -> & Hr). exists x, []. split; [|constructor]. f_equal.
  destruct x; by destruct Hr as [-> _].
Qed.

Lemma writes_first_bind {A B} name arguments (p : tx_prog A) (f : A -> tx_prog B) :
  writes_first name arguments p -> (forall a, only is_read (f a)) -> writes_first name arguments (pbind p f).
Proof.
  intros Hp Hf t r [(t1 & a & t2 & -> & (x & reads & -> & Hreads)%Hp & Hr)|(err & Hr & _)]%runs_bind; [|by eapply Hp].
  exists x, (reads ++ t2). split; [done|]. apply Forall_app. split; [done|]. by eapply Hf.
Qed.

Lemma call_row_first name arguments : is_identifier name = true -> writes_first name arguments (@call_row D name arguments).
Proof. intros Hname. apply writes_first_bind; [by apply Call_first|]. auto with effects. Qed.

Lemma Call_reads name arguments : is_identifier name = true -> name ∈ read_functions -> only is_read (@Call D name arguments).
Proof.
  intros Hname Hread t r (x & reads & -> & Hreads)%(Call_first _ _ Hname). constructor; [|done]. by exists name, arguments.
Qed.

Lemma only_lift {A} (P : tx_event -> Prop) (x : result A) : only P (lift x).
Proof. apply only_done. Qed.

Lemma only_ret {A} (P : tx_event -> Prop) (a : A) : only P (ret a).
Proof. apply only_done. Qed.
End store_facts.

#[export] Hint Resolve only_lift only_ret : effects.

(** A program whose calls all read. *)
Ltac reads :=
  repeat first
    [ progress intros
    | apply Call_reads; [reflexivity|by apply (bool_decide_unpack _)]
    | apply only_lift
    | apply only_ret
    | solve [auto with effects]
    | apply only_bind
    | match goal with |- only _ (if ?b then _ else _) => destruct b end
    | match goal with |- only _ (match ?x with _ => _ end) => destruct x end ].

Section methods.
Context {D : Type} `{DecimalOps D} `{RangeOrder} `{Printed D}.
Notation event := (event (@pg_answer D)).
Notation prog := (prog (@pg_answer D)).
Notation tx_prog := (Effects.prog (@tx_answer D)).
Implicit Types (s : option PostgresStore) (arguments : list (argument D)).

Lemma creditState_reads userID : only is_read (creditState userID : tx_prog (option (row D))).
Proof. unfold creditState. reads. Qed.
Hint Resolve creditState_reads : effects.

Lemma credit_posted_reads userID amount r : only is_read (credit_posted userID amount r).
Proof. unfold credit_posted. reads. Qed.

Lemma operation_details_reads userID r name key : only is_read (operation_details userID r name key).
Proof. unfold operation_details, call_row. reads. Qed.

Lemma lease_state_reads userID name r : only is_read (lease_state userID name r).
Proof. unfold lease_state, call_row. reads. Qed.
Hint Resolve credit_posted_reads operation_details_reads lease_state_reads : effects.

Lemma call_scalar_first {A} name arguments (read : cell D -> string -> result A) :
  is_identifier name = true -> writes_first name arguments (call_scalar name arguments read).
Proof. intros Hname. apply writes_first_bind; [by apply call_row_first|]. reads. Qed.

Lemma call_rows_first {A} name arguments (read : list (row D) -> result A) :
  is_identifier name = true -> writes_first name arguments (call_rows name arguments read).
Proof. intros Hname. apply writes_first_bind; [by apply Call_first|]. reads. Qed.

(** Nothing was queried and nothing committed. *)
Definition untouched (t : list event) : Prop := Forall aside t.

(** One transaction, that calls [name] once and only reads then; the method
    succeeds exactly when it is committed. *)
Definition one_transaction {A} (c : PostgresClient) name arguments (t : list event) (r : result A) : Prop :=
  exists queries after,
    t = opening c ++ (in_tx_event <$> queries) ++ after ++ [existT Release tt] /\
    one_write name arguments queries /\
    (after = [existT Commit None] <-> is_Ok r = true).

(** What the runs of a method may do: its arguments are refused before
    anything, or the call is the same in every run. *)
Definition sends {A} (p : prog A) s name (carried : list string) : Prop :=
  (forall t r, runs p t r -> t = [] /\ is_Ok r = false) \/
  exists c arguments,
    s = Some {| PostgresStore_Client := Some c |} /\ (forall text, text ∈ carried -> ArgText text ∈ arguments) /\
    forall t r, runs p t r -> (untouched t /\ is_Ok r = false) \/ one_transaction c name arguments t r.

Lemma sends_raise {A} s name carried err : sends (raise err : prog A) s name carried.
Proof. left. by intros t r [-> ->]. Qed.

Lemma sends_lift {A B} s name carried (x : result A) (f : A -> prog B) :
  (forall a, x = Ok a -> sends (f a) s name carried) -> sends (pbind (lift x) f) s name carried.
Proof. destruct x as [a|err]; intros Hf; [by apply Hf|]. left. by intros t r [-> ->]. Qed.

Lemma sends_lift_in {A B C} s name carried (x : result A) (f : A -> prog B) (g : B -> prog C) :
  (forall a, x = Ok a -> sends (pbind (f a) g) s name carried) -> sends (pbind (pbind (lift x) f) g) s name carried.
Proof. destruct x as [a|err]; intros Hf; [by apply Hf|]. left. by intros t r [-> ->]. Qed.

Lemma ends_succeeded {A} (outcome : result (pg_error + A)) after r :
  ends outcome after r -> (after = [existT Commit None : event] <-> is_Ok r = true).
Proof.
  assert (forall t : list event, rolls_back t -> t <> [existT Commit None]) as Hrb.
  { intros t [->|[failure ->]] Heq%(f_equal (map (@projT1 _ _))); discriminate. }
  destruct outcome as [[err|a]|err]; cbn.
  - intros [Hr (err' & _ & ->)]. split; [intros ->; by apply Hrb in Hr|done].
  - intros [[-> ->]|(failure & rest & -> & Hr & ->)]; [done|]. split; [|done].
    by intros Heq%(f_equal (fun t : list event => match t with existT Commit (Some _) :: _ => true | _ => false end)).
  - intros [Hr (err' & _ & ->)]. split; [intros ->; by apply Hrb in Hr|done].
Qed.

Lemma sends_withTx {A} s name carried arguments (callback : tx_prog A) :
  writes_first name arguments callback -> (forall text, text ∈ carried -> ArgText text ∈ arguments) ->
  sends (withTx s callback) s name carried.
Proof.
  intros Hw Hc. destruct s as [[[c|]]|]; [|apply sends_raise..]. right. exists c, arguments. split; [done|]. split; [done|].
  intros t r Hr. apply WithTx_runs in Hr as [[(Ha & _) (err & ->)]|(c' & queries & outcome & after & [= <-] & -> & Hq & Hends)]; [by left|].
  right. exists queries, after. split; [done|]. split; [|by eapply ends_succeeded].
  eapply writes_first_bind in Hw; [by eapply Hw|]. intros a. apply only_ret.
Qed.

(** The methods that change the database: the function each one calls, and
    what its arguments must carry. *)
Inductive mutation s : forall A, prog A -> string -> list string -> Prop :=
  | mutation_AddCredits userID amount options :
      mutation s _ (AddCredits s userID amount options) "post_credit"
        [TrimSpace userID; amountArgument amount; TrimSpace (AddCreditsOptions_IdempotencyKey options)]
  | mutation_DeductWithAllowance userID amount options :
      mutation s _ (DeductWithAllowance s userID amount options) "charge_usage_for_operation"
        [TrimSpace userID; amountArgument amount; TrimSpace (DeductOptions_IdempotencyKey options)]
  | mutation_RecordUsage userID operation requested options :
      mutation s _ (RecordUsage s userID operation requested options) "record_usage"
        [TrimSpace userID; amountArgument requested; TrimSpace (RecordUsageOptions_IdempotencyKey options)]
  | mutation_CreateLease userID amount operationType options :
      mutation s _ (CreateLease s userID amount operationType options) "create_lease_for_operation"
        [TrimSpace userID; amountArgument amount; TrimSpace (CreateLeaseOptions_IdempotencyKey options)]
  | mutation_SettleLease userID leaseID amount options :
      mutation s _ (SettleLease s userID leaseID amount options) "settle_lease"
        [TrimSpace userID; TrimSpace leaseID; amountArgument amount;
         TrimSpace (or_text (SettleOptions_IdempotencyKey options) ("lease:" +:+ TrimSpace leaseID +:+ ":settle"))]
  | mutation_ReleaseLease userID leaseID :
      mutation s _ (ReleaseLease s userID leaseID) "release_lease" [TrimSpace userID; TrimSpace leaseID]
  | mutation_RenewLease userID leaseID ttl :
      mutation s _ (RenewLease s userID leaseID ttl) "renew_lease" [TrimSpace userID; TrimSpace leaseID; seconds_text ttl]
  | mutation_ExpireLeases limit : mutation s _ (ExpireLeases s limit) "expire_leases" []
  | mutation_ExecuteGrantProgram request :
      mutation s _ (ExecuteGrantProgram s request) "execute_grant_program"
        [TrimSpace (Request_ProgramKey request); TrimSpace (Request_SubjectID request); TrimSpace (Request_EventKey request)]
  | mutation_SweepExpiredCredits dryRun userID limit :
      mutation s _ (SweepExpiredCredits s dryRun userID limit) "sweep_expired_lots" []
  | mutation_RevokeCreditsByEntryType userID entryType :
      mutation s _ (RevokeCreditsByEntryType s userID entryType) "revoke_subject_credits_by_operation"
        [TrimSpace userID; TrimSpace entryType]
  | mutation_RefundCredits entryID amount reason metadata idempotencyKey :
      mutation s _ (RefundCredits s entryID amount reason metadata idempotencyKey) "refund_credit_by_entry"
        ([TrimSpace entryID; TrimSpace idempotencyKey] ++ option_list (amountArgument <$> amount))
  | mutation_PublishAndActivateCatalog config label rollout :
      mutation s _ (PublishAndActivateCatalog s config label rollout) "publish_and_activate_catalog" []
  | mutation_PublishCatalogDraft config label :
      mutation s _ (PublishCatalogDraft s config label) "publish_and_activate_catalog" []
  | mutation_ActivateCatalogRevision version rollout :
      mutation s _ (ActivateCatalogRevision s version rollout) "activate_catalog_revision" []
  | mutation_SetUserPlan userID planKey assignedAt :
      mutation s _ (SetUserPlan s userID planKey assignedAt) "set_subject_plan" [TrimSpace userID; TrimSpace planKey]
  | mutation_UnsetUserPlan userID : mutation s _ (UnsetUserPlan s userID) "unassign_plan" [TrimSpace userID]
  | mutation_SetPlanRevisionPin userID pinned :
      mutation s _ (SetPlanRevisionPin s userID pinned) "set_plan_revision_pin" [TrimSpace userID]
  | mutation_ApplyDuePlanChanges limit :
      mutation s _ (ApplyDuePlanChanges s limit) "apply_due_plan_assignment_changes" []
  | mutation_StartPlanMigration fromPlanID toPlanID :
      mutation s _ (StartPlanMigration s fromPlanID toPlanID) "start_plan_migration" [TrimSpace toPlanID]
  | mutation_MigratePlanBatch migrationID batchSize :
      mutation s _ (MigratePlanBatch s migrationID batchSize) "migrate_plan_batch" [TrimSpace migrationID]
  | mutation_CreateTeam ownerUserID name idempotencyKey initialBalance :
      mutation s _ (CreateTeam s ownerUserID name idempotencyKey initialBalance) "create_team"
        [TrimSpace ownerUserID; TrimSpace idempotencyKey; amountArgument initialBalance]
  | mutation_AddTeamMember teamID userID role spendCap :
      mutation s _ (AddTeamMember s teamID userID role spendCap) "set_team_member"
        ([TrimSpace teamID; TrimSpace userID] ++ option_list (amountArgument <$> spendCap))
  | mutation_RemoveTeamMember teamID userID :
      mutation s _ (RemoveTeamMember s teamID userID) "remove_team_member" [TrimSpace teamID; TrimSpace userID]
  | mutation_DeductTeam teamID userID amount options :
      mutation s _ (DeductTeam s teamID userID amount options) "deduct_team"
        [TrimSpace teamID; TrimSpace userID; amountArgument amount; TrimSpace (TeamDeductionOptions_IdempotencyKey options)].

Lemma requireText_trimmed value field text : requireText value field = Ok text -> text = TrimSpace value.
Proof. unfold requireText. by destruct (_ =? ""); intros [= <-]. Qed.

Lemma requireStableKey_trimmed value field text : requireStableKey value field = Ok text -> text = TrimSpace value.
Proof.
  unfold requireStableKey. destruct (requireText value field) as [trimmed|err] eqn:Ht; [|done]. cbn [bind].
  apply requireText_trimmed in Ht as ->. by destruct (_ <? _); intros [= <-].
Qed.

Lemma requirePositiveDuration_same value field d : requirePositiveDuration value field = Ok d -> d = value.
Proof. unfold requirePositiveDuration. destruct (_ <=? _); [done|]. by destruct (negb _); intros [= <-]. Qed.

(** Reads an argument that was checked as the checked text. *)
Ltac checked :=
  repeat match goal with
  | Hok : requireText _ _ = Ok _ |- _ => apply requireText_trimmed in Hok as ->
  | Hok : requireStableKey _ _ = Ok _ |- _ => apply requireStableKey_trimmed in Hok as ->
  | Hok : requirePositiveDuration _ _ = Ok _ |- _ => apply requirePositiveDuration_same in Hok as ->
  end.

(** An argument is among the arguments. *)
Ltac among := repeat first [apply list_elem_of_here | apply list_elem_of_further].

Ltac carries :=
  let Hin := fresh in
  intros ? Hin; repeat (apply elem_of_cons in Hin as [->|Hin]; [by among|]); by apply elem_of_nil in Hin.

Ltac first_write :=
  first [ apply call_scalar_first; reflexivity
        | apply call_rows_first; reflexivity
        | apply writes_first_bind; [first [apply call_row_first; reflexivity | apply call_scalar_first; reflexivity]|reads] ].

(** Takes a method apart, up to its transaction. *)
Ltac sending :=
  repeat first
    [ apply sends_raise
    | eapply sends_withTx; [first_write|carries]
    | apply sends_lift; intros; checked
    | apply sends_lift_in; intros; checked
    | match goal with |- sends (match ?x with _ => _ end) _ _ _ => destruct x end
    | match goal with |- sends (pbind (match ?x with _ => _ end) _) _ _ _ => destruct x end ].

Lemma mutation_sends s A (p : prog A) name carried : mutation s A p name carried -> sends p s name carried.
Proof.
  destruct 1.
  all: unfold AddCredits, DeductWithAllowance, RecordUsage, CreateLease, SettleLease, ReleaseLease, RenewLease, ExpireLeases,
    ExecuteGrantProgram, SweepExpiredCredits, RevokeCreditsByEntryType, RefundCredits, PublishAndActivateCatalog,
    PublishCatalogDraft, publish, ActivateCatalogRevision, SetUserPlan, UnsetUserPlan, SetPlanRevisionPin, ApplyDuePlanChanges,
    StartPlanMigration, MigratePlanBatch, CreateTeam, AddTeamMember, RemoveTeamMember, DeductTeam.
  all: try match goal with amount : option D |- _ => destruct amount end.
  all: sending.
Qed.

(** C22: a method of the store that changes the database does so in one
    transaction, and a retry asks for the same change.  Either its arguments
    are refused and nothing is done; or one call of its SQL function, carrying
    the trimmed identifiers and idempotency key and the amount rounded to six
    places, is fixed before the database answers anything, and in every run,
    whatever the driver and the database answer, either nothing is queried or
    committed and the method fails, or that call is the first query of one
    configured transaction, every later one only reads, and the method
    succeeds exactly when the transaction is committed. *)
Theorem mutation_once s A (p : prog A) name carried :
  mutation s A p name carried ->
  (forall t r, runs p t r -> t = [] /\ is_Ok r = false) \/
  exists c arguments,
    s = Some {| PostgresStore_Client := Some c |} /\ (forall text, text ∈ carried -> ArgText text ∈ arguments) /\
    forall t r, runs p t r -> (untouched t /\ is_Ok r = false) \/ one_transaction c name arguments t r.
Proof. apply mutation_sends. Qed.
End methods.

(** ** What the model found *)

Section no_catalog.
Context {D : Type} `{DecimalOps D} `{RangeOrder} `{Printed D}.

(** [SELECT * FROM active_catalog_revision()] where there is none: the
    function returns one record, so it answers one row of NULLs. *)
Definition no_catalog_rows : query_rows D :=
  {| Rows_Fields := [("tenant_id", false); ("id", false); ("revision_no", false); ("yaml_schema_version", false);
                     ("source_document", true); ("digest", false); ("status", false); ("label", false); ("created_at", false);
                     ("published_at", false); ("activated_at", false); ("retired_at", false)];
     Rows_Values := [replicate 12 (Value ANil)] |}.

Definition answers_no_catalog (ev : event (@pg_answer D)) : Prop :=
  match ev with existT (InTx _) answer => answer = inr no_catalog_rows | _ => True end.

Lemma no_catalog_invalid operation :
  exists r, rowOptional (collectPostgresRows no_catalog_rows) = Some r /\
    catalogRevisionFromRow r operation = Err (invalid_column operation "id").
Proof.
  unfold no_catalog_rows, collectPostgresRows, rowOptional. cbn [map Rows_Values Rows_Fields].
  match goal with |- context [collect_row ?fields ?values] => set (r := collect_row fields values) end.
  exists r. split; [|unfold catalogRevisionFromRow, requiredRowText, rowValue; by subst r].
  assert (existsb (fun column : string * cell D => negb (is_null column.2)) (range r) = true) as ->; [|done].
  apply existsb_exists. exists ("source_document", Bytes ""). split; [|done].
  apply list_elem_of_In, elem_of_range. by subst r.
Qed.

(** The NULL document of a row of NULLs is read into an empty byte slice that
    is not nil: a tenant without an active catalog is an error, not "no
    catalog". *)
Theorem no_active_catalog_fails (s : option PostgresStore) (t : list (event (@pg_answer D))) (r : result (option (CatalogRevision D))) :
  runs (GetActiveCatalog s) t r -> Forall answers_no_catalog t -> is_Ok r = false.
Proof.
  unfold GetActiveCatalog, withTx. destruct s as [[[c|]]|]; [|by intros [_ ->]..].
  intros [[_ [err ->]]|(c' & queries & outcome & after & _ & -> & Hq & Hends)]%WithTx_runs Hall; [done|].
  apply Forall_app in Hall as [_ [Hall _]%Forall_app]. destruct Hq as (answer & queries' & -> & Hq).
  apply Forall_cons in Hall as [Hanswer _]. cbn in Hanswer. subst answer.
  destruct (no_catalog_invalid "active_catalog_revision") as (r' & Hr' & Hinvalid). cbn [pbind lift ret] in Hq. rewrite Hr' in Hq.
  cbn [pbind lift] in Hq. rewrite Hinvalid in Hq. destruct Hq as [-> ->]. by destruct Hends as [_ (err & _ & ->)].
Qed.
End no_catalog.

(** ** Paging through the ledger *)

(** What a program returns where each call has one answer. *)
Fixpoint outcome_of {call} {answer : call -> Type} {A} (reply : forall c, answer c) (p : Effects.prog answer A) : result A :=
  match p with Done r => r | Do c k => outcome_of reply (k (reply c)) end.

Section outcome_facts.
Context {call : Type} {answer : call -> Type} (reply : forall c, answer c).

Lemma outcome_catch {A B} (p : Effects.prog answer A) (f : result A -> Effects.prog answer B) :
  outcome_of reply (pcatch p f) = outcome_of reply (f (outcome_of reply p)).
Proof. induction p as [r|c k IH]; cbn; [done|apply IH]. Qed.

Lemma outcome_bind {A B} (p : Effects.prog answer A) (f : A -> Effects.prog answer B) :
  outcome_of reply (pbind p f) = bind (outcome_of reply p) (fun a => outcome_of reply (f a)).
Proof. induction p as [[a|err]|c k IH]; cbn; [done..|apply IH]. Qed.
End outcome_facts.

Section paging.
Context {D : Type} `{DecimalOps D} `{RangeOrder} `{Printed D}.
Implicit Types (reply : forall c : pg_call D, pg_answer c) (table : list (row D)).

(** A driver that does what it is asked. *)
Record working reply : Prop := {
  working_open : reply ClientOpen = true;
  working_done : reply PoolAcquire = None /\ reply BeginTx = None /\ reply Commit = None;
  working_exec sql arguments : reply (Exec sql arguments) = None;
}.

Lemma outcome_in_tx {A} reply (p : Effects.prog (@tx_answer D) A) :
  outcome_of reply (in_tx p) = outcome_of (fun q => reply (InTx q)) p.
Proof. induction p as [r|c k IH]; cbn; [done|apply IH]. Qed.

Lemma configure_outcome reply statements : working reply -> outcome_of reply (configure statements) = Ok tt.
Proof.
  intros Hw. induction statements as [|[sql arguments] rest IH]; [done|]. cbn [configure]. rewrite outcome_bind.
  cbn. unfold id. by rewrite (working_exec _ Hw).
Qed.

Lemma WithTx_outcome {A} reply c (callback : Effects.prog (@tx_answer D) (pg_error + A)) a :
  working reply -> outcome_of (fun q => reply (InTx q)) callback = Ok (inr a) ->
  outcome_of reply (WithTx (Some c) (Some callback)) = Ok a.
Proof.
  intros Hw Hc. destruct (working_done _ Hw) as (Hacquire & Hbegin & Hcommit). unfold WithTx. rewrite outcome_bind.
  cbn [acquire outcome_of]. rewrite (working_open _ Hw). cbn [negb outcome_of]. rewrite Hacquire. cbn [outcome_of ret bind].
  rewrite outcome_catch. unfold transaction. rewrite outcome_bind. cbn [PostgresClient.exec outcome_of]. unfold id. rewrite Hbegin. cbn [ret outcome_of bind].
  rewrite outcome_catch, outcome_bind, configure_outcome by done. cbn [bind]. rewrite outcome_bind.
  unfold callback_result. rewrite outcome_catch, outcome_in_tx, Hc. cbn [ret outcome_of bind]. rewrite outcome_bind. cbn [PostgresClient.exec outcome_of].
  by rewrite Hcommit.
Qed.

Definition from_cursor (options : ListLedgerEntriesOptions) (cursor : option Cursor) : ListLedgerEntriesOptions :=
  {| ListLedger_EntryTypes := ListLedger_EntryTypes options; ListLedger_From := ListLedger_From options;
     ListLedger_To := ListLedger_To options; ListLedger_Limit := ListLedger_Limit options; ListLedger_Cursor := cursor |}.

(** A caller that lists the ledger until there is no next cursor. *)
Fixpoint walk (fuel : nat) reply (s : option PostgresStore) (userID : string) (options : ListLedgerEntriesOptions)
    (cursor : option Cursor) : result (list (LedgerEntry (D:=D))) :=
  match fuel with
  | O => Err FuelExhausted
  | S fuel =>
      p <- outcome_of reply (ListLedgerEntries s userID (from_cursor options cursor)) ;;
      match Page_NextCursor p with
      | None => Ok (Page_Items p)
      | Some next => rest <- walk fuel reply s userID options (Some next) ;; Ok (Page_Items p ++ rest)
      end
  end.

Definition ledger_query (userID : string) (options : ListLedgerEntriesOptions) (n : Z) (position : list (argument D)) : pg_call D :=
  InTx (function_call "list_ledger"
    ([ArgText (TrimSpace userID)] ++ position ++
     [ArgInt n; ArgTexts (ListLedger_EntryTypes options); nullableTime (ListLedger_From options);
      nullableTime (ListLedger_To options); ArgBool false])).

(** A database that keeps its keyset contract: [list_ledger] answers as many
    rows of [table] as it is asked for, after the one the cursor names. *)
Record keyset reply (userID : string) (options : ListLedgerEntriesOptions) table : Prop := {
  keyset_first n : exists rows,
    reply (ledger_query userID options n [ArgNil; ArgNil]) = inr rows /\ collectPostgresRows rows = take (Z.to_nat n) table;
  keyset_next n i r entry : table !! i = Some r -> ledgerEntryFromRow r "list_ledger" = Ok entry -> exists rows,
    reply (ledger_query userID options n
      [ArgTime (ToUTC (LedgerEntry_CreatedAt entry)); ArgText (TrimSpace (LedgerEntry_EntryID entry))]) = inr rows /\
    collectPostgresRows rows = take (Z.to_nat n) (drop (S i) table);
}.

Notation read := (fun r : row D => ledgerEntryFromRow r "list_ledger").

(** Where a walk stands: before the first entry, or after the one the cursor
    names. *)
Definition stands (items : list (LedgerEntry (D:=D))) (skip : nat) (cursor : option Cursor) : Prop :=
  (skip = O /\ cursor = None) \/
  exists i entry, skip = S i /\ items !! i = Some entry /\ cursor = Some (ledger_cursor entry).

Lemma entry_named r entry : read r = Ok entry -> TrimSpace (LedgerEntry_EntryID entry) <> "".
Proof.
  unfold ledgerEntryFromRow, requiredRowText. destruct (textValue (rowValue r "entry_id")) as [text|]; [|done].
  destruct (TrimSpace text =? "") eqn:Ht; [done|]. cbn [bind]. intros Hr. inv_bind. cbn. by apply String.eqb_neq.
Qed.

Lemma Call_outcome (reply : forall c, @tx_answer D c) name arguments rows :
  is_identifier name = true -> reply (function_call name arguments) = inr rows ->
  outcome_of reply (Call name arguments) = Ok (collectPostgresRows rows).
Proof. intros Hname Hr. unfold Call, classified, tx_rpc. rewrite Hname. cbn. fold (function_call name arguments). by rewrite Hr. Qed.

Lemma map_result_slice {A B} (f : A -> result B) xs ys n k :
  map_result f xs = Ok ys -> map_result f (take n (drop k xs)) = Ok (take n (drop k ys)).
Proof. rewrite !map_result_Ok. intros Hf. by apply Forall2_take, Forall2_drop. Qed.

Lemma page_from_slice table items limit skip :
  map_result read table = Ok items -> 0 <= limit ->
  page_from_rows limit read ledger_cursor (take (Z.to_nat (limit + 1)) (drop skip table)) =
  Ok {| Page_Items := take (Z.to_nat limit) (drop skip items);
        Page_NextCursor := if limit <? Z.of_nat (length (drop skip items))
                           then ledger_cursor <$> last (take (Z.to_nat limit) (drop skip items)) else None |}.
Proof.
  intros Hread Hlimit. assert (length table = length items) as Hlen by (apply map_result_Ok in Hread; by eapply Forall2_length).
  unfold page_from_rows. rewrite length_take, !length_drop, <- Hlen.
  destruct (Z.ltb_spec limit (Z.of_nat (length table - skip))) as [Hmore|Hmore].
  - rewrite (proj2 (Z.ltb_lt _ _)) by lia. rewrite take_take, Nat.min_l by lia.
    by rewrite (map_result_slice _ _ _ _ _ Hread).
  - rewrite (proj2 (Z.ltb_ge _ _)) by lia. rewrite (map_result_slice _ _ _ _ _ Hread). cbn [bind].
    do 2 f_equal. rewrite !take_ge; [done|rewrite length_drop; lia..].
Qed.

Section walking.
Context (reply : forall c : pg_call D, pg_answer c) (c : PostgresClient) (userID : string) (options : ListLedgerEntriesOptions).
Context (limit : Z) (table : list (row D)) (items : list (LedgerEntry (D:=D))).
Context (Hworking : working reply) (Hkeyset : keyset reply userID options table).
Context (Huser : TrimSpace userID <> "") (Hlimit : validateLedgerOptions options = Ok limit).
Context (Hread : map_result read table = Ok items).
Context (Htimes : Forall (fun entry : LedgerEntry (D:=D) => IsZeroTime (LedgerEntry_CreatedAt entry) = false) items).

Lemma limit_positive : 1 <= limit.
Proof.
  unfold validateLedgerOptions, requireBoundedLimit in Hlimit. destruct (ListLedger_Limit options =? 0)%Z.
  - cbn [bind] in Hlimit. destruct (reversed _ _); [done|]. by injection Hlimit as <-.
  - destruct (Z.ltb_spec (ListLedger_Limit options) 1) as [|Hpos]; [done|]. cbn [orb] in Hlimit.
    destruct (_ <? _); [done|]. cbn [bind] in Hlimit. destruct (reversed _ _); [done|]. by injection Hlimit as <-.
Qed.

Lemma page_outcome skip cursor :
  stands items skip cursor ->
  outcome_of reply (ListLedgerEntries (Some {| PostgresStore_Client := Some c |}) userID (from_cursor options cursor)) =
  Ok {| Page_Items := take (Z.to_nat limit) (drop skip items);
        Page_NextCursor := if limit <? Z.of_nat (length (drop skip items))
                           then ledger_cursor <$> last (take (Z.to_nat limit) (drop skip items)) else None |}.
Proof.
  intros Hstands. pose proof limit_positive as Hpos.
  assert (exists position rows,
    cursor_arguments "ledger" "ledger cursor entry ID" cursor = Ok position /\
    reply (ledger_query userID options (limit + 1) position) = inr rows /\
    collectPostgresRows rows = take (Z.to_nat (limit + 1)) (drop skip table)) as (position & rows & Hposition & Hrows & Hcollect).
  { destruct Hstands as [[-> ->]|(i & entry & -> & Hi & ->)].
    - destruct (keyset_first _ _ _ _ Hkeyset (limit + 1)) as (rows & Hr & Hc). by exists [ArgNil; ArgNil], rows.
    - apply map_result_Ok in Hread as Hall. destruct (Forall2_lookup_r _ _ _ _ _ Hall Hi) as (r & Hr & Hentry).
      destruct (keyset_next _ _ _ _ Hkeyset (limit + 1) i r entry Hr Hentry) as (rows & Hrows & Hc).
      eexists _, rows. split; [|done]. unfold cursor_arguments, ledger_cursor. cbn [Cursor_At Cursor_ID].
      rewrite (Forall_lookup_1 _ _ _ _ Htimes Hi). unfold requireText. apply entry_named, String.eqb_neq in Hentry. by rewrite Hentry. }
  unfold ListLedgerEntries, listLedger. unfold requireText at 1. apply String.eqb_neq in Huser. rewrite Huser. cbn [lift pbind].
  replace (validateLedgerOptions (from_cursor options cursor)) with (validateLedgerOptions options) by done.
  rewrite Hlimit. cbn [pbind ListLedger_Cursor from_cursor]. rewrite Hposition. cbn [pbind withTx].
  apply WithTx_outcome; [done|]. rewrite outcome_bind. unfold call_rows. rewrite outcome_bind.
  rewrite (Call_outcome _ _ _ rows); [|done|exact Hrows]. cbn [bind lift outcome_of]. rewrite Hcollect.
  by rewrite (page_from_slice _ _ _ _ Hread) by lia.
Qed.

Lemma walk_from fuel skip cursor :
  stands items skip cursor -> (length items - skip < fuel)%nat ->
  walk fuel reply (Some {| PostgresStore_Client := Some c |}) userID options cursor = Ok (drop skip items).
Proof.
  pose proof limit_positive as Hpos. revert skip cursor. induction fuel as [|fuel IH]; intros skip cursor Hstands Hfuel; [lia|].
  cbn [walk]. rewrite (page_outcome _ _ Hstands). cbn [bind Page_NextCursor Page_Items]. rewrite length_drop.
  destruct (Z.ltb_spec limit (Z.of_nat (length items - skip))) as [Hmore|Hmore].
  - assert (is_Some (items !! (skip + Z.to_nat limit - 1)%nat)) as [entry Hentry] by (apply lookup_lt_is_Some; lia).
    assert (last (take (Z.to_nat limit) (drop skip items)) = Some entry) as ->.
    { rewrite last_lookup, length_take, length_drop, lookup_take_lt, lookup_drop by lia. rewrite <- Hentry. f_equal. lia. }
    cbn [fmap option_fmap option_map].
    rewrite (IH (skip + Z.to_nat limit)%nat); [|right; exists (skip + Z.to_nat limit - 1)%nat, entry; split_and!; [lia|done|done]|lia].
    cbn [bind]. by rewrite <- drop_drop, take_drop.
  - by rewrite take_ge by (rewrite length_drop; lia).
Qed.
End walking.
End paging.


(** ** Samples *)

#[local] Existing Instance canonical_range.
#[local] Instance any_text : Printed dec := {| Sprint := fun _ => ""; Encodes := fun _ => true |}.

Definition sample_store : option PostgresStore := Some {| PostgresStore_Client := sample_client |}.

(** What the database answers to [create_team]. *)
Definition team_rows : query_rows dec :=
  {| Rows_Fields := [("team_id", false); ("name", false); ("idempotent", false)];
     Rows_Values := [[Bytes16 (replicate 16 171); Value (AString "Team"); Value (ABool false)]] |}.

(** A database that answers [rows], and a driver that does what it is asked
    up to [commit]'s answer. *)
Definition store_driver (rows : query_rows dec) (commit : option driver_failure) (c : pg_call dec) (s : unit) : pg_answer c * unit :=
  match c with
  | ClientOpen => (true, s)
  | PoolAcquire | BeginTx | Exec _ _ | Rollback => (None, s)
  | Commit => (commit, s)
  | InTx _ => (inr rows, s)
  | OnPoolError _ | CloseConnection | Release => (tt, s)
  end.

Definition sample_team := CreateTeam sample_store " owner " "Team" " key-1 " (lit "0.1234567").
Definition team_run (commit : option driver_failure) := run (store_driver team_rows commit) tt sample_team.

(** A lost commit fails the call, with the same query sent. *)
Lemma mutation_once_witness :
  is_Ok (team_run None).1.2 = true /\ is_Ok (team_run (Some connection_lost)).1.2 = false /\
  exists c arguments,
    sample_store = Some {| PostgresStore_Client := Some c |} /\
    (forall text, text ∈ ["owner"; "key-1"; "0.123457"] -> ArgText text ∈ arguments) /\
    one_transaction c "create_team" arguments (team_run None).1.1 (team_run None).1.2 /\
    one_transaction c "create_team" arguments (team_run (Some connection_lost)).1.1 (team_run (Some connection_lost)).1.2.
Proof.
  assert (is_Ok (team_run None).1.2 = true) as Hok by (vm_compute; reflexivity).
  split; [exact Hok|]. split; [vm_compute; reflexivity|].
  assert (Hm := mutation_CreateTeam sample_store " owner " "Team" " key-1 " (lit "0.1234567")).
  destruct (mutation_once _ _ _ _ _ Hm) as [Hnone|(c & arguments & Hc & Hcarried & Hruns)].
  - destruct (Hnone _ _ (run_runs (store_driver team_rows None) sample_team tt)) as [Ht _]. vm_compute in Ht. discriminate Ht.
  - exists c, arguments. split; [exact Hc|]. split; [|split].
    + intros text Hin. apply Hcarried. vm_compute in Hin. vm_compute. exact Hin.
    + destruct (Hruns _ _ (run_runs (store_driver team_rows None) sample_team tt)) as [[Ht _]|Ht]; [|exact Ht].
      vm_compute in Ht. repeat (apply Forall_cons in Ht as [?Hev Ht]; try contradiction).
    + destruct (Hruns _ _ (run_runs (store_driver team_rows (Some connection_lost)) sample_team tt)) as [[Ht _]|Ht]; [|exact Ht].
      vm_compute in Ht. repeat (apply Forall_cons in Ht as [?Hev Ht]; try contradiction).
Defined.

Lemma no_active_catalog_fails_witness :
  is_Ok (run (store_driver no_catalog_rows None) tt (GetActiveCatalog sample_store)).1.2 = false.
Proof.
  apply (no_active_catalog_fails sample_store _ _ (run_runs (store_driver no_catalog_rows None) (GetActiveCatalog sample_store) tt)).
  vm_compute. repeat constructor.
Defined.

(** A ledger of three entries, and a database that pages through it. *)
Definition ledger_fields : list (string * bool) := [("entry_id", false); ("account_id", false); ("amount", false); ("created_at", false)].

Definition ledger_values : list (list (cell dec)) :=
  [[Value (AString "c"); Value (AString "acc"); Value (AString "-1.500000"); Value (AString "2026-03-01T10:00:00Z")];
   [Value (AString "b"); Value (AString "acc"); Value (AString "2"); Value (AString "2026-02-01T10:00:00Z")];
   [Value (AString "a"); Value (AString "acc"); Value (AString "10"); Value (AString "2026-01-01T10:00:00Z")]].

(** The rows after an entry. *)
Definition ledger_after (id : argument dec) : list (list (cell dec)) :=
  match id with
  | ArgText id => if id =? "c" then drop 1 ledger_values else if id =? "b" then drop 2 ledger_values else []
  | _ => ledger_values
  end.

Definition ledger_reply (c : pg_call dec) : pg_answer c :=
  match c with
  | ClientOpen => true
  | PoolAcquire | BeginTx | Exec _ _ | Commit | Rollback => None
  | InTx (TxQuery _ (_ :: _ :: id :: ArgInt n :: _)) =>
      inr {| Rows_Fields := ledger_fields; Rows_Values := take (Z.to_nat n) (ledger_after id) |}
  | InTx _ => inr {| Rows_Fields := []; Rows_Values := [] |}
  | OnPoolError _ | CloseConnection | Release => tt
  end.

Definition ledger_table : list (row dec) := map (collect_row ledger_fields) ledger_values.

Definition two_by_two : ListLedgerEntriesOptions :=
  {| ListLedger_EntryTypes := None; ListLedger_From := None; ListLedger_To := None; ListLedger_Limit := 2; ListLedger_Cursor := None |}.

Definition ledger_items : list (LedgerEntry (D:=dec)) :=
  match map_result (fun r => ledgerEntryFromRow r "list_ledger") ledger_table with Ok items => items | Err _ => [] end.

Lemma ledger_reply_keyset userID : keyset ledger_reply userID two_by_two ledger_table.
Proof.
  assert (forall n (values : list (list (cell dec))), map (collect_row ledger_fields) (take n values) = take n (map (collect_row ledger_fields) values)) as Htake
    by (intros n values; by rewrite <- firstn_map).
  split.
  - intros n. eexists. split; [reflexivity|]. apply Htake.
  - intros n i r entry Hi Hentry. eexists. split; [reflexivity|]. unfold collectPostgresRows. cbn [Rows_Fields Rows_Values]. rewrite Htake.
    f_equal. destruct i as [|[|[|i]]]; cbn in Hi; [injection Hi as <-..|done]; vm_compute in Hentry; injection Hentry as <-; reflexivity.
Qed.

